(* ===== verification/_CoqProject ===== *)
-Q . S2P
Prelude.v
Bytes.v
BinarySearch.v
Receipts.v
WorkspaceId.v
Order.v
BTreeMap.v
Merge.v
Clocks.v
Stamp.v
Counter.v
LwwSet.v
OrSet.v
Rga.v
MvRegister.v
PriorityQueue.v
Text.v
Value.v
CellLaws.v
CellOps.v
Backend.v
MapBackend.v
Engine.v
SkipList.v
SkipListLaws.v
SkipListOps.v
SkipListBackend.v
SkipListReads.v
SkipListBulk.v
MergedEntries.v
Serdes.v
Mmap.v
KeyDir.v
KeyDirLog.v
KeyDirOps.v
KeyDirReplay.v
KeyDirBackend.v
KeyDirStore.v
BPlusPages.v
BPlusNodes.v
BPlus.v
BPlusBytes.v
BPlusSlots.v
BPlusCells.v
BPlusPageOps.v
BPlusStore.v
BPlusAlloc.v
BPlusLeaf.v
BPlusSplit.v
BPlusPut.v
BPlusShape.v
BPlusTree.v
BPlusEdit.v
BPlusReads.v
BPlusWrites.v
BPlusBuild.v
BPlusOpen.v
BPlusTyped.v
BPlusCompact.v
BPlusLaws.v
Topic.v
TopicLog.v
TopicLaws.v
Table.v
State.v
TableLaws.v
TableRecovery.v
TableReads.v
Devices.v
DeviceLaws.v
DeviceStore.v
StateCatalog.v
TableCatalog.v
Workspace.v
WitnessCrdt.v
WitnessCell.v
WitnessStorage.v
WitnessDevices.v
WitnessBPlus.v
WitnessEngines.v
