(* ===== verification/Prelude.v ===== *)
(** * ZenDB: a verification development of the embedded database

    ZenDB is a synchronous embedded database in three crates.  [zendb-types]
    holds replicated values (CRDTs), their stamps and identifiers;
    [zendb-storage] holds the storage engines, the append-only topics and the
    tables built from both; [zendb-workspace] owns the tables, the registry of
    devices, the hybrid clock and the duplicate detection.  The development
    translates the Rust code into executable definitions and proves what makes
    the parts, and their composition, correct.

    ** How the parts interact

    A write enters a table as an event.  [Table::insert] reads the current
    cell, applies the operation at the event's path ([cell_apply_walk]),
    appends the change to the topic, then buffers the new cell in the cache, a
    bounded skip list.  A full cache is drained into the state, which is one of
    three engines; the offset of the recovery consumer, kept in a KeyDir,
    records up to where the state has absorbed the topic, and opening a table
    replays the rest.  The workspace stamps events with [Devices::mint], checks
    roles against the registry table, which it caches, and records the events
    received from each peer in receipt windows.  Tables and states are declared
    in two catalogs: the one of tables is a table, whose listener opens,
    creates and removes the others; the one of states is a state.

    ** The files, and the code they model

    - [Prelude], [Bytes], [BinarySearch], [Order], [BTreeMap]: results with
      panics, machine integers, byte strings ([utils/serdes.rs],
      [utils/mod.rs]), and the parts of Rust's standard library the source
      uses ([Ord], [BTreeMap], [binary_search_by], [Vec]).
    - [Stamp], [WorkspaceId] ([crdt/stamp.rs], the keys of
      [crdt/_macros.rs], [identity/]): identifiers and hybrid time.
    - [Merge], [Clocks]: the join interface [JoinLaws] and the map loop
      that lifts it, the clock maps of the tombstones.
    - [Counter], [LwwSet], [OrSet], [MvRegister], [PriorityQueue], [Rga],
      [Text] ([crdt/values/]): one Module per replicated type.
    - [Value], [CellLaws], [CellOps] ([crdt/cell.rs], [op.rs], [path.rs],
      [_macros.rs], [values/record.rs], [values/list.rs]): the union of
      values with the records and lists that contain cells, merging, and the
      operations at a path.
    - [Backend], [MapBackend], [Engine]
      ([backend/_traits.rs]): the traits as classes, their contracts
      ([BackendLaws], [OrderedLaws], [BoundedLaws], [DurableLaws]), the
      provided methods, the reference map engines refine.
    - [SkipList], [SkipListLaws], [SkipListOps], [SkipListBackend],
      [SkipListReads], [SkipListBulk] ([backend/skiplist.rs]).
    - [Serdes], [KeyDir], [KeyDirLog], [KeyDirOps], [KeyDirReplay],
      [KeyDirBackend], [KeyDirStore] ([backend/keydir.rs]).
    - [Mmap], [BPlusPages], [BPlusNodes], [BPlus] ([backend/btree.rs]): the
      mapped file as bytes, the pages and the allocator (Module [Pages]), the
      slotted leaf and internal pages with their search, splits and merges of
      space (Module [Nodes]), the tree's operations (Module [BPlus]).
      [BPlusBytes], [BPlusSlots], [BPlusCells], [BPlusPageOps] prove what the
      byte-level operations do to one page; [BPlusStore], [BPlusAlloc],
      [BPlusLeaf], [BPlusSplit], [BPlusPut] lift them to the store ([phys]),
      whose pages are leaves, internal nodes, extents of long values or links
      of the free list;
      [BPlusShape], [BPlusTree] relate those pages to a tree ([tree_in]);
      [BPlusReads], [BPlusTyped] read it, [BPlusEdit], [BPlusWrites] change it,
      [BPlusBuild] builds one bottom up, [BPlusOpen] creates, clears and opens
      it, [BPlusCompact] compacts it and loads entries in bulk; [BPlusLaws]
      compares it with a map.
    - [Topic], [TopicLog], [TopicLaws] ([topic.rs]).
    - [Table], [MergedEntries], [TableLaws], [TableRecovery], [TableReads]
      ([table/]), [State] ([backend/state.rs]).
    - [Receipts], [Devices], [DeviceLaws], [DeviceStore]
      ([zendb-workspace/src/devices/], [tables/listeners/],
      [tables/runtime.rs], [error.rs]).
    - [StateCatalog] ([states/mod.rs], [states/runtime.rs], [consts.rs]): the
      catalog of states and its map of open handles (Module [States]), against
      the interface [StateFiles] that [State] implements; [TableCatalog]
      ([tables/mod.rs], [tables/runtime.rs], [listeners/catalog.rs], and what
      [Table] leaves in its directory): the catalog of tables and its listener
      (Module [Tables]), against [TableFiles]; [Workspace] ([workspace.rs]):
      the identity, the lock, and [create], [open], [join], [flush] and [sync]
      as compositions of the three parts (Module [Workspace]).
    - [WitnessCrdt], [WitnessCell], [WitnessStorage], [WitnessDevices],
      [WitnessEngines], [WitnessBPlus]: the theorems at concrete inputs, and runs that show
      what the code does in the cases reported as findings.

    Names follow the source: a field or method of the source has its name,
    with a prefix of the component where Rocq's global names would clash
    ([sl_put], [kd_put], [table_get], [tp_next]).  A struct is a record, an
    enum an inductive type.  A fallible operation that mutates its receiver
    returns the receiver beside a [result E A]; [Panic] stands for a panic,
    overflow included, so that the absence of panics is a theorem.  A stored
    integer is a [Z] with the bounds of its width, a checked or wrapping
    operation written out.

    ** What the theorems show

    - Engines: the skip list ([skiplist_refines]) and the KeyDir
      ([keydir_refines]) answer any run of operations as an ordered map does,
      the KeyDir across compactions and reopenings; the sorted bulk walks end
      in the state of the single operations ([skiplist_bulk]); KeyDir's
      failing system calls never panic a write and lose no acknowledged one
      ([keydir_faults]); compaction keeps the entries and leaves no dead byte
      ([keydir_compaction]).
      The B+ tree answers as a map from encoded keys, across bulk loads,
      compactions and reopenings ([btree_refines]), for operations that are
      [allowed]: the entries take at most a third of a leaf each ([MAX_ENTRY]
      bytes), no internal page has to split, a bulk load is of sorted keys into
      one empty leaf, a compacted copy fits the mapped file.  The code splits
      leaves of larger entries and internal pages wrongly
      ([WitnessBPlus.TreeRun.leaf_split_overflows],
      [WitnessBPlus.SplitRun.root_split_hides]).  It reads as the list of its
      entries in the order of their bytes ([btree_reads]), keeps a well-formed
      file ([btree_shape]) and its loops end ([btree_loops_end]).
    - Topics: what an append does, rotation and compaction included
      ([topic_append]), every retained record is read once and in order
      ([topic_read]), and a crash, a torn last record and a directory in any
      order give the log back ([topic_recovery]).
    - Tables: [table_insert] on every branch, failing storage included,
      [table_write_back], [merged_overlay], and [table_recovery]: opening after
      a crash gives every row back, whatever part of the log the state had
      absorbed.  The ordered reads are proved over the engines themselves: a
      state reads in the order of its engine ([state_ordered_reads]), which is
      that of the serialized keys for the B+ tree, and a table, which merges by
      the keys, reads right when the two orders agree on its keys
      ([table_reads]; [WitnessStorage.ReadsRun.merge_order_stale] when they do
      not).
    - Replicated values: for each type the state is the one its history
      determines, whatever the order of delivery ([set_membership],
      [orset_membership], [mv_register_history], [pq_history],
      [text_converges], [cell_last_writer_wins]); cells and values converge
      under merging ([cell_converges], [cell_exchange_agrees]); the behaviour
      of single operations ([counter_add], [text_insert], [text_delete],
      [orset_observed_remove], [pq_pop], [walk_focuses]); no operation at any
      path panics ([walk_never_panics]).
    - Devices: minted stamps exceed everything minted or observed
      ([mint_order]), an event is new exactly when its sequence was not
      received before ([receipts_observe], [observe_receives]) and the order of
      arrival leaves no trace ([receipts_canonical]); checkpoints round-trip
      ([devices_checkpoint]); registration obeys the roles and
      keeps the registry's table and its cache together ([devices_upsert]).
    - Catalogs: every run of calls on the states gives answers that the life
      of the declarations allows ([states_refine]); [tables_upsert] and
      [tables_delete] guard by guard, with what they do to every handle and
      directory; reopening finds every declaration and
      every row again ([states_reopen], [tables_reopen]).
    - Workspace: creating one establishes the invariants of all its parts
      ([workspace_create]), and one that is flushed or synced and opened again
      is the same workspace ([workspace_reopen]): tables, devices, roles, clock
      and receipts.  This is for a workspace whose declared tables are all open
      in directories that give them back under their declared configurations
      ([intact]), which declaring a new table, deleting one, inserting rows and
      flushing preserve ([upsert_intact], [delete_intact], [insert_intact],
      [tables_barrier]).
    - Theorems that state behaviour the documents do not intend:
      [nested_upsert_lost], [crash_reuses_identity], [delete_never_succeeds]
      (deleting a state), [failed_create_sticks] (a table that could not be
      made) and [join_overwrites] (joining on an existing workspace).

    ** Bounds and fuel

    Recursion that is not structural carries fuel, and the theorems show the
    fuel the definitions pass is enough, or quantify over every fuel above an
    explicit bound: [fuel_of] of the skip list exceeds the length of any of its
    chains; the scan of a segment and the replay of a KeyDir consume at least
    four bytes a step and get the length of the file; [MergedEntries] consumes an
    entry a step; draining a topic needs more fuel than there are records
    left ([topic_read]); replaying a table the same ([table_recovery]).
    [fuel_of] of the B+ tree is the size of its file in bytes, which exceeds
    the pages of any path and the entries of any chain of leaves.
    Topic offsets and file sizes are unbounded integers where the source
    has [u64]: the file system would have to hold 2^63 records to overflow them.

    ** Parameters

    - [Libp2p] ([Stamp]): the ordered type of peer ids of [libp2p_identity].
    - [Codec] ([Serdes]): the [bincode] encoding; [LawfulCodec] and [codec_ok]
      say that decoding an encoded value gives it back.
    - The system: a topic's disk accepts [tp_disk] more bytes, KeyDir's
      system calls answer as the list [kd_os] says, the wall clock is an
      argument ([None]: before the epoch).  A crash keeps the bytes written.
    - The hash map of KeyDir is an association list in an arbitrary order.
    - [StateFiles], [CatalogFile], [TableFiles], [PeerHandle]: what the catalogs
      ask of states, tables and the state of the peers, with their laws
      ([StateFilesLaws], [TableFilesLaws], [PeerHandleLaws]); all four
      have an engine instance with its laws ([state_files], [engine_catalog] and
      [engine_peers] over KeyDir, [table_files] over the engines' directories),
      and an executable one in [WitnessDevices].
    - The system tables have an unordered state, so that what the catalogs
      read of them does not depend on an order.
    - What a backend refuses (a value its codec cannot encode) is the argument
      of [reliable]; [keydir_reliable] says that KeyDir refuses nothing else.

    ** Not modelled

    The files of segments that compaction dropped while a cursor was reading
    them, in what a crash leaves ([files_of]).  The interleaving of threads:
    every operation runs under the locks of its parts, and the model is
    sequential.  The order in which a hash map is
    visited (the catalogs visit names in order), names of states and tables
    with several path components, and how long a client keeps a handle, of
    which the model has the count.  The conversions between Rust numbers and
    scalars, and [utils/reusables.rs], which recycles buffers, have no model.
    Keys and signatures are the libp2p crate's.  The providers of bulk methods
    of the traits that [State] forwards are not told apart from the traits'
    own.  The tests of [zendb-it] are not part of the program.
*)

From stdpp Require Import base numbers option list.

(** ** Results, as the code has them

    [result E A] is Rust's [Result<A, E>] with one more constructor: [Panic]
    is a run of the code that ends in a panic (an [expect] on [None], an
    out-of-range slice, an unwrap), so that "the code does not panic here" is
    a statement and not a convention. *)
Inductive result (E A : Type) : Type :=
  | Ok (a : A)
  | Err (e : E)
  | Panic.
Arguments Ok {_ _} _.
Arguments Err {_ _} _.
Arguments Panic {_ _}.

Definition map_err {E F A} (f : E → F) (r : result E A) : result F A :=
  match r with Ok a => Ok a | Err e => Err (f e) | Panic => Panic end.

Definition rmap {E A B} (f : A → B) (r : result E A) : result E B :=
  match r with Ok a => Ok (f a) | Err e => Err e | Panic => Panic end.

Definition is_ok {E A} (r : result E A) : bool :=
  match r with Ok _ => true | _ => false end.

(** The [?] operator. *)
Definition rbind {E A B} (r : result E A) (f : A → result E B) : result E B :=
  match r with Ok a => f a | Err e => Err e | Panic => Panic end.

Declare Scope zen_scope.
Delimit Scope zen_scope with zen.
Notation "x <-? r ;; k" := (rbind r (λ x, k))
  (at level 100, r at next level, right associativity) : zen_scope.

#[export] Instance result_eq_dec {E A} `{EqDecision E, EqDecision A} :
  EqDecision (result E A).
Proof. solve_decision. Defined.

(** ** Machine integers

    A [u64], [u32] or [i64] is a [Z]; the operations below write out what the
    source does at the ends of the range. *)
Definition u8_max : Z := 255.
Definition u16_max : Z := 65535.
Definition u32_max : Z := 4294967295.
Definition u64_max : Z := 18446744073709551615.
Definition i64_min : Z := -9223372036854775808.
Definition i64_max : Z := 9223372036854775807.

Definition in_u32 (z : Z) : bool := (0 <=? z)%Z && (z <=? u32_max)%Z.
Definition in_u64 (z : Z) : bool := (0 <=? z)%Z && (z <=? u64_max)%Z.
Definition in_i64 (z : Z) : bool := (i64_min <=? z)%Z && (z <=? i64_max)%Z.

(** [u64::checked_add] and [u32::checked_add]. *)
Definition checked_add_u64 (a b : Z) : option Z :=
  if (a + b <=? u64_max)%Z then Some (a + b)%Z else None.
Definition checked_add_u32 (a b : Z) : option Z :=
  if (a + b <=? u32_max)%Z then Some (a + b)%Z else None.
(** [u64::wrapping_add], [u64::wrapping_sub], [u64::saturating_add] and
    [u64::saturating_sub]. *)
Definition wrap_u64 (z : Z) : Z := (z mod 18446744073709551616)%Z.
Definition saturating_add_u64 (a b : Z) : Z := Z.min (a + b) u64_max.
Definition saturating_sub_u64 (a b : Z) : Z := Z.max (a - b) 0.

Lemma in_u64_spec z : in_u64 z = true ↔ (0 ≤ z ≤ u64_max)%Z.
Proof. unfold in_u64. rewrite andb_true_iff, !Z.leb_le. done. Qed.
Lemma in_u32_spec z : in_u32 z = true ↔ (0 ≤ z ≤ u32_max)%Z.
Proof. unfold in_u32. rewrite andb_true_iff, !Z.leb_le. done. Qed.
Lemma in_i64_spec z : in_i64 z = true ↔ (i64_min ≤ z ≤ i64_max)%Z.
Proof. unfold in_i64. rewrite andb_true_iff, !Z.leb_le. done. Qed.

Lemma checked_add_u64_Some a b c :
  checked_add_u64 a b = Some c ↔ c = (a + b)%Z ∧ (a + b ≤ u64_max)%Z.
Proof.
  unfold checked_add_u64. destruct (Z.leb_spec (a + b) u64_max); naive_solver lia.
Qed.
Lemma checked_add_u32_Some a b c :
  checked_add_u32 a b = Some c ↔ c = (a + b)%Z ∧ (a + b ≤ u32_max)%Z.
Proof.
  unfold checked_add_u32. destruct (Z.leb_spec (a + b) u32_max); naive_solver lia.
Qed.

(** ** Shared automation *)
Create HintDb zen.
Create Rewrite HintDb zen.

(** Case analysis on the innermost [match] or [if] of the goal or of a
    hypothesis, keeping the equation. *)
Ltac case_one :=
  match goal with
  | |- context [match ?x with _ => _ end] =>
      lazymatch x with
      | context [match _ with _ => _ end] => fail
      | _ => destruct x eqn:?
      end
  | H : context [match ?x with _ => _ end] |- _ =>
      lazymatch x with
      | context [match _ with _ => _ end] => fail
      | _ => destruct x eqn:?
      end
  end.
Ltac cases := repeat (case_one; simplify_eq/=).

(** Decide the integer comparisons of the goal, one after the other. *)
Ltac zcase :=
  match goal with
  | |- context [(?a <=? ?b)%Z] => destruct (Z.leb_spec a b)
  | |- context [(?a <? ?b)%Z] => destruct (Z.ltb_spec a b)
  | |- context [(?a =? ?b)%Z] => destruct (Z.eqb_spec a b)
  end.
Ltac zcases := repeat zcase.

(** Split pairs that come from [let '(a, b) := e in _]. *)
Ltac split_pairs :=
  repeat match goal with
  | p : (_ * _)%type |- _ => destruct p
  end; simpl in *.

(** ** Booleans and options *)
Lemma orb_false_l' b c : b || c = false → b = false.
Proof. by destruct b. Qed.

Definition is_none {A} (o : option A) : bool :=
  match o with None => true | Some _ => false end.

Definition is_some {A} (o : option A) : bool :=
  match o with None => false | Some _ => true end.

(** [Option::is_none_or] and [Option::is_some_and]. *)
Definition is_none_or {A} (p : A → bool) (o : option A) : bool :=
  match o with None => true | Some a => p a end.
Definition is_some_and {A} (p : A → bool) (o : option A) : bool :=
  match o with None => false | Some a => p a end.

(** ** Lists *)
Lemma existsb_false {A} (p : A → bool) (l : list A) :
  existsb p l = false ↔ ∀ x, x ∈ l → p x = false.
Proof.
  induction l as [|a l IH]; simpl.
  - split; [intros _ x Hx; by apply elem_of_nil in Hx | done].
  - rewrite orb_false_iff, IH. setoid_rewrite elem_of_cons. naive_solver.
Qed.

Lemma existsb_ext {A} (p q : A → bool) (l : list A) :
  (∀ x, x ∈ l → p x = q x) → existsb p l = existsb q l.
Proof.
  induction l as [|a l IH]; simpl; intros H; [done|].
  rewrite (H a) by apply list_elem_of_here. f_equal. apply IH.
  intros x Hx. apply H. by apply list_elem_of_further.
Qed.

(** The same list split at two of its elements. *)
Lemma app_cons_split {A} (X Y P Q : list A) (x c : A) : X ++ x :: Y = P ++ c :: Q →
  (∃ R, P = X ++ x :: R ∧ Y = R ++ c :: Q) ∨ (X = P ∧ x = c ∧ Y = Q) ∨
  (∃ R, X = P ++ c :: R ∧ Q = R ++ x :: Y).
Proof.
  revert P. induction X as [|y X IH]; intros [|p P]; simpl; intros [= Hx Heq].
  - right. by left.
  - left. subst. by exists P.
  - right. right. subst. by exists X.
  - subst p. destruct (IH P Heq) as [(R & -> & ->)|[(-> & -> & ->)|(R & -> & ->)]];
      [left|right; by left|right; right]; by exists R.
Qed.
Lemma app_split {A} (X Y P Q : list A) (x : A) : X ++ x :: Y = P ++ Q →
  (∃ R, P = X ++ x :: R ∧ Y = R ++ Q) ∨ (∃ R, X = P ++ R ∧ Q = R ++ x :: Y).
Proof.
  destruct Q as [|c Q].
  - rewrite app_nil_r. intros <-. left. exists Y. by rewrite app_nil_r.
  - intros [(R & -> & ->)|[(-> & -> & ->)|(R & -> & ->)]]%app_cons_split.
    + left. by exists R.
    + right. exists []. by rewrite app_nil_r.
    + right. by exists (c :: R).
Qed.


#[export] Instance list_filter_perm {A} (p : A → bool) :
  Proper (Permutation ==> Permutation) (List.filter p).
Proof.
  induction 1 as [|x l l' _ IH|x y l|l l' l'' _ IH1 _ IH2]; simpl; [done|..].
  - destruct (p x); by rewrite IH.
  - destruct (p x), (p y); try done. apply Permutation_swap.
  - by rewrite IH1.
Qed.

Open Scope zen_scope.
