(* ===== verification/Bytes.v ===== *)
(** * Bytes and little- and big-endian integers:
    [zendb-types/src/utils/serdes.rs], the byte helpers of the page formats,
    and [zendb-types/src/utils/mod.rs], the pseudo-random generator

    A byte is a [Z] in [0, 255]; slices are lists, out-of-range accesses are
    [None] (the source panics there, except [read_u32_le], which returns
    [None] itself). *)
From stdpp Require Import base numbers option list.
From S2P Require Import Prelude.

(** ** Positional notation *)
Section Base.
Variable base : Z.
Fixpoint to_digits (n : nat) (v : Z) : list Z :=
  match n with O => [] | S n => (v mod base)%Z :: to_digits n (v / base)%Z end.
Fixpoint from_digits (ds : list Z) : Z :=
  match ds with [] => 0%Z | d :: ds => (d + base * from_digits ds)%Z end.
Definition is_digit (d : Z) : Prop := (0 ≤ d < base)%Z.
Hypothesis Hbase : (1 < base)%Z.

Lemma to_digits_length n v : length (to_digits n v) = n.
Proof using Type. revert v. induction n; intros v; simpl; auto. Qed.
Lemma to_digits_valid n v : Forall is_digit (to_digits n v).
Proof using Hbase.
  revert v. induction n as [|n IH]; intros v; simpl; constructor; [|done].
  unfold is_digit. apply Z.mod_pos_bound. lia.
Qed.
Lemma from_digits_bound ds : Forall is_digit ds →
  (0 ≤ from_digits ds < base ^ Z.of_nat (length ds))%Z.
Proof using Hbase.
  induction 1 as [|d ds Hd _ IH]; [by simpl|]. unfold is_digit in Hd.
  cbn [from_digits length]. rewrite Nat2Z.inj_succ, Z.pow_succ_r by lia. nia.
Qed.
Lemma to_from_digits ds : Forall is_digit ds → to_digits (length ds) (from_digits ds) = ds.
Proof using Hbase.
  induction 1 as [|d ds Hd _ IH]; [done|]. unfold is_digit in Hd. simpl.
  rewrite (Z.mul_comm base), Z.mod_add, Z.div_add, Z.mod_small, Z.div_small by lia.
  by rewrite Z.add_0_l, IH.
Qed.
Lemma from_to_digits n v : (0 ≤ v < base ^ Z.of_nat n)%Z → from_digits (to_digits n v) = v.
Proof using Hbase.
  revert v. induction n as [|n IH]; intros v Hv; [simpl in *; lia|].
  rewrite Nat2Z.inj_succ, Z.pow_succ_r in Hv by lia. simpl. rewrite IH.
  - pose proof (Z.div_mod v base ltac:(lia)). lia.
  - split; [apply Z.div_pos; lia|]. apply Z.div_lt_upper_bound; lia.
Qed.
Lemma to_digits_lookup n v i : i < n →
  to_digits n v !! i = Some ((v / base ^ Z.of_nat i) mod base)%Z.
Proof using Hbase.
  revert v i. induction n as [|n IH]; intros v i Hi; [lia|]. destruct i as [|i]; simpl.
  - by rewrite Z.div_1_r.
  - rewrite IH by lia. rewrite Zdiv_Zdiv by lia.
    change (Z.pos (Pos.of_succ_nat i)) with (Z.of_nat (S i)).
    by rewrite Nat2Z.inj_succ, Z.pow_succ_r by lia.
Qed.
End Base.

Definition is_byte : Z → Prop := is_digit 256.
Definition to_le_bytes : nat → Z → list Z := to_digits 256.
Definition from_le_bytes : list Z → Z := from_digits 256.
Definition to_be_bytes (n : nat) (v : Z) : list Z := rev (to_le_bytes n v).
Definition from_be_bytes (bs : list Z) : Z := from_le_bytes (rev bs).

Lemma le_roundtrip n v : (0 ≤ v < 256 ^ Z.of_nat n)%Z → from_le_bytes (to_le_bytes n v) = v.
Proof. by apply from_to_digits. Qed.
Lemma be_roundtrip bs : Forall is_byte bs → to_be_bytes (length bs) (from_be_bytes bs) = bs.
Proof.
  intros Hb. unfold to_be_bytes, from_be_bytes, to_le_bytes, from_le_bytes.
  rewrite <- (length_rev bs), to_from_digits; [apply rev_involutive|done|].
  by apply Forall_rev.
Qed.
Lemma be_roundtrip_value n v : (0 ≤ v < 256 ^ Z.of_nat n)%Z → from_be_bytes (to_be_bytes n v) = v.
Proof. intros Hv. unfold from_be_bytes, to_be_bytes. rewrite rev_involutive. by apply le_roundtrip. Qed.
Lemma be_bound bs : Forall is_byte bs → (0 ≤ from_be_bytes bs < 256 ^ Z.of_nat (length bs))%Z.
Proof.
  intros Hb. rewrite <- (length_rev bs). apply from_digits_bound; [done|]. by apply Forall_rev.
Qed.

(** ** [rd_*], [wr_*] and [read_u32_le] *)

(** [&b[..n]]: [None] when the slice is too short. *)
Definition slice (b : list Z) (pos n : nat) : option (list Z) :=
  if pos + n <=? length b then Some (take n (drop pos b)) else None.
Definition rd (n : nat) (b : list Z) : option Z := from_le_bytes <$> slice b 0 n.
Definition rd_u16 : list Z → option Z := rd 2.
Definition rd_u32 : list Z → option Z := rd 4.
Definition rd_u64 : list Z → option Z := rd 8.
Definition wr (n : nat) (b : list Z) (v : Z) : option (list Z) :=
  (λ _, to_le_bytes n v ++ drop n b) <$> slice b 0 n.
Definition wr_u16 : list Z → Z → option (list Z) := wr 2.
Definition wr_u32 : list Z → Z → option (list Z) := wr 4.
Definition wr_u64 : list Z → Z → option (list Z) := wr 8.
Definition read_u32_le (b : list Z) (pos : nat) : option Z := from_le_bytes <$> slice b pos 4.

Lemma rd_wr n b v : n ≤ length b → (0 ≤ v < 256 ^ Z.of_nat n)%Z →
  wr n b v ≫= rd n = Some v ∧ (λ b', drop n b') <$> wr n b v = Some (drop n b).
Proof.
  intros Hn Hv. unfold wr, rd, slice. simpl.
  destruct (Nat.leb_spec n (length b)); [|lia]. simpl.
  assert (length (to_le_bytes n v) = n) as Hl by apply to_digits_length.
  rewrite length_app, length_drop, Hl.
  destruct (Nat.leb_spec n (n + (length b - n))); [|lia]. simpl.
  rewrite drop_0, take_app_length', drop_app_length' by done. split; [|done]. f_equal. by apply le_roundtrip.
Qed.

(** ** [fast_rand]: one xorshift64 step *)
Definition two64 : Z := 18446744073709551616.
Definition fast_rand (seed : Z) : Z :=
  let x := if (seed =? 0)%Z then 0xDEADBEEFCAFEF00D%Z else seed in
  let x := Z.lxor x (Z.shiftl x 13 mod two64) in
  let x := Z.lxor x (Z.shiftr x 7) in
  Z.lxor x (Z.shiftl x 17 mod two64).
