(* ===== verification/BinarySearch.v ===== *)
(** * [slice::binary_search_by] and the [Vec] operations by index

    The search of Rust's standard library, as its implementation runs: a loop
    that halves [size], then one comparison.  [f] says where the probed element
    lies with respect to the target ([Lt]: before it).  [Vec::remove] and
    [Vec::insert] panic out of range. *)
From stdpp Require Import base numbers option list.
From S2P Require Import Prelude.

Section Vec.
Context {A E : Type}.
Definition vec_remove (i : nat) (l : list A) : result E (A * list A) :=
  match l !! i with Some x => Ok (x, take i l ++ drop (S i) l) | None => Panic end.
Definition vec_insert (i : nat) (x : A) (l : list A) : result E (list A) :=
  if i <=? length l then Ok (take i l ++ x :: drop i l) else Panic.

Lemma vec_remove_app l1 x l2 : vec_remove (length l1) (l1 ++ x :: l2) = Ok (x, l1 ++ l2).
Proof.
  unfold vec_remove. rewrite list_lookup_middle by done.
  rewrite take_app_length. replace (S (length l1)) with (length l1 + 1) by lia.
  by rewrite drop_app_add.
Qed.
Lemma vec_insert_app l1 x l2 i : i = length l1 →
  vec_insert i x (l1 ++ l2) = Ok (l1 ++ x :: l2).
Proof.
  intros ->. unfold vec_insert. rewrite length_app.
  destruct (Nat.leb_spec (length l1) (length l1 + length l2)); [|lia].
  by rewrite take_app_length, drop_app_length.
Qed.
End Vec.

Inductive found := Found (i : nat) | Absent (i : nat).

Section Search.
Context {A : Type} (f : A → comparison).
Implicit Types (l : list A).

(** The loop [while size > 1], [fuel] bounding its iterations. *)
Fixpoint search_loop (fuel : nat) (l : list A) (base size : nat) : nat :=
  match fuel with
  | O => base
  | S fuel =>
      if size <=? 1 then base else
      let half := size / 2 in
      let mid := base + half in
      let base := match l !! mid with
                  | Some x => match f x with Gt => base | _ => mid end
                  | None => base
                  end in
      search_loop fuel l base (size - half)
  end.
Definition binary_search_by l : found :=
  match l !! search_loop (length l) l 0 (length l) with
  | None => Absent 0
  | Some x =>
      let base := search_loop (length l) l 0 (length l) in
      match f x with Eq => Found base | Lt => Absent (base + 1) | Gt => Absent base end
  end.

(** The list is partitioned by [f]: before, equal, after. *)
Definition partitioned l : Prop := ∀ i j x y, i < j →
  l !! i = Some x → l !! j = Some y → (f y ≠ Gt → f x ≠ Gt) ∧ (f x ≠ Lt → f y ≠ Lt).

(** The loop keeps: everything from [base + size] on lies after the target,
    and [base], unless it is 0, does not. *)
Lemma search_loop_spec l fuel base size : partitioned l →
  size ≤ fuel → 0 < size → base + size ≤ length l →
  (∀ i x, base + size ≤ i → l !! i = Some x → f x = Gt) →
  (base = 0 ∨ ∃ x, l !! base = Some x ∧ f x ≠ Gt) →
  let r := search_loop fuel l base size in
  r < length l ∧ (∀ i x, r < i → l !! i = Some x → f x = Gt) ∧
  (r = 0 ∨ ∃ x, l !! r = Some x ∧ f x ≠ Gt).
Proof using Type.
  intros Hp. revert base size. induction fuel as [|fuel IH]; intros base size Hf Hs Hb Hhi Hlo; [lia|].
  cbn [search_loop]. destruct (Nat.leb_spec size 1) as [H1|H1].
  { split_and!; [lia| |done]. intros i x Hi. apply Hhi. lia. }
  pose proof (Nat.div_lt size 2 ltac:(lia) ltac:(lia)) as Hd.
  assert (0 < size / 2) as Hd0 by (apply Nat.div_str_pos; lia).
  assert (2 * (size / 2) ≤ size) as Hd2 by (apply Nat.Div0.mul_div_le).
  destruct (lookup_lt_is_Some_2 l (base + size / 2)) as [x Hx]; [lia|]. rewrite Hx.
  destruct (decide (f x = Gt)) as [Hgt|Hgt].
  - rewrite Hgt. apply IH; [lia|lia|lia| |done].
    intros i y Hi Hy. destruct (decide (i = base + size / 2)) as [->|Hne]; [congruence|].
    destruct (decide (base + size / 2 < i)); [|lia].
    destruct (Hp (base + size / 2) i x y) as [H2 _]; [done..|].
    destruct (f y) eqn:Ey; [..|done]; exfalso; by apply H2.
  - assert (match f x with Gt => base | _ => base + size / 2 end = base + size / 2) as ->
      by (by destruct (f x)).
    apply IH; [lia|lia|lia| |right; eauto].
    intros i y Hi. apply Hhi. lia.
Qed.

(** On a partitioned list the search finds an element equal to the target,
    or the place where it would go. *)
Lemma binary_search_by_spec l : partitioned l →
  match binary_search_by l with
  | Found i => ∃ x, l !! i = Some x ∧ f x = Eq
  | Absent i => i ≤ length l ∧ (∀ j x, j < i → l !! j = Some x → f x = Lt) ∧
                (∀ j x, i ≤ j → l !! j = Some x → f x = Gt)
  end.
Proof using Type.
  intros Hp. unfold binary_search_by.
  destruct l as [|x0 l0] eqn:El.
  { simpl. split_and!; [done|lia|]. intros j x _ Hx. by rewrite lookup_nil in Hx. }
  rewrite <- El in *. assert (0 < length l) as Hl by (subst l; simpl; lia).
  destruct (search_loop_spec l (length l) 0 (length l)) as (Hr & Hhi & Hlo);
    [done|lia|done|lia| |by left|].
  { intros i x Hi Hx. apply lookup_lt_Some in Hx. lia. }
  set (r := search_loop (length l) l 0 (length l)) in *.
  destruct (lookup_lt_is_Some_2 l r Hr) as [x Hx]. rewrite Hx.
  destruct (f x) eqn:Ef.
  - eauto.
  - split_and!; [lia| |intros j y Hj; apply Hhi; lia].
    intros j y Hj Hy. destruct (decide (j = r)) as [->|Hne]; [congruence|].
    assert (j < r) as Hjr by lia. destruct (Hp j r y x Hjr Hy Hx) as [H1 H2].
    destruct (f y) eqn:Ey; [|done|exfalso; by apply H1; congruence].
    exfalso. apply H2; congruence.
  - destruct Hlo as [->|(y & Hy & Hn)]; [|congruence].
    split_and!; [lia|lia|]. intros j y Hj Hy.
    destruct (decide (j = 0)) as [->|]; [congruence|]. apply (Hhi j); [lia|done].
Qed.
End Search.
