(* ===== verification/Receipts.v ===== *)
(** * Receipt windows: [zendb-workspace/src/devices/receipts.rs]

    Which event sequences of a peer have been received, as the greatest one
    and the ranges still missing below it.  A [RangeInclusive<u64>] is a pair
    of its ends.  The abstract state is the set of sequences seen: [observe]
    refines "insert into the set, and say whether it was new", and a window is
    determined by its set ([receipts_canonical]), so that the order of arrival
    leaves no trace. *)
From stdpp Require Import base numbers option list.
From S2P Require Import Prelude BinarySearch.

Module Receipts.
Inductive ObserveOutcome := New | Duplicate.
Record ReceiptWindow := mkWindow { max_seen : Z; missing : list (Z * Z) }.
Inductive Error := InvalidEventSequence.

(** [ReceiptWindow::default()]. *)
Definition default : ReceiptWindow := mkWindow 0 [].

Definition range_cmp (seq : Z) (range : Z * Z) : comparison :=
  if (seq <? range.1)%Z then Gt else if (range.2 <? seq)%Z then Lt else Eq.
Definition missing_index (w : ReceiptWindow) (seq : Z) : found :=
  binary_search_by (range_cmp seq) (missing w).

Definition observe (w : ReceiptWindow) (seq : Z) :
    ReceiptWindow * result Error ObserveOutcome :=
  if (seq =? 0)%Z then (w, Err InvalidEventSequence)
  else if (max_seen w <? seq)%Z then
    let miss :=
      if (max_seen w <? u64_max)%Z && (max_seen w + 1 <? seq)%Z
      then missing w ++ [(max_seen w + 1, seq - 1)%Z] else missing w in
    (mkWindow seq miss, Ok New)
  else
    match missing_index w seq with
    | Absent _ => (w, Ok Duplicate)
    | Found index =>
        match vec_remove index (missing w) with
        | Ok ((start, end_), miss) =>
            match (if (start <? seq)%Z then vec_insert index (start, seq - 1)%Z miss
                   else Ok miss) with
            | Ok miss =>
                match (if (seq <? end_)%Z
                       then let index := index + (if (start <? seq)%Z then 1 else 0) in
                            vec_insert index (seq + 1, end_)%Z miss
                       else Ok miss) with
                | Ok miss => (mkWindow (max_seen w) miss, Ok New)
                | Err e => (w, Err e) | Panic => (w, Panic)
                end
            | Err e => (w, Err e) | Panic => (w, Panic)
            end
        | Err e => (w, Err e) | Panic => (w, Panic)
        end
    end.

(** Delivery of a whole sequence of events. *)
Definition observe_all (w : ReceiptWindow) (seqs : list Z) : ReceiptWindow :=
  foldl (λ w seq, (observe w seq).1) w seqs.

(** ** Abstraction and invariant *)
Definition in_range (n : Z) (r : Z * Z) : Prop := (r.1 ≤ n ≤ r.2)%Z.
Definition seen (w : ReceiptWindow) (n : Z) : Prop :=
  (1 ≤ n ≤ max_seen w)%Z ∧ ¬ Exists (in_range n) (missing w).

(** Ranges are non-empty, increasing, and a seen sequence separates each
    from the next one, from 0 and from the greatest sequence. *)
Fixpoint gaps (lo : Z) (l : list (Z * Z)) : Prop :=
  match l with [] => True | (s, e) :: l => (lo < s ≤ e)%Z ∧ gaps (e + 1) l end.
Definition wf (w : ReceiptWindow) : Prop :=
  (0 ≤ max_seen w ≤ u64_max)%Z ∧ gaps 0 (missing w) ∧
  Forall (λ r, r.2 < max_seen w)%Z (missing w).

Lemma gaps_weaken lo lo' l : (lo' ≤ lo)%Z → gaps lo l → gaps lo' l.
Proof. destruct l as [|[s e] l]; simpl; [done|]. intros ? [? ?]. split; [lia|done]. Qed.
Lemma gaps_app lo l1 l2 : gaps lo (l1 ++ l2) ↔
  gaps lo l1 ∧ gaps (foldl (λ (_ : Z) (r : Z * Z), r.2 + 1)%Z lo l1) l2.
Proof. revert lo. induction l1 as [|[s e] l1 IH]; intros lo; simpl; [tauto|]. rewrite IH. tauto. Qed.
Lemma gaps_last lo l m : (lo ≤ m)%Z → Forall (λ r, r.2 < m)%Z l →
  (foldl (λ (_ : Z) (r : Z * Z), r.2 + 1) lo l ≤ m)%Z.
Proof. intros Hm Hl. revert lo Hm. induction Hl; intros lo Hm; simpl; [done|]. apply IHHl. lia. Qed.
Lemma gaps_bound lo l r : gaps lo l → r ∈ l → (lo < r.1 ≤ r.2)%Z.
Proof.
  revert lo. induction l as [|[s e] l IH]; intros lo; simpl.
  - intros _ Hr. by apply elem_of_nil in Hr.
  - intros [H1 Hg] [->|Hr]%elem_of_cons; [done|]. specialize (IH _ Hg Hr). lia.
Qed.
Lemma gaps_before lo l1 r l2 x : gaps lo (l1 ++ r :: l2) → x ∈ l1 → (x.2 + 1 < r.1)%Z.
Proof.
  revert lo. induction l1 as [|[s e] l1 IH]; intros lo; simpl.
  - intros _ Hr. by apply elem_of_nil in Hr.
  - intros [H1 Hg] [->|Hr]%elem_of_cons; [|by eapply IH].
    simpl. assert (e + 1 < r.1 ≤ r.2)%Z; [|lia].
    eapply gaps_bound; [done|]. apply elem_of_app. right. by left.
Qed.

Lemma gaps_partitioned lo l n : gaps lo l → partitioned (range_cmp n) l.
Proof.
  intros Hg i j x y Hij Hx Hy.
  apply list_elem_of_split_length in Hy as (l1 & l2 & -> & ->).
  rewrite lookup_app_l in Hx by done. apply list_elem_of_lookup_2 in Hx.
  pose proof (gaps_before _ _ _ _ _ Hg Hx).
  assert (lo < y.1 ≤ y.2)%Z by (eapply gaps_bound; [done|]; apply elem_of_app; right; by left).
  assert (lo < x.1 ≤ x.2)%Z by (eapply gaps_bound; [done|]; apply elem_of_app; by left).
  unfold range_cmp. split; zcases; try done; lia.
Qed.
Lemma range_cmp_Eq n r : range_cmp n r = Eq ↔ in_range n r.
Proof. unfold range_cmp, in_range. zcases; split; try done; lia. Qed.

(** The binary search finds the range that holds the sequence. *)
Lemma missing_index_spec w n : wf w →
  match missing_index w n with
  | Found i => ∃ l1 r l2, missing w = l1 ++ r :: l2 ∧ i = length l1 ∧ in_range n r
  | Absent _ => ¬ Exists (in_range n) (missing w)
  end.
Proof.
  intros (_ & Hg & _). unfold missing_index.
  pose proof (binary_search_by_spec (range_cmp n) (missing w) (gaps_partitioned _ _ n Hg)) as Hs.
  destruct (binary_search_by _ _) as [i|i].
  - destruct Hs as (r & Hr & He). apply list_elem_of_split_length in Hr as (l1 & l2 & -> & ->).
    exists l1, r, l2. by rewrite <- range_cmp_Eq.
  - destruct Hs as (_ & Hlt & Hgt). rewrite Exists_exists. intros (r & Hr & Hin).
    apply range_cmp_Eq in Hin. apply list_elem_of_lookup in Hr as [j Hj].
    destruct (decide (j < i)) as [H|H].
    + rewrite (Hlt j r H Hj) in Hin. done.
    + rewrite (Hgt j r ltac:(lia) Hj) in Hin. done.
Qed.

(** What replaces the range [(s, e)] when [n] in it is received. *)
Definition split_range (n s e : Z) : list (Z * Z) :=
  (if (s <? n)%Z then [(s, n - 1)%Z] else []) ++ (if (n <? e)%Z then [(n + 1, e)%Z] else []).
Lemma observe_missing w n l1 s e l2 :
  missing_index w n = Found (length l1) → missing w = l1 ++ (s, e) :: l2 →
  (0 < n ≤ max_seen w)%Z →
  observe w n = (mkWindow (max_seen w) (l1 ++ split_range n s e ++ l2), Ok New).
Proof.
  intros Hi Hm Hn. unfold observe, split_range.
  destruct (Z.eqb_spec n 0); [lia|]. destruct (Z.ltb_spec (max_seen w) n); [lia|].
  rewrite Hi, Hm, vec_remove_app.
  destruct (Z.ltb_spec s n), (Z.ltb_spec n e); rewrite ?vec_insert_app by lia; try done.
  rewrite (cons_middle (s, n - 1)%Z l1 l2), app_assoc.
  rewrite vec_insert_app by (rewrite length_app; simpl; lia).
  by rewrite <- app_assoc.
Qed.

Lemma seen_bounds w n : seen w n → (1 ≤ n ≤ max_seen w)%Z.
Proof. by intros [? _]. Qed.
Lemma seen_max w : wf w → (0 < max_seen w)%Z → seen w (max_seen w).
Proof.
  intros (_ & _ & Hl) Hpos. split; [lia|]. rewrite Exists_exists. intros (r & Hr & Hin).
  rewrite Forall_forall in Hl. specialize (Hl _ Hr). unfold in_range in Hin. lia.
Qed.
Lemma exists_split n l1 s e l2 m : gaps 0 (l1 ++ (s, e) :: l2) → (s ≤ n ≤ e)%Z →
  Exists (in_range m) (l1 ++ split_range n s e ++ l2) ↔
  Exists (in_range m) (l1 ++ (s, e) :: l2) ∧ m ≠ n.
Proof.
  intros Hg Hn.
  assert (∀ r, r ∈ l1 → ¬ in_range n r) as H1.
  { intros r Hr Hin. pose proof (gaps_before _ _ _ _ _ Hg Hr). unfold in_range in *. simpl in *. lia. }
  assert (∀ r, r ∈ l2 → ¬ in_range n r) as H2.
  { intros r Hr Hin. apply gaps_app in Hg as [_ [_ Hg]].
    pose proof (gaps_bound _ _ _ Hg Hr). unfold in_range in *. simpl in *. lia. }
  rewrite !Exists_app, Exists_cons.
  assert (Exists (in_range m) (split_range n s e) ↔ in_range m (s, e) ∧ m ≠ n) as ->.
  { unfold split_range, in_range. rewrite Exists_app. simpl.
    zcases; simpl; rewrite ?Exists_cons, ?Exists_nil; simpl; lia. }
  split; [|tauto]. rewrite !Exists_exists.
  intros [(r & Hr & Hin)|[?|(r & Hr & Hin)]]; [|tauto|]; (split; [eauto|]); intros ->;
    [by eapply H1|by eapply H2].
Qed.
Lemma gaps_split n lo l1 s e l2 : gaps lo (l1 ++ (s, e) :: l2) → (s ≤ n ≤ e)%Z →
  gaps lo (l1 ++ split_range n s e ++ l2).
Proof.
  rewrite !gaps_app. intros [Hg1 [Hse Hg2]] Hn. split; [done|]. unfold split_range.
  zcases; simpl; split_and?; try lia; (apply (gaps_weaken (e + 1)); [lia|done]).
Qed.

(** One step, in the three cases the code distinguishes. *)
Lemma window_observe_step w n : wf w → (0 < n ≤ u64_max)%Z → ∃ w' o, observe w n = (w', Ok o) ∧
  wf w' ∧ (∀ m, seen w' m ↔ seen w m ∨ m = n) ∧ (o = New ↔ ¬ seen w n).
Proof.
  intros Hwf Hn. pose proof Hwf as (Hmax & Hg & Hl).
  destruct (Z.ltb_spec (max_seen w) n) as [Hlt|Hge].
  - unfold observe. destruct (Z.eqb_spec n 0); [lia|]. destruct (Z.ltb_spec (max_seen w) n); [|lia].
    destruct (Z.ltb_spec (max_seen w) u64_max); [|lia]. cbn [andb].
    eexists _, _. split; [done|].
    assert (∀ m, Exists (in_range m) (if max_seen w + 1 <? n
        then missing w ++ [(max_seen w + 1, n - 1)] else missing w)%Z ↔
        Exists (in_range m) (missing w) ∨ (max_seen w < m < n)%Z) as He.
    { intros m. zcases; rewrite ?Exists_app, ?Exists_cons, ?Exists_nil; unfold in_range; simpl; naive_solver lia. }
    assert (∀ m, Exists (in_range m) (missing w) → (m < max_seen w)%Z) as Hb.
    { intros m. rewrite Exists_exists. intros (r & Hr & Hin). rewrite Forall_forall in Hl.
      specialize (Hl _ Hr). unfold in_range in Hin. lia. }
    split; [split; [simpl; lia|split]|split].
    + simpl. zcases; [|done]. apply gaps_app. split; [done|].
      pose proof (gaps_last 0 (missing w) (max_seen w) ltac:(lia) Hl). simpl. lia.
    + simpl. eapply Forall_impl; [|intros r Hr; exact Hr]. zcases;
        rewrite ?Forall_app, ?Forall_singleton; simpl; split_and?; try lia;
        (eapply Forall_impl; [exact Hl|]; simpl; lia).
    + intros m. unfold seen. simpl. rewrite He. specialize (Hb m).
      split.
      * intros [Hm Hne]. destruct (Z.leb_spec m (max_seen w)); [left; tauto|right].
        apply Z.le_antisymm; [lia|]. apply Z.nlt_ge. intros ?. apply Hne. right. lia.
      * intros [[Hm Hne]| ->]; (split; [lia|]); intros [?|?]; (done || lia || naive_solver lia).
    + split; [|done]. intros _ [? _]. lia.
  - pose proof (missing_index_spec w n Hwf) as Hi.
    destruct (missing_index w n) as [i|i] eqn:Ei.
    + destruct Hi as (l1 & [s e] & l2 & Hm & -> & Hin). unfold in_range in Hin. simpl in Hin.
      rewrite Hm in Hg, Hl. eexists _, _.
      split; [by apply observe_missing; [..|lia]|].
      split; [split; [simpl; lia|split; [simpl; by apply gaps_split|]]|split].
      * simpl. apply Forall_app in Hl as [Hl1 [Hse Hl2]%Forall_cons].
        rewrite !Forall_app. split_and!; [done| |done]. simpl in Hse.
        unfold split_range. zcases; simpl; repeat constructor; simpl; lia.
      * intros m. unfold seen. simpl. rewrite Hm, exists_split by done.
        destruct (decide (m = n)) as [->|]; [|tauto]. split; [tauto|]. intros _. split; [lia|tauto].
      * split; [|done]. intros _ [_ Hne]. apply Hne. rewrite Hm. apply Exists_app. right.
        by constructor.
    + exists w, Duplicate. unfold observe. rewrite Ei. destruct (Z.eqb_spec n 0); [lia|].
      destruct (Z.ltb_spec (max_seen w) n); [lia|].
      assert (seen w n) by (split; [lia|done]).
      split; [done|split; [done|split]].
      * intros m. split; [tauto|]. by intros [?| ->].
      * split; [done|tauto].
Qed.

(** ** Properties *)

(** C33. The window implements the set of sequences it has seen. *)
Theorem receipts_observe (w : ReceiptWindow) (n : Z) : wf w → (0 ≤ n ≤ u64_max)%Z →
  if (n =? 0)%Z then observe w n = (w, Err InvalidEventSequence)
  else ∃ w' o, observe w n = (w', Ok o) ∧ wf w' ∧
       (∀ m, seen w' m ↔ seen w m ∨ m = n) ∧ (o = New ↔ ¬ seen w n).
Proof.
  intros Hwf Hn. destruct (Z.eqb_spec n 0) as [->|]; [done|]. apply window_observe_step; [done|lia].
Qed.

(** A well-formed window is determined by its set. *)
Lemma gaps_not lo l : gaps lo l → ¬ Exists (in_range lo) l ∧
  (∀ s e l', l = (s, e) :: l' → ¬ Exists (in_range (e + 1)) l).
Proof.
  intros Hg. split.
  - rewrite Exists_exists. intros (r & Hr & Hin). pose proof (gaps_bound _ _ _ Hg Hr).
    unfold in_range in Hin. lia.
  - intros s e l' ->. rewrite Exists_exists. intros (r & Hr & Hin). destruct Hg as [? Hg].
    apply elem_of_cons in Hr as [->|Hr]; unfold in_range in Hin; simpl in *; [lia|].
    pose proof (gaps_bound _ _ _ Hg Hr). lia.
Qed.
Lemma gaps_least lo s e l n : gaps lo ((s, e) :: l) → Exists (in_range n) ((s, e) :: l) → (s ≤ n)%Z.
Proof.
  intros Hg. pose proof Hg as [Hse Hg']. rewrite Exists_exists. intros (r & Hr & Hin).
  unfold in_range in Hin. apply elem_of_cons in Hr as [->|Hr]; simpl in *; [lia|].
  pose proof (gaps_bound _ _ _ Hg' Hr). lia.
Qed.
Lemma gaps_head_eq lo s e l lo' s' e' l' : gaps lo ((s, e) :: l) → gaps lo' ((s', e') :: l') →
  (∀ n, Exists (in_range n) ((s, e) :: l) → Exists (in_range n) ((s', e') :: l')) → (s' ≤ s)%Z.
Proof.
  intros Hg Hg' Hsub. eapply gaps_least; [exact Hg'|]. apply Hsub. left.
  destruct Hg. unfold in_range. simpl. lia.
Qed.
Lemma gaps_end_eq lo s e l lo' e' l' : gaps lo ((s, e) :: l) → gaps lo' ((s, e') :: l') →
  (∀ n, Exists (in_range n) ((s, e) :: l) → Exists (in_range n) ((s, e') :: l')) → (e ≤ e')%Z.
Proof.
  intros Hg Hg' Hsub. destruct (decide (e ≤ e')%Z) as [|Hgt]; [done|]. exfalso.
  apply (proj2 (gaps_not _ _ Hg') s e' l' eq_refl). apply Hsub. left.
  destruct Hg as [? _], Hg' as [? _]. unfold in_range. simpl. lia.
Qed.
Lemma gaps_tail lo s e l n : gaps lo ((s, e) :: l) →
  Exists (in_range n) l ↔ Exists (in_range n) ((s, e) :: l) ∧ (e < n)%Z.
Proof.
  intros [Hse Hg]. rewrite Exists_cons. split.
  - intros Hx. split; [by right|]. apply Exists_exists in Hx as (r & Hr & Hin).
    pose proof (gaps_bound _ _ _ Hg Hr). unfold in_range in Hin. lia.
  - intros [[Hin|?] ?]; [|done]. unfold in_range in Hin. simpl in Hin. lia.
Qed.
Lemma gaps_ext lo l lo' l' : gaps lo l → gaps lo' l' →
  (∀ n, Exists (in_range n) l ↔ Exists (in_range n) l') → l = l'.
Proof.
  revert lo lo' l'. induction l as [|[s e] l IH]; intros lo lo' [|[s' e'] l'] Hg Hg' Heq; [done|..].
  - exfalso. apply (Exists_nil (in_range s')). apply Heq. left. destruct Hg'. unfold in_range. simpl. lia.
  - exfalso. apply (Exists_nil (in_range s)). apply Heq. left. destruct Hg. unfold in_range. simpl. lia.
  - assert (s = s') as <-.
    { pose proof (gaps_head_eq _ _ _ _ _ _ _ _ Hg Hg' (λ n, proj1 (Heq n))).
      pose proof (gaps_head_eq _ _ _ _ _ _ _ _ Hg' Hg (λ n, proj2 (Heq n))). lia. }
    assert (e = e') as <-.
    { pose proof (gaps_end_eq _ _ _ _ _ _ _ Hg Hg' (λ n, proj1 (Heq n))).
      pose proof (gaps_end_eq _ _ _ _ _ _ _ Hg' Hg (λ n, proj2 (Heq n))). lia. }
    f_equal. apply (IH (e + 1)%Z (e + 1)%Z); [apply Hg|apply Hg'|].
    intros n. rewrite (gaps_tail _ _ _ _ _ Hg), (gaps_tail _ _ _ _ _ Hg'). by rewrite Heq.
Qed.
Lemma window_ext w w' : wf w → wf w' → (∀ n, seen w n ↔ seen w' n) → w = w'.
Proof.
  intros Hw Hw' Heq.
  assert (∀ v v', wf v → wf v' → (∀ n, seen v n → seen v' n) → max_seen v ≤ max_seen v')%Z as Hmax.
  { intros v v' Hv Hv' Hsub. destruct (decide (0 < max_seen v)%Z).
    - apply (seen_bounds v'). apply Hsub. by apply seen_max.
    - destruct Hv as (? & _), Hv' as (? & _). lia. }
  assert (max_seen w = max_seen w') as Hm.
  { pose proof (Hmax w w' Hw Hw' (λ n, proj1 (Heq n))).
    pose proof (Hmax w' w Hw' Hw (λ n, proj2 (Heq n))). lia. }
  destruct Hw as (Hb & Hg & Hl), Hw' as (Hb' & Hg' & Hl').
  destruct w as [m l], w' as [m' l']. simpl in *. subst m'. f_equal.
  assert (∀ l n, gaps 0 l → Forall (λ r, r.2 < m)%Z l → Exists (in_range n) l → (1 ≤ n ≤ m)%Z) as Hin.
  { intros k n Hk Hf. rewrite Exists_exists. intros (r & Hr & Hi). pose proof (gaps_bound _ _ _ Hk Hr).
    rewrite Forall_forall in Hf. specialize (Hf _ Hr). unfold in_range in Hi. lia. }
  apply (gaps_ext 0 l 0 l'); [done..|]. intros n. specialize (Heq n). unfold seen in Heq. simpl in Heq.
  assert (∀ k, Decision (Exists (in_range n) k)) as Hdec
    by (intros k; apply Exists_dec; intros x; unfold in_range; apply _).
  destruct (Hdec l), (Hdec l'); try tauto.
  - pose proof (Hin l n Hg Hl e). tauto.
  - pose proof (Hin l' n Hg' Hl' e). tauto.
Qed.

Lemma observe_all_spec w ns : wf w → Forall (λ n, 0 < n ≤ u64_max)%Z ns →
  wf (observe_all w ns) ∧ ∀ m, seen (observe_all w ns) m ↔ seen w m ∨ m ∈ ns.
Proof.
  intros Hw Hn. revert w Hw. induction Hn as [|n ns Hn _ IH]; intros w Hw; simpl.
  - split; [done|]. intros m. rewrite elem_of_nil. tauto.
  - destruct (window_observe_step w n Hw Hn) as (w' & o & Ho & Hw' & Hs & _). rewrite Ho. simpl.
    destruct (IH w' Hw') as [H1 H2]. split; [done|]. intros m. rewrite H2, Hs, elem_of_cons. tauto.
Qed.
Lemma default_wf : wf default.
Proof. split_and!; [done|done|done|constructor]. Qed.

(** The window depends on the set of sequences that arrived and on nothing
    else: not on their order, not on how often each came. *)
Theorem receipts_canonical (w : ReceiptWindow) (ns ns' : list Z) :
  wf w → Forall (λ n, 0 < n ≤ u64_max)%Z ns → Forall (λ n, 0 < n ≤ u64_max)%Z ns' →
  (∀ n, n ∈ ns ↔ n ∈ ns') → observe_all w ns = observe_all w ns'.
Proof.
  intros Hw Hn Hn' Heq. destruct (observe_all_spec w ns Hw Hn) as [H1 H2].
  destruct (observe_all_spec w ns' Hw Hn') as [H1' H2'].
  apply window_ext; [done..|]. intros n. by rewrite H2, H2', Heq.
Qed.
End Receipts.
