(* ===== verification/WorkspaceId.v ===== *)
(** * Workspace identifiers: [zendb-types/src/identity/workspace.rs]

    A 128-bit identifier and its 26-character Crockford Base32 text.  A string
    is the list of its bytes. *)
From stdpp Require Import base numbers option list.
From S2P Require Import Prelude Bytes.

Module WorkspaceId.
Definition TEXT_LEN : nat := 26.
(** [b"0123456789ABCDEFGHJKMNPQRSTVWXYZ"]. *)
Definition ALPHABET : list Z :=
  [48; 49; 50; 51; 52; 53; 54; 55; 56; 57; 65; 66; 67; 68; 69; 70; 71; 72; 74; 75; 77; 78;
   80; 81; 82; 83; 84; 86; 87; 88; 89; 90]%Z.

(** [WorkspaceId]: 16 bytes. *)
Definition WorkspaceId : Type := list Z.
Definition wf (id : WorkspaceId) : Prop := length id = 16 ∧ Forall is_byte id.

(** [Display]: [None] would be an index out of the alphabet. *)
Definition fmt_char (value : Z) (index : nat) : option Z :=
  let shift := (125 - Z.of_nat index * 5)%Z in
  ALPHABET !! Z.to_nat (Z.land (Z.shiftr value shift) 0x1f).
Definition fmt (id : WorkspaceId) : option (list Z) :=
  let value := from_be_bytes id in
  mapM (fmt_char value) (seq 0 TEXT_LEN).

Inductive WorkspaceIdParseError := InvalidLength | InvalidCharacter | Overflow.

Definition to_ascii_uppercase (b : Z) : Z :=
  if (97 <=? b)%Z && (b <=? 122)%Z then (b - 32)%Z else b.
Definition digit_of (byte : Z) : option Z :=
  let c := to_ascii_uppercase byte in
  if (c =? 48)%Z || (c =? 79)%Z then Some 0%Z
  else if (c =? 49)%Z || (c =? 73)%Z || (c =? 76)%Z then Some 1%Z
  else if (50 <=? c)%Z && (c <=? 57)%Z then Some (byte - 48)%Z
  else match c with
       | 65 => Some 10 | 66 => Some 11 | 67 => Some 12 | 68 => Some 13 | 69 => Some 14
       | 70 => Some 15 | 71 => Some 16 | 72 => Some 17 | 74 => Some 18 | 75 => Some 19
       | 77 => Some 20 | 78 => Some 21 | 80 => Some 22 | 81 => Some 23 | 82 => Some 24
       | 83 => Some 25 | 84 => Some 26 | 86 => Some 27 | 87 => Some 28 | 88 => Some 29
       | 89 => Some 30 | 90 => Some 31
       | _ => None
       end%Z.

(** The loop of [from_str]; [u128] shifts drop the high bits. *)
Fixpoint parse_loop (index : nat) (decoded : Z) (bytes : list Z) :
    result WorkspaceIdParseError Z :=
  match bytes with
  | [] => Ok decoded
  | byte :: rest =>
      match digit_of byte with
      | None => Err InvalidCharacter
      | Some digit =>
          if (index =? 0)%nat then
            if (7 <? digit)%Z then Err Overflow else parse_loop (S index) digit rest
          else parse_loop (S index) (Z.lor (Z.shiftl decoded 5 mod 2 ^ 128) digit) rest
      end
  end.
Definition from_str (value : list Z) : result WorkspaceIdParseError WorkspaceId :=
  if negb (length value =? TEXT_LEN)%nat then Err InvalidLength
  else decoded <-? parse_loop 0 0 value ;; Ok (to_be_bytes 16 decoded).

(** ** Lemmas *)

(** The character a digit is printed as, and the one a character stands for. *)
Definition canonical (byte : Z) : option Z := digit_of byte ≫= λ d, ALPHABET !! Z.to_nat d.

Lemma alphabet_digits : Forall (λ d, (c ← ALPHABET !! Z.to_nat d; digit_of c) = Some d)
  (map Z.of_nat (seq 0 32)).
Proof. vm_compute. repeat constructor. Qed.
Lemma alphabet_digit d : (0 ≤ d < 32)%Z →
  ∃ c, ALPHABET !! Z.to_nat d = Some c ∧ digit_of c = Some d.
Proof.
  intros Hd. pose proof alphabet_digits as Ha. rewrite Forall_forall in Ha.
  assert (d ∈ map Z.of_nat (seq 0 32)) as Hin.
  { apply list_elem_of_fmap. exists (Z.to_nat d). split; [lia|]. apply elem_of_seq. lia. }
  specialize (Ha _ Hin). destruct (ALPHABET !! Z.to_nat d) as [c|]; [|done].
  exists c. by split.
Qed.
Lemma lor_digit a d : (0 ≤ d < 32)%Z → Z.lor (a * 32) d = (a * 32 + d)%Z.
Proof.
  intros Hd. symmetry. apply Z.add_nocarry_lor. apply Z.bits_inj'. intros n Hn.
  rewrite Z.land_spec, Z.bits_0. change 32%Z with (2 ^ 5)%Z.
  destruct (Z.ltb_spec n 5).
  - rewrite Z.mul_pow2_bits_low by lia. done.
  - apply andb_false_iff. right. destruct (decide (d = 0)%Z) as [->|Hz]; [apply Z.bits_0|].
    apply Z.bits_above_log2; [lia|]. assert (Z.log2 d < 5)%Z; [|lia].
    apply Z.log2_lt_pow2; lia.
Qed.
Lemma digit_of_bound c d : digit_of c = Some d → (0 ≤ d < 32)%Z.
Proof.
  unfold digit_of, to_ascii_uppercase. intros H.
  repeat case_match; simplify_eq; try lia;
    repeat match goal with
    | H : (_ && _) = true |- _ => apply andb_true_iff in H as [? ?]
    | H : (_ && _) = false |- _ => apply andb_false_iff in H
    | H : (_ <=? _)%Z = true |- _ => apply Z.leb_le in H
    end; lia.
Qed.

(** The loop is Horner's rule on the digits. *)
Definition horner (ds : list Z) (acc : Z) : Z := foldl (λ acc d, acc * 32 + d)%Z acc ds.
Lemma horner_snoc ds d acc : horner (ds ++ [d]) acc = (horner ds acc * 32 + d)%Z.
Proof. unfold horner. by rewrite foldl_app. Qed.
Lemma horner_bound ds acc k : Forall (λ d, 0 ≤ d < 32)%Z ds → (0 ≤ acc < k)%Z →
  (0 ≤ horner ds acc < k * 32 ^ Z.of_nat (length ds))%Z.
Proof.
  intros Hd. revert acc k. induction Hd as [|d ds Hd _ IH]; intros acc k Hacc; simpl.
  - lia.
  - specialize (IH (acc * 32 + d)%Z (k * 32)%Z ltac:(lia)).
    rewrite <- Nat.add_1_r, Nat2Z.inj_add, Z.pow_add_r by lia. lia.
Qed.

Lemma parse_rest_ok index decoded bytes ds k :
  mapM digit_of bytes = Some ds → (0 < index)%nat → (0 ≤ decoded < k)%Z →
  (k * 32 ^ Z.of_nat (length bytes) ≤ 2 ^ 128)%Z →
  parse_loop index decoded bytes = Ok (horner ds decoded).
Proof.
  revert index decoded ds k. induction bytes as [|c bytes IH]; intros index decoded ds k Hm Hi Hd Hk.
  { apply mapM_Some in Hm. by inversion Hm; subst. }
  apply mapM_Some in Hm. apply Forall2_cons_inv_l in Hm as (d & ds' & Hc & Hm & ->).
  apply mapM_Some in Hm. simpl. rewrite Hc. destruct index as [|index]; [lia|]. simpl.
  pose proof (digit_of_bound _ _ Hc) as Hdb.
  simpl length in Hk. rewrite <- Nat.add_1_r, Nat2Z.inj_add, Z.pow_add_r in Hk by lia.
  assert (0 < 32 ^ Z.of_nat (length bytes))%Z as Hp by (apply Z.pow_pos_nonneg; lia).
  rewrite Z.shiftl_mul_pow2 by lia. change (2 ^ 5)%Z with 32%Z.
  rewrite Z.mod_small by nia. rewrite lor_digit by done.
  apply (IH _ _ _ (k * 32)%Z); [done|lia|lia|lia].
Qed.
Lemma parse_loop_ok bytes d ds :
  length bytes = TEXT_LEN → mapM digit_of bytes = Some (d :: ds) → (d ≤ 7)%Z →
  parse_loop 0 0 bytes = Ok (horner ds d).
Proof.
  intros Hl Hm H7. destruct bytes as [|c bytes]; [done|].
  apply mapM_Some in Hm. apply Forall2_cons in Hm as [Hc Hm]. apply mapM_Some in Hm.
  simpl. rewrite Hc. simpl. pose proof (digit_of_bound _ _ Hc).
  destruct (Z.ltb_spec 7 d); [lia|]. apply (parse_rest_ok _ _ _ _ 8); [done|lia|lia|].
  unfold TEXT_LEN in Hl. injection Hl as ->. done.
Qed.
Lemma parse_rest_inv index decoded bytes v :
  (0 < index)%nat → parse_loop index decoded bytes = Ok v → ∃ ds, mapM digit_of bytes = Some ds.
Proof.
  revert index decoded. induction bytes as [|c bytes IH]; intros index decoded Hi; simpl; [eauto|].
  destruct (digit_of c) as [d|]; [|done]. destruct index; [lia|]. simpl. intros Hp.
  apply IH in Hp as [ds ->]; [|lia]. simpl. eauto.
Qed.

(** The digits printed for a value, and Horner's rule on them. *)
Definition digit_at (v : Z) (i : nat) : Z := (v / 2 ^ (125 - Z.of_nat i * 5) mod 32)%Z.
Lemma fmt_char_digit v i : i ≤ 25 → fmt_char v i = ALPHABET !! Z.to_nat (digit_at v i).
Proof.
  intros Hi. unfold fmt_char, digit_at. f_equal. f_equal.
  change 31%Z with (Z.ones 5). rewrite Z.land_ones, Z.shiftr_div_pow2 by lia. done.
Qed.
Lemma digit_at_bound v i : (0 ≤ digit_at v i < 32)%Z.
Proof. unfold digit_at. apply Z.mod_pos_bound. lia. Qed.
Lemma horner_digits v k : k ≤ 25 → (0 ≤ v < 2 ^ 128)%Z →
  horner (map (digit_at v) (seq 1 k)) (digit_at v 0) = (v / 2 ^ (125 - Z.of_nat k * 5))%Z.
Proof.
  intros Hk Hv. induction k as [|k IH].
  - simpl. unfold digit_at. rewrite Z.mod_small; [done|]. split; [apply Z.div_pos; lia|].
    apply Z.div_lt_upper_bound; lia.
  - rewrite seq_S, map_app. simpl map at 2. rewrite horner_snoc, IH by lia.
    unfold digit_at. set (a := (v / 2 ^ (125 - Z.of_nat (1 + k) * 5))%Z).
    replace (125 - Z.of_nat (S k) * 5)%Z with (125 - Z.of_nat (1 + k) * 5)%Z by lia. fold a.
    assert ((v / 2 ^ (125 - Z.of_nat k * 5))%Z = (a / 32)%Z) as ->.
    { unfold a. rewrite Zdiv_Zdiv by (try apply Z.pow_nonneg; lia). f_equal.
      change 32%Z with (2 ^ 5)%Z. rewrite <- Z.pow_add_r by lia. f_equal. lia. }
    pose proof (Z.div_mod a 32 ltac:(lia)). lia.
Qed.

Lemma fmt_total v : ∃ text, mapM (fmt_char v) (seq 0 TEXT_LEN) = Some text ∧
  length text = TEXT_LEN ∧ mapM digit_of text = Some (map (digit_at v) (seq 0 TEXT_LEN)).
Proof.
  assert (∀ l, Forall (λ i, i ≤ 25) l → ∃ text, mapM (fmt_char v) l = Some text ∧
    length text = length l ∧ mapM digit_of text = Some (map (digit_at v) l)) as Hl.
  { induction 1 as [|i l Hi _ (text & IH1 & IH2 & IH3)]; [by exists []|].
    destruct (alphabet_digit (digit_at v i) (digit_at_bound v i)) as (c & Hc & Hd).
    exists (c :: text). split_and!.
    - simpl. rewrite fmt_char_digit, Hc by done. simpl. by rewrite IH1.
    - simpl. by rewrite IH2.
    - simpl. rewrite Hd. simpl. by rewrite IH3. }
  apply (Hl (seq 0 TEXT_LEN)). apply Forall_forall. intros i [_ Hi]%elem_of_seq.
  unfold TEXT_LEN in Hi. lia.
Qed.

(** ** Properties *)

(** The text of an identifier is always printed, is 26 characters long and
    parses back to the identifier. *)
Theorem workspace_id_roundtrip (id : WorkspaceId) :
  wf id → ∃ text, fmt id = Some text ∧ length text = TEXT_LEN ∧ from_str text = Ok id.
Proof.
  intros [Hl Hb]. pose proof (be_bound _ Hb) as Hv. rewrite Hl in Hv.
  change (256 ^ Z.of_nat 16)%Z with (2 ^ 128)%Z in Hv.
  destruct (fmt_total (from_be_bytes id)) as (text & Ht & Hlen & Hd).
  exists text. split_and!; [done|done|]. unfold from_str. rewrite Hlen, Nat.eqb_refl. simpl negb.
  change (seq 0 TEXT_LEN) with (0 :: seq 1 25) in Hd. rewrite map_cons in Hd.
  rewrite (parse_loop_ok _ _ _ Hlen Hd).
  - rewrite horner_digits by done. cbn [rbind]. f_equal.
    change (2 ^ (125 - Z.of_nat 25 * 5))%Z with 1%Z. rewrite Z.div_1_r.
    rewrite <- Hl. by apply be_roundtrip.
  - unfold digit_at. rewrite Z.mod_small.
    + enough (from_be_bytes id / 2 ^ (125 - Z.of_nat 0 * 5) < 8)%Z by lia.
      apply Z.div_lt_upper_bound; lia.
    + split; [apply Z.div_pos; lia|]. apply Z.div_lt_upper_bound; lia.
Qed.
End WorkspaceId.
