(* ===== verification/Order.v ===== *)
(** * Total orders: Rust's [Ord]

    The key types of every map in the source derive or implement [Ord].  [Cmp]
    is [Ord::cmp]; [TotalCmp] is what the documentation of [Ord] requires of
    it.  The instances below are the ones the source uses: integers, booleans,
    pairs and derived lexicographic orders, [Option], vectors and strings. *)
From stdpp Require Import base numbers option sorting list.
From S2P Require Import Prelude.

Class Cmp (A : Type) := cmp : A → A → comparison.

Class TotalCmp (A : Type) `{Cmp A} : Prop := {
  cmp_eq_iff : ∀ a b : A, cmp a b = Eq ↔ a = b;
  cmp_opp : ∀ a b : A, cmp b a = CompOpp (cmp a b);
  cmp_trans_lt : ∀ a b c : A, cmp a b = Lt → cmp b c = Lt → cmp a c = Lt;
}.

(** [a < b], [a > b], [a <= b] and [Ord::max] as the source writes them.
    [Ord::max] returns its second argument when the two compare equal. *)
Definition ltb {A} `{Cmp A} (a b : A) : bool :=
  match cmp a b with Lt => true | _ => false end.
Definition gtb {A} `{Cmp A} (a b : A) : bool :=
  match cmp a b with Gt => true | _ => false end.
Definition leb {A} `{Cmp A} (a b : A) : bool :=
  match cmp a b with Gt => false | _ => true end.
Definition geb {A} `{Cmp A} (a b : A) : bool :=
  match cmp a b with Lt => false | _ => true end.
Definition omax {A} `{Cmp A} (a b : A) : A :=
  match cmp a b with Gt => a | _ => b end.

Infix "<?" := ltb (at level 70, no associativity) : zen_scope.
Infix ">?" := gtb (at level 70, no associativity) : zen_scope.
Infix "<=?" := leb (at level 70, no associativity) : zen_scope.
Open Scope zen_scope.

Section Facts.
Context {A : Type} `{TotalCmp A}.
Implicit Types a b c : A.

Lemma cmp_refl a : cmp a a = Eq.
Proof. by apply cmp_eq_iff. Qed.
Lemma cmp_Eq a b : cmp a b = Eq → a = b.
Proof. apply cmp_eq_iff. Qed.
Lemma cmp_Lt_Gt a b : cmp a b = Lt ↔ cmp b a = Gt.
Proof. rewrite (cmp_opp a b). destruct (cmp a b); naive_solver. Qed.
Lemma cmp_trans_gt a b c : cmp a b = Gt → cmp b c = Gt → cmp a c = Gt.
Proof. rewrite <- !cmp_Lt_Gt. intros. by eapply cmp_trans_lt. Qed.
Lemma cmp_Lt_ne a b : cmp a b = Lt → a ≠ b.
Proof. intros Hl ->. by rewrite cmp_refl in Hl. Qed.
Lemma cmp_ne a b : a ≠ b → cmp a b = Lt ∨ cmp a b = Gt.
Proof. destruct (cmp a b) eqn:E; [|by left|by right]. by apply cmp_Eq in E. Qed.

(** Three-way case analysis, with the order facts in both directions. *)
Inductive cmp_view (a b : A) : comparison → Prop :=
  | CmpEq : a = b → cmp_view a b Eq
  | CmpLt : cmp a b = Lt → cmp b a = Gt → cmp_view a b Lt
  | CmpGt : cmp a b = Gt → cmp b a = Lt → cmp_view a b Gt.

Lemma cmpP a b : cmp_view a b (cmp a b).
Proof.
  destruct (cmp a b) eqn:E; constructor; try done.
  - by apply cmp_Eq.
  - by apply cmp_Lt_Gt.
  - by apply cmp_Lt_Gt.
Qed.

Lemma ltb_lt a b : (a <? b) = true ↔ cmp a b = Lt.
Proof. unfold ltb. destruct (cmp a b); naive_solver. Qed.
Lemma gtb_lt a b : (a >? b) = true ↔ cmp b a = Lt.
Proof. unfold gtb. rewrite cmp_Lt_Gt. destruct (cmp a b); naive_solver. Qed.
Lemma gtb_ltb a b : (a >? b) = (b <? a).
Proof. unfold gtb, ltb. destruct (cmpP a b) as [->| ? ->| ? ->]; [by rewrite cmp_refl|done|done]. Qed.
Lemma leb_gtb a b : (a <=? b) = negb (a >? b).
Proof. unfold leb, gtb. by destruct (cmp a b). Qed.
Lemma gtb_irrefl a : (a >? a) = false.
Proof. unfold gtb. by rewrite cmp_refl. Qed.
Lemma leb_refl a : (a <=? a) = true.
Proof. unfold leb. by rewrite cmp_refl. Qed.

Lemma leb_total a b : (a <=? b) = true ∨ (b <=? a) = true.
Proof. unfold leb. destruct (cmpP a b) as [->|? ->|? ->]; auto. Qed.
Lemma leb_antisym a b : (a <=? b) = true → (b <=? a) = true → a = b.
Proof. unfold leb. by destruct (cmpP a b) as [->|? ->|? ->]. Qed.
Lemma leb_trans a b c : (a <=? b) = true → (b <=? c) = true → (a <=? c) = true.
Proof.
  unfold leb. destruct (cmpP a b) as [->|E1 _|E1 _], (cmpP b c) as [->|E2 _|E2 _]; try done.
  - by rewrite E1.
  - by rewrite (cmp_trans_lt _ _ _ E1 E2).
Qed.
Lemma leb_false a b : (a <=? b) = false → (a >? b) = true.
Proof. unfold leb, gtb. by destruct (cmp a b). Qed.
Lemma omax_idemp a : omax a a = a.
Proof. unfold omax. by rewrite cmp_refl. Qed.
Lemma omax_comm a b : omax a b = omax b a.
Proof. unfold omax. destruct (cmpP a b) as [->|? ->|? ->]; [by rewrite cmp_refl|done|done]. Qed.
Lemma omax_l a b : gtb b a = false → omax a b = a.
Proof.
  unfold omax, gtb. destruct (cmpP a b) as [->|? E|? E]; try done. by rewrite E.
Qed.
Lemma omax_r a b : gtb b a = true → omax a b = b.
Proof. unfold omax, gtb. destruct (cmpP a b) as [->|? E|? E]; try done. by rewrite E. Qed.
Lemma omax_case a b : omax a b = if b >? a then b else a.
Proof. destruct (b >? a) eqn:E; [by apply omax_r | by apply omax_l]. Qed.
End Facts.

(** Closes goals that follow from the order facts of the context: equalities
    are substituted, [Gt] facts turned around, and [Lt] facts chained until
    one of them is about a single element. *)
Ltac ord_saturate :=
  repeat match goal with
  | H : @cmp ?T ?C ?a ?b = Eq |- _ => apply cmp_Eq in H
  | H : @cmp ?T ?C ?a ?b = Gt |- _ => apply cmp_Lt_Gt in H
  | H : Gt = @cmp ?T ?C ?a ?b |- _ => symmetry in H
  | H : (_ >? _) = true |- _ => apply gtb_lt in H
  | H : (_ <? _) = true |- _ => apply ltb_lt in H
  end; subst;
  repeat match goal with
  | H1 : @cmp ?T ?C ?a ?b = Lt, H2 : @cmp ?T ?C ?b ?c = Lt |- _ =>
      lazymatch goal with
      | _ : @cmp T C a c = Lt |- _ => fail
      | _ => pose proof (cmp_trans_lt _ _ _ H1 H2)
      end
  end.
Ltac ord :=
  ord_saturate;
  solve [ assumption | done
        | match goal with H : @cmp ?T ?C ?a ?a = Lt |- _ => rewrite cmp_refl in H; discriminate H end
        | apply cmp_Lt_Gt; assumption ].

Section Lattice.
Context {A : Type} `{TotalCmp A}.
Lemma omax_assoc (a b c : A) : omax a (omax b c) = omax (omax a b) c.
Proof.
  rewrite !omax_case. unfold gtb.
  destruct (cmpP c b) as [->|E1 E1'|E1 E1'], (cmpP b a) as [->|E2 E2'|E2 E2'];
    rewrite ?cmp_refl, ?E1, ?E2, ?E1', ?E2'; try done.
  - assert (cmp c a = Lt) as -> by ord. done.
  - assert (cmp c a = Gt) as -> by ord. done.
Qed.
Lemma omax_le_l (a b : A) : gtb a (omax a b) = false.
Proof. unfold omax, gtb. destruct (cmpP a b) as [->|E E'|E E']; rewrite ?cmp_refl, ?E; done. Qed.
Lemma omax_le_r (a b : A) : gtb b (omax a b) = false.
Proof. rewrite omax_comm. apply omax_le_l. Qed.
Lemma gtb_omax (s a b : A) : (s >? omax a b) = (s >? a) && (s >? b).
Proof.
  unfold omax, gtb.
  destruct (cmpP a b) as [->|E E'|E E'].
  - by destruct (cmp s b).
  - destruct (cmpP s b) as [->|F F'|F F']; [by rewrite E'|by rewrite andb_false_r|].
    assert (cmp s a = Gt) as -> by ord. done.
  - destruct (cmpP s a) as [->|F F'|F F']; [by rewrite ?E|done|].
    assert (cmp s b = Gt) as -> by ord. done.
Qed.
End Lattice.

(** ** Instances *)
#[export] Instance Z_cmp : Cmp Z := Z.compare.
#[export] Instance Z_total : TotalCmp Z.
Proof.
  split; unfold cmp, Z_cmp.
  - intros. apply Z.compare_eq_iff.
  - intros. apply Z.compare_antisym.
  - intros a b c. rewrite !Z.compare_lt_iff. lia.
Qed.
#[export] Instance N_cmp : Cmp N := N.compare.
#[export] Instance N_total : TotalCmp N.
Proof.
  split; unfold cmp, N_cmp.
  - intros. apply N.compare_eq_iff.
  - intros. apply N.compare_antisym.
  - intros a b c. rewrite !N.compare_lt_iff. lia.
Qed.
#[export] Instance bool_cmp : Cmp bool := λ a b,
  match a, b with false, true => Lt | true, false => Gt | _, _ => Eq end.
#[export] Instance bool_total : TotalCmp bool.
Proof.
  split.
  - by intros [] [].
  - by intros [] [].
  - by intros [] [] [].
Qed.

(** Lexicographic chaining: [Ordering::then_with]. *)
Definition then_with (c d : comparison) : comparison :=
  match c with Eq => d | _ => c end.

#[export] Instance prod_cmp {A B} `{Cmp A, Cmp B} : Cmp (A * B) := λ p q,
  then_with (cmp p.1 q.1) (cmp p.2 q.2).
#[export] Instance prod_total {A B} `{TotalCmp A, TotalCmp B} : TotalCmp (A * B).
Proof.
  split; unfold cmp, prod_cmp, then_with.
  - intros [a1 b1] [a2 b2]; simpl. destruct (cmpP a1 a2) as [->|E E'|E E'].
    + rewrite cmp_eq_iff. naive_solver.
    + split; [done|]. intros [=-> ->]. by rewrite cmp_refl in E.
    + split; [done|]. intros [=-> ->]. by rewrite cmp_refl in E.
  - intros [a1 b1] [a2 b2]; simpl. rewrite (cmp_opp a1 a2).
    destruct (cmp a1 a2); simpl; [apply cmp_opp|done|done].
  - intros [a1 b1] [a2 b2] [a3 b3]; simpl.
    destruct (cmpP a1 a2) as [->|E E'|E E'], (cmpP a2 a3) as [->|F F'|F F'];
      rewrite ?cmp_refl, ?E, ?F; try done.
    + apply cmp_trans_lt.
    + by rewrite (cmp_trans_lt _ _ _ E F).
Qed.

(** [Option]: [None] is below every [Some]. *)
#[export] Instance option_cmp {A} `{Cmp A} : Cmp (option A) := λ a b,
  match a, b with
  | None, None => Eq
  | None, Some _ => Lt
  | Some _, None => Gt
  | Some x, Some y => cmp x y
  end.
#[export] Instance option_total {A} `{TotalCmp A} : TotalCmp (option A).
Proof.
  split; unfold cmp, option_cmp.
  - intros [a|] [b|]; try (split; congruence). rewrite cmp_eq_iff. naive_solver.
  - intros [a|] [b|]; try done. apply cmp_opp.
  - intros [a|] [b|] [c|]; try done. apply cmp_trans_lt.
Qed.

(** Sums, to give enums their derived order: earlier constructors are smaller. *)
#[export] Instance sum_cmp {A B} `{Cmp A, Cmp B} : Cmp (A + B) := λ a b,
  match a, b with
  | inl x, inl y => cmp x y
  | inl _, inr _ => Lt
  | inr _, inl _ => Gt
  | inr x, inr y => cmp x y
  end.
#[export] Instance sum_total {A B} `{TotalCmp A, TotalCmp B} : TotalCmp (A + B).
Proof.
  split; unfold cmp, sum_cmp.
  - intros [a|a] [b|b]; try (split; congruence); rewrite cmp_eq_iff; naive_solver.
  - intros [a|a] [b|b]; try done; apply cmp_opp.
  - intros [a|a] [b|b] [c|c]; try done; apply cmp_trans_lt.
Qed.

(** Vectors and slices: lexicographic, a proper prefix being smaller. *)
Fixpoint list_compare {A} `{Cmp A} (l k : list A) : comparison :=
  match l, k with
  | [], [] => Eq
  | [], _ :: _ => Lt
  | _ :: _, [] => Gt
  | a :: l, b :: k => then_with (cmp a b) (list_compare l k)
  end.
#[export] Instance list_cmp {A} `{Cmp A} : Cmp (list A) := list_compare.
#[export] Instance list_total {A} `{TotalCmp A} : TotalCmp (list A).
Proof.
  split; unfold cmp, list_cmp.
  - induction a as [|x a IH]; intros [|y b]; simpl; try (split; congruence).
    unfold then_with. destruct (cmpP x y) as [->|E E'|E E'].
    + rewrite IH. naive_solver.
    + split; [done|]. intros [=-> ->]. by rewrite cmp_refl in E.
    + split; [done|]. intros [=-> ->]. by rewrite cmp_refl in E.
  - induction a as [|x a IH]; intros [|y b]; simpl; try done.
    rewrite (cmp_opp x y). destruct (cmp x y); simpl; [apply IH|done|done].
  - induction a as [|x a IH]; intros [|y b] [|z c]; simpl; try done.
    unfold then_with.
    destruct (cmpP x y) as [->|E E'|E E'], (cmpP y z) as [->|F F'|F F'];
      rewrite ?cmp_refl, ?E, ?F; try done.
    + apply IH.
    + by rewrite (cmp_trans_lt _ _ _ E F).
Qed.

(** An order through an injective key: the shape of every hand-written [Ord]. *)
Section Via.
Context {A B : Type} `{TotalCmp B} (f : A → B) `{!Inj (=) (=) f}.
Lemma via_total : @TotalCmp A (λ a b, cmp (f a) (f b)).
Proof.
  split; unfold cmp at 1.
  - intros a b. rewrite cmp_eq_iff. split; [apply (inj f)|by intros ->].
  - intros a b. unfold cmp at 2. apply cmp_opp.
  - intros a b c. unfold cmp at 2 4. apply cmp_trans_lt.
Qed.
End Via.

(** ** Strings

    A Rust [String] is a sequence of Unicode scalar values; UTF-8 preserves
    their order, so [Ord for str] (bytewise) is the lexicographic order of the
    code points. *)
Definition rchar := N.
Definition rstring := list rchar.
#[export] Instance rstring_eq : EqDecision rstring := _.
#[export] Instance rstring_cmp : Cmp rstring := _.
#[export] Instance rstring_total : TotalCmp rstring := _.

(** ** Sorting

    [slice::sort_by] with the comparison [le]: a stable sort, here by
    insertion. *)
Section Sort.
Context {A : Type} (le : A → A → bool).

Fixpoint insert_by (x : A) (l : list A) : list A :=
  match l with
  | [] => [x]
  | y :: l' => if le x y then x :: l else y :: insert_by x l'
  end.
Definition sort_by (l : list A) : list A := foldr insert_by [] l.

Lemma insert_by_perm x l : insert_by x l ≡ₚ x :: l.
Proof.
  induction l as [|y l IH]; simpl; [done|]. destruct (le x y); [done|].
  rewrite IH. apply Permutation_swap.
Qed.
Lemma sort_by_perm l : sort_by l ≡ₚ l.
Proof. induction l as [|x l IH]; simpl; [done|]. by rewrite insert_by_perm, IH. Qed.

Lemma insert_by_sorted x l :
  (∀ a b, le a b = true ∨ le b a = true) →
  (∀ a b c, le a b = true → le b c = true → le a c = true) →
  StronglySorted (λ a b, le a b = true) l →
  StronglySorted (λ a b, le a b = true) (insert_by x l).
Proof.
  intros Htot Htr. induction 1 as [|y l Hs IH Hf]; simpl; [repeat constructor|].
  destruct (le x y) eqn:E.
  - constructor; [by constructor|]. constructor; [done|].
    eapply Forall_impl; [exact Hf|]. simpl. eauto.
  - constructor; [done|]. rewrite insert_by_perm. constructor; [|done].
    destruct (Htot x y) as [?|?]; [congruence|done].
Qed.
Lemma sort_by_sorted l :
  (∀ a b, le a b = true ∨ le b a = true) →
  (∀ a b c, le a b = true → le b c = true → le a c = true) →
  StronglySorted (λ a b, le a b = true) (sort_by l).
Proof. intros. induction l as [|x l IH]; simpl; [constructor|]. by apply insert_by_sorted. Qed.

(** An element below every other comes out first. *)
Lemma sort_by_least x l :
  Forall (λ y, le x y = true ∧ le y x = false) l → sort_by (l ++ [x]) = x :: sort_by l.
Proof.
  induction 1 as [|y l [H1 H2] Hf IH]; simpl; [done|]. rewrite IH. simpl. by rewrite H2.
Qed.

(** A strictly increasing list is the only sorting of its permutations. *)
Lemma sorted_unique l l' :
  StronglySorted (λ a b, le a b = true) l →
  StronglySorted (λ a b, le a b = true ∧ le b a = false) l' → l ≡ₚ l' → l = l'.
Proof.
  intros Hl Hl'. revert l Hl. induction Hl' as [|x l' Hl' IH Hx]; intros l Hl Hp.
  { symmetry in Hp. by apply Permutation_nil in Hp. }
  destruct Hl as [|y l Hl Hy]; [by apply Permutation_nil in Hp|].
  rewrite Forall_forall in Hx, Hy.
  assert (y = x) as ->.
  { assert (y ∈ x :: l') as [->|Hyl]%elem_of_cons by (rewrite <- Hp; by left); [done|].
    assert (x ∈ y :: l) as [->|Hxl]%elem_of_cons by (rewrite Hp; by left); [done|].
    destruct (Hx _ Hyl) as [_ Hf]. specialize (Hy _ Hxl). simpl in Hy. congruence. }
  f_equal. apply IH; [done|]. by apply Permutation_cons_inv in Hp.
Qed.
Lemma sort_by_unique l l' :
  (∀ a b, le a b = true ∨ le b a = true) →
  (∀ a b c, le a b = true → le b c = true → le a c = true) →
  StronglySorted (λ a b, le a b = true ∧ le b a = false) l' → l ≡ₚ l' → sort_by l = l'.
Proof.
  intros Htot Htr Hl' Hp. apply sorted_unique; [by apply sort_by_sorted|done|].
  by rewrite sort_by_perm.
Qed.
End Sort.
