(* ===== verification/BTreeMap.v ===== *)
(** * Ordered maps: [std::collections::BTreeMap] and [BTreeSet]

    A [BTreeMap] is the list of its entries in iteration order.  [bt_wf] is
    the invariant of the standard library's type (keys strictly increasing);
    the lookup laws hold without it, extensionality needs it.  [merge_loop] is
    the loop every replicated map of the source merges with. *)
From stdpp Require Import base numbers option list.
From S2P Require Import Prelude Order.

Abbreviation btree K V := (list (K * V)%type).

Section Map.
Context {K V : Type} `{TotalCmp K}.
Implicit Types (k j : K) (v : V) (m : btree K V).

(** [BTreeMap::get]. *)
Fixpoint bt_get k m : option V :=
  match m with
  | [] => None
  | (k', v) :: m' => match cmp k k' with Eq => Some v | _ => bt_get k m' end
  end.

(** [BTreeMap::insert], the value of the previous entry being [bt_get]. *)
Fixpoint bt_insert k v m : btree K V :=
  match m with
  | [] => [(k, v)]
  | (k', v') :: m' =>
      match cmp k k' with
      | Lt => (k, v) :: m
      | Eq => (k, v) :: m'
      | Gt => (k', v') :: bt_insert k v m'
      end
  end.

(** [BTreeMap::remove]. *)
Fixpoint bt_remove k m : btree K V :=
  match m with
  | [] => []
  | (k', v') :: m' =>
      match cmp k k' with Eq => bt_remove k m' | _ => (k', v') :: bt_remove k m' end
  end.

Definition bt_contains k m : bool :=
  is_some (bt_get k m).
Definition bt_keys m : list K := map fst m.
Definition bt_values m : list V := map snd m.

(** [FromIterator]: later entries replace earlier ones. *)
Definition bt_from_iter (l : list (K * V)) : btree K V :=
  foldl (λ m p, bt_insert p.1 p.2 m) [] l.

(** Keys strictly increasing. *)
Fixpoint bt_wf m : Prop :=
  match m with
  | [] => True
  | (k, _) :: m' => Forall (λ p, cmp k p.1 = Lt) m' ∧ bt_wf m'
  end.

(** The invariant as a test, to evaluate. *)
Fixpoint bt_sorted m : bool :=
  match m with
  | [] => true
  | (k, _) :: m' => forallb (λ p, k <? p.1) m' && bt_sorted m'
  end.
Lemma bt_sorted_wf m : bt_sorted m = true → bt_wf m.
Proof.
  induction m as [|[k v] m IH]; simpl; [done|]. intros [Hf Hm]%andb_true_iff.
  split; [|by apply IH]. apply Forall_forall. intros p Hp. apply forallb_forall with (x := p) in Hf;
    [by apply ltb_lt|by apply list_elem_of_In].
Qed.

Lemma bt_get_insert k v m : bt_get k (bt_insert k v m) = Some v.
Proof.
  induction m as [|[k' v'] m IH]; simpl; [by rewrite cmp_refl|].
  destruct (cmp k k') eqn:E; simpl; rewrite ?cmp_refl, ?E; done.
Qed.
Lemma bt_get_insert_ne k j v m : j ≠ k → bt_get j (bt_insert k v m) = bt_get j m.
Proof.
  intros Hne. assert (cmp j k ≠ Eq) as Hc by (by rewrite cmp_eq_iff).
  induction m as [|[k' v'] m IH]; simpl; [by destruct (cmp j k)|].
  destruct (cmpP k k') as [->|E E'|E E']; simpl.
  - by destruct (cmp j k').
  - by destruct (cmp j k).
  - by rewrite IH.
Qed.
Lemma bt_get_insert_dec `{EqDecision K} k j v m :
  bt_get j (bt_insert k v m) = if decide (j = k) then Some v else bt_get j m.
Proof. case_decide; subst; [apply bt_get_insert | by apply bt_get_insert_ne]. Qed.

Lemma bt_get_remove k m : bt_get k (bt_remove k m) = None.
Proof.
  induction m as [|[k' v'] m IH]; simpl; [done|].
  destruct (cmp k k') eqn:E; simpl; rewrite ?E; done.
Qed.
Lemma bt_get_remove_ne k j m : j ≠ k → bt_get j (bt_remove k m) = bt_get j m.
Proof.
  intros Hne. induction m as [|[k' v'] m IH]; simpl; [done|].
  destruct (cmpP k k') as [->|E E'|E E']; simpl; rewrite IH; try done.
  destruct (cmp j k') eqn:E; [|done..]. by apply cmp_Eq in E.
Qed.

Lemma bt_Forall_insert (P : K * V → Prop) k v m :
  P (k, v) → Forall P m → Forall P (bt_insert k v m).
Proof.
  induction m as [|[k' v'] m IH]; simpl; intros HP HF; [by constructor|].
  destruct (cmp k k'); inversion HF; subst; repeat constructor; auto.
Qed.
Lemma bt_Forall_remove (P : K * V → Prop) k m : Forall P m → Forall P (bt_remove k m).
Proof.
  induction m as [|[k' v'] m IH]; simpl; intros HF; [done|].
  inversion HF; subst. destruct (cmp k k'); [|constructor..]; auto.
Qed.

Lemma bt_wf_insert k v m : bt_wf m → bt_wf (bt_insert k v m).
Proof.
  induction m as [|[k' v'] m IH]; simpl; [done|]. intros [HF Hm].
  destruct (cmpP k k') as [->|E E'|E E']; simpl.
  - done.
  - split; [|done]. constructor; [done|].
    eapply Forall_impl; [exact HF|]. intros [j w] Hj; simpl in *. ord.
  - split; [|by auto]. by apply bt_Forall_insert.
Qed.
Lemma bt_wf_remove k m : bt_wf m → bt_wf (bt_remove k m).
Proof.
  induction m as [|[k' v'] m IH]; simpl; [done|]. intros [HF Hm].
  destruct (cmp k k'); simpl; auto using bt_Forall_remove.
Qed.

Lemma bt_get_In k v m : bt_get k m = Some v → (k, v) ∈ m.
Proof.
  induction m as [|[k' v'] m IH]; simpl; [done|].
  destruct (cmpP k k') as [->|E E'|E E'].
  - intros [= ->]. apply list_elem_of_here.
  - intros Hg. apply list_elem_of_further. auto.
  - intros Hg. apply list_elem_of_further. auto.
Qed.
Lemma bt_lt_get_None k m : Forall (λ p, cmp k p.1 = Lt) m → bt_get k m = None.
Proof.
  induction 1 as [|[k' v'] m Hk HF IH]; simpl in *; [done|]. by rewrite Hk.
Qed.
Lemma bt_In_get k v m : bt_wf m → (k, v) ∈ m → bt_get k m = Some v.
Proof.
  induction m as [|[k' v'] m IH]; simpl; intros Hwf Hin; [by apply elem_of_nil in Hin|].
  destruct Hwf as [HF Hm]. apply elem_of_cons in Hin as [[= -> ->]|Hin].
  - by rewrite cmp_refl.
  - rewrite Forall_forall in HF. specialize (HF _ Hin); simpl in HF.
    apply cmp_Lt_Gt in HF. rewrite HF. auto.
Qed.
Lemma bt_get_In_iff k v m : bt_wf m → bt_get k m = Some v ↔ (k, v) ∈ m.
Proof. split; [apply bt_get_In | by apply bt_In_get]. Qed.

(** What holds of every entry holds of every lookup. *)
Lemma bt_get_forall (P : V → Prop) m : Forall (λ p, P p.2) m →
  ∀ k v, bt_get k m = Some v → P v.
Proof. rewrite Forall_forall. intros HP k v Hg. exact (HP _ (bt_get_In _ _ _ Hg)). Qed.
Lemma bt_get_forallb (P : V → Prop) (p : V → bool) m : (∀ v, p v = true → P v) →
  forallb (λ kv, p kv.2) m = true → ∀ k v, bt_get k m = Some v → P v.
Proof.
  intros Hp Hf. apply bt_get_forall, Forall_forall. intros kv Hkv. apply Hp.
  apply forallb_forall with (x := kv) in Hf; [done|by apply list_elem_of_In].
Qed.
Lemma bt_contains_get k m : bt_contains k m = true ↔ is_Some (bt_get k m).
Proof. unfold bt_contains. destruct (bt_get k m); split; eauto; [done|]. by intros []. Qed.
Lemma bt_contains_false k m : bt_contains k m = false ↔ bt_get k m = None.
Proof. unfold bt_contains. by destruct (bt_get k m). Qed.

(** Well-formed maps with the same lookups are the same map. *)
Lemma bt_ext m1 m2 :
  bt_wf m1 → bt_wf m2 → (∀ k, bt_get k m1 = bt_get k m2) → m1 = m2.
Proof.
  revert m2. induction m1 as [|[k1 v1] m1 IH]; intros [|[k2 v2] m2]; simpl.
  - done.
  - intros _ _ Hg. specialize (Hg k2). by rewrite cmp_refl in Hg.
  - intros _ _ Hg. specialize (Hg k1). by rewrite cmp_refl in Hg.
  - intros [HF1 Hm1] [HF2 Hm2] Hg.
    assert (k1 = k2) as ->.
    { destruct (cmpP k1 k2) as [->|E E'|E E']; [done|exfalso..].
      - specialize (Hg k1). rewrite cmp_refl, E in Hg. symmetry in Hg.
        apply bt_get_In in Hg. rewrite Forall_forall in HF2.
        specialize (HF2 _ Hg); simpl in HF2. ord.
      - specialize (Hg k2). rewrite cmp_refl, E' in Hg.
        apply bt_get_In in Hg. rewrite Forall_forall in HF1.
        specialize (HF1 _ Hg); simpl in HF1. ord. }
    f_equal.
    + specialize (Hg k2). rewrite cmp_refl in Hg. by simplify_eq.
    + apply IH; [done|done|]. intros k. generalize (Hg k).
      destruct (cmpP k k2) as [->|E E'|E E']; intros Hk; [|done..].
      by rewrite (bt_lt_get_None _ _ HF1), (bt_lt_get_None _ _ HF2).
Qed.

Lemma bt_insert_id k v m : bt_wf m → bt_get k m = Some v → bt_insert k v m = m.
Proof.
  intros Hm Hg. apply bt_ext; [by apply bt_wf_insert|done|]. intros j.
  destruct (cmpP j k) as [->|E _|E _].
  - by rewrite bt_get_insert.
  - apply bt_get_insert_ne. intros ->. by rewrite cmp_refl in E.
  - apply bt_get_insert_ne. intros ->. by rewrite cmp_refl in E.
Qed.

Lemma bt_insert_length k v m :
  bt_get k m = None → length (bt_insert k v m) = S (length m).
Proof.
  induction m as [|[k' v'] m IH]; simpl; [done|].
  destruct (cmp k k'); simpl; [done|done|]. intros Hg. f_equal. auto.
Qed.

Lemma bt_insert_length_id k v w m :
  bt_wf m → bt_get k m = Some v → length (bt_insert k w m) = length m.
Proof.
  induction m as [|[k' v'] m IH]; simpl; [done|]. intros [HF Hm].
  destruct (cmpP k k') as [->|E E'|E E']; simpl; [done| |by intros; f_equal; auto].
  rewrite bt_lt_get_None; [done|]. eapply Forall_impl; [exact HF|].
  intros [j u] Hj; simpl in *. ord.
Qed.
(** A key above every key of the map is absent. *)
Lemma bt_get_absent k m : Forall (λ p, cmp p.1 k = Lt) m → bt_get k m = None.
Proof.
  induction 1 as [|[k' v'] m Hk HF IH]; simpl in *; [done|]. apply cmp_Lt_Gt in Hk. by rewrite Hk.
Qed.
Lemma bt_insert_length_le k v m : length m ≤ length (bt_insert k v m).
Proof.
  induction m as [|[k' v'] m IH]; simpl; [lia|]. destruct (cmp k k'); simpl; lia.
Qed.

Lemma bt_keys_NoDup m : bt_wf m → NoDup (bt_keys m).
Proof.
  induction m as [|[k v] m IH]; simpl; intros Hm; [constructor|]. destruct Hm as [HF Hm].
  constructor; [|by auto]. intros [[k' v'] [-> Hin]]%list_elem_of_fmap.
  rewrite Forall_forall in HF. specialize (HF _ Hin); simpl in HF.
  by rewrite cmp_refl in HF.
Qed.
Lemma bt_elem_of_keys k m : k ∈ bt_keys m ↔ is_Some (bt_get k m).
Proof.
  induction m as [|[k' v'] m IH]; simpl.
  - rewrite elem_of_nil. split; [done|by intros []].
  - rewrite elem_of_cons, IH. destruct (cmpP k k') as [->|E _|E _].
    + split; eauto.
    + split; [intros [->|?]; [by rewrite cmp_refl in E|done]|by right].
    + split; [intros [->|?]; [by rewrite cmp_refl in E|done]|by right].
Qed.
End Map.

(** Two maps whose common entries are related. *)
Section Agree.
Context {K V W : Type} `{TotalCmp K}.
Definition bt_agree (p : V → W → bool) (m : btree K V) (m' : btree K W) : bool :=
  forallb (λ kw, match bt_get kw.1 m with Some v => p v kw.2 | None => true end) m'.
Lemma bt_agree_get (P : V → W → Prop) p (m : btree K V) (m' : btree K W) :
  (∀ v w, p v w = true → P v w) →
  bt_agree p m m' = true → ∀ k v w, bt_get k m = Some v → bt_get k m' = Some w → P v w.
Proof.
  intros Hp Hf k v w Hv Hw. apply Hp. apply bt_get_In, list_elem_of_In in Hw.
  unfold bt_agree in Hf. rewrite forallb_forall in Hf. specialize (Hf _ Hw). simpl in Hf. by rewrite Hv in Hf.
Qed.
End Agree.

#[export] Hint Extern 1 (bt_wf (bt_insert _ _ _)) => apply bt_wf_insert : zen.
#[export] Hint Extern 1 (bt_wf (bt_remove _ _)) => apply bt_wf_remove : zen.
#[export] Hint Rewrite @bt_get_insert @bt_get_remove : zen.

(** Case analysis on whether two keys are equal, with the lookup of an insert
    reduced accordingly. *)
Ltac bt_key j k :=
  let E := fresh "Hne" in
  destruct (decide (j = k)) as [->|E];
  [rewrite ?bt_get_insert, ?bt_get_remove
  |rewrite ?(bt_get_insert_ne _ _ _ _ E), ?(bt_get_remove_ne _ _ _ E)].

(** Pointwise equality of maps: coarser than equality on ill-formed lists, and
    equality on maps. *)
Definition bt_eqv {K V} `{Cmp K} (m1 m2 : btree K V) : Prop :=
  ∀ k, bt_get k m1 = bt_get k m2.
Section Eqv.
Context {K V : Type} `{TotalCmp K} `{EqDecision K}.
#[export] Instance bt_eqv_equiv : Equivalence (bt_eqv (K:=K) (V:=V)).
Proof.
  split; [by intros m k | by intros m1 m2 Hm k |].
  intros m1 m2 m3 H1 H2 k. by rewrite (H1 k), (H2 k).
Qed.
#[export] Instance bt_get_proper k : Proper (bt_eqv ==> (=)) (bt_get (V:=V) k).
Proof. by intros m1 m2 Hm. Qed.
#[export] Instance bt_insert_proper k v : Proper (bt_eqv ==> bt_eqv) (bt_insert (V:=V) k v).
Proof. intros m1 m2 Hm j. bt_key j k; [done|apply Hm]. Qed.
#[export] Instance bt_remove_proper k : Proper (bt_eqv ==> bt_eqv) (bt_remove (V:=V) k).
Proof. intros m1 m2 Hm j. bt_key j k; [done|apply Hm]. Qed.
Lemma bt_eqv_eq (m1 m2 : btree K V) : bt_wf m1 → bt_wf m2 → bt_eqv m1 m2 → m1 = m2.
Proof. apply bt_ext. Qed.
Lemma bt_insert_swap (m : btree K V) k j v w :
  k ≠ j → bt_eqv (bt_insert k v (bt_insert j w m)) (bt_insert j w (bt_insert k v m)).
Proof. intros Hne i. rewrite !bt_get_insert_dec. do 2 case_decide; congruence. Qed.
End Eqv.
