(* ===== verification/Merge.v ===== *)
(** * State merges: the join interface and the map merge loop

    [JoinLaws] is what a replicated type promises to the code that merges it:
    on well-formed states that do not conflict, [merge] succeeds, is a join
    (commutative, associative, idempotent), and reports [changed] exactly when
    it changed the receiver.  [merge_loop] is the loop
    [for (key, remote) in &remote.entries { match self.entries.get_mut(key) }]
    of the source; it lifts [JoinLaws] from entries to maps, which is how the
    clients of the interface are proved. *)
From stdpp Require Import base numbers option list.
From S2P Require Import Prelude Order BTreeMap.

Class JoinLaws {V E : Type} (merge : V → V → V * result E bool) := {
  jl_wf : V → Prop;
  jl_ok : V → V → Prop;
  jl_join : V → V → V;
  jl_run l r : jl_wf l → jl_wf r → jl_ok l r →
    ∃ c, merge l r = (jl_join l r, Ok c) ∧ (c = false ↔ jl_join l r = l);
  jl_wf_join l r : jl_wf l → jl_wf r → jl_ok l r → jl_wf (jl_join l r);
  jl_ok_refl l : jl_wf l → jl_ok l l;
  jl_ok_sym l r : jl_ok l r → jl_ok r l;
  jl_ok_join a b c : jl_wf a → jl_wf b → jl_wf c →
    jl_ok a b → jl_ok a c → jl_ok b c → jl_ok (jl_join a b) c;
  jl_comm l r : jl_wf l → jl_wf r → jl_ok l r → jl_join l r = jl_join r l;
  jl_assoc a b c : jl_wf a → jl_wf b → jl_wf c →
    jl_ok a b → jl_ok a c → jl_ok b c →
    jl_join (jl_join a b) c = jl_join a (jl_join b c);
  jl_idemp l : jl_wf l → jl_join l l = l;
}.

(** What a caller sees: three replicas that merge in any order agree, and
    merging a state with itself is a reported no-op. *)
Section Converge.
Context {V E : Type} (merge : V → V → V * result E bool) `{J : !JoinLaws merge}.

Lemma merge_state l r : jl_wf l → jl_wf r → jl_ok l r → (merge l r).1 = jl_join l r.
Proof. intros Hl Hr Ho. destruct (jl_run l r) as (c & -> & _); done. Qed.

Lemma join_commutes l r : jl_wf l → jl_wf r → jl_ok l r → (merge l r).1 = (merge r l).1.
Proof.
  intros Hl Hr Ho. rewrite !merge_state; auto using jl_ok_sym. by apply jl_comm.
Qed.
Lemma join_associates a b c : jl_wf a → jl_wf b → jl_wf c →
  jl_ok a b → jl_ok a c → jl_ok b c →
  (merge (merge a b).1 c).1 = (merge a (merge b c).1).1.
Proof.
  intros. rewrite (merge_state a b), (merge_state b c) by done.
  rewrite !merge_state; auto using jl_wf_join, jl_ok_join.
  - by apply jl_assoc.
  - apply jl_ok_sym, jl_ok_join; auto using jl_ok_sym.
Qed.
Lemma join_self l : jl_wf l → merge l l = (l, Ok false).
Proof.
  intros Hl. destruct (jl_run l l) as (c & Hm & Hc); auto using jl_ok_refl.
  rewrite jl_idemp in Hc, Hm by done. rewrite Hm. by rewrite (proj2 Hc eq_refl).
Qed.
Lemma join_changed l r : jl_wf l → jl_wf r → jl_ok l r →
  ∃ c, (merge l r).2 = Ok c ∧ (c = false ↔ (merge l r).1 = l).
Proof. intros. destruct (jl_run l r) as (c & -> & ?); eauto. Qed.
Lemma join_absorbs l r : jl_wf l → jl_wf r → jl_ok l r →
  merge (merge l r).1 r = ((merge l r).1, Ok false).
Proof.
  intros. rewrite merge_state by done.
  assert (jl_ok (jl_join l r) r) by (apply jl_ok_join; auto using jl_ok_refl).
  assert (jl_join (jl_join l r) r = jl_join l r) as Habs.
  { rewrite jl_assoc by auto using jl_ok_refl. by rewrite jl_idemp. }
  destruct (jl_run (jl_join l r) r) as (c & Hm & Hc); auto using jl_wf_join.
  rewrite Hm, Habs. rewrite Habs in Hc. by rewrite (proj2 Hc eq_refl).
Qed.

(** Everything a client states about merging, in one lemma. *)
Lemma converges a b c :
  jl_wf a → jl_wf b → jl_wf c → jl_ok a b → jl_ok a c → jl_ok b c →
  (merge a b).1 = (merge b a).1 ∧
  (merge (merge a b).1 c).1 = (merge a (merge b c).1).1 ∧
  merge a a = (a, Ok false) ∧
  (∃ ch, (merge a b).2 = Ok ch ∧ (ch = false ↔ (merge a b).1 = a)).
Proof.
  intros. split_and!; auto using join_commutes, join_associates, join_self, join_changed.
Qed.
End Converge.

(** The interface passes through a one-field struct. *)
Section Wrap.
Context {V W E : Type} (inner : V → V → V * result E bool) `{J : !JoinLaws inner}.
Variables (mk : V → W) (proj : W → V).
Variables (proj_mk : ∀ v, proj (mk v) = v) (mk_proj : ∀ w, mk (proj w) = w).
Variable outer : W → W → W * result E bool.
Variable outer_inner : ∀ a b,
  jl_wf (proj a) → jl_wf (proj b) → jl_ok (proj a) (proj b) →
  outer a b = (mk (inner (proj a) (proj b)).1, (inner (proj a) (proj b)).2).

Definition wrap_laws : JoinLaws outer.
Proof using proj_mk outer_inner mk_proj J.
  refine {| jl_wf := λ w, jl_wf (proj w); jl_ok := λ a b, jl_ok (proj a) (proj b);
            jl_join := λ a b, mk (jl_join (proj a) (proj b)) |}.
  - intros l r Hl Hr Ho. destruct (jl_run (merge:=inner) (proj l) (proj r)) as (c & Hm & Hc);
      [done..|]. exists c. rewrite outer_inner, Hm by done. split; [done|]. rewrite Hc.
    split; intros Hx; [by rewrite Hx, mk_proj|]. by rewrite <- (proj_mk (jl_join _ _)), Hx.
  - intros l r. rewrite proj_mk. apply jl_wf_join.
  - intros l. apply jl_ok_refl.
  - intros l r. apply jl_ok_sym.
  - intros a b c. rewrite proj_mk. apply jl_ok_join.
  - intros l r ???. f_equal. by apply jl_comm.
  - intros a b c ??????. rewrite !proj_mk. f_equal. by apply jl_assoc.
  - intros l Hl. rewrite jl_idemp by done. apply mk_proj.
Defined.
End Wrap.

(** ... and through a struct of two fields that are merged one after the
    other, the flags being joined. *)
Section Pair.
Context {V W E1 E2 E : Type}.
Context (m1 : V → V → V * result E1 bool) `{J1 : !JoinLaws m1}.
Context (m2 : W → W → W * result E2 bool) `{J2 : !JoinLaws m2}.
Variable both : V * W → V * W → (V * W) * result E bool.
Variable both_spec : ∀ a b c1 c2,
  (m1 a.1 b.1).2 = Ok c1 → (m2 a.2 b.2).2 = Ok c2 →
  both a b = (((m1 a.1 b.1).1, (m2 a.2 b.2).1), Ok (c1 || c2)).

Definition pair_laws : JoinLaws both.
Proof using both_spec J1 J2.
  refine {| jl_wf := λ p, jl_wf p.1 ∧ jl_wf p.2;
            jl_ok := λ a b, jl_ok a.1 b.1 ∧ jl_ok a.2 b.2;
            jl_join := λ a b, (jl_join a.1 b.1, jl_join a.2 b.2) |}.
  - intros l r [Hl1 Hl2] [Hr1 Hr2] [Ho1 Ho2].
    destruct (jl_run (merge:=m1) l.1 r.1) as (c1 & E1' & H1); [done..|].
    destruct (jl_run (merge:=m2) l.2 r.2) as (c2 & E2' & H2); [done..|].
    exists (c1 || c2). rewrite (both_spec _ _ c1 c2) by (by rewrite ?E1', ?E2').
    rewrite E1', E2'. split; [done|]. rewrite orb_false_iff, H1, H2.
    destruct l; simpl. split; [by intros [-> ->]|by intros [= -> ->]].
  - intros l r [??] [??] [??]; split; by apply jl_wf_join.
  - intros l [??]; split; by apply jl_ok_refl.
  - intros l r [??]; split; by apply jl_ok_sym.
  - intros a b c [??] [??] [??] [??] [??] [??]; split; by apply jl_ok_join.
  - intros l r [??] [??] [??]. f_equal; by apply jl_comm.
  - intros a b c [??] [??] [??] [??] [??] [??]. f_equal; simpl; by apply jl_assoc.
  - intros [] [??]; simpl in *. f_equal; by apply jl_idemp.
Defined.
End Pair.

(** ** The merge loop over a map *)
Section Loop.
Context {K V E : Type} `{TotalCmp K}.
Variable body : K → V → V → V * result E bool.
Implicit Types (k : K) (l r v : V) (self remote : btree K V).

Fixpoint merge_loop self remote (changed : bool) : btree K V * result E bool :=
  match remote with
  | [] => (self, Ok changed)
  | (k, r) :: rest =>
      match bt_get k self with
      | None => merge_loop (bt_insert k r self) rest true
      | Some l =>
          let '(l', res) := body k l r in
          match res with
          | Ok c => merge_loop (bt_insert k l' self) rest (changed || c)
          | Err e => (bt_insert k l' self, Err e)
          | Panic => (bt_insert k l' self, Panic)
          end
      end
  end.

(** The loop keeps the map well formed whatever the body does. *)
Lemma merge_loop_wf self remote c : bt_wf self → bt_wf (merge_loop self remote c).1.
Proof.
  revert self c. induction remote as [|[k r] remote IH]; intros self c Hs; simpl; [done|].
  destruct (bt_get k self) as [l|]; [|by auto with zen].
  destruct (body k l r) as [l' [c'|e|]]; simpl; auto with zen.
Qed.

(** The loop when no entry fails: it terminates with [Ok], its lookups are
    the entrywise merge, and [changed] is the disjunction of the entries'. *)
Variable ok : K → V → V → Prop.
Variable join : K → V → V → V.
Variable chg : K → V → V → bool.
Variable body_ok : ∀ k l r, ok k l r → body k l r = (join k l r, Ok (chg k l r)).

Definition merge_entry k (l r : option V) : option V :=
  match l, r with
  | Some l, Some r => Some (join k l r)
  | Some l, None => Some l
  | None, r => r
  end.
Definition entry_changed self (p : K * V) : bool :=
  match bt_get p.1 self with None => true | Some l => chg p.1 l p.2 end.
Definition compatible self remote : Prop :=
  ∀ k l r, bt_get k self = Some l → bt_get k remote = Some r → ok k l r.

Context `{EqDecision K}.

Lemma compatible_tail self k r rest v :
  bt_wf ((k, r) :: rest) → compatible self ((k, r) :: rest) →
  compatible (bt_insert k v self) rest.
Proof.
  intros [HF Hwf] Hc j l' r' Hl Hr.
  assert (j ≠ k) as Hne.
  { intros ->. by rewrite (bt_lt_get_None _ _ HF) in Hr. }
  rewrite bt_get_insert_ne in Hl by done. eapply Hc; [exact Hl|]. simpl.
  destruct (cmp j k) eqn:Ec; [by apply cmp_Eq in Ec|done..].
Qed.

Lemma merge_loop_ok self remote c :
  bt_wf remote → compatible self remote →
  ∃ self', merge_loop self remote c =
             (self', Ok (c || existsb (entry_changed self) remote)) ∧
    ∀ k, bt_get k self' = merge_entry k (bt_get k self) (bt_get k remote).
Proof using body_ok EqDecision0 H0.
  revert self c. induction remote as [|[k r] rest IH]; intros self c Hwf Hc.
  { exists self. simpl. rewrite orb_false_r. split; [done|]. intros j. by destruct (bt_get j self). }
  assert (∀ v, ∃ self', ∀ c', merge_loop (bt_insert k v self) rest c' =
    (self', Ok (c' || existsb (entry_changed self) rest)) ∧
    ∀ j, bt_get j self' = merge_entry j (bt_get j (bt_insert k v self)) (bt_get j rest)) as IH'.
  { intros v. destruct Hwf as [HF Hwf].
    destruct (IH (bt_insert k v self) true Hwf (compatible_tail _ _ _ _ _ (conj HF Hwf) Hc))
      as (self' & Hm & Hg).
    exists self'. intros c'. split; [|done].
    destruct (IH (bt_insert k v self) c' Hwf (compatible_tail _ _ _ _ _ (conj HF Hwf) Hc))
      as (self'' & Hm' & Hg').
    assert (∀ c1 c2, (merge_loop (bt_insert k v self) rest c1).1 =
              (merge_loop (bt_insert k v self) rest c2).1) as Hst.
    { clear. generalize (bt_insert k v self).
      induction rest as [|[j r'] rest IH]; intros s c1 c2; simpl; [done|].
      destruct (bt_get j s) as [l|]; [|done].
      destruct (body j l r') as [l' [c'|e|]]; simpl; auto. }
    specialize (Hst true c'). rewrite Hm, Hm' in Hst; simpl in Hst; subst self''.
    rewrite Hm'. f_equal. f_equal. f_equal. apply existsb_ext.
    intros [j w] Hin. unfold entry_changed; simpl. rewrite bt_get_insert_ne; [done|].
    intros ->. rewrite Forall_forall in HF. specialize (HF _ Hin); simpl in HF.
    by rewrite cmp_refl in HF. }
  simpl. unfold entry_changed at 1. simpl.
  destruct Hwf as [HF Hwf].
  destruct (bt_get k self) as [l|] eqn:El.
  - rewrite body_ok by (apply Hc; [done|simpl; by rewrite cmp_refl]).
    destruct (IH' (join k l r)) as (self' & Hs). destruct (Hs (c || chg k l r)) as [Hm Hg].
    exists self'. rewrite Hm. split; [by rewrite <- orb_assoc|].
    intros j. rewrite Hg. destruct (cmpP j k) as [->|Ej Ej'|Ej Ej'].
    + rewrite bt_get_insert, El, (bt_lt_get_None _ _ HF). done.
    + by rewrite bt_get_insert_ne by (intros ->; by rewrite cmp_refl in Ej).
    + by rewrite bt_get_insert_ne by (intros ->; by rewrite cmp_refl in Ej).
  - destruct (IH' r) as (self' & Hs). destruct (Hs true) as [Hm Hg].
    exists self'. rewrite Hm. split; [by rewrite orb_true_r|].
    intros j. rewrite Hg. destruct (cmpP j k) as [->|Ej Ej'|Ej Ej'].
    + rewrite bt_get_insert, El, (bt_lt_get_None _ _ HF). done.
    + by rewrite bt_get_insert_ne by (intros ->; by rewrite cmp_refl in Ej).
    + by rewrite bt_get_insert_ne by (intros ->; by rewrite cmp_refl in Ej).
Qed.
End Loop.

(** ** Lifting the interface from entries to maps *)
Section Lift.
Context {K V E : Type} `{TotalCmp K} `{EqDecision K}.
Variable body : K → V → V → V * result E bool.
Context `{J : ∀ k, JoinLaws (body k)}.
Implicit Types (m : btree K V).

Definition map_wf m : Prop := bt_wf m ∧ ∀ k v, bt_get k m = Some v → jl_wf (JoinLaws:=J k) v.
Definition map_ok m1 m2 : Prop :=
  ∀ k v1 v2, bt_get k m1 = Some v1 → bt_get k m2 = Some v2 → jl_ok (JoinLaws:=J k) v1 v2.
Definition map_merge m1 m2 : btree K V * result E bool := merge_loop body m1 m2 false.
Definition map_join m1 m2 : btree K V := (map_merge m1 m2).1.

Let chg k (l r : V) : bool := match (body k l r).2 with Ok c => c | _ => false end.
Let ok k l r : Prop :=
  jl_wf (JoinLaws:=J k) l ∧ jl_wf (JoinLaws:=J k) r ∧ jl_ok (JoinLaws:=J k) l r.
Let join k : V → V → V := jl_join (JoinLaws:=J k).

Lemma body_runs k l r : ok k l r → body k l r = (join k l r, Ok (chg k l r)).
Proof.
  intros (Hl & Hr & Ho). unfold chg.
  destruct (jl_run (JoinLaws:=J k) l r) as (c & Hb & _); [done..|]. by rewrite Hb.
Qed.
Lemma map_compatible m1 m2 : map_wf m1 → map_wf m2 → map_ok m1 m2 → compatible ok m1 m2.
Proof. intros [_ H1] [_ H2] Ho k l r Hl Hr. split_and!; eauto. Qed.

Lemma map_merge_spec m1 m2 : map_wf m1 → map_wf m2 → map_ok m1 m2 →
  map_merge m1 m2 = (map_join m1 m2, Ok (existsb (entry_changed chg m1) m2)) ∧
  ∀ k, bt_get k (map_join m1 m2) = merge_entry join k (bt_get k m1) (bt_get k m2).
Proof.
  intros H1 H2 Ho. unfold map_join, map_merge.
  destruct (merge_loop_ok body ok join chg body_runs m1 m2 false) as (m & -> & Hg).
  - apply H2.
  - by apply map_compatible.
  - done.
Qed.
Lemma map_join_get m1 m2 k : map_wf m1 → map_wf m2 → map_ok m1 m2 →
  bt_get k (map_join m1 m2) = merge_entry join k (bt_get k m1) (bt_get k m2).
Proof. intros. by apply map_merge_spec. Qed.

Lemma map_join_wf m1 m2 : map_wf m1 → map_wf m2 → map_ok m1 m2 → map_wf (map_join m1 m2).
Proof.
  intros H1 H2 Ho. split; [apply merge_loop_wf, H1|].
  intros k v. rewrite map_join_get by done.
  destruct (bt_get k m1) as [l|] eqn:E1, (bt_get k m2) as [r|] eqn:E2; simpl; intros [= <-].
  - apply jl_wf_join; [by apply H1|by apply H2|by eapply Ho].
  - by apply H1.
  - by apply H2.
Qed.

(** Two results of joins are equal when their entries are. *)
Lemma map_join_eq m1 m2 m3 m4 :
  map_wf m1 → map_wf m2 → map_ok m1 m2 → map_wf m3 → map_wf m4 → map_ok m3 m4 →
  (∀ k, merge_entry join k (bt_get k m1) (bt_get k m2) =
        merge_entry join k (bt_get k m3) (bt_get k m4)) →
  map_join m1 m2 = map_join m3 m4.
Proof.
  intros. apply bt_ext; [by apply map_join_wf..|]. intros k. by rewrite !map_join_get.
Qed.

Lemma map_changed m1 m2 : map_wf m1 → map_wf m2 → map_ok m1 m2 →
  existsb (entry_changed chg m1) m2 = false ↔ map_join m1 m2 = m1.
Proof.
  intros H1 H2 Ho. rewrite existsb_false. unfold entry_changed. split.
  - intros Hch. apply bt_ext; [by apply map_join_wf|apply H1|]. intros k.
    rewrite map_join_get by done.
    destruct (bt_get k m2) as [r|] eqn:E2; [|by destruct (bt_get k m1)].
    specialize (Hch (k, r) (bt_get_In _ _ _ E2)); simpl in Hch.
    destruct (bt_get k m1) as [l|] eqn:E1; [|done]. simpl. f_equal.
    destruct (jl_run (JoinLaws:=J k) l r) as (c & Hb & Hc);
      [by apply H1|by apply H2|by eapply Ho|].
    unfold chg in Hch. rewrite Hb in Hch. by apply Hc.
  - intros Hm [k r] Hin; simpl. apply bt_In_get in Hin; [|apply H2].
    pose proof (map_join_get m1 m2 k H1 H2 Ho) as Hg. rewrite Hm, Hin in Hg.
    destruct (bt_get k m1) as [l|] eqn:E1; simpl in Hg; [|done].
    destruct (jl_run (JoinLaws:=J k) l r) as (c & Hb & Hc);
      [by apply H1|by apply H2|by eapply Ho|].
    unfold chg. rewrite Hb. simpl. apply Hc. by simplify_eq.
Qed.

#[export] Instance map_join_laws : JoinLaws map_merge.
Proof.
  refine {| jl_wf := map_wf; jl_ok := map_ok; jl_join := map_join |}.
  - intros l r Hl Hr Ho. destruct (map_merge_spec l r) as [Hm _]; [done..|].
    eexists; split; [exact Hm|by apply map_changed].
  - apply map_join_wf.
  - intros l Hl k v1 v2 E1 E2. simplify_eq. apply jl_ok_refl, (proj2 Hl _ _ E1).
  - intros l r Ho k v1 v2 E1 E2. eapply jl_ok_sym; eauto.
  - intros a b c Ha Hb Hc Hab Hac Hbc k v1 v2. rewrite map_join_get by done.
    intros E1 E2. destruct (bt_get k a) as [x|] eqn:Ea, (bt_get k b) as [y|] eqn:Eb;
      simpl in E1; simplify_eq; [|by eauto..].
    apply jl_ok_join; eauto; [by apply Ha|by apply Hb|by apply Hc].
  - intros l r Hl Hr Ho. apply map_join_eq; auto.
    { intros k v1 v2 E1 E2. eapply jl_ok_sym; eauto. }
    intros k. destruct (bt_get k l) as [x|] eqn:El, (bt_get k r) as [y|] eqn:Er; simpl; try done.
    f_equal. apply jl_comm; [by apply Hl|by apply Hr|by eapply Ho].
  - intros a b c Ha Hb Hc Hab Hac Hbc.
    assert (map_ok (map_join a b) c ∧ map_ok a (map_join b c)) as [Ho1 Ho2].
    { split; intros k v1 v2; rewrite map_join_get by done; intros E1 E2;
        destruct (bt_get k a) as [x|] eqn:Ea, (bt_get k b) as [y|] eqn:Eb,
          (bt_get k c) as [z|] eqn:Ec; simpl in E1, E2; simplify_eq; try by eauto.
      - apply jl_ok_join; eauto; [by apply Ha|by apply Hb|by apply Hc].
      - apply jl_ok_sym, jl_ok_join; eauto using jl_ok_sym;
          [by apply Hb|by apply Hc|by apply Ha]. }
    apply map_join_eq; auto using map_join_wf. intros k. rewrite !map_join_get by done.
    destruct (bt_get k a) as [x|] eqn:Ea, (bt_get k b) as [y|] eqn:Eb,
      (bt_get k c) as [z|] eqn:Ec; simpl; try done.
    f_equal. apply jl_assoc; eauto; [by apply Ha|by apply Hb|by apply Hc].
  - intros l Hl. apply bt_ext; [apply merge_loop_wf, Hl|apply Hl|]. intros k.
    rewrite map_join_get; [|done..|].
    + destruct (bt_get k l) as [x|] eqn:El; simpl; [|done]. f_equal.
      apply jl_idemp, (proj2 Hl _ _ El).
    + intros j v1 v2 E1 E2. simplify_eq. apply jl_ok_refl, (proj2 Hl _ _ E1).
Defined.
End Lift.

(** ** Three small joins *)
Section Small.
Context {V C E : Type} `{TotalCmp C}.

(** Last writer wins, the stamp being part of the value. *)
Variable stamp : V → C.
Definition lww_body (l r : V) : V * result E bool :=
  if stamp r <=? stamp l then (l, Ok false) else (r, Ok true).
Definition lww_laws : JoinLaws lww_body.
Proof.
  refine {| jl_wf := λ _, True; jl_ok := λ l r, stamp l = stamp r → l = r;
            jl_join := λ l r, if stamp r <=? stamp l then l else r |}; try done.
  - intros l r _ _ _. unfold lww_body. destruct (stamp r <=? stamp l) eqn:Er; eexists; (split; [done|]).
    + done.
    + split; [done|]. intros ->. by rewrite leb_refl in Er.
  - intros l r Ho Hs. symmetry. auto.
  - intros a b c _ _ _ Hab Hac Hbc. by destruct (stamp b <=? stamp a).
  - intros l r _ _ Ho. unfold leb. destruct (cmpP (stamp r) (stamp l)) as [Hs|? Hl|? Hl]; rewrite ?Hl; try done.
    rewrite Hs, cmp_refl. symmetry in Hs. auto.
  - intros a b c _ _ _ _ _ _.
    destruct (stamp b <=? stamp a) eqn:Eb, (stamp c <=? stamp b) eqn:Ec; rewrite ?Eb, ?Ec; try done.
    + by rewrite (leb_trans _ _ _ Ec Eb).
    + destruct (stamp c <=? stamp a) eqn:Ea; [|done]. apply leb_false in Eb, Ec.
      exfalso. revert Ea Eb Ec. generalize (stamp a), (stamp b), (stamp c). intros x y z.
      rewrite !gtb_ltb, leb_gtb, negb_true_iff, gtb_ltb, !ltb_lt. intros Ea Eb Ec.
      pose proof (cmp_trans_lt _ _ _ Eb Ec) as Hac. apply ltb_lt in Hac. congruence.
  - intros l _. by rewrite leb_refl.
Defined.
End Small.

Section Fill.
Context {V E : Type}.
(** Write once: the first known value stays. *)
Definition fill_body (l r : option V) : option V * result E bool :=
  match l, r with None, Some _ => (r, Ok true) | _, _ => (l, Ok false) end.
#[export] Instance fill_laws : JoinLaws fill_body.
Proof.
  refine {| jl_wf := λ _, True;
            jl_ok := λ l r, ∀ v w, l = Some v → r = Some w → v = w;
            jl_join := λ l r, match l with Some _ => l | None => r end |}; try done.
  - intros [l|] [r|] _ _ _; simpl; eexists; (split; [done|]); naive_solver.
  - intros l _ v w. congruence.
  - intros l r Ho v w ??. symmetry. by eapply Ho.
  - intros [a|] [b|] [c|] _ _ _ Hab Hac Hbc v w; naive_solver.
  - intros [l|] [r|] _ _ Ho; try done. f_equal. by apply Ho.
  - by intros [] [] [] _ _ _ _ _ _.
  - by intros [] _.
Defined.
End Fill.

(** ** The laws as a proposition

    Recursive types prove the laws by induction on their depth, with the
    well-formedness and the compatibility of each level made explicit. *)
Record is_join {V E : Type} (merge : V → V → V * result E bool)
    (wf : V → Prop) (ok : V → V → Prop) (join : V → V → V) : Prop := {
  ij_run l r : wf l → wf r → ok l r →
    ∃ c, merge l r = (join l r, Ok c) ∧ (c = false ↔ join l r = l);
  ij_wf_join l r : wf l → wf r → ok l r → wf (join l r);
  ij_ok_refl l : wf l → ok l l;
  ij_ok_sym l r : ok l r → ok r l;
  ij_ok_join a b c : wf a → wf b → wf c → ok a b → ok a c → ok b c → ok (join a b) c;
  ij_comm l r : wf l → wf r → ok l r → join l r = join r l;
  ij_assoc a b c : wf a → wf b → wf c → ok a b → ok a c → ok b c →
    join (join a b) c = join a (join b c);
  ij_idemp l : wf l → join l l = l;
}.
(** Two replicas agree: the part of the laws that survives tombstones. *)
Definition is_comm {V E : Type} (merge : V → V → V * result E bool)
    (wf : V → Prop) (ok : V → V → Prop) : Prop :=
  ∀ l r, wf l → wf r → ok l r →
    ∃ m c c', merge l r = (m, Ok c) ∧ merge r l = (m, Ok c').

Section IsJoin.
Context {V E : Type} (merge : V → V → V * result E bool).

Definition is_join_laws wf ok join (I : is_join merge wf ok join) : JoinLaws merge :=
  {| jl_wf := wf; jl_ok := ok; jl_join := join;
     jl_run := ij_run _ _ _ _ I; jl_wf_join := ij_wf_join _ _ _ _ I;
     jl_ok_refl := ij_ok_refl _ _ _ _ I; jl_ok_sym := ij_ok_sym _ _ _ _ I;
     jl_ok_join := ij_ok_join _ _ _ _ I; jl_comm := ij_comm _ _ _ _ I;
     jl_assoc := ij_assoc _ _ _ _ I; jl_idemp := ij_idemp _ _ _ _ I |}.
Lemma laws_is_join (J : JoinLaws merge) : is_join merge jl_wf jl_ok jl_join.
Proof. destruct J. by split. Qed.

(** The same laws under equivalent predicates and an equal merge. *)
Lemma is_join_iff wf ok join (wf' : V → Prop) (ok' : V → V → Prop)
    (merge' : V → V → V * result E bool) :
  is_join merge wf ok join →
  (∀ l, wf' l ↔ wf l) → (∀ l r, ok' l r ↔ ok l r) →
  (∀ l r, wf l → wf r → ok l r → merge' l r = merge l r) →
  is_join merge' wf' ok' join.
Proof.
  intros I Hw Ho Hm. split.
  - intros l r. rewrite !Hw, Ho. intros. rewrite Hm by done. by apply I.
  - intros l r. rewrite !Hw, Ho. by apply I.
  - intros l. rewrite Hw, Ho. by apply I.
  - intros l r. rewrite !Ho. by apply I.
  - intros a b c. rewrite !Hw, !Ho. by apply I.
  - intros l r. rewrite !Hw, Ho. by apply I.
  - intros a b c. rewrite !Hw, !Ho. by apply I.
  - intros l. rewrite Hw. by apply I.
Qed.
Lemma is_join_comm wf ok join : is_join merge wf ok join → is_comm merge wf ok.
Proof.
  intros I l r Hl Hr Ho. destruct (ij_run _ _ _ _ I l r Hl Hr Ho) as (c & H1 & _).
  destruct (ij_run _ _ _ _ I r l Hr Hl (ij_ok_sym _ _ _ _ I _ _ Ho)) as (c' & H2 & _).
  rewrite (ij_comm _ _ _ _ I r l) in H2 by (auto; by apply (ij_ok_sym _ _ _ _ I)). eauto.
Qed.
End IsJoin.

(** The join is what [merge] leaves in the receiver. *)
Definition is_merge {V E : Type} (merge : V → V → V * result E bool)
    (wf : V → Prop) (ok : V → V → Prop) : Prop :=
  is_join merge wf ok (λ l r, (merge l r).1).

Section IsMerge.
Context {V E : Type} (merge : V → V → V * result E bool).

Lemma laws_is_merge (J : JoinLaws merge) : is_merge merge jl_wf jl_ok.
Proof.
  split.
  - intros l r ???. rewrite (merge_state merge (J:=J)) by done. by apply jl_run.
  - intros l r ???. rewrite (merge_state merge (J:=J)) by done. by apply jl_wf_join.
  - apply jl_ok_refl.
  - apply jl_ok_sym.
  - intros a b c ??????. rewrite (merge_state merge (J:=J)) by done. by apply jl_ok_join.
  - intros. by apply (join_commutes merge).
  - intros. by apply (join_associates merge).
  - intros. by rewrite (join_self merge).
Qed.
Lemma is_join_merge wf ok join : is_join merge wf ok join → is_merge merge wf ok.
Proof. intros I. exact (laws_is_merge (is_join_laws _ _ _ _ I)). Qed.

(** The same laws under equivalent predicates and an equal merge. *)
End IsMerge.

Section IsMergeIff.
Context {V E : Type} (merge : V → V → V * result E bool).
Lemma is_merge_iff (merge' : V → V → V * result E bool) wf ok (wf' : V → Prop) (ok' : V → V → Prop) :
  is_merge merge wf ok →
  (∀ l, wf' l ↔ wf l) → (∀ l r, ok' l r ↔ ok l r) →
  (∀ l r, wf l → wf r → ok l r → merge' l r = merge l r) →
  is_merge merge' wf' ok'.
Proof.
  intros I Hw Ho Hm. apply (is_join_merge _ _ _ (λ l r, (merge l r).1)).
  by apply (is_join_iff merge wf ok).
Qed.

(** Through an injection of the state and of the error. *)
Lemma is_merge_wrap {W F} (mk : V → W) (proj : W → V) (f : E → F) wf ok :
  is_merge merge wf ok → (∀ v, proj (mk v) = v) → (∀ w, mk (proj w) = w) →
  is_merge (λ a b, (mk (merge (proj a) (proj b)).1, map_err f (merge (proj a) (proj b)).2))
    (λ w, wf (proj w)) (λ a b, ok (proj a) (proj b)).
Proof.
  intros I Hpm Hmp. destruct I as [Hrun Hwf Hrefl Hsym Hok Hcomm Hassoc Hid]. simpl in *. split.
  - intros l r Hl Hr Ho. destruct (Hrun _ _ Hl Hr Ho) as (c & E1 & Hc). exists c.
    rewrite E1 in *. simpl in *. split; [done|]. rewrite Hc. split; intros Hx.
    + by rewrite Hx, Hmp.
    + apply (f_equal proj) in Hx. by rewrite Hpm in Hx.
  - intros l r ???. simpl. rewrite Hpm. by apply Hwf.
  - intros l. apply Hrefl.
  - intros l r. apply Hsym.
  - intros a b c ??????. simpl. rewrite Hpm. by apply Hok.
  - intros l r ???. simpl. f_equal. by apply Hcomm.
  - intros a b c ??????. simpl. rewrite !Hpm. f_equal. by apply Hassoc.
  - intros l ?. simpl. rewrite Hid by done. apply Hmp.
Qed.
End IsMergeIff.

(** A replicated value in a stamped cell: the merge of the values, then the
    greater stamp. *)
Section Stamped.
Context {V C E F : Type} `{TotalCmp C}.
Variable merge : V → V → V * result E bool.
Variable f : E → F.
Definition stamped (p q : V * C) : (V * C) * result F bool :=
  let '(z, r) := merge p.1 q.1 in
  match map_err f r with
  | Ok changed => if q.2 >? p.2 then ((z, q.2), Ok true) else ((z, p.2), Ok changed)
  | r => ((z, p.2), r)
  end.
Lemma stamped_is_merge wf ok : is_merge merge wf ok →
  is_merge stamped (λ p, wf p.1) (λ p q, ok p.1 q.1).
Proof.
  intros I. destruct I as [Hrun Hwf Hrefl Hsym Hok Hcomm Hassoc Hid]. simpl in *.
  assert (∀ p q, wf p.1 → wf q.1 → ok p.1 q.1 →
    ∃ c, stamped p q = (((merge p.1 q.1).1, omax p.2 q.2), Ok (c || (q.2 >? p.2))) ∧
      (c = false ↔ (merge p.1 q.1).1 = p.1)) as Hs.
  { intros p q Hp Hq Ho. destruct (Hrun _ _ Hp Hq Ho) as (c & E1 & Hc). exists c.
    split; [|done]. unfold stamped. rewrite E1. simpl. rewrite omax_case.
    destruct (q.2 >? p.2); [by rewrite orb_true_r|by rewrite orb_false_r]. }
  assert (∀ p q, wf p.1 → wf q.1 → ok p.1 q.1 →
    (stamped p q).1 = ((merge p.1 q.1).1, omax p.2 q.2)) as Hs1.
  { intros p q Hp Hq Ho. by destruct (Hs p q Hp Hq Ho) as (c & -> & _). }
  split.
  - intros p q Hp Hq Ho. destruct (Hs p q Hp Hq Ho) as (c & E1 & Hc).
    exists (c || (q.2 >? p.2)). rewrite E1. split; [done|]. simpl.
    rewrite orb_false_iff, Hc, omax_case. destruct p as [x s]; simpl in *. split.
    + intros [-> Hg]. by rewrite Hg.
    + intros [= Hx Hy]. split; [done|]. destruct (q.2 >? s) eqn:G; [|done].
      rewrite Hy, gtb_irrefl in G. done.
  - intros p q ???. rewrite Hs1 by done. by apply Hwf.
  - intros p. apply Hrefl.
  - intros p q. apply Hsym.
  - intros a b c ??????. rewrite Hs1 by done. by apply Hok.
  - intros p q ???. rewrite !Hs1 by auto. f_equal; [by apply Hcomm|apply omax_comm].
  - intros a b c ??????. rewrite (Hs1 a b), (Hs1 b c) by done. rewrite !Hs1; simpl; auto.
    f_equal; [by apply Hassoc|]. by rewrite omax_assoc.
  - intros [x s] ?. rewrite Hs1 by auto. simpl. rewrite Hid, omax_idemp by done. done.
Qed.

(** Equal stamps and equal values: a scalar cell. *)
Definition stamped_scalar (p q : V * C) : (V * C) * result F bool :=
  if q.2 >? p.2 then (q, Ok true) else (p, Ok false).
Lemma stamped_scalar_is_merge :
  is_merge stamped_scalar (λ _, True) (λ p q, p.2 = q.2 → p.1 = q.1).
Proof.
  eapply is_merge_iff; [apply (laws_is_merge (lww_body snd) (lww_laws snd))|done|..].
  - intros [x s] [y u]; simpl. split; [intros Ho ?|intros Ho Hs]; [f_equal; auto|by injection (Ho Hs)].
  - intros [x s] [y u] _ _ _. unfold stamped_scalar, lww_body; simpl.
    rewrite leb_gtb. by destruct (u >? s).
Qed.
End Stamped.

(** The same for the commutation alone. *)
Lemma stamped_is_comm {V C E F} `{TotalCmp C} (merge : V → V → V * result E bool) (f : E → F) wf ok :
  is_comm merge wf ok →
  is_comm (stamped (C:=C) merge f) (λ p, wf p.1) (λ p q, ok p.1 q.1).
Proof.
  intros Hm [x s] [y u] Hx Hy Ho; simpl in *. destruct (Hm x y Hx Hy Ho) as (z & c & c' & E1 & E2).
  exists (z, omax s u), (c || (u >? s)), (c' || (s >? u)). unfold stamped; simpl. rewrite E1, E2.
  simpl. rewrite (omax_comm s u) at 2. rewrite !omax_case.
  destruct (u >? s), (s >? u); rewrite ?orb_true_r, ?orb_false_r; done.
Qed.
Lemma is_comm_wrap {V W E F} (merge : V → V → V * result E bool)
    (outer : W → W → W * result F bool) (mk : V → W) (proj : W → V) (f : E → F) wf ok :
  is_comm merge wf ok →
  (∀ a b, outer a b = (mk (merge (proj a) (proj b)).1, map_err f (merge (proj a) (proj b)).2)) →
  is_comm outer (λ w, wf (proj w)) (λ a b, ok (proj a) (proj b)).
Proof.
  intros Hm Hout l r Hl Hr Ho. destruct (Hm _ _ Hl Hr Ho) as (z & c & c' & E1 & E2).
  exists (mk z), c, c'. by rewrite !Hout, E1, E2.
Qed.

(** Maps of entries that merge lawfully merge lawfully. *)
Section MergeMap.
Context {K V E : Type} `{TotalCmp K} `{EqDecision K}.
Variable body : K → V → V → V * result E bool.
Variables (wf : V → Prop) (ok : V → V → Prop).
Variable body_join : ∀ k, is_merge (body k) wf ok.
Lemma map_is_merge :
  is_merge (map_merge body)
    (λ m, bt_wf m ∧ ∀ k v, bt_get k m = Some v → wf v)
    (λ a b, ∀ k l r, bt_get k a = Some l → bt_get k b = Some r → ok l r).
Proof using All.
  pose (J k := is_join_laws _ _ _ _ (body_join k)).
  apply (is_merge_iff _ _ _ _ _ _ (laws_is_merge _ (map_join_laws (J:=J) body))); done.
Qed.
End MergeMap.

(** [is_comm] lifts to maps. *)
Section CommMap.
Context {K V E : Type} `{TotalCmp K} `{EqDecision K}.
Variable body : K → V → V → V * result E bool.
Variables (wf : V → Prop) (ok : V → V → Prop).
Variable body_comm : ∀ k, is_comm (body k) wf ok.

Definition entries_wf (m : btree K V) : Prop := bt_wf m ∧ ∀ k v, bt_get k m = Some v → wf v.
Definition entries_ok (a b : btree K V) : Prop :=
  ∀ k l r, bt_get k a = Some l → bt_get k b = Some r → ok l r.

Lemma map_comm : is_comm (map_merge body) entries_wf entries_ok.
Proof using body_comm EqDecision0 H0.
  intros a b [Ha Hwa] [Hb Hwb] Ho. unfold map_merge.
  set (chg k (l r : V) := match (body k l r).2 with Ok c => c | _ => false end).
  set (okk (k : K) l r := wf l ∧ wf r ∧ ok l r).
  assert (∀ k l r, okk k l r → body k l r = ((body k l r).1, Ok (chg k l r))) as Hb1.
  { intros k l r (Hl & Hr & Hlr). destruct (body_comm k l r Hl Hr Hlr) as (m & c & c' & E1 & _).
    unfold chg. by rewrite E1. }
  destruct (merge_loop_ok body okk (λ k l r, (body k l r).1) chg Hb1 a b false)
    as (m1 & E1 & G1); [done|intros k l r ??; split_and!; eauto|].
  assert (∀ k l r, okk k r l → body k l r = ((body k l r).1, Ok (chg k l r))) as Hb2.
  { intros k l r (Hl & Hr & Hlr). destruct (body_comm k r l Hl Hr Hlr) as (m & c & c' & _ & E3).
    unfold chg. by rewrite E3. }
  destruct (merge_loop_ok body (λ k l r, okk k r l) (λ k l r, (body k l r).1) chg Hb2 b a false)
    as (m2 & E2 & G2); [done|intros k l r ??; split_and!; eauto|].
  assert (m1 = m2) as <-.
  { apply bt_ext.
    - pose proof (merge_loop_wf body a b false Ha) as Hw. by rewrite E1 in Hw.
    - pose proof (merge_loop_wf body b a false Hb) as Hw. by rewrite E2 in Hw.
    - intros k. rewrite G1, G2. unfold merge_entry.
      destruct (bt_get k a) as [l|] eqn:El, (bt_get k b) as [r|] eqn:Er; try done. f_equal.
      destruct (body_comm k l r) as (m & c & c' & -> & ->); eauto. }
  eauto.
Qed.
End CommMap.
