(* ===== verification/Clocks.v ===== *)
(** * Clock maps: the loops the replicated types share

    Tombstone maps ([rems] of [or_set.rs], [removed] of [mv_register.rs]) keep
    the greatest stamp per tag; optional deletion stamps ([priority_queue.rs],
    [text.rs]) keep the greatest one seen. *)
From stdpp Require Import base numbers option sets list.
From S2P Require Import Prelude Order BTreeMap Merge.

Section Clock.
Context {C : Type} `{TotalCmp C}.
Implicit Types (c d : C) (o : option C).

(** [merge_clock] of [text.rs] and [priority_queue.rs]. *)
Definition merge_clock (local remote : option C) : option C * bool :=
  match remote with
  | None => (local, false)
  | Some remote =>
      if is_none_or (λ current, remote >? current) local
      then (Some remote, true)
      else (local, false)
  end.
(** [merge_required_clock] of [priority_queue.rs]. *)
Definition merge_required_clock (current incoming : C) : C * bool :=
  if incoming >? current then (incoming, true) else (current, false).

Lemma merge_clock_omax o o' : merge_clock o o' = (omax o o', o' >? o).
Proof.
  destruct o as [c|], o' as [d|]; simpl; try done.
  rewrite omax_case. change (Some d >? Some c) with (d >? c). by destruct (d >? c).
Qed.
Lemma merge_required_clock_omax c d : merge_required_clock c d = (omax c d, d >? c).
Proof. unfold merge_required_clock. rewrite omax_case. by destruct (d >? c). Qed.
Lemma gtb_changed c d : (d >? c) = false ↔ omax c d = c.
Proof.
  rewrite omax_case. split; [by intros ->|]. destruct (d >? c) eqn:E; [|done].
  intros ->. by rewrite gtb_irrefl in E.
Qed.
Lemma omax_Some c d : omax (Some c) (Some d) = Some (omax c d).
Proof. unfold omax, cmp at 1, option_cmp. by destruct (cmp c d). Qed.
Lemma omax_None_l o : omax None o = o.
Proof. by destruct o. Qed.
Lemma omax_None_r o : omax o None = o.
Proof. by destruct o. Qed.

(** [max] as a merge. *)
Definition max_body {E} (l r : C) : C * result E bool :=
  if r >? l then (r, Ok true) else (l, Ok false).
#[export] Instance max_laws {E} : JoinLaws (max_body (E:=E)).
Proof.
  refine {| jl_wf := λ _, True; jl_ok := λ _ _, True; jl_join := omax |}; try done.
  - intros l r _ _ _. exists (r >? l). unfold max_body. split; [|apply gtb_changed].
    rewrite omax_case. by destruct (r >? l).
  - intros. apply omax_comm.
  - intros. by rewrite omax_assoc.
  - intros. apply omax_idemp.
Defined.
#[export] Instance max_entry_laws {K E} (k : K) :
  JoinLaws ((λ _, max_body (E:=E)) k) := max_laws.
End Clock.

Section Raise.
Context {K C : Type} `{TotalCmp K} `{EqDecision K} `{TotalCmp C}.
Implicit Types (k tag : K) (m : btree K C).

(** [if m.get(tag).is_none_or(|existing| at > *existing) { m.insert(tag, at); changed = true }]. *)
Definition raise_clock (s : btree K C * bool) (p : K * C) : btree K C * bool :=
  if is_none_or (λ existing, p.2 >? existing) (bt_get p.1 s.1)
  then (bt_insert p.1 p.2 s.1, true)
  else s.
Definition raise_clocks m (l : list (K * C)) (changed : bool) : btree K C * bool :=
  foldl raise_clock (m, changed) l.

Lemma raise_clock_get s p k :
  bt_get k (raise_clock s p).1 =
  if decide (k = p.1) then omax (bt_get k s.1) (Some p.2) else bt_get k s.1.
Proof.
  unfold raise_clock. destruct (bt_get p.1 s.1) as [e|] eqn:E; simpl.
  - destruct (p.2 >? e) eqn:G; simpl.
    + rewrite bt_get_insert_dec. case_decide as Hk; [|done]. subst k.
      rewrite E, omax_Some, omax_case, G. done.
    + case_decide as Hk; [|done]. subst k. by rewrite E, omax_Some, omax_case, G.
  - rewrite bt_get_insert_dec. case_decide as Hk; [|done]. subst k. by rewrite E.
Qed.
Lemma raise_clock_wf s p : bt_wf s.1 → bt_wf (raise_clock s p).1.
Proof. intros Hs. unfold raise_clock. case_match; simpl; auto with zen. Qed.
Lemma raise_clocks_wf m l c : bt_wf m → bt_wf (raise_clocks m l c).1.
Proof.
  unfold raise_clocks. change m with (m, c).1 at 1. generalize (m, c). clear m c.
  induction l as [|p l IH]; intros s Hs; simpl; [done|]. by apply IH, raise_clock_wf.
Qed.

(** The loop over a map is [merge_loop] with [max]. *)
Lemma raise_clocks_merge {E} m (r : btree K C) c :
  bt_wf m →
  (λ p : btree K C * bool, (p.1, Ok p.2 : result E bool)) (raise_clocks m r c) =
  merge_loop (λ _, max_body) m r c.
Proof.
  unfold raise_clocks. revert m c. induction r as [|[k v] r IH]; intros m c Hm; simpl; [done|].
  change (raise_clock (m, c) (k, v)) with
    (if is_none_or (λ e, v >? e) (bt_get k m) then (bt_insert k v m, true) else (m, c)).
  destruct (bt_get k m) as [e|] eqn:E1; simpl.
  - unfold max_body at 1. destruct (v >? e); simpl.
    + rewrite orb_true_r. by apply IH, bt_wf_insert.
    + rewrite orb_false_r, bt_insert_id by done. by apply IH.
  - by apply IH, bt_wf_insert.
Qed.

(** Looking a key up after raising a list of clocks. *)
Lemma raise_clocks_get m l c k :
  bt_get k (raise_clocks m l c).1 =
  foldl (λ o p, if decide (k = p.1) then omax o (Some p.2) else o) (bt_get k m) l.
Proof.
  unfold raise_clocks. change m with (m, c).1 at 2. generalize (m, c). clear m c.
  induction l as [|p l IH]; intros s; simpl; [done|].
  rewrite IH. f_equal. apply raise_clock_get.
Qed.

(** Raising by a whole map is the pointwise maximum, a join. *)
Definition max_join m1 m2 : btree K C :=
  map_join (λ _, max_body (E:=Empty_set)) m1 m2.
Lemma max_wf (m : btree K C) :
  bt_wf m → map_wf (J:=λ _, max_laws) (λ _ : K, max_body (C:=C) (E:=Empty_set)) m.
Proof. by split. Qed.
Lemma max_ok m1 m2 : map_ok (J:=λ _, max_laws) (λ _ : K, max_body (C:=C) (E:=Empty_set)) m1 m2.
Proof. by repeat intros ?. Qed.
Hint Resolve max_wf max_ok : core.

Lemma max_join_get m1 m2 k : bt_wf m1 → bt_wf m2 →
  bt_get k (max_join m1 m2) = omax (bt_get k m1) (bt_get k m2).
Proof.
  intros. unfold max_join. rewrite (map_join_get (λ _, max_body) (J:=λ _, max_laws)) by auto.
  destruct (bt_get k m1), (bt_get k m2); simpl; rewrite ?omax_Some; done.
Qed.
Lemma max_join_wf m1 m2 : bt_wf m1 → bt_wf (max_join m1 m2).
Proof. apply merge_loop_wf. Qed.
Lemma raise_clocks_flag m r c :
  raise_clocks m r c = ((raise_clocks m r false).1, c || (raise_clocks m r false).2).
Proof.
  unfold raise_clocks. revert m c. induction r as [|p r IH]; intros m c; simpl.
  { by rewrite orb_false_r. }
  unfold raise_clock at 2 4 6; simpl. case_match; [|apply IH].
  rewrite IH. symmetry. rewrite IH. simpl. by rewrite orb_true_r.
Qed.
Lemma raise_clocks_join m r c : bt_wf m → bt_wf r →
  ∃ ch, raise_clocks m r c = (max_join m r, c || ch) ∧ (ch = false ↔ max_join m r = m).
Proof.
  intros Hm Hr.
  destruct (jl_run (JoinLaws:=map_join_laws (J:=λ _, max_laws)
    (λ _ : K, max_body (C:=C) (E:=Empty_set))) m r) as (ch & Hrun & Hch); [simpl; auto..|].
  exists ch. simpl in Hrun, Hch. split; [|done].
  unfold map_merge in Hrun. rewrite <- raise_clocks_merge in Hrun by done. simpl in Hrun.
  injection Hrun as Hst <-. rewrite raise_clocks_flag. by rewrite Hst.
Qed.
Lemma max_join_comm m1 m2 : bt_wf m1 → bt_wf m2 → max_join m1 m2 = max_join m2 m1.
Proof.
  intros. apply bt_ext; [by apply max_join_wf..|]. intros k.
  rewrite !max_join_get by done. apply omax_comm.
Qed.
Lemma max_join_assoc m1 m2 m3 : bt_wf m1 → bt_wf m2 → bt_wf m3 →
  max_join (max_join m1 m2) m3 = max_join m1 (max_join m2 m3).
Proof.
  intros. apply bt_ext; auto using max_join_wf. intros k.
  rewrite !max_join_get by auto using max_join_wf. by rewrite omax_assoc.
Qed.
Lemma max_join_idemp m : bt_wf m → max_join m m = m.
Proof.
  intros. apply bt_ext; auto using max_join_wf. intros k.
  rewrite max_join_get by done. apply omax_idemp.
Qed.
Lemma max_join_contains m1 m2 k : bt_wf m1 → bt_wf m2 →
  bt_contains k (max_join m1 m2) = bt_contains k m1 || bt_contains k m2.
Proof.
  intros. unfold bt_contains. rewrite max_join_get by done.
  destruct (bt_get k m1), (bt_get k m2); simpl; rewrite ?omax_Some; done.
Qed.
End Raise.

(** ** [BTreeSet] *)
Abbreviation bset K := (btree K unit).
Section Set_.
Context {K : Type} `{TotalCmp K} `{EqDecision K}.
Implicit Types (k : K) (s : bset K).

(** [BTreeSet::insert] reports whether the element was new. *)
Definition bs_insert k s : bset K * bool := (bt_insert k tt s, negb (bt_contains k s)).
Definition bs_extend s (l : list K) : bset K := foldl (λ s k, bt_insert k tt s) s l.
Definition unit_body {E} (l r : unit) : unit * result E bool := (tt, Ok false).

#[export] Instance unit_laws {E} : JoinLaws (unit_body (E:=E)).
Proof.
  refine {| jl_wf := λ _, True; jl_ok := λ _ _, True; jl_join := λ _ _, tt |}; try done.
  - intros [] [] _ _ _. by exists false.
  - by intros [].
Defined.
#[export] Instance unit_entry_laws {E} k : JoinLaws ((λ _ : K, unit_body (E:=E)) k) := unit_laws.

Lemma bs_extend_wf s l : bt_wf s → bt_wf (bs_extend s l).
Proof.
  revert s. induction l as [|k l IH]; intros s Hs; simpl; [done|]. by apply IH, bt_wf_insert.
Qed.

Lemma bs_extend_length s l : length s ≤ length (bs_extend s l).
Proof.
  revert s. induction l as [|k l IH]; intros s; simpl; [done|].
  specialize (IH (bt_insert k tt s)). pose proof (bt_insert_length_le k tt s). lia.
Qed.
Lemma bs_extend_get s l k :
  bt_get k (bs_extend s l) = if decide (k ∈ l) then Some tt else bt_get k s.
Proof.
  revert s. induction l as [|j l IH]; intros s; simpl; [done|].
  rewrite IH, bt_get_insert_dec. repeat case_decide; set_solver.
Qed.

(** [extend] with the length comparison of [or_set.rs] is the merge loop. *)
Lemma bs_extend_merge {E} s (r : bset K) c :
  bt_wf s →
  merge_loop (λ _, unit_body (E:=E)) s r c =
  (bs_extend s (bt_keys r), Ok (c || bool_decide (length s < length (bs_extend s (bt_keys r))))).
Proof.
  revert s c. induction r as [|[k []] r IH]; intros s c Hs; simpl.
  { rewrite bool_decide_eq_false_2 by lia. by rewrite orb_false_r. }
  destruct (bt_get k s) as [[]|] eqn:E1.
  - rewrite orb_false_r, IH by auto with zen. rewrite bt_insert_id by done. done.
  - rewrite IH by auto with zen. simpl.
    pose proof (bt_insert_length _ tt _ E1). pose proof (bs_extend_length (bt_insert k tt s) (bt_keys r)).
    rewrite (bool_decide_eq_true_2 (length s < _)) by (unfold bt_keys in *; lia).
    by rewrite orb_true_r.
Qed.
End Set_.
