(* ===== verification/Stamp.v ===== *)
(** * Identifiers and hybrid time: [zendb-types/src/crdt/stamp.rs]

    [PeerId] wraps the [PeerId] of the [libp2p_identity] crate, which is not
    part of the repository: [Libp2p] is what the code relies on of it, a type
    with a total order ([derive(PartialEq, Eq, PartialOrd, Ord)] on the
    wrapper) and the sentinel that [PeerId::default] builds.  Everything else
    is translated. *)
From stdpp Require Import base numbers option list.
From S2P Require Import Prelude Order.
Class Libp2p := {
  PeerId : Type;
  PeerId_eq_dec :: EqDecision PeerId;
  PeerId_cmp :: Cmp PeerId;
  PeerId_total :: TotalCmp PeerId;
  PeerId_default : PeerId;
}.

(** A concrete instance, peers being numbers, to evaluate the model on. *)
Definition peers_as_N : Libp2p := {|
  PeerId := N; PeerId_eq_dec := _; PeerId_cmp := N_cmp; PeerId_total := N_total;
  PeerId_default := 0%N |}.

Section Stamp.
Context `{L : Libp2p}.

Record EventId := mkEventId { peer_id : PeerId; sequence : Z }.
Record EventTime := mkEventTime { physical_ms : Z; logical : Z }.
Record EventStamp := mkEventStamp { stamp_id : EventId; stamp_time : EventTime }.

#[export] Instance EventId_eq_dec : EqDecision EventId.
Proof using Type. solve_decision. Defined.
#[export] Instance EventTime_eq_dec : EqDecision EventTime.
Proof using Type. solve_decision. Defined.
#[export] Instance EventStamp_eq_dec : EqDecision EventStamp.
Proof using Type. solve_decision. Defined.

(** [derive(Default)]. *)
Definition EventId_default : EventId := mkEventId PeerId_default 0.
Definition EventTime_default : EventTime := mkEventTime 0 0.
Definition EventStamp_default : EventStamp := mkEventStamp EventId_default EventTime_default.

(** [derive(Ord)] on the two halves: field order. *)
#[export] Instance EventId_cmp : Cmp EventId := λ a b,
  cmp (peer_id a, sequence a) (peer_id b, sequence b).
#[export] Instance EventTime_cmp : Cmp EventTime := λ a b,
  cmp (physical_ms a, logical a) (physical_ms b, logical b).

(** [Ord for EventStamp]: time first, identity second. *)
Definition stamp_key (s : EventStamp) : Z * Z * PeerId * Z :=
  (physical_ms (stamp_time s), logical (stamp_time s),
   peer_id (stamp_id s), sequence (stamp_id s)).
#[export] Instance EventStamp_cmp : Cmp EventStamp := λ a b, cmp (stamp_key a) (stamp_key b).

#[export] Instance EventId_total : TotalCmp EventId.
Proof.
  assert (Inj (=) (=) (λ a, (peer_id a, sequence a))) by (intros [] []; simpl; congruence).
  apply (via_total (λ a, (peer_id a, sequence a))).
Qed.
#[export] Instance EventTime_total : TotalCmp EventTime.
Proof.
  assert (Inj (=) (=) (λ a, (physical_ms a, logical a))) by (intros [] []; simpl; congruence).
  apply (via_total (λ a, (physical_ms a, logical a))).
Qed.
#[export] Instance stamp_key_inj : Inj (=) (=) stamp_key.
Proof using Type. intros [[] []] [[] []]; unfold stamp_key; simpl; congruence. Qed.
#[export] Instance EventStamp_total : TotalCmp EventStamp.
Proof. apply (via_total stamp_key). Qed.

(** [MergeStamps]: the two stamps every [apply] and [merge] receives. *)
Record MergeStamps := mkMergeStamps { current : EventStamp; incoming : EventStamp }.

(** The order compares times before identities. *)
Lemma stamp_lt_time a b :
  cmp (stamp_time a) (stamp_time b) = Lt → cmp a b = Lt.
Proof.
  change (then_with (cmp (physical_ms (stamp_time a)) (physical_ms (stamp_time b)))
            (cmp (logical (stamp_time a)) (logical (stamp_time b))) = Lt →
          then_with (then_with (then_with
            (cmp (physical_ms (stamp_time a)) (physical_ms (stamp_time b)))
            (cmp (logical (stamp_time a)) (logical (stamp_time b))))
            (cmp (peer_id (stamp_id a)) (peer_id (stamp_id b))))
            (cmp (sequence (stamp_id a)) (sequence (stamp_id b))) = Lt).
  by intros ->.
Qed.
Lemma stamp_lt_seq a b :
  stamp_time a = stamp_time b → peer_id (stamp_id a) = peer_id (stamp_id b) →
  (sequence (stamp_id a) < sequence (stamp_id b))%Z → cmp a b = Lt.
Proof.
  intros Ht Hp Hs.
  change (then_with (cmp (stamp_key a).1 (stamp_key b).1)
    (cmp (sequence (stamp_id a)) (sequence (stamp_id b))) = Lt).
  unfold stamp_key. rewrite Ht, Hp. simpl. rewrite cmp_refl.
  by apply Z.compare_lt_iff.
Qed.
End Stamp.

(** * Primary keys: the [key] rows of [register_types!]

    [PrimaryKey] is generated by the macro of [zendb-types/src/crdt/_macros.rs]
    from the [key] rows of [zendb-types/src/lib.rs]; its order is derived
    (constructors in declaration order, then the payload). *)
Section Keys.
Context `{L : Libp2p}.

Inductive PrimaryKey :=
  | PK_PeerId (p : PeerId)
  | PK_Bool (b : bool)
  | PK_Int (z : Z)
  | PK_String (s : rstring)
  | PK_Timestamp (t : Z)
  | PK_Blob (b : list Z).

#[export] Instance PrimaryKey_eq_dec : EqDecision PrimaryKey.
Proof using Type. solve_decision. Defined.

(** The derived order, through the sum of the payloads. *)
Definition key_sum (k : PrimaryKey) :
    PeerId + (bool + (Z + (rstring + (Z + list Z)))) :=
  match k with
  | PK_PeerId p => inl p
  | PK_Bool b => inr (inl b)
  | PK_Int z => inr (inr (inl z))
  | PK_String s => inr (inr (inr (inl s)))
  | PK_Timestamp t => inr (inr (inr (inr (inl t))))
  | PK_Blob b => inr (inr (inr (inr (inr b))))
  end.
#[export] Instance key_sum_inj : Inj (=) (=) key_sum.
Proof using Type. intros [] []; simpl; congruence. Qed.
#[export] Instance PrimaryKey_cmp : Cmp PrimaryKey := λ a b, cmp (key_sum a) (key_sum b).
#[export] Instance PrimaryKey_total : TotalCmp PrimaryKey.
Proof. apply (via_total key_sum). Qed.
End Keys.
