(* ===== verification/Counter.v ===== *)
(** * PN-counter: [zendb-types/src/crdt/values/counter.rs]

    Each peer owns a pair of monotone totals; the value is the sum of the
    differences, merging takes the maximum of each total. *)
From stdpp Require Import base numbers option list.
From S2P Require Import Prelude Order BTreeMap Merge Stamp.

Module Counter.
Section Counter.
Context `{L : Libp2p}.

Record Counter := mkCounter { entries : btree PeerId (Z * Z) }.
Definition default : Counter := mkCounter [].

Definition value (self : Counter) : Z :=
  foldr (λ p acc, (p.1 - p.2 + acc)%Z) 0%Z (bt_values (entries self)).

Inductive CounterOp := Add (delta : Z).
Inductive CounterError := Overflow.

(** [entries.entry(peer).or_default()] inserts a zero pair before the
    addition is checked, so the map keeps it when the addition overflows. *)
Definition apply (self : Counter) (op : CounterOp) (stamps : MergeStamps) :
    Counter * result CounterError bool :=
  match op with
  | Add delta =>
      if (delta =? 0)%Z then (self, Ok false)
      else
        let peer := peer_id (stamp_id (incoming stamps)) in
        let entry := from_option id (0, 0)%Z (bt_get peer (entries self)) in
        if (0 <? delta)%Z then
          match checked_add_u64 entry.1 (Z.abs delta) with
          | Some pos => (mkCounter (bt_insert peer (pos, entry.2) (entries self)), Ok true)
          | None => (mkCounter (bt_insert peer entry (entries self)), Err Overflow)
          end
        else
          match checked_add_u64 entry.2 (Z.abs delta) with
          | Some neg => (mkCounter (bt_insert peer (entry.1, neg) (entries self)), Ok true)
          | None => (mkCounter (bt_insert peer entry (entries self)), Err Overflow)
          end
  end.

(** The body of the merge loop: two guarded assignments. *)
Definition merge_entry (k : PeerId) (l r : Z * Z) : (Z * Z) * result CounterError bool :=
  let '(pos, c1) := if (r.1 >? l.1) then (r.1, true) else (l.1, false) in
  let '(neg, c2) := if (r.2 >? l.2) then (r.2, true) else (l.2, false) in
  ((pos, neg), Ok (c1 || c2)).

Definition merge (self remote : Counter) : Counter * result CounterError bool :=
  let '(m, r) := merge_loop merge_entry (entries self) (entries remote) false in
  (mkCounter m, r).

(** The trait's default. *)
Definition max_stamp (self : Counter) : EventStamp := EventStamp_default.

(** ** Lemmas *)
#[export] Instance entry_join k : JoinLaws (merge_entry k).
Proof.
  refine {| jl_wf := λ _, True; jl_ok := λ _ _, True;
            jl_join := λ l r, (omax l.1 r.1, omax l.2 r.2) |};
    try done.
  - intros [lp ln] [rp rn] _ _ _. unfold merge_entry; simpl.
    rewrite !omax_case. destruct (rp >? lp) eqn:E1, (rn >? ln) eqn:E2; simpl;
      eexists; split; try done; split; try done; intros [=]; subst;
      rewrite ?gtb_irrefl in *; done.
  - intros [] [] _ _ _; simpl. f_equal; apply omax_comm.
  - intros [] [] [] _ _ _ _ _ _; simpl. f_equal; by rewrite omax_assoc.
  - intros [] _; simpl. by rewrite !omax_idemp.
Defined.

Definition wf (self : Counter) : Prop := bt_wf (entries self).

Lemma map_wf_iff m : map_wf merge_entry m ↔ bt_wf m.
Proof. unfold map_wf. simpl. naive_solver. Qed.

Lemma counter_merge_entries a b :
  merge a b = (mkCounter (map_merge merge_entry (entries a) (entries b)).1,
               (map_merge merge_entry (entries a) (entries b)).2).
Proof. unfold merge, map_merge. by destruct (merge_loop _ _ _ _). Qed.

#[export] Instance counter_join : JoinLaws merge :=
  wrap_laws (map_merge merge_entry) mkCounter entries (λ _, eq_refl)
    (λ w, match w with mkCounter m => eq_refl end) merge
    (λ a b _ _ _, counter_merge_entries a b).
Lemma counter_wf_join a : wf a → jl_wf (JoinLaws:=counter_join) a.
Proof. by split. Qed.
Lemma counter_merge_wf a b : wf a → wf (merge a b).1.
Proof. intros Ha. rewrite counter_merge_entries. apply merge_loop_wf, Ha. Qed.

Lemma value_insert k p m :
  bt_wf m →
  value (mkCounter (bt_insert k p m)) =
  (value (mkCounter m) - (let q := from_option id (0, 0)%Z (bt_get k m) in q.1 - q.2)
   + (p.1 - p.2))%Z.
Proof.
  unfold value. simpl. induction m as [|[k' p'] m IH]; intros Hwf; simpl in *; [lia|].
  destruct Hwf as [HF Hwf]. destruct (cmpP k k') as [->|E E'|E E']; simpl in *; [lia| |].
  - rewrite bt_lt_get_None; [simpl; lia|]. eapply Forall_impl; [exact HF|].
    intros [j w] Hj; simpl in *. ord.
  - rewrite IH by done. lia.
Qed.

Lemma counter_apply_wf self op stamps : wf self → wf (apply self op stamps).1.
Proof. intros Hw. destruct op as [d]. unfold apply. cases; try done; by apply bt_wf_insert. Qed.

(** A successful, effective addition only touches the peer's own totals. *)
Lemma apply_entry self delta stamps self' :
  apply self (Add delta) stamps = (self', Ok true) →
  let k := peer_id (stamp_id (incoming stamps)) in
  let e := from_option id (0, 0)%Z (bt_get k (entries self)) in
  ∃ p, entries self' = bt_insert k p (entries self) ∧
    p.1 = (e.1 + Z.max delta 0)%Z ∧ p.2 = (e.2 + Z.max (- delta) 0)%Z.
Proof.
  simpl. unfold apply, checked_add_u64.
  zcases; intros [= <-]; simpl; eexists; (split; [done|]); simpl; lia.
Qed.

(** Merging two updates of different entries of one map keeps both. *)
Lemma merge_two_inserts ka kb pa pb m :
  ka ≠ kb → bt_wf m →
  ((from_option id (0, 0) (bt_get ka m)).1 ≤ pa.1)%Z →
  ((from_option id (0, 0) (bt_get ka m)).2 ≤ pa.2)%Z →
  ((from_option id (0, 0) (bt_get kb m)).1 ≤ pb.1)%Z →
  ((from_option id (0, 0) (bt_get kb m)).2 ≤ pb.2)%Z →
  (map_merge merge_entry (bt_insert ka pa m) (bt_insert kb pb m)).1 =
  bt_insert kb pb (bt_insert ka pa m).
Proof.
  intros Hne Hwf Ha1 Ha2 Hb1 Hb2.
  apply bt_ext; [apply merge_loop_wf; by auto with zen|by auto with zen|]. intros k.
  destruct (map_merge_spec merge_entry (bt_insert ka pa m) (bt_insert kb pb m)) as [_ Hg];
    [apply map_wf_iff; by auto with zen..|done|].
  unfold map_join in Hg. rewrite Hg.
  assert (∀ a b : Z, (b ≤ a)%Z → omax a b = a) as Hmax.
  { intros x y Hxy. apply omax_l. unfold gtb, cmp, Z_cmp. destruct (Z.compare_spec y x); lia || done. }
  bt_key k kb.
  - rewrite bt_get_insert_ne by done. destruct (bt_get kb m) as [[]|] eqn:E; simpl in *; [|done].
    rewrite omax_comm, (omax_comm _ pb.2), !Hmax by done. by destruct pb.
  - bt_key k ka.
    + destruct (bt_get ka m) as [[]|] eqn:E; simpl in *; [|done].
      rewrite !Hmax by done. by destruct pa.
    + destruct (bt_get k m) as [[]|]; simpl; [|done].
      by rewrite !omax_idemp.
Qed.

(** ** Properties *)

(** C35. Adding [delta]: the value moves by exactly [delta], or the owner's total
    is out of [u64] and nothing observable changes. *)
Theorem counter_add (self : Counter) (delta : Z) (stamps : MergeStamps) :
  wf self →
  match apply self (Add delta) stamps with
  | (self', Ok changed) =>
      value self' = (value self + delta)%Z ∧ changed = negb (delta =? 0)%Z
  | (self', Err Overflow) =>
      value self' = value self ∧
      let e := from_option id (0, 0)%Z
                 (bt_get (peer_id (stamp_id (incoming stamps))) (entries self)) in
      (u64_max < (if 0 <? delta then e.1 else e.2) + Z.abs delta)%Z
  | (_, Panic) => False
  end.
Proof.
  intros Hwf. unfold apply.
  destruct (Z.eqb_spec delta 0) as [->|Hd]; [split; [lia|done]|].
  set (k := peer_id _). set (e := from_option _ _ (bt_get k _)).
  assert (∀ p, value (mkCounter (bt_insert k p (entries self))) =
    (value self - (e.1 - e.2) + (p.1 - p.2))%Z) as Hv
    by (intros p; rewrite value_insert by done; by destruct self).
  unfold checked_add_u64. zcases; rewrite Hv; simpl; (split; [lia|]); try done; lia.
Qed.

(** Concurrent additions of two peers to a common state are both in the
    merged value. *)
Theorem counter_no_lost_update (s a b : Counter) (da db : Z) (sa sb : MergeStamps) :
  wf s →
  peer_id (stamp_id (incoming sa)) ≠ peer_id (stamp_id (incoming sb)) →
  apply s (Add da) sa = (a, Ok true) → apply s (Add db) sb = (b, Ok true) →
  value (merge a b).1 = (value s + da + db)%Z.
Proof.
  intros Hwf Hne Ha Hb.
  set (ka := peer_id (stamp_id (incoming sa))) in *.
  set (kb := peer_id (stamp_id (incoming sb))) in *.
  assert (∃ pa, entries a = bt_insert ka pa (entries s) ∧
    pa.1 = (from_option id (0, 0) (bt_get ka (entries s))).1 + Z.max da 0 ∧
    pa.2 = (from_option id (0, 0) (bt_get ka (entries s))).2 + Z.max (- da) 0)%Z
    as (pa & Ea & Pa1 & Pa2) by exact (apply_entry _ _ _ _ Ha).
  assert (∃ pb, entries b = bt_insert kb pb (entries s) ∧
    pb.1 = (from_option id (0, 0) (bt_get kb (entries s))).1 + Z.max db 0 ∧
    pb.2 = (from_option id (0, 0) (bt_get kb (entries s))).2 + Z.max (- db) 0)%Z
    as (pb & Eb & Pb1 & Pb2) by exact (apply_entry _ _ _ _ Hb).
  assert ((merge a b).1 = mkCounter (bt_insert kb pb (bt_insert ka pa (entries s)))) as ->.
  { rewrite counter_merge_entries. simpl. f_equal. rewrite Ea, Eb.
    apply (merge_two_inserts ka kb); [done|done|lia..]. }
  rewrite !value_insert by auto with zen. rewrite bt_get_insert_ne by done.
  destruct s as [m]; simpl in *. lia.
Qed.
End Counter.
End Counter.
