(* ===== verification/LwwSet.v ===== *)
(** * Last-writer-wins set: [zendb-types/src/crdt/values/set.rs]

    Every element carries the stamps of its latest add and its latest remove;
    it is a member when the add is the later of the two. *)
From stdpp Require Import base numbers option list.
From S2P Require Import Prelude Order BTreeMap Merge Stamp.

Module LwwSet.
Section LwwSet.
Context `{L : Libp2p}.

Record Meta := mkMeta { updated : EventStamp; deleted : EventStamp }.
Definition Meta_default : Meta := mkMeta EventStamp_default EventStamp_default.
#[export] Instance Meta_eq_dec : EqDecision Meta.
Proof using Type. solve_decision. Defined.
Definition is_live (self : Meta) : bool := updated self >? deleted self.

Record Set_ := mkSet { entries : btree PrimaryKey Meta }.
Definition default : Set_ := mkSet [].

Definition contains (self : Set_) (key : PrimaryKey) : bool :=
  is_some_and is_live (bt_get key (entries self)).
Definition keys (self : Set_) : list PrimaryKey :=
  map fst (List.filter (λ p, is_live p.2) (entries self)).

Inductive SetOp := Add (key : PrimaryKey) | Remove (key : PrimaryKey).
Inductive SetError := .

Definition apply (self : Set_) (op : SetOp) (stamps : MergeStamps) :
    Set_ * result SetError bool :=
  let stamps := incoming stamps in
  match op with
  | Add key =>
      let meta := from_option id Meta_default (bt_get key (entries self)) in
      if stamps >? updated meta
      then (mkSet (bt_insert key (mkMeta stamps (deleted meta)) (entries self)), Ok true)
      else (mkSet (bt_insert key meta (entries self)), Ok false)
  | Remove key =>
      let meta := from_option id Meta_default (bt_get key (entries self)) in
      if stamps >? deleted meta
      then (mkSet (bt_insert key (mkMeta (updated meta) stamps) (entries self)), Ok true)
      else (mkSet (bt_insert key meta (entries self)), Ok false)
  end.

Definition merge_meta (k : PrimaryKey) (l r : Meta) : Meta * result SetError bool :=
  let '(u, c1) := if updated r >? updated l then (updated r, true) else (updated l, false) in
  let '(d, c2) := if deleted r >? deleted l then (deleted r, true) else (deleted l, false) in
  (mkMeta u d, Ok (c1 || c2)).

Definition merge (self remote : Set_) : Set_ * result SetError bool :=
  let '(m, r) := merge_loop merge_meta (entries self) (entries remote) false in
  (mkSet m, r).

Definition max_stamp (self : Set_) : EventStamp :=
  foldl (λ max meta, omax (omax max (updated meta)) (deleted meta))
    EventStamp_default (bt_values (entries self)).

(** ** Lemmas *)
Definition wf (self : Set_) : Prop := bt_wf (entries self).

#[export] Instance meta_join k : JoinLaws (merge_meta k).
Proof.
  refine {| jl_wf := λ _, True; jl_ok := λ _ _, True;
            jl_join := λ l r, mkMeta (omax (updated l) (updated r)) (omax (deleted l) (deleted r)) |};
    try done.
  - intros [lu ld] [ru rd] _ _ _. unfold merge_meta; simpl. rewrite !omax_case.
    destruct (ru >? lu) eqn:E1, (rd >? ld) eqn:E2; simpl;
      eexists; split; try done; split; try done; intros [=]; subst;
      rewrite ?gtb_irrefl in *; done.
  - intros [] [] _ _ _; simpl. f_equal; apply omax_comm.
  - intros [] [] [] _ _ _ _ _ _; simpl. f_equal; by rewrite omax_assoc.
  - intros [] _; simpl. by rewrite !omax_idemp.
Defined.

Lemma set_merge_entries a b :
  merge a b = (mkSet (map_merge merge_meta (entries a) (entries b)).1,
               (map_merge merge_meta (entries a) (entries b)).2).
Proof. unfold merge, map_merge. by destruct (merge_loop _ _ _ _). Qed.
#[export] Instance set_join : JoinLaws merge :=
  wrap_laws (map_merge merge_meta) mkSet entries (λ _, eq_refl)
    (λ w, match w with mkSet m => eq_refl end) merge
    (λ a b _ _ _, set_merge_entries a b).
Lemma set_wf_join a : wf a → jl_wf (JoinLaws:=set_join) a.
Proof. by split. Qed.
Lemma set_merge_wf a b : wf a → wf (merge a b).1.
Proof. intros Ha. rewrite set_merge_entries. apply merge_loop_wf, Ha. Qed.
Lemma set_apply_wf self op stamps : wf self → wf (apply self op stamps).1.
Proof. intros Hw. destruct op; unfold apply; case_match; by apply bt_wf_insert. Qed.

(** The stamps of an element, absent elements having default ones. *)
Definition meta_of (self : Set_) (key : PrimaryKey) : Meta :=
  from_option id Meta_default (bt_get key (entries self)).

Lemma contains_meta self key : contains self key = is_live (meta_of self key).
Proof.
  unfold contains, meta_of. destruct (bt_get key (entries self)); simpl; [done|].
  unfold is_live; simpl. by rewrite gtb_irrefl.
Qed.

Lemma apply_meta self op stamps key :
  meta_of (apply self op stamps).1 key =
  match op with
  | Add k => if decide (key = k)
      then mkMeta (omax (updated (meta_of self k)) (incoming stamps)) (deleted (meta_of self k))
      else meta_of self key
  | Remove k => if decide (key = k)
      then mkMeta (updated (meta_of self k)) (omax (deleted (meta_of self k)) (incoming stamps))
      else meta_of self key
  end.
Proof.
  destruct op as [k|k]; unfold apply; fold (meta_of self k); rewrite ?omax_case;
    case_match; unfold meta_of; simpl; rewrite bt_get_insert_dec; case_decide; simpl;
    try done; fold (meta_of self k); subst; try done; by destruct (meta_of self k).
Qed.

(** Delivering a sequence of stamped operations. *)
Definition deliver (self : Set_) (h : list (SetOp * EventStamp)) : Set_ :=
  foldl (λ s p, (apply s p.1 (mkMergeStamps EventStamp_default p.2)).1) self h.

(** ** Specification: membership as a function of the history alone *)
Definition latest (is_op : SetOp → bool) (h : list (SetOp * EventStamp)) : EventStamp :=
  foldl (λ acc p, if is_op p.1 then omax acc p.2 else acc) EventStamp_default h.
Definition adds_of (key : PrimaryKey) (op : SetOp) : bool :=
  match op with Add k => bool_decide (k = key) | Remove _ => false end.
Definition removes_of (key : PrimaryKey) (op : SetOp) : bool :=
  match op with Remove k => bool_decide (k = key) | Add _ => false end.

Lemma deliver_app self h1 h2 : deliver self (h1 ++ h2) = deliver (deliver self h1) h2.
Proof. apply foldl_app. Qed.

Lemma deliver_meta self h key :
  meta_of (deliver self h) key =
  mkMeta (foldl (λ acc p, if adds_of key p.1 then omax acc p.2 else acc)
            (updated (meta_of self key)) h)
         (foldl (λ acc p, if removes_of key p.1 then omax acc p.2 else acc)
            (deleted (meta_of self key)) h).
Proof.
  revert self. induction h as [|[op s] h IH]; intros self; simpl; [by destruct (meta_of self key)|].
  rewrite IH, apply_meta; simpl.
  destruct op as [k|k]; simpl; case_decide as Hk; simpl;
    rewrite ?(bool_decide_eq_true_2 (k = key)), ?(bool_decide_eq_false_2 (k = key)) by congruence;
    subst; done.
Qed.

Lemma latest_perm is_op h h' : h ≡ₚ h' → latest is_op h = latest is_op h'.
Proof.
  intros Hp. unfold latest. generalize EventStamp_default.
  induction Hp as [|p h h' _ IH|p q h|h1 h2 h3 _ IH1 _ IH2]; intros acc; simpl; auto.
  - destruct (is_op p.1), (is_op q.1); try done.
    by rewrite <- !omax_assoc, (omax_comm p.2 q.2).
  - by rewrite IH1.
Qed.

(** ** Properties *)

(** Membership after any sequence of operations compares the latest add with
    the latest remove of the element; the order of delivery is irrelevant. *)
Theorem set_membership (h h' : list (SetOp * EventStamp)) (key : PrimaryKey) :
  contains (deliver default h) key =
    (latest (adds_of key) h >? latest (removes_of key) h) ∧
  (h ≡ₚ h' → contains (deliver default h') key = contains (deliver default h) key).
Proof.
  assert (∀ g, contains (deliver default g) key =
    (latest (adds_of key) g >? latest (removes_of key) g)) as Hs.
  { intros g. rewrite contains_meta, deliver_meta. done. }
  split; [apply Hs|]. intros Hp. rewrite !Hs.
  by rewrite !(latest_perm _ h h') by done.
Qed.

(** Replicas converge by state exchange, whatever the order of merges, and
    [merge] reports [false] exactly when it changed nothing. *)
Theorem set_converges (a b c : Set_) :
  wf a → wf b → wf c →
  (merge a b).1 = (merge b a).1 ∧
  (merge (merge a b).1 c).1 = (merge a (merge b c).1).1 ∧
  merge a a = (a, Ok false) ∧
  (∃ ch, (merge a b).2 = Ok ch ∧ (ch = false ↔ (merge a b).1 = a)).
Proof.
  intros. apply (converges merge); auto using set_wf_join; by intros ?.
Qed.
End LwwSet.
End LwwSet.
