(* ===== verification/OrSet.v ===== *)
(** * Observed-remove set: [zendb-types/src/crdt/values/or_set.rs]

    Every add is tagged by its stamp; a remove carries the tags its creator
    had observed.  An element is live while some of its add tags is in no
    remove. *)
From stdpp Require Import base numbers option sets list.
From S2P Require Import Prelude Order BTreeMap Merge Clocks Stamp.

Module OrSet.
Section OrSet.
Context `{L : Libp2p}.

Record OrSetEntry := mkEntry { adds : bset EventStamp; rems : btree EventStamp EventStamp }.
Definition OrSetEntry_default : OrSetEntry := mkEntry [] [].
#[export] Instance OrSetEntry_eq_dec : EqDecision OrSetEntry.
Proof using Type. solve_decision. Defined.
Definition is_live (self : OrSetEntry) : bool :=
  existsb (λ tag, negb (bt_contains tag (rems self))) (bt_keys (adds self)).

Record OrSet := mkOrSet { entries : btree PrimaryKey OrSetEntry }.
Definition default : OrSet := mkOrSet [].

Definition contains (self : OrSet) (key : PrimaryKey) : bool :=
  is_some_and is_live (bt_get key (entries self)).
Definition keys (self : OrSet) : list PrimaryKey :=
  map fst (List.filter (λ p, is_live p.2) (entries self)).

Inductive OrSetOp :=
  | Add (key : PrimaryKey)
  | Remove (key : PrimaryKey) (observed : list EventStamp).
Inductive OrSetError := .

(** The remove operation a replica builds: every add tag it has observed. *)
Definition remove (self : OrSet) (key : PrimaryKey) : OrSetOp :=
  Remove key (from_option (λ entry, bt_keys (adds entry)) [] (bt_get key (entries self))).

Definition apply (self : OrSet) (op : OrSetOp) (stamps : MergeStamps) :
    OrSet * result OrSetError bool :=
  let stamps := incoming stamps in
  match op with
  | Add key =>
      let entry := from_option id OrSetEntry_default (bt_get key (entries self)) in
      let '(adds', fresh) := bs_insert stamps (adds entry) in
      (mkOrSet (bt_insert key (mkEntry adds' (rems entry)) (entries self)), Ok fresh)
  | Remove key observed =>
      let entry := from_option id OrSetEntry_default (bt_get key (entries self)) in
      let '(rems', changed) :=
        raise_clocks (rems entry) (map (λ tag, (tag, stamps)) observed) false in
      (mkOrSet (bt_insert key (mkEntry (adds entry) rems') (entries self)), Ok changed)
  end.

Definition merge_entry (k : PrimaryKey) (l r : OrSetEntry) :
    OrSetEntry * result OrSetError bool :=
  let adds_before := length (adds l) in
  let adds' := bs_extend (adds l) (bt_keys (adds r)) in
  let '(rems', changed) := raise_clocks (rems l) (rems r) false in
  (mkEntry adds' rems', Ok (bool_decide (adds_before < length adds') || changed)).

Definition merge (self remote : OrSet) : OrSet * result OrSetError bool :=
  let '(m, r) := merge_loop merge_entry (entries self) (entries remote) false in
  (mkOrSet m, r).

Definition max_stamp (self : OrSet) : EventStamp :=
  foldl (λ max entry,
      let adds_max := foldl omax EventStamp_default (bt_keys (adds entry)) in
      let rems_max := foldl omax EventStamp_default (bt_values (rems entry)) in
      omax max (omax adds_max rems_max))
    EventStamp_default (bt_values (entries self)).

(** ** Lemmas *)

(** The entry invariant; the two halves merge independently. *)
Definition entry_wf (e : OrSetEntry) : Prop := bt_wf (adds e) ∧ bt_wf (rems e).
Definition wf (self : OrSet) : Prop :=
  bt_wf (entries self) ∧ ∀ k e, bt_get k (entries self) = Some e → entry_wf e.

Let halves (e : OrSetEntry) := (adds e, rems e).
Let of_halves (p : bset EventStamp * btree EventStamp EventStamp) := mkEntry p.1 p.2.
Definition adds_merge := map_merge (K:=EventStamp) (λ _, unit_body (E:=OrSetError)).
Definition rems_merge := map_merge (K:=EventStamp) (λ _, max_body (C:=EventStamp) (E:=OrSetError)).
Definition halves_merge (a b : bset EventStamp * btree EventStamp EventStamp) :
    (bset EventStamp * btree EventStamp EventStamp) * result OrSetError bool :=
  (((adds_merge a.1 b.1).1, (rems_merge a.2 b.2).1),
   c1 <-? (adds_merge a.1 b.1).2 ;; c2 <-? (rems_merge a.2 b.2).2 ;; Ok (c1 || c2)).
Definition halves_laws : JoinLaws halves_merge.
Proof.
  refine (pair_laws adds_merge rems_merge halves_merge _).
  intros [a1 a2] [b1 b2] c1 c2 E1 E2; simpl in *. unfold halves_merge; simpl.
  by rewrite E1, E2.
Defined.

Lemma merge_entry_halves k l r : entry_wf l →
  merge_entry k l r =
  (of_halves (halves_merge (halves l) (halves r)).1, (halves_merge (halves l) (halves r)).2).
Proof.
  intros [Hl1 Hl2]. unfold merge_entry, halves_merge, adds_merge, rems_merge, map_merge,
    halves, of_halves; simpl.
  rewrite bs_extend_merge by done. simpl.
  rewrite <- (raise_clocks_merge (rems l) (rems r) false) by done. simpl.
  by destruct (raise_clocks _ _ _).
Qed.

#[export] Instance entry_laws k : JoinLaws (merge_entry k).
Proof.
  refine (wrap_laws (J:=halves_laws) halves_merge of_halves halves _ _ _ _).
  - by intros [].
  - by intros [].
  - intros a b [[Ha _] [Hb _]] _ _. by apply merge_entry_halves.
Defined.

Lemma orset_merge_entries a b :
  merge a b = (mkOrSet (map_merge merge_entry (entries a) (entries b)).1,
               (map_merge merge_entry (entries a) (entries b)).2).
Proof. unfold merge, map_merge. by destruct (merge_loop _ _ _ _). Qed.
#[export] Instance orset_join : JoinLaws merge :=
  wrap_laws (map_merge merge_entry) mkOrSet entries (λ _, eq_refl)
    (λ w, match w with mkOrSet m => eq_refl end) merge (λ a b _ _ _, orset_merge_entries a b).
Lemma orset_wf_join a : wf a → jl_wf (JoinLaws:=orset_join) a.
Proof. intros [Hw He]. split; [done|]. intros k e Hk. by repeat split; apply (He k). Qed.
Lemma orset_ok_join a b : jl_ok (JoinLaws:=orset_join) a b.
Proof. by repeat intros ?. Qed.

(** Membership in terms of tags. *)
Definition entry_of (self : OrSet) (key : PrimaryKey) : OrSetEntry :=
  from_option id OrSetEntry_default (bt_get key (entries self)).
Definition has_add (self : OrSet) key tag : Prop := is_Some (bt_get tag (adds (entry_of self key))).
Definition has_rem (self : OrSet) key tag : Prop := is_Some (bt_get tag (rems (entry_of self key))).

Lemma contains_tags self key :
  contains self key = true ↔ ∃ tag, has_add self key tag ∧ ¬ has_rem self key tag.
Proof.
  transitivity (is_live (entry_of self key) = true).
  { unfold contains, entry_of. by destruct (bt_get key (entries self)). }
  unfold is_live, has_add, has_rem. rewrite existsb_exists.
  setoid_rewrite <- list_elem_of_In. setoid_rewrite bt_elem_of_keys.
  setoid_rewrite negb_true_iff. setoid_rewrite bt_contains_false.
  setoid_rewrite eq_None_not_Some. done.
Qed.

Definition adds_tag (op : OrSetOp) (at_ : EventStamp) key tag : Prop :=
  op = Add key ∧ tag = at_.
Definition removes_tag (op : OrSetOp) key tag : Prop :=
  ∃ observed, op = Remove key observed ∧ tag ∈ observed.

Lemma apply_add self op stamps key tag :
  has_add (apply self op stamps).1 key tag ↔
  has_add self key tag ∨ adds_tag op (incoming stamps) key tag.
Proof.
  unfold has_add, adds_tag, entry_of. destruct op as [k|k obs]; unfold apply.
  - simpl. rewrite bt_get_insert_dec. case_decide as Hk; simpl; [subst k|naive_solver].
    rewrite bt_get_insert_dec. case_decide; naive_solver.
  - destruct (raise_clocks _ _ _) as [rems' c] eqn:E; simpl. rewrite bt_get_insert_dec.
    case_decide; naive_solver.
Qed.

Lemma raised_is_Some (m : btree EventStamp EventStamp) obs c at_ tag :
  is_Some (bt_get tag (raise_clocks m (map (λ t, (t, at_)) obs) c).1) ↔
  is_Some (bt_get tag m) ∨ tag ∈ obs.
Proof.
  rewrite raise_clocks_get. generalize (bt_get tag m). clear m.
  induction obs as [|t obs IH]; intros o; simpl; [set_solver|].
  rewrite IH, elem_of_cons. case_decide; subst; [|naive_solver].
  destruct o as [u|]; [rewrite omax_Some|rewrite omax_None_l]; naive_solver eauto.
Qed.

Lemma apply_rem self op stamps key tag :
  has_rem (apply self op stamps).1 key tag ↔
  has_rem self key tag ∨ removes_tag op key tag.
Proof.
  unfold has_rem, removes_tag, entry_of. destruct op as [k|k obs]; unfold apply.
  - simpl. rewrite bt_get_insert_dec. case_decide; naive_solver.
  - destruct (raise_clocks _ _ _) as [rems' c] eqn:E; simpl. rewrite bt_get_insert_dec.
    case_decide as Hk; simpl; [subst k|naive_solver].
    apply (f_equal fst) in E; simpl in E; subst rems'. rewrite raised_is_Some. naive_solver.
Qed.

Lemma orset_apply_wf self op stamps : wf self → wf (apply self op stamps).1.
Proof.
  intros [Hw He].
  assert (∀ key, entry_wf (from_option id OrSetEntry_default (bt_get key (entries self)))) as Hd.
  { intros key. destruct (bt_get key (entries self)) eqn:E; simpl; [by eapply He|done]. }
  assert (∀ key e, entry_wf e → wf (mkOrSet (bt_insert key e (entries self)))) as Hi.
  { intros key e Hwe. split; simpl; [auto with zen|]. intros k e'.
    rewrite bt_get_insert_dec. case_decide; naive_solver. }
  destruct op as [k|k obs]; unfold apply; simpl.
  - apply Hi. destruct (Hd k). split; simpl; auto with zen.
  - destruct (raise_clocks _ _ _) as [rems' c] eqn:E; simpl. apply Hi.
    destruct (Hd k) as [H1 H2]. split; [done|]. simpl.
    apply (f_equal fst) in E; simpl in E; subst rems'. by apply raise_clocks_wf.
Qed.

(** Delivering a history of stamped operations. *)
Definition deliver (self : OrSet) (h : list (OrSetOp * EventStamp)) : OrSet :=
  foldl (λ s p, (apply s p.1 (mkMergeStamps EventStamp_default p.2)).1) self h.

Lemma deliver_add self h key tag :
  has_add (deliver self h) key tag ↔
  has_add self key tag ∨ ∃ p, p ∈ h ∧ adds_tag p.1 p.2 key tag.
Proof.
  revert self. induction h as [|p h IH]; intros self; simpl; [set_solver|].
  rewrite IH, apply_add. setoid_rewrite elem_of_cons. naive_solver.
Qed.
Lemma deliver_rem self h key tag :
  has_rem (deliver self h) key tag ↔
  has_rem self key tag ∨ ∃ p, p ∈ h ∧ removes_tag p.1 key tag.
Proof.
  revert self. induction h as [|p h IH]; intros self; simpl; [set_solver|].
  rewrite IH, apply_rem. setoid_rewrite elem_of_cons. naive_solver.
Qed.

(** ** Properties *)

(** C30. The set is exactly its history: an element is a member when some add of
    it was observed by no remove, so concurrent adds win and the order of
    delivery is irrelevant. *)
Theorem orset_membership (h : list (OrSetOp * EventStamp)) (key : PrimaryKey) :
  contains (deliver default h) key = true ↔
  ∃ tag, (Add key, tag) ∈ h ∧
    ∀ observed at_, (Remove key observed, at_) ∈ h → tag ∉ observed.
Proof.
  rewrite contains_tags. setoid_rewrite deliver_add. setoid_rewrite deliver_rem.
  unfold adds_tag, removes_tag.
  assert (∀ tag, ¬ has_add default key tag ∧ ¬ has_rem default key tag) as Hd.
  { intros tag. by split; intros []. }
  split.
  - intros (tag & [Ha|([op at_] & Hin & Hop & Ht)] & Hr); [by destruct (Hd tag)|].
    simpl in *; subst.
    exists at_. split; [done|]. intros obs at' Hin' Htag. apply Hr. right.
    exists (Remove key obs, at'). naive_solver.
  - intros (tag & Hin & Hobs). exists tag. split.
    + right. by exists (Add key, tag).
    + intros [Hr|([op at_] & Hin' & obs & Hop & Htag)]; [by destruct (Hd tag)|].
      simpl in *; subst. by eapply Hobs.
Qed.

(** Observed remove: the remove a replica builds takes the element out of
    the replica, and only that element. *)
Theorem orset_observed_remove (self : OrSet) (key other : PrimaryKey) (stamps : MergeStamps) :
  contains (apply self (remove self key) stamps).1 key = false ∧
  (other ≠ key →
   contains (apply self (remove self key) stamps).1 other = contains self other).
Proof.
  split.
  - apply not_true_iff_false. rewrite contains_tags. intros (tag & Ha & Hr). apply Hr.
    apply apply_rem. right. eexists. split; [done|].
    apply apply_add in Ha as [Ha|[]]; [|done].
    unfold has_add, entry_of in Ha. destruct (bt_get key (entries self)); simpl in *.
    + by apply bt_elem_of_keys.
    + by destruct Ha.
  - intros Hne. apply eq_true_iff_eq. rewrite !contains_tags.
    setoid_rewrite apply_add. setoid_rewrite apply_rem. unfold adds_tag, removes_tag, remove.
    assert (∀ tag obs, ¬ (Remove key obs = Add other ∧ tag = incoming stamps)) as Ha
      by (intros tag obs [??]; done).
    assert (∀ tag obs, ¬ ∃ o, Remove key obs = Remove other o ∧ tag ∈ o) as Hr
      by (intros tag obs (? & [= ??] & ?); congruence).
    split; intros (tag & H1 & H2); exists tag; [|split; [by left|]].
    + split; [by destruct H1 as [?|?%Ha]|]. intros ?. apply H2. by left.
    + by intros [?|?%Hr].
Qed.

(** Replicas converge by state exchange, whatever the order of merges, and
    [merge] reports [false] exactly when it changed nothing. *)
Theorem orset_converges (a b c : OrSet) :
  wf a → wf b → wf c →
  (merge a b).1 = (merge b a).1 ∧
  (merge (merge a b).1 c).1 = (merge a (merge b c).1).1 ∧
  merge a a = (a, Ok false) ∧
  (∃ ch, (merge a b).2 = Ok ch ∧ (ch = false ↔ (merge a b).1 = a)).
Proof. intros. apply (converges merge); auto using orset_wf_join, orset_ok_join. Qed.
End OrSet.
End OrSet.
