(* ===== verification/Rga.v ===== *)
(** * Replicated growable arrays: the sequence walk of [list.rs] and [text.rs]

    Both sequence types keep a map from element identities to entries; an
    entry records the element it was inserted after (or the head, or nothing
    yet for a placeholder).  [visible_ids] groups the identities by anchor,
    sorts each group by descending identity and walks the groups depth first
    from the head.  The two files share the code up to the entry type, which
    is a parameter here. *)
From stdpp Require Import base numbers option sets list sorting.
From S2P Require Import Prelude Order BTreeMap Clocks.

Section Rga.
Context {Id Entry : Type} `{TotalCmp Id} `{EqDecision Id}.
(** The anchor of an entry ([None]: a placeholder, [Some None]: the head),
    and whether the walk shows it. *)
Variable after : Entry → option (option Id).
Variable shown : Id → Entry → bool.
Implicit Types (id x : Id) (a : option Id) (entries : btree Id Entry).

Definition push_child (ch : btree (option Id) (list Id)) (p : Id * Entry) :
    btree (option Id) (list Id) :=
  match after p.2 with
  | Some a => bt_insert a (from_option (λ l, l) [] (bt_get a ch) ++ [p.1]) ch
  | None => ch
  end.
(** [siblings.sort_unstable_by(|a, b| b.cmp(a))]. *)
Definition sort_desc (l : list Id) : list Id := sort_by (λ x y, y <=? x) l.
Definition children_of entries : btree (option Id) (list Id) :=
  map (λ p, (p.1, sort_desc p.2)) (foldl push_child [] entries).

(** [walk_visible], with fuel for the recursion on the identity; [None] is
    running out of it.  [visit] is its loop over the siblings. *)
Section Walk.
Variable entries : btree Id Entry.
Variable children : btree (option Id) (list Id).
Fixpoint visit (walk : Id → bset Id → list Id → option (bset Id * list Id))
    (siblings : list Id) (visited : bset Id) (visible : list Id) :
    option (bset Id * list Id) :=
  match siblings with
  | [] => Some (visited, visible)
  | id :: rest =>
      let '(visited', fresh) := bs_insert id visited in
      if negb fresh then visit walk rest visited' visible
      else match bt_get id entries with
           | None => visit walk rest visited' visible
           | Some entry =>
               let visible := if shown id entry then visible ++ [id] else visible in
               match walk id visited' visible with
               | None => None
               | Some (visited, visible) => visit walk rest visited visible
               end
           end
  end.
Fixpoint walk_visible (fuel : nat) (a : option Id) (visited : bset Id) (visible : list Id) :
    option (bset Id * list Id) :=
  match fuel with
  | O => None
  | S fuel =>
      match bt_get a children with
      | None => Some (visited, visible)
      | Some siblings => visit (λ id, walk_visible fuel (Some id)) siblings visited visible
      end
  end.
End Walk.

Definition visible_ids entries : list Id :=
  from_option snd [] (walk_visible entries (children_of entries) (S (length entries)) None [] []).

(** ** Specification: the depth-first order of the insertion tree *)
Definition ids_under a entries : list Id :=
  map fst (List.filter (λ p, bool_decide (after p.2 = Some a)) entries).
Definition siblings a entries : list Id := sort_desc (ids_under a entries).
Fixpoint preorder (n : nat) entries a : list Id :=
  match n with
  | O => []
  | S n => siblings a entries ≫= λ id, id :: preorder n entries (Some id)
  end.
Definition order entries : list Id := preorder (S (length entries)) entries None.
Definition is_shown entries id : bool := is_some_and (shown id) (bt_get id entries).

(** The anchor of an element, and of an anchor [n] insertions up; an element
    is attached when it reaches the head. *)
Definition parent entries id : option (option Id) := bt_get id entries ≫= after.
Fixpoint up (n : nat) entries a : option (option Id) :=
  match n, a with
  | O, _ => Some a
  | S n, Some id => parent entries id ≫= up n entries
  | S _, None => None
  end.
Definition attached entries id : Prop := ∃ d, up d entries (Some id) = Some None.
(** The subtree of [a] is exhausted by fuel [n]. *)
Fixpoint fits (n : nat) entries a : Prop :=
  match n with
  | O => False
  | S n => ∀ id, id ∈ siblings a entries → fits n entries (Some id)
  end.

(** ** The children map *)
Lemma elem_of_siblings a id entries :
  id ∈ siblings a entries ↔ ∃ e, (id, e) ∈ entries ∧ after e = Some a.
Proof.
  unfold siblings, sort_desc. rewrite sort_by_perm. unfold ids_under.
  rewrite list_elem_of_In, in_map_iff. setoid_rewrite filter_In.
  setoid_rewrite bool_decide_eq_true. setoid_rewrite <- list_elem_of_In. split.
  - intros ([i e] & <- & ? & ?); simpl in *. eauto.
  - intros (e & ? & ?). exists (id, e). eauto.
Qed.
Lemma siblings_parent a id entries : bt_wf entries →
  id ∈ siblings a entries ↔ parent entries id = Some a.
Proof.
  intros Hw. rewrite elem_of_siblings. unfold parent. rewrite bind_Some.
  by setoid_rewrite (bt_get_In_iff _ _ _ Hw).
Qed.

Lemma push_children_get entries ch a :
  from_option (λ l, l) [] (bt_get a (foldl push_child ch entries)) =
  from_option (λ l, l) [] (bt_get a ch) ++ ids_under a entries.
Proof.
  revert ch. induction entries as [|[id e] entries IH]; intros ch; simpl;
    [by rewrite app_nil_r|].
  rewrite IH. unfold ids_under, push_child; simpl.
  destruct (after e) as [b|] eqn:E; simpl; [|done].
  rewrite bt_get_insert_dec. destruct (decide (a = b)) as [->|Hne]; simpl.
  - rewrite bool_decide_eq_true_2 by done. by rewrite <- app_assoc.
  - by rewrite bool_decide_eq_false_2 by congruence.
Qed.
Lemma bt_get_map_snd {K V W} `{Cmp K} (f : V → W) (k : K) (m : btree K V) :
  bt_get k (map (λ p, (p.1, f p.2)) m) = f <$> bt_get k m.
Proof. induction m as [|[j v] m IH]; simpl; [done|]. by destruct (cmp k j). Qed.
Lemma children_get a entries :
  from_option (λ l, l) [] (bt_get a (children_of entries)) = siblings a entries.
Proof.
  unfold children_of, siblings. rewrite bt_get_map_snd.
  pose proof (push_children_get entries [] a) as Hg; simpl in Hg. rewrite <- Hg.
  by destruct (bt_get a _).
Qed.

(** ** Depth *)
Lemma up_add n m entries a : up (n + m) entries a = up n entries a ≫= up m entries.
Proof.
  revert a. induction n as [|n IH]; intros [id|]; simpl; try done.
  destruct (parent entries id); simpl; [apply IH|done].
Qed.
Lemma depth_unique d d' entries a :
  up d entries a = Some None → up d' entries a = Some None → d = d'.
Proof.
  revert d' a. induction d as [|d IH]; intros [|d'] [id|]; simpl; try done.
  destruct (parent entries id) as [b|]; simpl; [|done]. intros. f_equal. by eapply IH.
Qed.
Lemma depth_child d entries a id :
  parent entries id = Some a → up d entries a = Some None →
  up (S d) entries (Some id) = Some None.
Proof. intros Hp Hd. simpl. by rewrite Hp. Qed.

(** The elements between an anchor and the head are distinct. *)
Lemma depth_chain d entries a : up d entries a = Some None →
  ∃ l, length l = d ∧ NoDup l ∧ ∀ x, x ∈ l →
    x ∈ bt_keys entries ∧ ∃ k, k ≤ d ∧ up k entries (Some x) = Some None.
Proof.
  revert a. induction d as [|d IH]; intros a Hd.
  { exists []. split_and!; [done|constructor|]. intros x Hx. by apply elem_of_nil in Hx. }
  destruct a as [id|]; simpl in Hd; [|done].
  destruct (parent entries id) as [b|] eqn:Hp; simpl in Hd; [|done].
  destruct (IH b Hd) as (l & Hl & Hnd & Hin). exists (id :: l). split_and!.
  - simpl. by rewrite Hl.
  - constructor; [|done]. intros Hid. apply Hin in Hid as (_ & k & Hk & Hu).
    pose proof (depth_unique _ _ _ _ Hu (depth_child _ _ _ _ Hp Hd)). lia.
  - intros x [->|Hx]%elem_of_cons.
    + split; [|exists (S d); split; [done|by apply depth_child with b]].
      apply bt_elem_of_keys. unfold parent in Hp. destruct (bt_get id entries); [eauto|done].
    + apply Hin in Hx as (? & k & ? & ?). split; [done|]. exists k. split; [lia|done].
Qed.
Lemma depth_bound d entries a : up d entries a = Some None → d ≤ length entries.
Proof.
  intros (l & <- & Hnd & Hin)%depth_chain.
  assert (l ⊆+ bt_keys entries) as Hs.
  { apply NoDup_submseteq; [done|]. intros x Hx. by apply Hin. }
  apply submseteq_length in Hs. unfold bt_keys in Hs. by rewrite length_map in Hs.
Qed.

(** Enough fuel: one more than the number of entries. *)
Lemma fits_enough n d entries a : bt_wf entries →
  up d entries a = Some None → length entries < n + d → fits n entries a.
Proof.
  intros Hw. revert d a. induction n as [|n IH]; intros d a Hd Hn; simpl.
  - apply depth_bound in Hd. lia.
  - intros id Hid. apply siblings_parent in Hid; [|done].
    apply (IH (S d)); [by apply depth_child with a|lia].
Qed.
Lemma fits_head entries : bt_wf entries → fits (S (length entries)) entries None.
Proof. intros Hw. apply (fits_enough _ 0); [done|done|lia]. Qed.

Lemma preorder_fuel n m entries a :
  fits n entries a → fits m entries a → preorder n entries a = preorder m entries a.
Proof.
  revert m a. induction n as [|n IH]; intros [|m] a; simpl; [done..|]. intros Hn Hm.
  apply Forall_bind_ext, Forall_forall. intros id Hid. f_equal. apply IH; auto.
Qed.

(** ** What the depth-first order contains *)
Lemma elem_of_preorder n entries a x : bt_wf entries →
  x ∈ preorder n entries a ↔ ∃ k, k < n ∧ up (S k) entries (Some x) = Some a.
Proof.
  intros Hw. revert a. induction n as [|n IH]; intros a; simpl.
  { rewrite elem_of_nil. split; [done|]. intros (k & Hk & _). lia. }
  rewrite list_elem_of_bind. setoid_rewrite (siblings_parent _ _ _ Hw).
  setoid_rewrite elem_of_cons. setoid_rewrite IH. split.
  - intros (y & [->|(k & Hk & Hu)] & Hy).
    + exists 0. split; [lia|]. simpl. by rewrite Hy.
    + exists (S k). split; [lia|].
      change (up (S (S k)) entries (Some x) = Some a).
      replace (S (S k)) with (S k + 1) by lia. rewrite up_add, Hu. simpl. by rewrite Hy.
  - intros ([|k] & Hk & Hu).
    + exists x. split; [by left|]. simpl in Hu. destruct (parent entries x); naive_solver.
    + change (up (S (S k)) entries (Some x) = Some a) in Hu.
      replace (S (S k)) with (S k + 1) in Hu by lia. rewrite up_add in Hu.
      apply bind_Some in Hu as (b & Hb & Hu). destruct b as [y|]; simpl in Hu; [|done].
      exists y. split; [|by destruct (parent entries y); naive_solver].
      right. exists k. split; [lia|done].
Qed.

Lemma NoDup_preorder n d entries a : bt_wf entries →
  up d entries a = Some None → NoDup (preorder n entries a).
Proof.
  intros Hw. revert d a. induction n as [|n IH]; intros d a Hd; simpl; [constructor|].
  assert (∀ x y, y ∈ siblings a entries → x ∈ y :: preorder n entries (Some y) →
    ∃ k, up k entries (Some x) = Some (Some y) ∧ up (k + S d) entries (Some x) = Some None) as Hup.
  { intros x y Hy Hx. apply siblings_parent in Hy; [|done].
    pose proof (depth_child _ _ _ _ Hy Hd) as Hdy.
    assert (∃ k, up k entries (Some x) = Some (Some y)) as [k Hk].
    { apply elem_of_cons in Hx as [->|Hx]; [by exists 0|].
      apply elem_of_preorder in Hx as (k & _ & Hk); [|done]. eauto. }
    exists k. split; [done|]. rewrite up_add, Hk. done. }
  apply NoDup_bind.
  - intros y1 y2 x H1 H2 Hx1 Hx2.
    destruct (Hup x y1 H1 Hx1) as (k1 & Hk1 & Hd1), (Hup x y2 H2 Hx2) as (k2 & Hk2 & Hd2).
    pose proof (depth_unique _ _ _ _ Hd1 Hd2). assert (k1 = k2) as <- by lia. naive_solver.
  - intros y Hy. apply siblings_parent in Hy; [|done].
    pose proof (depth_child _ _ _ _ Hy Hd) as Hdy. constructor; [|by eapply IH].
    intros Hin. apply elem_of_preorder in Hin as (k & _ & Hk); [|done].
    assert (up (S k + S d) entries (Some y) = Some None) as Hd2
      by (by rewrite up_add, Hk).
    pose proof (depth_unique _ _ _ _ Hdy Hd2). lia.
  - unfold siblings, sort_desc. rewrite sort_by_perm. unfold ids_under.
    apply bt_keys_NoDup in Hw. clear Hup IH Hd. unfold bt_keys in Hw.
    induction entries as [|[i e] entries IHe]; simpl; [constructor|].
    inversion Hw as [|? ? Hni Hnd]; subst. destruct (bool_decide _); simpl; [|by apply IHe].
    constructor; [|by apply IHe]. intros ([j e'] & Hj & Hin)%list_elem_of_fmap; simpl in *.
    apply Hni. subst. apply list_elem_of_In, filter_In in Hin as [Hin _].
    apply list_elem_of_In in Hin. apply list_elem_of_fmap. by exists (j, e').
Qed.

(** ** The walk computes the depth-first order *)
Lemma bs_extend_app s l1 l2 :
  bs_extend (K:=Id) s (l1 ++ l2) = bs_extend (bs_extend s l1) l2.
Proof. apply foldl_app. Qed.

Lemma visit_ok entries walk (sub : Id → list Id) l visited visible :
  NoDup (l ≫= λ id, id :: sub id) →
  (∀ x, x ∈ (l ≫= λ id, id :: sub id) → bt_get x visited = None) →
  (∀ id, id ∈ l → is_Some (bt_get id entries)) →
  (∀ id vd vs, id ∈ l → (∀ x, x ∈ sub id → bt_get x vd = None) →
    walk id vd vs = Some (bs_extend vd (sub id), vs ++ List.filter (is_shown entries) (sub id))) →
  visit entries walk l visited visible =
  Some (bs_extend visited (l ≫= λ id, id :: sub id),
        visible ++ List.filter (is_shown entries) (l ≫= λ id, id :: sub id)).
Proof.
  revert visited visible. induction l as [|id l IH]; intros vd vs Hnd Hfresh Hin Hwalk; simpl.
  { by rewrite app_nil_r. }
  simpl in Hnd. apply NoDup_cons in Hnd as [Hid Hnd].
  apply NoDup_app in Hnd as (Hnd1 & Hdis & Hnd2).
  assert (bt_contains id vd = false) as ->.
  { apply bt_contains_false, Hfresh. simpl. set_solver. }
  simpl. destruct (Hin id) as [e He]; [set_solver|]. rewrite He.
  rewrite Hwalk; [|set_solver|].
  2: { intros x Hx. rewrite bt_get_insert_ne; [apply Hfresh; simpl; set_solver|].
       intros ->. set_solver. }
  rewrite IH; [|done| |set_solver|set_solver].
  2: { intros x Hx. rewrite bs_extend_get, decide_False by (intros ?; by eapply Hdis).
       rewrite bt_get_insert_ne; [apply Hfresh; simpl; set_solver|].
       intros ->. set_solver. }
  rewrite bs_extend_app. f_equal. f_equal. unfold is_shown at 3. rewrite He. simpl.
  rewrite List.filter_app. destruct (shown id e); simpl; by rewrite <- ?app_assoc.
Qed.

Lemma walk_ok n d entries a visited visible : bt_wf entries →
  up d entries a = Some None → fits n entries a →
  (∀ x, x ∈ preorder n entries a → bt_get x visited = None) →
  walk_visible entries (children_of entries) n a visited visible =
  Some (bs_extend visited (preorder n entries a),
        visible ++ List.filter (is_shown entries) (preorder n entries a)).
Proof.
  intros Hw. revert d a visited visible.
  induction n as [|n IH]; intros d a vd vs Hd Hfit Hfresh; simpl; [done|].
  pose proof (children_get a entries) as Hch. pose proof (NoDup_preorder (S n) _ _ _ Hw Hd) as Hnd.
  destruct (bt_get a (children_of entries)) as [l|] eqn:E; simpl in Hch; subst.
  - apply visit_ok; [done|done| |].
    + intros id Hid. apply siblings_parent in Hid; [|done]. unfold parent in Hid.
      destruct (bt_get id entries); [eauto|done].
    + intros id vd' vs' Hid Hf. apply (IH (S d)); [|by apply Hfit|done].
      apply depth_child with a; [by apply siblings_parent|done].
  - rewrite <- Hch. simpl. by rewrite app_nil_r.
Qed.

Lemma walk_total entries : bt_wf entries →
  walk_visible entries (children_of entries) (S (length entries)) None [] [] =
  Some (bs_extend [] (order entries), List.filter (is_shown entries) (order entries)).
Proof. intros Hw. rewrite (walk_ok _ 0); [done..|by apply fits_head|done]. Qed.
Lemma visible_order entries : bt_wf entries →
  visible_ids entries = List.filter (is_shown entries) (order entries).
Proof. intros Hw. unfold visible_ids. by rewrite walk_total. Qed.

Lemma elem_of_order entries x : bt_wf entries → x ∈ order entries ↔ attached entries x.
Proof.
  intros Hw. unfold order, attached. rewrite elem_of_preorder by done. split.
  - intros (k & _ & Hk). eauto.
  - intros ([|k] & Hk); [done|]. exists k. split; [|done]. apply depth_bound in Hk. lia.
Qed.
Lemma NoDup_order entries : bt_wf entries → NoDup (order entries).
Proof. intros Hw. by apply (NoDup_preorder _ 0). Qed.

Lemma NoDup_List_filter {A} (p : A → bool) (l : list A) : NoDup l → NoDup (List.filter p l).
Proof.
  induction 1 as [|x l Hx _ IH]; simpl; [constructor|]. destruct (p x); [|done].
  constructor; [|done]. rewrite list_elem_of_In, filter_In, <- list_elem_of_In. by intros [].
Qed.
(** The visible sequence lists the shown, attached elements, each once. *)
Lemma visible_ids_spec entries : bt_wf entries →
  NoDup (visible_ids entries) ∧
  ∀ id, id ∈ visible_ids entries ↔
    ∃ e, bt_get id entries = Some e ∧ shown id e = true ∧ attached entries id.
Proof.
  intros Hw. rewrite visible_order by done. split.
  { by apply NoDup_List_filter, NoDup_order. }
  intros id. rewrite list_elem_of_In, filter_In, <- list_elem_of_In.
  rewrite elem_of_order by done. unfold is_shown. destruct (bt_get id entries); naive_solver.
Qed.

(** ** Inserting a fresh element *)
Lemma bt_insert_last (id : Id) (e : Entry) entries :
  Forall (λ p, cmp p.1 id = Lt) entries → bt_insert id e entries = entries ++ [(id, e)].
Proof.
  induction 1 as [|[j w] m Hj _ IH]; simpl in *; [done|].
  apply cmp_Lt_Gt in Hj. by rewrite Hj, IH.
Qed.

Section Insert.
  Variables (entries : btree Id Entry) (id : Id) (e : Entry) (a : option Id).
Variable Hw : bt_wf entries.
Variable Hgreatest : Forall (λ p, cmp p.1 id = Lt) entries.
Variable Hunused : ∀ x e', bt_get x entries = Some e' → after e' ≠ Some (Some id).
Variable Ha : after e = Some a.
Variable Hself : a ≠ Some id.
Let entries' := bt_insert id e entries.

Lemma insert_wf : bt_wf entries'.
Proof using H0 Hw. by apply bt_wf_insert. Qed.
Lemma insert_siblings b :
  siblings b entries' = if decide (b = a) then id :: siblings b entries else siblings b entries.
Proof using All.
  unfold siblings, ids_under, entries'. rewrite bt_insert_last by done.
  rewrite List.filter_app, map_app. simpl. rewrite Ha. case_decide as Hb.
  - subst b. rewrite bool_decide_eq_true_2 by done. simpl. apply sort_by_least.
    apply Forall_forall. intros y ([j w] & -> & Hin)%list_elem_of_fmap; simpl in *.
    apply list_elem_of_In, filter_In in Hin as [Hin _]. apply list_elem_of_In in Hin.
    rewrite Forall_forall in Hgreatest. specialize (Hgreatest _ Hin); simpl in *.
    unfold leb. rewrite Hgreatest. split; [done|]. apply cmp_Lt_Gt in Hgreatest.
    by rewrite Hgreatest.
  - rewrite bool_decide_eq_false_2 by congruence. simpl. by rewrite app_nil_r.
Qed.
Lemma insert_no_children : siblings (Some id) entries' = [].
Proof using All.
  rewrite insert_siblings, decide_False by done.
  destruct (siblings (Some id) entries) as [|x l] eqn:E; [done|exfalso].
  assert (x ∈ siblings (Some id) entries) as Hx by (rewrite E; set_solver).
  apply siblings_parent in Hx; [|done]. unfold parent in Hx.
  destruct (bt_get x entries) as [e'|] eqn:E'; [|done]. by eapply Hunused.
Qed.
Lemma insert_childless n : preorder n entries' (Some id) = [].
Proof using All. destruct n; simpl; [done|]. by rewrite insert_no_children. Qed.

(** [y] itself, followed by the new element when [y] is its anchor. *)
Definition graft (y : Id) : list Id := if decide (Some y = a) then [y; id] else [y].

Lemma insert_preorder n b : fits n entries b →
  preorder n entries' b =
  (if decide (b = a) then [id] else []) ++ (preorder n entries b ≫= graft).
Proof using All.
  revert b. induction n as [|n IH]; intros b Hfit; simpl; [done|].
  rewrite insert_siblings.
  assert ((siblings b entries ≫= λ y, y :: preorder n entries' (Some y)) =
          (siblings b entries ≫= λ y, y :: preorder n entries (Some y)) ≫= graft) as Hold.
  { simpl in Hfit. revert Hfit. generalize (siblings b entries). clear b.
    intros l Hfit. induction l as [|y l IHl]; [done|].
    rewrite !bind_cons, bind_app, bind_cons.
    rewrite IHl by (intros; apply Hfit; set_solver).
    rewrite IH by (apply Hfit; set_solver). f_equal. unfold graft at 2.
    by destruct (decide (Some y = a)). }
  case_decide; [|done]. rewrite bind_cons, Hold. by rewrite insert_childless.
Qed.

Lemma insert_length : length entries' = S (length entries).
Proof using All. unfold entries'. rewrite bt_insert_last by done. rewrite length_app. simpl. lia. Qed.
Lemma insert_order :
  order entries' = match a with None => [id] | Some _ => [] end ++ (order entries ≫= graft).
Proof using All.
  unfold order. rewrite insert_length.
  assert (fits (S (S (length entries))) entries None) as Hfit
    by (apply (fits_enough _ 0); [done|done|lia]).
  rewrite insert_preorder, (preorder_fuel _ (S (length entries)) _ _ Hfit) by
    (done || by apply fits_head).
  by destruct (decide (None = a)), a.
Qed.
Lemma insert_absent : id ∉ order entries.
Proof using All.
  rewrite elem_of_order by done. intros [d Hd]. destruct d as [|d]; simpl in Hd; [done|].
  unfold parent in Hd. rewrite bt_get_absent in Hd; done.
Qed.
Lemma filter_graft l : id ∉ l → shown id e = true →
  List.filter (is_shown entries') (l ≫= graft) =
  l ≫= λ y, (if is_shown entries y then [y] else []) ++ (if decide (Some y = a) then [id] else []).
Proof using All.
  intros Hid Hs. induction l as [|y l IH]; [done|]. rewrite !bind_cons, List.filter_app.
  rewrite IH by set_solver. f_equal. assert (y ≠ id) as Hy by set_solver.
  assert (is_shown entries' y = is_shown entries y ∧ is_shown entries' id = true) as [E1 E2].
  { unfold is_shown, entries'. rewrite bt_get_insert, bt_get_insert_ne by done. done. }
  unfold graft. destruct (decide (Some y = a)); simpl; rewrite ?E1, ?E2;
    by destruct (is_shown entries y).
Qed.

(** Inserted at the head, a fresh element comes first; inserted after a
    visible element, it comes right after it; nothing else moves. *)
Lemma insert_visible_head : a = None → shown id e = true →
  visible_ids entries' = id :: visible_ids entries.
Proof using All.
  intros Hn Hs. rewrite !visible_order, insert_order by (done || apply insert_wf; done).
  rewrite Hn, List.filter_app, filter_graft by (done || apply insert_absent).
  simpl. unfold is_shown at 1, entries'. rewrite bt_get_insert. simpl. rewrite Hs. simpl. f_equal.
  generalize (order entries). intros l. induction l as [|y l IH]; [done|].
  rewrite bind_cons, IH, decide_False by congruence. simpl.
  by destruct (is_shown entries y).
Qed.
Lemma insert_visible_after x l1 l2 : a = Some x → shown id e = true →
  visible_ids entries = l1 ++ x :: l2 →
  visible_ids entries' = l1 ++ x :: id :: l2.
Proof using All.
  intros Hx Hs Hvis. pose proof (proj1 (visible_ids_spec entries Hw)) as Hnd.
  rewrite visible_order in * by (done || apply insert_wf; done).
  assert (is_shown entries x = true) as Hsx.
  { assert (x ∈ List.filter (is_shown entries) (order entries)) as Hin
      by (rewrite Hvis; set_solver).
    by apply list_elem_of_In, filter_In in Hin as [_ ?]. }
  rewrite insert_order, Hx. simpl.
  rewrite filter_graft by (done || apply insert_absent).
  assert (∀ l, (l ≫= λ y, (if is_shown entries y then [y] else []) ++
             (if decide (Some y = a) then [id] else [])) =
          List.filter (is_shown entries) l ≫= graft) as ->.
  { intros l. induction l as [|y l IH]; [done|]. rewrite bind_cons, IH. cbn [List.filter].
    destruct (decide (Some y = a)) as [Hy|Hy].
    - assert (y = x) as -> by congruence. rewrite Hsx, bind_cons.
      unfold graft at 2. by rewrite decide_True.
    - destruct (is_shown entries y); [|done]. rewrite bind_cons.
      unfold graft at 2. by rewrite decide_False. }
  rewrite Hvis in *. apply NoDup_app in Hnd as (_ & Hd1 & Hd2).
  apply NoDup_cons in Hd2 as [Hd2 _].
  rewrite bind_app, bind_cons. unfold graft at 2. rewrite decide_True by done. simpl.
  assert (∀ l, x ∉ l → l ≫= graft = l) as Hid.
  { intros l Hl. induction l as [|y l IH]; [done|]. rewrite bind_cons, IH by set_solver.
    unfold graft. rewrite decide_False; [done|]. intros Hy. apply Hl.
    assert (y = x) as -> by congruence. set_solver. }
  rewrite !Hid; [done|done|]. intros Hin. apply (Hd1 x Hin). set_solver.
Qed.
End Insert.

(** ** Updating an entry in place *)
Section Update.
  Variables (entries : btree Id Entry) (id : Id) (e e' : Entry).
Variable Hw : bt_wf entries.
Variable He : bt_get id entries = Some e.
Variable Hafter : after e' = after e.
Let entries' := bt_insert id e' entries.

Lemma update_siblings b : siblings b entries' = siblings b entries.
Proof using All.
  unfold siblings, ids_under, entries'. f_equal. clear -He Hafter Hw H0 EqDecision0.
  induction entries as [|[j w] m IH]; simpl in *; [done|]. destruct Hw as [HF Hm].
  revert He. destruct (cmpP id j) as [->|E1 E2|E1 E2]; intros He; simpl.
  - injection He as ->. by rewrite Hafter; case_match.
  - rewrite (bt_lt_get_None _ m) in He; [done|].
    eapply Forall_impl; [exact HF|]. intros [i v] Hi; simpl in *. ord.
  - specialize (IH Hm He). case_match; simpl; [f_equal|]; exact IH.
Qed.
Lemma update_order : order entries' = order entries.
Proof using All.
  unfold order. assert (length entries' = length entries) as ->.
  { unfold entries'. by rewrite (bt_insert_length_id _ e). }
  generalize (S (length entries)), (None (A:=Id)). intros n.
  induction n as [|n IH]; intros b; simpl; [done|]. rewrite update_siblings.
  apply Forall_bind_ext, Forall_forall. intros x _. by rewrite IH.
Qed.
(** Hiding an element takes it, and nothing else, out of the sequence. *)
Lemma update_hide : shown id e' = false →
  visible_ids entries' = List.filter (λ x, bool_decide (x ≠ id)) (visible_ids entries).
Proof using All.
  intros Hs. rewrite !visible_order by (done || by apply bt_wf_insert).
  rewrite update_order. generalize (order entries). intros l.
  assert (∀ y, is_shown entries' y = is_shown entries y && bool_decide (y ≠ id)) as Hsh.
  { intros y. unfold is_shown, entries'. rewrite bt_get_insert_dec.
    destruct (decide (y = id)) as [->|Hy]; simpl.
    - by rewrite Hs, (bool_decide_eq_false_2 (id ≠ id)), andb_false_r by tauto.
    - by rewrite (bool_decide_eq_true_2 (y ≠ id)), andb_true_r. }
  induction l as [|y l IH]; simpl; [done|]. rewrite IH, Hsh.
  destruct (is_shown entries y); simpl; [|done]. by destruct (bool_decide (y ≠ id)).
Qed.
End Update.
End Rga.
