(* ===== verification/MvRegister.v ===== *)
(** * Multi-value register: [zendb-types/src/crdt/values/mv_register.rs]

    An assignment removes the assignments its creator had observed; those it
    had not are kept side by side.  The type of values is a parameter: the
    register is instantiated at [Value] in [Value.v]. *)
From stdpp Require Import base numbers option sets list.
From S2P Require Import Prelude Order BTreeMap Merge Clocks Stamp.

Module MvRegister.
Section MvRegister.
Context `{L : Libp2p}.
Variable V : Type.

Record MvRegister := mkMvRegister {
  entries : btree EventStamp V;
  removed : btree EventStamp EventStamp;
}.
Definition default : MvRegister := mkMvRegister [] [].

Definition values (self : MvRegister) : list V := bt_values (entries self).

Inductive MvRegisterOp := Assign (value : V) (replaces : list EventStamp).
Inductive MvRegisterError := AssignmentConflict (id : EventStamp).

Definition assign (self : MvRegister) (value : V) : MvRegisterOp :=
  Assign value (bt_keys (entries self)).

Context `{EqDecision V}.

(** One iteration of the loop over [replaces]. *)
Definition replace_one (at_ : EventStamp) (s : MvRegister * bool) (replaced : EventStamp) :
    MvRegister * bool :=
  let '(self, changed) := s in
  let '(removed', changed) := raise_clock (removed self, changed) (replaced, at_) in
  (mkMvRegister (bt_remove replaced (entries self)) removed',
   changed || bt_contains replaced (entries self)).

Definition apply (self : MvRegister) (op : MvRegisterOp) (stamps : MergeStamps) :
    MvRegister * result MvRegisterError bool :=
  let stamps := incoming stamps in
  match op with
  | Assign value replaces =>
      if is_some_and (λ existing, negb (bool_decide (existing = value)))
           (bt_get stamps (entries self))
      then (self, Err (AssignmentConflict stamps))
      else
        let '(self, changed) := foldl (replace_one stamps) (self, false) replaces in
        if negb (bt_contains stamps (removed self))
        then (mkMvRegister (bt_insert stamps value (entries self)) (removed self),
              Ok (changed || negb (bt_contains stamps (entries self))))
        else (self, Ok changed)
  end.

(** The loop over the remote entries, which stops at the first conflict. *)
Fixpoint merge_values (removed : btree EventStamp EventStamp) (entries : btree EventStamp V)
    (remote : btree EventStamp V) (changed : bool) :
    btree EventStamp V * result MvRegisterError bool :=
  match remote with
  | [] => (entries, Ok changed)
  | (id, value) :: rest =>
      if bt_contains id removed then merge_values removed entries rest changed
      else match bt_get id entries with
           | Some existing =>
               if bool_decide (existing = value)
               then merge_values removed entries rest changed
               else (entries, Err (AssignmentConflict id))
           | None => merge_values removed (bt_insert id value entries) rest true
           end
  end.
(** The last loop takes the removed assignments out. *)
Definition drop_one (s : btree EventStamp V * bool) (id : EventStamp) :
    btree EventStamp V * bool :=
  (bt_remove id s.1, s.2 || bt_contains id s.1).

Definition merge (self remote : MvRegister) : MvRegister * result MvRegisterError bool :=
  let '(removed', changed) := raise_clocks (removed self) (removed remote) false in
  match merge_values removed' (entries self) (entries remote) changed with
  | (entries', Ok changed) =>
      let '(entries', changed) := foldl drop_one (entries', changed) (bt_keys removed') in
      (mkMvRegister entries' removed', Ok changed)
  | (entries', r) => (mkMvRegister entries' removed', r)
  end.

Definition max_stamp (self : MvRegister) : EventStamp :=
  foldl omax (foldl omax EventStamp_default (bt_keys (entries self))) (bt_values (removed self)).

(** ** Invariant: sorted maps, and no assignment is both kept and removed *)
Definition wf (self : MvRegister) : Prop :=
  bt_wf (entries self) ∧ bt_wf (removed self) ∧
  ∀ id, is_Some (bt_get id (entries self)) → bt_get id (removed self) = None.
(** Two replicas agree on the value of an assignment both hold. *)
Definition ok (a b : MvRegister) : Prop :=
  ∀ id v w, bt_get id (entries a) = Some v → bt_get id (entries b) = Some w → v = w.

(** ** Lemmas on the loops *)
Definition kept (removed : btree EventStamp EventStamp) (id : EventStamp) (o : option V) :=
  if bt_contains id removed then None else o.

Lemma merge_values_ok removed l r c :
  bt_wf r →
  (∀ id v w, bt_get id l = Some v → bt_get id r = Some w → v = w) →
  ∃ l', merge_values removed l r c =
    (l', Ok (c || existsb (λ p, negb (bt_contains p.1 removed) && negb (bt_contains p.1 l)) r)) ∧
    (bt_wf l → bt_wf l') ∧
    ∀ id, bt_get id l' = match bt_get id l with Some v => Some v | None => kept removed id (bt_get id r) end.
Proof.
  revert l c. induction r as [|[k w] r IH]; intros l c Hw Ho; simpl.
  { exists l. rewrite orb_false_r. split_and!; [done|done|]. intros id. unfold kept.
    destruct (bt_get id l); [done|]. by destruct (bt_contains id removed). }
  destruct Hw as [HF Hw]. pose proof (bt_lt_get_None _ _ HF) as Hk.
  assert (∀ id v w', bt_get id l = Some v → bt_get id r = Some w' → v = w') as Ho'.
  { intros id v w' H1 H2. eapply Ho; [done|]. simpl. destruct (cmp id k) eqn:E; try done.
    apply cmp_Eq in E. congruence. }
  destruct (bt_contains k removed) eqn:Er; simpl.
  - destruct (IH l c Hw Ho') as (l' & -> & Hw' & Hg). exists l'. split_and!; [done|done|].
    intros id. rewrite Hg. destruct (cmpP id k) as [->|E _|E _]; [|done..].
    unfold kept. by rewrite Er.
  - assert (bt_contains k l = is_some (bt_get k l)) as -> by done.
    destruct (bt_get k l) as [v|] eqn:El; simpl.
    + rewrite bool_decide_eq_true_2.
      2: { eapply Ho; [done|]. simpl. by rewrite cmp_refl. }
      destruct (IH l c Hw Ho') as (l' & -> & Hw' & Hg). exists l'. split_and!; [done|done|].
      intros id. rewrite Hg. destruct (cmpP id k) as [->|E _|E _]; [|done..].
      by rewrite El.
    + destruct (IH (bt_insert k w l) true Hw) as (l' & -> & Hw' & Hg).
      { intros id v w' H1 H2. rewrite bt_get_insert_dec in H1. case_decide; naive_solver. }
      exists l'. split_and!; [by rewrite orb_true_r|by auto with zen|].
      intros id. rewrite Hg, bt_get_insert_dec. case_decide as Hid; [subst id|].
      * rewrite El, cmp_refl. unfold kept. by rewrite Er.
      * destruct (cmp id k) eqn:E; [by apply cmp_Eq in E|done..].
Qed.

Lemma drop_one_eq l c k : drop_one (l, c) k = (bt_remove k l, c || bt_contains k l).
Proof. done. Qed.
Lemma drop_get ids l c id :
  bt_get id (foldl drop_one (l, c) ids).1 = if decide (id ∈ ids) then None else bt_get id l.
Proof.
  revert l c. induction ids as [|k ids IH]; intros l c; [done|].
  simpl foldl. rewrite drop_one_eq, IH. destruct (decide (id = k)) as [->|Hne].
  - rewrite bt_get_remove. repeat case_decide; set_solver.
  - rewrite bt_get_remove_ne by done. repeat case_decide; set_solver.
Qed.
Lemma drop_wf ids l c : bt_wf l → bt_wf (foldl drop_one (l, c) ids).1.
Proof.
  revert l c. induction ids as [|k ids IH]; intros l c Hl; [done|].
  simpl foldl. rewrite drop_one_eq. auto with zen.
Qed.
Lemma drop_changed ids l c :
  (foldl drop_one (l, c) ids).2 = c || existsb (λ id, bt_contains id l) ids.
Proof.
  revert l c. induction ids as [|k ids IH]; intros l c; simpl existsb; [by rewrite orb_false_r|].
  simpl foldl. rewrite drop_one_eq, IH, <- orb_assoc. f_equal.
  destruct (bt_contains k l) eqn:E; simpl; [done|].
  apply existsb_ext. intros id _. unfold bt_contains.
  destruct (decide (id = k)) as [->|Hne]; [|by rewrite bt_get_remove_ne].
  rewrite bt_get_remove. apply bt_contains_false in E. by rewrite E.
Qed.

(** ** Merging is a join *)
Definition either (o1 o2 : option V) : option V :=
  match o1 with Some v => Some v | None => o2 end.

Lemma merge_spec a b : wf a → wf b → ok a b →
  ∃ m c, merge a b = (m, Ok c) ∧ wf m ∧ removed m = max_join (removed a) (removed b) ∧
    (∀ id, bt_get id (entries m) =
       kept (removed m) id (either (bt_get id (entries a)) (bt_get id (entries b)))) ∧
    (c = false ↔ m = a).
Proof.
  intros (Hae & Har & Had) (Hbe & Hbr & Hbd) Ho. unfold merge.
  destruct (raise_clocks_join (removed a) (removed b) false Har Hbr) as (c1 & -> & Hc1).
  set (rm := max_join (removed a) (removed b)) in *. simpl orb.
  destruct (merge_values_ok rm (entries a) (entries b) c1 Hbe Ho) as (l & -> & Hl & Hg).
  specialize (Hl Hae).
  destruct (foldl drop_one _ _) as [l' c] eqn:Ed.
  assert (l' = (foldl drop_one (l, c1 || existsb (λ p, negb (bt_contains p.1 rm) &&
    negb (bt_contains p.1 (entries a))) (entries b)) (bt_keys rm)).1 ∧
    c = (foldl drop_one (l, c1 || existsb (λ p, negb (bt_contains p.1 rm) &&
    negb (bt_contains p.1 (entries a))) (entries b)) (bt_keys rm)).2) as [El' Ec] by (by rewrite Ed).
  clear Ed. rewrite drop_changed in Ec.
  assert (∀ id, bt_get id l' =
    kept rm id (either (bt_get id (entries a)) (bt_get id (entries b)))) as Hg'.
  { intros id. rewrite El', drop_get, Hg. unfold kept, either, bt_contains.
    case_decide as Hin; rewrite bt_elem_of_keys in Hin.
    - destruct Hin as [x Hx]. by rewrite Hx.
    - destruct (bt_get id rm); [exfalso; eauto|]. simpl.
      by destruct (bt_get id (entries a)), (bt_get id (entries b)). }
  eexists _, c. split; [done|]. simpl.
  assert (wf (mkMvRegister l' rm)) as Hwf.
  { split_and!; simpl; [rewrite El'; by apply drop_wf|by apply max_join_wf|].
    intros id [v Hv]. rewrite Hg' in Hv. unfold kept in Hv.
    destruct (bt_contains id rm) eqn:E; [done|]. by apply bt_contains_false. }
  split_and!; [done|done|done|]. rewrite Ec, !orb_false_iff, Hc1, !existsb_false. split.
  - intros ([Hr Hnew] & _). destruct a as [ea ra]; simpl in *. subst rm. f_equal; [|done].
    apply bt_ext; [apply Hwf|done|]. intros id. rewrite Hg', Hr. unfold kept, either.
    specialize (Had id). rewrite <- bt_contains_false in Had.
    destruct (bt_get id ea) as [v|] eqn:Ea; [by rewrite Had by eauto|].
    destruct (bt_contains id ra) eqn:Er; [done|].
    destruct (bt_get id (entries b)) as [w|] eqn:Eb; [|done].
    specialize (Hnew (id, w) (bt_get_In _ _ _ Eb)); simpl in Hnew.
    apply bt_contains_false in Ea. by rewrite Hr, Er, Ea in Hnew.
  - intros Hm. assert (rm = removed a ∧ l' = entries a) as [Hrm Hla] by (by rewrite <- Hm).
    split_and!; [done| |].
    + intros [id w] Hin; simpl. apply bt_In_get in Hin; [|done].
      specialize (Hg' id). rewrite Hla, Hin in Hg'. unfold kept, bt_contains in *.
      destruct (bt_get id rm); [done|]. by destruct (bt_get id (entries a)).
    + intros id Hin. apply bt_elem_of_keys in Hin as [x Hx].
      apply bt_contains_false. rewrite Hg. specialize (Hg' id).
      unfold kept, bt_contains in *. rewrite Hx in *. simpl in *. by rewrite <- Hla, Hg'.
Qed.

Lemma either_assoc o1 o2 o3 : either (either o1 o2) o3 = either o1 (either o2 o3).
Proof. by destruct o1. Qed.

#[export] Instance merge_laws : JoinLaws merge.
Proof.
  refine {| jl_wf := wf; jl_ok := ok; jl_join := λ a b, (merge a b).1 |}.
  - intros l r Hl Hr Ho. destruct (merge_spec l r Hl Hr Ho) as (m & c & Hm & _ & _ & _ & Hc).
    exists c. by rewrite Hm.
  - intros l r Hl Hr Ho. by destruct (merge_spec l r Hl Hr Ho) as (m & c & -> & ? & _).
  - intros l _ id v w. congruence.
  - intros l r Ho id v w H1 H2. symmetry. by eapply Ho.
  - intros a b c Ha Hb Hc Hab Hac Hbc id v w.
    destruct (merge_spec a b Ha Hb Hab) as (m & ch & -> & _ & _ & Hg & _). simpl. rewrite Hg.
    unfold kept, either. destruct (bt_contains id (removed m)); [done|].
    destruct (bt_get id (entries a)) eqn:Ea; [intros [= <-]; by apply Hac|by apply Hbc].
  - intros l r Hl Hr Ho.
    assert (ok r l) as Ho' by (intros id v w H1 H2; symmetry; by eapply Ho).
    destruct (merge_spec l r Hl Hr Ho) as ([e1 r1] & ? & -> & Hw1 & Er1 & Hg1 & _).
    destruct (merge_spec r l Hr Hl Ho') as ([e2 r2] & ? & -> & Hw2 & Er2 & Hg2 & _). simpl in *.
    assert (r1 = r2) as -> by (rewrite Er1, Er2; apply max_join_comm; [apply Hl|apply Hr]).
    f_equal. apply bt_ext; [apply Hw1|apply Hw2|]. intros id. rewrite Hg1, Hg2. f_equal.
    destruct (bt_get id (entries l)) eqn:E1, (bt_get id (entries r)) eqn:E2; simpl; try done.
    f_equal. by eapply Ho.
  - intros a b c Ha Hb Hc Hab Hac Hbc.
    destruct (merge_spec a b Ha Hb Hab) as (m1 & ? & -> & Hw1 & Er1 & Hg1 & _).
    destruct (merge_spec b c Hb Hc Hbc) as (m2 & ? & -> & Hw2 & Er2 & Hg2 & _). simpl.
    destruct (merge_spec m1 c Hw1 Hc) as ([e3 r3] & ? & -> & Hw3 & Er3 & Hg3 & _).
    { intros id v w. rewrite Hg1. unfold kept, either. destruct (bt_contains _ _); [done|].
      destruct (bt_get id (entries a)) eqn:Ea; [intros [= <-]; by apply Hac|by apply Hbc]. }
    destruct (merge_spec a m2 Ha Hw2) as ([e4 r4] & ? & -> & Hw4 & Er4 & Hg4 & _).
    { intros id v w Hv. rewrite Hg2. unfold kept, either. destruct (bt_contains _ _); [done|].
      destruct (bt_get id (entries b)) eqn:Eb; [intros [= <-]; by eapply Hab|by eapply Hac]. }
    simpl in *. assert (r3 = r4) as ->.
    { rewrite Er3, Er4, Er1, Er2. apply max_join_assoc; [apply Ha|apply Hb|apply Hc]. }
    f_equal. apply bt_ext; [apply Hw3|apply Hw4|]. intros id. rewrite Hg3, Hg4, Hg1, Hg2.
    assert (bt_contains id r4 = bt_contains id (removed a) || bt_contains id (removed b)
            || bt_contains id (removed c)) as Hr4.
    { rewrite Er4, Er2, !max_join_contains, orb_assoc; [done|apply Hb|apply Hc|apply Ha|].
      apply max_join_wf, Hb. }
    unfold kept. rewrite Hr4, Er1, Er2, !max_join_contains; [|apply Hb|apply Hc|apply Ha|apply Hb].
    destruct (bt_contains id (removed a)), (bt_contains id (removed b)),
      (bt_contains id (removed c)); simpl; try done. by rewrite either_assoc.
  - intros l Hl. destruct (merge_spec l l Hl Hl) as ([e1 r1] & c & -> & Hw & Er & Hg & _).
    { intros id v w. congruence. }
    destruct l as [el rl]; simpl in *.
    assert (r1 = rl) as -> by (rewrite Er; apply max_join_idemp, Hl).
    f_equal. apply bt_ext; [apply Hw|apply Hl|]. intros id. rewrite Hg. unfold kept.
    destruct (bt_get id el) as [v|] eqn:E; simpl; [|by case_match].
    destruct Hl as (_ & _ & Hd); simpl in Hd.
    by rewrite (proj2 (bt_contains_false (K := EventStamp) _ _) (Hd id ltac:(rewrite E; eauto))).
Defined.

(** ** Delivering assignments *)
Lemma replaces_get at_ reps s c :
  let '(s', _) := foldl (replace_one at_) (s, c) reps in
  (∀ id, bt_get id (entries s') = if decide (id ∈ reps) then None else bt_get id (entries s)) ∧
  (∀ id, bt_contains id (removed s') = bt_contains id (removed s) || bool_decide (id ∈ reps)) ∧
  (bt_wf (entries s) → bt_wf (entries s')) ∧ (bt_wf (removed s) → bt_wf (removed s')).
Proof.
  revert s c. induction reps as [|k reps IH]; intros s c.
  { simpl. split_and!; try done. intros id. by rewrite orb_false_r. }
  change (foldl (replace_one at_) (s, c) (k :: reps)) with
    (foldl (replace_one at_) (replace_one at_ (s, c) k) reps).
  assert (∃ rm c', raise_clock (removed s, c) (k, at_) = (rm, c')) as (rm & c' & Er)
    by (destruct (raise_clock _ _); eauto).
  unfold replace_one at 2. rewrite Er.
  apply (f_equal fst) in Er; simpl in Er.
  specialize (IH (mkMvRegister (bt_remove k (entries s)) rm) (c' || bt_contains k (entries s))).
  destruct (foldl _ _ reps) as [s' c'']. destruct IH as (He & Hr & Hwe & Hwr).
  split_and!.
  - intros id. rewrite He. simpl. destruct (decide (id = k)) as [->|Hne].
    + rewrite bt_get_remove. repeat case_decide; set_solver.
    + rewrite bt_get_remove_ne by done. repeat case_decide; set_solver.
  - intros id. rewrite Hr. simpl. rewrite <- Er. unfold bt_contains.
    rewrite raise_clock_get; simpl. destruct (decide (id = k)) as [->|Hne].
    + rewrite (bool_decide_eq_true_2 (k ∈ k :: reps)) by set_solver. rewrite orb_true_r.
      destruct (bt_get k (removed s)); rewrite ?omax_Some; done.
    + f_equal. apply bool_decide_ext. set_solver.
  - intros ?. apply Hwe. simpl. auto with zen.
  - intros ?. apply Hwr. simpl. rewrite <- Er. by apply raise_clock_wf.
Qed.

(** One assignment: its own value is kept unless it was already replaced,
    and the assignments it replaces are gone for good. *)
Lemma mv_apply_spec s value reps stamps :
  wf s → (∀ v, bt_get (incoming stamps) (entries s) = Some v → v = value) →
  ∃ s' c, apply s (Assign value reps) stamps = (s', Ok c) ∧ wf s' ∧
    (∀ id, bt_contains id (removed s') = bt_contains id (removed s) || bool_decide (id ∈ reps)) ∧
    (∀ id, bt_get id (entries s') = kept (removed s') id
       (if decide (id = incoming stamps) then Some value else bt_get id (entries s))).
Proof.
  intros (Hwe & Hwr & Hd) Hv. unfold apply. set (t := incoming stamps) in *.
  assert (is_some_and (λ existing, negb (bool_decide (existing = value)))
    (bt_get t (entries s)) = false) as ->.
  { destruct (bt_get t (entries s)) as [v|] eqn:E; simpl; [|done].
    by rewrite bool_decide_eq_true_2 by (by apply Hv). }
  pose proof (replaces_get t reps s false) as Hs.
  destruct (foldl _ _ reps) as [[e1 r1] c1]. destruct Hs as (He & Hr & Hwe1 & Hwr1).
  simpl in *. specialize (Hwe1 Hwe). specialize (Hwr1 Hwr).
  assert (∀ id, kept r1 id (bt_get id (entries s)) = bt_get id e1) as Hk.
  { intros id. rewrite He. unfold kept. rewrite Hr. case_decide as Hin.
    - by rewrite (bool_decide_eq_true_2 _ Hin), orb_true_r.
    - rewrite (bool_decide_eq_false_2 _ Hin), orb_false_r.
      destruct (bt_contains id (removed s)) eqn:E; [|done].
      destruct (bt_get id (entries s)) eqn:E'; [|done].
      apply bt_contains_get in E as [x Hx]. rewrite Hd in Hx by eauto. done. }
  assert (∀ id, is_Some (bt_get id e1) → bt_get id r1 = None) as Hd1.
  { intros id Hid. rewrite <- Hk in Hid. unfold kept in Hid.
    destruct (bt_contains id r1) eqn:E; [by destruct Hid|]. by apply bt_contains_false. }
  destruct (bt_contains t r1) eqn:Et; simpl; eexists _, _; (split; [done|]); simpl.
  - split_and!; [done|done|]. intros id. case_decide as Hid; [subst id|by rewrite Hk].
    unfold kept. rewrite Et, <- Hk. unfold kept. by rewrite Et.
  - split_and!; simpl.
    + split_and!; simpl; [by apply bt_wf_insert|done|].
      intros id. rewrite bt_get_insert_dec. case_decide as Hid; [|apply Hd1].
      subst id. intros _. by apply bt_contains_false.
    + done.
    + intros id. rewrite bt_get_insert_dec. case_decide as Hid; [subst id|by rewrite Hk].
      unfold kept. by rewrite Et.
Qed.

Definition deliver (s : result MvRegisterError MvRegister) (h : list (MvRegisterOp * EventStamp)) :=
  foldl (λ s p,
    s <-? s ;;
    let '(s', r) := apply s p.1 (mkMergeStamps EventStamp_default p.2) in rmap (λ _, s') r) s h.

Definition assigned (h : list (MvRegisterOp * EventStamp)) id v : Prop :=
  ∃ reps, (Assign v reps, id) ∈ h.
Definition replaced (h : list (MvRegisterOp * EventStamp)) id : Prop :=
  ∃ v reps t, (Assign v reps, t) ∈ h ∧ id ∈ reps.
(** Stamps identify assignments. *)
Definition functional (h : list (MvRegisterOp * EventStamp)) : Prop :=
  ∀ v w id, assigned h id v → assigned h id w → v = w.

Lemma mv_deliver_spec h : functional h →
  ∃ s, deliver (Ok default) h = Ok s ∧ wf s ∧
    (∀ id, bt_contains id (removed s) = true ↔ replaced h id) ∧
    (∀ id v, bt_get id (entries s) = Some v ↔ assigned h id v ∧ ¬ replaced h id).
Proof.
  induction h as [|[[value reps] t] h IH] using rev_ind; intros Hf.
  { exists default. split_and!; try done; intros id; unfold replaced, assigned.
    - split; [done|]. intros (?&?&?&Hin&_). by apply elem_of_nil in Hin.
    - intros v. split; [done|]. intros [(?&Hin) _]. by apply elem_of_nil in Hin. }
  destruct IH as (s & Hs & Hw & Hr & He).
  { intros v w id [r1 H1] [r2 H2]. apply (Hf v w id); eexists; apply elem_of_app; eauto. }
  destruct (mv_apply_spec s value reps (mkMergeStamps EventStamp_default t) Hw)
    as (s' & c & Hap & Hw' & Hr' & He').
  { simpl. intros v Hv. apply He in Hv as [[r1 H1] _].
    apply (Hf v value t); [exists r1|exists reps]; set_solver. }
  exists s'. unfold deliver in *. rewrite foldl_app, Hs. cbn [foldl rbind fst snd].
  rewrite Hap.
  assert (∀ id, bt_contains id (removed s') = true ↔
    replaced (h ++ [(Assign value reps, t)]) id) as Hrep.
  { intros id. rewrite Hr', orb_true_iff, Hr, bool_decide_eq_true.
    unfold replaced. setoid_rewrite elem_of_app. setoid_rewrite list_elem_of_singleton. naive_solver. }
  split_and!; [done|done|done|]. intros id v. rewrite He'. unfold kept.
  rewrite <- Hrep. simpl.
  destruct (bt_contains id (removed s')) eqn:Hc; [naive_solver|].
  assert (¬ replaced h id) as Hnr by (rewrite <- Hr; rewrite Hr' in Hc; by destruct (bt_contains _ _)).
  unfold assigned. setoid_rewrite elem_of_app. setoid_rewrite list_elem_of_singleton.
  case_decide as Hid.
  - subst id. split; [intros [= <-]; split; [|done]; eauto|].
    intros [[r1 [H1|[= -> ->]]] _]; [|done]. f_equal.
    apply (Hf value v t); [exists reps|exists r1]; set_solver.
  - rewrite He. unfold assigned. naive_solver.
Qed.

(** ** Properties *)

(** C31. The register is its history: whatever the order of delivery (and with
    repetitions), no delivery fails and the values kept are exactly those of
    the assignments that no delivered assignment replaces. *)
Theorem mv_register_history (h : list (MvRegisterOp * EventStamp)) :
  functional h →
  ∃ s, deliver (Ok default) h = Ok s ∧
    ∀ id v, bt_get id (entries s) = Some v ↔ assigned h id v ∧ ¬ replaced h id.
Proof. intros (s & ? & _ & _ & ?)%mv_deliver_spec. eauto. Qed.

(** Assigning through the register's own builder leaves one value. *)
Theorem mv_register_assign (s : MvRegister) (value : V) (stamps : MergeStamps) :
  wf s →
  bt_get (incoming stamps) (entries s) = None → bt_get (incoming stamps) (removed s) = None →
  ∃ s' changed, apply s (assign s value) stamps = (s', Ok changed) ∧ values s' = [value].
Proof.
  intros Hw He Hr. set (t := incoming stamps) in *.
  destruct (mv_apply_spec s value (bt_keys (entries s)) stamps Hw)
    as (s' & c & Hap & Hw' & Hr' & He'); [fold t; congruence|].
  exists s', c. split; [exact Hap|]. unfold values.
  assert (entries s' = [(t, value)]) as ->; [|done].
  apply bt_ext; [apply Hw'|by repeat constructor|]. intros id. rewrite He'. fold t.
  unfold kept. rewrite Hr'. simpl. destruct (decide (id = t)) as [->|Hne].
  - rewrite cmp_refl, (proj2 (bt_contains_false t (removed s)) Hr), bool_decide_eq_false_2; [done|].
    rewrite bt_elem_of_keys, He. by intros [].
  - destruct (cmp id t) eqn:Ec; [by apply cmp_Eq in Ec|..].
    all: destruct (bt_get id (entries s)) as [v|] eqn:Ei; [|by case_match].
    all: by rewrite (bool_decide_eq_true_2 (id ∈ _)), orb_true_r by (rewrite bt_elem_of_keys; eauto).
Qed.

(** Replicas that agree on the value of every assignment converge by state
    exchange. *)
Theorem mv_register_converges (a b c : MvRegister) :
  wf a → wf b → wf c → ok a b → ok a c → ok b c →
  (merge a b).1 = (merge b a).1 ∧
  (merge (merge a b).1 c).1 = (merge a (merge b c).1).1 ∧
  merge a a = (a, Ok false) ∧
  (∃ ch, (merge a b).2 = Ok ch ∧ (ch = false ↔ (merge a b).1 = a)).
Proof. intros. by apply (converges merge). Qed.
End MvRegister.
Arguments mkMvRegister {_ _} _ _.
Arguments entries {_ _} _.
Arguments removed {_ _} _.
Arguments Assign {_ _} _ _.
Arguments AssignmentConflict {_} _.
Arguments default {_ _}.
End MvRegister.
