(* ===== verification/PriorityQueue.v ===== *)
(** * Priority queue: [zendb-types/src/crdt/values/priority_queue.rs]

    Elements are identified by the stamp of their push; a pop names the
    element it takes.  A pop that arrives before its push leaves a pending
    entry. *)
From stdpp Require Import base numbers option sets list sorting.
From S2P Require Import Prelude Order BTreeMap Merge Clocks Stamp.

Module PriorityQueue.
Section PriorityQueue.
Context `{L : Libp2p}.
Variable V : Type.

Inductive PqEntry :=
  | PendingPop (deleted_at : EventStamp)
  | Present (priority : Z) (value : V) (deleted_at : option EventStamp).

Record PriorityQueue := mkPriorityQueue { entries : btree EventStamp PqEntry }.
Definition default : PriorityQueue := mkPriorityQueue [].

Definition live_entry (p : EventStamp * PqEntry) : option (Z * EventStamp * V) :=
  match p.2 with
  | Present priority value None => Some (priority, p.1, value)
  | _ => None
  end.
(** [pa.cmp(pb).then_with(|| ha.cmp(hb))], as a sort key. *)
Definition rank (x : Z * EventStamp * V) : Z * EventStamp := x.1.
Definition live (self : PriorityQueue) : list (Z * EventStamp * V) :=
  sort_by (λ x y, rank x <=? rank y) (omap live_entry (entries self)).

Inductive PqOp :=
  | Push (priority : Z) (value : V)
  | Pop (id : EventStamp).
Inductive PqError := PushConflict (id : EventStamp).

(** [Iterator::min]: the first of the least elements. *)
Definition iter_min {A} `{Cmp A} (l : list A) : option A :=
  match l with
  | [] => None
  | x :: l => Some (foldl (λ m y, if y <? m then y else m) x l)
  end.
Definition pop (self : PriorityQueue) : option PqOp :=
  (λ p, Pop p.2) <$> iter_min (map rank (omap live_entry (entries self))).

Context `{EqDecision V}.

Definition apply (self : PriorityQueue) (op : PqOp) (stamps : MergeStamps) :
    PriorityQueue * result PqError bool :=
  let stamps := incoming stamps in
  match op with
  | Push priority value =>
      match bt_get stamps (entries self) with
      | Some (Present existing_priority existing_value _) =>
          if negb (existing_priority =? priority)%Z || negb (bool_decide (existing_value = value))
          then (self, Err (PushConflict stamps))
          else (self, Ok false)
      | Some (PendingPop deleted_at) =>
          (mkPriorityQueue
             (bt_insert stamps (Present priority value (Some deleted_at)) (entries self)), Ok true)
      | None =>
          (mkPriorityQueue (bt_insert stamps (Present priority value None) (entries self)), Ok true)
      end
  | Pop id =>
      if stamps <=? id then (self, Ok false)
      else match bt_get id (entries self) with
           | Some (PendingPop deleted_at) =>
               let '(deleted_at, changed) := merge_required_clock deleted_at stamps in
               (mkPriorityQueue (bt_insert id (PendingPop deleted_at) (entries self)), Ok changed)
           | Some (Present priority value deleted_at) =>
               let '(deleted_at, changed) := merge_clock deleted_at (Some stamps) in
               (mkPriorityQueue (bt_insert id (Present priority value deleted_at) (entries self)),
                Ok changed)
           | None =>
               (mkPriorityQueue (bt_insert id (PendingPop stamps) (entries self)), Ok true)
           end
  end.

Definition merge_entry (id : EventStamp) (local remote : PqEntry) : PqEntry * result PqError bool :=
  match local, remote with
  | PendingPop l, PendingPop r =>
      let '(l, changed) := merge_required_clock l r in (PendingPop l, Ok changed)
  | PendingPop l, Present priority value deleted_at =>
      (Present priority value (merge_clock deleted_at (Some l)).1, Ok true)
  | Present priority value deleted_at, PendingPop r =>
      let '(deleted_at, changed) := merge_clock deleted_at (Some r) in
      (Present priority value deleted_at, Ok changed)
  | Present lp lv ld, Present rp rv rd =>
      if negb (lp =? rp)%Z || negb (bool_decide (lv = rv))
      then (local, Err (PushConflict id))
      else let '(ld, changed) := merge_clock ld rd in (Present lp lv ld, Ok changed)
  end.

Definition merge (self remote : PriorityQueue) : PriorityQueue * result PqError bool :=
  let '(m, r) := merge_loop merge_entry (entries self) (entries remote) false in
  (mkPriorityQueue m, r).

Definition max_stamp (self : PriorityQueue) : EventStamp :=
  foldl (λ max p,
      let deleted_at := match p.2 with
        | PendingPop deleted_at => deleted_at
        | Present _ _ deleted_at => from_option id EventStamp_default deleted_at
        end in
      omax (omax max p.1) deleted_at)
    EventStamp_default (entries self).

(** ** Merging is a join *)
Definition deletion (e : PqEntry) : option EventStamp :=
  match e with PendingPop d => Some d | Present _ _ d => d end.
Definition content (e : PqEntry) : option (Z * V) :=
  match e with PendingPop _ => None | Present p v _ => Some (p, v) end.
(** Two copies of an element agree on what was pushed. *)
Definition entry_ok (l r : PqEntry) : Prop :=
  ∀ x y, content l = Some x → content r = Some y → x = y.
Definition entry_join (l r : PqEntry) : PqEntry :=
  match l, r with
  | PendingPop c, PendingPop d => PendingPop (omax c d)
  | Present p v d, _ => Present p v (omax d (deletion r))
  | _, Present p v d => Present p v (omax d (deletion l))
  end.

(** An entry is its content and its deletion, which merge independently. *)
Lemma entry_ext l r : content l = content r → deletion l = deletion r → l = r.
Proof. destruct l, r; simpl; congruence. Qed.
Definition either {A} (o1 o2 : option A) : option A :=
  match o1 with Some v => Some v | None => o2 end.
Lemma content_join l r : content (entry_join l r) = either (content l) (content r).
Proof. by destruct l, r. Qed.
Lemma deletion_join l r : deletion (entry_join l r) = omax (deletion l) (deletion r).
Proof. destruct l, r; simpl; rewrite ?omax_Some; try done. apply omax_comm. Qed.

#[export] Instance entry_laws k : JoinLaws (merge_entry k).
Proof.
  refine {| jl_wf := λ _, True; jl_ok := entry_ok; jl_join := entry_join |}; try done.
  - intros [c|lp lv ld] [d|rp rv rd] _ _ Ho; unfold merge_entry.
    + rewrite merge_required_clock_omax. exists (d >? c). split; [done|].
      rewrite gtb_changed. simpl. split; [by intros ->|by intros [=]].
    + exists true. by rewrite merge_clock_omax.
    + rewrite merge_clock_omax. eexists; split; [done|]. rewrite gtb_changed. simpl.
      split; [by intros ->|by intros [=]].
    + specialize (Ho _ _ eq_refl eq_refl) as [= -> ->].
      rewrite Z.eqb_refl, bool_decide_eq_true_2, merge_clock_omax by done. simpl.
      eexists; split; [done|]. rewrite gtb_changed. split; [by intros ->|by intros [=]].
  - intros l _ x y. congruence.
  - intros l r Ho x y H1 H2. symmetry. by eapply Ho.
  - intros a b c _ _ _ Hab Hac Hbc x y. rewrite content_join.
    destruct (content a) eqn:Ea; simpl; [intros [= <-]; by apply Hac|by apply Hbc].
  - intros l r _ _ Ho. apply entry_ext; rewrite ?content_join, ?deletion_join.
    + destruct (content l) eqn:El, (content r) eqn:Er; simpl; try done. f_equal. by eapply Ho.
    + apply omax_comm.
  - intros a b c _ _ _ _ _ _. apply entry_ext; rewrite ?content_join, ?deletion_join.
    + by destruct (content a).
    + symmetry. apply omax_assoc.
  - intros l _. apply entry_ext; rewrite ?content_join, ?deletion_join, ?omax_idemp; [|done].
    by destruct (content l).
Defined.

Definition wf (self : PriorityQueue) : Prop := bt_wf (entries self).
Definition ok (a b : PriorityQueue) : Prop :=
  ∀ id l r, bt_get id (entries a) = Some l → bt_get id (entries b) = Some r → entry_ok l r.

Lemma pq_merge_entries a b :
  merge a b = (mkPriorityQueue (map_merge merge_entry (entries a) (entries b)).1,
               (map_merge merge_entry (entries a) (entries b)).2).
Proof. unfold merge, map_merge. by destruct (merge_loop _ _ _ _). Qed.
#[export] Instance pq_join : JoinLaws merge :=
  wrap_laws (map_merge merge_entry) mkPriorityQueue entries (λ _, eq_refl)
    (λ w, match w with mkPriorityQueue m => eq_refl end) merge (λ a b _ _ _, pq_merge_entries a b).
Lemma pq_wf_join a : wf a → jl_wf (JoinLaws:=pq_join) a.
Proof. by split. Qed.

(** ** The live elements *)
Let lower (x y : Z * EventStamp * V) : Prop := (rank x <=? rank y) = true.

Lemma elem_of_live (s : PriorityQueue) p id v : wf s →
  (p, id, v) ∈ live s ↔ bt_get id (entries s) = Some (Present p v None).
Proof.
  intros Hw. unfold live. rewrite sort_by_perm, list_elem_of_omap.
  rewrite bt_get_In_iff by done. split.
  - intros ([i e] & Hin & He). unfold live_entry in He; simpl in He.
    destruct e as [|q w []]; simplify_eq. done.
  - intros Hin. by exists (id, Present p v None).
Qed.
Lemma live_sorted s : StronglySorted lower (live s).
Proof.
  apply (sort_by_sorted (λ x y, rank x <=? rank y)).
  - intros a b. apply leb_total.
  - intros a b c. apply leb_trans.
Qed.
Lemma live_NoDup s : wf s → NoDup (live s).
Proof.
  intros Hw. unfold live. rewrite sort_by_perm. unfold wf in Hw.
  induction (entries s) as [|[k e] m IH]; simpl; [constructor|]. destruct Hw as [HF Hm].
  destruct (live_entry (k, e)) as [x|] eqn:E; [|by apply IH].
  constructor; [|by apply IH]. rewrite list_elem_of_omap. intros ([j w] & Hin & Hj).
  rewrite Forall_forall in HF. specialize (HF _ Hin); simpl in HF.
  unfold live_entry in *; simpl in *.
  destruct e as [|? ? []], w as [|? ? []]; simplify_eq. by rewrite cmp_refl in HF.
Qed.
Lemma live_same s x y : wf s → x ∈ live s → y ∈ live s → x.1.2 = y.1.2 → x = y.
Proof.
  destruct x as [[p i] v], y as [[q j] w]; simpl. intros Hw.
  rewrite !elem_of_live by done. intros H1 H2 ->. congruence.
Qed.
(** A sorted duplicate-free list with the same elements is the same list. *)
Lemma live_unique s l : wf s → NoDup l → StronglySorted lower l →
  (∀ x, x ∈ l ↔ x ∈ live s) → l = live s.
Proof.
  intros Hw Hnd Hs Hin. apply (StronglySorted_unique_strong lower); [|done|apply live_sorted|].
  - intros x y Hx Hy H1 H2. pose proof (leb_antisym _ _ H1 H2) as Hr. unfold rank in Hr.
    apply (live_same s); [done|by apply Hin|done|by rewrite Hr].
  - apply NoDup_Permutation; [done|by apply live_NoDup|done].
Qed.

Lemma iter_min_spec {A} `{TotalCmp A} (l : list A) (x : A) :
  foldl (λ m y, if y <? m then y else m) x l ∈ x :: l ∧
  ∀ y, y ∈ x :: l → (foldl (λ m y, if y <? m then y else m) x l <=? y) = true.
Proof.
  revert x. induction l as [|z l IH]; intros x; simpl.
  { split; [by left|]. intros y ->%list_elem_of_singleton. apply leb_refl. }
  destruct (IH (if z <? x then z else x)) as [H1 H2]. split.
  - destruct (z <? x); set_solver.
  - set (m := foldl _ _ l) in *. intros y Hy.
    assert ((m <=? (if z <? x then z else x)) = true) as Hm by (apply H2; by left).
    apply elem_of_cons in Hy as [->|[->|Hy]%elem_of_cons].
    + eapply leb_trans; [exact Hm|]. unfold ltb, leb. destruct (cmp z x) eqn:E; rewrite ?cmp_refl, ?E; done.
    + eapply leb_trans; [exact Hm|]. unfold ltb, leb.
      destruct (cmpP z x) as [->|E E'|E E']; rewrite ?cmp_refl, ?E'; done.
    + apply H2. by right.
Qed.
Lemma pop_head s : pop s = (λ x, Pop x.1.2) <$> head (live s).
Proof.
  unfold pop, live. pose proof (sort_by_perm (λ x y, rank x <=? rank y) (omap live_entry (entries s))) as Hp.
  pose proof (live_sorted s) as Hs. unfold live in Hs.
  revert Hp Hs. generalize (omap live_entry (entries s)). intros [|x l]; [done|].
  destruct (sort_by _ (x :: l)) as [|y k]; intros Hp Hs; [by apply Permutation_nil_cons in Hp|].
  simpl. f_equal. f_equal.
  destruct (iter_min_spec (map rank l) (rank x)) as [Hin Hle].
  set (m := foldl _ _ _) in *.
  assert (m = rank y) as ->; [|done].
  apply leb_antisym.
  - apply Hle. change (rank x :: map rank l) with (map rank (x :: l)).
    apply list_elem_of_fmap. exists y. split; [done|]. rewrite <- Hp. by left.
  - change (rank x :: map rank l) with (map rank (x :: l)) in Hin.
    apply list_elem_of_fmap in Hin as (z & -> & Hz). rewrite <- Hp in Hz.
    apply elem_of_cons in Hz as [->|Hz]; [apply leb_refl|].
    apply StronglySorted_cons in Hs as [Hf _]. rewrite Forall_forall in Hf. by apply Hf.
Qed.

(** ** Delivering pushes and pops *)
Definition content_at (s : PriorityQueue) id : option (Z * V) := bt_get id (entries s) ≫= content.
Definition popped_at (s : PriorityQueue) id : option EventStamp := bt_get id (entries s) ≫= deletion.

Ltac one_entry E :=
  split; intros ?; rewrite bt_get_insert_dec; case_decide; subst; rewrite ?E; simpl;
  rewrite ?omax_Some; naive_solver eauto.

Lemma pq_apply_spec s op stamps : wf s →
  (∀ p v x, op = Push p v → content_at s (incoming stamps) = Some x → x = (p, v)) →
  ∃ s' c, apply s op stamps = (s', Ok c) ∧ wf s' ∧
    (∀ id, content_at s' id = match op with
      | Push p v => if decide (id = incoming stamps) then Some (p, v) else content_at s id
      | Pop _ => content_at s id end) ∧
    (∀ id, is_Some (popped_at s' id) ↔
      is_Some (popped_at s id) ∨ (op = Pop id ∧ (incoming stamps >? id) = true)).
Proof.
  intros Hw Hp. unfold content_at, popped_at in *. destruct op as [p v|i]; unfold apply.
  - specialize (Hp p v). destruct (bt_get (incoming stamps) (entries s)) as [[d|q w d]|] eqn:E.
    + eexists _, _. split; [done|]. split; [by apply bt_wf_insert|]. simpl. one_entry E.
    + specialize (Hp _ eq_refl eq_refl) as [= -> ->].
      rewrite Z.eqb_refl, bool_decide_eq_true_2 by done. simpl.
      eexists _, _. split; [done|]. split; [done|]. split; intros id; [|naive_solver].
      case_decide; subst; [by rewrite E|done].
    + eexists _, _. split; [done|]. split; [by apply bt_wf_insert|]. simpl. one_entry E.
  - rewrite leb_gtb. destruct (incoming stamps >? i) eqn:G; cbn [negb].
    + destruct (bt_get i (entries s)) as [[d|q w d]|] eqn:E;
        rewrite ?merge_required_clock_omax, ?merge_clock_omax;
        eexists _, _; (split; [done|]); (split; [by apply bt_wf_insert|]); simpl.
      * one_entry E.
      * destruct d; one_entry E.
      * one_entry E.
    + eexists _, _. split; [done|]. split; [done|]. split; [done|]. intros id.
      split; [by left|]. intros [?|[[= <-] ?]]; [done|congruence].
Qed.

Definition deliver (s : result PqError PriorityQueue) (h : list (PqOp * EventStamp)) :=
  foldl (λ s p,
    s <-? s ;;
    let '(s', r) := apply s p.1 (mkMergeStamps EventStamp_default p.2) in rmap (λ _, s') r) s h.
(** Stamps identify pushes. *)
Definition functional (h : list (PqOp * EventStamp)) : Prop :=
  ∀ p v q w id, (Push p v, id) ∈ h → (Push q w, id) ∈ h → p = q ∧ v = w.
Definition popped (h : list (PqOp * EventStamp)) id : Prop :=
  ∃ at_, (Pop id, at_) ∈ h ∧ (at_ >? id) = true.

Lemma pq_deliver_spec h : functional h →
  ∃ s, deliver (Ok default) h = Ok s ∧ wf s ∧
    (∀ id p v, content_at s id = Some (p, v) ↔ (Push p v, id) ∈ h) ∧
    (∀ id, is_Some (popped_at s id) ↔ popped h id).
Proof.
  induction h as [|[op t] h IH] using rev_ind; intros Hf.
  { exists default. unfold content_at, popped_at, popped; simpl. split_and!; try done.
    - intros id p v. rewrite elem_of_nil. naive_solver.
    - intros id. setoid_rewrite elem_of_nil. split; [by intros []|naive_solver]. }
  destruct IH as (s & Hs & Hw & Hc & Hd).
  { intros p v q w id H1 H2. apply (Hf p v q w id); set_solver. }
  destruct (pq_apply_spec s op (mkMergeStamps EventStamp_default t) Hw)
    as (s' & c & Hap & Hw' & Hc' & Hd').
  { simpl. intros p v [q w] -> Hq. apply Hc in Hq.
    destruct (Hf p v q w t) as [-> ->]; set_solver. }
  exists s'. unfold deliver in *. rewrite foldl_app, Hs. cbn [foldl rbind fst snd].
  rewrite Hap. split_and!; [done|done| |].
  - intros id p v. rewrite Hc', elem_of_app, list_elem_of_singleton. simpl.
    destruct op as [q w|i].
    + case_decide as Hid; [subst id|rewrite Hc; naive_solver].
      split; [intros [= -> ->]; by right|]. intros [Hin|[= -> ->]]; [|done].
      destruct (Hf q w p v t) as [-> ->]; [set_solver..|done].
    + rewrite Hc. naive_solver.
  - intros id. rewrite Hd', Hd. unfold popped. setoid_rewrite elem_of_app.
    setoid_rewrite list_elem_of_singleton. simpl. naive_solver.
Qed.

(** ** Properties *)

(** C32. The queue is its history: whatever the order of delivery, no delivery
    fails, the live elements are the pushes that no (later stamped) pop
    names, and they are listed by priority, then by stamp. *)
Theorem pq_history (h : list (PqOp * EventStamp)) :
  functional h →
  ∃ s, deliver (Ok default) h = Ok s ∧
    (∀ p id v, (p, id, v) ∈ live s ↔ (Push p v, id) ∈ h ∧ ¬ popped h id) ∧
    StronglySorted (λ x y, (rank x <=? rank y) = true) (live s).
Proof.
  intros (s & Hs & Hw & Hc & Hd)%pq_deliver_spec. exists s. split_and!; [done| |apply live_sorted].
  intros p id v. rewrite elem_of_live, <- Hc, <- Hd by done. unfold content_at, popped_at.
  destruct (bt_get id (entries s)) as [[d|q w [d|]]|]; simpl; naive_solver.
Qed.

(** [pop] names the least live element, and applying the operation removes
    exactly that element. *)
Theorem pq_pop (s : PriorityQueue) :
  wf s →
  match live s with
  | [] => pop s = None
  | (p, id, v) :: rest =>
      pop s = Some (Pop id) ∧
      ∀ stamps, (incoming stamps >? id) = true →
        ∃ s', apply s (Pop id) stamps = (s', Ok true) ∧ live s' = rest
  end.
Proof.
  intros Hw. rewrite pop_head. destruct (live s) as [|[[p id] v] rest] eqn:El; [done|].
  split; [done|]. intros stamps Ht. unfold apply. rewrite leb_gtb, Ht. simpl.
  assert (bt_get id (entries s) = Some (Present p v None)) as Hid.
  { apply elem_of_live; [done|]. rewrite El. by left. }
  rewrite Hid. simpl. eexists. split; [done|]. symmetry.
  pose proof (live_NoDup s Hw) as Hnd. pose proof (live_sorted s) as Hs.
  rewrite El in Hnd, Hs. apply NoDup_cons in Hnd as [Hni Hnd].
  apply StronglySorted_cons in Hs as [_ Hs].
  apply live_unique; [by apply bt_wf_insert|done|done|]. intros [[q j] w].
  rewrite elem_of_live by (by apply bt_wf_insert). simpl. rewrite bt_get_insert_dec.
  assert ((q, j, w) ∈ live s ↔ (q, j, w) = (p, id, v) ∨ (q, j, w) ∈ rest) as Hin
    by (by rewrite El, elem_of_cons).
  rewrite elem_of_live in Hin by done. case_decide as Hj.
  - subst j. split; [|done]. intros Hr. exfalso. rewrite Hid in Hin.
    destruct Hin as [_ Hin]. specialize (Hin (or_intror Hr)). simplify_eq. done.
  - rewrite Hin. split; [by right|]. intros [?|?]; [simplify_eq|done].
Qed.

(** Replicas that agree on every push converge by state exchange. *)
Theorem pq_converges (a b c : PriorityQueue) :
  wf a → wf b → wf c → ok a b → ok a c → ok b c →
  (merge a b).1 = (merge b a).1 ∧
  (merge (merge a b).1 c).1 = (merge a (merge b c).1).1 ∧
  merge a a = (a, Ok false) ∧
  (∃ ch, (merge a b).2 = Ok ch ∧ (ch = false ↔ (merge a b).1 = a)).
Proof. intros. apply (converges merge); auto using pq_wf_join. Qed.
End PriorityQueue.
Arguments mkPriorityQueue {_ _} _.
Arguments entries {_ _} _.
Arguments PendingPop {_ _} _.
Arguments Present {_ _} _ _ _.
Arguments Push {_ _} _ _.
Arguments Pop {_ _} _.
Arguments PushConflict {_} _.
Arguments default {_ _}.
End PriorityQueue.
