(* ===== verification/Text.v ===== *)
(** * Collaborative text: [zendb-types/src/crdt/values/text.rs]

    A character is identified by the stamp of the insert operation and its
    offset in the inserted string.  The visible sequence is the walk of
    [Rga.v]; characters carry formatting attributes with last-writer-wins
    stamps. *)
From stdpp Require Import base numbers option sets list sorting.
From S2P Require Import Prelude Order BTreeMap Merge Clocks Stamp Rga.

Module Text.
(** Stable character identity: the stamp of the insert and the offset. *)
Abbreviation TextId := (EventStamp * Z)%type.

Section Text.
Context `{L : Libp2p}.
Variable V : Type.

Record TextContent := mkContent { after : option TextId; character : rchar }.
#[export] Instance TextContent_eq_dec : EqDecision TextContent.
Proof using Type. solve_decision. Defined.
Local Abbreviation attrs_map := (btree rstring (option V * EventStamp)).
Record TextEntry := mkTextEntry {
  content : option TextContent;
  deleted_at : option EventStamp;
  attrs : attrs_map;
}.
Definition inserted (after : option TextId) (character : rchar) : TextEntry :=
  mkTextEntry (Some (mkContent after character)) None [].
Definition placeholder (deleted_at : option EventStamp) : TextEntry :=
  mkTextEntry None deleted_at [].

Record Text := mkText { entries : btree TextId TextEntry }.
Definition default : Text := mkText [].

Definition entry_after (e : TextEntry) : option (option TextId) := after <$> content e.
Definition entry_shown (id : TextId) (e : TextEntry) : bool :=
  is_some (content e) && is_none_or (λ deleted, id.1 >? deleted) (deleted_at e).
Definition visible_ids (self : Text) : list TextId :=
  Rga.visible_ids entry_after entry_shown (entries self).
Definition id_at (self : Text) (index : nat) : option TextId := visible_ids self !! index.
Definition character_of (self : Text) (id : TextId) : option rchar :=
  bt_get id (entries self) ≫= λ entry, character <$> content entry.
Definition string (self : Text) : rstring := omap (character_of self) (visible_ids self).
Definition format_at (self : Text) (index : nat) : option (btree rstring V) :=
  id ← id_at self index;
  entry ← bt_get id (entries self);
  Some (bt_from_iter (omap (λ p, (λ value, (p.1, value)) <$> p.2.1) (attrs entry))).

Inductive TextOp :=
  | Insert (after : option TextId) (text : rstring)
  | Delete (ids : list TextId)
  | Format (ids : list TextId) (key : rstring) (value : option V).
Inductive TextError :=
  | ZeroClock | ZeroId | SelfAnchor | TooLong
  | InsertConflict (id : TextId) | FormatTargetUnknown (id : TextId).

(** [iter().position(|candidate| *candidate == id).ok_or(..)]. *)
Definition position (visible : list TextId) (bound : option TextId) (none : nat) :
    result TextError nat :=
  match bound with
  | None => Ok none
  | Some id =>
      match list_find (λ candidate, candidate = id) visible with
      | Some (i, _) => Ok i
      | None => Err (FormatTargetUnknown id)
      end
  end.
Definition format (self : Text) (start end_ : option TextId) (key : rstring) (value : option V) :
    result TextError TextOp :=
  let visible := visible_ids self in
  start_index <-? position visible start 0 ;;
  end_index <-? position visible end_ (length visible) ;;
  Ok (Format (take (Nat.max end_index start_index - start_index) (drop start_index visible))
        key value).

(** The conflict check of an insert: the first entry of the operation whose
    content is not what the operation writes there. *)
Definition insert_conflict (stamps : EventStamp) (after_ : option TextId) (characters : rstring)
    (p : TextId * TextEntry) : bool :=
  let '(id, entry) := p in
  bool_decide (id.1 = stamps) &&
  match content entry with
  | None => false
  | Some content =>
      let offset := id.2 in
      let expected_after := if (offset =? 0)%Z then after_ else Some (stamps, (offset - 1)%Z) in
      let expected_character := characters !! Z.to_nat offset in
      (Z.of_nat (length characters) <=? offset)%Z
      || negb (bool_decide (after content = expected_after))
      || negb (bool_decide (Some (character content) = expected_character))
  end.

(** The insertion loop over [characters.into_iter().enumerate()]. *)
Fixpoint insert_characters (stamps : EventStamp) (offset : Z) (previous : option TextId)
    (characters : rstring) (entries : btree TextId TextEntry) (changed : bool) :
    btree TextId TextEntry * bool :=
  match characters with
  | [] => (entries, changed)
  | character :: rest =>
      let id : TextId := (stamps, offset) in
      let '(entries, changed) :=
        match bt_get id entries with
        | Some entry =>
            if is_none (content entry)
            then (bt_insert id (mkTextEntry (Some (mkContent previous character))
                    (deleted_at entry) (attrs entry)) entries, true)
            else (entries, changed)
        | None => (bt_insert id (inserted previous character) entries, true)
        end in
      insert_characters stamps (offset + 1) (Some id) rest entries changed
  end.

Definition delete_one (stamps : EventStamp) (s : btree TextId TextEntry * bool) (id : TextId) :
    btree TextId TextEntry * bool :=
  let '(entries, changed) := s in
  if stamps <=? id.1 then (entries, changed)
  else match bt_get id entries with
       | Some entry =>
           let '(deleted, c) := merge_clock (deleted_at entry) (Some stamps) in
           (bt_insert id (mkTextEntry (content entry) deleted (attrs entry)) entries, changed || c)
       | None => (bt_insert id (placeholder (Some stamps)) entries, true)
       end.

Definition format_one (stamps : EventStamp) (key : rstring) (value : option V)
    (s : btree TextId TextEntry * bool) (id : TextId) : btree TextId TextEntry * bool :=
  let '(entries, changed) := s in
  let entry := from_option (λ e, e) (placeholder None) (bt_get id entries) in
  let should_update :=
    match bt_get key (attrs entry) with
    | Some (_, existing_stamp) => stamps >? existing_stamp
    | None => true
    end in
  if should_update
  then (bt_insert id (mkTextEntry (content entry) (deleted_at entry)
          (bt_insert key (value, stamps) (attrs entry))) entries, true)
  else (bt_insert id entry entries, changed).

Definition zero_id (id : TextId) : bool := bool_decide (id.1 = EventStamp_default).

Definition apply (self : Text) (op : TextOp) (stamps : MergeStamps) : Text * result TextError bool :=
  let stamps := incoming stamps in
  if bool_decide (stamps = EventStamp_default) then (self, Err ZeroClock)
  else match op with
  | Insert after_ text =>
      if is_some_and zero_id after_ then (self, Err ZeroId)
      else if is_some_and (λ id, bool_decide (id.1 = stamps)) after_ then (self, Err SelfAnchor)
      else if (u32_max <? Z.of_nat (length text))%Z then (self, Err TooLong)
      else match List.find (insert_conflict stamps after_ text) (entries self) with
           | Some (id, _) => (self, Err (InsertConflict id))
           | None =>
               let '(entries, changed) :=
                 insert_characters stamps 0 after_ text (entries self) false in
               (mkText entries, Ok changed)
           end
  | Delete ids =>
      if existsb zero_id ids then (self, Err ZeroId)
      else let '(entries, changed) := foldl (delete_one stamps) (entries self, false) ids in
           (mkText entries, Ok changed)
  | Format ids key value =>
      if existsb zero_id ids then (self, Err ZeroId)
      else let '(entries, changed) := foldl (format_one stamps key value) (entries self, false) ids in
           (mkText entries, Ok changed)
  end.

Definition merge_attr (s : attrs_map * bool) (p : rstring * (option V * EventStamp)) :
    attrs_map * bool :=
  let '(key, (remote_value, remote_stamp)) := p in
  match bt_get key s.1 with
  | Some (_, local_stamp) =>
      if remote_stamp <=? local_stamp then s
      else (bt_insert key (remote_value, remote_stamp) s.1, true)
  | None => (bt_insert key (remote_value, remote_stamp) s.1, true)
  end.
Definition merge_entry (id : TextId) (local remote : TextEntry) : TextEntry * result TextError bool :=
  let '(content', c1) :=
    if is_none (content local) && is_some (content remote)
    then (content remote, true) else (content local, false) in
  let '(deleted', c2) := merge_clock (deleted_at local) (deleted_at remote) in
  let '(attrs', c3) := foldl merge_attr (attrs local, false) (attrs remote) in
  (mkTextEntry content' deleted' attrs', Ok (c1 || (c2 || c3))).

(** The validation pass of [merge]: the first character both sides hold with
    different content. *)
Definition merge_conflict (self : Text) (p : TextId * TextEntry) : bool :=
  match bt_get p.1 (entries self) with
  | None => false
  | Some local =>
      match content local, content p.2 with
      | Some l, Some r => negb (bool_decide (l = r))
      | _, _ => false
      end
  end.
Definition merge (self remote : Text) : Text * result TextError bool :=
  match List.find (merge_conflict self) (entries remote) with
  | Some (id, _) => (self, Err (InsertConflict id))
  | None =>
      let '(m, r) := merge_loop merge_entry (entries self) (entries remote) false in
      (mkText m, r)
  end.

Definition max_stamp (self : Text) : EventStamp :=
  foldl (λ max p,
      let entry_max := foldl omax EventStamp_default (map (λ v, v.2) (bt_values (attrs p.2))) in
      omax max (omax (omax p.1.1 (from_option (λ d, d) EventStamp_default (deleted_at p.2))) entry_max))
    EventStamp_default (entries self).

(** ** Merging is a join *)
Definition attr_stamp (a : option V * EventStamp) : EventStamp := a.2.
Definition attr_body (k : rstring) : _ → _ → _ * result TextError bool := lww_body attr_stamp.
#[export] Instance attr_laws k : JoinLaws (attr_body k) := lww_laws attr_stamp.

Lemma merge_attr_merge l r c : bt_wf l →
  (λ p : attrs_map * bool, (p.1, Ok p.2)) (foldl merge_attr (l, c) r) = merge_loop attr_body l r c.
Proof.
  revert l c. induction r as [|[k [v t]] r IH]; intros l c Hl; [done|].
  change (foldl merge_attr (l, c) ((k, (v, t)) :: r)) with
    (foldl merge_attr (merge_attr (l, c) (k, (v, t))) r).
  assert (merge_attr (l, c) (k, (v, t)) =
    match bt_get k l with
    | Some (_, u) => if t <=? u then (l, c) else (bt_insert k (v, t) l, true)
    | None => (bt_insert k (v, t) l, true)
    end) as -> by done.
  simpl merge_loop.
  destruct (bt_get k l) as [[w u]|] eqn:E; [|by apply IH, bt_wf_insert].
  unfold attr_body at 1, lww_body, attr_stamp. simpl snd.
  destruct (t <=? u); [|rewrite orb_true_r; by apply IH, bt_wf_insert].
  rewrite orb_false_r, bt_insert_id by done. by apply IH.
Qed.

Definition content_body := fill_body (V:=TextContent) (E:=TextError).
Definition deleted_body := max_body (C:=option EventStamp) (E:=TextError).
Definition attrs_body := map_merge attr_body.
Definition tail_merge (a b : option EventStamp * attrs_map) :
    (option EventStamp * attrs_map) * result TextError bool :=
  (((deleted_body a.1 b.1).1, (attrs_body a.2 b.2).1),
   c1 <-? (deleted_body a.1 b.1).2 ;; c2 <-? (attrs_body a.2 b.2).2 ;; Ok (c1 || c2)).
#[export] Instance tail_laws : JoinLaws tail_merge.
Proof.
  refine (pair_laws deleted_body attrs_body tail_merge _).
  intros a b c1 c2 E1 E2. unfold tail_merge. by rewrite E1, E2.
Defined.
Definition parts_merge (a b : option TextContent * (option EventStamp * attrs_map)) :
    (option TextContent * (option EventStamp * attrs_map)) * result TextError bool :=
  (((content_body a.1 b.1).1, (tail_merge a.2 b.2).1),
   c1 <-? (content_body a.1 b.1).2 ;; c2 <-? (tail_merge a.2 b.2).2 ;; Ok (c1 || c2)).
#[export] Instance parts_laws : JoinLaws parts_merge.
Proof.
  refine (pair_laws content_body tail_merge parts_merge _).
  intros a b c1 c2 E1 E2. unfold parts_merge. by rewrite E1, E2.
Defined.
Let parts (e : TextEntry) := (content e, (deleted_at e, attrs e)).
Let of_parts (p : option TextContent * (option EventStamp * attrs_map)) :=
  mkTextEntry p.1 p.2.1 p.2.2.

Lemma merge_entry_parts k l r : bt_wf (attrs l) →
  merge_entry k l r = (of_parts (parts_merge (parts l) (parts r)).1,
                       (parts_merge (parts l) (parts r)).2).
Proof.
  intros Hl. unfold merge_entry, parts_merge, tail_merge, parts, of_parts; simpl.
  unfold attrs_body, map_merge. rewrite <- merge_attr_merge by done.
  rewrite merge_clock_omax. unfold deleted_body, max_body. rewrite omax_case.
  destruct (foldl merge_attr _ _) as [at' c3].
  destruct (content l), (content r), (deleted_at r >? deleted_at l); done.
Qed.
#[export] Instance entry_laws k : JoinLaws (merge_entry k).
Proof.
  refine (wrap_laws (J:=parts_laws) parts_merge of_parts parts _ _ _ _).
  - by intros [? []].
  - by intros [].
  - intros a b (_ & _ & Ha & _) _ _. by apply merge_entry_parts.
Defined.

Definition wf (self : Text) : Prop :=
  bt_wf (entries self) ∧ ∀ id e, bt_get id (entries self) = Some e → bt_wf (attrs e).
(** Two replicas agree on the inserts both hold, and on the attributes that
    carry the same stamp. *)
Definition entry_ok (l r : TextEntry) : Prop :=
  (∀ v w, content l = Some v → content r = Some w → v = w) ∧
  (∀ k v w, bt_get k (attrs l) = Some v → bt_get k (attrs r) = Some w → v.2 = w.2 → v = w).
Definition ok (a b : Text) : Prop :=
  ∀ id l r, bt_get id (entries a) = Some l → bt_get id (entries b) = Some r → entry_ok l r.

Let inner := map_merge merge_entry.
Lemma text_merge_entries a b :
  wf b → ok a b → merge a b = (mkText (inner (entries a) (entries b)).1,
                               (inner (entries a) (entries b)).2).
Proof.
  intros [Hb _] Ho. unfold merge, inner, map_merge.
  assert (List.find (merge_conflict a) (entries b) = None) as ->.
  { destruct (List.find _ _) as [[id r]|] eqn:E; [|done].
    apply List.find_some in E as [Hin Hc]. apply list_elem_of_In in Hin.
    apply bt_In_get in Hin; [|done]. unfold merge_conflict in Hc; simpl in Hc.
    destruct (bt_get id (entries a)) as [l|] eqn:El; [|done].
    destruct (Ho _ _ _ El Hin) as [Hcont _].
    destruct (content l) eqn:E1, (content r) eqn:E2; try done.
    by rewrite (Hcont _ _ eq_refl eq_refl), bool_decide_eq_true_2 in Hc. }
  by destruct (merge_loop _ _ _ _).
Qed.
Lemma text_wf_join a : wf a → jl_wf (JoinLaws:=map_join_laws merge_entry) (entries a).
Proof. intros [Hw He]. split; [done|]. intros k e Hk. repeat split; by eapply He. Qed.
Lemma join_wf a : jl_wf (JoinLaws:=map_join_laws merge_entry) (entries a) → wf a.
Proof. intros [Hw He]. split; [done|]. intros k e Hk. by destruct (He _ _ Hk) as (_ & _ & ? & _). Qed.
Lemma text_ok_join a b : ok a b ↔ jl_ok (JoinLaws:=map_join_laws merge_entry) (entries a) (entries b).
Proof.
  split; intros Ho id l r Hl Hr.
  - destruct (Ho id l r Hl Hr) as [H1 H2]. split; [done|]. split; [done|exact H2].
  - destruct (Ho id l r Hl Hr) as (H1 & _ & H2). by split.
Qed.
#[export] Instance text_join : JoinLaws merge.
Proof.
  refine (wrap_laws inner mkText entries _ _ merge _); [done|by intros []|].
  intros a b _ Hb Ho. apply text_merge_entries; [by apply join_wf|by apply text_ok_join].
Defined.

(** ** Inserting *)

(** [stamps] is newer than everything the text knows of. *)
Definition newer (stamps : EventStamp) (self : Text) : Prop :=
  ∀ id e, bt_get id (entries self) = Some e →
    cmp id.1 stamps = Lt ∧
    ∀ c x, content e = Some c → after c = Some x → cmp x.1 stamps = Lt.

Fixpoint char_ids (stamps : EventStamp) (k : Z) (characters : rstring) : list TextId :=
  match characters with
  | [] => []
  | _ :: rest => (stamps, k) :: char_ids stamps (k + 1) rest
  end.
Local Abbreviation visible := (Rga.visible_ids entry_after entry_shown).

Lemma elem_of_char_ids stamps k cs id :
  id ∈ char_ids stamps k cs → id.1 = stamps ∧ (k ≤ id.2)%Z.
Proof.
  revert k. induction cs as [|c cs IH]; intros k; simpl; [by rewrite elem_of_nil|].
  rewrite elem_of_cons. intros [->|Hin]; simpl; [split; [done|lia]|].
  apply IH in Hin as [? ?]. split; [done|lia].
Qed.

(** The operation's identities from [k] on are unused. *)
Definition unused_from (stamps : EventStamp) (k : Z) (m : btree TextId TextEntry) : Prop :=
  Forall (λ p, cmp p.1 (stamps, k) = Lt) m ∧
  ∀ id e j, bt_get id m = Some e → (k ≤ j)%Z → entry_after e ≠ Some (Some (stamps, j)).
Definition anchored (stamps : EventStamp) (k : Z) (previous : option TextId) (l : list TextId) : Prop :=
  match previous with
  | None => l = []
  | Some x => last l = Some x ∧ ∀ j, (k ≤ j)%Z → x ≠ (stamps, j)
  end.

Lemma unused_insert stamps k previous c m :
  bt_wf m → unused_from stamps k m → (∀ j, (k ≤ j)%Z → previous ≠ Some (stamps, j)) →
  unused_from stamps (k + 1) (bt_insert (stamps, k) (inserted previous c) m).
Proof.
  intros Hw [Hk Ha] Hp. split.
  - apply bt_Forall_insert.
    + unfold cmp, prod_cmp. simpl. rewrite cmp_refl. simpl.
      unfold cmp, Z_cmp. apply Z.compare_lt_iff. lia.
    + eapply Forall_impl; [exact Hk|]. intros [id e]; simpl.
      assert (cmp (stamps, k) (stamps, (k + 1)%Z) = Lt) as Hlt.
      { unfold cmp, prod_cmp. simpl. rewrite cmp_refl. simpl.
        unfold cmp, Z_cmp. apply Z.compare_lt_iff. lia. }
      intros H1. ord.
  - intros id e j. rewrite bt_get_insert_dec. case_decide.
    + intros [= <-] Hj. unfold entry_after. simpl. intros [=]. by apply (Hp j); [lia|].
    + intros Hg Hj. apply (Ha id); [done|lia].
Qed.

Lemma insert_characters_visible stamps cs k previous m l1 l2 changed :
  bt_wf m → unused_from stamps k m → anchored stamps k previous l1 →
  visible m = l1 ++ l2 →
  let '(m', changed') := insert_characters stamps k previous cs m changed in
  visible m' = l1 ++ char_ids stamps k cs ++ l2 ∧
  (∀ id, id ∉ char_ids stamps k cs → bt_get id m' = bt_get id m) ∧
  omap (character_of (mkText m')) (char_ids stamps k cs) = cs ∧
  changed' = changed || negb (bool_decide (cs = [])) ∧ bt_wf m'.
Proof.
  revert k previous m l1 changed. induction cs as [|c cs IH]; intros k previous m l1 changed Hw Hu Ha Hv.
  { simpl. rewrite orb_false_r. split_and!; done. }
  assert (bt_get (stamps, k) m = None) as Hnone by (apply bt_get_absent, Hu).
  assert (∀ j, (k ≤ j)%Z → previous ≠ Some (stamps, j)) as Hp.
  { intros j Hj ->. destruct Ha as [_ Ha]. by apply (Ha j). }
  cbn [insert_characters]. rewrite Hnone.
  set (m1 := bt_insert (stamps, k) (inserted previous c) m).
  assert (visible m1 = (l1 ++ [(stamps, k)]) ++ l2) as Hv1.
  { rewrite <- app_assoc. simpl. destruct Hu as [Hk Ho]. destruct previous as [x|].
    - destruct Ha as [Hl _]. apply last_Some in Hl as [l0 ->]. rewrite <- app_assoc in *. simpl in *.
      apply (Rga.insert_visible_after _ _ m (stamps, k) _ (Some x)); try done.
      + intros y e' Hy. apply (Ho y); [done|lia].
      + apply Hp. lia.
    - simpl in Ha. subst l1. simpl in *. rewrite <- Hv.
      apply (Rga.insert_visible_head _ _ m (stamps, k) _ None); try done.
      intros y e' Hy. apply (Ho y); [done|lia]. }
  specialize (IH (k + 1)%Z (Some (stamps, k)) m1 (l1 ++ [(stamps, k)]) true).
  destruct (insert_characters _ _ _ _ _ _) as [m' changed'].
  destruct IH as (IHv & IHg & IHs & -> & IHw).
  - by apply bt_wf_insert.
  - by apply unused_insert.
  - split; [by rewrite last_snoc|]. intros j Hj [=]. lia.
  - done.
  - assert ((stamps, k) ∉ char_ids stamps (k + 1) cs) as Hni.
    { intros Hin. apply elem_of_char_ids in Hin as [_ Hle]; simpl in Hle. lia. }
    split_and!.
    + rewrite IHv. simpl. by rewrite <- app_assoc.
    + intros id Hid. simpl in Hid. rewrite IHg by set_solver. unfold m1.
      apply bt_get_insert_ne. set_solver.
    + simpl. unfold character_of at 1; simpl. rewrite (IHg _ Hni). unfold m1.
      rewrite bt_get_insert. simpl. f_equal. exact IHs.
    + by rewrite orb_true_r.
    + done.
Qed.

Lemma newer_unused stamps self : bt_wf (entries self) → newer stamps self →
  unused_from stamps 0 (entries self).
Proof.
  intros Hw Hn. split.
  - apply Forall_forall. intros [id e] Hin; simpl. apply bt_In_get in Hin; [|done].
    destruct (Hn _ _ Hin) as [Hlt _]. unfold cmp, prod_cmp; simpl. by rewrite Hlt.
  - intros id e j Hg _ Ha. destruct (Hn _ _ Hg) as [_ Hc]. unfold entry_after in Ha.
    destruct (content e) as [c|] eqn:Ec; [|done]. simpl in Ha. injection Ha as Ha.
    specialize (Hc c _ eq_refl Ha); simpl in Hc. by rewrite cmp_refl in Hc.
Qed.
Lemma newer_no_conflict stamps self after_ text : bt_wf (entries self) → newer stamps self →
  List.find (insert_conflict stamps after_ text) (entries self) = None.
Proof.
  intros Hw Hn. destruct (List.find _ _) as [[id e]|] eqn:E; [exfalso|done].
  apply List.find_some in E as [Hin Hc]. apply list_elem_of_In in Hin.
  apply bt_In_get in Hin; [|done]. destruct (Hn _ _ Hin) as [Hlt _].
  unfold insert_conflict in Hc. apply andb_true_iff in Hc as [Hc _].
  apply bool_decide_eq_true in Hc as <-. by rewrite cmp_refl in Hlt.
Qed.

(** ** Deleting *)
Lemma delete_characters_visible stamps ids m c :
  bt_wf m →
  (∀ id, id ∈ ids → is_Some (bt_get id m) ∧ cmp id.1 stamps = Lt) →
  let '(m', _) := foldl (delete_one stamps) (m, c) ids in
  visible m' = List.filter (λ id, bool_decide (id ∉ ids)) (visible m).
Proof.
  revert m c. induction ids as [|id ids IH]; intros m c Hw Hids.
  { simpl. induction (visible m) as [|x l IHl]; simpl; [done|].
    by rewrite <- IHl. }
  destruct (Hids id) as [[e He] Hlt]; [set_solver|].
  change (foldl (delete_one stamps) (m, c) (id :: ids)) with
    (foldl (delete_one stamps) (delete_one stamps (m, c) id) ids).
  unfold delete_one at 2. rewrite He, merge_clock_omax.
  assert ((stamps <=? id.1) = false) as ->.
  { unfold leb. apply cmp_Lt_Gt in Hlt. by rewrite Hlt. }
  set (e' := mkTextEntry (content e) (omax (deleted_at e) (Some stamps)) (attrs e)).
  specialize (IH (bt_insert id e' m) (c || (Some stamps >? deleted_at e))).
  destruct (foldl _ _ ids) as [m' c']. rewrite IH.
  - assert (visible (bt_insert id e' m) =
      List.filter (λ x, bool_decide (x ≠ id)) (visible m)) as ->.
    { apply (Rga.update_hide _ _ m id e); [done..|]. unfold entry_shown, e'; simpl.
      assert (is_none_or (λ d, id.1 >? d) (omax (deleted_at e) (Some stamps)) = false) as ->;
        [|by rewrite andb_false_r].
      destruct (deleted_at e) as [d|]; rewrite ?omax_Some, ?omax_None_l; simpl; rewrite ?gtb_omax;
        unfold gtb; rewrite Hlt; by rewrite ?andb_false_r. }
    clear. induction (visible m) as [|x l IHl]; simpl; [done|].
    destruct (decide (x = id)) as [->|Hx].
    + rewrite (bool_decide_eq_false_2 (id ≠ id)), bool_decide_eq_false_2 by set_solver. apply IHl.
    + rewrite (bool_decide_eq_true_2 (x ≠ id)) by done. simpl. rewrite IHl.
      assert (bool_decide (x ∉ ids) = bool_decide (x ∉ id :: ids)) as ->; [|done].
      apply bool_decide_ext. set_solver.
  - by apply bt_wf_insert.
  - intros x Hx. destruct (Hids x) as [Hs Hl]; [set_solver|]. split; [|done].
    rewrite bt_get_insert_dec. case_decide; [eauto|done].
Qed.

(** ** Properties *)

(** C27. Inserting with a stamp newer than everything the text knows of splices
    the string right after the anchor, which is any visible character or the
    head; nothing else moves. *)
Theorem text_insert (self : Text) (text : rstring) (stamps : MergeStamps)
    (after_ : option TextId) (l1 l2 : list TextId) :
  wf self → newer (incoming stamps) self → incoming stamps ≠ EventStamp_default →
  (Z.of_nat (length text) ≤ u32_max)%Z →
  visible_ids self = l1 ++ l2 → last l1 = after_ →
  (∀ x, after_ = Some x → x.1 ≠ EventStamp_default) →
  ∃ self', apply self (Insert after_ text) stamps = (self', Ok (negb (bool_decide (text = [])))) ∧
    visible_ids self' = l1 ++ char_ids (incoming stamps) 0 text ++ l2 ∧
    string self = omap (character_of self) l1 ++ omap (character_of self) l2 ∧
    string self' = omap (character_of self) l1 ++ text ++ omap (character_of self) l2.
Proof.
  intros [Hw _] Hn Hz Hlen Hv Hl1 Hx0. set (t := incoming stamps) in *.
  assert (∀ id, id ∈ l1 ++ l2 → id.1 ≠ t) as Hold.
  { intros id Hid. rewrite <- Hv in Hid. apply Rga.visible_ids_spec in Hid as (e & He & _); [|done].
    destruct (Hn _ _ He) as [Hlt _]. by apply cmp_Lt_ne. }
  assert (∀ x, after_ = Some x → x.1 ≠ t) as Hxt.
  { intros x ->. apply Hold. apply last_Some in Hl1 as [l0 ->]. set_solver. }
  pose proof (insert_characters_visible t text 0 after_ (entries self) l1 l2 false Hw
    (newer_unused _ _ Hw Hn)) as Hins.
  unfold apply. fold t. rewrite bool_decide_eq_false_2 by done.
  assert (is_some_and zero_id after_ = false) as ->.
  { destruct after_ as [x|]; simpl; [|done]. apply bool_decide_eq_false_2. by apply Hx0. }
  assert (is_some_and (λ id, bool_decide (id.1 = t)) after_ = false) as ->.
  { destruct after_ as [x|]; simpl; [|done]. apply bool_decide_eq_false_2. by apply Hxt. }
  rewrite (proj2 (Z.ltb_ge _ _)) by done. rewrite newer_no_conflict by done.
  destruct (insert_characters _ _ _ _ _ _) as [m' ch].
  destruct Hins as (Hvis & Hget & Hstr & -> & Hw').
  { destruct after_ as [x|]; simpl; [|by apply last_None].
    split; [done|]. intros j _ ->. by eapply Hxt. }
  { done. }
  eexists. split; [done|]. simpl. split; [done|].
  unfold string. rewrite Hv. unfold visible_ids. simpl. rewrite Hvis, !omap_app.
  split; [done|]. rewrite Hstr.
  assert (∀ l : list TextId, (∀ id, id ∈ l → id.1 ≠ t) →
    omap (character_of (mkText m')) l = omap (character_of self) l) as Hsame.
  { intros l Hl. apply list_omap_ext, Forall_Forall2_diag, Forall_forall. intros id Hid.
    unfold character_of. simpl. rewrite Hget; [done|].
    intros Hin. apply elem_of_char_ids in Hin as [Hi _]. by apply (Hl id). }
  rewrite !Hsame; [done|set_solver|set_solver].
Qed.

(** Deleting characters with a newer stamp hides exactly those. *)
Theorem text_delete (self : Text) (ids : list TextId) (stamps : MergeStamps) :
  wf self → incoming stamps ≠ EventStamp_default →
  (∀ id, id ∈ ids → id.1 ≠ EventStamp_default ∧ is_Some (bt_get id (entries self)) ∧
     cmp id.1 (incoming stamps) = Lt) →
  ∃ self' changed, apply self (Delete ids) stamps = (self', Ok changed) ∧
    visible_ids self' = List.filter (λ id, bool_decide (id ∉ ids)) (visible_ids self).
Proof.
  intros [Hw _] Hz Hids. unfold apply. rewrite bool_decide_eq_false_2 by done.
  assert (existsb zero_id ids = false) as ->.
  { apply existsb_false. intros id Hid. apply bool_decide_eq_false_2. by apply Hids. }
  pose proof (delete_characters_visible (incoming stamps) ids (entries self) false Hw) as Hd.
  destruct (foldl _ _ ids) as [m' ch]. eexists _, _. split; [done|].
  apply Hd. intros id Hid. by apply Hids.
Qed.

(** Replicas that agree on inserts and on equally stamped attributes converge
    by state exchange. *)
Theorem text_converges (a b c : Text) :
  wf a → wf b → wf c → ok a b → ok a c → ok b c →
  (merge a b).1 = (merge b a).1 ∧
  (merge (merge a b).1 c).1 = (merge a (merge b c).1).1 ∧
  merge a a = (a, Ok false) ∧
  (∃ ch, (merge a b).2 = Ok ch ∧ (ch = false ↔ (merge a b).1 = a)).
Proof.
  intros. apply (converges merge); (by apply text_wf_join) || (by apply text_ok_join).
Qed.
End Text.
Arguments mkContent {_} _ _.
Arguments mkTextEntry {_ _} _ _ _.
Arguments mkText {_ _} _.
Arguments entries {_ _} _.
Arguments content {_ _} _.
Arguments deleted_at {_ _} _.
Arguments attrs {_ _} _.
Arguments Insert {_ _} _ _.
Arguments Delete {_ _} _.
Arguments Format {_ _} _ _ _.
Arguments default {_ _}.
End Text.
