(* ===== verification/Value.v ===== *)
(** * Values, cells and operations:
    [crdt/_macros.rs], [crdt/cell.rs], [crdt/op.rs], [crdt/event.rs],
    [values/record.rs], [values/list.rs] and the scalar types

    [register_types!] of [zendb-types/src/lib.rs] generates the tagged union
    [Value] and its dispatch.  A [Cell] is a stamped optional value ([None] is
    a tombstone); records and lists are containers of cells, so the types are
    mutually recursive and are declared together here. *)
From stdpp Require Import base numbers option sets list.
From S2P Require Import Prelude Order BTreeMap Merge Clocks Stamp.
From S2P Require Import Counter LwwSet OrSet Rga MvRegister PriorityQueue Text.
Import (hints) Counter.Counter LwwSet.LwwSet OrSet.OrSet MvRegister.MvRegister.
Import (hints) PriorityQueue.PriorityQueue Text.Text.

(** ** The containers, over the type of values *)
Section Containers.
Context `{L : Libp2p}.
Variable V : Type.
Record Cell_ := mkCell { value : option V; stamp : EventStamp }.
Inductive ListPosition := Unknown | Head | After (id : EventStamp).
Record ListEntry_ := mkListEntry { position : ListPosition; cell : Cell_ }.
Record Record_ := mkRecord { fields : btree rstring Cell_ }.
Record List_ := mkList { list_entries : btree EventStamp ListEntry_ }.
End Containers.
Arguments mkCell {_ _} _ _.
Arguments value {_ _} _.
Arguments stamp {_ _} _.
Arguments mkListEntry {_ _} _ _.
Arguments position {_ _} _.
Arguments cell {_ _} _.
Arguments mkRecord {_ _} _.
Arguments fields {_ _} _.
Arguments mkList {_ _} _.
Arguments list_entries {_ _} _.

Section Value.
Context `{L : Libp2p}.

(** ** The generated union *)
Inductive TypeTag :=
  | TBool | TInt | TString | TTimestamp | TBlob | TFloat32 | TFloat64
  | TCounter | TMvRegister | TOrSet | TPriorityQueue | TSet | TText | TRecord | TList.
#[export] Instance TypeTag_eq_dec : EqDecision TypeTag.
Proof using Type. solve_decision. Defined.

(** Floats are their bit patterns, blobs their bytes. *)
Inductive Value :=
  | Bool (b : bool)
  | Int (z : Z)
  | String (s : rstring)
  | Timestamp (t : Z)
  | Blob (bytes : list Z)
  | Float32 (bits : Z)
  | Float64 (bits : Z)
  | Counter (c : Counter.Counter)
  | MvRegister (r : MvRegister.MvRegister Value)
  | OrSet (s : OrSet.OrSet)
  | PriorityQueue (q : PriorityQueue.PriorityQueue Value)
  | Set_ (s : LwwSet.Set_)
  | Text (t : Text.Text Value)
  | Record' (r : Record_ Value)
  | List' (l : List_ Value).

Abbreviation Cell := (Cell_ Value).
Abbreviation Record := (Record_ Value).
Abbreviation List := (List_ Value).
Abbreviation ListEntry := (ListEntry_ Value).

Definition type_tag (v : Value) : TypeTag :=
  match v with
  | Bool _ => TBool | Int _ => TInt | String _ => TString | Timestamp _ => TTimestamp
  | Blob _ => TBlob | Float32 _ => TFloat32 | Float64 _ => TFloat64
  | Counter _ => TCounter | MvRegister _ => TMvRegister | OrSet _ => TOrSet
  | PriorityQueue _ => TPriorityQueue | Set_ _ => TSet | Text _ => TText
  | Record' _ => TRecord | List' _ => TList
  end.
Definition empty_value (tag : TypeTag) : Value :=
  match tag with
  | TBool => Bool false | TInt => Int 0 | TString => String [] | TTimestamp => Timestamp 0
  | TBlob => Blob [] | TFloat32 => Float32 0 | TFloat64 => Float64 0
  | TCounter => Counter Counter.default | TMvRegister => MvRegister MvRegister.default
  | TOrSet => OrSet OrSet.default | TPriorityQueue => PriorityQueue PriorityQueue.default
  | TSet => Set_ LwwSet.default | TText => Text Text.default
  | TRecord => Record' (mkRecord []) | TList => List' (mkList [])
  end.

(** [derive(PartialEq)]: structural equality. *)
#[export] Instance ListPosition_eq_dec : EqDecision ListPosition.
Proof using Type. solve_decision. Defined.
Section EqDec.
Variable V : Type.
Context {EV : EqDecision V}.
#[export] Instance Cell_eq_dec : EqDecision (Cell_ V).
Proof using EV. solve_decision. Defined.
#[export] Instance ListEntry_eq_dec : EqDecision (ListEntry_ V).
Proof using EV. solve_decision. Defined.
#[export] Instance Record_eq_dec : EqDecision (Record_ V).
Proof using EV. solve_decision. Defined.
#[export] Instance List_eq_dec : EqDecision (List_ V).
Proof using EV. solve_decision. Defined.
#[export] Instance MvRegister_eq_dec : EqDecision (MvRegister.MvRegister V).
Proof using EV. solve_decision. Defined.
#[export] Instance PqEntry_eq_dec : EqDecision (PriorityQueue.PqEntry V).
Proof using EV. solve_decision. Defined.
#[export] Instance PriorityQueue_eq_dec : EqDecision (PriorityQueue.PriorityQueue V).
Proof using EV. solve_decision. Defined.
#[export] Instance TextEntry_eq_dec : EqDecision (Text.TextEntry V).
Proof using EV. solve_decision. Defined.
#[export] Instance Text_eq_dec : EqDecision (Text.Text V).
Proof using EV. solve_decision. Defined.
End EqDec.
#[export] Instance Counter_eq_dec : EqDecision Counter.Counter.
Proof using Type. solve_decision. Defined.
#[export] Instance OrSet_eq_dec : EqDecision OrSet.OrSet.
Proof using Type. solve_decision. Defined.
#[export] Instance LwwSet_eq_dec : EqDecision LwwSet.Set_.
Proof using Type. solve_decision. Defined.

Fixpoint value_eq_dec (x y : Value) {struct x} : {x = y} + {x ≠ y}.
Proof.
  refine match x, y with
  | Bool a, Bool b => cast_if (decide (a = b))
  | Int a, Int b => cast_if (decide (a = b))
  | String a, String b => cast_if (decide (a = b))
  | Timestamp a, Timestamp b => cast_if (decide (a = b))
  | Blob a, Blob b => cast_if (decide (a = b))
  | Float32 a, Float32 b => cast_if (decide (a = b))
  | Float64 a, Float64 b => cast_if (decide (a = b))
  | Counter a, Counter b => cast_if (decide (a = b))
  | MvRegister a, MvRegister b => cast_if (@MvRegister_eq_dec Value value_eq_dec a b)
  | OrSet a, OrSet b => cast_if (decide (a = b))
  | PriorityQueue a, PriorityQueue b => cast_if (@PriorityQueue_eq_dec Value value_eq_dec a b)
  | Set_ a, Set_ b => cast_if (decide (a = b))
  | Text a, Text b => cast_if (@Text_eq_dec Value value_eq_dec a b)
  | Record' a, Record' b => cast_if (@Record_eq_dec Value value_eq_dec a b)
  | List' a, List' b => cast_if (@List_eq_dec Value value_eq_dec a b)
  | _, _ => right _
  end; clear value_eq_dec; abstract congruence.
Defined.
#[export] Instance Value_eq_dec : EqDecision Value := value_eq_dec.

(** ** Operations and errors *)

(** The operation and error enums of the scalars have no constructors. *)
Inductive ScalarOp := .
Inductive ScalarError := .
Inductive RecordOp := .
Inductive ListOp :=
  | ListInsert (after : option EventStamp) (v : Value)
  | ListDelete (id : EventStamp).
Inductive TypeOp :=
  | OpBool (op : ScalarOp) | OpInt (op : ScalarOp) | OpString (op : ScalarOp)
  | OpTimestamp (op : ScalarOp) | OpBlob (op : ScalarOp)
  | OpFloat32 (op : ScalarOp) | OpFloat64 (op : ScalarOp)
  | OpCounter (op : Counter.CounterOp)
  | OpMvRegister (op : MvRegister.MvRegisterOp Value)
  | OpOrSet (op : OrSet.OrSetOp)
  | OpPriorityQueue (op : PriorityQueue.PqOp Value)
  | OpSet (op : LwwSet.SetOp)
  | OpText (op : Text.TextOp Value)
  | OpRecord (op : RecordOp)
  | OpList (op : ListOp).
Definition op_tag (op : TypeOp) : TypeTag :=
  match op with
  | OpBool _ => TBool | OpInt _ => TInt | OpString _ => TString | OpTimestamp _ => TTimestamp
  | OpBlob _ => TBlob | OpFloat32 _ => TFloat32 | OpFloat64 _ => TFloat64
  | OpCounter _ => TCounter | OpMvRegister _ => TMvRegister | OpOrSet _ => TOrSet
  | OpPriorityQueue _ => TPriorityQueue | OpSet _ => TSet | OpText _ => TText
  | OpRecord _ => TRecord | OpList _ => TList
  end.
Inductive Segment := SegRecord (field : rstring) | SegList (id : EventStamp).
#[export] Instance Segment_eq_dec : EqDecision Segment.
Proof using Type. solve_decision. Defined.
Definition segment_tag (s : Segment) : TypeTag :=
  match s with SegRecord _ => TRecord | SegList _ => TList end.

Inductive TypeError :=
  | EBool (e : ScalarError) | EInt (e : ScalarError) | EString (e : ScalarError)
  | ETimestamp (e : ScalarError) | EBlob (e : ScalarError)
  | EFloat32 (e : ScalarError) | EFloat64 (e : ScalarError)
  | ECounter (e : Counter.CounterError) | EMvRegister (e : MvRegister.MvRegisterError)
  | EOrSet (e : OrSet.OrSetError) | EPriorityQueue (e : PriorityQueue.PqError)
  | ESet (e : LwwSet.SetError) | EText (e : Text.TextError)
  | ERecord (e : RecordError) | EList (e : ListError)
  | TypeMismatch (expected actual : TypeTag)
  | MergeConflict (current incoming : TypeTag)
with RecordError := RecordChild (e : TypeError)
with ListError :=
  | ZeroId
  | ListChild (e : TypeError)
  | PositionConflict (id : EventStamp) (local_after remote_after : option EventStamp).

(** [Op] and [Event]. *)
Inductive Op :=
  | OpType (op : TypeOp)
  | OpDelete
  | OpUpsert (v : Value)
  | OpMerge (c : Cell).
Definition op_type_tag (op : Op) : option TypeTag :=
  match op with
  | OpType op => Some (op_tag op)
  | OpUpsert v => Some (type_tag v)
  | OpMerge c => type_tag <$> value c
  | OpDelete => None
  end.
Definition Path := list Segment.
Record Event := mkEvent {
  primary_key : PrimaryKey; path : Path; op : Op; event_stamp : EventStamp }.

(** ** [max_stamp] *)
Definition cell_max_stamp_with (f : Value → EventStamp) (c : Cell) : EventStamp :=
  from_option (λ v, omax (stamp c) (f v)) (stamp c) (value c).
Fixpoint value_max_stamp (v : Value) : EventStamp :=
  match v with
  | Counter c => Counter.max_stamp c
  | MvRegister r => MvRegister.max_stamp _ r
  | OrSet s => OrSet.max_stamp s
  | PriorityQueue q => PriorityQueue.max_stamp _ q
  | Set_ s => LwwSet.max_stamp s
  | Text t => Text.max_stamp _ t
  | Record' r =>
      foldl (λ max p, omax max (cell_max_stamp_with value_max_stamp p.2))
        EventStamp_default (fields r)
  | List' l =>
      foldl (λ max p, omax max (cell_max_stamp_with value_max_stamp (cell p.2)))
        EventStamp_default (list_entries l)
  | _ => EventStamp_default
  end.
Definition cell_max_stamp : Cell → EventStamp := cell_max_stamp_with value_max_stamp.

(** ** Cells *)
Definition dummy (v : option Value) : Cell := mkCell v EventStamp_default.
Definition is_tombstone (c : Cell) : bool := is_none (value c).
Definition cell_tag (c : Cell) : option TypeTag := type_tag <$> value c.

(** [Cell::ensure_type]: a newer operation replaces a value of another type. *)
Definition ensure_type (self : Cell) (expected : TypeTag) (incoming : EventStamp) : Cell * bool :=
  if bool_decide (cell_tag self = Some expected) then (self, true)
  else if incoming >? cell_max_stamp self
  then (mkCell (Some (empty_value expected)) incoming, true)
  else (self, false).

(** ** Merging *)
Definition merge_result (V : Type) : Type := V * result TypeError bool.

(** [Cell::merge], over the merge of values. *)
Definition cell_merge_with (vm : Value → Value → MergeStamps → merge_result Value)
    (self inc : Cell) (stamps : MergeStamps) : merge_result Cell :=
  match value self, value inc with
  | None, None =>
      if incoming stamps >? current stamps
      then (mkCell None (stamp inc), Ok true) else (self, Ok false)
  | None, Some _ | Some _, None =>
      if incoming stamps >? current stamps then (inc, Ok true) else (self, Ok false)
  | Some cur, Some inc_value =>
      if bool_decide (type_tag cur = type_tag inc_value) then
        let '(cur, r) := vm cur inc_value stamps in
        match r with
        | Ok changed =>
            if incoming stamps >? current stamps
            then (mkCell (Some cur) (stamp inc), Ok true)
            else (mkCell (Some cur) (stamp self), Ok changed)
        | Err e => (mkCell (Some cur) (stamp self), Err e)
        | Panic => (mkCell (Some cur) (stamp self), Panic)
        end
      else if incoming stamps >? current stamps then (inc, Ok true) else (self, Ok false)
  end.

(** The scalars' [merge]: last writer wins on the stamps of the cells. *)
Definition scalar_merge {A E} (self remote : A) (stamps : MergeStamps) : A * result E bool :=
  if incoming stamps >? current stamps then (remote, Ok true) else (self, Ok false).

Definition own_stamps (l r : Cell) : MergeStamps := mkMergeStamps (stamp l) (stamp r).
Definition record_body (vm : Value → Value → MergeStamps → merge_result Value)
    (field : rstring) (local remote : Cell) : Cell * result RecordError bool :=
  let '(c, r) := cell_merge_with vm local remote (own_stamps local remote) in
  (c, map_err RecordChild r).
Definition record_merge_with vm (self remote : Record) : Record * result RecordError bool :=
  let '(m, r) := merge_loop (record_body vm) (fields self) (fields remote) false in
  (mkRecord m, r).

Definition known (after : option EventStamp) : ListPosition := from_option After Head after.
Definition position_after (p : ListPosition) : option (option EventStamp) :=
  match p with Unknown => None | Head => Some None | After id => Some (Some id) end.
Definition resolve_position (entry : ListEntry) (id : EventStamp) (after : option EventStamp) :
    ListEntry * result ListError bool :=
  if bool_decide (position entry = Unknown)
  then (mkListEntry (known after) (cell entry), Ok true)
  else if negb (bool_decide (position entry = known after))
  then (entry, Err (PositionConflict id (mjoin (position_after (position entry))) after))
  else (entry, Ok false).
Definition list_body (vm : Value → Value → MergeStamps → merge_result Value)
    (id : EventStamp) (local remote : ListEntry) : ListEntry * result ListError bool :=
  let '(local, r1) :=
    match position_after (position remote) with
    | Some after => resolve_position local id after
    | None => (local, Ok false)
    end in
  match r1 with
  | Ok positioned =>
      let '(c, r2) := cell_merge_with vm (cell local) (cell remote)
                        (own_stamps (cell local) (cell remote)) in
      (mkListEntry (position local) c,
       rmap (λ merged, positioned || merged) (map_err ListChild r2))
  | r => (local, r)
  end.
Definition list_merge_with vm (self remote : List) : List * result ListError bool :=
  let '(m, r) := merge_loop (list_body vm) (list_entries self) (list_entries remote) false in
  (mkList m, r).

(** A variant's own merge, put back into the union. *)
Definition lift {A E} (inj : A → Value) (inj_err : E → TypeError) (p : A * result E bool) :
    merge_result Value := (inj p.1, map_err inj_err p.2).

Fixpoint value_merge (self inc : Value) (stamps : MergeStamps) {struct inc} : merge_result Value :=
  match self, inc with
  | Bool a, Bool b => lift Bool EBool (scalar_merge a b stamps)
  | Int a, Int b => lift Int EInt (scalar_merge a b stamps)
  | String a, String b => lift String EString (scalar_merge a b stamps)
  | Timestamp a, Timestamp b => lift Timestamp ETimestamp (scalar_merge a b stamps)
  | Blob a, Blob b => lift Blob EBlob (scalar_merge a b stamps)
  | Float32 a, Float32 b => lift Float32 EFloat32 (scalar_merge a b stamps)
  | Float64 a, Float64 b => lift Float64 EFloat64 (scalar_merge a b stamps)
  | Counter a, Counter b => lift Counter ECounter (Counter.merge a b)
  | MvRegister a, MvRegister b => lift MvRegister EMvRegister (MvRegister.merge _ a b)
  | OrSet a, OrSet b => lift OrSet EOrSet (OrSet.merge a b)
  | PriorityQueue a, PriorityQueue b =>
      lift PriorityQueue EPriorityQueue (PriorityQueue.merge _ a b)
  | Set_ a, Set_ b => lift Set_ ESet (LwwSet.merge a b)
  | Text a, Text b => lift Text EText (Text.merge _ a b)
  | Record' a, Record' b => lift Record' ERecord (record_merge_with value_merge a b)
  | List' a, List' b => lift List' EList (list_merge_with value_merge a b)
  | _, _ => (self, Err (MergeConflict (type_tag self) (type_tag inc)))
  end.
Definition cell_merge : Cell → Cell → MergeStamps → merge_result Cell :=
  cell_merge_with value_merge.

(** ** Applying operations *)
Definition list_inserted (after : option EventStamp) (c : Cell) : ListEntry :=
  mkListEntry (known after) c.
Definition list_placeholder (c : Cell) : ListEntry := mkListEntry Unknown c.

Definition list_apply (self : List) (op : ListOp) (stamps : MergeStamps) :
    List * result ListError bool :=
  let stamps := incoming stamps in
  match op with
  | ListInsert after v =>
      if bool_decide (stamps = EventStamp_default) then (self, Err ZeroId)
      else
        let inc := mkCell (Some v) stamps in
        match bt_get stamps (list_entries self) with
        | Some entry =>
            match resolve_position entry stamps after with
            | (entry, Ok positioned) =>
                let '(c, r) := cell_merge (cell entry) inc (own_stamps (cell entry) inc) in
                (mkList (bt_insert stamps (mkListEntry (position entry) c) (list_entries self)),
                 rmap (λ merged, merged || positioned) (map_err ListChild r))
            | (entry, r) => (mkList (bt_insert stamps entry (list_entries self)), r)
            end
        | None =>
            (mkList (bt_insert stamps (list_inserted after inc) (list_entries self)), Ok true)
        end
  | ListDelete id =>
      if bool_decide (id = EventStamp_default) then (self, Err ZeroId)
      else
        let tombstone := mkCell None stamps in
        match bt_get id (list_entries self) with
        | Some entry =>
            let '(c, r) := cell_merge (cell entry) tombstone (own_stamps (cell entry) tombstone) in
            (mkList (bt_insert id (mkListEntry (position entry) c) (list_entries self)),
             map_err ListChild r)
        | None =>
            (mkList (bt_insert id (list_placeholder tombstone) (list_entries self)), Ok true)
        end
  end.

Definition scalar_apply {A} (self : A) (op : ScalarOp) (stamps : MergeStamps) :
    A * result ScalarError bool := match op with end.
Definition record_apply (self : Record) (op : RecordOp) (stamps : MergeStamps) :
Record * result RecordError bool := match op with end.

Definition value_apply (self : Value) (op : TypeOp) (stamps : MergeStamps) : merge_result Value :=
  match self, op with
  | Bool a, OpBool op => lift Bool EBool (scalar_apply a op stamps)
  | Int a, OpInt op => lift Int EInt (scalar_apply a op stamps)
  | String a, OpString op => lift String EString (scalar_apply a op stamps)
  | Timestamp a, OpTimestamp op => lift Timestamp ETimestamp (scalar_apply a op stamps)
  | Blob a, OpBlob op => lift Blob EBlob (scalar_apply a op stamps)
  | Float32 a, OpFloat32 op => lift Float32 EFloat32 (scalar_apply a op stamps)
  | Float64 a, OpFloat64 op => lift Float64 EFloat64 (scalar_apply a op stamps)
  | Counter a, OpCounter op => lift Counter ECounter (Counter.apply a op stamps)
  | MvRegister a, OpMvRegister op => lift MvRegister EMvRegister (MvRegister.apply _ a op stamps)
  | OrSet a, OpOrSet op => lift OrSet EOrSet (OrSet.apply a op stamps)
  | PriorityQueue a, OpPriorityQueue op =>
      lift PriorityQueue EPriorityQueue (PriorityQueue.apply _ a op stamps)
  | Set_ a, OpSet op => lift Set_ ESet (LwwSet.apply a op stamps)
  | Text a, OpText op => lift Text EText (Text.apply _ a op stamps)
  | Record' a, OpRecord op => lift Record' ERecord (record_apply a op stamps)
  | List' a, OpList op => lift List' EList (list_apply a op stamps)
  | _, _ => (self, Err (TypeMismatch (type_tag self) (op_tag op)))
  end.

(** [Cell::apply].  The [expect] after [ensure_type] is a [Panic]. *)
Definition cell_apply (self : Cell) (op : Op) (stamps : MergeStamps) : merge_result Cell :=
  let inc := incoming stamps in
  match op with
  | OpType type_op =>
      let '(self, typed) := ensure_type self (op_tag type_op) inc in
      if negb typed then (self, Ok false)
      else match value self with
           | None => (self, Panic)
           | Some v =>
               let '(v, r) := value_apply v type_op (mkMergeStamps (stamp self) inc) in
               match r with
               | Ok changed =>
                   (mkCell (Some v) (if changed && (inc >? stamp self) then inc else stamp self),
                    Ok changed)
               | r => (mkCell (Some v) (stamp self), r)
               end
           end
  | OpDelete =>
      if inc <=? stamp self then (self, Ok false) else (mkCell None inc, Ok true)
  | OpUpsert v =>
      if inc <=? stamp self then (self, Ok false) else (mkCell (Some v) inc, Ok true)
  | OpMerge c => cell_merge self c (own_stamps self c)
  end.

(** ** Addressing *)
Definition record_child (self : Record) (s : Segment) : option Cell :=
  match s with SegRecord field => bt_get field (fields self) | _ => None end.
Definition list_child (self : List) (s : Segment) : option Cell :=
  match s with SegList id => cell <$> bt_get id (list_entries self) | _ => None end.
Definition value_child (self : Value) (s : Segment) : option Cell :=
  match self with Record' r => record_child r s | List' l => list_child l s | _ => None end.
Definition cell_child (self : Cell) (s : Segment) : option Cell :=
  value self ≫= λ v, value_child v s.
(** [cell_at_path] of [Cell], through the default method of [ContainerType]
    for its value. *)
Fixpoint cell_at_path (path : Path) (self : Cell) : option Cell :=
  match path with
  | [] => Some self
  | s :: remaining => value self ≫= λ v, value_child v s ≫= cell_at_path remaining
  end.

Definition child_tag (remaining : Path) (op : Op) : option TypeTag :=
  match remaining with s :: _ => Some (segment_tag s) | [] => op_type_tag op end.
Definition fresh_child (tag : option TypeTag) : Cell :=
  match tag with
  | Some tag => dummy (Some (empty_value tag))
  | None => mkCell None EventStamp_default
  end.

(** [apply_walk] of records and lists, over the walk of the child. *)
Definition child_walk (rec : Cell → Op → MergeStamps → merge_result Cell)
    (child : Cell) (op : Op) (stamps : MergeStamps) (remaining : Path) : merge_result Cell :=
  let inc := incoming stamps in
  match child_tag remaining op with
  | Some tag =>
      let '(child, typed) := ensure_type child tag inc in
      if negb typed then (child, Ok false)
      else rec child op (mkMergeStamps (stamp child) inc)
  | None => rec child op (mkMergeStamps (stamp child) inc)
  end.
Definition record_walk rec (self : Record) (op : Op) (stamps : MergeStamps)
    (segment : Segment) (remaining : Path) : Record * result RecordError bool :=
  match segment with
  | SegRecord field =>
      let child := from_option id (fresh_child (child_tag remaining op))
                     (bt_get field (fields self)) in
      let '(child, r) := child_walk rec child op stamps remaining in
      (mkRecord (bt_insert field child (fields self)), map_err RecordChild r)
  | _ => (self, Ok false)
  end.
Definition list_walk rec (self : List) (op : Op) (stamps : MergeStamps)
    (segment : Segment) (remaining : Path) : List * result ListError bool :=
  match segment with
  | SegList id =>
      if bool_decide (id = EventStamp_default) then (self, Err ZeroId)
      else
        let entry := from_option (λ e, e)
                       (list_placeholder (fresh_child (child_tag remaining op)))
                       (bt_get id (list_entries self)) in
        let '(child, r) := child_walk rec (cell entry) op stamps remaining in
        (mkList (bt_insert id (mkListEntry (position entry) child) (list_entries self)),
         map_err ListChild r)
  | _ => (self, Ok false)
  end.
Definition value_walk rec (self : Value) (op : Op) (stamps : MergeStamps)
    (segment : Segment) (remaining : Path) : merge_result Value :=
  match self with
  | Record' r => lift Record' ERecord (record_walk rec r op stamps segment remaining)
  | List' l => lift List' EList (list_walk rec l op stamps segment remaining)
  | _ => (self, Ok false)
  end.
Fixpoint cell_apply_walk (path : Path) (self : Cell) (op : Op) (stamps : MergeStamps) :
    merge_result Cell :=
  match path with
  | [] => cell_apply self op (mkMergeStamps (stamp self) (incoming stamps))
  | segment :: remaining =>
      let '(self, typed) := ensure_type self (segment_tag segment) (incoming stamps) in
      if negb typed then (self, Ok false)
      else match value self with
           | None => (self, Panic)
           | Some v =>
               let '(v, r) := value_walk (cell_apply_walk remaining) v op
                 (mkMergeStamps (stamp self) (incoming stamps)) segment remaining in
               (mkCell (Some v) (stamp self), r)
           end
  end.

(** ** Sequences *)
Definition list_after (e : ListEntry) : option (option EventStamp) := position_after (position e).
Definition list_shown (id : EventStamp) (e : ListEntry) : bool := negb (is_tombstone (cell e)).
Definition list_visible_ids (self : List) : list EventStamp :=
  Rga.visible_ids list_after list_shown (list_entries self).
Definition list_id_at (self : List) (index : nat) : option EventStamp :=
  list_visible_ids self !! index.
Definition cell_by_id (self : List) (id : EventStamp) : option Cell :=
  cell <$> bt_get id (list_entries self).
Definition cell_at (self : List) (index : nat) : option Cell :=
  list_id_at self index ≫= cell_by_id self.
Definition list_cells (self : List) : list Cell := omap (cell_by_id self) (list_visible_ids self).

(** ** Records *)
Definition from_fields (l : list (rstring * Cell)) : Record := mkRecord (bt_from_iter l).
Definition record_get (self : Record) (field : rstring) : option Cell := bt_get field (fields self).
Definition record_len (self : Record) : nat := length (fields self).
Definition record_is_empty (self : Record) : bool := bool_decide (fields self = []).
End Value.

(** The types at [Value]. *)
Abbreviation Cell := (Cell_ Value).
Abbreviation Record := (Record_ Value).
Abbreviation List := (List_ Value).
Abbreviation ListEntry := (ListEntry_ Value).
