(* ===== verification/CellLaws.v ===== *)
(** * Cells converge: the laws of [Cell::merge] and [Value::merge]

    The merge of the container types is recursive, so the laws are proved by
    induction on the depth of the values ([value_wf n]: well-formed and at most
    [n] containers deep; every value has a depth, [value_has_depth]). *)
From stdpp Require Import base numbers option sets list.
From S2P Require Import Prelude Order BTreeMap Merge Clocks Stamp.
From S2P Require Import Counter LwwSet OrSet Rga MvRegister PriorityQueue Text Value.
Import (hints) Counter.Counter LwwSet.LwwSet OrSet.OrSet MvRegister.MvRegister.
Import (hints) PriorityQueue.PriorityQueue Text.Text.

Section CellLaws.
Context `{L : Libp2p}.

(** ** Well-formed values and compatible replicas *)
Definition cell_wf_with (vw : Value → Prop) (c : Cell) : Prop :=
  match value c with None => True | Some v => vw v end.
Fixpoint value_wf (n : nat) (v : Value) {struct n} : Prop :=
  match v with
  | Counter c => Counter.wf c
  | MvRegister r => MvRegister.wf _ r
  | OrSet s => OrSet.wf s
  | PriorityQueue q => PriorityQueue.wf _ q
  | Set_ s => LwwSet.wf s
  | Text t => Text.wf _ t
  | Record' r =>
      match n with
      | O => False
      | S n => bt_wf (fields r) ∧
          ∀ k c, bt_get k (fields r) = Some c → cell_wf_with (value_wf n) c
      end
  | List' l =>
      match n with
      | O => False
      | S n => bt_wf (list_entries l) ∧
          ∀ k e, bt_get k (list_entries l) = Some e → cell_wf_with (value_wf n) (cell e)
      end
  | _ => True
  end.
Definition cell_wf (n : nat) : Cell → Prop := cell_wf_with (value_wf n).

(** Replicas of one cell.  Events are stamped uniquely, so equal stamps mean
    equal writes.  In [strict] mode the two replicas are both tombstones or
    values of one type, at every common address; otherwise the cell may have
    been deleted or retyped on one side. *)
Definition cell_ok_with (strict : bool) (vo : Prop → Value → Value → Prop) (a b : Cell) : Prop :=
  match value a, value b with
  | None, None => True
  | Some v, Some w =>
      if bool_decide (type_tag v = type_tag w) then vo (stamp a = stamp b) v w
      else strict = false ∧ stamp a ≠ stamp b
  | _, _ => strict = false ∧ stamp a ≠ stamp b
  end.
Definition position_ok (l r : ListPosition) : Prop := l = Unknown ∨ r = Unknown ∨ l = r.
Fixpoint value_ok (strict : bool) (n : nat) (same : Prop) (v w : Value) {struct n} : Prop :=
  match v, w with
  | Bool a, Bool b => same → a = b
  | Int a, Int b => same → a = b
  | String a, String b => same → a = b
  | Timestamp a, Timestamp b => same → a = b
  | Blob a, Blob b => same → a = b
  | Float32 a, Float32 b => same → a = b
  | Float64 a, Float64 b => same → a = b
  | Counter _, Counter _ | OrSet _, OrSet _ | Set_ _, Set_ _ => True
  | MvRegister a, MvRegister b => MvRegister.ok _ a b
  | PriorityQueue a, PriorityQueue b => PriorityQueue.ok _ a b
  | Text a, Text b => Text.ok _ a b
  | Record' a, Record' b =>
      match n with
      | O => False
      | S n => ∀ k l r, bt_get k (fields a) = Some l → bt_get k (fields b) = Some r →
                 cell_ok_with strict (value_ok strict n) l r
      end
  | List' a, List' b =>
      match n with
      | O => False
      | S n => ∀ k l r, bt_get k (list_entries a) = Some l → bt_get k (list_entries b) = Some r →
                 position_ok (position l) (position r) ∧
                 cell_ok_with strict (value_ok strict n) (cell l) (cell r)
      end
  | _, _ => False
  end.
Definition cell_ok (strict : bool) (n : nat) : Cell → Cell → Prop :=
  cell_ok_with strict (value_ok strict n).

(** The merge two replicas of a cell run: with their own stamps. *)
Definition cell_sync (a b : Cell) : merge_result Cell := cell_merge a b (own_stamps a b).

(** ** The variants *)
Definition Payload (t : TypeTag) : Type :=
  match t with
  | TBool => bool | TInt | TTimestamp | TFloat32 | TFloat64 => Z | TString => rstring
  | TBlob => list Z | TCounter => Counter.Counter | TMvRegister => MvRegister.MvRegister Value
  | TOrSet => OrSet.OrSet | TPriorityQueue => PriorityQueue.PriorityQueue Value
  | TSet => LwwSet.Set_ | TText => Text.Text Value | TRecord => Record | TList => List
  end.
Definition inj (t : TypeTag) : Payload t → Value :=
  match t with
  | TBool => Bool | TInt => Int | TTimestamp => Timestamp | TFloat32 => Float32
  | TFloat64 => Float64 | TString => String | TBlob => Blob | TCounter => Counter
  | TMvRegister => MvRegister | TOrSet => OrSet | TPriorityQueue => PriorityQueue
  | TSet => Set_ | TText => Text | TRecord => Record' | TList => List'
  end.
Lemma type_tag_inj t x : type_tag (inj t x) = t.
Proof. by destruct t. Qed.
Lemma inj_of_tag v : ∃ x, v = inj (type_tag v) x.
Proof. destruct v; eexists; reflexivity. Qed.

(** The merge of two cells of one variant, on the payloads. *)
Definition live (t : TypeTag) (p : Payload t * EventStamp) : Cell := mkCell (Some (inj t p.1)) p.2.
Definition sync (t : TypeTag) : Payload t * EventStamp → Payload t * EventStamp →
    (Payload t * EventStamp) * result TypeError bool :=
  match t with
  | TBool | TInt | TTimestamp | TFloat32 | TFloat64 | TString | TBlob => stamped_scalar
  | TCounter => stamped Counter.merge ECounter
  | TMvRegister => stamped (MvRegister.merge Value) EMvRegister
  | TOrSet => stamped OrSet.merge EOrSet
  | TPriorityQueue => stamped (PriorityQueue.merge Value) EPriorityQueue
  | TSet => stamped LwwSet.merge ESet
  | TText => stamped (Text.merge Value) EText
  | TRecord => stamped (record_merge_with value_merge) ERecord
  | TList => stamped (list_merge_with value_merge) EList
  end.
Lemma cell_sync_live t p q :
  cell_sync (live t p) (live t q) = (live t (sync t p q).1, (sync t p q).2).
Proof.
  destruct p as [x s], q as [y u]. unfold cell_sync, cell_merge, cell_merge_with, live. simpl.
  rewrite bool_decide_eq_true_2 by (by rewrite !type_tag_inj).
  destruct t; simpl; unfold scalar_merge, stamped_scalar, stamped, lift; simpl;
    try (destruct (u >? s); done).
  all: match goal with |- context [map_err _ (?e).2] => destruct e as [z []] end;
    simpl; by destruct (u >? s).
Qed.

Definition typed_wf n t (p : Payload t * EventStamp) : Prop := value_wf n (inj t p.1).
Definition typed_ok strict n t (p q : Payload t * EventStamp) : Prop :=
  value_ok strict n (p.2 = q.2) (inj t p.1) (inj t q.1).
Definition container (t : TypeTag) : bool :=
  match t with TRecord | TList => true | _ => false end.

Lemma counter_is_merge : is_merge Counter.merge Counter.wf (λ _ _, True).
Proof.
  apply (is_merge_iff _ _ _ _ _ _ (laws_is_merge _ Counter.counter_join)); [|done..].
  intros l. split; [apply Counter.counter_wf_join|by intros []].
Qed.
Lemma set_is_merge : is_merge LwwSet.merge LwwSet.wf (λ _ _, True).
Proof.
  apply (is_merge_iff _ _ _ _ _ _ (laws_is_merge _ LwwSet.set_join)); [|done..].
  intros l. split; [apply LwwSet.set_wf_join|by intros []].
Qed.
Lemma orset_is_merge : is_merge OrSet.merge OrSet.wf (λ _ _, True).
Proof.
  apply (is_merge_iff _ _ _ _ _ _ (laws_is_merge _ OrSet.orset_join)); [| |done].
  - intros l. split; [apply OrSet.orset_wf_join|]. intros [Hw He]. split; [done|].
    intros k e Hk. destruct (He k e Hk) as [[? _] [? _]]. by split.
  - intros l r. split; [intros _; apply OrSet.orset_ok_join|done].
Qed.
Lemma mv_register_is_merge :
  is_merge (MvRegister.merge Value) (MvRegister.wf Value) (MvRegister.ok Value).
Proof. exact (laws_is_merge _ (MvRegister.merge_laws Value)). Qed.
Lemma pq_is_merge :
  is_merge (PriorityQueue.merge Value) (PriorityQueue.wf Value) (PriorityQueue.ok Value).
Proof.
  apply (is_merge_iff _ _ _ _ _ _ (laws_is_merge _ (PriorityQueue.pq_join Value))); [|done..].
  intros l. split; [apply PriorityQueue.pq_wf_join|by intros []].
Qed.
Lemma text_is_merge : is_merge (Text.merge Value) (Text.wf Value) (Text.ok Value).
Proof.
  apply (is_merge_iff _ _ _ _ _ _ (laws_is_merge _ (Text.text_join Value))); [| |done].
  - intros l. split; [apply Text.text_wf_join|apply Text.join_wf].
  - intros l r. apply Text.text_ok_join.
Qed.

(** The laws of the cells of one leaf variant, whatever the mode. *)
Lemma leaf_is_merge strict n t : container t = false →
  is_merge (sync t) (typed_wf n t) (typed_ok strict n t).
Proof.
  intros Ht. destruct t; try done.
  1-7: (apply (is_merge_iff _ _ _ _ _ _ stamped_scalar_is_merge);
        [by intros []; destruct n|by intros [] []; destruct n|done]).
  - apply (is_merge_iff _ _ _ _ _ _ (stamped_is_merge _ ECounter _ _ counter_is_merge));
      [by intros []; destruct n|by intros [] []; destruct n|done].
  - apply (is_merge_iff _ _ _ _ _ _ (stamped_is_merge _ EMvRegister _ _ mv_register_is_merge));
      [by intros []; destruct n|by intros [] []; destruct n|done].
  - apply (is_merge_iff _ _ _ _ _ _ (stamped_is_merge _ EOrSet _ _ orset_is_merge));
      [by intros []; destruct n|by intros [] []; destruct n|done].
  - apply (is_merge_iff _ _ _ _ _ _ (stamped_is_merge _ EPriorityQueue _ _ pq_is_merge));
      [by intros []; destruct n|by intros [] []; destruct n|done].
  - apply (is_merge_iff _ _ _ _ _ _ (stamped_is_merge _ ESet _ _ set_is_merge));
      [by intros []; destruct n|by intros [] []; destruct n|done].
  - apply (is_merge_iff _ _ _ _ _ _ (stamped_is_merge _ EText _ _ text_is_merge));
      [by intros []; destruct n|by intros [] []; destruct n|done].
Qed.

(** ** The containers, one level up *)

Lemma record_body_sync k l r :
  record_body value_merge k l r = ((cell_sync l r).1, map_err RecordChild (cell_sync l r).2).
Proof.
  unfold record_body, cell_sync, cell_merge. by destruct (cell_merge_with _ _ _ _).
Qed.
Lemma record_merge_map a b :
  record_merge_with value_merge a b =
  (mkRecord (map_merge (record_body value_merge) (fields a) (fields b)).1,
   map_err (λ e, e) (map_merge (record_body value_merge) (fields a) (fields b)).2).
Proof. unfold record_merge_with, map_merge. by destruct (merge_loop _ _ _ _) as [? []]. Qed.

(** Positions fill in once. *)
Definition position_sync (id : EventStamp) (l r : ListPosition) : ListPosition * result ListError bool :=
  match position_after r with
  | None => (l, Ok false)
  | Some after =>
      if bool_decide (l = Unknown) then (known after, Ok true)
      else if negb (bool_decide (l = known after))
      then (l, Err (PositionConflict id (mjoin (position_after l)) after))
      else (l, Ok false)
  end.
Definition position_join (l r : ListPosition) : ListPosition :=
  match l with Unknown => r | _ => l end.
Lemma position_is_merge id : is_merge (position_sync id) (λ _, True) position_ok.
Proof.
  apply (is_join_merge _ _ _ position_join). unfold position_ok.
  assert (∀ l r, l = Unknown ∨ r = Unknown ∨ l = r →
    position_sync id l r = (position_join l r, Ok (negb (bool_decide (position_join l r = l))))) as Hrun.
  { intros l r Ho. unfold position_sync.
    destruct l, r; simpl; repeat case_bool_decide; simpl; try done; naive_solver. }
  split; try done.
  - intros l r _ _ Ho. exists (negb (bool_decide (position_join l r = l))).
    split; [by apply Hrun|]. rewrite negb_false_iff. by rewrite bool_decide_eq_true.
  - naive_solver.
  - naive_solver.
  - intros [] [] []; naive_solver.
  - intros [] []; naive_solver.
  - by intros [] [] [].
  - by intros [].
Qed.

Definition entry_sync (id : EventStamp) (a b : ListPosition * Cell) :
    (ListPosition * Cell) * result ListError bool :=
  match position_sync id a.1 b.1 with
  | (p, Ok positioned) =>
      ((p, (cell_sync a.2 b.2).1),
       rmap (λ merged, positioned || merged) (map_err ListChild (cell_sync a.2 b.2).2))
  | (p, r) => ((p, a.2), r)
  end.
Lemma list_body_sync id l r :
  list_body value_merge id l r =
  (let e := entry_sync id (position l, cell l) (position r, cell r) in
   (mkListEntry e.1.1 e.1.2, map_err (λ e, e) e.2)).
Proof.
  unfold list_body, entry_sync, position_sync, resolve_position, cell_sync, cell_merge.
  destruct l as [lp lc], r as [rp rc]; simpl. destruct (position_after rp) as [after|]; simpl.
  - destruct (bool_decide (lp = Unknown)); simpl; [|destruct (negb _); simpl; [done|]].
    all: destruct (cell_merge_with _ _ _ _) as [c []]; done.
  - destruct (cell_merge_with _ _ _ _) as [c []]; done.
Qed.
Lemma list_merge_map a b :
  list_merge_with value_merge a b =
  (mkList (map_merge (list_body value_merge) (list_entries a) (list_entries b)).1,
   map_err (λ e, e) (map_merge (list_body value_merge) (list_entries a) (list_entries b)).2).
Proof. unfold list_merge_with, map_merge. by destruct (merge_loop _ _ _ _) as [? []]. Qed.

Section Level.
  Variables (wf : Cell → Prop) (ok : Cell → Cell → Prop).
Variable IH : is_merge cell_sync wf ok.

Lemma record_level :
  is_merge (record_merge_with value_merge)
    (λ r, bt_wf (fields r) ∧ ∀ k c, bt_get k (fields r) = Some c → wf c)
    (λ a b, ∀ k l r, bt_get k (fields a) = Some l → bt_get k (fields b) = Some r → ok l r).
Proof using IH.
  assert (∀ k, is_merge (record_body value_merge k) wf ok) as Hbody.
  { intros k. apply (is_merge_iff _ _ _ _ _ _
      (is_merge_wrap cell_sync (λ c, c) (λ c, c) RecordChild wf ok IH
         (λ _, eq_refl) (λ _, eq_refl))); [done..|].
    intros l r _ _ _. apply record_body_sync. }
  apply (is_merge_iff _ _ _ _ _ _
    (is_merge_wrap _ mkRecord fields (λ e, e) _ _ (map_is_merge _ wf ok Hbody)
      (λ _, eq_refl) (λ w, match w with mkRecord _ => eq_refl end))); [done..|].
  intros l r _ _ _. apply record_merge_map.
Qed.

Lemma list_level :
  is_merge (list_merge_with value_merge)
    (λ l, bt_wf (list_entries l) ∧
       ∀ k e, bt_get k (list_entries l) = Some e → wf (cell e))
    (λ a b, ∀ k l r, bt_get k (list_entries a) = Some l → bt_get k (list_entries b) = Some r →
       position_ok (position l) (position r) ∧ ok (cell l) (cell r)).
Proof using IH.
  assert (∀ k, is_merge (list_body value_merge k) (λ e, wf (cell e))
    (λ l r, position_ok (position l) (position r) ∧ ok (cell l) (cell r))) as Hbody.
  { intros k.
    pose (J1 := is_join_laws _ _ _ _ (position_is_merge k)).
    pose (J2 := is_join_laws _ _ _ _ IH).
    assert (∀ a b c1 c2, (position_sync k a.1 b.1).2 = Ok c1 → (cell_sync a.2 b.2).2 = Ok c2 →
      entry_sync k a b = (((position_sync k a.1 b.1).1, (cell_sync a.2 b.2).1), Ok (c1 || c2)))
      as Hboth.
    { intros a b c1 c2 E1 E2. unfold entry_sync. destruct (position_sync k a.1 b.1); simpl in *.
      by rewrite E1, E2. }
    pose (J := pair_laws (position_sync k) (J1:=J1) cell_sync (J2:=J2) (entry_sync k) Hboth).
    apply (is_merge_iff _ _ _ _ _ _
      (is_merge_wrap _ (λ p, mkListEntry p.1 p.2) (λ e, (position e, cell e)) (λ e, e) _ _
        (laws_is_merge _ J) (λ p, match p with (_, _) => eq_refl end)
        (λ e, match e with mkListEntry _ _ => eq_refl end))).
    - intros e. split; [by intros|by intros []].
    - done.
    - intros l r _ _ _. apply list_body_sync. }
  apply (is_merge_iff _ _ _ _ _ _
    (is_merge_wrap _ mkList list_entries (λ e, e) _ _
      (map_is_merge _ (λ e : ListEntry, wf (cell e)) _ Hbody)
      (λ _, eq_refl) (λ w, match w with mkList _ => eq_refl end))); [done..|].
  intros l r _ _ _. apply list_merge_map.
Qed.
End Level.

(** The laws of the cells of one variant, from those of the cells below. *)
Lemma sync_is_merge n t :
  (∀ m, n = S m → is_merge cell_sync (cell_wf m) (cell_ok true m)) →
  is_merge (sync t) (typed_wf n t) (typed_ok true n t).
Proof.
  intros IH. destruct (container t) eqn:Ht; [|by apply leaf_is_merge].
  destruct n as [|n].
  - destruct t; try done; split; by intros [].
  - specialize (IH n eq_refl). destruct t; try done.
    + apply (is_merge_iff _ _ _ _ _ _ (stamped_is_merge _ ERecord _ _ (record_level _ _ IH))); done.
    + apply (is_merge_iff _ _ _ _ _ _ (stamped_is_merge _ EList _ _ (list_level _ _ IH))); done.
Qed.

(** ** Cells *)
Inductive cell_view : Cell → Prop :=
  | ViewNone s : cell_view (mkCell None s)
  | ViewLive t p : cell_view (live t p).
Lemma cell_viewP c : cell_view c.
Proof.
  destruct c as [[v|] s]; [|constructor]. destruct (inj_of_tag v) as [x ->].
  apply (ViewLive (type_tag v) (x, s)).
Qed.
Lemma cell_ok_live strict n t p q :
  cell_ok strict n (live t p) (live t q) ↔ typed_ok strict n t p q.
Proof.
  unfold cell_ok, cell_ok_with, live; simpl.
  by rewrite bool_decide_eq_true_2 by (by rewrite !type_tag_inj).
Qed.
Lemma strict_none n s c : cell_ok true n (mkCell None s) c → ∃ u, c = mkCell None u.
Proof. destruct c as [[]]; unfold cell_ok, cell_ok_with; simpl; [by intros []|eauto]. Qed.
Lemma strict_live n t p c : cell_ok true n (live t p) c → ∃ q, c = live t q ∧ typed_ok true n t p q.
Proof.
  destruct (cell_viewP c) as [u|t' q].
  - unfold cell_ok, cell_ok_with; simpl. by intros [].
  - destruct (decide (t = t')) as [->|Hne].
    + rewrite cell_ok_live. eauto.
    + unfold cell_ok, cell_ok_with, live; simpl. rewrite !type_tag_inj.
      rewrite bool_decide_eq_false_2 by done. by intros [].
Qed.
Lemma cell_sync_none s u :
  cell_sync (mkCell None s) (mkCell None u) = (mkCell None (omax s u), Ok (u >? s)).
Proof.
  unfold cell_sync, cell_merge, cell_merge_with; simpl. rewrite omax_case. by destruct (u >? s).
Qed.

Lemma live_inj t p q : live t p = live t q → p = q.
Proof.
  destruct p as [x s], q as [y u]. unfold live; simpl. intros [= Hx Hs]. subst u.
  f_equal. by destruct t; injection Hx.
Qed.

(** The laws of every variant make the laws of cells. *)
Lemma glue n :
  (∀ t, is_merge (sync t) (typed_wf n t) (typed_ok true n t)) →
  is_merge cell_sync (cell_wf n) (cell_ok true n).
Proof.
  intros Ht. split.
  - intros l r Hl Hr Ho. destruct (cell_viewP l) as [s|t p].
    + apply strict_none in Ho as [u ->]. rewrite cell_sync_none. exists (u >? s).
      split; [done|]. rewrite gtb_changed; simpl. split; [by intros ->|by intros [=]].
    + apply strict_live in Ho as (q & -> & Ho). rewrite cell_sync_live.
      destruct (ij_run _ _ _ _ (Ht t) p q Hl Hr Ho) as (c & E1 & Hc). exists c.
      rewrite E1 in *. simpl in *. split; [done|]. rewrite Hc.
      split; [by intros ->|apply live_inj].
  - intros l r Hl Hr Ho. destruct (cell_viewP l) as [s|t p].
    + apply strict_none in Ho as [u ->]. by rewrite cell_sync_none.
    + apply strict_live in Ho as (q & -> & Ho). rewrite cell_sync_live.
      exact (ij_wf_join _ _ _ _ (Ht t) p q Hl Hr Ho).
  - intros l Hl. destruct (cell_viewP l) as [s|t p]; [done|].
    apply cell_ok_live. exact (ij_ok_refl _ _ _ _ (Ht t) p Hl).
  - intros l r Ho. destruct (cell_viewP l) as [s|t p].
    + by apply strict_none in Ho as [u ->].
    + apply strict_live in Ho as (q & -> & Ho). apply cell_ok_live.
      exact (ij_ok_sym _ _ _ _ (Ht t) p q Ho).
  - intros a b c Ha Hb Hc Hab Hac Hbc. destruct (cell_viewP a) as [s|t p].
    + apply strict_none in Hab as [u ->]. apply strict_none in Hac as [w ->].
      by rewrite cell_sync_none.
    + apply strict_live in Hab as (q & -> & Hab). apply strict_live in Hac as (z & -> & Hac).
      apply cell_ok_live in Hbc. rewrite cell_sync_live. apply cell_ok_live.
      by apply (ij_ok_join _ _ _ _ (Ht t) p q z).
  - intros l r Hl Hr Ho. destruct (cell_viewP l) as [s|t p].
    + apply strict_none in Ho as [u ->]. rewrite !cell_sync_none. simpl. by rewrite omax_comm.
    + apply strict_live in Ho as (q & -> & Ho). rewrite !cell_sync_live. simpl. f_equal.
      by apply (ij_comm _ _ _ _ (Ht t) p q).
  - intros a b c Ha Hb Hc Hab Hac Hbc. destruct (cell_viewP a) as [s|t p].
    + apply strict_none in Hab as [u ->]. apply strict_none in Hac as [w ->].
      rewrite !cell_sync_none. simpl. rewrite !cell_sync_none. simpl. by rewrite omax_assoc.
    + apply strict_live in Hab as (q & -> & Hab). apply strict_live in Hac as (z & -> & Hac).
      apply cell_ok_live in Hbc. rewrite !cell_sync_live. simpl. rewrite !cell_sync_live. simpl.
      f_equal. by apply (ij_assoc _ _ _ _ (Ht t) p q z).
  - intros l Hl. destruct (cell_viewP l) as [s|t p].
    + rewrite cell_sync_none. simpl. by rewrite omax_idemp.
    + rewrite cell_sync_live. simpl. f_equal. by apply (ij_idemp _ _ _ _ (Ht t) p).
Qed.

Lemma cell_sync_is_merge n : is_merge cell_sync (cell_wf n) (cell_ok true n).
Proof.
  induction n as [|n IH]; apply glue; intros t; apply sync_is_merge; intros m; [done|].
  by intros [= <-].
Qed.

(** ** Tombstones and changes of type: two replicas *)
Section CommLevel.
  Variables (wf : Cell → Prop) (ok : Cell → Cell → Prop).
Variable IH : is_comm cell_sync wf ok.

Lemma record_comm :
  is_comm (record_merge_with value_merge)
    (λ r, entries_wf wf (fields r)) (λ a b, entries_ok ok (fields a) (fields b)).
Proof using All.
  assert (∀ k, is_comm (record_body value_merge k) wf ok) as Hbody.
  { intros k. apply (is_comm_wrap cell_sync _ (λ c, c) (λ c, c) RecordChild wf ok IH).
    apply record_body_sync. }
  apply (is_comm_wrap _ _ mkRecord fields (λ e, e) _ _ (map_comm _ wf ok Hbody)).
  apply record_merge_map.
Qed.

Lemma list_comm :
  is_comm (list_merge_with value_merge)
    (λ l, entries_wf (λ e : ListEntry, wf (cell e)) (list_entries l))
    (λ a b, entries_ok (λ l r, position_ok (position l) (position r) ∧ ok (cell l) (cell r))
       (list_entries a) (list_entries b)).
Proof using All.
  assert (∀ k, is_comm (list_body value_merge k) (λ e : ListEntry, wf (cell e))
    (λ l r, position_ok (position l) (position r) ∧ ok (cell l) (cell r))) as Hbody.
  { intros k [lp lc] [rp rc] Hl Hr [Hp Hc]; simpl in *.
    destruct (is_join_comm _ _ _ _ (position_is_merge k) lp rp I I Hp) as (p & c1 & c1' & E1 & E1').
    destruct (IH lc rc Hl Hr Hc) as (c & c2 & c2' & E2 & E2').
    eexists (mkListEntry p c), (c1 || c2), (c1' || c2').
    rewrite !list_body_sync. unfold entry_sync; simpl. by rewrite E1, E1', E2, E2'. }
  apply (is_comm_wrap _ _ mkList list_entries (λ e, e) _ _
    (map_comm _ (λ e : ListEntry, wf (cell e)) _ Hbody)).
  apply list_merge_map.
Qed.
End CommLevel.

Lemma sync_comm n t :
  (∀ m, n = S m → is_comm cell_sync (cell_wf m) (cell_ok false m)) →
  is_comm (sync t) (typed_wf n t) (typed_ok false n t).
Proof.
  intros IH. destruct (container t) eqn:Ht; [|by apply (is_join_comm _ _ _ _ (leaf_is_merge _ _ _ Ht))].
  destruct n as [|n].
  - destruct t; try done; by intros l r [].
  - specialize (IH n eq_refl). destruct t; try done.
    + exact (stamped_is_comm _ ERecord _ _ (record_comm _ _ IH)).
    + exact (stamped_is_comm _ EList _ _ (list_comm _ _ IH)).
Qed.

(** The later write wins when the two cells do not merge their contents. *)
Lemma cell_sync_lww a b :
  (cell_tag a ≠ cell_tag b) → stamp a ≠ stamp b →
  ∃ m c c', cell_sync a b = (m, Ok c) ∧ cell_sync b a = (m, Ok c').
Proof.
  unfold cell_tag, cell_sync, cell_merge, cell_merge_with. destruct a as [[v|] s], b as [[w|] u]; simpl;
    intros Ht Hs; try done;
    rewrite ?bool_decide_eq_false_2 by congruence;
    unfold gtb; destruct (cmpP s u) as [|E E'|E E']; try done; rewrite ?E, ?E'; eauto.
Qed.
Lemma glue_comm n :
  (∀ t, is_comm (sync t) (typed_wf n t) (typed_ok false n t)) →
  is_comm cell_sync (cell_wf n) (cell_ok false n).
Proof.
  intros Ht l r Hl Hr Ho. destruct (cell_viewP l) as [s|t p], (cell_viewP r) as [u|t' q].
  - rewrite !cell_sync_none, (omax_comm u s). eauto.
  - apply cell_sync_lww; [done|by apply Ho].
  - apply cell_sync_lww; [done|by apply Ho].
  - destruct (decide (t = t')) as [<-|Hne].
    + rewrite cell_ok_live in Ho. rewrite !cell_sync_live.
      destruct (Ht t p q Hl Hr Ho) as (m & c & c' & -> & ->). eauto.
    + apply cell_sync_lww.
      * unfold cell_tag, live; simpl. rewrite !type_tag_inj. congruence.
      * unfold cell_ok, cell_ok_with, live in Ho; simpl in Ho. rewrite !type_tag_inj in Ho.
        rewrite bool_decide_eq_false_2 in Ho by done. apply Ho.
Qed.
Lemma cell_sync_comm n : is_comm cell_sync (cell_wf n) (cell_ok false n).
Proof.
  induction n as [|n IH]; apply glue_comm; intros t; apply sync_comm; intros m; [done|].
  by intros [= <-].
Qed.

(** ** Properties *)

(** C8. Replicas of a cell of any type, arbitrarily nested, converge by state
    exchange as long as no side deleted or retyped it (or any cell below):
    merging is commutative, associative, and a reported no-op on what is
    already known. *)
Theorem cell_converges (n : nat) (a b c : Cell) :
  cell_wf n a → cell_wf n b → cell_wf n c →
  cell_ok true n a b → cell_ok true n a c → cell_ok true n b c →
  (cell_sync a b).1 = (cell_sync b a).1 ∧
  (cell_sync (cell_sync a b).1 c).1 = (cell_sync a (cell_sync b c).1).1 ∧
  cell_sync a a = (a, Ok false) ∧
  (∃ ch, (cell_sync a b).2 = Ok ch ∧ (ch = false ↔ (cell_sync a b).1 = a)).
Proof.
  intros. pose (J := is_join_laws _ _ _ _ (cell_sync_is_merge n)).
  by apply (converges (J:=J) cell_sync).
Qed.

(** C28. Two replicas agree after exchanging states even when one of them deleted
    or retyped the cell or a cell below, and neither exchange fails. *)
Theorem cell_exchange_agrees (n : nat) (a b : Cell) :
  cell_wf n a → cell_wf n b → cell_ok false n a b →
  ∃ merged changed changed',
    cell_sync a b = (merged, Ok changed) ∧ cell_sync b a = (merged, Ok changed').
Proof. apply cell_sync_comm. Qed.
End CellLaws.
