(* ===== verification/CellOps.v ===== *)
(** * Cell operations: [Cell::apply], [apply_walk] and [cell_at_path]

    Last-writer-wins of the cell-level operations, addressing along paths, and
    the absence of panics. *)
From stdpp Require Import base numbers option sets list.
From S2P Require Import Prelude Order BTreeMap Merge Clocks Stamp.
From S2P Require Import Counter LwwSet OrSet Rga MvRegister PriorityQueue Text Value CellLaws.
Import (hints) Counter.Counter LwwSet.LwwSet OrSet.OrSet MvRegister.MvRegister.
Import (hints) PriorityQueue.PriorityQueue Text.Text.

Section CellOps.
Context `{L : Libp2p}.

(** ** No panic *)
Definition total {A E} (p : A * result E bool) : Prop := p.2 ≠ Panic.

Lemma lift_total {A E} (i : A → Value) (f : E → TypeError) p : total p → total (lift i f p).
Proof. unfold total, lift. by destruct p as [? []]. Qed.
Lemma merge_loop_total {K V E} `{Cmp K} (body : K → V → V → V * result E bool) self remote c :
  (∀ k l r, (k, r) ∈ remote → total (body k l r)) → total (merge_loop body self remote c).
Proof.
  unfold total. revert self c. induction remote as [|[k r] remote IH]; intros self c Hb; simpl; [done|].
  destruct (bt_get k self) as [l|].
  - specialize (Hb k l r) as Hk. destruct (body k l r) as [l' [c'|e|]]; simpl in *; try done.
    + apply IH. intros. apply Hb. set_solver.
    + exfalso. apply Hk; [set_solver|done].
  - apply IH. intros. apply Hb. set_solver.
Qed.
Lemma merge_values_total {V} `{EqDecision V} rm (l r : btree EventStamp V) c :
  total (MvRegister.merge_values V rm l r c).
Proof.
  unfold total. revert l c. induction r as [|[k v] r IH]; intros l c; simpl; [done|].
  repeat case_match; done || apply IH.
Qed.

(** The payload of a container, for induction on values. *)
Fixpoint value_depth (v : Value) : nat :=
  let cell_depth (c : Cell) := match value c with None => 0 | Some v => value_depth v end in
  match v with
  | Record' r => S (foldr (λ p acc, Nat.max (cell_depth p.2) acc) 0 (fields r))
  | List' l => S (foldr (λ p acc, Nat.max (cell_depth (cell p.2)) acc) 0 (list_entries l))
  | _ => 0
  end.
Definition cell_depth (c : Cell) : nat := match value c with None => 0 | Some v => value_depth v end.
Lemma foldr_max_le {A} (f : A → nat) (l : list A) x :
  x ∈ l → f x ≤ foldr (λ p acc, Nat.max (f p) acc) 0 l.
Proof.
  induction l as [|y l IH]; [by rewrite elem_of_nil|].
  rewrite elem_of_cons. simpl. intros [->|Hx]; [lia|]. apply IH in Hx. lia.
Qed.

Lemma cell_merge_total vm self inc stamps :
  (∀ v w st, value inc = Some w → total (vm v w st)) → total (cell_merge_with vm self inc stamps).
Proof.
  intros Hvm. unfold total, cell_merge_with.
  destruct (value self) as [v|], (value inc) as [w|] eqn:Ew; try (case_match; done).
  case_match; [|case_match; done].
  specialize (Hvm v w stamps eq_refl). unfold total in Hvm.
  destruct (vm v w stamps) as [z [c|e|]]; simpl in *; try done. by case_match.
Qed.
Lemma value_merge_total n : ∀ self inc stamps, value_depth inc ≤ n → total (value_merge self inc stamps).
Proof.
  induction n as [n IH] using lt_wf_ind. intros self inc stamps Hn.
  assert (∀ c v w st, cell_depth c < n → value c = Some w → total (value_merge v w st)) as Hc.
  { intros c v w st Hlt Hw. apply (IH (value_depth w)); [|done].
    unfold cell_depth in Hlt. by rewrite Hw in Hlt. }
  destruct self, inc; simpl; try done; apply lift_total.
  1-7: by unfold total, scalar_merge; case_match.
  - unfold Counter.merge. destruct (merge_loop _ _ _ _) as [m r] eqn:E. unfold total; simpl.
    pose proof (merge_loop_total Counter.merge_entry (Counter.entries c) (Counter.entries c0) false) as Ht.
    rewrite E in Ht. apply Ht. intros. unfold total, Counter.merge_entry. by repeat case_match.
  - unfold total, MvRegister.merge. destruct (raise_clocks _ _ _) as [rm c].
    pose proof (merge_values_total rm (MvRegister.entries r) (MvRegister.entries r0) c) as Ht.
    destruct (MvRegister.merge_values _ _ _ _ _) as [m [c'|e|]]; try done.
    by destruct (foldl _ _ _).
  - unfold OrSet.merge. destruct (merge_loop _ _ _ _) as [m r] eqn:E. unfold total; simpl.
    pose proof (merge_loop_total OrSet.merge_entry (OrSet.entries s) (OrSet.entries s0) false) as Ht.
    rewrite E in Ht. apply Ht. intros. unfold total, OrSet.merge_entry. by repeat case_match.
  - unfold PriorityQueue.merge. destruct (merge_loop _ _ _ _) as [m r] eqn:E. unfold total; simpl.
    pose proof (merge_loop_total (PriorityQueue.merge_entry Value) (PriorityQueue.entries q)
      (PriorityQueue.entries q0) false) as Ht.
    rewrite E in Ht. apply Ht. intros. unfold total, PriorityQueue.merge_entry. by repeat case_match.
  - unfold LwwSet.merge. destruct (merge_loop _ _ _ _) as [m r] eqn:E. unfold total; simpl.
    pose proof (merge_loop_total LwwSet.merge_meta (LwwSet.entries s) (LwwSet.entries s0) false) as Ht.
    rewrite E in Ht. apply Ht. intros. unfold total, LwwSet.merge_meta. by repeat case_match.
  - unfold Text.merge. destruct (List.find _ _) as [[]|]; [done|].
    destruct (merge_loop _ _ _ _) as [m r] eqn:E. unfold total; simpl.
    pose proof (merge_loop_total (Text.merge_entry Value) (Text.entries t) (Text.entries t0) false) as Ht.
    rewrite E in Ht. apply Ht. intros. unfold total, Text.merge_entry. by repeat case_match.
  - unfold record_merge_with. destruct (merge_loop _ _ _ _) as [m x] eqn:E. unfold total; simpl.
    pose proof (merge_loop_total (record_body value_merge) (fields r) (fields r0) false) as Ht.
    rewrite E in Ht. apply Ht. intros k l c Hin. unfold record_body.
    assert (total (cell_merge_with value_merge l c (own_stamps l c))) as Hcm.
    { apply cell_merge_total. intros. apply (Hc c); [|done]. simpl in Hn.
      pose proof (foldr_max_le (λ p, cell_depth p.2) _ _ Hin) as Hle. unfold cell_depth in Hle at 2.
      simpl in Hle. lia. }
    unfold total in *. by destruct (cell_merge_with _ _ _ _) as [? []].
  - unfold list_merge_with. destruct (merge_loop _ _ _ _) as [m x] eqn:E. unfold total; simpl.
    pose proof (merge_loop_total (list_body value_merge) (list_entries l) (list_entries l0) false) as Ht.
    rewrite E in Ht. apply Ht. intros k e e' Hin. unfold list_body.
    assert (∀ a, total (cell_merge_with value_merge a (cell e') (own_stamps a (cell e')))) as Hcm.
    { intros a. apply cell_merge_total. intros. apply (Hc (cell e')); [|done]. simpl in Hn.
      pose proof (foldr_max_le (λ p, cell_depth (cell p.2)) _ _ Hin) as Hle.
      unfold cell_depth in Hle at 2. simpl in Hle. lia. }
    assert (∀ p after, total (resolve_position p k after)) as Hrp.
    { intros p after. unfold total, resolve_position. by repeat case_match. }
    unfold total in *.
    destruct (position_after (position e')) as [after|]; simpl.
    + specialize (Hrp e after). destruct (resolve_position e k after) as [e1 [c1|err|]]; try done.
      specialize (Hcm (cell e1)). by destruct (cell_merge_with _ (cell e1) _ _) as [? []].
    + specialize (Hcm (cell e)). by destruct (cell_merge_with _ (cell e) _ _) as [? []].
Qed.

Lemma cell_merge_never_panics self inc stamps : total (cell_merge self inc stamps).
Proof. apply cell_merge_total. intros v w st _. by apply (value_merge_total (value_depth w)). Qed.
Lemma list_apply_total self op stamps : total (list_apply self op stamps).
Proof.
  assert (∀ a b st, (cell_merge a b st).2 ≠ Panic) as Hcm by apply cell_merge_never_panics.
  destruct op as [after v|id]; unfold total, list_apply; (case_match; [done|]).
  - destruct (bt_get _ _) as [entry|]; [|done]. unfold resolve_position.
    repeat case_match; simplify_eq/=; try done;
      match goal with H : cell_merge ?a ?b ?st = _ |- _ =>
        specialize (Hcm a b st); rewrite H in Hcm; by destruct r || by destruct r0 || idtac end.
    all: match goal with |- rmap _ (map_err _ ?r) ≠ _ => by destruct r end.
  - destruct (bt_get _ _) as [entry|]; [|done].
    destruct (cell_merge _ _ _) as [c r] eqn:E. specialize (Hcm (cell entry)
      (mkCell None (incoming stamps)) (own_stamps (cell entry) (mkCell None (incoming stamps)))).
    rewrite E in Hcm. by destruct r.
Qed.
Lemma value_apply_total self op stamps : total (value_apply self op stamps).
Proof.
  destruct self, op; simpl; try done; apply lift_total.
  - destruct op. unfold total, Counter.apply. by repeat case_match.
  - destruct op. unfold total, MvRegister.apply. by repeat case_match.
  - destruct op; unfold total, OrSet.apply; by repeat case_match.
  - destruct op; unfold total, PriorityQueue.apply; by repeat case_match.
  - destruct op; unfold total, LwwSet.apply; by repeat case_match.
  - unfold total, Text.apply. by repeat case_match.

  - apply list_apply_total.
Qed.
Lemma ensure_type_live self tag inc self' :
  ensure_type self tag inc = (self', true) → cell_tag self' = Some tag.
Proof.
  unfold ensure_type. case_bool_decide as Ht; [by intros [= <-]|].
  case_match; intros [= <-]. unfold cell_tag; simpl. by destruct tag.
Qed.
Lemma cell_apply_total self op stamps : total (cell_apply self op stamps).
Proof.
  unfold total. destruct op as [op| |v|c]; simpl; [|by case_match|by case_match|apply cell_merge_never_panics].
  destruct (ensure_type self (op_tag op) (incoming stamps)) as [self' []] eqn:E; [|done]. simpl.
  apply ensure_type_live in E. unfold cell_tag in E.
  destruct (value self') as [v|]; [|done].
  pose proof (value_apply_total v op (mkMergeStamps (stamp self') (incoming stamps))) as Ht.
  unfold total in Ht. by destruct (value_apply _ _ _) as [? []].
Qed.
Lemma child_walk_total rec child op stamps remaining :
  (∀ c st, total (rec c op st)) → total (child_walk rec child op stamps remaining).
Proof.
  intros Hr. unfold child_walk, total. destruct (child_tag remaining op) as [tag|]; [|apply Hr].
  destruct (ensure_type _ _ _) as [c []]; simpl; [apply Hr|done].
Qed.
Lemma value_walk_total rec v op stamps seg remaining :
  (∀ c st, total (rec c op st)) → total (value_walk rec v op stamps seg remaining).
Proof.
  intros Hr. destruct v; simpl; try done; apply lift_total.
  - destruct seg as [f|id]; simpl; [|done]. unfold total.
    pose proof (child_walk_total rec (from_option id (fresh_child (child_tag remaining op))
      (bt_get f (fields r))) op stamps remaining Hr) as Ht. unfold total in Ht.
    by destruct (child_walk _ _ _ _ _) as [? []].
  - destruct seg as [f|id]; simpl; [done|]. unfold total. case_match; [done|].
    match goal with |- context [child_walk rec ?c op stamps remaining] =>
      pose proof (child_walk_total rec c op stamps remaining Hr) as Ht end.
    unfold total in Ht. by destruct (child_walk _ _ _ _ _) as [? []].
Qed.

Lemma cell_apply_walk_total path self op stamps : total (cell_apply_walk path self op stamps).
Proof.
  unfold total. revert self stamps. induction path as [|seg path IH]; intros self stamps; simpl;
    [apply cell_apply_total|].
  destruct (ensure_type _ _ _) as [self' []] eqn:E; simpl; [|done].
  apply ensure_type_live in E. unfold cell_tag in E. destruct (value self') as [v|]; [|done].
  pose proof (value_walk_total (cell_apply_walk path) v op
    (mkMergeStamps (stamp self') (incoming stamps)) seg path) as Ht. unfold total in Ht.
  destruct (value_walk _ _ _ _ _ _) as [v' r]; simpl in *. apply Ht. intros c st. apply IH.
Qed.
(** ** Properties *)

(** C17. No operation panics, at any path: the [expect]s after [ensure_type] are
    unreachable. *)
Theorem walk_never_panics (path : Path) (self : Cell) (op : Op) (stamps : MergeStamps) :
  (cell_apply_walk path self op stamps).2 ≠ Panic.
Proof.
  apply cell_apply_walk_total.
Qed.

(** ** Last writer wins *)
Definition written (op : Op) : option (option Value) :=
  match op with OpDelete => Some None | OpUpsert v => Some (Some v) | _ => None end.
Definition deliver (c : Cell) (h : list (Op * EventStamp)) : Cell :=
  foldl (λ c p, (cell_apply c p.1 (mkMergeStamps (stamp c) p.2)).1) c h.

Lemma apply_written c op w t st : written op = Some w →
  (cell_apply c op (mkMergeStamps st t)).1 = if t >? stamp c then mkCell w t else c.
Proof.
  destruct op; intros [= <-]; simpl; rewrite leb_gtb; by destruct (t >? stamp c).
Qed.
Lemma deliver_bound c h t :
  Forall (λ p, is_Some (written p.1) ∧ cmp p.2 t = Lt) h → cmp (stamp c) t = Lt →
  cmp (stamp (deliver c h)) t = Lt.
Proof.
  intros Hh. revert c. induction Hh as [|[op u] h [[w Hw] Hu] _ IH]; intros c Hc; simpl in *; [done|].
  apply IH. rewrite (apply_written _ _ w) by done. by case_match.
Qed.
Lemma deliver_newest c h :
  Forall (λ p, is_Some (written p.1) ∧ (p.2 >? stamp c) = false) h → deliver c h = c.
Proof.
  induction 1 as [|[op u] h [[w Hw] Hu] _ IH]; simpl in *; [done|].
  rewrite (apply_written _ _ w) by done. by rewrite Hu.
Qed.

(** Deletes and upserts of one cell, delivered in any order, leave the value
    of the one with the greatest stamp. *)
Theorem cell_last_writer_wins (c : Cell) (h1 h2 : list (Op * EventStamp)) (op : Op)
    (w : option Value) (t : EventStamp) :
  written op = Some w → cmp (stamp c) t = Lt →
  Forall (λ p, is_Some (written p.1) ∧ cmp p.2 t = Lt) (h1 ++ h2) →
  deliver c (h1 ++ (op, t) :: h2) = mkCell w t.
Proof.
  intros Hw Hc [H1 H2]%Forall_app. unfold deliver. rewrite foldl_app. simpl.
  fold (deliver c h1). rewrite (apply_written _ _ w) by done.
  assert ((t >? stamp (deliver c h1)) = true) as -> by (by apply gtb_lt, deliver_bound).
  apply deliver_newest. eapply Forall_impl; [exact H2|]. simpl. intros p [? Hp].
  split; [done|]. unfold gtb. by rewrite Hp.
Qed.

(** ** Paths *)
Definition zero_segment (s : Segment) : bool :=
  match s with SegList id => bool_decide (id = EventStamp_default) | _ => false end.
(** The path leads through live containers to [target], whose type is the
    one the operation expects. *)
Fixpoint reaches (path : Path) (op : Op) (c target : Cell) : Prop :=
  match path with
  | [] => c = target
  | s :: remaining =>
      cell_tag c = Some (segment_tag s) ∧ zero_segment s = false ∧
      ∃ child, cell_child c s = Some child ∧
        (∀ tag, child_tag remaining op = Some tag → cell_tag child = Some tag) ∧
        reaches remaining op child target
  end.

Lemma ensure_type_same c tag inc : cell_tag c = Some tag → ensure_type c tag inc = (c, true).
Proof. intros Ht. unfold ensure_type. by rewrite bool_decide_eq_true_2. Qed.
Lemma child_walk_typed rec child op stamps remaining :
  (∀ tag, child_tag remaining op = Some tag → cell_tag child = Some tag) →
  child_walk rec child op stamps remaining = rec child op (mkMergeStamps (stamp child) (incoming stamps)).
Proof.
  intros Ht. unfold child_walk. destruct (child_tag remaining op) as [tag|]; [|done].
  by rewrite ensure_type_same by auto.
Qed.

(** One step of the walk on a live container: the child is replaced by the
    walked child, every other child stays. *)
Lemma walk_step s remaining c child op stamps :
  cell_tag c = Some (segment_tag s) → zero_segment s = false → cell_child c s = Some child →
  (∀ tag, child_tag remaining op = Some tag → cell_tag child = Some tag) →
  let inner := cell_apply_walk remaining child op
                 (mkMergeStamps (stamp child) (incoming stamps)) in
  let outer := cell_apply_walk (s :: remaining) c op stamps in
  cell_child outer.1 s = Some inner.1 ∧
  (∀ s', s' ≠ s → cell_child outer.1 s' = cell_child c s') ∧
  (∀ b, inner.2 = Ok b → outer.2 = Ok b) ∧
  value outer.1 ≠ None.
Proof.
  intros Ht Hz Hch Htag. simpl. rewrite ensure_type_same by done. simpl.
  unfold cell_tag, cell_child in *. destruct (value c) as [v|] eqn:Ev; [|done]. simpl in *.
  destruct s as [f|id], v; simpl in *; simplify_eq.
  - rewrite Hch. simpl. rewrite child_walk_typed by done. simpl.
    destruct (cell_apply_walk _ _ _ _) as [c' r']; simpl. split_and!.
    + by rewrite bt_get_insert.
    + intros [g|id] Hne; simpl; [|done]. apply bt_get_insert_ne. congruence.
    + by intros b ->.
    + done.
  - rewrite Hz. destruct (bt_get id (list_entries l)) as [e|] eqn:He; simpl in *; simplify_eq.
    rewrite child_walk_typed by done. simpl.
    destruct (cell_apply_walk _ _ _ _) as [c' r']; simpl. split_and!.
    + by rewrite bt_get_insert.
    + intros [g|j] Hne; simpl; [done|]. rewrite bt_get_insert_ne by congruence. done.
    + by intros b ->.
    + done.
Qed.

Lemma cell_at_cons s remaining c :
  cell_at_path (s :: remaining) c = cell_child c s ≫= cell_at_path remaining.
Proof. unfold cell_child. simpl. by destruct (value c). Qed.

(** C36. An operation whose path leads through existing containers, each child
    of the type the next step expects, to a target of the type the operation expects
    ([reaches]), acts on the target exactly as [Cell::apply] does, and on
    nothing else: cells whose address neither extends nor is extended by the
    path are untouched.  On a field of another type it does not:
    [nested_upsert_lost]. *)
Theorem walk_focuses (path : Path) (c target : Cell) (op : Op) (stamps : MergeStamps) :
  reaches path op c target →
  let own := mkMergeStamps (stamp target) (incoming stamps) in
  cell_at_path path c = Some target ∧
  cell_at_path path (cell_apply_walk path c op stamps).1 = Some (cell_apply target op own).1 ∧
  (∀ b, (cell_apply target op own).2 = Ok b → (cell_apply_walk path c op stamps).2 = Ok b) ∧
  ∀ q, ¬ path `prefix_of` q → ¬ q `prefix_of` path →
    cell_at_path q (cell_apply_walk path c op stamps).1 = cell_at_path q c.
Proof.
  revert c stamps. induction path as [|s path IH]; intros c stamps Hr.
  { simpl in *. subst. split_and!; try done. intros q Hq. exfalso. apply Hq, prefix_nil. }
  destruct Hr as (Ht & Hz & child & Hch & Htag & Hr).
  destruct (walk_step s path c child op stamps Ht Hz Hch Htag) as (W1 & W2 & W3 & _).
  specialize (IH child (mkMergeStamps (stamp child) (incoming stamps)) Hr).
  simpl incoming in IH. destruct IH as (I0 & I1 & I2 & I3).
  split_and!.
  - by rewrite cell_at_cons, Hch.
  - rewrite cell_at_cons, W1. exact I1.
  - intros b Hb. by apply W3, I2.
  - intros [|s' q] Hpq Hqp; [exfalso; apply Hqp, prefix_nil|].
    rewrite !cell_at_cons. destruct (decide (s' = s)) as [->|Hne]; [|by rewrite W2].
    rewrite W1, Hch. simpl. apply I3; intros Hp.
    + by apply Hpq, prefix_cons.
    + by apply Hqp, prefix_cons.
Qed.

(** C39. An upsert that addresses an existing field of another type (or a deleted
    field) reports no change and leaves the empty value of the new type, not
    the value: [ensure_type] has already given the cell the stamp that the
    upsert is then compared with. *)
Theorem nested_upsert_lost (r : Record) (at_ : EventStamp) (field : rstring) (child : Cell)
    (v : Value) (stamps : MergeStamps) :
  bt_get field (fields r) = Some child →
  cell_tag child ≠ Some (type_tag v) →
  (incoming stamps >? cell_max_stamp child) = true →
  let after := cell_apply_walk [SegRecord field] (mkCell (Some (Record' r)) at_) (OpUpsert v) stamps in
  after.2 = Ok false ∧
  cell_at_path [SegRecord field] after.1 =
    Some (mkCell (Some (empty_value (type_tag v))) (incoming stamps)).
Proof.
  intros Hf Ht Hi. cbn [cell_apply_walk segment_tag].
  rewrite ensure_type_same by done. cbn [negb value value_walk record_walk].
  rewrite Hf. cbn [from_option id]. unfold child_walk. cbn [child_tag op_type_tag].
  unfold ensure_type. cbn [incoming]. rewrite bool_decide_eq_false_2, Hi by done. simpl.
  rewrite leb_refl. simpl. split; [done|]. by rewrite bt_get_insert.
Qed.
End CellOps.
