(* ===== verification/Backend.v ===== *)
(** * Storage backends: [zendb-storage/src/backend/_traits.rs]

    The traits are classes: [Backend] is [ReadBackend] and [WriteBackend] (what
    an engine must implement), [OrderedBackend] is [OrderedReadBackend].  The
    provided methods are definitions over the classes.  A backend's contract is
    [BackendLaws]: it is a finite map, [entries] being its contents; the
    clients ([State], [Table], [Topic]) are proved against the contract and the
    engines discharge it.

    An iterator is the list it yields; a [&mut self] method returns the new
    state with its result, since a method that fails may have written. *)
From stdpp Require Import base numbers option sorting list.
From S2P Require Import Prelude Order BTreeMap.

(** What a storage operation reports; [Io] is an error of the operating
    system. *)
Inductive io_error :=
  | StorageFull
  | AlreadyExists
  | InvalidData
  | UnexpectedEof
  | Io (code : Z)
  | OtherError.
#[export] Instance io_error_eq_dec : EqDecision io_error.
Proof. solve_decision. Defined.
Abbreviation io A := (result io_error A).

(** What a read that cannot fail returned. *)
Definition or_else {A} (d : A) (r : io A) : A := match r with Ok a => a | _ => d end.

Class Backend (B K V : Type) := {
  get : B → K → option V;
  contains : B → K → bool;
  entries : B → list (K * V);
  size : B → nat;
  put : K → V → B → B * io unit;
  delete : K → B → B * io bool;
  clear : B → B * io unit;
}.

Class OrderedBackend (B K V : Type) := {
  range : B → K → K → list (K * V);
  first : B → option (K * V);
  last_entry : B → option (K * V);
  entries_rev : B → list (K * V);
  range_rev : B → K → K → list (K * V);
}.

(** [DurableStorage], on a state already opened. *)
Class Durable (B : Type) := {
  compact : B → B * io unit;
  flush : B → B * io unit;
  sync : B → B * io unit;
}.
(** [config().capacity] of an in-memory backend: [None] when unbounded. *)
Class Bounded (B : Type) := capacity : B → option nat.

(** ** Provided methods *)
Section Provided.
Context {B K V : Type} `{Backend B K V}.
Implicit Types (b : B) (k : K) (v : V).

Definition default_contains b k : bool := is_some (get b k).
Definition keys b : list K := map fst (entries b).
Definition values b : list V := map snd (entries b).
Definition is_empty b : bool := size b =? 0.

(** The [?] of a [&mut self] call: the state is kept, the error returned. *)
Definition and_then {A C} (r : B * io A) (f : B → A → B * io C) : B * io C :=
  match r with
  | (b, Ok a) => f b a
  | (b, Err e) => (b, Err e)
  | (b, Panic) => (b, Panic)
  end.

Definition put_if_absent k v b : B * io bool :=
  if contains b k then (b, Ok false)
  else and_then (put k v b) (λ b _, (b, Ok true)).
Definition replace k v b : B * io (option V) :=
  let previous := get b k in
  and_then (put k v b) (λ b _, (b, Ok previous)).
Fixpoint bulk_put (items : list (K * V)) b : B * io unit :=
  match items with
  | [] => (b, Ok tt)
  | (k, v) :: items => and_then (put k v b) (λ b _, bulk_put items b)
  end.
Definition bulk_put_sorted (items : list (K * V)) b : B * io unit := bulk_put items b.
Fixpoint bulk_delete_loop (removed : nat) (ks : list K) b : B * io nat :=
  match ks with
  | [] => (b, Ok removed)
  | k :: ks =>
      and_then (delete k b) (λ b gone,
        bulk_delete_loop (if gone then removed + 1 else removed) ks b)
  end.
Definition bulk_delete (ks : list K) b : B * io nat := bulk_delete_loop 0 ks b.
Definition bulk_delete_sorted (ks : list K) b : B * io nat := bulk_delete ks b.
Definition update k (f : option V → option V) b : B * io unit :=
  let current := get b k in
  match is_some current, f current with
  | _, Some v => put k v b
  | true, None => and_then (delete k b) (λ b _, (b, Ok tt))
  | false, None => (b, Ok tt)
  end.

(** Of [OrderedReadBackend]. *)
Definition default_first b : option (K * V) := head (entries b).
Definition default_last b : option (K * V) := last (entries b).
End Provided.

(** ** The contract *)
Section Contract.
Context {B K V : Type} `{TotalCmp K, Backend B K V}.

(** Two states hold the same entry at [k]. *)
Definition same_at (b b' : B) (k : K) : Prop := get b k = get b' k.

Class BackendLaws := {
  backend_wf : B → Prop;
  get_entries b k : backend_wf b → get b k = bt_get k (entries b);
  keys_nodup b : backend_wf b → NoDup (keys b);
  size_entries b : backend_wf b → size b = length (entries b);
  contains_get b k : backend_wf b → contains b k = is_some (get b k);
  put_law k v b : backend_wf b → let (b', r) := put k v b in
    backend_wf b' ∧ r ≠ Panic ∧ (∀ j, j ≠ k → get b' j = get b j) ∧
    match r with Ok _ => get b' k = Some v | _ => get b' k = get b k end;
  delete_law k b : backend_wf b → let (b', r) := delete k b in
    backend_wf b' ∧ r ≠ Panic ∧ (∀ j, j ≠ k → get b' j = get b j) ∧
    match r with Ok gone => gone = is_some (get b k) ∧ get b' k = None | _ => True end;
  clear_law b : backend_wf b → let (b', r) := clear b in
    backend_wf b' ∧ r ≠ Panic ∧
    match r with Ok _ => ∀ j, get b' j = None | _ => True end;
}.
(** Iteration in key order. *)
Class NativeOrder `{BackendLaws} := {
  entries_sorted b : backend_wf b → bt_wf (entries b);
}.

(** The entries of a backend in key order, whatever its own order is. *)
Definition ascending (l : list (K * V)) : list (K * V) := sort_by (λ p q, p.1 <=? q.1) l.
Definition within (s e : K) (p : K * V) : bool := (s <=? p.1) && (p.1 <? e).
Class OrderedLaws `{BackendLaws} `{OrderedBackend B K V} := {
  range_law b s e : backend_wf b → range b s e = List.filter (within s e) (ascending (entries b));
  range_rev_law b s e : backend_wf b → range_rev b s e = rev (range b s e);
  entries_rev_law b : backend_wf b → entries_rev b = rev (ascending (entries b));
  first_law b : backend_wf b → first b = head (ascending (entries b));
  last_law b : backend_wf b → last_entry b = last (ascending (entries b));
}.

(** Writeback changes no entry; a bounded backend with room, or one that
    already has the key, accepts a write and keeps its capacity. *)
Class DurableLaws `{BackendLaws} `{Durable B} := {
  compact_law b : backend_wf b → let (b', r) := compact b in
    backend_wf b' ∧ r ≠ Panic ∧ ∀ k, get b' k = get b k;
  flush_law b : backend_wf b → let (b', r) := flush b in
    backend_wf b' ∧ r ≠ Panic ∧ ∀ k, get b' k = get b k;
  sync_law b : backend_wf b → let (b', r) := sync b in
    backend_wf b' ∧ r ≠ Panic ∧ ∀ k, get b' k = get b k;
}.
Definition writes_nothing `{BackendLaws} (f : B → B * io unit) : Prop := ∀ b, backend_wf b →
  let (b', r) := f b in backend_wf b' ∧ r ≠ Panic ∧ ∀ k, get b' k = get b k.
(** A backend whose writes do not fail: enough room, no I/O error, and no
    refusal of the entries that [fits] allows. *)
Definition reliable `{Durable B} (fits : K → V → Prop) (wf : B → Prop) : Prop := ∀ b, wf b →
  (∀ k v, fits k v → (put k v b).2 = Ok tt) ∧ (∀ k, is_ok (delete k b).2 = true) ∧ (sync b).2 = Ok tt.
Class BoundedLaws `{BackendLaws} `{Bounded B} := {
  put_room k v b : backend_wf b →
    (is_Some (get b k) ∨ match capacity b with Some n => size b < n | None => True end) →
    (put k v b).2 = Ok tt;
  put_capacity k v b : backend_wf b → capacity (put k v b).1 = capacity b;
  clear_capacity b : backend_wf b → capacity (clear b).1 = capacity b;
  clear_ok b : backend_wf b → (clear b).2 = Ok tt;
}.
End Contract.
Arguments DurableLaws B K V {_ _ _ _}.
Arguments BoundedLaws B K V {_ _ _ _}.
Arguments BackendLaws B K V {_ _}.
Arguments NativeOrder B K V {_ _ _}.
Arguments OrderedLaws B K V {_ _ _ _}.

(** ** Facts the contract gives *)
Section Facts.
Context {B K V : Type} `{TotalCmp K} `{!Backend B K V, !BackendLaws B K V}.
Implicit Types (b : B) (k j : K) (v : V).

Lemma nodup_get (l : list (K * V)) k v : NoDup (map fst l) → bt_get k l = Some v ↔ (k, v) ∈ l.
Proof using H0.
  induction l as [|[k' v'] l IH]; simpl; intros Hnd.
  { split; [done|]. intros Hx. by apply elem_of_nil in Hx. }
  apply NoDup_cons in Hnd as [Hk Hnd]. specialize (IH Hnd). rewrite elem_of_cons.
  destruct (cmpP k k') as [->|Hne|Hne].
  - split; [intros [=->]; by left|]. intros [[=->]|Hin]; [done|]. destruct Hk.
    apply list_elem_of_fmap. by exists (k', v).
  - rewrite IH. split; [by right|]. intros [[=-> ->]|?]; [|done]. by rewrite cmp_refl in Hne.
  - rewrite IH. split; [by right|]. intros [[=-> ->]|?]; [|done]. by rewrite cmp_refl in Hne.
Qed.
Lemma get_elem b k v : backend_wf b → get b k = Some v ↔ (k, v) ∈ entries b.
Proof. intros Hb. rewrite get_entries by done. apply nodup_get. by apply keys_nodup. Qed.
Lemma elem_keys b k : backend_wf b → k ∈ keys b ↔ is_Some (get b k).
Proof.
  intros Hb. unfold keys. rewrite list_elem_of_fmap. split.
  - intros ([k' v] & -> & Hin). exists v. by apply get_elem.
  - intros [v Hv]. exists (k, v). by rewrite <- get_elem.
Qed.
Lemma empty_get b : backend_wf b → is_empty b = true → ∀ k, get b k = None.
Proof.
  intros Hb He k. unfold is_empty in He. apply Nat.eqb_eq in He. rewrite size_entries in He by done.
  rewrite get_entries by done. by destruct (entries b).
Qed.
(** The size depends on the contents only. *)
Lemma size_ext b b' : backend_wf b → backend_wf b' →
  (∀ k, is_Some (get b k) ↔ is_Some (get b' k)) → size b = size b'.
Proof.
  intros Hb Hb' Heq. rewrite !size_entries by done.
  rewrite <- !(length_map fst). apply Permutation_length. apply NoDup_Permutation.
  - by apply keys_nodup.
  - by apply keys_nodup.
  - intros k. change (k ∈ keys b ↔ k ∈ keys b'). by rewrite !elem_keys.
Qed.
Lemma size_insert b b' k : backend_wf b → backend_wf b' → get b k = None → is_Some (get b' k) →
  (∀ j, j ≠ k → is_Some (get b j) ↔ is_Some (get b' j)) → size b' = size b + 1.
Proof.
  intros Hb Hb' Hn Hs Heq. rewrite !size_entries by done. rewrite <- !(length_map fst).
  change (length (keys b') = length (keys b) + 1).
  replace (length (keys b) + 1) with (length (k :: keys b)) by (simpl; lia).
  apply Permutation_length. apply NoDup_Permutation.
  - by apply keys_nodup.
  - apply NoDup_cons. split; [|by apply keys_nodup]. rewrite elem_keys by done. rewrite Hn. by intros [].
  - intros j. rewrite elem_of_cons, !elem_keys by done.
    destruct (cmpP j k) as [->|Hj|Hj]; [tauto|..];
      assert (j ≠ k) as Hne by (intros ->; by rewrite cmp_refl in Hj);
      specialize (Heq j Hne); tauto.
Qed.

(** One step of a loop over [put]: either it went through, or the loop
    stopped with the state the failing call left. *)
Lemma put_ok k v b b' : backend_wf b → put k v b = (b', Ok tt) →
  backend_wf b' ∧ get b' k = Some v ∧ ∀ j, j ≠ k → get b' j = get b j.
Proof. intros Hb Hp. pose proof (put_law k v b Hb) as Hl. rewrite Hp in Hl. tauto. Qed.

(** [bulk_put] goes through or stops; what it wrote are entries of the
    input, the last of each key when it went through. *)
Definition overlay (l : list (K * V)) (f : K → option V) (k : K) : option V :=
  foldl (λ o p, match cmp k p.1 with Eq => Some p.2 | _ => o end) (f k) l.
Lemma overlay_cons k v l f j :
  overlay ((k, v) :: l) f j = overlay l (λ i, match cmp i k with Eq => Some v | _ => f i end) j.
Proof using Type. done. Qed.
Lemma overlay_ext l f g j : f j = g j → overlay l f j = overlay l g j.
Proof using Type. unfold overlay. by intros ->. Qed.
Lemma overlay_nodup l f j : NoDup (map fst l) →
  overlay l f j = match bt_get j l with Some v => Some v | None => f j end.
Proof using H0.
  revert f. induction l as [|[k v] l IH]; intros f; [done|]. intros Hnd.
  apply NoDup_cons in Hnd as [Hk Hnd]. rewrite overlay_cons, IH by done. simpl.
  destruct (cmpP j k) as [->|Hj|Hj]; [|done..].
  destruct (bt_get k l) as [w|] eqn:E; [|done].
  destruct Hk. apply (nodup_get _ _ _ Hnd) in E. apply list_elem_of_fmap. by exists (k, w).
Qed.
Lemma bulk_put_spec items b b' r : backend_wf b → bulk_put items b = (b', r) →
  backend_wf b' ∧ r ≠ Panic ∧
  (r = Ok tt → ∀ k, get b' k = overlay items (get b) k) ∧
  (∀ k, get b' k = get b k ∨ ∃ v, (k, v) ∈ items ∧ get b' k = Some v).
Proof.
  revert b. induction items as [|[k v] items IH]; intros b Hb; simpl.
  - intros [= <- <-]. split_and!; [done|done|done|]. intros k. by left.
  - pose proof (put_law k v b Hb) as Hl. destruct (put k v b) as [b1 r1]; simpl.
    destruct Hl as (Hb1 & Hnp & Hother & Hk).
    assert (∀ j, get b1 j = get b j ∨ j = k ∧ get b1 j = get b1 k) as Hj.
    { intros j. destruct (cmpP j k) as [->|Hj|Hj]; [by right|..]; left; apply Hother; intros ->;
        by rewrite cmp_refl in Hj. }
    destruct r1 as [[]|e|]; simpl; [|..|done].
    + intros Hrest. destruct (IH b1 Hb1 Hrest) as (H1 & H2 & H3 & H4). split_and!; [done|done|..].
      * intros Hr j. rewrite (H3 Hr j), overlay_cons. apply overlay_ext.
        destruct (cmpP j k) as [->|Hjk|Hjk]; [done|..]; apply Hother; intros ->; by rewrite cmp_refl in Hjk.
      * intros j. destruct (H4 j) as [H4'|(w & Hin & Hw)]; [|right; exists w; split; [by right|done]].
        rewrite H4'. destruct (Hj j) as [?|[-> _]]; [by left|]. right. exists v. split; [by left|done].
    + intros [= <- <-]. split_and!; [done|done|done|].
      intros j. left. destruct (Hj j) as [?|[-> _]]; done.
Qed.

(** ** Properties *)

(** The provided [update] is the map's read-modify-write: the entry of the
    key becomes what the function returns, every other entry is kept, and no
    deletion is attempted on an absent key. *)
Theorem backend_update (k : K) (f : option V → option V) (b b' : B) :
  backend_wf b → update k f b = (b', Ok tt) →
  backend_wf b' ∧ get b' k = f (get b k) ∧ ∀ j, j ≠ k → get b' j = get b j.
Proof.
  intros Hb. unfold update. destruct (f (get b k)) as [v|] eqn:Ef.
  - destruct (is_some (get b k)); intros Hp; by apply put_ok.
  - pose proof (delete_law k b Hb) as Hd. destruct (get b k) as [w|] eqn:Eg; simpl.
    + destruct (delete k b) as [b1 [gone|e|]]; simpl; [|done|done].
      intros [= <-]. destruct Hd as (? & _ & ? & _ & ?). done.
    + intros [= <-]. done.
Qed.
End Facts.
