(* ===== verification/MapBackend.v ===== *)
(** * A reference backend: an ordered map in memory

    The smallest engine that meets the contract of [Backend.v], writes never
    failing.  It is the specification the engines refine, and the backend the
    concrete evaluations of the development run on. *)
From stdpp Require Import base numbers option sorting list.
From S2P Require Import Prelude Order BTreeMap Backend.

(** * Entries in key order

    Sorted lists of entries: the map they are, and that they are the only
    sorting of their permutations.  The ordered reads of [State.v], [Table.v]
    and of the engines are proved with these. *)
Section Ascending.
Context {K V : Type} `{TotalCmp K}.
Implicit Types (l : list (K * V)).
Definition key_le (p q : K * V) : bool := p.1 <=? q.1.

Lemma bt_wf_sorted l : bt_wf l ↔ StronglySorted (λ p q, key_le p q = true ∧ key_le q p = false) l.
Proof.
  assert (∀ p q : K * V, key_le p q = true ∧ key_le q p = false ↔ cmp p.1 q.1 = Lt) as Hlt.
  { intros p q. unfold key_le, leb. destruct (cmpP p.1 q.1) as [E|E E'|E E'].
    - rewrite E, cmp_refl. naive_solver.
    - rewrite E'. naive_solver.
    - rewrite E'. naive_solver. }
  induction l as [|[k v] l IH]; simpl; [split; [constructor|done]|].
  split.
  - intros [HF Hl]. constructor; [by apply IH|]. eapply Forall_impl; [exact HF|].
    intros p Hp. by apply Hlt.
  - intros Hs. apply StronglySorted_cons in Hs as [HF Hl]. split; [|by apply IH].
    eapply Forall_impl; [exact HF|]. intros p Hp. by apply Hlt in Hp.
Qed.
Lemma key_le_total p q : key_le p q = true ∨ key_le q p = true.
Proof. apply (leb_total p.1 q.1). Qed.
Lemma key_le_trans p q r : key_le p q = true → key_le q r = true → key_le p r = true.
Proof. apply (leb_trans p.1 q.1 r.1). Qed.
Lemma ascending_unique l l' : bt_wf l' → l ≡ₚ l' → ascending l = l'.
Proof.
  intros Hl' Hp. apply sort_by_unique; [apply key_le_total|apply key_le_trans|by apply bt_wf_sorted|done].
Qed.
Lemma sorted_wf l : NoDup (map fst l) → StronglySorted (λ p q, key_le p q = true) l → bt_wf l.
Proof.
  intros Hnd Hs. induction Hs as [|[k v] l Hs IH HF]; simpl in *; [done|].
  apply NoDup_cons in Hnd as [Hk Hnd]. split; [|by apply IH]. rewrite Forall_forall in *.
  intros q Hq. specialize (HF q Hq). unfold key_le, leb in HF. simpl in HF.
  destruct (cmpP k q.1) as [->|E E'|E E']; [|done|done]. destruct Hk. apply list_elem_of_fmap. by exists q.
Qed.
Lemma ascending_wf l : NoDup (map fst l) → bt_wf (ascending l).
Proof.
  intros Hnd. apply sorted_wf.
  - unfold ascending. by rewrite (sort_by_perm _ l).
  - apply sort_by_sorted; [apply key_le_total|apply key_le_trans].
Qed.
Lemma bt_wf_filter (p : K * V → bool) l : bt_wf l → bt_wf (List.filter p l).
Proof.
  induction l as [|[k v] l IH]; simpl; [done|]. intros [HF Hl].
  assert (Forall (λ q, cmp k q.1 = Lt) (List.filter p l)) as HF'.
  { rewrite Forall_forall in *. intros q Hq. apply HF. apply list_elem_of_In, filter_In in Hq.
    apply list_elem_of_In, Hq. }
  destruct (p (k, v)); simpl; auto.
Qed.
Lemma nodup_keys_filter (p : K * V → bool) l : NoDup (map fst l) → NoDup (map fst (List.filter p l)).
Proof using Type.
  induction l as [|q l IH]; simpl; [done|]. intros [Hq Hnd]%NoDup_cons.
  case_match; simpl; [|by apply IH]. apply NoDup_cons. split; [|by apply IH]. intros Hin. apply Hq.
  apply list_elem_of_fmap in Hin as (r & -> & Hr). apply list_elem_of_In, filter_In in Hr as [Hr _].
  apply list_elem_of_fmap. exists r. split; [done|]. by apply list_elem_of_In.
Qed.
Lemma bt_get_filter (p : K * V → bool) l k : NoDup (map fst l) →
  bt_get k (List.filter p l) = match bt_get k l with
                               | Some v => if p (k, v) then Some v else None | None => None end.
Proof.
  induction l as [|[k' v] l IH]; intros Hnd; simpl; [done|].
  apply NoDup_cons in Hnd as [Hk Hnd]. specialize (IH Hnd).
  destruct (p (k', v)) eqn:Ep; simpl; destruct (cmpP k k') as [->|E E'|E E']; rewrite ?Ep; try done.
  rewrite IH. destruct (bt_get k' l) as [w|] eqn:Eg; [|done]. destruct Hk.
  apply bt_get_In in Eg. apply list_elem_of_fmap. by exists (k', w).
Qed.
Lemma perm_get l l' k : NoDup (map fst l) → l ≡ₚ l' → bt_get k l' = bt_get k l.
Proof.
  intros Hnd Hp. assert (NoDup (map fst l')) as Hnd' by (by rewrite <- Hp).
  destruct (bt_get k l) as [v|] eqn:E.
  - apply nodup_get; [done|]. rewrite <- Hp. by apply nodup_get.
  - destruct (bt_get k l') as [v|] eqn:E'; [|done].
    apply nodup_get in E'; [|done]. rewrite <- Hp in E'. apply nodup_get in E'; [congruence|done].
Qed.
End Ascending.

(** * A reference backend: an ordered map in memory *)
Section MapBackend.
Context {K V : Type} `{TotalCmp K}.

#[export] Instance map_backend : Backend (btree K V) K V := {|
  get b k := bt_get k b;
  contains b k := bt_contains k b;
  entries b := b;
  size b := length b;
  put k v b := (bt_insert k v b, Ok tt);
  delete k b := (bt_remove k b, Ok (is_some (bt_get k b)));
  clear b := ([], Ok tt);
|}.
#[export] Instance map_laws : BackendLaws (btree K V) K V.
Proof.
  refine {| backend_wf := bt_wf |}; try done.
  - intros b Hb. by apply bt_keys_NoDup.
  - intros k v b Hb. cbn. split_and!; [by apply bt_wf_insert|done| |].
    + intros j Hj. by apply bt_get_insert_ne.
    + apply bt_get_insert.
  - intros k b Hb. cbn. split_and!; [by apply bt_wf_remove|done| |done|].
    + intros j Hj. by apply bt_get_remove_ne.
    + apply bt_get_remove.
Defined.
#[export] Instance map_native : NativeOrder (btree K V) K V.
Proof. by constructor. Qed.

(** Ordered reads, a write-back with nothing to do, and no bound. *)
#[export] Instance map_ordered : OrderedBackend (btree K V) K V := {|
  range b s e := List.filter (within s e) b;
  first b := head b;
  last_entry b := last b;
  entries_rev b := rev b;
  range_rev b s e := rev (List.filter (within s e) b);
|}.
#[export] Instance map_durable : Durable (btree K V) := {|
  compact b := (b, Ok tt); flush b := (b, Ok tt); sync b := (b, Ok tt) |}.
#[export] Instance map_bounded : Bounded (btree K V) := λ _, None.
#[export] Instance map_ordered_laws : OrderedLaws (btree K V) K V.
Proof.
  assert (∀ b : btree K V, bt_wf b → ascending b = b) as Ha by (intros b Hb; by apply ascending_unique).
  constructor; intros b **; cbn -[ascending]; rewrite ?Ha; done.
Qed.
#[export] Instance map_durable_laws : DurableLaws (btree K V) K V.
Proof. by constructor. Qed.
#[export] Instance map_bounded_laws : BoundedLaws (btree K V) K V.
Proof. by constructor. Qed.
Lemma map_reliable fits : reliable (B:=btree K V) fits backend_wf.
Proof. by intros b Hb. Qed.
End MapBackend.
