(* ===== verification/Engine.v ===== *)
(** * The operations of a storage engine, as data

    What the engines are compared with: the writes of [WriteBackend] and their
    answers, to be run one after the other on an engine and on a map. *)
From stdpp Require Import base numbers option list.
From S2P Require Import Prelude Order BTreeMap Backend.

Inductive op (K V : Type) :=
  | Put (k : K) (v : V)
  | PutIfAbsent (k : K) (v : V)
  | Replace (k : K) (v : V)
  | Delete (k : K)
  | Update (k : K) (f : option V → option V)
  | Clear.
Arguments Put {_ _} _ _. Arguments PutIfAbsent {_ _} _ _. Arguments Replace {_ _} _ _.
Arguments Delete {_ _} _. Arguments Update {_ _} _ _. Arguments Clear {_ _}.
Inductive answer (V : Type) := Done | Flag (b : bool) | Previous (o : option V).
Arguments Done {_}. Arguments Flag {_} _. Arguments Previous {_} _.

Section Run.
Context {O S V : Type} (step : O → S → S * io (answer V)).
Fixpoint run_ops (ops : list O) (s : S) : S * list (io (answer V)) :=
  match ops with
  | [] => (s, [])
  | o :: ops => let (s, r) := step o s in let (s, rs) := run_ops ops s in (s, r :: rs)
  end.
End Run.

(** The operations on a map whose insertions [insert] decides. *)
Section Spec.
Context {K V : Type} `{TotalCmp K} (insert : K → V → btree K V → answer V → btree K V * io (answer V)).
Definition map_step (o : op K V) (m : btree K V) : btree K V * io (answer V) :=
  match o with
  | Put k v => insert k v m Done
  | PutIfAbsent k v => if bt_contains k m then (m, Ok (Flag false)) else insert k v m (Flag true)
  | Replace k v => insert k v m (Previous (bt_get k m))
  | Delete k => (bt_remove k m, Ok (Flag (bt_contains k m)))
  | Update k f =>
      match f (bt_get k m) with
      | Some v => insert k v m Done
      | None => (bt_remove k m, Ok Done)
      end
  | Clear => ([], Ok Done)
  end.
End Spec.
