(* ===== verification/SkipList.v ===== *)
(** * The skip list: [zendb-storage/src/backend/skiplist.rs]

    Nodes live in an arena and link to each other by index, one chain per
    level; [sl_heads] starts the chains.  An index out of range, an [expect] on
    a missing value or a counter below zero is [Panic].  The free list is a
    stack, its top first.  [fast_rand] draws from a thread-local seed: the list
    carries the seed its next draw finds. *)
From stdpp Require Import base numbers option list.
From S2P Require Import Prelude Bytes Order BTreeMap Backend.

Module SkipList.
Definition MAX_LEVEL : nat := 16.
Abbreviation Links := (list (option nat)).
Definition no_links : Links := replicate MAX_LEVEL None.

Section SkipList.
Context {K V : Type} `{TotalCmp K}.

Record Node := mkNode {
  n_key : K; n_value : option V; n_next : Links; n_prev : option nat; n_level : nat }.
Record SkipList := mkSkipList {
  sl_arena : list Node;
  sl_free : list nat;
  sl_heads : Links;
  sl_tail : option nat;
  sl_height : nat;
  sl_capacity : option nat;
  sl_entries : nat;
  sl_seed : Z }.
Implicit Types (s : SkipList) (k : K) (v : V).

Definition set_arena a s := mkSkipList a (sl_free s) (sl_heads s) (sl_tail s) (sl_height s)
  (sl_capacity s) (sl_entries s) (sl_seed s).
Definition set_free f s := mkSkipList (sl_arena s) f (sl_heads s) (sl_tail s) (sl_height s)
  (sl_capacity s) (sl_entries s) (sl_seed s).
Definition set_heads h s := mkSkipList (sl_arena s) (sl_free s) h (sl_tail s) (sl_height s)
  (sl_capacity s) (sl_entries s) (sl_seed s).
Definition set_tail t s := mkSkipList (sl_arena s) (sl_free s) (sl_heads s) t (sl_height s)
  (sl_capacity s) (sl_entries s) (sl_seed s).
Definition set_height h s := mkSkipList (sl_arena s) (sl_free s) (sl_heads s) (sl_tail s) h
  (sl_capacity s) (sl_entries s) (sl_seed s).
Definition set_entries n s := mkSkipList (sl_arena s) (sl_free s) (sl_heads s) (sl_tail s)
  (sl_height s) (sl_capacity s) n (sl_seed s).
Definition set_seed z s := mkSkipList (sl_arena s) (sl_free s) (sl_heads s) (sl_tail s)
  (sl_height s) (sl_capacity s) (sl_entries s) z.
Definition with_value (value : option V) n := mkNode (n_key n) value (n_next n) (n_prev n) (n_level n).
Definition with_next l n := mkNode (n_key n) (n_value n) l (n_prev n) (n_level n).
Definition with_prev p n := mkNode (n_key n) (n_value n) (n_next n) p (n_level n).

(** [vec[i]], and an assignment through it. *)
Definition at_index {A} (l : list A) (i : nat) : io A :=
  match l !! i with Some a => Ok a | None => Panic end.
Definition put_index {A} (l : list A) (i : nat) (a : A) : io (list A) :=
  match l !! i with Some _ => Ok (<[i := a]> l) | None => Panic end.
Definition set_node (i : nat) (f : Node → Node) s : io SkipList :=
  n <-? at_index (sl_arena s) i ;; Ok (set_arena (<[i := f n]> (sl_arena s)) s).

(** The link a predecessor ([None] is the list's head) has at a level. *)
Definition next_of s (previous : option nat) (level : nat) : io (option nat) :=
  match previous with
  | Some i => n <-? at_index (sl_arena s) i ;; at_index (n_next n) level
  | None => at_index (sl_heads s) level
  end.
Definition set_next (previous : option nat) (level : nat) (target : option nat) s : io SkipList :=
  match previous with
  | Some i =>
      n <-? at_index (sl_arena s) i ;;
      l <-? put_index (n_next n) level target ;;
      Ok (set_arena (<[i := with_next l n]> (sl_arena s)) s)
  | None => h <-? put_index (sl_heads s) level target ;; Ok (set_heads h s)
  end.

Definition new (capacity : option nat) (seed : Z) : SkipList :=
  mkSkipList [] [] no_links None 0 capacity 0 seed.

(** ** Search *)
(** The inner loop of [search]: the last node below the key on this level,
    and the node that has it. *)
Fixpoint search_level (fuel : nat) s k (level : nat) (previous current : option nat) :
    io (option nat * option nat) :=
  match current with
  | None => Ok (previous, None)
  | Some index =>
      match fuel with
      | O => Panic
      | S fuel =>
          n <-? at_index (sl_arena s) index ;;
          match cmp (n_key n) k with
          | Lt => next <-? at_index (n_next n) level ;; search_level fuel s k level (Some index) next
          | Eq => Ok (previous, Some index)
          | Gt => Ok (previous, None)
          end
      end
  end.
(** The outer loop, over the [level]s below. *)
Fixpoint search_down (levels : nat) s k (previous : option nat) (update : Links) (found : option nat) :
    io (Links * option nat) :=
  match levels with
  | O => Ok (update, found)
  | S level =>
      current <-? next_of s previous level ;;
      r <-? search_level (S (length (sl_arena s))) s k level previous current ;;
      update <-? put_index update level r.1 ;;
      search_down level s k r.1 update (match r.2 with Some i => Some i | None => found end)
  end.
Definition search s k : io (Links * option nat) := search_down (sl_height s) s k None no_links None.

(** ** Insertion *)
Definition alloc k v (level : nat) s : SkipList * io nat :=
  let node := mkNode k (Some v) no_links None level in
  match sl_free s with
  | index :: free =>
      match put_index (sl_arena s) index node with
      | Ok arena => (set_arena arena (set_free free s), Ok index)
      | _ => (set_free free s, Panic)
      end
  | [] =>
      if match sl_capacity s with Some max_entries => max_entries <=? length (sl_arena s) | None => false end%nat
      then (s, Err StorageFull)
      else (set_arena (sl_arena s ++ [node]) s, Ok (length (sl_arena s)))
  end.
(** The coin flips. *)
Fixpoint draw_level (fuel level : nat) (seed : Z) : nat * Z :=
  match fuel with
  | O => (level, seed)
  | S fuel =>
      if (level <? MAX_LEVEL)%nat then
        let seed := fast_rand seed in
        if (Z.land seed 1 =? 0)%Z then draw_level fuel (S level) seed else (level, seed)
      else (level, seed)
  end.
(** [update.iter().copied().enumerate().take(level)]. *)
Definition enumerated (update : Links) (level : nat) : list (nat * option nat) :=
  take level (zip (seq 0 (length update)) update).
Fixpoint link_levels (index : nat) (levels : list (nat * option nat)) s : io SkipList :=
  match levels with
  | [] => Ok s
  | (level, previous) :: levels =>
      next <-? next_of s previous level ;;
      s <-? set_next (Some index) level next s ;;
      s <-? set_next previous level (Some index) s ;;
      link_levels index levels s
  end.
(** What follows [alloc] in [insert_new]. *)
Definition link_node (index level : nat) (update : Links) s : io SkipList :=
  let s := set_height (Nat.max (sl_height s) level) s in
  before <-? at_index update 0 ;;
  s <-? set_node index (with_prev before) s ;;
  s <-? link_levels index (enumerated update level) s ;;
  next <-? next_of s (Some index) 0 ;;
  s <-? match next with
        | Some next => set_node next (with_prev (Some index)) s
        | None => Ok (set_tail (Some index) s)
        end ;;
  Ok (set_entries (sl_entries s + 1) s).
Definition insert_new k v (update : Links) s : SkipList * io nat :=
  let '(level, seed) := draw_level MAX_LEVEL 1 (sl_seed s) in
  and_then (alloc k v level (set_seed seed s)) (λ s index,
    match link_node index level update s with
    | Ok s => (s, Ok index)
    | Err e => (s, Err e)
    | Panic => (s, Panic)
    end).

(** ** Removal *)
Fixpoint unlink_levels (index : nat) (levels : list (nat * option nat)) s : io SkipList :=
  match levels with
  | [] => Ok s
  | (level, predecessor) :: levels =>
      successor <-? next_of s (Some index) level ;;
      s <-? set_next predecessor level successor s ;;
      unlink_levels index levels s
  end.
(** [while self.height > 0 && self.heads[self.height - 1].is_none()]. *)
Fixpoint lower_height (height : nat) (heads : Links) : io nat :=
  match height with
  | O => Ok 0
  | S h => top <-? at_index heads h ;; if is_none top then lower_height h heads else Ok height
  end.
Definition remove_found (update : Links) (index : nat) s : io SkipList :=
  n <-? at_index (sl_arena s) index ;;
  next <-? at_index (n_next n) 0 ;;
  s <-? unlink_levels index (enumerated update (n_level n)) s ;;
  s <-? match next with
        | Some next => set_node next (with_prev (n_prev n)) s
        | None => Ok (set_tail (n_prev n) s)
        end ;;
  height <-? lower_height (sl_height s) (sl_heads s) ;;
  s <-? set_node index (λ n, mkNode (n_key n) None no_links None (n_level n)) (set_height height s) ;;
  if (sl_entries s =? 0)%nat then Panic
  else Ok (set_entries (sl_entries s - 1) (set_free (index :: sl_free s) s)).

Definition first_at_or_after s k : io (option nat) :=
  r <-? search s k ;;
  match r.2 with
  | Some i => Ok (Some i)
  | None => before <-? at_index r.1 0 ;; next_of s before 0
  end.

(** ** [ReadBackend] *)
(** [node.value.as_ref().expect("live skip-list node has a value")]. *)
Definition live_value (n : Node) : io V := match n_value n with Some v => Ok v | None => Panic end.
Definition sl_get s k : io (option V) :=
  r <-? search s k ;;
  match r.2 with
  | Some index => n <-? at_index (sl_arena s) index ;; rmap Some (live_value n)
  | None => Ok None
  end.
Definition sl_contains s k : io bool := rmap (λ r, is_some r.2) (search s k).
(** [Iter], [RevIter], [RangeIter] and [RevRangeIter], collected: [step] moves
    to the next node, [stop] ends the iteration before a node. *)
Fixpoint collect (fuel : nat) s (step : Node → io (option nat)) (stop : K → bool) (current : option nat) :
    io (list (K * V)) :=
  match current with
  | None => Ok []
  | Some index =>
      match fuel with
      | O => Panic
      | S fuel =>
          n <-? at_index (sl_arena s) index ;;
          if stop (n_key n) then Ok [] else
          current <-? step n ;;
          v <-? live_value n ;;
          rest <-? collect fuel s step stop current ;;
          Ok ((n_key n, v) :: rest)
      end
  end.
Definition forward (n : Node) : io (option nat) := at_index (n_next n) 0.
Definition backward (n : Node) : io (option nat) := Ok (n_prev n).
Definition fuel_of s : nat := S (length (sl_arena s)).
Definition sl_iter s : io (list (K * V)) :=
  head <-? next_of s None 0 ;; collect (fuel_of s) s forward (λ _, false) head.

(** ** [OrderedReadBackend] *)
Definition sl_range s (start end_ : K) : io (list (K * V)) :=
  current <-? first_at_or_after s start ;;
  collect (fuel_of s) s forward (λ key, negb (key <? end_)) current.
Definition entry_at s (index : option nat) : io (option (K * V)) :=
  match index with
  | None => Ok None
  | Some i => n <-? at_index (sl_arena s) i ;; v <-? live_value n ;; Ok (Some (n_key n, v))
  end.
Definition sl_first s : io (option (K * V)) := head <-? next_of s None 0 ;; entry_at s head.
Definition sl_last s : io (option (K * V)) := entry_at s (sl_tail s).
Definition sl_entries_rev s : io (list (K * V)) :=
  collect (fuel_of s) s backward (λ _, false) (sl_tail s).
(** [first_at_or_after(end).and_then(prev).or_else(tail.filter(key < end))]. *)
Definition range_rev_start s (end_ : K) : io (option nat) :=
  at_or_after <-? first_at_or_after s end_ ;;
  before <-? match at_or_after with
             | Some i => rmap n_prev (at_index (sl_arena s) i)
             | None => Ok None
             end ;;
  match before, sl_tail s with
  | Some i, _ => Ok (Some i)
  | None, None => Ok None
  | None, Some i => n <-? at_index (sl_arena s) i ;; Ok (if n_key n <? end_ then Some i else None)
  end.
Definition sl_range_rev s (start end_ : K) : io (list (K * V)) :=
  current <-? range_rev_start s end_ ;;
  collect (fuel_of s) s backward (λ key, key <? start) current.

(** ** [WriteBackend] *)
(** A step that keeps the list when it panics. *)
Definition apply_io (r : io SkipList) s : SkipList * io unit :=
  match r with Ok s' => (s', Ok tt) | Err e => (s, Err e) | Panic => (s, Panic) end.
Definition searched {A} k s (f : Links → option nat → SkipList * io A) : SkipList * io A :=
  match search s k with
  | Ok (update, found) => f update found
  | Err e => (s, Err e)
  | Panic => (s, Panic)
  end.
Definition sl_put k v s : SkipList * io unit :=
  searched k s (λ update found,
    match found with
    | Some index => apply_io (set_node index (with_value (Some v)) s) s
    | None => and_then (insert_new k v update s) (λ s _, (s, Ok tt))
    end).
Definition sl_put_if_absent k v s : SkipList * io bool :=
  searched k s (λ update found,
    if is_some found then (s, Ok false)
    else and_then (insert_new k v update s) (λ s _, (s, Ok true))).
Definition sl_replace k v s : SkipList * io (option V) :=
  searched k s (λ update found,
    match found with
    | Some index =>
        match at_index (sl_arena s) index with
        | Ok n =>
            and_then (apply_io (set_node index (with_value (Some v)) s) s) (λ s _,
              (s, rmap Some (live_value n)))
        | _ => (s, Panic)
        end
    | None => and_then (insert_new k v update s) (λ s _, (s, Ok None))
    end).
Definition sl_delete k s : SkipList * io bool :=
  searched k s (λ update found,
    match found with
    | None => (s, Ok false)
    | Some index => and_then (apply_io (remove_found update index s) s) (λ s _, (s, Ok true))
    end).
Definition sl_update k (f : option V → option V) s : SkipList * io unit :=
  searched k s (λ update found,
    match found with
    | Some index =>
        match at_index (sl_arena s) index with
        | Ok n =>
            and_then (apply_io (set_node index (with_value None) s) s) (λ s _,
            match f (n_value n) with
            | Some v => apply_io (set_node index (with_value (Some v)) s) s
            | None => apply_io (remove_found update index s) s
            end)
        | _ => (s, Panic)
        end
    | None =>
        match f None with
        | Some v => and_then (insert_new k v update s) (λ s _, (s, Ok tt))
        | None => (s, Ok tt)
        end
    end).
Definition sl_clear s : SkipList * io unit :=
  (mkSkipList [] [] no_links None 0 (sl_capacity s) 0 (sl_seed s), Ok tt).

(** The cursor of the sorted bulk operations, moved up to [key]. *)
Fixpoint advance (fuel : nat) s k (update : Links) (current : option nat) : io (Links * option nat) :=
  match current with
  | None => Ok (update, None)
  | Some index =>
      match fuel with
      | O => Panic
      | S fuel =>
          n <-? at_index (sl_arena s) index ;;
          if n_key n <? k then
            next <-? at_index (n_next n) 0 ;;
            advance fuel s k (replicate (n_level n) (Some index) ++ drop (n_level n) update) next
          else Ok (update, current)
      end
  end.
Fixpoint bulk_put_from (update : Links) (current : option nat) (sorted : list (K * V)) s : SkipList * io unit :=
  match sorted with
  | [] => (s, Ok tt)
  | (k, v) :: sorted =>
      match advance (fuel_of s) s k update current with
      | Ok (update, current) =>
          match current with
          | Some index =>
              match at_index (sl_arena s) index with
              | Ok n =>
                  match cmp (n_key n) k with
                  | Eq => and_then (apply_io (set_node index (with_value (Some v)) s) s) (λ s _,
                            bulk_put_from update current sorted s)
                  | _ => and_then (insert_new k v update s) (λ s index,
                            bulk_put_from update (Some index) sorted s)
                  end
              | _ => (s, Panic)
              end
          | None => and_then (insert_new k v update s) (λ s index,
                      bulk_put_from update (Some index) sorted s)
          end
      | Err e => (s, Err e)
      | Panic => (s, Panic)
      end
  end.
Definition sl_bulk_put_sorted (sorted : list (K * V)) s : SkipList * io unit :=
  match next_of s None 0 with
  | Ok head => bulk_put_from no_links head sorted s
  | _ => (s, Panic)
  end.
Fixpoint bulk_delete_from (update : Links) (current : option nat) (removed : nat) (sorted : list K) s :
    SkipList * io nat :=
  match sorted with
  | [] => (s, Ok removed)
  | k :: sorted =>
      match advance (fuel_of s) s k update current with
      | Ok (update, current) =>
          match current with
          | None => (s, Ok removed)
          | Some index =>
              match at_index (sl_arena s) index with
              | Ok n =>
                  match cmp (n_key n) k with
                  | Eq =>
                      match at_index (n_next n) 0 with
                      | Ok next =>
                          and_then (apply_io (remove_found update index s) s) (λ s _,
                            bulk_delete_from update next (removed + 1) sorted s)
                      | _ => (s, Panic)
                      end
                  | _ => bulk_delete_from update current removed sorted s
                  end
              | _ => (s, Panic)
              end
          end
      | Err e => (s, Err e)
      | Panic => (s, Panic)
      end
  end.
Definition sl_bulk_delete_sorted (sorted : list K) s : SkipList * io nat :=
  match next_of s None 0 with
  | Ok head => bulk_delete_from no_links head 0 sorted s
  | _ => (s, Panic)
  end.
End SkipList.
Arguments Node : clear implicits.
Arguments SkipList : clear implicits.
End SkipList.
