(* ===== verification/SkipListLaws.v ===== *)
(** * The skip list's invariant

    [repr s L] says that the arena holds the entries of [L], in this order on
    every level: a node's link at a level is the next cell of [L] whose tower
    reaches the level, [sl_heads] the first one.  [SkipList.v]'s steps are
    specified by what they do to [L]; [SkipListOps.v] puts the operations
    together from these. *)
From stdpp Require Import base numbers option list.
From S2P Require Import Prelude Bytes Order BTreeMap Backend MapBackend SkipList.
Import SkipList.

(** ** Splitting a list at a known cell *)
Lemma nodup_split {A B} (f : A → B) (X Y P Q : list A) (x c : A) : NoDup (map f (X ++ x :: Y)) →
  X ++ x :: Y = P ++ c :: Q → f x = f c → X = P ∧ x = c ∧ Y = Q.
Proof.
  intros Hnd Heq Hf.
  assert (∀ U W (a : A), NoDup (map f (U ++ a :: W)) → f a ∉ map f W) as Hno.
  { intros U W a. rewrite map_app, NoDup_app. intros (_ & _ & [? _]%NoDup_cons). done. }
  apply app_cons_split in Heq as [(R & -> & ->)|[?|(R & -> & ->)]]; [|done|]; exfalso.
  - apply (Hno _ _ _ Hnd). rewrite Hf. apply list_elem_of_fmap_2, elem_of_app. right. by left.
  - rewrite <- app_assoc in Hnd. apply (Hno _ _ _ Hnd). rewrite <- Hf.
    apply list_elem_of_fmap_2, elem_of_app. right. by left.
Qed.

Section Laws.
Context {K V : Type} `{TotalCmp K}.
#[local] Abbreviation Node := (Node K V).
#[local] Abbreviation SkipList := (SkipList K V).
Implicit Types (s : SkipList) (k : K) (v : V).

(** ** Cells, and the links they ought to have *)
Record Cell := mkCell { c_ix : nat; c_key : K; c_val : V; c_lvl : nat }.
Implicit Types (c : Cell) (A B L : list Cell) (l : nat).
Definition contents L : list (K * V) := (λ c, (c_key c, c_val c)) <$> L.
Definition tall l c : bool := (l <? c_lvl c)%nat.
Fixpoint next_at l L : option nat :=
  match L with
  | [] => None
  | c :: L => if tall l c then Some (c_ix c) else next_at l L
  end.
Definition prev_step l (p : option nat) c : option nat := if tall l c then Some (c_ix c) else p.
Definition prev_at l L : option nat := foldl (prev_step l) None L.
Definition preds L : Links := (λ l, prev_at l L) <$> seq 0 MAX_LEVEL.
Definition last_ix L : option nat := c_ix <$> last L.
Definition head_ix L : option nat := c_ix <$> head L.
Fixpoint max_level L : nat := match L with [] => 0 | c :: L => Nat.max (c_lvl c) (max_level L) end.
Definition level_ok c : Prop := 1 ≤ c_lvl c ≤ MAX_LEVEL.

Lemma tall_spec l c : tall l c = true ↔ l < c_lvl c.
Proof using Type. apply Nat.ltb_lt. Qed.
Lemma tall_false l c : tall l c = false ↔ c_lvl c ≤ l.
Proof using Type. apply Nat.ltb_ge. Qed.
Lemma prev_at_snoc l L c : prev_at l (L ++ [c]) = if tall l c then Some (c_ix c) else prev_at l L.
Proof using Type. unfold prev_at. by rewrite foldl_snoc. Qed.
Lemma prev_at_app l A B : prev_at l (A ++ B) = foldl (prev_step l) (prev_at l A) B.
Proof using Type. apply foldl_app. Qed.
Lemma prev_step_short l p B : Forall (λ c, tall l c = false) B → foldl (prev_step l) p B = p.
Proof using Type. revert p. induction 1 as [|c B Hc HB IH]; simpl; [done|]. unfold prev_step at 2. by rewrite Hc. Qed.
Lemma next_at_app_short l A B : Forall (λ c, tall l c = false) A → next_at l (A ++ B) = next_at l B.
Proof using Type. induction 1 as [|c A Hc HA IH]; simpl; [done|]. by rewrite Hc. Qed.
Lemma next_at_app l A B : next_at l (A ++ B) = match next_at l A with Some i => Some i | None => next_at l B end.
Proof using Type. induction A as [|c A IH]; simpl; [done|]. by destruct (tall l c). Qed.
Lemma next_at_None l L : next_at l L = None ↔ Forall (λ c, tall l c = false) L.
Proof using Type.
  induction L as [|c L IH]; simpl; [done|]. rewrite Forall_cons.
  destruct (tall l c); [naive_solver|]. by rewrite IH; naive_solver.
Qed.
(** The last cell that reaches a level, or that there is none. *)
Lemma prev_at_cases l L :
  (prev_at l L = None ∧ Forall (λ c, tall l c = false) L) ∨
  (∃ A c B, L = A ++ c :: B ∧ tall l c = true ∧ Forall (λ c, tall l c = false) B ∧ prev_at l L = Some (c_ix c)).
Proof using Type.
  induction L as [|c L IH] using rev_ind; [by left|]. rewrite prev_at_snoc.
  destruct (tall l c) eqn:E.
  - right. by exists L, c, [].
  - destruct IH as [[-> HF]|(A & d & B & -> & Hd & HB & ->)].
    + left. split; [done|]. by rewrite Forall_app, Forall_singleton.
    + right. exists A, d, (B ++ [c]). rewrite <- app_assoc. simpl. split_and!; try done.
      by rewrite Forall_app, Forall_singleton.
Qed.
Lemma preds_lookup L l : l < MAX_LEVEL → preds L !! l = Some (prev_at l L).
Proof using Type.
  intros Hl. etrans; [apply list_lookup_fmap|]. by rewrite lookup_seq_lt by done.
Qed.
Lemma preds_length L : length (preds L) = MAX_LEVEL.
Proof using Type. unfold preds. by rewrite length_fmap, length_seq. Qed.
Lemma preds_eq (update : Links) L : length update = MAX_LEVEL →
  (∀ l, l < MAX_LEVEL → update !! l = Some (prev_at l L)) → update = preds L.
Proof using Type.
  intros Hlen Hu. apply list_eq. intros l. destruct (decide (l < MAX_LEVEL)) as [Hl|Hl].
  - by rewrite Hu, preds_lookup.
  - rewrite !lookup_ge_None_2; [done|rewrite preds_length; lia|lia].
Qed.
Lemma max_level_app A B : max_level (A ++ B) = Nat.max (max_level A) (max_level B).
Proof using Type. induction A as [|c A IH]; simpl; [done|]. rewrite IH. lia. Qed.
Lemma max_level_le L n : max_level L ≤ n ↔ Forall (λ c, c_lvl c ≤ n) L.
Proof using Type.
  induction L as [|c L IH]; simpl; [split; [done|lia]|]. rewrite Forall_cons, <- IH. lia.
Qed.
Lemma short_of_max L l : max_level L ≤ l → Forall (λ c, tall l c = false) L.
Proof using Type.
  rewrite max_level_le. intros HF. eapply Forall_impl; [exact HF|]. intros c. apply tall_false.
Qed.
Lemma all_tall_0 L : Forall level_ok L → Forall (λ c, tall 0 c = true) L.
Proof using Type. intros HF. eapply Forall_impl; [exact HF|]. intros c [? _]. by apply tall_spec. Qed.
Lemma next_at_0 L : Forall level_ok L → next_at 0 L = head_ix L.
Proof using Type.
  intros HF. destruct L as [|c L]; [done|]. apply all_tall_0 in HF. simpl. inversion HF as [|? ? Hc]. by rewrite Hc.
Qed.
Lemma prev_at_0 L : Forall level_ok L → prev_at 0 L = last_ix L.
Proof using Type.
  intros HF. destruct L as [|c L _] using rev_ind; [done|]. apply all_tall_0 in HF.
  rewrite Forall_app, Forall_singleton in HF. destruct HF as [_ Hc].
  rewrite prev_at_snoc, Hc. unfold last_ix. by rewrite last_snoc.
Qed.

(** ** The invariant *)
(** Everything of a node but its links. *)
Definition meta (n : Node) : K * option V * option nat * nat * nat :=
  (n_key n, n_value n, n_prev n, n_level n, length (n_next n)).
Definition meta_of s (i : nat) := meta <$> sl_arena s !! i.
Definition cell_meta A c := (c_key c, Some (c_val c), last_ix A, c_lvl c, MAX_LEVEL).

(** The chains of every level. *)
Definition linked s L : Prop :=
  (∀ l, l < MAX_LEVEL → next_of s None l = Ok (next_at l L)) ∧
  ∀ A c B l, L = A ++ c :: B → l < MAX_LEVEL →
    next_of s (Some (c_ix c)) l = Ok (if tall l c then next_at l B else None).
(** The link after the last tower below a position. *)
Lemma next_of_prev s A B l : linked s (A ++ B) → l < MAX_LEVEL → next_of s (prev_at l A) l = Ok (next_at l B).
Proof using Type.
  intros [Hf Hk] Hl. destruct (prev_at_cases l A) as [[-> HF]|(A1 & c & A2 & -> & Hc & HF & ->)].
  - rewrite Hf by done. by rewrite next_at_app_short.
  - rewrite (Hk A1 c (A2 ++ B) l) by (try done; by rewrite <- app_assoc).
    by rewrite Hc, next_at_app_short.
Qed.
(** Every cell has its node, and the back link of it. *)
Definition noded s L : Prop := ∀ A c B, L = A ++ c :: B → meta_of s (c_ix c) = Some (cell_meta A c).
Record repr s L : Prop := {
  r_heads : length (sl_heads s) = MAX_LEVEL;
  r_nodes : noded s L;
  r_linked : linked s L;
  r_tail : sl_tail s = last_ix L;
  r_height : sl_height s = max_level L;
  r_entries : sl_entries s = length L;
  r_levels : Forall level_ok L;
  r_sorted : bt_wf (contents L);
  r_slots : map c_ix L ++ sl_free s ≡ₚ seq 0 (length (sl_arena s));
  r_capacity : match sl_capacity s with Some n => length (sl_arena s) ≤ n | None => True end;
}.
Lemma r_first s L : repr s L → ∀ l, l < MAX_LEVEL → next_of s None l = Ok (next_at l L).
Proof using Type. intros Hr. apply (r_linked _ _ Hr). Qed.
Lemma r_links s L : repr s L → ∀ A c B l, L = A ++ c :: B → l < MAX_LEVEL →
  next_of s (Some (c_ix c)) l = Ok (if tall l c then next_at l B else None).
Proof using Type. intros Hr. apply (r_linked _ _ Hr). Qed.

Lemma repr_nodup s L : repr s L → NoDup (map c_ix L ++ sl_free s).
Proof using Type. intros Hr. rewrite (r_slots _ _ Hr). apply NoDup_seq. Qed.
Lemma repr_ix_inj s A B c d : repr s (A ++ c :: B) → d ∈ A ++ B → c_ix d ≠ c_ix c.
Proof using Type.
  intros Hr Hd Heq. apply repr_nodup in Hr. apply NoDup_app in Hr as [Hr _].
  rewrite map_app in Hr. simpl in Hr. rewrite <- Permutation_middle in Hr.
  apply NoDup_cons in Hr as [Hn _]. apply Hn. rewrite <- Heq, <- map_app. by apply list_elem_of_fmap_2.
Qed.
Lemma repr_bound s L c : repr s L → c ∈ L → c_ix c < length (sl_arena s).
Proof using Type.
  intros Hr Hc. assert (c_ix c ∈ seq 0 (length (sl_arena s))) as Hin.
  { rewrite <- (r_slots _ _ Hr). apply elem_of_app. left. by apply list_elem_of_fmap_2. }
  apply elem_of_seq in Hin. lia.
Qed.
Lemma repr_max s L : repr s L → max_level L ≤ MAX_LEVEL.
Proof using Type.
  intros Hr. apply max_level_le. eapply Forall_impl; [exact (r_levels _ _ Hr)|]. by intros c [_ ?].
Qed.
Lemma repr_length s L : repr s L → length L + length (sl_free s) = length (sl_arena s).
Proof using Type.
  intros Hr. pose proof (Permutation_length (r_slots _ _ Hr)) as Hl.
  by rewrite length_app, length_map, length_seq in Hl.
Qed.
(** What the node of a cell holds. *)
Lemma repr_node s A c B : repr s (A ++ c :: B) → ∃ n, sl_arena s !! c_ix c = Some n ∧
  n_key n = c_key c ∧ n_value n = Some (c_val c) ∧ n_prev n = last_ix A ∧ n_level n = c_lvl c ∧
  length (n_next n) = MAX_LEVEL ∧
  ∀ l, l < MAX_LEVEL → n_next n !! l = Some (if tall l c then next_at l B else None).
Proof using Type.
  intros Hr. pose proof (r_nodes _ _ Hr A c B eq_refl) as Hm. unfold meta_of in Hm.
  destruct (sl_arena s !! c_ix c) as [n|] eqn:En; [|done]. injection Hm as Hk Hv Hp Hl Hn.
  exists n. split_and!; try done. intros l Hl'.
  pose proof (r_links _ _ Hr A c B l eq_refl Hl') as Hx. unfold next_of, at_index in Hx.
  rewrite En in Hx. simpl in Hx. destruct (n_next n !! l) as [x|]; [|done]. by injection Hx as ->.
Qed.

(** ** Search *)
(** What the search reports for a split at the key. *)
Definition hit l k B : option nat :=
  match B with
  | c :: _ => if tall l c then match cmp (c_key c) k with Eq => Some (c_ix c) | _ => None end else None
  | [] => None
  end.
Definition below k A : Prop := Forall (λ c, cmp (c_key c) k = Lt) A.
Definition not_below k B : Prop := Forall (λ c, cmp (c_key c) k ≠ Lt) B.

Lemma contents_app A B : contents (A ++ B) = contents A ++ contents B.
Proof using Type. apply fmap_app. Qed.
Lemma sorted_suffix A B : bt_wf (contents (A ++ B)) → bt_wf (contents B).
Proof using Type. induction A as [|c A IH]; simpl; [done|]. intros [_ Hw]. by apply IH. Qed.
Lemma sorted_above c B : bt_wf (contents (c :: B)) → Forall (λ d, cmp (c_key c) (c_key d) = Lt) B.
Proof using Type. intros [HF _]. by apply Forall_fmap in HF. Qed.
Lemma split_at k L : bt_wf (contents L) → ∃ A B, L = A ++ B ∧ below k A ∧ not_below k B.
Proof.
  induction L as [|c L IH]; intros Hw; [exists [], []; split_and!; [done|constructor..]|].
  destruct (cmpP (c_key c) k) as [E|E E'|E E'].
  - exists [], (c :: L). split_and!; [done|constructor|]. constructor; [by rewrite E, cmp_refl|].
    eapply Forall_impl; [by apply sorted_above|]. intros d Hd. simpl in Hd. rewrite E in Hd.
    apply cmp_Lt_Gt in Hd. by rewrite Hd.
  - destruct Hw as [_ Hw]. destruct (IH Hw) as (A & B & -> & HA & HB). exists (c :: A), B.
    split_and!; [done|by constructor|done].
  - exists [], (c :: L). split_and!; [done|constructor|]. constructor; [by rewrite E|].
    eapply Forall_impl; [by apply sorted_above|]. intros d Hd. simpl in Hd.
    assert (cmp k (c_key d) = Lt) as Hkd by ord. apply cmp_Lt_Gt in Hkd. by rewrite Hkd.
Qed.
Lemma hit_first l k B : bt_wf (contents B) → not_below k B → ∀ i, next_at l B = Some i →
  ∃ c B1 B2, B = B1 ++ c :: B2 ∧ i = c_ix c ∧
  (cmp (c_key c) k = Eq ∧ hit l k B = Some i ∨ cmp (c_key c) k = Gt ∧ hit l k B = None).
Proof.
  intros Hw Hn i. destruct B as [|c B]; [done|]. simpl. destruct (tall l c) eqn:Et.
  - intros [= <-]. exists c, [], B. split_and!; [done|done|]. inversion Hn as [|? ? Hc]; subst.
    destruct (cmp (c_key c) k); [by left|done|by right].
  - intros Hi. assert (∀ B', next_at l B' = Some i → ∃ d B1 B2, B' = B1 ++ d :: B2 ∧ i = c_ix d) as Hex.
    { clear. induction B' as [|d B' IH]; simpl; [done|]. destruct (tall l d).
      - intros [= <-]. by exists d, [], B'.
      - intros Hi. destruct (IH Hi) as (e & B1 & B2 & -> & ->). by exists e, (d :: B1), B2. }
    destruct (Hex B Hi) as (d & B1 & B2 & -> & ->). exists d, (c :: B1), B2. split_and!; [done|done|].
    right. split; [|done]. inversion Hn as [|? ? Hc _]; subst.
    pose proof (sorted_above _ _ Hw) as Ha. rewrite Forall_app, Forall_cons in Ha. destruct Ha as (_ & Hd & _).
    apply cmp_Lt_Gt. destruct (cmpP (c_key c) k) as [E|E E'|E E']; [by rewrite <- E|done|ord].
Qed.

Lemma search_level_spec s k l : l < MAX_LEVEL → ∀ R P B fuel,
  repr s (P ++ R ++ B) → below k R → not_below k B → length R < fuel →
  search_level fuel s k l (prev_at l P) (next_at l (R ++ B)) = Ok (prev_at l (P ++ R), hit l k B).
Proof.
  intros Hl. induction R as [|c R IH]; intros P B fuel Hr HR HB Hf.
  - simpl. rewrite app_nil_r. destruct fuel as [|fuel]; [simpl in Hf; lia|].
    assert (bt_wf (contents B)) as Hw.
    { eapply (sorted_suffix P), (r_sorted s). exact Hr. }
    destruct (next_at l B) as [i|] eqn:Ei; simpl.
    + destruct (hit_first l k B Hw HB i Ei) as (c & B1 & B2 & -> & -> & Hc).
      simpl in Hr. rewrite app_assoc in Hr. destruct (repr_node _ _ _ _ Hr) as (n & En & Hk & _).
      unfold at_index at 1. rewrite En. simpl. rewrite Hk. destruct Hc as [[-> ->]|[-> ->]]; done.
    + destruct B as [|c B]; [done|]. simpl in Ei. simpl. by destruct (tall l c).
  - inversion HR as [|? ? Hc HR']; subst. simpl in Hf.
    replace (P ++ (c :: R) ++ B) with ((P ++ [c]) ++ R ++ B) in Hr by (by rewrite <- app_assoc).
    replace (P ++ c :: R) with ((P ++ [c]) ++ R) by (by rewrite <- app_assoc).
    rewrite <- app_assoc in Hr. simpl. destruct (tall l c) eqn:Et.
    + destruct fuel as [|fuel]; [lia|]. simpl. destruct (repr_node _ _ _ _ Hr) as (n & En & Hk & _ & _ & _ & _ & Hx).
      unfold at_index at 1. rewrite En. simpl. rewrite Hk, Hc. unfold at_index. rewrite Hx, Et by done. simpl.
      rewrite <- (IH (P ++ [c]) B fuel); [|by rewrite <- app_assoc|done|done|lia]. f_equal.
      by rewrite prev_at_snoc, Et.
    + rewrite <- (IH (P ++ [c]) B fuel); [|by rewrite <- app_assoc|done|done|lia]. f_equal.
      by rewrite prev_at_snoc, Et.
Qed.
(** A predecessor on one level is one to start from on the level below. *)
Lemma next_of_lower s l A B : repr s (A ++ B) → l < MAX_LEVEL → ∃ P R,
  A = P ++ R ∧ prev_at (S l) A = prev_at l P ∧ next_of s (prev_at (S l) A) l = Ok (next_at l (R ++ B)).
Proof using Type.
  intros Hr Hl. destruct (prev_at_cases (S l) A) as [[E HF]|(A1 & c & A2 & -> & Hc & HF & E)]; rewrite E.
  - exists [], A. split_and!; [done|done|]. by rewrite (r_first _ _ Hr).
  - assert (tall l c = true) as Hc' by (apply tall_spec; apply tall_spec in Hc; lia).
    exists (A1 ++ [c]), A2. rewrite <- app_assoc. split_and!; [done|by rewrite prev_at_snoc, Hc'|].
    rewrite (r_links _ _ Hr A1 c (A2 ++ B) l) by (try done; by rewrite <- app_assoc). by rewrite Hc'.
Qed.
Lemma search_down_spec s k A B : repr s (A ++ B) → below k A → not_below k B →
  ∀ n update, n ≤ MAX_LEVEL → length update = MAX_LEVEL →
  (∀ l, n ≤ l → l < MAX_LEVEL → update !! l = Some (prev_at l A)) →
  search_down n s k (prev_at n A) update (hit n k B) = Ok (preds A, hit 0 k B).
Proof.
  intros Hr HA HB. induction n as [|n IH]; intros update Hn Hlen Hu; cbn [search_down].
  - by rewrite (preds_eq update A) by (try intros; try apply Hu; lia).
  - destruct (next_of_lower s n A B Hr) as (P & R & -> & -> & ->); [lia|]. cbn [rbind].
    rewrite (search_level_spec s k n); [|lia|by rewrite app_assoc| |done|].
    2:{ apply Forall_app in HA. apply HA. }
    2:{ pose proof (repr_length _ _ Hr) as Hx. rewrite !length_app in Hx. lia. }
    cbn [rbind fst snd]. unfold put_index.
    destruct (lookup_lt_is_Some_2 update n) as [x Hx]; [lia|]. rewrite Hx. cbn [rbind].
    assert ((match hit n k B with Some i => Some i | None => hit (S n) k B end) = hit n k B) as ->.
    { unfold hit. destruct B as [|c B]; [done|]. destruct (tall n c) eqn:E1.
      - destruct (cmp (c_key c) k); try done; by destruct (tall (S n) c).
      - assert (tall (S n) c = false) as -> by (apply tall_false in E1; apply tall_false; lia). done. }
    apply IH; [lia|by rewrite length_insert|]. intros l Hl Hl'.
    destruct (decide (l = n)) as [->|Hne]; [by rewrite list_lookup_insert_eq by lia|].
    rewrite list_lookup_insert_ne by done. apply Hu; lia.
Qed.
Lemma prev_at_high A l : max_level A ≤ l → prev_at l A = None.
Proof using Type. intros Hm. unfold prev_at. by rewrite prev_step_short by (by apply short_of_max). Qed.
Lemma search_spec s k A B : repr s (A ++ B) → below k A → not_below k B →
  search s k = Ok (preds A, hit 0 k B).
Proof.
  intros Hr HA HB. unfold search. pose proof (r_height _ _ Hr) as Hh. pose proof (repr_max _ _ Hr) as Hm.
  rewrite Hh. rewrite max_level_app in *.
  rewrite <- (search_down_spec s k A B Hr HA HB (Nat.max (max_level A) (max_level B)) no_links).
  - f_equal; [rewrite prev_at_high by lia; done|]. unfold hit. destruct B as [|c B]; [done|].
    assert (tall (max_level A `max` max_level (c :: B)) c = false) as -> by (apply tall_false; simpl; lia). done.
  - done.
  - done.
  - intros l Hl Hl'. rewrite prev_at_high by lia. unfold no_links. by apply lookup_replicate_2.
Qed.
Lemma hit_0 k B : Forall level_ok B → hit 0 k B = match B with
  | c :: _ => match cmp (c_key c) k with Eq => Some (c_ix c) | _ => None end | [] => None end.
Proof using Type.
  intros HF%all_tall_0. destruct B as [|c B]; [done|]. simpl. inversion HF as [|? ? Hc]; subst. by rewrite Hc.
Qed.
End Laws.
