(* ===== verification/SkipListOps.v ===== *)
(** * The skip list's steps

    What linking a new node, unlinking one and overwriting a value do to the
    list the arena represents. *)
From stdpp Require Import base numbers option list.
From S2P Require Import Prelude Bytes Order BTreeMap Backend MapBackend SkipList SkipListLaws.
Import SkipList.

Section Ops.
Context {K V : Type} `{TotalCmp K}.
#[local] Abbreviation Node := (Node K V).
#[local] Abbreviation SkipList := (SkipList K V).
#[local] Abbreviation Cell := (Cell (K:=K) (V:=V)).
Implicit Types (s t : SkipList) (k : K) (v : V) (c : Cell) (A B L : list Cell) (l : nat) (p : option nat).

(** ** Links and the rest of the state *)
(** Everything of the state but the links. *)
Definition rest s := (meta <$> sl_arena s, length (sl_heads s), sl_free s, sl_tail s, sl_height s,
  sl_capacity s, sl_entries s, sl_seed s).
Lemma rest_meta s t i : rest s = rest t → meta_of s i = meta_of t i.
Proof using Type.
  intros [=Hm _ _ _ _ _ _ _]. unfold meta_of. by rewrite <- !list_lookup_fmap, Hm.
Qed.
Lemma rest_length s t : rest s = rest t → length (sl_arena s) = length (sl_arena t).
Proof using Type. intros [=Hm _ _ _ _ _ _ _]. rewrite <- (length_fmap meta), Hm. by rewrite length_fmap. Qed.

Lemma set_next_spec s p l x target : next_of s p l = Ok x → ∃ t, set_next p l target s = Ok t ∧
  rest t = rest s ∧ next_of t p l = Ok target ∧
  (∀ q m, q ≠ p ∨ m ≠ l → next_of t q m = next_of s q m).
Proof using Type.
  destruct p as [i|]; simpl; unfold at_index, put_index.
  - destruct (sl_arena s !! i) as [n|] eqn:En; simpl; [|done].
    destruct (n_next n !! l) as [y|] eqn:El; simpl; [|done]. intros _. eexists. split; [done|].
    pose proof (lookup_lt_Some _ _ _ En) as Hi. pose proof (lookup_lt_Some _ _ _ El) as Hl.
    split_and!.
    + unfold rest. simpl. do 7 f_equal. rewrite list_fmap_insert.
      apply list_insert_id. rewrite list_lookup_fmap, En. simpl. unfold meta. simpl. by rewrite length_insert.
    + simpl. unfold at_index. rewrite list_lookup_insert_eq by done. simpl. by rewrite list_lookup_insert_eq.
    + intros [q|] m Hne; [|done]. simpl. unfold at_index. destruct (decide (q = i)) as [->|Hq].
      * rewrite list_lookup_insert_eq by done. rewrite En. simpl.
        rewrite list_lookup_insert_ne; [done|]. destruct Hne as [Hne|Hne]; congruence.
      * by rewrite list_lookup_insert_ne.
  - destruct (sl_heads s !! l) as [y|] eqn:El; simpl; [|done]. intros _. eexists. split; [done|].
    pose proof (lookup_lt_Some _ _ _ El) as Hl. split_and!.
    + unfold rest. simpl. by rewrite length_insert.
    + simpl. unfold at_index. by rewrite list_lookup_insert_eq.
    + intros [q|] m Hne; [done|]. simpl. unfold at_index. rewrite list_lookup_insert_ne; [done|].
      destruct Hne as [Hne|Hne]; congruence.
Qed.
(** An assignment to a node that keeps its links. *)
Lemma set_node_spec s i (f : Node → Node) m : meta_of s i = Some m → (∀ n, n_next (f n) = n_next n) →
  ∃ n t, sl_arena s !! i = Some n ∧ meta n = m ∧ set_node i f s = Ok t ∧ meta_of t i = Some (meta (f n)) ∧
  (∀ j, j ≠ i → meta_of t j = meta_of s j) ∧ (∀ q l, next_of t q l = next_of s q l) ∧
  t = set_arena (<[i := f n]> (sl_arena s)) s.
Proof using Type.
  unfold meta_of, set_node, at_index. intros Hm Hf. destruct (sl_arena s !! i) as [n|] eqn:En; [|done].
  injection Hm as Hm. simpl. exists n. eexists. pose proof (lookup_lt_Some _ _ _ En) as Hi. split_and!; try done.
  - simpl. by rewrite list_lookup_insert_eq.
  - intros j Hj. simpl. by rewrite list_lookup_insert_ne.
  - intros [q|] l; [|done]. simpl. unfold at_index. destruct (decide (q = i)) as [->|Hq].
    + rewrite list_lookup_insert_eq by done. rewrite En. simpl. by rewrite Hf.
    + by rewrite list_lookup_insert_ne.
Qed.

(** ** The loops over the levels *)
Definition levels_of (f : nat → option nat) (m n : nat) : list (nat * option nat) :=
  (λ l, (l, f l)) <$> seq m n.
Lemma enumerated_preds L n : n ≤ MAX_LEVEL → enumerated (preds L) n = levels_of (λ l, prev_at l L) 0 n.
Proof using Type.
  intros Hn. unfold enumerated, levels_of, preds. rewrite length_fmap, length_seq.
  assert (∀ (g : nat → option nat) ls, zip ls (g <$> ls) = (λ l, (l, g l)) <$> ls) as ->.
  { intros g ls. induction ls as [|l ls IH]; [done|]. csimpl. by rewrite IH. }
  rewrite <- fmap_take. f_equal. by rewrite take_seq, Nat.min_l by lia.
Qed.
Definition in_levels (m n l : nat) : bool := ((m <=? l) && (l <? m + n))%nat.
Lemma in_levels_S m n l : in_levels m (S n) l = (m =? l)%nat || in_levels (S m) n l.
Proof using Type.
  unfold in_levels. destruct (Nat.eqb_spec m l), (Nat.leb_spec m l), (Nat.leb_spec (S m) l),
    (Nat.ltb_spec l (m + S n)), (Nat.ltb_spec l (S m + n)); simpl; lia.
Qed.

Lemma link_levels_spec j (f : nat → option nat) : (∀ l, f l ≠ Some j) → ∀ n m s,
  (∀ l, in_levels m n l = true → is_ok (next_of s (f l) l) = true ∧ is_ok (next_of s (Some j) l) = true) →
  ∃ t, link_levels j (levels_of f m n) s = Ok t ∧ rest t = rest s ∧
  ∀ q l, next_of t q l = if in_levels m n l && bool_decide (q = Some j) then next_of s (f l) l
                         else if in_levels m n l && bool_decide (q = f l) then Ok (Some j) else next_of s q l.
Proof using Type.
  intros Hf. induction n as [|n IH]; intros m s Hok.
  { exists s. split_and!; [done|done|]. intros q l. unfold in_levels.
    destruct (Nat.leb_spec m l), (Nat.ltb_spec l (m + 0)); simpl; try done; lia. }
  assert (in_levels m (S n) m = true) as Hm by (rewrite in_levels_S, Nat.eqb_refl; done).
  destruct (Hok m Hm) as [Hx Hy]. cbn -[next_of set_next].
  destruct (next_of s (f m) m) as [x| |] eqn:Ex; [|done..]. cbn [rbind].
  destruct (next_of s (Some j) m) as [y| |] eqn:Ey; [|done..].
  destruct (set_next_spec s (Some j) m y x Ey) as (s1 & -> & R1 & N1 & O1). cbn [rbind].
  assert (next_of s1 (f m) m = Ok x) as Ex1 by (rewrite O1; [done|left; apply Hf]).
  destruct (set_next_spec s1 (f m) m x (Some j) Ex1) as (s2 & -> & R2 & N2 & O2). cbn [rbind].
  assert (∀ q l, l ≠ m → next_of s2 q l = next_of s q l) as Hkeep.
  { intros q l Hl. rewrite O2, O1 by (by right). done. }
  destruct (IH (S m) s2) as (t & Ht & Rt & Nt).
  { intros l Hl. assert (l ≠ m) as Hne.
    { intros ->. unfold in_levels in Hl. destruct (Nat.leb_spec (S m) m); [lia|done]. }
    rewrite !Hkeep by done. apply Hok. by rewrite in_levels_S, Hl, orb_true_r. }
  exists t. split_and!; [done|congruence|]. intros q l. rewrite Nt, !in_levels_S.
  destruct (Nat.eqb_spec m l) as [->|Hne]; [|by rewrite !Hkeep by done]. cbn [andb orb].
  assert (in_levels (S l) n l = false) as ->.
  { unfold in_levels. destruct (Nat.leb_spec (S l) l); [lia|done]. }
  cbn [andb]. case_bool_decide as Hq; [subst q|].
  - rewrite O2; [congruence|]. left. intros Hc. symmetry in Hc. by apply Hf in Hc.
  - case_bool_decide as Hq'; [by subst q|]. by rewrite O2, O1 by (by left).
Qed.
Lemma unlink_levels_spec j (f : nat → option nat) : (∀ l, f l ≠ Some j) → ∀ n m s,
  (∀ l, in_levels m n l = true → is_ok (next_of s (f l) l) = true ∧ is_ok (next_of s (Some j) l) = true) →
  ∃ t, unlink_levels j (levels_of f m n) s = Ok t ∧ rest t = rest s ∧
  ∀ q l, next_of t q l = if in_levels m n l && bool_decide (q = f l) then next_of s (Some j) l else next_of s q l.
Proof using Type.
  intros Hf. induction n as [|n IH]; intros m s Hok.
  { exists s. split_and!; [done|done|]. intros q l. unfold in_levels.
    destruct (Nat.leb_spec m l), (Nat.ltb_spec l (m + 0)); simpl; try done; lia. }
  assert (in_levels m (S n) m = true) as Hm by (rewrite in_levels_S, Nat.eqb_refl; done).
  destruct (Hok m Hm) as [Hx Hy]. cbn -[next_of set_next].
  destruct (next_of s (Some j) m) as [y| |] eqn:Ey; [|done..]. cbn [rbind].
  destruct (next_of s (f m) m) as [x| |] eqn:Ex; [|done..].
  destruct (set_next_spec s (f m) m x y Ex) as (s2 & -> & R2 & N2 & O2). cbn [rbind].
  destruct (IH (S m) s2) as (t & Ht & Rt & Nt).
  { intros l Hl. assert (l ≠ m) as Hne.
    { intros ->. unfold in_levels in Hl. destruct (Nat.leb_spec (S m) m); [lia|done]. }
    rewrite !O2 by (by right). apply Hok. by rewrite in_levels_S, Hl, orb_true_r. }
  exists t. split_and!; [done|congruence|]. intros q l. rewrite Nt, !in_levels_S.
  destruct (Nat.eqb_spec m l) as [->|Hne]; [|by rewrite !O2 by (by right)]. cbn [andb orb].
  assert (in_levels (S l) n l = false) as ->.
  { unfold in_levels. destruct (Nat.leb_spec (S l) l); [lia|done]. }
  cbn [andb]. case_bool_decide as Hq; [subst q; congruence|]. by rewrite O2 by (by left).
Qed.

(** ** Linking a new node *)
(** The state with a fresh node [j] that nothing links to. *)
Record allocated s L j k v lvl : Prop := {
  a_old : noded s L;
  a_linked : linked s L;
  a_new : meta_of s j = Some (k, Some v, None, lvl, MAX_LEVEL);
  a_none : ∀ l, l < MAX_LEVEL → next_of s (Some j) l = Ok None;
  a_slots : (j :: map c_ix L) ++ sl_free s ≡ₚ seq 0 (length (sl_arena s));
  a_capacity : match sl_capacity s with Some n => length (sl_arena s) ≤ n | None => True end;
  a_rest : length (sl_heads s) = MAX_LEVEL ∧ sl_tail s = last_ix L ∧ sl_height s = max_level L ∧
    sl_entries s = length L;
}.
Lemma next_of_other s t j q l : (∀ i, i ≠ j → sl_arena t !! i = sl_arena s !! i) → sl_heads t = sl_heads s →
  q ≠ Some j → next_of t q l = next_of s q l.
Proof using Type. intros Ha Hh Hq. destruct q as [i|]; simpl; unfold at_index; [by rewrite Ha by congruence|by rewrite Hh]. Qed.

Lemma alloc_spec s L k v lvl : repr s L → let (t, r) := alloc k v lvl s in
  match r with
  | Ok j => allocated t L j k v lvl ∧ sl_seed t = sl_seed s ∧ sl_capacity t = sl_capacity s
  | Err e => e = StorageFull ∧ t = s ∧ sl_capacity s = Some (length L)
  | Panic => False
  end.
Proof using Type.
  intros Hr. pose proof (repr_length s L Hr) as Hlen. pose proof (repr_nodup s L Hr) as Hnd.
  assert (∀ t j, (∀ i, i ≠ j → sl_arena t !! i = sl_arena s !! i) → sl_heads t = sl_heads s → j ∉ map c_ix L →
    sl_arena t !! j = Some (mkNode k (Some v) no_links None lvl) →
    (j :: map c_ix L) ++ sl_free t ≡ₚ seq 0 (length (sl_arena t)) →
    match sl_capacity t with Some n => length (sl_arena t) ≤ n | None => True end →
    sl_tail t = sl_tail s → sl_height t = sl_height s → sl_entries t = sl_entries s →
    allocated t L j k v lvl) as Hbuild.
  { intros t j Ha Hh Hj Hn Hs Hc Ht Hhe He.
    assert (∀ A c B, L = A ++ c :: B → c_ix c ≠ j) as Hne.
    { intros A c B -> <-. apply Hj. rewrite map_app. apply elem_of_app. right. by left. }
    constructor; try done.
    - intros A c B HL. unfold meta_of. rewrite Ha by (by eapply Hne). by apply (r_nodes _ _ Hr _ _ B).
    - split; [intros l Hl; rewrite (next_of_other s t j) by done; by apply (r_first _ _ Hr)|].
      intros A c B l HL Hl. pose proof (Hne _ _ _ HL) as Hc'.
      rewrite (next_of_other s t j) by (try done; congruence). by apply (r_links _ _ Hr A c B).
    - unfold meta_of. by rewrite Hn.
    - intros l Hl. simpl. unfold at_index. rewrite Hn. simpl. unfold no_links.
      by rewrite (lookup_replicate_2 _ _ _ Hl).
    - destruct Hr. split_and!; congruence. }
  unfold alloc. destruct (sl_free s) as [|i free] eqn:Ef.
  - pose proof (r_capacity _ _ Hr) as Hcap. simpl in Hlen.
    destruct (sl_capacity s) as [n|] eqn:Ec.
    + destruct (Nat.leb_spec n (length (sl_arena s))) as [Hle|Hgt].
      { split_and!; [done|done|f_equal; lia]. }
      split_and!; [|done|done]. apply Hbuild; try done; simpl.
      * intros i Hi. destruct (decide (i < length (sl_arena s))); [by rewrite lookup_app_l|].
        rewrite !lookup_ge_None_2; [done|lia|rewrite length_app; simpl; lia].
      * intros Hin. rewrite app_nil_r in Hnd. pose proof (r_slots _ _ Hr) as Hs. rewrite Ef, app_nil_r in Hs.
        rewrite Hs in Hin. apply elem_of_seq in Hin. lia.
      * by rewrite lookup_app_r, Nat.sub_diag by lia.
      * rewrite length_app, seq_app, Ef. simpl. rewrite <- (r_slots _ _ Hr), Ef, !app_nil_r. apply Permutation_cons_append.
      * rewrite Ec, length_app. simpl. lia.
    + split_and!; [|done|done]. apply Hbuild; try done; simpl.
      * intros i Hi. destruct (decide (i < length (sl_arena s))); [by rewrite lookup_app_l|].
        rewrite !lookup_ge_None_2; [done|lia|rewrite length_app; simpl; lia].
      * intros Hin. pose proof (r_slots _ _ Hr) as Hs. rewrite Ef, app_nil_r in Hs.
        rewrite Hs in Hin. apply elem_of_seq in Hin. lia.
      * by rewrite lookup_app_r, Nat.sub_diag by lia.
      * rewrite length_app, seq_app, Ef. simpl. rewrite <- (r_slots _ _ Hr), Ef, !app_nil_r. apply Permutation_cons_append.
      * by rewrite Ec.
  - assert (i ∈ seq 0 (length (sl_arena s))) as Hi%elem_of_seq.
    { rewrite <- (r_slots _ _ Hr), Ef. apply elem_of_app. right. by left. }
    unfold put_index. destruct (lookup_lt_is_Some_2 (sl_arena s) i) as [n0 Hn0]; [lia|]. rewrite Hn0.
    split_and!; [|done|done]. rewrite <- Permutation_middle in Hnd. apply NoDup_cons in Hnd as [Hni _].
    apply Hbuild; try done; simpl.
    + intros q Hq. by rewrite list_lookup_insert_ne.
    + intros Hin. apply Hni, elem_of_app. by left.
    + apply list_lookup_insert_eq. lia.
    + rewrite length_insert, <- (r_slots _ _ Hr), Ef. apply Permutation_middle.
    + rewrite length_insert. apply (r_capacity _ _ Hr).
Qed.
Lemma allocated_fresh s L j k v lvl c : allocated s L j k v lvl → c ∈ L → c_ix c ≠ j.
Proof using Type.
  intros Ha Hc Heq. pose proof (NoDup_seq 0 (length (sl_arena s))) as Hnd.
  rewrite <- (a_slots _ _ _ _ _ _ Ha) in Hnd. simpl in Hnd. apply NoDup_cons in Hnd as [Hn _].
  apply Hn, elem_of_app. left. rewrite <- Heq. by apply list_elem_of_fmap_2.
Qed.
Lemma prev_at_elem l L i : prev_at l L = Some i → ∃ c, c ∈ L ∧ i = c_ix c ∧ tall l c = true.
Proof using Type.
  destruct (prev_at_cases l L) as [[-> _]|(A & c & B & -> & Hc & _ & ->)]; [done|]. intros [= <-].
  exists c. split_and!; [|done|done]. apply elem_of_app. right. by left.
Qed.
(** The chains around a new cell, for the links the loop leaves. *)
Lemma linked_insert s t A B j k v lvl : let c := mkCell j k v lvl in
  linked s (A ++ B) → (∀ d, d ∈ A ++ B → c_ix d ≠ j) → NoDup (map c_ix (A ++ B)) →
  (∀ l, l < MAX_LEVEL → next_of s (Some j) l = Ok None) →
  (∀ q l, l < MAX_LEVEL → next_of t q l =
    if tall l c && bool_decide (q = Some j) then Ok (next_at l B)
    else if tall l c && bool_decide (q = prev_at l A) then Ok (Some j) else next_of s q l) →
  linked t (A ++ c :: B).
Proof using Type.
  intros c [Hf Hk] Hfresh Hnd Hnone Ht. split.
  - intros l Hl. rewrite Ht, bool_decide_eq_false_2, andb_false_r, Hf by done.
    rewrite !next_at_app. simpl. destruct (prev_at_cases l A) as [[-> HF]|(A1 & d & A2 & -> & Hd & HF & ->)].
    + rewrite bool_decide_eq_true_2, andb_true_r by done. apply next_at_None in HF. rewrite HF. by destruct (tall l c).
    + rewrite bool_decide_eq_false_2, andb_false_r by done. rewrite next_at_app. simpl. rewrite Hd.
      by destruct (next_at l A1).
  - intros X d Y l HL Hl. apply eq_sym, app_cons_split in HL as [(R & -> & ->)|[(-> & -> & ->)|(R & -> & ->)]].
    + assert (c_ix d ≠ j) as Hdj by (apply Hfresh; rewrite <- app_assoc; apply elem_of_app; right; by left).
      rewrite Ht by done. rewrite bool_decide_eq_false_2, andb_false_r by congruence.
      rewrite (Hk X d (R ++ B)) by (try done; by rewrite <- app_assoc).
      rewrite !next_at_app. simpl. destruct (prev_at_cases l (X ++ d :: R)) as [[-> HF]|(A1 & e & A2 & He & Htl & HF & ->)].
      * rewrite bool_decide_eq_false_2, andb_false_r by done.
        rewrite Forall_app, Forall_cons in HF. destruct HF as (_ & -> & _). done.
      * case_bool_decide as Hde; rewrite ?andb_false_r, ?andb_true_r.
        -- injection Hde as Hde.
           assert (d = e ∧ R = A2) as [-> ->].
           { rewrite map_app in Hnd. apply NoDup_app in Hnd as [Hnd _].
             by destruct (nodup_split _ _ _ _ _ _ _ Hnd He Hde) as (_ & -> & ->). }
           apply next_at_None in HF. rewrite Htl, HF. by destruct (tall l c).
        -- destruct (tall l d) eqn:Etd; [|done].
           apply app_cons_split in He as [(Q & -> & ->)|[(-> & -> & ->)|(Q & -> & ->)]]; [|done|].
           ++ rewrite next_at_app. simpl. rewrite Htl. by destruct (next_at l Q).
           ++ rewrite Forall_app, Forall_cons in HF. destruct HF as (_ & HF & _). congruence.
    + change (c_ix c) with j. rewrite Ht, bool_decide_eq_true_2, andb_true_r by done.
      destruct (tall l c) eqn:E; [done|]. simpl. by apply Hnone.
    + assert (c_ix d ≠ j) as Hdj by (apply Hfresh; apply elem_of_app; right; apply elem_of_app; right; by left).
      rewrite Ht by done. rewrite bool_decide_eq_false_2, andb_false_r by congruence.
      rewrite bool_decide_eq_false_2, andb_false_r.
      * rewrite (Hk (A ++ R) d Y) by (try done; by rewrite <- app_assoc). done.
      * intros Hp. apply eq_sym, prev_at_elem in Hp as (e & He & Heq & _).
        rewrite map_app in Hnd. apply NoDup_app in Hnd as (_ & Hnd & _). apply (Hnd (c_ix e)).
        { by apply list_elem_of_fmap_2. }
        rewrite <- Heq. apply list_elem_of_fmap_2, elem_of_app. right. by left.
Qed.
Lemma prev_at_ok s A B l : linked s (A ++ B) → l < MAX_LEVEL → is_ok (next_of s (prev_at l A) l) = true.
Proof using Type. intros Hk Hl. by rewrite (next_of_prev s A B) by done. Qed.
Lemma last_ix_snoc A c : last_ix (A ++ [c]) = Some (c_ix c).
Proof using Type. unfold last_ix. by rewrite last_snoc. Qed.
Lemma last_ix_cons c B : last_ix (c :: B) = match last_ix B with Some i => Some i | None => Some (c_ix c) end.
Proof using Type. unfold last_ix. rewrite last_cons. by destruct (last B). Qed.
Lemma last_ix_app A B : last_ix (A ++ B) = match last_ix B with Some i => Some i | None => last_ix A end.
Proof using Type. unfold last_ix. rewrite last_app. by destruct (last B). Qed.
Lemma in_levels_tall k v j lvl l : in_levels 0 lvl l = tall l (mkCell j k v lvl).
Proof using Type. done. Qed.

(** The back link of the node after a position, or the tail. *)
Definition prev_meta p c := (c_key c, Some (c_val c), p, c_lvl c, MAX_LEVEL).
Lemma back_link_spec s A B p : (∀ d B', B = d :: B' → meta_of s (c_ix d) = Some (cell_meta A d)) → ∃ a t,
  match head_ix B with Some next => set_node next (with_prev p) s | None => Ok (set_tail p s) end = Ok t ∧
  t = set_tail (match head_ix B with Some _ => sl_tail s | None => p end) (set_arena a s) ∧
  length a = length (sl_arena s) ∧ (∀ q l, next_of t q l = next_of s q l) ∧
  (∀ i, Some i ≠ head_ix B → meta_of t i = meta_of s i) ∧
  (∀ d B', B = d :: B' → meta_of t (c_ix d) = Some (prev_meta p d)).
Proof using Type.
  intros Hd. destruct B as [|d B]; simpl.
  { exists (sl_arena s), (set_tail p s). destruct s. split_and!; done. }
  destruct (set_node_spec s (c_ix d) (with_prev p) _ (Hd d B eq_refl)) as (m & t & _ & Hm & -> & M & O & N & ->); [done|].
  exists (<[c_ix d := with_prev p m]> (sl_arena s)). eexists. split; [done|]. split_and!; [by destruct s|by rewrite length_insert|done|..].
  - intros i Hi. apply O. intros ->. by apply Hi.
  - intros d' B' [= <- <-]. rewrite M. f_equal. injection Hm as H1 H2 H3 H4 H5. unfold meta, prev_meta. simpl. congruence.
Qed.
(** The nodes around a new cell. *)
Lemma noded_insert s t A B j k v lvl : let c := mkCell j k v lvl in
  noded s (A ++ B) → (∀ d, d ∈ A ++ B → c_ix d ≠ j) → NoDup (map c_ix (A ++ B)) →
  meta_of t j = Some (cell_meta A c) →
  (∀ i, i ≠ j → Some i ≠ head_ix B → meta_of t i = meta_of s i) →
  (∀ d B', B = d :: B' → meta_of t (c_ix d) = Some (prev_meta (Some j) d)) → noded t (A ++ c :: B).
Proof using Type.
  intros c Hn Hfresh Hnd Hj Ho Hd X d Y HL.
  assert (∀ X d Y e B', A ++ B = X ++ d :: Y → B = e :: B' → c_ix d = c_ix e → X = A) as Hpos.
  { intros X' d' Y' e B' HAB -> Heq. rewrite HAB in Hnd. symmetry in Heq.
    symmetry in HAB. symmetry in Heq. by destruct (nodup_split c_ix _ _ _ _ _ _ Hnd HAB Heq) as (-> & _). }
  apply eq_sym, app_cons_split in HL as [(R & -> & ->)|[(-> & -> & ->)|(R & -> & ->)]]; [|done|].
  - rewrite Ho; [apply (Hn X d (R ++ B)); by rewrite <- app_assoc| |].
    + apply Hfresh, elem_of_app. left. apply elem_of_app. right. by left.
    + destruct B as [|e B]; simpl; [done|]. intros [= Heq].
      assert (X = X ++ d :: R) as Hx.
      { apply (Hpos X d (R ++ e :: B) e B); [by rewrite <- app_assoc|done|done]. }
      apply (f_equal length) in Hx. rewrite length_app in Hx. simpl in Hx. lia.
  - destruct R as [|e R]; simpl in *.
    + rewrite (Hd d Y) by done. unfold cell_meta. by rewrite last_ix_snoc.
    + rewrite Ho; [|by apply Hfresh, elem_of_app; right; right; apply elem_of_app; right; left|].
      * rewrite (Hn (A ++ e :: R) d Y) by (by rewrite <- app_assoc). unfold cell_meta.
        rewrite !last_ix_app, !last_ix_cons. by destruct (last_ix R).
      * intros [= Heq]. assert (A ++ e :: R = A) as Hx.
        { apply (Hpos (A ++ e :: R) d Y e (R ++ d :: Y)); [by rewrite <- app_assoc|done|done]. }
        apply (f_equal length) in Hx. rewrite length_app in Hx. simpl in Hx. lia.
Qed.
Lemma allocated_nodup s L j k v lvl : allocated s L j k v lvl → NoDup (map c_ix L).
Proof using Type.
  intros Ha. pose proof (NoDup_seq 0 (length (sl_arena s))) as Hnd. rewrite <- (a_slots _ _ _ _ _ _ Ha) in Hnd.
  simpl in Hnd. apply NoDup_cons in Hnd as [_ Hnd]. by apply NoDup_app in Hnd as [? _].
Qed.

Lemma link_node_spec s A B j k v lvl : let c := mkCell j k v lvl in
  allocated s (A ++ B) j k v lvl → level_ok c → Forall level_ok (A ++ B) → bt_wf (contents (A ++ c :: B)) →
  ∃ t, link_node j lvl (preds A) s = Ok t ∧ repr t (A ++ c :: B) ∧
  sl_capacity t = sl_capacity s ∧ sl_seed t = sl_seed s.
Proof using Type.
  intros c Ha [Hlo Hhi] Hlv Hw. simpl in Hlo, Hhi. pose proof (allocated_nodup _ _ _ _ _ _ Ha) as Hnd.
  assert (∀ d, d ∈ A ++ B → c_ix d ≠ j) as Hfresh by (intros d; by eapply allocated_fresh).
  assert (∀ l, prev_at l A ≠ Some j) as Hpj.
  { intros l (e & He' & Heq & _)%prev_at_elem. symmetry in Heq. eapply Hfresh; [|done]. apply elem_of_app. by left. }
  apply Forall_app in Hlv as [HlA HlB]. destruct Ha as [Hold [Hf Hk] Hnew Hnone Hslots Hcap (Hh & Ht & Hhe & He)].
  unfold link_node. set (s0 := set_height _ s).
  unfold at_index at 1. rewrite preds_lookup by (unfold MAX_LEVEL; lia). cbn [rbind]. rewrite prev_at_0 by done.
  destruct (set_node_spec s0 j (with_prev (last_ix A)) _ Hnew) as (n & s1 & _ & Hn & -> & M1 & O1 & N1 & E1); [done|].
  cbn [rbind]. injection Hn as Hn1 Hn2 Hn3 Hn4 Hn5. rewrite enumerated_preds by done.
  assert (linked s1 (A ++ B)) as Hk1.
  { split; [intros; rewrite N1; by apply Hf|intros; rewrite N1; by eapply Hk]. }
  destruct (link_levels_spec j (λ l, prev_at l A) Hpj lvl 0 s1) as (s2 & -> & R2 & N2).
  { intros l [_ Hl%Nat.ltb_lt]%andb_true_iff. split; [apply (prev_at_ok _ _ B); [done|lia]|].
    rewrite N1. change (next_of s0) with (next_of s). by rewrite Hnone by lia. }
  cbn [rbind].
  assert (linked s2 (A ++ c :: B)) as Hk2.
  { apply (linked_insert s1 s2 A B j k v lvl); [done|done|done|..].
    - intros l Hl. rewrite N1. by apply Hnone.
    - intros q l Hl. rewrite N2, (in_levels_tall k v j). fold c. by rewrite (next_of_prev s1 A B) by done. }
  assert (next_of s2 (Some j) 0 = Ok (head_ix B)) as ->.
  { pose proof (proj2 Hk2 A c B 0 eq_refl) as Hx. change (c_ix c) with j in Hx. rewrite Hx by (unfold MAX_LEVEL; lia).
    assert (tall 0 c = true) as -> by (apply tall_spec; simpl; lia). by rewrite next_at_0. }
  cbn [rbind].
  assert (∀ i, meta_of s2 i = meta_of s1 i) as M2 by (intros i; by apply rest_meta).
  destruct (back_link_spec s2 A B (Some j)) as (a & s3 & -> & -> & Hlen & N3 & O3 & D3).
  { intros d B' ->. rewrite M2, O1; [by apply (Hold A d B')|]. apply Hfresh, elem_of_app. right. by left. }
  eexists. split; [done|]. pose proof (rest_length _ _ R2) as Hlen2.
  injection R2 as R2a R2b R2c R2d R2e R2f R2g R2h. rewrite E1 in R2b, R2c, R2d, R2e, R2f, R2g, R2h, Hlen2.
  simpl in *. rewrite length_insert in Hlen2. split; [|split; congruence].
  constructor; simpl.
  - congruence.
  - apply (noded_insert s _ A B j k v lvl Hold Hfresh Hnd); [..|exact D3].
    + etrans; [apply (O3 j)|].
      * destruct B as [|e B]; [done|]. intros [= Heq]. eapply Hfresh; [|done]. apply elem_of_app. right. by left.
      * rewrite M2, M1. f_equal. unfold meta, cell_meta. simpl. by rewrite Hn1, Hn2, Hn4, Hn5.
    + intros i Hi Hh'. etrans; [by apply O3|]. by rewrite M2, O1.
  - destruct Hk2 as [Hf2 Hk2]. split; [intros l; etrans; [apply (N3 None l)|]; by apply Hf2|].
    intros X d Y l HL Hl; etrans; [apply (N3 (Some (c_ix d)) l)|]; by apply (Hk2 X).
  - rewrite R2d, Ht, !last_ix_app, last_ix_cons. destruct B as [|e B]; simpl; [done|].
    rewrite !last_ix_cons. by destruct (last_ix B).
  - rewrite R2e, Hhe, !max_level_app. simpl. lia.
  - rewrite R2g, He, !length_app. simpl. lia.
  - rewrite Forall_app, Forall_cons. done.
  - done.
  - rewrite Hlen, Hlen2, R2c, <- Hslots, !map_app. simpl. by rewrite <- Permutation_middle.
  - rewrite R2f, Hlen, Hlen2. apply Hcap.
Qed.

(** ** Unlinking a node *)
Lemma bt_wf_app_remove (m1 m2 : list (K * V)) (e : K * V) : bt_wf (m1 ++ e :: m2) → bt_wf (m1 ++ m2).
Proof using Type.
  induction m1 as [|[k v] m1 IH]; simpl; [by destruct e; intros [_ ?]|]. intros [HF Hw]. split; [|by apply IH].
  rewrite Forall_app, Forall_cons in *. tauto.
Qed.
Lemma prev_at_split l P e Q L : L = P ++ e :: Q → NoDup (map c_ix L) → prev_at l L = Some (c_ix e) →
  tall l e = true ∧ Forall (λ c, tall l c = false) Q.
Proof using Type.
  intros HL Hnd Hp. destruct (prev_at_cases l L) as [[Hn _]|(X & d & Y & Hx & Hd & HY & Hpd)]; [congruence|].
  rewrite Hp in Hpd. injection Hpd as Heq. rewrite HL in Hx, Hnd.
  by destruct (nodup_split _ _ _ _ _ _ _ Hnd Hx Heq) as (_ & -> & ->).
Qed.
Lemma linked_remove s t A c B : linked s (A ++ c :: B) → NoDup (map c_ix (A ++ c :: B)) →
  (∀ q l, l < MAX_LEVEL → next_of t q l =
    if tall l c && bool_decide (q = prev_at l A) then Ok (next_at l B) else next_of s q l) →
  linked t (A ++ B).
Proof using Type.
  intros [Hf Hk] Hnd Ht. assert (NoDup (map c_ix A)) as HndA by (rewrite map_app in Hnd; by apply NoDup_app in Hnd as [? _]).
  split.
  - intros l Hl. rewrite Ht, Hf by done. rewrite !next_at_app. simpl.
    destruct (prev_at_cases l A) as [[-> HF%next_at_None]|(A1 & d & A2 & -> & Hd & _ & ->)].
    + rewrite bool_decide_eq_true_2, andb_true_r, HF by done. by destruct (tall l c).
    + rewrite bool_decide_eq_false_2, andb_false_r, next_at_app by done. simpl. rewrite Hd. by destruct (next_at l A1).
  - intros X d Y l HL Hl. rewrite Ht by done. apply eq_sym, app_split in HL as [(R & -> & ->)|(R & -> & ->)].
    + rewrite (Hk X d (R ++ c :: B)) by (try done; by rewrite <- app_assoc). rewrite !next_at_app. simpl.
      case_bool_decide as Hp; rewrite ?andb_true_r, ?andb_false_r.
      * apply eq_sym, (prev_at_split l X d R) in Hp as [-> HR%next_at_None]; [|done|done]. rewrite HR. by destruct (tall l c).
      * destruct (tall l d) eqn:Etd; [|done].
        destruct (next_at l R) as [i|] eqn:ER; [done|]. apply next_at_None in ER. destruct Hp.
        rewrite (prev_at_app l X (d :: R)). simpl. unfold prev_step at 2. by rewrite Etd, prev_step_short.
    + rewrite (Hk (A ++ c :: R) d Y) by (try done; by rewrite <- app_assoc).
      rewrite bool_decide_eq_false_2, andb_false_r; [done|].
      intros Hp. apply eq_sym, prev_at_elem in Hp as (e & He & Heq & _).
      rewrite map_app in Hnd. apply NoDup_app in Hnd as (_ & Hnd & _). apply (Hnd (c_ix e)).
      { by apply list_elem_of_fmap_2. }
      rewrite <- Heq. apply list_elem_of_fmap_2. right. apply elem_of_app. right. by left.
Qed.
Lemma noded_remove s t A c B : noded s (A ++ c :: B) → NoDup (map c_ix (A ++ c :: B)) →
  (∀ i, i ≠ c_ix c → Some i ≠ head_ix B → meta_of t i = meta_of s i) →
  (∀ d B', B = d :: B' → meta_of t (c_ix d) = Some (prev_meta (last_ix A) d)) → noded t (A ++ B).
Proof using Type.
  intros Hn Hnd Ho Hd X d Y HL. apply eq_sym, app_split in HL as [(R & -> & ->)|(R & -> & ->)].
  - assert (∀ Q e W, X ++ d :: R ++ c :: B = Q ++ e :: W → length X < length Q → c_ix d ≠ c_ix e) as Hne.
    { intros Q e W Heq Hlen Hx. rewrite <- app_assoc in Hnd.
      destruct (nodup_split _ _ _ _ _ _ _ Hnd Heq Hx) as (-> & _). lia. }
    rewrite Ho; [apply (Hn X d (R ++ c :: B)); by rewrite <- app_assoc|..].
    + apply (Hne (X ++ d :: R) c B); [by rewrite <- app_assoc|rewrite length_app; simpl; lia].
    + destruct B as [|e B]; [done|]. intros [= Heq].
      apply (Hne (X ++ d :: R ++ [c]) e B); [ |rewrite length_app; simpl; lia|done].
      rewrite <- !app_assoc. simpl. by rewrite <- app_assoc.
  - destruct R as [|e R]; simpl in *; [rewrite app_nil_r; by apply (Hd d Y)|].
    rewrite Ho.
    + rewrite (Hn (A ++ c :: e :: R) d Y) by (by rewrite <- app_assoc). unfold cell_meta.
      rewrite !last_ix_app, !last_ix_cons. by destruct (last_ix R).
    + intros Hx. symmetry in Hx.
      apply (nodup_split c_ix A (e :: R ++ d :: Y) (A ++ c :: e :: R) Y c d) in Hx as (Hx & _); [|done|by rewrite <- app_assoc].
      apply (f_equal length) in Hx. rewrite length_app in Hx. simpl in Hx. lia.
    + intros [= Hx]. symmetry in Hx.
      apply (nodup_split c_ix (A ++ [c]) (R ++ d :: Y) (A ++ c :: e :: R) Y e d) in Hx as (Hx & _);
        [|by rewrite <- app_assoc|by rewrite <- !app_assoc].
      apply (f_equal length) in Hx. rewrite !length_app in Hx. simpl in Hx. lia.
Qed.
Lemma lower_height_spec (heads : Links) L : (∀ l, l < MAX_LEVEL → heads !! l = Some (next_at l L)) →
  ∀ h, max_level L ≤ h → h ≤ MAX_LEVEL → lower_height h heads = Ok (max_level L).
Proof using Type.
  intros Hh. induction h as [|h IH]; intros Hm Hl; simpl; [f_equal; lia|].
  unfold at_index. rewrite Hh by lia. simpl. destruct (next_at h L) as [i|] eqn:E; simpl.
  - f_equal. destruct (decide (max_level L ≤ h)) as [Hs|Hs]; [|lia].
    apply short_of_max, next_at_None in Hs. congruence.
  - apply IH; [|lia]. apply next_at_None in E. apply max_level_le. eapply Forall_impl; [exact E|].
    intros c Hc. by apply tall_false in Hc.
Qed.

(** Whatever the value of the node is by then. *)
Lemma remove_found_spec s A c B n (o : option V) : repr s (A ++ c :: B) → sl_arena s !! c_ix c = Some n → ∃ t,
  remove_found (preds A) (c_ix c) (set_arena (<[c_ix c := with_value o n]> (sl_arena s)) s) = Ok t ∧
  repr t (A ++ B) ∧ sl_capacity t = sl_capacity s ∧ sl_seed t = sl_seed s.
Proof using Type.
  intros Hr En. pose proof (repr_node _ _ _ _ Hr) as (n' & En' & _ & _ & Hp & Hlv & _ & Hnx).
  rewrite En in En'. injection En' as <-.
  pose proof (repr_nodup _ _ Hr) as Hnd. apply NoDup_app in Hnd as [Hnd _].
  pose proof (repr_max _ _ Hr) as Hmax.
  destruct (set_node_spec s (c_ix c) (with_value o) _ (r_nodes _ _ Hr A c B eq_refl)) as
    (n' & s1 & En' & _ & _ & _ & O1 & N1 & E1); [done|]. rewrite En in En'. injection En' as <-. rewrite <- E1.
  assert (sl_arena s1 !! c_ix c = Some (with_value o n)) as En1.
  { rewrite E1. apply list_lookup_insert_eq. by apply lookup_lt_Some in En. }
  destruct Hr as [Hh Hnode Hlink Ht Hhe He Hlvs Hw Hslots Hcap].
  assert (c_ix c ∉ map c_ix (A ++ B)) as Hc.
  { rewrite map_app in Hnd. simpl in Hnd. rewrite <- Permutation_middle, <- map_app in Hnd.
    by apply NoDup_cons in Hnd as [? _]. }
  assert (∀ l, prev_at l A ≠ Some (c_ix c)) as Hpj.
  { intros l (e & He' & Heq & _)%prev_at_elem. apply Hc. rewrite Heq. apply list_elem_of_fmap_2, elem_of_app. by left. }
  pose proof Hlvs as Hlvs'. apply Forall_app in Hlvs' as [HlA HlB]. apply Forall_cons in HlB as [[Hlo Hhi] HlB].
  unfold remove_found. unfold at_index at 1. rewrite En1. cbn [rbind]. unfold at_index at 1. simpl n_next.
  rewrite Hnx by (unfold MAX_LEVEL; lia). cbn [rbind].
  assert (tall 0 c = true) as -> by (apply tall_spec; lia). rewrite next_at_0 by done.
  simpl n_level. simpl n_prev. rewrite Hlv, enumerated_preds by done.
  assert (linked s1 (A ++ c :: B)) as Hk1.
  { destruct Hlink as [Hf Hk]. split; [intros; by rewrite N1, Hf|]. intros; rewrite N1; by eapply Hk. }
  destruct (unlink_levels_spec (c_ix c) (λ l, prev_at l A) Hpj (c_lvl c) 0 s1) as (s2 & -> & R2 & N2).
  { intros l [_ Hl%Nat.ltb_lt]%andb_true_iff. split; [apply (prev_at_ok _ _ (c :: B)); [done|lia]|].
    by rewrite (proj2 Hk1 A c B) by (done || lia). }
  cbn [rbind]. assert (∀ i, i ≠ c_ix c → meta_of s2 i = meta_of s i) as M2.
  { intros i Hi. rewrite <- O1 by done. by apply rest_meta. }
  assert (linked s2 (A ++ B)) as Hk2.
  { apply (linked_remove s1 s2 A c B); [done|done|]. intros q l Hl. rewrite N2.
    change (in_levels 0 (c_lvl c) l) with (tall l c). rewrite (proj2 Hk1 A c B) by done. by destruct (tall l c). }
  destruct (back_link_spec s2 (A ++ [c]) B (n_prev n)) as (a & s3 & -> & -> & Hla & N3 & O3 & D3).
  { intros d B' ->. rewrite M2.
    2:{ intros Hx. apply Hc. rewrite <- Hx. apply list_elem_of_fmap_2, elem_of_app. right. by left. }
    apply (Hnode (A ++ [c]) d B'). by rewrite <- app_assoc. }
  pose proof (rest_length _ _ R2) as Hlen2. injection R2 as R2a R2b R2c R2d R2e R2f R2g R2h.
  rewrite E1 in R2b, R2c, R2d, R2e, R2f, R2g, R2h, Hlen2. simpl in R2b, R2c, R2d, R2e, R2f, R2g, R2h, Hlen2.
  rewrite length_insert in Hlen2.
  set (s3 := set_tail _ _) in *. cbn [rbind].
  change (sl_height s3) with (sl_height s2). change (sl_heads s3) with (sl_heads s2).
  rewrite R2e, Hhe, (lower_height_spec (sl_heads s2) (A ++ B)).
  2:{ intros l Hl. pose proof (proj1 Hk2 l Hl) as Hx. simpl in Hx. unfold at_index in Hx.
      destruct (sl_heads s2 !! l); [|done]. by injection Hx as ->. }
  2:{ rewrite !max_level_app. simpl. lia. }
  2:{ done. }
  cbn [rbind]. unfold set_node, at_index. simpl.
  destruct (lookup_lt_is_Some_2 a (c_ix c)) as [n' En'].
  { rewrite Hla, Hlen2. by apply lookup_lt_Some in En. }
  rewrite En'. cbn [rbind]. simpl. rewrite R2g, He, (proj2 (Nat.eqb_neq _ 0)) by (rewrite length_app; simpl; lia).
  eexists. split; [done|]. split; [|split; simpl; congruence]. set (t := set_entries _ _).
  assert (∀ i, i ≠ c_ix c → sl_arena t !! i = sl_arena s3 !! i) as Ha.
  { intros i Hi. simpl. by rewrite list_lookup_insert_ne. }
  assert (∀ i, i ≠ c_ix c → meta_of t i = meta_of s3 i) as Hm by (intros i Hi; unfold meta_of; by rewrite Ha).
  assert (∀ q l, q ≠ Some (c_ix c) → next_of t q l = next_of s2 q l) as Hq.
  { intros q l Hq. by rewrite (next_of_other s3 t (c_ix c)). }
  constructor; simpl.
  - congruence.
  - apply (noded_remove s t A c B Hnode Hnd).
    + intros i Hi Hhd. by rewrite Hm, O3, M2.
    + intros d B' ->. rewrite Hm, (D3 d B'); [by rewrite Hp|done|]. intros Hx. apply Hc. rewrite <- Hx.
      apply list_elem_of_fmap_2, elem_of_app. right. by left.
  - destruct Hk2 as [Hf2 Hk2]. split; [intros l Hl; rewrite Hq by done; by apply Hf2|].
    intros X d Y l HL Hl. rewrite Hq; [by apply (Hk2 X)|]. intros [= Hx]. apply Hc. rewrite <- Hx, HL.
    apply list_elem_of_fmap_2, elem_of_app. right. by left.
  - rewrite R2d, Ht, Hp, !last_ix_app, last_ix_cons. destruct B as [|e B]; simpl; [done|].
    rewrite !last_ix_cons. by destruct (last_ix B).
  - done.
  - rewrite !length_app. simpl. lia.
  - by apply Forall_app.
  - rewrite contents_app in *. by apply bt_wf_app_remove in Hw.
  - rewrite length_insert, Hla, Hlen2, R2c, <- Hslots, !map_app. simpl. by rewrite <- !Permutation_middle.
  - rewrite R2f, length_insert, Hla, Hlen2. apply Hcap.
Qed.

(** ** Overwriting a value *)
Definition with_val v c := mkCell (c_ix c) (c_key c) v (c_lvl c).
Lemma next_at_with_val l A c B v : next_at l (A ++ with_val v c :: B) = next_at l (A ++ c :: B).
Proof using Type. by rewrite !next_at_app. Qed.
Lemma last_ix_with_val A c B v : last_ix (A ++ with_val v c :: B) = last_ix (A ++ c :: B).
Proof using Type. by rewrite !last_ix_app, !last_ix_cons. Qed.
Lemma contents_with_val A c B v : bt_wf (contents (A ++ c :: B)) → bt_wf (contents (A ++ with_val v c :: B)).
Proof using Type.
  induction A as [|a A IH]; intros [HF Hw]; split; [done|done| |by apply IH].
  apply Forall_fmap. apply Forall_fmap in HF. rewrite Forall_app, Forall_cons in *. done.
Qed.
Lemma set_value_spec s A c B v : repr s (A ++ c :: B) → ∃ n, sl_arena s !! c_ix c = Some n ∧
  n_value n = Some (c_val c) ∧
  repr (set_arena (<[c_ix c := with_value (Some v) n]> (sl_arena s)) s) (A ++ with_val v c :: B).
Proof using Type.
  intros Hr. pose proof (repr_nodup _ _ Hr) as Hnd. apply NoDup_app in Hnd as [Hnd _].
  destruct Hr as [Hh Hnode Hlink Ht Hhe He Hlvs Hw Hslots Hcap].
  destruct (set_node_spec s (c_ix c) (with_value (Some v)) _ (Hnode A c B eq_refl)) as
    (n & t & En & Hn & Hset & M & O & N & Et); [done|]. exists n. injection Hn as H1 H2 H3 H4 H5.
  split_and!; [done|done|]. rewrite <- Et.
  constructor.
  - by rewrite Et.
  - intros X d Y [(R & -> & ->)|[(-> & -> & ->)|(R & -> & ->)]]%eq_sym%app_cons_split.
    + rewrite O; [apply (Hnode X d (R ++ c :: B)); by rewrite <- app_assoc|]. intros Hx.
      rewrite <- app_assoc in Hnd.
      destruct (nodup_split c_ix X (R ++ c :: B) (X ++ d :: R) B d c Hnd) as (Hl & _); [by rewrite <- app_assoc|done|].
      apply (f_equal length) in Hl. rewrite length_app in Hl. simpl in Hl. lia.
    + change (c_ix (with_val v c)) with (c_ix c). rewrite M. f_equal. unfold meta, cell_meta. simpl. congruence.
    + rewrite O.
      * rewrite (Hnode (A ++ c :: R) d Y) by (by rewrite <- app_assoc). unfold cell_meta. by rewrite last_ix_with_val.
      * intros Hx. symmetry in Hx.
        destruct (nodup_split c_ix A (R ++ d :: Y) (A ++ c :: R) Y c d Hnd) as (Hl & _); [by rewrite <- app_assoc|done|].
        apply (f_equal length) in Hl. rewrite length_app in Hl. simpl in Hl. lia.
  - destruct Hlink as [Hf Hk]. split; [intros l Hl; rewrite N, next_at_with_val; by apply Hf|].
    intros X d Y l [(R & -> & ->)|[(-> & -> & ->)|(R & -> & ->)]]%eq_sym%app_cons_split Hl; rewrite N.
    + rewrite next_at_with_val. apply (Hk X); [by rewrite <- app_assoc|done].
    + by apply (Hk A c B).
    + apply (Hk (A ++ c :: R)); [by rewrite <- app_assoc|done].
  - rewrite Et, last_ix_with_val. done.
  - rewrite Et, max_level_app. simpl. by rewrite Hhe, max_level_app.
  - rewrite Et, length_app. simpl. by rewrite He, length_app.
  - rewrite Forall_app, Forall_cons in *. done.
  - by apply contents_with_val.
  - rewrite Et. simpl. rewrite length_insert, <- Hslots, !map_app. done.
  - rewrite Et. simpl. by rewrite length_insert.
Qed.
End Ops.
