(* ===== verification/SkipListBackend.v ===== *)
(** * The skip list as a backend

    Every operation of the skip list is the operation of an ordered map with
    an optional bound on its size ([spec_step]); the sorted bulk operations
    end in the very state the single ones do.  The instances discharge the
    contracts of [Backend.v]. *)
From stdpp Require Import base numbers option list.
From S2P Require Import Prelude Bytes Order BTreeMap Backend MapBackend Engine SkipList SkipListLaws SkipListOps.
Import SkipList.

Section Skip.
Context {K V : Type} `{TotalCmp K}.
#[local] Abbreviation SkipList := (SkipList K V).
#[local] Abbreviation op := (op K V).
#[local] Abbreviation answer := (answer V).
#[local] Abbreviation Cell := (Cell (K:=K) (V:=V)).
Implicit Types (s t : SkipList) (k : K) (v : V) (c : Cell) (A B L : list Cell) (l : nat).

(** ** The key's position *)
Definition above k B : Prop := Forall (λ c, cmp k (c_key c) = Lt) B.
Lemma locate s k L : repr s L →
  (∃ A c B, L = A ++ c :: B ∧ c_key c = k ∧ below k A ∧ above k B ∧ search s k = Ok (preds A, Some (c_ix c))) ∨
  (∃ A B, L = A ++ B ∧ below k A ∧ above k B ∧ search s k = Ok (preds A, None)).
Proof.
  intros Hr. destruct (split_at k L (r_sorted _ _ Hr)) as (A & B & -> & HA & HB).
  pose proof (search_spec s k A B Hr HA HB) as Hs.
  pose proof (r_levels _ _ Hr) as Hl. apply Forall_app in Hl as [_ Hl]. rewrite hit_0 in Hs by done.
  pose proof (sorted_suffix _ _ (r_sorted _ _ Hr)) as Hw. destruct B as [|c B].
  - right. exists A, []. split_and!; try done. constructor.
  - apply sorted_above in Hw. inversion HB as [|? ? Hc _]; subst. destruct (cmpP (c_key c) k) as [E|E E'|E E'].
    + left. exists A, c, B. subst k. split_and!; done.
    + done.
    + right. exists A, (c :: B). split_and!; try done.
      constructor; [done|]. eapply Forall_impl; [exact Hw|]. intros d Hd. simpl in Hd. ord.
Qed.
(** What the map operations do at that position. *)
Lemma get_at k A B : below k A → bt_get k (contents (A ++ B)) = bt_get k (contents B).
Proof.
  induction 1 as [|c A Hc HA IH]; [done|]. simpl. apply cmp_Lt_Gt in Hc. by rewrite Hc.
Qed.
Lemma get_above k B : above k B → bt_get k (contents B) = None.
Proof. intros HB. apply bt_lt_get_None. by apply Forall_fmap. Qed.
Lemma insert_at k v A B : below k A → above k B →
  bt_insert k v (contents (A ++ B)) = contents A ++ (k, v) :: contents B.
Proof.
  intros HA HB. induction HA as [|c A Hc HA IH]; simpl.
  - destruct B as [|d B]; [done|]. inversion HB as [|? ? Hd _]; subst. simpl. by rewrite Hd.
  - apply cmp_Lt_Gt in Hc. rewrite Hc. f_equal. apply IH.
Qed.
Lemma insert_over v A c B : below (c_key c) A →
  bt_insert (c_key c) v (contents (A ++ c :: B)) = contents (A ++ with_val v c :: B).
Proof.
  induction 1 as [|d A Hd HA IH]; simpl; [by rewrite cmp_refl|].
  apply cmp_Lt_Gt in Hd. rewrite Hd. f_equal. apply IH.
Qed.
Lemma remove_above k B : above k B → bt_remove k (contents B) = contents B.
Proof. induction 1 as [|c B Hc HB IH]; simpl; [done|]. rewrite Hc. by f_equal. Qed.
Lemma remove_at A c B : below (c_key c) A → above (c_key c) B →
  bt_remove (c_key c) (contents (A ++ c :: B)) = contents (A ++ B).
Proof.
  intros HA HB. induction HA as [|d A Hd HA IH]; simpl.
  - rewrite cmp_refl. by apply remove_above.
  - apply cmp_Lt_Gt in Hd. rewrite Hd. f_equal. apply IH.
Qed.
Lemma remove_absent k A B : below k A → above k B → bt_remove k (contents (A ++ B)) = contents (A ++ B).
Proof.
  intros HA HB. induction HA as [|d A Hd HA IH]; simpl; [by apply remove_above|].
  apply cmp_Lt_Gt in Hd. rewrite Hd. f_equal. apply IH.
Qed.
Lemma sorted_insert k v A B j lvl : bt_wf (contents (A ++ B)) → below k A → above k B →
  bt_wf (contents (A ++ mkCell j k v lvl :: B)).
Proof.
  intros Hw HA HB. replace (contents _) with (bt_insert k v (contents (A ++ B))); [by apply bt_wf_insert|].
  rewrite insert_at by done. by rewrite contents_app.
Qed.

(** ** Insertion and removal *)
Lemma draw_level_range fuel lvl seed : 1 ≤ lvl ≤ MAX_LEVEL → 1 ≤ (draw_level fuel lvl seed).1 ≤ MAX_LEVEL.
Proof using Type.
  revert lvl seed. induction fuel as [|fuel IH]; intros lvl seed Hl; [done|]. cbn [draw_level].
  destruct (Nat.ltb_spec lvl MAX_LEVEL); [|done]. case_match; [apply IH; lia|done].
Qed.
Lemma repr_seed s L z : repr s L → repr (set_seed z s) L.
Proof using Type. by intros []. Qed.
Definition full (cap : option nat) (n : nat) : bool :=
  match cap with Some max_entries => (max_entries <=? n)%nat | None => false end.
Lemma insert_new_spec s A B k v : repr s (A ++ B) → below k A → above k B →
  let (t, r) := insert_new k v (preds A) s in
  sl_capacity t = sl_capacity s ∧
  if full (sl_capacity s) (length (A ++ B)) then r = Err StorageFull ∧ repr t (A ++ B)
  else ∃ j lvl, r = Ok j ∧ repr t (A ++ mkCell j k v lvl :: B).
Proof.
  intros Hr HA HB. unfold insert_new. destruct (draw_level _ _ _) as [lvl seed] eqn:Ed.
  assert (1 ≤ lvl ≤ MAX_LEVEL) as Hl.
  { pose proof (draw_level_range MAX_LEVEL 1 (sl_seed s)) as Hx. rewrite Ed in Hx. apply Hx. unfold MAX_LEVEL. lia. }
  pose proof (alloc_spec (set_seed seed s) (A ++ B) k v lvl (repr_seed _ _ _ Hr)) as Ha.
  destruct (alloc k v lvl (set_seed seed s)) as [t r]. destruct r as [j|e|]; simpl in Ha |- *; [..|done].
  - destruct Ha as (Ha & _ & Hcap). pose proof (a_slots _ _ _ _ _ _ Ha) as Hs. apply Permutation_length in Hs.
    assert (full (sl_capacity s) (length (A ++ B)) = false) as ->.
    { pose proof (a_capacity _ _ _ _ _ _ Ha) as Hc. rewrite Hcap in Hc. simpl in Hs.
      rewrite length_app, length_map, length_seq in Hs. unfold full. destruct (sl_capacity s) as [n|]; [|done].
      apply Nat.leb_gt. lia. }
    destruct (link_node_spec t A B j k v lvl Ha) as (t' & -> & Ht' & Hc' & _); [done|apply (r_levels _ _ Hr)| |].
    { by apply sorted_insert; [apply (r_sorted _ _ Hr)|..]. }
    split; [congruence|]. by exists j, lvl.
  - destruct Ha as (-> & -> & Hcap). change (sl_capacity s = Some (length (A ++ B))) in Hcap. unfold full. rewrite Hcap, Nat.leb_refl.
    split; [done|]. split; [done|]. by apply repr_seed.
Qed.

(** ** The specification: an ordered map with a bound on its size *)
Definition spec_insert (cap : option nat) k v (m : btree K V) (a : answer) : btree K V * io answer :=
  if bt_contains k m then (bt_insert k v m, Ok a)
  else if full cap (length m) then (m, Err StorageFull) else (bt_insert k v m, Ok a).
Definition spec_step (cap : option nat) : op → btree K V → btree K V * io answer := map_step (spec_insert cap).
Definition answered {X} (f : X → answer) (r : SkipList * io X) : SkipList * io answer := (r.1, rmap f r.2).
Definition sl_step (o : op) s : SkipList * io answer :=
  match o with
  | Put k v => answered (λ _, Done) (sl_put k v s)
  | PutIfAbsent k v => answered Flag (sl_put_if_absent k v s)
  | Replace k v => answered Previous (sl_replace k v s)
  | Delete k => answered Flag (sl_delete k s)
  | Update k f => answered (λ _, Done) (sl_update k f s)
  | Clear => answered (λ _, Done) (sl_clear s)
  end.

(** The list holds the map. *)
Definition holds s (m : btree K V) : Prop := ∃ L, repr s L ∧ contents L = m.
Lemma holds_new cap seed : holds (new cap seed) [].
Proof using Type.
  exists []. split; [|done]. constructor; simpl; try done.
  - by intros [|] ? ?.
  - split; [|by intros [|] ? ?]. intros l Hl. simpl. unfold at_index, no_links.
    by rewrite (lookup_replicate_2 _ _ _ Hl).
  - by destruct cap; simpl; lia.
Qed.
Lemma holds_wf s m : holds s m → bt_wf m.
Proof using Type. intros (L & Hr & <-). apply (r_sorted _ _ Hr). Qed.
Lemma contents_length L : length (contents L) = length L.
Proof using Type. apply length_fmap. Qed.

(** One step of the list against one of the map. *)
Definition agree s (r : SkipList * io answer) (q : btree K V * io answer) : Prop :=
  r.2 = q.2 ∧ holds r.1 q.1 ∧ sl_capacity r.1 = sl_capacity s.
Lemma insert_agree {X} s A B k v (f : SkipList → nat → SkipList * io X) (g : X → answer) (a : X) :
  repr s (A ++ B) → below k A → above k B → (∀ t j, f t j = (t, Ok a)) →
  agree s (answered g (and_then (insert_new k v (preds A) s) f))
    (spec_insert (sl_capacity s) k v (contents (A ++ B)) (g a)).
Proof.
  intros Hr HA HB Hf. pose proof (insert_new_spec s A B k v Hr HA HB) as Hi.
  destruct (insert_new k v (preds A) s) as [t r]. destruct Hi as [Hc Hi].
  unfold spec_insert, bt_contains. rewrite get_at, get_above by done. simpl. rewrite contents_length.
  destruct (full _ _).
  - destruct Hi as [-> Ht]. split_and!; [done| |done]. by exists (A ++ B).
  - destruct Hi as (j & lvl & -> & Ht). simpl. rewrite Hf. split_and!; [done| |done].
    eexists. split; [exact Ht|]. rewrite insert_at by done. by rewrite contents_app.
Qed.
Lemma insert_new_panic_free s A B k v : repr s (A ++ B) → below k A → above k B →
  (insert_new k v (preds A) s).2 ≠ Panic.
Proof.
  intros Hr HA HB. pose proof (insert_new_spec s A B k v Hr HA HB) as Hi.
  destruct (insert_new k v (preds A) s) as [t r]. destruct Hi as [_ Hi]. simpl.
  destruct (full _ _); [destruct Hi as [-> _]; done|destruct Hi as (? & ? & -> & _); done].
Qed.
Lemma overwrite_agree s A c B v n a : repr s (A ++ c :: B) → below (c_key c) A →
  sl_arena s !! c_ix c = Some n →
  agree s (set_arena (<[c_ix c := with_value (Some v) n]> (sl_arena s)) s, Ok a)
    (spec_insert (sl_capacity s) (c_key c) v (contents (A ++ c :: B)) a).
Proof.
  intros Hr HA Hn. destruct (set_value_spec s A c B v Hr) as (n' & Hn' & _ & Ht).
  rewrite Hn in Hn'. injection Hn' as <-. unfold spec_insert, bt_contains. rewrite get_at by done. simpl.
  rewrite cmp_refl. simpl. split_and!; [done| |done]. eexists. split; [exact Ht|]. by rewrite insert_over.
Qed.
Lemma remove_agree s A c B a : repr s (A ++ c :: B) → below (c_key c) A → above (c_key c) B → ∃ t,
  remove_found (preds A) (c_ix c) s = Ok t ∧ agree s (t, Ok a) (bt_remove (c_key c) (contents (A ++ c :: B)), Ok a).
Proof.
  intros Hr HA HB. destruct (repr_node _ _ _ _ Hr) as (n & Hn & _).
  destruct (remove_found_spec s A c B n (n_value n) Hr Hn) as (t & Ht & Hrt & Hc & _). exists t.
  rewrite list_insert_id in Ht by (by destruct n). destruct s.
  split; [done|]. split_and!; [done| |done]. exists (A ++ B). by rewrite remove_at.
Qed.
Lemma step_agree o s L : repr s L → agree s (sl_step o s) (spec_step (sl_capacity s) o (contents L)).
Proof.
  intros Hr. destruct o as [k v|k v|k v|k|k f|]; simpl.
  - unfold sl_put, searched. destruct (locate s k L Hr) as [(A & c & B & -> & <- & HA & HB & ->)|(A & B & -> & HA & HB & ->)].
    + destruct (repr_node _ _ _ _ Hr) as (n & Hn & _). unfold set_node, at_index. rewrite Hn. simpl.
      by apply overwrite_agree.
    + by apply (insert_agree s A B k v _ (λ _, Done) tt).
  - unfold sl_put_if_absent, searched.
    destruct (locate s k L Hr) as [(A & c & B & -> & <- & HA & HB & ->)|(A & B & -> & HA & HB & ->)].
    + unfold bt_contains. rewrite get_at by done. simpl. rewrite cmp_refl. simpl.
      split_and!; [done| |done]. by eexists.
    + unfold bt_contains. rewrite get_at, get_above by done. simpl.
      by apply (insert_agree s A B k v _ Flag true).
  - unfold sl_replace, searched.
    destruct (locate s k L Hr) as [(A & c & B & -> & <- & HA & HB & ->)|(A & B & -> & HA & HB & ->)].
    + destruct (repr_node _ _ _ _ Hr) as (n & Hn & _ & Hv & _). unfold set_node, at_index. rewrite Hn. simpl.
      unfold live_value. rewrite Hv, get_at by done. simpl. rewrite cmp_refl. by apply overwrite_agree.
    + rewrite get_at, get_above by done. by apply (insert_agree s A B k v _ Previous None).
  - unfold sl_delete, searched.
    destruct (locate s k L Hr) as [(A & c & B & -> & <- & HA & HB & ->)|(A & B & -> & HA & HB & ->)].
    + destruct (remove_agree s A c B (Flag true) Hr HA HB) as (t & -> & Ht). simpl.
      unfold bt_contains. rewrite get_at by done. simpl. rewrite cmp_refl. exact Ht.
    + unfold bt_contains. rewrite get_at, get_above, remove_absent by done.
      split_and!; [done| |done]. by eexists.
  - unfold sl_update, searched.
    destruct (locate s k L Hr) as [(A & c & B & -> & <- & HA & HB & ->)|(A & B & -> & HA & HB & ->)].
    + destruct (repr_node _ _ _ _ Hr) as (n & Hn & _ & Hv & _). rewrite get_at by done. simpl. rewrite cmp_refl.
      unfold at_index, set_node. rewrite Hn. simpl. unfold at_index. rewrite Hn. simpl. rewrite Hv.
      pose proof (lookup_lt_Some _ _ _ Hn) as Hlt. destruct (f (Some (c_val c))) as [w|] eqn:Ef.
      * rewrite list_lookup_insert_eq by done. simpl. rewrite list_insert_insert_eq.
        by apply (overwrite_agree s A c B w n).
      * destruct (remove_found_spec s A c B n None Hr Hn) as (t & -> & Ht & Hcap & _).
        split_and!; [done| |done]. exists (A ++ B). by rewrite remove_at.
    + rewrite get_at, get_above by done. destruct (f None) as [v|] eqn:Ef.
      * by apply (insert_agree s A B k v _ (λ _, Done) tt).
      * rewrite remove_absent by done. split_and!; [done| |done]. by eexists.
  - split_and!; [done| |done]. apply (holds_new (sl_capacity s) (sl_seed s)).
Qed.
End Skip.
