(* ===== verification/SkipListReads.v ===== *)
(** * Reading a skip list, the sorted bulk operations, and the contracts

    Point and range reads are those of the map the list holds, in key order
    and backwards; the bulk operations of sorted input walk the list once and
    end in the state of the single operations.  The instances at the end make
    the skip list a backend the clients' theorems apply to. *)
From stdpp Require Import base numbers option list.
From S2P Require Import Prelude Bytes Order BTreeMap Backend MapBackend Engine SkipList SkipListLaws SkipListOps SkipListBackend.
Import SkipList.

Section Reads.
Context {K V : Type} `{TotalCmp K}.
#[local] Abbreviation SkipList := (SkipList K V).
#[local] Abbreviation Cell := (Cell (K:=K) (V:=V)).
Implicit Types (s t : SkipList) (k : K) (v : V) (c : Cell) (A B L : list Cell) (l : nat).

(** ** Point reads *)
Lemma sl_get_spec s L k : repr s L → sl_get s k = Ok (bt_get k (contents L)).
Proof.
  intros Hr. unfold sl_get. destruct (locate s k L Hr) as [(A & c & B & -> & <- & HA & HB & ->)|(A & B & -> & HA & HB & ->)].
  - destruct (repr_node _ _ _ _ Hr) as (n & Hn & _ & Hv & _). simpl. unfold at_index, live_value. rewrite Hn. simpl.
    rewrite Hv, get_at by done. simpl. by rewrite cmp_refl.
  - simpl. by rewrite get_at, get_above by done.
Qed.
Lemma sl_contains_spec s L k : repr s L → sl_contains s k = Ok (bt_contains k (contents L)).
Proof.
  intros Hr. unfold sl_contains, bt_contains.
  destruct (locate s k L Hr) as [(A & c & B & -> & <- & HA & HB & ->)|(A & B & -> & HA & HB & ->)]; simpl.
  - rewrite get_at by done. simpl. by rewrite cmp_refl.
  - by rewrite get_at, get_above by done.
Qed.

(** ** Iteration *)
(** The entries before the first key that stops. *)
Fixpoint until (stop : K → bool) L : list (K * V) :=
  match L with
  | [] => []
  | c :: L => if stop (c_key c) then [] else (c_key c, c_val c) :: until stop L
  end.
Lemma until_never L : until (λ _, false) L = contents L.
Proof using Type. induction L as [|c L IH]; [done|]. simpl. by rewrite IH. Qed.
Lemma head_ix_cons c B : head_ix (c :: B) = Some (c_ix c).
Proof using Type. done. Qed.
Lemma collect_forward s stop B : ∀ A fuel, repr s (A ++ B) → length B < fuel →
  collect fuel s forward stop (head_ix B) = Ok (until stop B).
Proof using Type.
  induction B as [|c B IH]; intros A fuel Hr Hf; destruct fuel as [|fuel]; simpl in Hf; try lia; [done|].
  pose proof (r_levels _ _ Hr) as Hlv. rewrite Forall_app, Forall_cons in Hlv. destruct Hlv as (_ & [Hlo _] & HlB).
  destruct (repr_node _ _ _ _ Hr) as (n & Hn & Hk & Hv & _ & _ & _ & Hx).
  rewrite head_ix_cons. cbn [collect]. unfold at_index at 1. rewrite Hn. cbn [rbind]. rewrite Hk. cbn [until].
  destruct (stop (c_key c)); [done|]. unfold forward, at_index, live_value. rewrite Hx by (unfold MAX_LEVEL; lia).
  assert (tall 0 c = true) as -> by (apply tall_spec; lia). cbn [rbind]. rewrite Hv, next_at_0 by done. cbn [rbind].
  fold (forward (K:=K) (V:=V)).
  change (λ n : Node K V, match n_next n !! 0 with Some a => Ok a | None => Panic end) with (forward (K:=K) (V:=V)).
  rewrite (IH (A ++ [c])) by (rewrite <- ?app_assoc; done || lia). done.
Qed.
Lemma collect_backward s stop A : ∀ B fuel, repr s (A ++ B) → length A < fuel →
  collect fuel s backward stop (last_ix A) = Ok (until stop (rev A)).
Proof using Type.
  induction A as [|c A IH] using rev_ind; intros B fuel Hr Hf; destruct fuel as [|fuel]; [lia|done|lia|].
  rewrite length_app in Hf. simpl in Hf. rewrite <- app_assoc in Hr.
  destruct (repr_node _ _ _ _ Hr) as (n & Hn & Hk & Hv & Hp & _).
  rewrite last_ix_snoc, rev_app_distr. cbn [collect]. unfold at_index at 1. rewrite Hn. cbn [rbind]. rewrite Hk. simpl.
  destruct (stop (c_key c)); [done|]. unfold live_value. rewrite Hv, Hp. cbn [rbind].
  rewrite (IH (c :: B)) by (done || lia). done.
Qed.
Lemma fuel_enough s L : repr s L → length L < fuel_of s.
Proof using Type. intros Hr. pose proof (repr_length _ _ Hr). unfold fuel_of. lia. Qed.
Lemma head_of s L : repr s L → next_of s None 0 = Ok (head_ix L).
Proof using Type.
  intros Hr. rewrite (r_first _ _ Hr) by (unfold MAX_LEVEL; lia). by rewrite next_at_0 by apply (r_levels _ _ Hr).
Qed.
Lemma sl_iter_spec s L : repr s L → sl_iter s = Ok (contents L).
Proof using Type.
  intros Hr. unfold sl_iter. rewrite (head_of s L) by done. cbn [rbind].
  rewrite (collect_forward s _ L []) by (try done; by apply fuel_enough). by rewrite until_never.
Qed.
Lemma rev_contents L : contents (rev L) = rev (contents L).
Proof using Type. apply map_rev. Qed.
Lemma sl_entries_rev_spec s L : repr s L → sl_entries_rev s = Ok (rev (contents L)).
Proof using Type.
  intros Hr. unfold sl_entries_rev. rewrite (r_tail _ _ Hr).
  rewrite (collect_backward s _ L []) by (rewrite ?app_nil_r; try done; by apply fuel_enough).
  by rewrite until_never, rev_contents.
Qed.
Lemma entry_at_spec s A c B : repr s (A ++ c :: B) → entry_at s (Some (c_ix c)) = Ok (Some (c_key c, c_val c)).
Proof using Type.
  intros Hr. destruct (repr_node _ _ _ _ Hr) as (n & Hn & Hk & Hv & _). simpl. unfold at_index, live_value.
  rewrite Hn. simpl. by rewrite Hv, Hk.
Qed.
Lemma sl_first_spec s L : repr s L → sl_first s = Ok (head (contents L)).
Proof using Type.
  intros Hr. unfold sl_first. rewrite (head_of s L) by done. cbn [rbind]. destruct L as [|c L]; [done|].
  by apply (entry_at_spec s [] c L).
Qed.
Lemma sl_last_spec s L : repr s L → sl_last s = Ok (last (contents L)).
Proof using Type.
  intros Hr. unfold sl_last. rewrite (r_tail _ _ Hr). destruct L as [|c L _] using rev_ind; [done|].
  rewrite last_ix_snoc, contents_app. simpl. rewrite last_snoc. by apply (entry_at_spec s L c []).
Qed.

(** ** Ranges *)
Lemma bt_wf_app_1 (m1 m2 : list (K * V)) : bt_wf (m1 ++ m2) → bt_wf m1.
Proof using Type.
  induction m1 as [|[k v] m1 IH]; [done|]. simpl. intros [HF Hw]. apply Forall_app in HF as [HF _]. auto.
Qed.
Lemma bt_wf_snoc_lt (m1 : list (K * V)) k v : bt_wf (m1 ++ [(k, v)]) → Forall (λ p, cmp p.1 k = Lt) m1.
Proof using Type.
  induction m1 as [|[j w] m1 IH]; [constructor|]. simpl. intros [HF Hw]. apply Forall_app in HF as [_ HF].
  rewrite Forall_singleton in HF. constructor; [exact HF|by apply IH].
Qed.
Lemma first_at_or_after_spec s k A B : repr s (A ++ B) → below k A → not_below k B →
  first_at_or_after s k = Ok (head_ix B).
Proof.
  intros Hr HA HB. unfold first_at_or_after. rewrite (search_spec s k A B) by done.
  pose proof (r_levels _ _ Hr) as Hl. apply Forall_app in Hl as [_ Hl].
  cbn [rbind fst snd]. rewrite hit_0 by done. rewrite <- (next_at_0 B) by done.
  pose proof (next_of_prev s A B 0 (r_linked _ _ Hr)) as Hn.
  unfold at_index. rewrite preds_lookup by (unfold MAX_LEVEL; lia). cbn [rbind].
  rewrite Hn by (unfold MAX_LEVEL; lia). destruct B as [|c B]; [done|]. rewrite next_at_0 by done.
  by destruct (cmp (c_key c) k).
Qed.
Lemma until_filter e L : bt_wf (contents L) →
  until (λ key, negb (key <? e)) L = List.filter (λ p, p.1 <? e) (contents L).
Proof.
  induction L as [|c L IH]; [done|]. intros Hw. simpl. destruct (c_key c <? e) eqn:E; simpl.
  - f_equal. apply IH. apply Hw.
  - apply sorted_above in Hw. symmetry. clear IH. induction Hw as [|d L Hd Hw IH]; [done|]. simpl.
    assert ((c_key d <? e) = false) as ->; [|done]. destruct (c_key d <? e) eqn:E'; [|done].
    apply ltb_lt in E'. assert (cmp (c_key c) e = Lt) as Hx by ord. apply ltb_lt in Hx. congruence.
Qed.
Lemma filter_false (p : K * V → bool) L : Forall (λ c, p (c_key c, c_val c) = false) L → List.filter p (contents L) = [].
Proof using Type. induction 1 as [|c L Hc HL IH]; [done|]. simpl. by rewrite Hc. Qed.
Lemma filter_same (p q : K * V → bool) L : Forall (λ c, p (c_key c, c_val c) = q (c_key c, c_val c)) L →
  List.filter p (contents L) = List.filter q (contents L).
Proof using Type. induction 1 as [|c L Hc HL IH]; [done|]. simpl. by rewrite Hc, IH. Qed.
Lemma contents_filter (p : K * V → bool) A B :
  List.filter p (contents (A ++ B)) = List.filter p (contents A) ++ List.filter p (contents B).
Proof using Type. by rewrite contents_app, List.filter_app. Qed.
Lemma ge_leb b k : cmp k b ≠ Lt → (b <=? k) = true.
Proof. unfold leb. destruct (cmpP k b) as [->|E E'|E E']; [by rewrite cmp_refl|done|]. by rewrite E'. Qed.
Lemma lt_leb b k : cmp k b = Lt → (b <=? k) = false.
Proof. intros Hk. apply cmp_Lt_Gt in Hk. unfold leb. by rewrite Hk. Qed.
Lemma not_below_ltb b B : not_below b B → Forall (λ c, (c_key c <? b) = false) B.
Proof using Type.
  intros HF. eapply Forall_impl; [exact HF|]. intros c Hc. simpl in Hc. unfold ltb. by destruct (cmp (c_key c) b).
Qed.
Lemma sl_range_spec s L b e : repr s L → sl_range s b e = Ok (List.filter (within b e) (contents L)).
Proof.
  intros Hr. destruct (split_at b L (r_sorted _ _ Hr)) as (A & B & -> & HA & HB). unfold sl_range.
  rewrite (first_at_or_after_spec s b A B) by done. cbn [rbind]. rewrite (collect_forward s _ B A); [|done|].
  2:{ pose proof (fuel_enough _ _ Hr) as Hf. rewrite length_app in Hf. lia. }
  rewrite until_filter by apply (sorted_suffix _ _ (r_sorted _ _ Hr)). f_equal. rewrite contents_filter, (filter_false _ A).
  - apply filter_same. eapply Forall_impl; [exact HB|]. intros c Hc. unfold within. simpl. by rewrite ge_leb.
  - eapply Forall_impl; [exact HA|]. intros c Hc. unfold within. simpl. by rewrite lt_leb.
Qed.
Lemma range_rev_start_spec s e A B : repr s (A ++ B) → below e A → not_below e B →
  range_rev_start s e = Ok (last_ix A).
Proof.
  intros Hr HA HB. unfold range_rev_start. rewrite (first_at_or_after_spec s e A B) by done. cbn [rbind].
  rewrite (r_tail _ _ Hr), last_ix_app. destruct B as [|c B].
  - simpl. destruct A as [|d A _] using rev_ind; [done|]. rewrite last_ix_snoc.
    destruct (repr_node s A d []) as (n & Hn & Hk & _); [by rewrite app_nil_r in Hr|].
    unfold at_index. rewrite Hn. simpl. rewrite Hk. apply Forall_app in HA as [_ HA].
    rewrite Forall_singleton in HA. apply ltb_lt in HA. by rewrite HA.
  - destruct (repr_node _ _ _ _ Hr) as (n & Hn & _ & _ & Hp & _). rewrite head_ix_cons. unfold at_index at 1.
    rewrite Hn. simpl. rewrite Hp. destruct A as [|a A _] using rev_ind; [|by rewrite last_ix_snoc].
    apply not_below_ltb in HB. simpl in Hr |- *. clear Hn Hp.
    destruct (c :: B) as [|d Y _] eqn:E using rev_ind; [done|]. rewrite last_ix_snoc.
    destruct (repr_node s Y d [] Hr) as (n' & Hn' & Hk' & _). unfold at_index. rewrite Hn'. simpl.
    apply Forall_app in HB as [_ HB]. rewrite Forall_singleton in HB. by rewrite Hk', HB.
Qed.
Lemma until_rev b A : bt_wf (contents A) →
  until (λ key, key <? b) (rev A) = rev (List.filter (λ p, b <=? p.1) (contents A)).
Proof.
  induction A as [|c A IH] using rev_ind; [done|]. intros Hw. rewrite rev_app_distr, contents_filter, rev_app_distr. simpl.
  rewrite contents_app in Hw. pose proof (bt_wf_app_1 _ _ Hw) as HwA. destruct (c_key c <? b) eqn:E.
  - apply ltb_lt in E. rewrite lt_leb by done. simpl. rewrite filter_false; [done|].
    apply bt_wf_snoc_lt in Hw. apply Forall_fmap in Hw. eapply Forall_impl; [exact Hw|]. intros d Hd. simpl in Hd |- *.
    apply lt_leb. ord.
  - rewrite ge_leb; [simpl; by rewrite IH|]. intros Hx. apply ltb_lt in Hx. congruence.
Qed.
Lemma sl_range_rev_spec s L b e : repr s L → sl_range_rev s b e = Ok (rev (List.filter (within b e) (contents L))).
Proof.
  intros Hr. destruct (split_at e L (r_sorted _ _ Hr)) as (A & B & -> & HA & HB). unfold sl_range_rev.
  rewrite (range_rev_start_spec s e A B) by done. cbn [rbind]. rewrite (collect_backward s _ A B); [|done|].
  2:{ pose proof (fuel_enough _ _ Hr) as Hf. rewrite length_app in Hf. lia. }
  pose proof (r_sorted _ _ Hr) as Hw. rewrite contents_app in Hw. apply bt_wf_app_1 in Hw.
  rewrite until_rev by done. do 2 f_equal. rewrite contents_filter, (filter_false _ B), app_nil_r.
  - apply filter_same. eapply Forall_impl; [exact HA|]. intros c Hc. unfold within. simpl in Hc |- *.
    apply ltb_lt in Hc. by rewrite Hc, andb_true_r.
  - eapply Forall_impl; [by apply not_below_ltb|]. intros c Hc. unfold within. simpl in Hc |- *. by rewrite Hc, andb_false_r.
Qed.

(** ** The contracts *)
#[export] Instance skiplist_backend : Backend SkipList K V := {|
  get s k := or_else None (sl_get s k);
  contains s k := or_else false (sl_contains s k);
  entries s := or_else [] (sl_iter s);
  size s := sl_entries s;
  put k v s := sl_put k v s;
  delete k s := sl_delete k s;
  clear s := sl_clear s;
|}.
#[export] Instance skiplist_ordered : OrderedBackend SkipList K V := {|
  range s b e := or_else [] (sl_range s b e);
  first s := or_else None (sl_first s);
  last_entry s := or_else None (sl_last s);
  entries_rev s := or_else [] (sl_entries_rev s);
  range_rev s b e := or_else [] (sl_range_rev s b e);
|}.
#[export] Instance skiplist_bounded : Bounded SkipList := sl_capacity.
Definition sl_wf s : Prop := ∃ L, repr s L.
Lemma get_holds s m k : holds s m → get s k = bt_get k m.
Proof. intros (L & Hr & <-). cbn. by rewrite (sl_get_spec s L). Qed.
Lemma entries_holds s m : holds s m → entries s = m.
Proof using Type. intros (L & Hr & <-). cbn. by rewrite (sl_iter_spec s L). Qed.
(** A step of the list, from a step of [spec_step]. *)
Lemma put_step s L k v : repr s L → let (t, r) := sl_put k v s in
  let (m, q) := spec_insert (sl_capacity s) k v (contents L) Done in
  rmap (λ _, Done) r = q ∧ holds t m ∧ sl_capacity t = sl_capacity s.
Proof.
  intros Hr. pose proof (step_agree (Put k v) s L Hr) as Hs. simpl in Hs.
  destruct (sl_put k v s) as [t r]. by destruct (spec_insert _ _ _ _ _).
Qed.
Lemma sl_put_wf s k v : sl_wf s → sl_wf (sl_put k v s).1.
Proof.
  intros (L & Hr). pose proof (put_step s L k v Hr) as Hs. destruct (sl_put k v s) as [t r].
  destruct (spec_insert _ _ _ _ _) as [m q]. destruct Hs as (_ & (L' & Ht & _) & _). by exists L'.
Qed.
Lemma sl_new_wf cap seed : sl_wf (new cap seed).
Proof using Type. destruct (holds_new (K:=K) (V:=V) cap seed) as (L & Hr & _). by exists L. Qed.
Lemma delete_step s L k : repr s L → let (t, r) := sl_delete k s in
  r = Ok (bt_contains k (contents L)) ∧ holds t (bt_remove k (contents L)).
Proof.
  intros Hr. pose proof (step_agree (Delete k) s L Hr) as (Hx & Hy & _). simpl in Hx, Hy.
  destruct (sl_delete k s) as [t [b|e|]]; [|done..]. simpl in *. by injection Hx as ->.
Qed.
#[export] Instance skiplist_laws : BackendLaws SkipList K V.
Proof.
  refine {| backend_wf := sl_wf |}.
  - intros s k (L & Hr). assert (holds s (contents L)) as Hh by (by exists L).
    by rewrite (get_holds s (contents L)), (entries_holds s (contents L)).
  - intros s (L & Hr). unfold keys. rewrite (entries_holds s (contents L)) by (by exists L).
    apply bt_keys_NoDup, (r_sorted _ _ Hr).
  - intros s (L & Hr). rewrite (entries_holds s (contents L)) by (by exists L). cbn.
    by rewrite contents_length, (r_entries _ _ Hr).
  - intros s k (L & Hr). rewrite (get_holds s (contents L)) by (by exists L). cbn. by rewrite (sl_contains_spec s L).
  - intros k v s (L & Hr). change (put k v s) with (sl_put k v s). pose proof (put_step s L k v Hr) as Hs.
    destruct (sl_put k v s) as [t r]. unfold spec_insert in Hs.
    assert (holds s (contents L)) as Hh by (by exists L).
    destruct (bt_contains k (contents L)), (full (sl_capacity s) (length (contents L))); destruct Hs as (Hx & Ht & _);
      (split_and!; [by destruct Ht as (L' & ? & _); exists L'|by intros ->|..]).
    all: destruct r as [[]|e|]; try done.
    all: try (intros j Hj; rewrite (get_holds _ _ _ Ht), (get_holds _ _ _ Hh); try done; by apply bt_get_insert_ne).
    all: rewrite (get_holds _ _ _ Ht), ?(get_holds _ _ _ Hh); try done; apply bt_get_insert.
  - intros k s (L & Hr). change (delete k s) with (sl_delete k s). pose proof (delete_step s L k Hr) as Hs.
    destruct (sl_delete k s) as [t r]. destruct Hs as [-> Ht]. assert (holds s (contents L)) as Hh by (by exists L).
    split_and!; [by destruct Ht as (L' & ? & _); exists L'|done|..].
    + intros j Hj. rewrite (get_holds _ _ _ Ht), (get_holds _ _ _ Hh). by apply bt_get_remove_ne.
    + by rewrite (get_holds _ _ _ Hh).
    + rewrite (get_holds _ _ _ Ht). apply bt_get_remove.
  - intros s Hs. cbn. pose proof (holds_new (V:=V) (sl_capacity s) (sl_seed s)) as Hn.
    split_and!; [by destruct Hn as (L' & ? & _); exists L'|done|]. intros j. by apply (get_holds _ _ j) in Hn.
Defined.
#[export] Instance skiplist_native : NativeOrder SkipList K V.
Proof. constructor. intros s (L & Hr). rewrite (entries_holds s (contents L)) by (by exists L). apply (r_sorted _ _ Hr). Qed.
#[export] Instance skiplist_ordered_laws : OrderedLaws SkipList K V.
Proof.
  assert (∀ s L, repr s L → ascending (entries s) = contents L) as Ha.
  { intros s L Hr. rewrite (entries_holds s (contents L)) by (by exists L). apply ascending_unique; [apply (r_sorted _ _ Hr)|done]. }
  constructor; intros s; [intros b e|intros b e|..]; intros (L & Hr); rewrite ?(Ha s L) by done; unfold range, range_rev, first, last_entry, entries_rev, skiplist_ordered.
  - by rewrite (sl_range_spec s L).
  - by rewrite (sl_range_rev_spec s L), (sl_range_spec s L).
  - by rewrite (sl_entries_rev_spec s L).
  - by rewrite (sl_first_spec s L).
  - by rewrite (sl_last_spec s L).
Qed.
#[export] Instance skiplist_bounded_laws : BoundedLaws SkipList K V.
Proof.
  constructor.
  - intros k v s (L & Hr). change (put k v s) with (sl_put k v s). pose proof (put_step s L k v Hr) as Hs.
    rewrite (get_holds s (contents L)) by (by exists L). cbn. rewrite (r_entries _ _ Hr). intros Hroom.
    destruct (sl_put k v s) as [t r]. unfold spec_insert in Hs.
    assert (r ≠ Ok tt → bt_contains k (contents L) = false ∧ full (sl_capacity s) (length (contents L)) = true) as Hx.
    { intros Hne. destruct (bt_contains _ _), (full _ _); destruct Hs as (Hs & _); destruct r as [[]|e|]; try done. }
    destruct r as [[]|e|]; [done|exfalso..]; destruct Hx as [Hc Hf]; try done.
    all: apply bt_contains_false in Hc; unfold full, capacity, skiplist_bounded in *; rewrite contents_length in Hf.
    all: destruct Hroom as [Hs'|Hroom]; [rewrite Hc in Hs'; by destruct Hs'|].
    all: destruct (sl_capacity s); [apply Nat.leb_le in Hf; lia|done].
  - intros k v s (L & Hr). pose proof (put_step s L k v Hr) as Hs. cbn. destruct (sl_put k v s) as [t r].
    destruct (spec_insert _ _ _ _ _). apply Hs.
  - done.
  - done.
Qed.
End Reads.
