(* ===== verification/SkipListBulk.v ===== *)
(** * The skip list's sorted bulk operations, and its properties

    [bulk_put_sorted] and [bulk_delete_sorted] walk the list once, carrying
    the predecessors of the next key; on sorted input they end in the very
    state, node for node, that the single operations end in. *)
From stdpp Require Import base numbers option sorting list.
From S2P Require Import Prelude Bytes Order BTreeMap Backend MapBackend Engine SkipList SkipListLaws SkipListOps SkipListBackend SkipListReads.
Import SkipList.

Section Bulk.
Context {K V : Type} `{TotalCmp K}.
#[local] Abbreviation SkipList := (SkipList K V).
#[local] Abbreviation op := (op K V).
#[local] Abbreviation answer := (answer V).
#[local] Abbreviation Cell := (Cell (K:=K) (V:=V)).
Implicit Types (s t : SkipList) (k : K) (v : V) (c : Cell) (A B L : list Cell) (l : nat).

(** ** The cursor *)
Lemma preds_snoc A c : c_lvl c ≤ MAX_LEVEL →
  replicate (c_lvl c) (Some (c_ix c)) ++ drop (c_lvl c) (preds A) = preds (A ++ [c]).
Proof using Type.
  intros Hl. apply preds_eq; [rewrite length_app, length_replicate, length_drop, preds_length; lia|].
  intros l Hm. rewrite prev_at_snoc. unfold tall. destruct (Nat.ltb_spec l (c_lvl c)).
  - by rewrite lookup_app_l, lookup_replicate_2 by (rewrite ?length_replicate; lia).
  - rewrite lookup_app_r by (rewrite length_replicate; lia). rewrite length_replicate, lookup_drop, <- preds_lookup by done.
    f_equal. lia.
Qed.
Lemma advance_spec s k R : ∀ P B fuel, repr s (P ++ R ++ B) → below k R → not_below k B → length R < fuel →
  advance fuel s k (preds P) (head_ix (R ++ B)) = Ok (preds (P ++ R), head_ix B).
Proof.
  induction R as [|c R IH]; intros P B fuel Hr HR HB Hf.
  - simpl. rewrite app_nil_r. destruct fuel as [|fuel]; [simpl in Hf; lia|]. destruct B as [|c B]; [done|].
    destruct (repr_node _ _ _ _ Hr) as (n & Hn & Hk & _). rewrite head_ix_cons. cbn [advance]. unfold at_index.
    rewrite Hn. cbn [rbind]. apply not_below_ltb in HB. inversion HB as [|? ? Hc _]; subst. by rewrite Hk, Hc.
  - inversion HR as [|? ? Hc HR']; subst. simpl in Hf. destruct fuel as [|fuel]; [lia|].
    simpl app in Hr |- *. pose proof (r_levels _ _ Hr) as Hlv. rewrite Forall_app, Forall_cons in Hlv. destruct Hlv as (_ & [Hlo Hhi] & HlB).
    destruct (repr_node _ _ _ _ Hr) as (n & Hn & Hk & _ & _ & Hlv & _ & Hx). rewrite head_ix_cons. cbn [advance].
    unfold at_index at 1. rewrite Hn. cbn [rbind]. apply ltb_lt in Hc. rewrite Hk, Hc. unfold at_index.
    rewrite Hx by (unfold MAX_LEVEL; lia). assert (tall 0 c = true) as -> by (apply tall_spec; lia). cbn [rbind].
    rewrite Hlv, preds_snoc, next_at_0 by done.
    change (P ++ c :: R) with (P ++ [c] ++ R). change (P ++ c :: R ++ B) with (P ++ [c] ++ R ++ B) in Hr.
    rewrite (app_assoc P [c] R). apply IH; [by rewrite <- app_assoc|done|done|lia].
Qed.
Lemma advance_head s k A B : repr s (A ++ B) → ∃ R B', B = R ++ B' ∧ below k R ∧ not_below k B' ∧
  advance (fuel_of s) s k (preds A) (head_ix B) = Ok (preds (A ++ R), head_ix B').
Proof.
  intros Hr. destruct (split_at k B (sorted_suffix _ _ (r_sorted _ _ Hr))) as (R & B' & -> & HR & HB).
  exists R, B'. split_and!; [done..|]. apply advance_spec; try done. pose proof (fuel_enough _ _ Hr) as Hf.
  rewrite !length_app in Hf. lia.
Qed.

(** ** Bulk insertion *)
Definition key_sorted (items : list (K * V)) : Prop := StronglySorted (λ p q, (p.1 <=? q.1) = true) items.
Lemma below_snoc k A c : below k A → cmp (c_key c) k = Lt → below k (A ++ [c]).
Proof using Type. intros HA Hc. apply Forall_app. split; [done|by apply Forall_singleton]. Qed.
Lemma below_mono k j A : below k A → (k <=? j) = true → below j A.
Proof.
  intros HA Hkj. eapply Forall_impl; [exact HA|]. intros c Hc. simpl in Hc. unfold leb in Hkj.
  destruct (cmpP k j) as [<-|E E'|E E']; [done|ord|done].
Qed.
Lemma below_app k A B : below k A → below k B → below k (A ++ B).
Proof using Type. intros. by apply Forall_app. Qed.
Lemma below_next k A (items : list (K * V)) : below k A → Forall (λ p, (k <=? p.1) = true) items →
  Forall (λ p, below p.1 A) items.
Proof. intros HA HF. eapply Forall_impl; [exact HF|]. intros p Hp. by eapply below_mono. Qed.
Lemma bulk_put_from_spec items : ∀ A B s, repr s (A ++ B) → key_sorted items → Forall (λ p, below p.1 A) items →
  bulk_put_from (preds A) (head_ix B) items s = bulk_put items s.
Proof.
  induction items as [|[k v] items IH]; intros A B s Hr Hs Hb; [done|].
  apply StronglySorted_cons in Hs as [Hk Hs]. inversion Hb as [|? ? HkA _]; subst. simpl in HkA, Hk.
  destruct (advance_head s k A B Hr) as (R & B' & -> & HR & HB & Hadv). cbn [bulk_put_from]. rewrite Hadv.
  rewrite app_assoc in Hr. pose proof (below_app _ _ _ HkA HR) as HAR. pose proof (below_next _ _ _ HAR Hk) as Hnext.
  cbn [bulk_put]. change (put k v s) with (sl_put k v s). unfold sl_put, searched.
  rewrite (search_spec s k (A ++ R) B') by done.
  pose proof (r_levels _ _ Hr) as Hl. apply Forall_app in Hl as [_ Hl]. rewrite hit_0 by done.
  assert (above k B' → and_then (insert_new k v (preds (A ++ R)) s) (λ s index, bulk_put_from (preds (A ++ R)) (Some index) items s)
    = and_then (and_then (insert_new k v (preds (A ++ R)) s) (λ s _, (s, Ok tt))) (λ s _, bulk_put items s)) as Hins.
  { intros Ha. pose proof (insert_new_spec s (A ++ R) B' k v Hr HAR Ha) as Hi.
    destruct (insert_new k v (preds (A ++ R)) s) as [t r]. destruct Hi as [_ Hi].
    destruct (full _ _); [by destruct Hi as [-> _]|]. destruct Hi as (j & lvl & -> & Ht). simpl.
    by apply (IH _ (mkCell j k v lvl :: B')). }
  destruct B' as [|c B'].
  { apply Hins. constructor. }
  destruct (repr_node _ _ _ _ Hr) as (n & Hn & Hck & _). rewrite head_ix_cons. unfold at_index, set_node. rewrite Hn, Hck.
  pose proof (sorted_above _ _ (sorted_suffix _ _ (r_sorted _ _ Hr))) as Hab. apply Forall_cons in HB as [Hcl HB].
  destruct (cmpP (c_key c) k) as [E|E E'|E E'].
  - unfold at_index. rewrite Hn. cbn [rbind apply_io and_then].
    destruct (set_value_spec s (A ++ R) c B' v Hr) as (n' & Hn' & _ & Ht). rewrite Hn in Hn'. injection Hn' as <-.
    by apply (IH _ (with_val v c :: B')).
  - done.
  - apply Hins. constructor; [done|]. eapply Forall_impl; [exact Hab|]. intros d Hd. simpl in Hd. ord.
Qed.

(** ** Bulk deletion *)
Definition keys_ascend (ks : list K) : Prop := StronglySorted (λ j k, (j <=? k) = true) ks.
Lemma delete_none s L ks : ∀ removed, repr s L → Forall (λ k, below k L) ks →
  bulk_delete_loop removed ks s = (s, Ok removed).
Proof.
  induction ks as [|k ks IH]; intros removed Hr HF; [done|]. apply Forall_cons in HF as [Hk HF].
  cbn [bulk_delete_loop]. change (delete k s) with (sl_delete k s). unfold sl_delete, searched.
  rewrite (search_spec s k L []) by (rewrite ?app_nil_r; try done; constructor). simpl. by apply IH.
Qed.
Lemma below_next_key k A (ks : list K) : below k A → Forall (λ j, (k <=? j) = true) ks → Forall (λ j, below j A) ks.
Proof. intros HA HF. eapply Forall_impl; [exact HF|]. intros j Hj. by eapply below_mono. Qed.
Lemma bulk_delete_from_spec ks : ∀ A B removed s, repr s (A ++ B) → keys_ascend ks → Forall (λ k, below k A) ks →
  bulk_delete_from (preds A) (head_ix B) removed ks s = bulk_delete_loop removed ks s.
Proof.
  induction ks as [|k ks IH]; intros A B removed s Hr Hs Hb; [done|].
  apply StronglySorted_cons in Hs as [Hk Hs]. inversion Hb as [|? ? HkA _]; subst.
  destruct (advance_head s k A B Hr) as (R & B' & -> & HR & HB & Hadv). cbn [bulk_delete_from]. rewrite Hadv.
  rewrite app_assoc in Hr. pose proof (below_app _ _ _ HkA HR) as HAR. pose proof (below_next_key _ _ _ HAR Hk) as Hnext.
  destruct B' as [|c B'].
  { symmetry. apply (delete_none s ((A ++ R) ++ [])); [done|]. rewrite app_nil_r. by constructor. }
  cbn [bulk_delete_loop]. change (delete k s) with (sl_delete k s). unfold sl_delete, searched.
  rewrite (search_spec s k (A ++ R) (c :: B')) by done.
  pose proof (r_levels _ _ Hr) as Hl. rewrite Forall_app, Forall_cons in Hl. destruct Hl as (_ & [Hlo Hhi] & HlB).
  rewrite hit_0 by (by constructor).
  destruct (repr_node _ _ _ _ Hr) as (n & Hn & Hck & Hv & _ & _ & _ & Hx). rewrite head_ix_cons.
  unfold at_index. rewrite Hn, Hck. pose proof (sorted_above _ _ (sorted_suffix _ _ (r_sorted _ _ Hr))) as Hab.
  apply Forall_cons in HB as [Hcl HB]. destruct (cmp (c_key c) k) eqn:E; [|done|].
  - rewrite Hx by (unfold MAX_LEVEL; lia). assert (tall 0 c = true) as -> by (apply tall_spec; lia).
    rewrite next_at_0 by done. apply cmp_Eq in E. subst k.
    destruct (remove_agree s (A ++ R) c B' Done Hr HAR Hab) as (t & Ht & _). rewrite Ht. cbn [apply_io and_then].
    destruct (remove_found_spec s (A ++ R) c B' n (n_value n) Hr Hn) as (t' & Ht' & Hrt & _).
    rewrite list_insert_id in Ht' by (by destruct n). replace (set_arena (sl_arena s) s) with s in Ht' by (by destruct s).
    rewrite Ht in Ht'. injection Ht' as <-. by apply IH.
  - apply (IH (A ++ R) (c :: B')); done.
Qed.

(** ** Runs *)
Lemma spec_no_panic cap (o : op) (m : btree K V) : (spec_step cap o m).2 ≠ Panic.
Proof using Type. destruct o; simpl; unfold spec_insert; cases; done. Qed.
Lemma run_agree ops : ∀ s (m : btree K V), holds s m →
  let (s', rs) := run_ops sl_step ops s in let (m', qs) := run_ops (spec_step (sl_capacity s)) ops m in
  rs = qs ∧ (Panic ∉ rs) ∧ holds s' m'.
Proof.
  induction ops as [|o ops IH]; intros s m Hh; simpl; [split_and!; [done|apply not_elem_of_nil|done]|].
  destruct Hh as (L & Hr & <-). pose proof (step_agree o s L Hr) as (Ha & Hh & Hc).
  pose proof (spec_no_panic (sl_capacity s) o (contents L)) as Hq.
  destruct (sl_step o s) as [s1 r], (spec_step (sl_capacity s) o (contents L)) as [m1 q]. simpl in *. subst q.
  specialize (IH s1 m1 Hh). rewrite Hc in IH.
  destruct (run_ops sl_step ops s1) as [s2 rs], (run_ops _ ops m1) as [m2 qs]. destruct IH as (-> & Hnp & Hh2).
  split_and!; [done| |done]. by apply not_elem_of_cons.
Qed.

(** ** Properties *)

(** C11. The skip list refines an ordered map with a bound on its size: from an
    empty list, whatever the random tower heights, any sequence of [put],
    [put_if_absent], [replace], [delete], [update] and [clear] gives the
    answers of the map, [StorageFull] exactly when the map would be full, and
    never panics; the list then holds the map, and so do its point, ordered
    and range reads, forwards and backwards. *)
Theorem skiplist_refines (cap : option nat) (seed : Z) (ops : list op) :
  let (s, answers) := run_ops sl_step ops (new cap seed : SkipList) in
  let (m, expected) := run_ops (spec_step cap) ops ([] : btree K V) in
  answers = expected ∧ (Panic ∉ answers) ∧ bt_wf m ∧ sl_entries s = length m ∧
  sl_iter s = Ok m ∧ sl_entries_rev s = Ok (rev m) ∧ sl_first s = Ok (head m) ∧ sl_last s = Ok (last m) ∧
  (∀ k, sl_get s k = Ok (bt_get k m) ∧ sl_contains s k = Ok (bt_contains k m)) ∧
  ∀ b e, sl_range s b e = Ok (List.filter (within b e) m) ∧ sl_range_rev s b e = Ok (rev (List.filter (within b e) m)).
Proof.
  pose proof (run_agree ops _ _ (holds_new (K:=K) (V:=V) cap seed)) as Hrun. simpl in Hrun.
  destruct (run_ops sl_step _ _) as [s answers], (run_ops (spec_step cap) _ _) as [m expected].
  destruct Hrun as (-> & Hnp & (L & Hr & <-)). split_and!; try done.
  - apply (r_sorted _ _ Hr).
  - by rewrite contents_length, (r_entries _ _ Hr).
  - by apply sl_iter_spec.
  - by apply sl_entries_rev_spec.
  - by apply sl_first_spec.
  - by apply sl_last_spec.
  - intros k. by rewrite (sl_get_spec s L), (sl_contains_spec s L).
  - intros b e. by rewrite (sl_range_spec s L), (sl_range_rev_spec s L).
Qed.

(** C29. On a well-formed list and input sorted by key, the bulk operations that
    walk the list once end in the state of one [put] or [delete] per item —
    node for node, towers and free slots included — and return what those
    return, a failure half-way through included. *)
Theorem skiplist_bulk (s : SkipList) (items : list (K * V)) (ks : list K) : sl_wf s →
  (key_sorted items → sl_bulk_put_sorted items s = bulk_put items s) ∧
  (keys_ascend ks → sl_bulk_delete_sorted ks s = bulk_delete ks s).
Proof.
  intros (L & Hr). unfold sl_bulk_put_sorted, sl_bulk_delete_sorted. rewrite (head_of s L Hr).
  change no_links with (preds (K:=K) (V:=V) []). split; intros Hs.
  - apply (bulk_put_from_spec items [] L); [done|done|]. apply Forall_forall. constructor.
  - apply (bulk_delete_from_spec ks [] L); [done|done|]. apply Forall_forall. constructor.
Qed.
End Bulk.
