(* ===== verification/MergedEntries.v ===== *)
(** * Merged iteration: [zendb-storage/src/table/iter.rs]

    The iterator that overlays the pending cache of a table on its
    materialized state.  A [Peekable] is the list of what it will still yield;
    [next] is one step and [collect] drives it to the end, [fuel] bounding the
    steps: each takes at least one entry of the two lists. *)
From stdpp Require Import base numbers option list.
From S2P Require Import Prelude Order BTreeMap.

Inductive IterationOrder := Ascending | Descending.

Record MergedEntries (K V : Type) := mkMerged {
  me_state : list (K * V); me_cache : list (K * V); me_order : IterationOrder }.
Arguments mkMerged {_ _} _ _ _.
Arguments me_state {_ _} _. Arguments me_cache {_ _} _. Arguments me_order {_ _} _.

Section Merged.
Context {K V : Type} `{Cmp K}.
Implicit Types (s c l : list (K * V)).

Definition me_next (m : MergedEntries K V) : option (K * V) * MergedEntries K V :=
  match me_state m, me_cache m with
  | [], [] => (None, m)
  | p :: s, [] => (Some p, mkMerged s [] (me_order m))
  | [], q :: c => (Some q, mkMerged [] c (me_order m))
  | p :: s, q :: c =>
      let ordering := cmp p.1 q.1 in
      let ordering := match me_order m with
                      | Ascending => ordering
                      | Descending => CompOpp ordering
                      end in
      match ordering with
      | Lt => (Some p, mkMerged s (q :: c) (me_order m))
      | Gt => (Some q, mkMerged (p :: s) c (me_order m))
      | Eq => (Some q, mkMerged s c (me_order m))
      end
  end.
Fixpoint me_collect (fuel : nat) (m : MergedEntries K V) : list (K * V) :=
  match fuel with
  | O => []
  | S fuel =>
      match me_next m with
      | (Some p, m) => p :: me_collect fuel m
      | (None, _) => []
      end
  end.
(** [MergedEntries::new(state, cache, order)], driven to its end. *)
Definition merged s c (order : IterationOrder) : list (K * V) :=
  me_collect (length s + length c) (mkMerged s c order).
End Merged.

Section Ascending.
Context {K V : Type} `{TotalCmp K}.
Implicit Types (s c l : list (K * V)).

(** The cache wins. *)
Definition overlaid c s (k : K) : option V :=
  match bt_get k c with Some v => Some v | None => bt_get k s end.

Lemma collect_spec fuel s c : length s + length c ≤ fuel → bt_wf s → bt_wf c →
  let l := me_collect fuel (mkMerged s c Ascending) in
  bt_wf l ∧ (∀ k, bt_get k l = overlaid c s k) ∧
  (∀ P, Forall P s → Forall P c → Forall P l).
Proof.
  revert s c. induction fuel as [|fuel IH]; intros s c Hf Hs Hc.
  { destruct s, c; simpl in *; try lia. done. }
  destruct s as [|[ks vs] s], c as [|[kc vc] c]; cbn [me_collect me_next me_state me_cache me_order].
  - done.
  - destruct Hc as [HF Hc]. destruct (IH [] c) as (H1 & H2 & H3); [simpl in *; lia|done..|].
    split_and!; [split; [by apply H3|done]| |].
    + intros k. unfold overlaid in *. simpl. rewrite H2. by destruct (cmp k kc).
    + intros P Hn [? ?]%Forall_cons. constructor; [done|by apply H3].
  - destruct Hs as [HF Hs]. destruct (IH s []) as (H1 & H2 & H3); [simpl in *; lia|done..|].
    split_and!; [split; [by apply H3|done]| |].
    + intros k. unfold overlaid in *. simpl. rewrite H2. by destruct (cmp k ks).
    + intros P [? ?]%Forall_cons Hn. constructor; [done|by apply H3].
  - destruct Hs as [HFs Hs], Hc as [HFc Hc]. cbn [fst]. destruct (cmpP ks kc) as [->|E E'|E E'].
    + destruct (IH s c) as (H1 & H2 & H3); [simpl in *; lia|done..|].
      split_and!; [split; [by apply H3|done]| |].
      * intros k. unfold overlaid in *. simpl. rewrite H2. by destruct (cmp k kc).
      * intros P [? ?]%Forall_cons [? ?]%Forall_cons. constructor; [done|by apply H3].
    + destruct (IH s ((kc, vc) :: c)) as (H1 & H2 & H3); [simpl in *; lia|done..|].
      assert (Forall (λ p, cmp ks p.1 = Lt) ((kc, vc) :: c)) as HFc'.
      { constructor; [done|]. eapply Forall_impl; [exact HFc|]. simpl. intros p Hp. ord. }
      split_and!; [split; [by apply H3|done]| |].
      * intros k. simpl. rewrite H2. unfold overlaid.
        destruct (cmpP k ks) as [->|Ek Ek'|Ek Ek'].
        -- rewrite (bt_lt_get_None _ _ HFc'). simpl. by rewrite cmp_refl.
        -- simpl. rewrite Ek. done.
        -- simpl. rewrite Ek. done.
      * intros P [? ?]%Forall_cons ?. constructor; [done|by apply H3].
    + destruct (IH ((ks, vs) :: s) c) as (H1 & H2 & H3); [simpl in *; lia|done..|].
      assert (Forall (λ p, cmp kc p.1 = Lt) ((ks, vs) :: s)) as HFs'.
      { constructor; [done|]. eapply Forall_impl; [exact HFs|]. simpl. intros p Hp. ord. }
      split_and!; [split; [by apply H3|done]| |].
      * intros k. simpl. rewrite H2. unfold overlaid. simpl. by destruct (cmp k kc).
      * intros P ? [? ?]%Forall_cons. constructor; [done|by apply H3].
Qed.
Lemma merged_wf s c : bt_wf s → bt_wf c → bt_wf (merged s c Ascending).
Proof. intros. by apply collect_spec. Qed.
Lemma merged_get s c k : bt_wf s → bt_wf c → bt_get k (merged s c Ascending) = overlaid c s k.
Proof. intros. by apply collect_spec. Qed.
End Ascending.

(** ** Descending: the same iterator over the reversed order *)
Definition rev_cmp {K} `{Cmp K} : Cmp K := λ a b, CompOpp (cmp a b).
Lemma rev_total {K} `{TotalCmp K} : @TotalCmp K rev_cmp.
Proof.
  constructor; unfold cmp, rev_cmp.
  - intros a b. destruct (cmpP a b) as [->|E E'|E E']; simpl; split; try done; intros ->;
      by rewrite cmp_refl in E.
  - intros a b. by rewrite (cmp_opp a b).
  - intros a b c. destruct (cmpP a b), (cmpP b c), (cmpP a c); simpl; try done; ord.
Qed.

Section Descending.
Context {K V : Type} `{TotalCmp K}.
Implicit Types (s c l : list (K * V)).

Lemma rev_get k l : @bt_get K V rev_cmp k l = bt_get k l.
Proof.
  induction l as [|[k' v] l IH]; simpl; [done|]. rewrite IH.
  unfold cmp at 1, rev_cmp at 1. by destruct (cmp k k').
Qed.
Lemma rev_wf l : bt_wf l ↔ @bt_wf K V rev_cmp (rev l).
Proof.
  assert (∀ l k v, @bt_wf K V rev_cmp (l ++ [(k, v)]) ↔
    @bt_wf K V rev_cmp l ∧ Forall (λ p, cmp k p.1 = Lt) l) as Hsnoc.
  { clear l. intros l k v. induction l as [|[k' v'] l IH]; simpl.
    - repeat split; constructor.
    - rewrite IH, Forall_app, Forall_singleton, Forall_cons. simpl.
      assert (@cmp K rev_cmp k' k = Lt ↔ cmp k k' = Lt) as ->; [|tauto].
      unfold cmp at 1, rev_cmp. by destruct (cmpP k' k) as [->|E ->|E ->]; simpl; rewrite ?cmp_refl. }
  induction l as [|[k v] l IH]; simpl; [done|].
  assert (Forall (λ p, cmp k p.1 = Lt) (rev l) ↔ Forall (λ p, cmp k p.1 = Lt) l) as Hrev.
  { rewrite !Forall_forall. setoid_rewrite list_elem_of_In. by setoid_rewrite <- in_rev. }
  rewrite Hsnoc, Hrev, IH. tauto.
Qed.
Lemma collect_rev fuel s c :
  me_collect fuel (mkMerged s c Descending) = @me_collect K V rev_cmp fuel (mkMerged s c Ascending).
Proof.
  revert s c. induction fuel as [|fuel IH]; intros s c; [done|].
  destruct s as [|p s], c as [|q c]; cbn; try (by rewrite ?IH).
  change (@cmp K rev_cmp p.1 q.1) with (CompOpp (cmp p.1 q.1)).
  destruct (CompOpp (cmp p.1 q.1)); by rewrite IH.
Qed.

Lemma get_rev k l : bt_wf l → bt_get k (rev l) = bt_get k l.
Proof.
  intros Hl. pose proof (proj1 (rev_wf l) Hl) as Hr.
  destruct (bt_get k l) as [v|] eqn:E.
  - apply bt_get_In in E. rewrite <- rev_get.
    apply (@bt_In_get K V rev_cmp rev_total); [done|].
    apply list_elem_of_In. rewrite <- in_rev. by apply list_elem_of_In.
  - destruct (bt_get k (rev l)) as [v|] eqn:E'; [|done].
    apply bt_get_In in E'. rewrite list_elem_of_In, <- in_rev, <- list_elem_of_In in E'.
    apply bt_In_get in E'; [congruence|done].
Qed.

Lemma merged_rev s c : bt_wf s → bt_wf c →
  merged (rev s) (rev c) Descending = rev (merged s c Ascending).
Proof.
  intros Hs Hc.
  unfold merged at 1. rewrite collect_rev. rewrite rev_wf in Hs, Hc.
  destruct (@collect_spec K V rev_cmp rev_total _ (rev s) (rev c) (Nat.le_refl _) Hs Hc) as (H1 & H2 & _).
  apply (@bt_ext K V rev_cmp rev_total); [done|..].
  - rewrite <- rev_wf. rewrite <- rev_wf in Hs, Hc. by apply merged_wf.
  - intros k. rewrite H2. rewrite <- rev_wf in Hs, Hc. unfold overlaid.
    rewrite !rev_get, !get_rev by (try apply merged_wf; done). by rewrite merged_get.
Qed.

(** ** Properties *)

(** The merged iteration is the overlay of the cache on the state: in key
    order, each key once, the cache's entry winning; and the descending
    iteration of the two reversed inputs is its exact reverse. *)
Theorem merged_overlay s c : bt_wf s → bt_wf c →
  bt_wf (merged s c Ascending) ∧
  (∀ k, bt_get k (merged s c Ascending) = overlaid c s k) ∧
  merged (rev s) (rev c) Descending = rev (merged s c Ascending).
Proof.
  intros Hs Hc. split_and!; [by apply merged_wf|intros k; by apply merged_get|by apply merged_rev].
Qed.
End Descending.
