(* ===== verification/Serdes.v ===== *)
(** * Serialization: [zendb-types/src/utils/serdes.rs]

    The [bincode] crate is a parameter, [Codec]: an encoder that may refuse a
    value and a decoder that returns the value and how many bytes it read.
    What the storage relies on, for a value, is [codec_ok]: its encoding is
    made of bytes, and decoding it gives the value back.  The buffer pool of
    [utils/reusables.rs] only recycles allocations: a scratch buffer is the
    list of its bytes. *)
From stdpp Require Import base numbers option list.
From S2P Require Import Prelude Bytes Backend.

Class Codec (A : Type) := {
  bincode_encode : A → option (list Z);
  bincode_decode : list Z → option (A * nat);
}.

Section Serdes.
Context {A : Type} `{Codec A}.

(** [encode_err] and [decode_err]: both are [InvalidData]. *)
Definition encode_err : io_error := InvalidData.
Definition decode_err : io_error := InvalidData.

Definition serialize_to_vec (a : A) : io (list Z) :=
  match bincode_encode a with Some bs => Ok bs | None => Err encode_err end.
Definition serialized_size (a : A) : io nat :=
  bs <-? serialize_to_vec a ;; Ok (length bs).
(** [bincode::encode_into_slice]: an error when the slice is too short. *)
Definition serialize_into (a : A) (dst : list Z) : io (list Z * nat) :=
  bs <-? serialize_to_vec a ;;
  if (length bs <=? length dst)%nat then Ok (bs ++ drop (length bs) dst, length bs)
  else Err encode_err.
Definition with_scratch {C} (a : A) (f : list Z → io C) : io C :=
  bs <-? serialize_to_vec a ;; f bs.
Definition deserialize_from (src : list Z) : io A :=
  match bincode_decode src with Some (a, _) => Ok a | None => Err decode_err end.

Definition codec_ok (a : A) : Prop :=
  ∃ bs, bincode_encode a = Some bs ∧ Forall is_byte bs ∧
        bincode_decode bs = Some (a, length bs).
(** The bytes of a value the encoder accepts. *)
Definition encoded (a : A) : list Z := default [] (bincode_encode a).

Lemma codec_ok_encode a : codec_ok a → serialize_to_vec a = Ok (encoded a).
Proof. intros (bs & E & _). unfold serialize_to_vec, encoded. by rewrite E. Qed.
Lemma codec_ok_decode a : codec_ok a → deserialize_from (encoded a) = Ok a.
Proof. intros (bs & E & _ & D). unfold deserialize_from, encoded. rewrite E. simpl. by rewrite D. Qed.
Lemma codec_ok_bytes a : codec_ok a → Forall is_byte (encoded a).
Proof. intros (bs & E & Hb & _). unfold encoded. by rewrite E. Qed.
End Serdes.

Definition with_two_scratches {A B C} `{Codec A, Codec B} (a : A) (b : B)
    (f : list Z → list Z → io C) : io C :=
  bs <-? serialize_to_vec a ;; bs' <-? serialize_to_vec b ;; f bs bs'.

(** A codec, bytes as themselves, to evaluate the model on. *)
Definition byte_codec : Codec Z := {|
  bincode_encode := λ z, if (0 <=? z)%Z && (z <? 256)%Z then Some [z] else None;
  bincode_decode := λ bs, match bs with b :: _ => Some (b, 1) | [] => None end |}.
Lemma byte_codec_ok z : is_byte z → codec_ok (H:=byte_codec) z.
Proof.
  intros Hz. exists [z]. unfold is_byte, is_digit in Hz. simpl.
  destruct (Z.leb_spec 0 z), (Z.ltb_spec z 256); try lia. simpl. split_and!; [done|by constructor|done].
Qed.
