(* ===== verification/Mmap.v ===== *)
(** * Memory-mapped files and [f64], shared by the two file engines

    A mapping shows the first bytes of its file, or the one anonymous byte that
    [compact] maps while it resizes the file ([backend/keydir.rs],
    [backend/btree.rs]).  Stores through a slice out of range panic. *)
From stdpp Require Import base numbers option list.
From Stdlib Require Import SpecFloat.
From S2P Require Import Prelude Bytes.

(** ** [f64], as far as the compaction threshold needs it *)
Module F64.
Definition f64 := spec_float.
(** [n as f64], rounding to nearest even. *)
Definition of_u64 (n : Z) : f64 := binary_normalize 53 1024 n 0 false.
Definition div : f64 → f64 → f64 := SFdiv 53 1024.
Definition one : f64 := of_u64 1.
Definition zero : f64 := of_u64 0.
End F64.

(** ** Bytes of a mapping *)
Inductive Mapping := Mapped (len : nat) | Anon.
(** [dst[off..off + bs.len()].copy_from_slice(bs)]. *)
Definition splice (b : list Z) (off : nat) (bs : list Z) : option (list Z) :=
  if (off + length bs <=? length b)%nat then Some (take off b ++ bs ++ drop (off + length bs) b) else None.
(** [b.copy_within(src..src + len, dst)]. *)
Definition copy_within (b : list Z) (src len dst : nat) : option (list Z) :=
  bs ← slice b src len; splice b dst bs.
(** [File::set_len]. *)
Definition resize (n : nat) (file : list Z) : list Z := take n file ++ replicate (n - length file) 0%Z.
Lemma resize_take n m f : n ≤ length f → n ≤ m → take n (resize m f) = take n f.
Proof.
  intros Hf Hm. unfold resize. destruct (decide (m ≤ length f)).
  - rewrite take_app_le by (rewrite length_take; lia). rewrite take_take. f_equal. lia.
  - rewrite (take_ge f m) by lia. by rewrite take_app_le by lia.
Qed.
Lemma resize_length n f : length (resize n f) = n.
Proof. unfold resize. rewrite length_app, length_take, length_replicate. lia. Qed.
