(* ===== verification/KeyDir.v ===== *)
(** * KeyDir: [zendb-storage/src/backend/keydir.rs]

    A hash index over an append-only log in a memory-mapped file.  The file is
    the list of its bytes; [kd_map] says what the store's [mmap] shows: the
    first bytes of the file, or the one anonymous byte [compact] puts there
    while it resizes.  The hash map is an association list in its (arbitrary)
    iteration order.  [kd_os] holds the outcomes of the next system calls
    ([set_len], the mappings, the flushes); once it is empty they succeed.

    An out-of-range slice and an [expect] on [None] are [Panic]; so are the
    subtraction and the [u32] addition that overflow (they wrap in a release
    build; the invariant of [KeyDirLaws.v] excludes both).  Offsets are
    positions of a file in memory and stay far below 2^64. *)
From stdpp Require Import base numbers option list.
From Stdlib Require Import SpecFloat.
From S2P Require Import Prelude Bytes Mmap Order BTreeMap Backend Serdes.

Module KeyDir.
Definition MAGIC : Z := 0x4452494B.
Definition HEADER_SIZE : nat := 4.
Definition TOMBSTONE : Z := 4294967295.
Definition SENTINEL : Z := 4294967294.
Definition DEFAULT_INITIAL_CAPACITY : nat := N.to_nat (16 * 1024 * 1024).
Definition magic_bytes : list Z := to_le_bytes 4 MAGIC.
Definition sentinel_bytes : list Z := to_le_bytes 4 SENTINEL.

Record KeyDirConfig := mkConfig { initial_capacity : nat; compaction_ratio : F64.f64 }.
Record EntryMeta := mkMeta { m_offset : nat; m_size : nat }.

Section KeyDir.
Context {K V : Type} `{TotalCmp K} `{CK : Codec K} `{CV : Codec V}.

Record KeyDir := mkKeyDir {
  kd_index : list (K * EntryMeta);
  kd_map : Mapping;
  kd_file : list Z;
  kd_config : KeyDirConfig;
  kd_data_size : nat;
  kd_dead_bytes : nat;
  kd_os : list (option io_error) }.
Implicit Types (d : KeyDir) (k : K) (v : V).
Abbreviation step A := (KeyDir * io A)%type.

Definition set_index i d := mkKeyDir i (kd_map d) (kd_file d) (kd_config d) (kd_data_size d) (kd_dead_bytes d) (kd_os d).
Definition set_map m d := mkKeyDir (kd_index d) m (kd_file d) (kd_config d) (kd_data_size d) (kd_dead_bytes d) (kd_os d).
Definition set_file f d := mkKeyDir (kd_index d) (kd_map d) f (kd_config d) (kd_data_size d) (kd_dead_bytes d) (kd_os d).
Definition set_stats n dead d := mkKeyDir (kd_index d) (kd_map d) (kd_file d) (kd_config d) n dead (kd_os d).
Definition set_os o d := mkKeyDir (kd_index d) (kd_map d) (kd_file d) (kd_config d) (kd_data_size d) (kd_dead_bytes d) o.
Definition add_dead n d := set_stats (kd_data_size d) (kd_dead_bytes d + n) d.

(** What the mapping shows, and a store through it. *)
Definition mapped d : list Z := match kd_map d with Mapped n => take n (kd_file d) | Anon => [0%Z] end.
Definition set_mapped b d : KeyDir :=
  match kd_map d with Mapped n => set_file (b ++ drop n (kd_file d)) d | Anon => d end.
Definition store (off : nat) (bs : list Z) d : io KeyDir :=
  match splice (mapped d) off bs with Some b => Ok (set_mapped b d) | None => Panic end.
(** The outcome of a system call. *)
Definition sys d : step unit :=
  match kd_os d with
  | [] => (d, Ok tt)
  | None :: os => (set_os os d, Ok tt)
  | Some e :: os => (set_os os d, Err e)
  end.
Definition and_do {A B} (r : step A) (f : KeyDir → A → step B) : step B :=
  match r with (d, Ok a) => f d a | (d, Err e) => (d, Err e) | (d, Panic) => (d, Panic) end.
(** [MmapMut::map_mut(&file)]: the whole file. *)
Definition map_file d : step unit := and_do (sys d) (λ d _, (set_map (Mapped (length (kd_file d))) d, Ok tt)).
Definition set_len n d : step unit := and_do (sys d) (λ d _, (set_file (resize n (kd_file d)) d, Ok tt)).
(** A step that leaves the state as it was when it panics. *)
Definition or_panic {A} (r : io A) (d : KeyDir) (f : A → step unit) : step unit :=
  match r with Ok a => f a | Err e => (d, Err e) | Panic => (d, Panic) end.

(** ** The free functions *)
Definition value_bytes_in d (meta : EntryMeta) : io (list Z) :=
  match read_u32_le (mapped d) (m_offset meta) with
  | Some value_size =>
      match slice (mapped d) (m_offset meta + 4) (Z.to_nat value_size) with Some bs => Ok bs | None => Panic end
  | None => Panic
  end.
Definition grow_into (desired : nat) d : step unit :=
  let new_capacity := Nat.max (length (mapped d) * 2) desired in
  and_do (set_len new_capacity d) (λ d _, map_file d).
Definition ensure (needed : nat) d : step unit :=
  if (length (mapped d) <? needed)%nat then grow_into needed d else (d, Ok tt).
Definition u32 (n : nat) : list Z := to_le_bytes 4 (Z.of_nat n).

Definition write_entry_into k v d : step EntryMeta :=
  match with_two_scratches k v (λ kb vb, Ok (kb, vb)) with
  | Err e => (d, Err e)
  | Panic => (d, Panic)
  | Ok (kb, vb) =>
      let total := 8 + length vb + length kb in
      let offset := kd_data_size d in
      let end_ := offset + total in
      and_do (ensure (end_ + 4) d) (λ d _,
        match d <-? store offset (u32 (length vb)) d ;;
              let v_off := offset + 4 in
              d <-? store v_off vb d ;;
              let k_len_off := v_off + length vb in
              d <-? store k_len_off (u32 (length kb)) d ;;
              let k_off := k_len_off + 4 in
              d <-? store k_off kb d ;;
              store end_ sentinel_bytes d with
        | Ok d => (set_stats end_ (kd_dead_bytes d) d, Ok (mkMeta offset (Z.to_nat (Z.of_nat total mod 4294967296))))
        | Err e => (d, Err e)
        | Panic => (d, Panic)
        end)
  end.

Definition write_tombstone_into (old : EntryMeta) d : step unit :=
  match read_u32_le (mapped d) (m_offset old) with
  | None => (d, Panic)
  | Some size =>
      let value_size := Z.to_nat size in
      if (m_size old <? 8 + value_size)%nat then (d, Panic) else
      let key_size := m_size old - 8 - value_size in
      let total := 8 + key_size in
      let new_offset := kd_data_size d in
      let end_ := new_offset + total in
      and_do (ensure (end_ + 4) d) (λ d _,
        let key_src_start := m_offset old + 8 + value_size in
        match d <-? store new_offset (to_le_bytes 4 TOMBSTONE) d ;;
              d <-? store (new_offset + 4) (u32 key_size) d ;;
              d <-? match copy_within (mapped d) key_src_start key_size (new_offset + 8) with
                    | Some b => Ok (set_mapped b d)
                    | None => Panic
                    end ;;
              store end_ sentinel_bytes d with
        | Ok d => (set_stats end_ (kd_dead_bytes d + (8 + key_size)) d, Ok tt)
        | Err e => (d, Err e)
        | Panic => (d, Panic)
        end)
  end.

(** ** The hash map *)
Fixpoint hm_insert k (m : EntryMeta) (l : list (K * EntryMeta)) : list (K * EntryMeta) :=
  match l with
  | [] => [(k, m)]
  | (k', m') :: l => match cmp k k' with Eq => (k', m) :: l | _ => (k', m') :: hm_insert k m l end
  end.

(** ** Compaction *)
Definition by_offset (p q : K * EntryMeta) : bool := (m_offset p.2 <=? m_offset q.2)%nat.
Fixpoint compact_loop (snapshot : list (K * EntryMeta)) (cursor : nat) d : io (KeyDir * nat) :=
  match snapshot with
  | [] => Ok (d, cursor)
  | (k, meta) :: snapshot =>
      let src := m_offset meta in
      let len := m_size meta in
      d <-? (if (src =? cursor)%nat then Ok d
             else match copy_within (mapped d) src len cursor with
                  | Some b => Ok (set_mapped b d)
                  | None => Panic
                  end) ;;
      compact_loop snapshot (cursor + len) (set_index (hm_insert k (mkMeta cursor len) (kd_index d)) d)
  end.
Definition kd_compact d : step unit :=
  match r <-? compact_loop (sort_by by_offset (kd_index d)) HEADER_SIZE d ;;
        d <-? store r.2 sentinel_bytes r.1 ;; Ok (d, r.2) with
  | Ok (d, cursor) =>
      let d := set_stats cursor 0 d in
      let new_capacity := Nat.max (cursor + 4) (initial_capacity (kd_config d)) in
      and_do (sys d) (λ d _, and_do (set_len new_capacity (set_map Anon d)) (λ d _, map_file d))
  | Err e => (d, Err e)
  | Panic => (d, Panic)
  end.
Definition maybe_compact d : step unit :=
  let threshold := compaction_ratio (kd_config d) in
  if SFleb F64.one threshold then (d, Ok tt) else
  if SFeqb threshold F64.zero
     || SFleb threshold (F64.div (F64.of_u64 (Z.of_nat (kd_dead_bytes d))) (F64.of_u64 (Z.of_nat (kd_data_size d))))
  then and_do (kd_compact d) (λ d _, (d, Ok tt))
  else (d, Ok tt).
Definition kd_flush d : step unit := sys d.
Definition kd_sync d : step unit := sys d.
(** [Drop]: a last writeback, its outcome ignored; what is left is the file. *)
Definition kd_drop d : list Z := kd_file (kd_flush d).1.

(** ** Opening *)
Definition replay_entry k (meta : EntryMeta) d : KeyDir :=
  match bt_get k (kd_index d) with
  | Some old => set_index (hm_insert k meta (kd_index d)) (add_dead (m_size old) d)
  | None => set_index (hm_insert k meta (kd_index d)) d
  end.
Definition replay_tombstone k (key_size : nat) d : KeyDir :=
  let d := match bt_get k (kd_index d) with
           | Some old => add_dead (m_size old) (set_index (bt_remove k (kd_index d)) d)
           | None => d
           end in
  add_dead (8 + key_size) d.
Fixpoint rebuild_loop (fuel : nat) (cursor : nat) d : step nat :=
  match read_u32_le (mapped d) cursor with
  | None => (d, Ok cursor)
  | Some value_size =>
      if (value_size =? SENTINEL)%Z then (d, Ok cursor) else
      match fuel with
      | O => (d, Panic)
      | S fuel =>
          let is_tombstone := (value_size =? TOMBSTONE)%Z in
          let key_size_off := if is_tombstone then cursor + 4 else cursor + 4 + Z.to_nat value_size in
          match read_u32_le (mapped d) key_size_off with
          | None => (d, Panic)
          | Some key_size =>
              let key_start := key_size_off + 4 in
              let entry_end := key_start + Z.to_nat key_size in
              match slice (mapped d) key_start (Z.to_nat key_size) with
              | None => (d, Panic)
              | Some bytes =>
                  match deserialize_from bytes with
                  | Err e => (d, Err e)
                  | Panic => (d, Panic)
                  | Ok key =>
                      if is_tombstone then rebuild_loop fuel entry_end (replay_tombstone key (Z.to_nat key_size) d)
                      else if (u32_max <? 8 + value_size + key_size)%Z then (d, Panic)
                      else rebuild_loop fuel entry_end
                             (replay_entry key (mkMeta cursor (8 + Z.to_nat value_size + Z.to_nat key_size)) d)
                  end
              end
          end
      end
  end.
Definition rebuild_index d : step unit :=
  and_do (rebuild_loop (length (mapped d)) HEADER_SIZE (set_stats (kd_data_size d) 0 d)) (λ d cursor,
    (set_stats cursor (kd_dead_bytes d) d, Ok tt)).

Definition opened (r : step unit) : io KeyDir :=
  match r with (d, Ok _) => Ok d | (_, Err e) => Err e | (_, Panic) => Panic end.
(** On the truncated file, [os] the outcomes of the system calls. *)
Definition kd_create (config : KeyDirConfig) (os : list (option io_error)) : io KeyDir :=
  opened (
    and_do (set_len (initial_capacity config) (mkKeyDir [] Anon [] config HEADER_SIZE 0 os)) (λ d _,
    and_do (map_file d) (λ d _,
    or_panic (store 0 magic_bytes d) d (λ d,
    or_panic (store HEADER_SIZE sentinel_bytes d) d (λ d, (d, Ok tt)))))).
Definition kd_open (file : list Z) (config : KeyDirConfig) (os : list (option io_error)) : io KeyDir :=
  opened (
    and_do (map_file (mkKeyDir [] Anon file config 0 0 os)) (λ d _,
    match slice (mapped d) 0 4 with
    | None => (d, Panic)
    | Some magic => if (from_le_bytes magic =? MAGIC)%Z then rebuild_index d else (d, Err InvalidData)
    end)).

(** ** [ReadBackend] *)
(** [deserialize_from(value_bytes_in(..)).expect(..)]. *)
Definition read_value d (meta : EntryMeta) : io V :=
  bs <-? value_bytes_in d meta ;;
  match deserialize_from bs with Ok v => Ok v | _ => Panic end.
Definition kd_get d k : io (option V) :=
  match bt_get k (kd_index d) with
  | None => Ok None
  | Some meta => rmap Some (read_value d meta)
  end.
Definition kd_contains d k : bool := bt_contains k (kd_index d).
Definition kd_keys d : list K := map fst (kd_index d).
Fixpoint read_all d (l : list (K * EntryMeta)) : io (list (K * V)) :=
  match l with
  | [] => Ok []
  | (k, meta) :: l => v <-? read_value d meta ;; rest <-? read_all d l ;; Ok ((k, v) :: rest)
  end.
Definition kd_entries d : io (list (K * V)) := read_all d (kd_index d).
Definition kd_values d : io (list V) := rmap (map snd) (kd_entries d).
Definition kd_size d : nat := length (kd_index d).

(** ** [WriteBackend] *)
(** The index entry of a record just written. *)
Definition place k (meta : EntryMeta) d : KeyDir := replay_entry k meta d.
Definition kd_put k v d : step unit :=
  and_do (write_entry_into k v d) (λ d meta, maybe_compact (place k meta d)).
Definition kd_delete k d : step bool :=
  match bt_get k (kd_index d) with
  | None => (d, Ok false)
  | Some old =>
      let d := add_dead (m_size old) (set_index (bt_remove k (kd_index d)) d) in
      and_do (write_tombstone_into old d) (λ d _, and_do (maybe_compact d) (λ d _, (d, Ok true)))
  end.
Definition kd_put_if_absent k v d : step bool :=
  match bt_get k (kd_index d) with
  | Some _ => (d, Ok false)
  | None =>
      and_do (write_entry_into k v d) (λ d meta,
        and_do (maybe_compact (set_index (hm_insert k meta (kd_index d)) d)) (λ d _, (d, Ok true)))
  end.
(** The value [deserialize_from(bytes)?] decodes. *)
Definition decode_value d (meta : EntryMeta) : io V := bs <-? value_bytes_in d meta ;; deserialize_from bs.
Definition kd_replace k v d : step (option V) :=
  match bt_get k (kd_index d) with
  | Some old =>
      match decode_value d old with
      | Ok previous =>
          and_do (write_entry_into k v d) (λ d meta,
            and_do (maybe_compact (set_index (hm_insert k meta (kd_index d)) (add_dead (m_size old) d))) (λ d _,
              (d, Ok (Some previous))))
      | Err e => (d, Err e)
      | Panic => (d, Panic)
      end
  | None =>
      and_do (write_entry_into k v d) (λ d meta,
        and_do (maybe_compact (set_index (hm_insert k meta (kd_index d)) d)) (λ d _, (d, Ok None)))
  end.
Definition kd_update k (f : option V → option V) d : step unit :=
  match bt_get k (kd_index d) with
  | Some old =>
      match decode_value d old with
      | Ok current =>
          match f (Some current) with
          | Some v =>
              and_do (write_entry_into k v d) (λ d meta,
                maybe_compact (set_index (hm_insert k meta (kd_index d)) (add_dead (m_size old) d)))
          | None =>
              and_do (write_tombstone_into old (add_dead (m_size old) d)) (λ d _,
                maybe_compact (set_index (bt_remove k (kd_index d)) d))
          end
      | Err e => (d, Err e)
      | Panic => (d, Panic)
      end
  | None =>
      match f None with
      | Some v =>
          and_do (write_entry_into k v d) (λ d meta,
            maybe_compact (set_index (hm_insert k meta (kd_index d)) d))
      | None => (d, Ok tt)
      end
  end.
Definition kd_clear d : step unit :=
  let d := set_stats HEADER_SIZE 0 (set_index [] d) in
  or_panic (store 0 magic_bytes d) d (λ d, or_panic (store HEADER_SIZE sentinel_bytes d) d (λ d, (d, Ok tt))).
End KeyDir.
Arguments KeyDir : clear implicits.
End KeyDir.
