(* ===== verification/KeyDirLog.v ===== *)
(** * The log in a KeyDir file

    The records of the log and their bytes; what the index of a log is
    ([live]) and what the log stores ([kv]); [filed] and [indexed] are the two
    halves of the store's invariant. *)
From stdpp Require Import base numbers option list.
From S2P Require Import Prelude Bytes Order BTreeMap Backend Serdes Mmap KeyDir.
Import KeyDir.

(** ** Slices and stores *)
Lemma slice_app (a x c : list Z) n m : n = length a → m = length x → slice (a ++ x ++ c) n m = Some x.
Proof.
  intros -> ->. unfold slice. rewrite !length_app. destruct (Nat.leb_spec (length a + length x) (length a + (length x + length c))); [|lia].
  by rewrite drop_app_length, take_app_length.
Qed.
Lemma splice_app (a rest x : list Z) n : n = length a → length x ≤ length rest →
  splice (a ++ rest) n x = Some (a ++ x ++ drop (length x) rest).
Proof.
  intros -> Hl. unfold splice. rewrite length_app.
  destruct (Nat.leb_spec (length a + length x) (length a + length rest)); [|lia].
  by rewrite take_app_length, drop_app_add.
Qed.
Lemma splice_length b o x b' : splice b o x = Some b' → length b' = length b.
Proof.
  unfold splice. destruct (Nat.leb_spec (o + length x) (length b)); [|done]. intros [= <-].
  rewrite !length_app, length_take, length_drop. lia.
Qed.
Lemma splice_splice b o x y b' : splice b o x = Some b' → splice b' (o + length x) y = splice b o (x ++ y).
Proof.
  unfold splice. destruct (Nat.leb_spec (o + length x) (length b)) as [Hl|Hl]; [|done]. intros [= <-].
  assert (length (take o b) = o) as Ho by (rewrite length_take; lia).
  assert (length (take o b ++ x ++ drop (o + length x) b) = length b) as ->.
  { rewrite !length_app, length_drop, Ho. lia. }
  rewrite length_app, Nat.add_assoc. destruct (Nat.leb_spec (o + length x + length y) (length b)); [|done]. f_equal.
  rewrite (app_assoc (take o b)), take_app_length' by (rewrite length_app, Ho; done).
  rewrite <- !app_assoc. do 3 f_equal. rewrite app_assoc, drop_app_ge by (rewrite length_app, Ho; lia).
  rewrite length_app, Ho, drop_drop. f_equal. lia.
Qed.
Lemma read_u32_slice b n bs : slice b n 4 = Some bs → read_u32_le b n = Some (from_le_bytes bs).
Proof. intros Hs. unfold read_u32_le. by rewrite Hs. Qed.
Lemma le4_length v : length (to_le_bytes 4 v) = 4.
Proof. apply to_digits_length. Qed.
Lemma read_u32_at (a c : list Z) n v : n = length a → (0 ≤ v < 4294967296)%Z →
  read_u32_le (a ++ to_le_bytes 4 v ++ c) n = Some v.
Proof.
  intros Hn Hv. rewrite (read_u32_slice _ _ (to_le_bytes 4 v)) by (by apply slice_app; rewrite ?le4_length).
  by rewrite le_roundtrip.
Qed.

(** ** Codecs that decode what they encode, in less than a gigabyte *)
Class LawfulCodec (A : Type) `{Codec A} := {
  codec_faithful (a : A) bs : bincode_encode a = Some bs →
    Forall is_byte bs ∧ bincode_decode bs = Some (a, length bs);
  codec_small (a : A) bs : bincode_encode a = Some bs → (Z.of_nat (length bs) < 1073741824)%Z;
}.

Lemma byte_codec_lawful : @LawfulCodec Z byte_codec.
Proof.
  assert (∀ (a : Z) bs, bincode_encode (Codec:=byte_codec) a = Some bs → is_byte a ∧ bs = [a]) as Hb.
  { intros a bs. unfold bincode_encode, byte_codec, is_byte, is_digit. destruct (Z.leb_spec 0 a), (Z.ltb_spec a 256); try done.
    simpl. intros [= <-]. by split. }
  split; intros a bs [Ha ->]%Hb; [|done]. split; [by apply Forall_singleton|done].
Qed.

Section Log.
Context {K V : Type} `{TotalCmp K} `{CK : Codec K} `{CV : Codec V} `{!LawfulCodec K, !LawfulCodec V}.
#[local] Abbreviation KeyDir := (KeyDir K).
Implicit Types (d : KeyDir) (k : K) (v : V).
#[local] Abbreviation Rec := (K * option V)%type.
Implicit Types (r : Rec) (log : list Rec).

Definition encodable {A} `{Codec A} (a : A) : bool := is_some (bincode_encode a).
Definition accepts k v : bool := encodable k && encodable v.
Definition rec_bytes r : list Z :=
  match r.2 with
  | Some v => u32 (length (encoded v)) ++ encoded v ++ u32 (length (encoded r.1)) ++ encoded r.1
  | None => to_le_bytes 4 TOMBSTONE ++ u32 (length (encoded r.1)) ++ encoded r.1
  end.
Definition rec_ok r : Prop := encodable r.1 = true ∧ match r.2 with Some v => encodable v = true | None => True end.
Definition rec_size r : nat := 8 + match r.2 with Some v => length (encoded v) | None => 0 end + length (encoded r.1).
Definition log_bytes log : list Z := concat (map rec_bytes log).
Definition log_end log : nat := HEADER_SIZE + length (log_bytes log).

Lemma u32_length n : length (u32 n) = 4.
Proof using Type. apply to_digits_length. Qed.
Lemma rec_bytes_length r : length (rec_bytes r) = rec_size r.
Proof using Type.
  unfold rec_bytes, rec_size. destruct r as [k [v|]]; cbn [fst snd]; rewrite !length_app, !u32_length, ?le4_length; lia.
Qed.
Lemma log_bytes_app l1 l2 : log_bytes (l1 ++ l2) = log_bytes l1 ++ log_bytes l2.
Proof using Type. unfold log_bytes. by rewrite map_app, concat_app. Qed.
Lemma log_bytes_cons r l : log_bytes (r :: l) = rec_bytes r ++ log_bytes l.
Proof using Type. done. Qed.
Lemma log_bytes_snoc l r : log_bytes (l ++ [r]) = log_bytes l ++ rec_bytes r.
Proof using Type. by rewrite log_bytes_app, log_bytes_cons, app_nil_r. Qed.
Lemma log_end_snoc l r : log_end (l ++ [r]) = log_end l + rec_size r.
Proof using Type. unfold log_end. rewrite log_bytes_snoc, length_app, rec_bytes_length. lia. Qed.
Lemma encoded_small {A} `{LawfulCodec A} (a : A) : (Z.of_nat (length (encoded a)) < 1073741824)%Z.
Proof using Type.
  unfold encoded. destruct (bincode_encode a) as [bs|] eqn:E; simpl; [by apply (codec_small a)|lia].
Qed.
Lemma encodable_decode {A} `{LawfulCodec A} (a : A) : encodable a = true → deserialize_from (encoded a) = Ok a.
Proof using Type.
  unfold encodable, encoded, deserialize_from. destruct (bincode_encode a) as [bs|] eqn:E; simpl; [|done].
  intros _. destruct (codec_faithful a bs E) as [_ D]. by rewrite D.
Qed.
Lemma encodable_vec {A} `{Codec A} (a : A) :
  serialize_to_vec a = if encodable a then Ok (encoded a) else Err InvalidData.
Proof using Type. unfold serialize_to_vec, encodable, encoded. by destruct (bincode_encode a). Qed.

(** ** What a log stores, and its index *)
Definition kv_step k (cur : option V) r : option V := match cmp k r.1 with Eq => r.2 | _ => cur end.
Definition kv log k : option V := foldl (kv_step k) None log.
Definition live_step k (p : nat * option EntryMeta) r : nat * option EntryMeta :=
  (p.1 + rec_size r,
   match cmp k r.1 with Eq => (λ _, mkMeta p.1 (rec_size r)) <$> r.2 | _ => p.2 end).
Definition live log k : option EntryMeta := (foldl (live_step k) (HEADER_SIZE, None) log).2.

Lemma kv_snoc log r k : kv (log ++ [r]) k = kv_step k (kv log k) r.
Proof using Type. unfold kv. by rewrite foldl_snoc. Qed.
Lemma live_end log k : (foldl (live_step k) (HEADER_SIZE, None) log).1 = log_end log.
Proof using Type.
  induction log as [|r log IH] using rev_ind; [done|]. by rewrite foldl_snoc, log_end_snoc, <- IH.
Qed.
Lemma live_snoc log r k : live (log ++ [r]) k =
  match cmp k r.1 with Eq => (λ _, mkMeta (log_end log) (rec_size r)) <$> r.2 | _ => live log k end.
Proof using Type. unfold live. rewrite foldl_snoc. simpl. by rewrite live_end. Qed.
(** The live record of a key. *)
Lemma live_kv log k :
  (live log k = None ∧ kv log k = None) ∨
  (∃ l1 v l2, log = l1 ++ (k, Some v) :: l2 ∧ live log k = Some (mkMeta (log_end l1) (rec_size (k, Some v))) ∧
    kv log k = Some v).
Proof.
  induction log as [|[j o] log IH] using rev_ind; [by left|]. rewrite live_snoc, kv_snoc. unfold kv_step. simpl.
  assert ((live log k = None ∧ kv log k = None) ∨ (∃ l1 v l2, log ++ [(j, o)] = l1 ++ (k, Some v) :: l2 ∧
    live log k = Some (mkMeta (log_end l1) (rec_size (k, Some v))) ∧ kv log k = Some v)) as IH'.
  { destruct IH as [?|(l1 & v & l2 & -> & ? & ?)]; [by left|right]. exists l1, v, (l2 ++ [(j, o)]).
    by rewrite <- app_assoc. }
  destruct (cmpP k j) as [->|E E'|E E']; [|exact IH'..]. destruct o as [v|]; simpl; [right|by left].
  by exists log, v, [].
Qed.

(** ** The two halves of the invariant *)
Definition filed d log : Prop := ∃ slack n,
  mapped d = magic_bytes ++ log_bytes log ++ sentinel_bytes ++ slack ∧
  kd_map d = Mapped n ∧ n ≤ length (kd_file d) ∧ kd_data_size d = log_end log ∧ Forall rec_ok log.
Definition total_size (index : list (K * EntryMeta)) : nat := foldr (λ p n, m_size p.2 + n) 0 index.
Definition indexed d log : Prop :=
  NoDup (map fst (kd_index d)) ∧ (∀ k, bt_get k (kd_index d) = live log k) ∧
  kd_dead_bytes d + total_size (kd_index d) = length (log_bytes log).

Lemma set_mapped_spec d n b : kd_map d = Mapped n → n ≤ length (kd_file d) → length b = length (mapped d) →
  mapped (set_mapped b d) = b ∧ length (kd_file (set_mapped b d)) = length (kd_file d).
Proof using Type.
  intros Hm Hn. unfold mapped at 1, set_mapped, mapped. rewrite Hm. simpl. rewrite Hm, length_take. intros Hb.
  rewrite take_app_length' by lia. split; [done|]. rewrite length_app, length_drop. lia.
Qed.
(** The fields a store leaves alone. *)
Definition same_but_file d d' : Prop :=
  kd_index d' = kd_index d ∧ kd_map d' = kd_map d ∧ kd_config d' = kd_config d ∧
  kd_data_size d' = kd_data_size d ∧ kd_dead_bytes d' = kd_dead_bytes d ∧ kd_os d' = kd_os d ∧
  length (kd_file d') = length (kd_file d).
Lemma set_mapped_same d n b : kd_map d = Mapped n → n ≤ length (kd_file d) → length b = length (mapped d) →
  same_but_file d (set_mapped b d).
Proof using Type.
  intros Hm Hn Hb. destruct (set_mapped_spec d n b Hm Hn Hb) as [_ Hl]. unfold same_but_file.
  unfold set_mapped in *. rewrite Hm in *. simpl in *. split_and!; done.
Qed.
Lemma store_ok d n o x b : kd_map d = Mapped n → n ≤ length (kd_file d) → splice (mapped d) o x = Some b → ∃ d',
  store o x d = Ok d' ∧ mapped d' = b ∧ same_but_file d d'.
Proof using Type.
  intros Hm Hn Hs. unfold store. rewrite Hs. exists (set_mapped b d). apply splice_length in Hs.
  split; [done|]. split; [by eapply set_mapped_spec|by eapply set_mapped_same].
Qed.
(** Adjacent stores are one store. *)
Lemma store_bind d n o x y : kd_map d = Mapped n → n ≤ length (kd_file d) →
  (d1 <-? store o x d ;; store (o + length x) y d1) = store o (x ++ y) d.
Proof using Type.
  intros Hm Hn. unfold store. destruct (splice (mapped d) o x) as [b|] eqn:E; simpl.
  - pose proof (splice_length _ _ _ _ E) as Hl. destruct (set_mapped_spec d n b Hm Hn Hl) as [-> _].
    rewrite (splice_splice _ _ _ _ _ E). destruct (splice (mapped d) o (x ++ y)) as [b'|] eqn:E'; [|done].
    f_equal. apply splice_length in E'. unfold set_mapped, mapped in *. rewrite Hm in *. simpl. rewrite Hm.
    rewrite length_take in *. unfold set_file. simpl. do 2 f_equal.
    by rewrite drop_app_length' by lia.
  - assert (splice (mapped d) o (x ++ y) = None) as ->; [|done]. unfold splice in *. rewrite length_app.
    destruct (Nat.leb_spec (o + length x) (length (mapped d))); [done|].
    destruct (Nat.leb_spec (o + (length x + length y)) (length (mapped d))); [lia|done].
Qed.
Fixpoint stores (o : nat) (xs : list (list Z)) d : io KeyDir :=
  match xs with
  | [] => Ok d
  | [x] => store o x d
  | x :: xs => d <-? store o x d ;; stores (o + length x) xs d
  end.
Lemma stores_one xs : ∀ d n o x, kd_map d = Mapped n → n ≤ length (kd_file d) →
  stores o (x :: xs) d = store o (concat (x :: xs)) d.
Proof using Type.
  induction xs as [|y xs IH]; intros d n o x Hm Hn; [simpl; by rewrite app_nil_r|].
  rewrite concat_cons, <- (store_bind d n) by done. change (stores o (x :: y :: xs) d) with
    (d1 <-? store o x d ;; stores (o + length x) (y :: xs) d1).
  destruct (store o x d) as [d1|e|] eqn:E; [|done..]. cbn [rbind]. unfold store in E.
  destruct (splice (mapped d) o x) as [b|] eqn:Es; [|done]. injection E as <-. apply splice_length in Es.
  destruct (set_mapped_same d n b Hm Hn Es) as (_ & M & _ & _ & _ & _ & L). by apply (IH _ n); [congruence|lia].
Qed.
End Log.
