(* ===== verification/KeyDirOps.v ===== *)
(** * KeyDir's steps on its log

    Writing a record, growing the file, replaying the log and compacting it:
    what each does to the log of [KeyDirLog.v]. *)
From stdpp Require Import base numbers option sorting list.
From S2P Require Import Prelude Bytes Order BTreeMap Backend Serdes Mmap KeyDir KeyDirLog.
Import KeyDir.

Section Ops.
Context {K V : Type} `{TotalCmp K} `{CK : Codec K} `{CV : Codec V} `{!LawfulCodec K, !LawfulCodec V}.
#[local] Abbreviation KeyDir := (KeyDir K).
#[local] Abbreviation Rec := (K * option V)%type.
Implicit Types (d : KeyDir) (k : K) (v : V) (r : Rec) (log : list Rec).

(** ** The file *)
(** The stores keep the index, the statistics and the system's outcomes. *)
Definition same_store d d' : Prop :=
  kd_index d' = kd_index d ∧ kd_config d' = kd_config d ∧ kd_dead_bytes d' = kd_dead_bytes d.
Lemma sys_spec d : let (d', o) := sys d in
  kd_index d' = kd_index d ∧ kd_map d' = kd_map d ∧ kd_file d' = kd_file d ∧ kd_config d' = kd_config d ∧
  kd_data_size d' = kd_data_size d ∧ kd_dead_bytes d' = kd_dead_bytes d ∧ o ≠ Panic ∧
  (kd_os d = [] → d' = d ∧ o = Ok tt).
Proof using Type. unfold sys. destruct (kd_os d) as [|[e|] os] eqn:E; by split_and!. Qed.
Lemma sys_ok d : kd_os d = [] → sys d = (d, Ok tt).
Proof using Type. intros E. unfold sys. by rewrite E. Qed.

Lemma ensure_spec d log needed : filed d log → let (d', o) := ensure needed d in
  filed d' log ∧ same_store d d' ∧ o ≠ Panic ∧ (o = Ok tt → needed ≤ length (mapped d')) ∧
  (kd_os d = [] → o = Ok tt ∧ kd_os d' = []).
Proof using Type.
  intros Hf. unfold ensure. destruct (Nat.ltb_spec (length (mapped d)) needed) as [Hlt|Hge].
  2:{ split_and!; done. }
  destruct Hf as (slack & n & Hmap & Hn & Hle & Hsize & Hok). unfold grow_into, set_len, map_file.
  pose proof (sys_spec d) as Hs. destruct (sys d) as [d1 o1]. destruct Hs as (I1 & M1 & F1 & C1 & S1 & D1 & P1 & E1).
  assert (filed d1 log ∧ same_store d d1) as [Hf1 Hs1].
  { split; [|done]. exists slack, n. unfold mapped in *. rewrite M1, F1, S1. rewrite Hn in *. done. }
  assert (length (mapped d) = n) as Hln by (unfold mapped; rewrite Hn, length_take; lia).
  destruct o1 as [[]|e|]; simpl; [|by split_and!; [..|intros [_ ?]%E1]|done].
  set (d2 := set_file _ d1). pose proof (sys_spec d2) as Hs2. destruct (sys d2) as [d3 o3].
  destruct Hs2 as (I3 & M3 & F3 & C3 & S3 & D3 & P3 & E3).
  assert (mapped d3 = mapped d ∧ length (kd_file d3) = Nat.max (length (mapped d) * 2) needed) as [Hm3 Hl3].
  { rewrite F3. simpl. rewrite resize_length. split; [|done]. unfold mapped at 1. rewrite M3, F3. simpl.
    rewrite M1, Hn, F1, resize_take by lia. unfold mapped. by rewrite Hn. }
  assert (same_store d d3) as Hs3 by (unfold same_store; rewrite I3, C3, D3; done).
  destruct o3 as [[]|e|]; simpl; [..|done].
  - assert (mapped (set_map (Mapped (length (kd_file d3))) d3) = kd_file d3) as Hm4.
    { unfold mapped. simpl. by rewrite firstn_all. }
    split_and!; try done; rewrite ?Hm4; [|lia|].
    + exists (slack ++ drop n (kd_file d3)), (length (kd_file d3)). rewrite Hm4. split_and!; try done; [|simpl; rewrite S3; simpl; congruence].
      rewrite <- (take_drop n (kd_file d3)) at 1.
      assert (take n (kd_file d3) = mapped d) as ->.
      { rewrite <- Hm3. unfold mapped. rewrite M3. simpl. by rewrite M1, Hn. }
      rewrite Hmap. by rewrite <- !app_assoc.
    + intros Hos. split; [done|]. simpl. destruct (E1 Hos) as [-> _]. destruct (E3 Hos) as [-> _]. done.
  - split_and!; try done.
    + exists slack, n. rewrite Hm3, M3, Hl3, S3. simpl. rewrite M1, S1. split_and!; try done. lia.
    + intros Hos. destruct (E1 Hos) as [-> _]. destruct (E3 Hos) as [_ ?]. done.
Qed.

(** Writing a record at the tail, over the sentinel and the slack. *)
Lemma append_spec d log r : filed d log → rec_ok r → log_end log + rec_size r + 4 ≤ length (mapped d) → ∃ d',
  store (kd_data_size d) (rec_bytes r ++ sentinel_bytes) d = Ok d' ∧ same_store d d' ∧ kd_os d' = kd_os d ∧
  ∀ dead, filed (set_stats (log_end log + rec_size r) dead d') (log ++ [r]).
Proof using Type.
  intros (slack & n & Hmap & Hn & Hle & Hsize & Hok) Hr Hroom.
  assert (length (magic_bytes ++ log_bytes log) = log_end log) as Hl by (rewrite length_app; done).
  assert (splice (mapped d) (kd_data_size d) (rec_bytes r ++ sentinel_bytes) = Some
    (magic_bytes ++ log_bytes (log ++ [r]) ++ sentinel_bytes ++
      drop (length (rec_bytes r ++ sentinel_bytes)) (sentinel_bytes ++ slack))) as Hs.
  { rewrite Hmap, Hsize, app_assoc, splice_app; [|done|].
    - by rewrite log_bytes_snoc, <- !app_assoc.
    - apply (f_equal length) in Hmap. rewrite app_assoc, length_app, Hl in Hmap.
      rewrite length_app, rec_bytes_length. change (length sentinel_bytes) with 4. lia. }
  destruct (store_ok d n _ _ _ Hn Hle Hs) as (d' & -> & Hm' & I & M & C & S & D & O & L). exists d'.
  split_and!; [done|done|done|]. intros dead. eexists _, n. split_and!.
  - exact Hm'.
  - simpl. congruence.
  - simpl. by rewrite L.
  - simpl. by rewrite log_end_snoc.
  - apply Forall_app. split; [done|by apply Forall_singleton].
Qed.
Lemma u32_small n : (Z.of_nat n < 4294967296)%Z → n = Z.to_nat (Z.of_nat n mod 4294967296).
Proof using Type. intros Hn. rewrite Z.mod_small by lia. lia. Qed.
Lemma rec_size_small r : (Z.of_nat (rec_size r) < 4294967294)%Z.
Proof.
  unfold rec_size. pose proof (encoded_small r.1). destruct r.2 as [v|]; [pose proof (encoded_small v)|]; lia.
Qed.

(** The stores of a record, one after the other. *)
Lemma entry_chain d n o (kb vb : list Z) : kd_map d = Mapped n → n ≤ length (kd_file d) →
  (d <-? store o (u32 (length vb)) d ;; d <-? store (o + 4) vb d ;;
   d <-? store (o + 4 + length vb) (u32 (length kb)) d ;; d <-? store (o + 4 + length vb + 4) kb d ;;
   store (o + (8 + length vb + length kb)) sentinel_bytes d) =
  store o (u32 (length vb) ++ vb ++ u32 (length kb) ++ kb ++ sentinel_bytes) d.
Proof using Type.
  intros Hm Hn. replace (o + (8 + length vb + length kb)) with (o + 4 + length vb + 4 + length kb) by lia.
  pose proof (stores_one [vb; u32 (length kb); kb; sentinel_bytes] d n o (u32 (length vb)) Hm Hn) as Hs.
  exact Hs.
Qed.
Lemma write_entry_spec d log k v : filed d log → let (d', o) := write_entry_into k v d in
  same_store d d' ∧ o ≠ Panic ∧ (kd_os d = [] → kd_os d' = []) ∧
  match o with
  | Ok meta => accepts k v = true ∧ meta = mkMeta (log_end log) (rec_size (k, Some v)) ∧ filed d' (log ++ [(k, Some v)])
  | _ => filed d' log ∧ (kd_os d = [] → o = Err InvalidData ∧ accepts k v = false)
  end.
Proof.
  intros Hf. unfold write_entry_into, with_two_scratches. rewrite !encodable_vec. unfold accepts.
  destruct (encodable k) eqn:Ek, (encodable v) eqn:Ev; cbn [rbind andb]; try (split_and!; done).
  pose proof (ensure_spec d log (kd_data_size d + (8 + length (encoded v) + length (encoded k)) + 4) Hf) as He.
  simpl in He. destruct (ensure _ d) as [d1 o1]. destruct He as (Hf1 & Hs1 & Hp & Hroom & Hos).
  destruct o1 as [[]|e|]; cbn [and_do]; [|split_and!; try done; [apply Hos|by intros [? _]%Hos]|done].
  specialize (Hroom eq_refl). pose proof Hf as (_ & _ & _ & _ & _ & Hsize & _).
  pose proof Hf1 as (slack & n & Hmap & Hn & Hle & Hsize1 & Hok). rewrite Hsize in *.
  assert (8 + length (encoded v) + length (encoded k) = rec_size (k, Some v)) as Hrs by done.
  destruct (append_spec d1 log (k, Some v) Hf1) as (d2 & Hst & Hs2 & Ho2 & Hf2); [by split|lia|].
  rewrite Hsize1 in Hst. unfold rec_bytes in Hst. cbn [fst snd] in Hst. rewrite <- !app_assoc in Hst.
  rewrite (entry_chain d1 n) by done. rewrite Hst, Hrs, <- (u32_small (rec_size _)) by (pose proof (rec_size_small (k, Some v)); lia). split_and!.
  - unfold same_store in *. simpl. destruct Hs1 as (? & ? & ?), Hs2 as (? & ? & ?). split_and!; congruence.
  - done.
  - intros E. simpl. rewrite Ho2. by apply Hos.
  - done.
  - done.
  - apply Hf2.
Qed.

(** ** Reading a record *)
Lemma filed_at d log l1 r l2 : filed d log → log = l1 ++ r :: l2 → ∃ a c,
  mapped d = a ++ rec_bytes r ++ c ∧ length a = log_end l1 ∧ rec_ok r.
Proof using Type.
  intros (slack & n & Hmap & _ & _ & _ & Hok) ->. exists (magic_bytes ++ log_bytes l1), (log_bytes l2 ++ sentinel_bytes ++ slack).
  split_and!.
  - rewrite Hmap, log_bytes_app, log_bytes_cons. by rewrite <- !app_assoc.
  - by rewrite length_app.
  - apply Forall_app in Hok as [_ Hok]. by apply Forall_cons in Hok as [? _].
Qed.
Lemma enc_u32 {A} `{LawfulCodec A} (a : A) : (0 ≤ Z.of_nat (length (encoded a)) < 4294967296)%Z.
Proof using Type. pose proof (encoded_small a). lia. Qed.
Lemma value_size_at d log l1 k v l2 : filed d log → log = l1 ++ (k, Some v) :: l2 →
  read_u32_le (mapped d) (log_end l1) = Some (Z.of_nat (length (encoded v))).
Proof.
  intros Hf Hl. destruct (filed_at d log l1 _ l2 Hf Hl) as (a & c & -> & Ha & _).
  unfold rec_bytes. cbn [fst snd]. rewrite <- !app_assoc. by apply read_u32_at; [|apply enc_u32].
Qed.
Lemma value_bytes_at d log l1 k v l2 sz : filed d log → log = l1 ++ (k, Some v) :: l2 →
  value_bytes_in d (mkMeta (log_end l1) sz) = Ok (encoded v).
Proof.
  intros Hf Hl. unfold value_bytes_in. cbn [m_offset]. rewrite (value_size_at d log l1 k v l2) by done.
  destruct (filed_at d log l1 _ l2 Hf Hl) as (a & c & -> & Ha & _).
  unfold rec_bytes. cbn [fst snd]. rewrite Nat2Z.id, <- !app_assoc, app_assoc.
  rewrite (slice_app (a ++ _) (encoded v)); [done| |done]. rewrite length_app, Ha. by rewrite u32_length.
Qed.
(** The index entry of a key leads to what the log stores. *)
Lemma read_value_spec d log k m : filed d log → live log k = Some m → ∃ v,
  kv log k = Some v ∧ read_value d m = Ok v ∧ decode_value d m = Ok v ∧ m_size m = rec_size (k, Some v).
Proof.
  intros Hf Hm. destruct (live_kv log k) as [[? _]|(l1 & v & l2 & Hl & Hm' & Hv)]; [congruence|].
  rewrite Hm in Hm'. injection Hm' as ->. exists v. unfold read_value, decode_value.
  rewrite (value_bytes_at d log l1 k v l2) by done. cbn [rbind].
  destruct (filed_at d log l1 _ l2 Hf Hl) as (_ & _ & _ & _ & _ & Hev). by rewrite (encodable_decode v).
Qed.
Lemma live_none log k : live log k = None ↔ kv log k = None.
Proof. destruct (live_kv log k) as [[-> ->]|(l1 & v & l2 & _ & -> & ->)]; done. Qed.

(** ** Tombstones *)
Lemma copy_store d src len dst bs : slice (mapped d) src len = Some bs →
  match copy_within (mapped d) src len dst with Some b => Ok (set_mapped b d) | None => Panic end = store dst bs d.
Proof using Type. intros Hs. unfold copy_within. by rewrite Hs. Qed.
Lemma tombstone_chain d n log l1 k v l2 : filed d log → log = l1 ++ (k, Some v) :: l2 → kd_map d = Mapped n →
  n ≤ length (kd_file d) → log_end log + rec_size (k, None) + 4 ≤ length (mapped d) →
  (d <-? store (log_end log) (to_le_bytes 4 TOMBSTONE) d ;;
   d <-? store (log_end log + 4) (u32 (length (encoded k))) d ;;
   d <-? match copy_within (mapped d) (log_end l1 + 8 + length (encoded v)) (length (encoded k)) (log_end log + 8) with
         | Some b => Ok (set_mapped b d) | None => Panic end ;;
   store (log_end log + (8 + length (encoded k))) sentinel_bytes d) =
  store (log_end log) (rec_bytes (k, None) ++ sentinel_bytes) d.
Proof using Type.
  intros Hf Hl Hm Hn Hroom. set (T := to_le_bytes 4 TOMBSTONE). set (U := u32 _).
  pose proof Hf as (slack & n' & Hmap & Hn' & _ & Hsize & _).
  assert (length (magic_bytes ++ log_bytes log) = log_end log) as Hle by (rewrite length_app; done).
  assert (splice (mapped d) (log_end log) (T ++ U) = Some (magic_bytes ++ log_bytes log ++ (T ++ U) ++
    drop (length (T ++ U)) (sentinel_bytes ++ slack))) as Hs.
  { rewrite Hmap, app_assoc, splice_app; [by rewrite <- !app_assoc|done|].
    apply (f_equal length) in Hmap. rewrite app_assoc, length_app, Hle in Hmap. unfold rec_size in Hroom. cbn [fst snd] in Hroom.
    rewrite length_app. change (length T) with 4. change (length U) with 4. lia. }
  destruct (store_ok d n _ _ _ Hm Hn Hs) as (d2 & Hst & Hm2 & I2 & M2 & _ & _ & _ & _ & L2).
  pose proof (store_bind d n (log_end log) T U Hm Hn) as Hb. rewrite Hst in Hb. change (length T) with 4 in Hb.
  destruct (store (log_end log) T d) as [d1|e|] eqn:E1; [|done..]. cbn [rbind] in *. rewrite Hb. cbn [rbind].
  rewrite (copy_store d2 _ _ _ (encoded k)).
  - replace (log_end log + (8 + length (encoded k))) with (log_end log + 8 + length (encoded k)) by lia.
    etrans; [apply (stores_one [sentinel_bytes] d2 n (log_end log + 8) (encoded k)); [congruence|lia]|].
    change (concat _) with (encoded k ++ sentinel_bytes). change (log_end log + 8) with (log_end log + length (T ++ U)).
    pose proof (store_bind d n (log_end log) (T ++ U) (encoded k ++ sentinel_bytes) Hm Hn) as Hb2.
    rewrite Hst in Hb2. cbn [rbind] in Hb2. rewrite Hb2. unfold rec_bytes. cbn [fst snd].
    by rewrite <- !app_assoc.
  - rewrite Hm2, Hl, log_bytes_app, log_bytes_cons. unfold rec_bytes. cbn [fst snd].
    rewrite <- !app_assoc. set (c := log_bytes l2 ++ _).
    rewrite (app_assoc magic_bytes), (app_assoc (magic_bytes ++ _)), (app_assoc ((magic_bytes ++ _) ++ _)),
      (app_assoc (((magic_bytes ++ _) ++ _) ++ _)).
    apply slice_app; [|done]. rewrite !length_app, !u32_length. unfold log_end. change (length magic_bytes) with HEADER_SIZE. lia.
Qed.
Lemma write_tombstone_spec d log l1 k v l2 : filed d log → log = l1 ++ (k, Some v) :: l2 →
  let (d', o) := write_tombstone_into (mkMeta (log_end l1) (rec_size (k, Some v))) d in
  kd_index d' = kd_index d ∧ kd_config d' = kd_config d ∧ o ≠ Panic ∧ (kd_os d = [] → o = Ok tt ∧ kd_os d' = []) ∧
  match o with
  | Ok _ => kd_dead_bytes d' = kd_dead_bytes d + rec_size (k, None) ∧ filed d' (log ++ [(k, None)])
  | _ => kd_dead_bytes d' = kd_dead_bytes d ∧ filed d' log
  end.
Proof.
  intros Hf Hl. unfold write_tombstone_into. cbn [m_offset m_size]. rewrite (value_size_at d log l1 k v l2) by done.
  rewrite Nat2Z.id.
  assert (rec_size (k, Some v) = 8 + length (encoded v) + length (encoded k)) as Hrs by done.
  destruct (Nat.ltb_spec (rec_size (k, Some v)) (8 + length (encoded v))) as [?|_]; [lia|].
  replace (rec_size (k, Some v) - 8 - length (encoded v)) with (length (encoded k)) by lia.
  pose proof (ensure_spec d log (kd_data_size d + (8 + length (encoded k)) + 4) Hf) as He.
  destruct (ensure _ d) as [d1 o1]. destruct He as (Hf1 & (I1 & C1 & D1) & Hp & Hroom & Hos).
  destruct o1 as [[]|e|]; cbn [and_do]; [|split_and!; try done; by intros [? _]%Hos|done].
  specialize (Hroom eq_refl). pose proof Hf as (_ & _ & _ & _ & _ & Hsize & _).
  pose proof Hf1 as (slack & n & Hmap & Hn & Hle & Hsize1 & Hok). rewrite Hsize in *.
  change (8 + length (encoded k)) with (8 + 0 + length (encoded k)) in Hroom.
  assert (rec_ok (k, None)) as Hrk.
  { destruct (filed_at d log l1 _ l2 Hf Hl) as (_ & _ & _ & _ & Hek & _). by split. }
  destruct (append_spec d1 log (k, None) Hf1 Hrk Hroom) as (d2 & Hst & (I2 & C2 & D2) & Ho2 & Hf2).
  rewrite Hsize1 in Hst. rewrite (tombstone_chain d1 n log l1 k v l2), Hst by done. split_and!; simpl; try congruence.
  - intros E. destruct (Hos E) as [_ E1]. split; [done|congruence].
  - rewrite D2, D1. done.
  - apply Hf2.
Qed.
End Ops.
