(* ===== verification/KeyDirReplay.v ===== *)
(** * KeyDir: the index, replaying the log and compacting it *)
From stdpp Require Import base numbers option sorting list.
From S2P Require Import Prelude Bytes Order BTreeMap Backend MapBackend Serdes Mmap KeyDir KeyDirLog KeyDirOps.
Import KeyDir.

Section Replay.
Context {K V : Type} `{TotalCmp K} `{CK : Codec K} `{CV : Codec V} `{!LawfulCodec K, !LawfulCodec V}.
#[local] Abbreviation KeyDir := (KeyDir K).
#[local] Abbreviation Rec := (K * option V)%type.
Implicit Types (d : KeyDir) (k : K) (v : V) (r : Rec) (log : list Rec) (ix : list (K * EntryMeta)).

(** ** The hash map *)
Lemma hm_get_insert k j m ix : bt_get j (hm_insert k m ix) = match cmp j k with Eq => Some m | _ => bt_get j ix end.
Proof.
  induction ix as [|[k' m'] ix IH]; simpl; [by destruct (cmp j k)|].
  destruct (cmpP k k') as [->|E E'|E E']; simpl.
  - by destruct (cmp j k').
  - rewrite IH. destruct (cmpP j k') as [->|F F'|F F']; [by rewrite E'|done|done].
  - rewrite IH. destruct (cmpP j k') as [->|F F'|F F']; [by rewrite E'|done|done].
Qed.
Lemma hm_insert_keys k m ix : map fst (hm_insert k m ix) = if bt_contains k ix then map fst ix else map fst ix ++ [k].
Proof.
  unfold bt_contains. induction ix as [|[k' m'] ix IH]; simpl; [done|].
  destruct (cmp k k') eqn:E; simpl; [done|..]; rewrite IH; by destruct (bt_get k ix).
Qed.
Lemma bt_get_keys k ix : bt_get k ix = None ↔ k ∉ map fst ix.
Proof.
  induction ix as [|[k' m'] ix IH]; simpl; [split; [intros _; apply not_elem_of_nil|done]|].
  rewrite not_elem_of_cons. destruct (cmpP k k') as [->|E E'|E E'].
  - naive_solver.
  - rewrite IH. apply cmp_Lt_ne in E. naive_solver.
  - rewrite IH. apply cmp_Lt_ne in E'. naive_solver.
Qed.
Lemma hm_insert_nodup k m ix : NoDup (map fst ix) → NoDup (map fst (hm_insert k m ix)).
Proof.
  intros Hnd. rewrite hm_insert_keys. unfold bt_contains. destruct (bt_get k ix) eqn:E; [done|]. simpl.
  apply NoDup_app. split_and!; [done| |apply NoDup_singleton]. intros j Hj ->%list_elem_of_singleton.
  by apply bt_get_keys in E.
Qed.
Lemma bt_remove_keys k ix : map fst (bt_remove k ix) = List.filter (λ j, negb (bool_decide (cmp k j = Eq))) (map fst ix).
Proof using Type.
  induction ix as [|[k' m'] ix IH]; simpl; [done|]. destruct (cmp k k'); simpl; by rewrite IH.
Qed.
Lemma bt_remove_nodup k ix : NoDup (map fst ix) → NoDup (map fst (bt_remove k ix)).
Proof using Type. intros Hnd. rewrite bt_remove_keys. apply NoDup_ListNoDup, List.NoDup_filter. by apply NoDup_ListNoDup. Qed.
Lemma bt_remove_absent k ix : bt_get k ix = None → bt_remove k ix = ix.
Proof using Type.
  induction ix as [|[k' m'] ix IH]; simpl; [done|]. destruct (cmp k k'); [done|..]; intros E; by rewrite IH.
Qed.
Lemma total_insert k m ix : NoDup (map fst ix) →
  total_size (hm_insert k m ix) + from_option m_size 0 (bt_get k ix) = total_size ix + m_size m.
Proof using Type.
  induction ix as [|[k' m'] ix IH]; simpl; [lia|]. intros [_ Hnd]%NoDup_cons. specialize (IH Hnd).
  destruct (cmp k k'); simpl; lia.
Qed.
Lemma total_remove k ix : NoDup (map fst ix) →
  total_size (bt_remove k ix) + from_option m_size 0 (bt_get k ix) = total_size ix.
Proof.
  induction ix as [|[k' m'] ix IH]; simpl; [lia|]. intros [Hk Hnd]%NoDup_cons. specialize (IH Hnd).
  destruct (cmpP k k') as [->|E E'|E E']; simpl; [|lia..].
  assert (bt_get k' ix = None) as E by (apply bt_get_keys; exact Hk). rewrite bt_remove_absent by done. lia.
Qed.

(** ** Replaying a record *)
Lemma indexed_put d d' log k v : indexed d log → let m := mkMeta (log_end log) (rec_size (k, Some v)) in
  kd_index d' = hm_insert k m (kd_index d) →
  kd_dead_bytes d' = kd_dead_bytes d + from_option m_size 0 (bt_get k (kd_index d)) →
  indexed d' (log ++ [(k, Some v)]).
Proof.
  intros (Hnd & Hix & Hdead) m Hi Hd. unfold indexed. rewrite Hi, Hd. split_and!.
  - by apply hm_insert_nodup.
  - intros j. rewrite hm_get_insert, live_snoc. simpl. by rewrite Hix.
  - pose proof (total_insert k m (kd_index d) Hnd) as Ht. simpl in Ht.
    rewrite log_bytes_snoc, length_app, rec_bytes_length. lia.
Qed.
Lemma indexed_del d d' log k : indexed d log → kd_index d' = bt_remove k (kd_index d) →
  kd_dead_bytes d' = kd_dead_bytes d + from_option m_size 0 (bt_get k (kd_index d)) + rec_size (k, None) →
  indexed d' (log ++ [(k, None)]).
Proof.
  intros (Hnd & Hix & Hdead) Hi Hd. unfold indexed. rewrite Hi, Hd. split_and!.
  - by apply bt_remove_nodup.
  - intros j. rewrite live_snoc. simpl. destruct (cmpP j k) as [->|E E'|E E']; [by rewrite bt_get_remove|..].
    + rewrite bt_get_remove_ne by (by apply cmp_Lt_ne). apply Hix.
    + rewrite bt_get_remove_ne by (by apply not_eq_sym, cmp_Lt_ne). apply Hix.
  - pose proof (total_remove k (kd_index d) Hnd). rewrite log_bytes_snoc, length_app, rec_bytes_length. lia.
Qed.
Lemma indexed_place d log k v : indexed d log →
  indexed (replay_entry k (mkMeta (log_end log) (rec_size (k, Some v))) d) (log ++ [(k, Some v)]).
Proof.
  intros Hi. eapply indexed_put; [done|..]; unfold replay_entry; destruct (bt_get k (kd_index d)); simpl; (done || lia).
Qed.
Lemma indexed_tombstone d log k : indexed d log →
  indexed (replay_tombstone k (length (encoded k)) d) (log ++ [(k, None)]).
Proof.
  intros Hi. eapply indexed_del; [done|..]; unfold replay_tombstone; destruct (bt_get k (kd_index d)) eqn:E; simpl;
    try done; [|unfold rec_size; simpl; lia..]. by rewrite bt_remove_absent.
Qed.
(** Replaying changes neither the file nor the rest of the store. *)
Definition replayed d d' : Prop := kd_map d' = kd_map d ∧ kd_file d' = kd_file d ∧ kd_config d' = kd_config d ∧
  kd_data_size d' = kd_data_size d ∧ kd_os d' = kd_os d.
Lemma replay_entry_file k m d : replayed d (replay_entry k m d).
Proof using Type. unfold replay_entry. by destruct (bt_get k (kd_index d)). Qed.
Lemma replay_tombstone_file k n d : replayed d (replay_tombstone k n d).
Proof using Type. unfold replay_tombstone. by destruct (bt_get k (kd_index d)). Qed.
Lemma replayed_mapped d d' : replayed d d' → mapped d' = mapped d.
Proof using Type. intros (Hm & Hf & _). unfold mapped. by rewrite Hm, Hf. Qed.
Lemma replayed_trans d1 d2 d3 : replayed d1 d2 → replayed d2 d3 → replayed d1 d3.
Proof using Type. unfold replayed. intuition congruence. Qed.

(** ** [rebuild_index] *)
Definition replay_rec log r d : KeyDir :=
  match r.2 with
  | Some _ => replay_entry r.1 (mkMeta (log_end log) (rec_size r)) d
  | None => replay_tombstone r.1 (length (encoded r.1)) d
  end.
Lemma indexed_rec d log r : indexed d log → indexed (replay_rec log r d) (log ++ [r]).
Proof. destruct r as [k [v|]]; [apply indexed_place|apply indexed_tombstone]. Qed.
Lemma replay_rec_file log r d : replayed d (replay_rec log r d).
Proof using Type. destruct r as [k [v|]]; [apply replay_entry_file|apply replay_tombstone_file]. Qed.
Lemma read_u32_u32 (a c : list Z) n m : n = length a → (Z.of_nat m < 4294967296)%Z →
  read_u32_le (a ++ u32 m ++ c) n = Some (Z.of_nat m).
Proof using Type. intros Hn Hm. apply read_u32_at; [done|lia]. Qed.
(** One turn of the loop, on the bytes of a record. *)
Lemma rebuild_step_live d a c log k v fuel : mapped d = a ++ rec_bytes (k, Some v) ++ c → length a = log_end log →
  rec_ok (k, Some v) → rebuild_loop (S fuel) (log_end log) d =
  rebuild_loop fuel (log_end (log ++ [(k, Some v)])) (replay_rec log (k, Some v) d).
Proof.
  intros Hm Ha [Hk Hv]. unfold rec_bytes in Hm. cbn [fst snd] in *. rewrite <- !app_assoc in Hm. cbn [rebuild_loop].
  pose proof (encoded_small k) as Hks. pose proof (encoded_small v) as Hvs.
  rewrite Hm at 1. rewrite read_u32_u32 by (done || lia).
  destruct (Z.eqb_spec (Z.of_nat (length (encoded v))) SENTINEL) as [E|_]; [unfold SENTINEL in E; lia|].
  destruct (Z.eqb_spec (Z.of_nat (length (encoded v))) TOMBSTONE) as [E|_]; [unfold TOMBSTONE in E; lia|].
  rewrite Nat2Z.id, (app_assoc a), (app_assoc (a ++ _)) in *.
  assert (length ((a ++ u32 (length (encoded v))) ++ encoded v) = log_end log + 4 + length (encoded v)) as Hl1.
  { rewrite !length_app, u32_length, Ha. lia. }
  rewrite Hm at 1. rewrite read_u32_u32 by (done || lia). rewrite Nat2Z.id.
  rewrite app_assoc in Hm. rewrite Hm at 1. rewrite slice_app by (rewrite ?(length_app _ (u32 _)), ?Hl1; done).
  rewrite encodable_decode by done.
  destruct (Z.ltb_spec u32_max (8 + Z.of_nat (length (encoded v)) + Z.of_nat (length (encoded k)))); [unfold u32_max in *; lia|].
  f_equal. rewrite log_end_snoc. unfold rec_size. cbn [fst snd]. lia.
Qed.
Lemma rebuild_step_tombstone d a c log k fuel : mapped d = a ++ rec_bytes (k, None) ++ c → length a = log_end log →
  rec_ok (k, None) → rebuild_loop (S fuel) (log_end log) d =
  rebuild_loop fuel (log_end (log ++ [(k, None)])) (replay_rec log (k, None) d).
Proof.
  intros Hm Ha [Hk _]. unfold rec_bytes in Hm. cbn [fst snd] in *. rewrite <- !app_assoc in Hm. cbn [rebuild_loop].
  pose proof (encoded_small k) as Hks.
  rewrite Hm at 1. rewrite read_u32_at by done. change (TOMBSTONE =? SENTINEL)%Z with false.
  change (TOMBSTONE =? TOMBSTONE)%Z with true. cbn iota. rewrite (app_assoc a) in Hm.
  assert (length (a ++ to_le_bytes 4 TOMBSTONE) = log_end log + 4) as Hl1 by (by rewrite length_app, le4_length, Ha).
  rewrite Hm at 1. rewrite read_u32_u32 by (done || lia). rewrite Nat2Z.id.
  rewrite app_assoc in Hm. rewrite Hm at 1. rewrite slice_app by (rewrite ?(length_app _ (u32 _)), ?Hl1; done).
  rewrite encodable_decode by done. f_equal. rewrite log_end_snoc. unfold rec_size. cbn [fst snd]. lia.
Qed.
Lemma rebuild_loop_spec slack rest : ∀ d log fuel, indexed d log → Forall rec_ok rest →
  mapped d = magic_bytes ++ log_bytes (log ++ rest) ++ sentinel_bytes ++ slack → length (log_bytes rest) ≤ fuel → ∃ d',
  rebuild_loop fuel (log_end log) d = (d', Ok (log_end (log ++ rest))) ∧ indexed d' (log ++ rest) ∧ replayed d d'.
Proof.
  induction rest as [|r rest IH]; intros d log fuel Hi Hok Hm Hf.
  - rewrite app_nil_r in *. exists d. split; [|done].
    assert (read_u32_le (mapped d) (log_end log) = Some SENTINEL) as Hr.
    { rewrite Hm, app_assoc. apply read_u32_at; [by rewrite length_app|done]. }
    destruct fuel; simpl; by rewrite Hr.
  - apply Forall_cons in Hok as [Hr Hok]. rewrite log_bytes_cons, length_app, rec_bytes_length in Hf.
    assert (8 ≤ rec_size r) as H8 by (unfold rec_size; lia). destruct fuel as [|fuel]; [lia|].
    assert (mapped d = (magic_bytes ++ log_bytes log) ++ rec_bytes r ++ log_bytes rest ++ sentinel_bytes ++ slack) as Hm'.
    { rewrite Hm, log_bytes_app, log_bytes_cons. by rewrite <- !app_assoc. }
    assert (length (magic_bytes ++ log_bytes log) = log_end log) as Hle by (by rewrite length_app).
    assert (rebuild_loop (S fuel) (log_end log) d = rebuild_loop fuel (log_end (log ++ [r])) (replay_rec log r d)) as ->.
    { destruct r as [k [v|]]; [by eapply rebuild_step_live|by eapply rebuild_step_tombstone]. }
    destruct (IH (replay_rec log r d) (log ++ [r]) fuel) as (d' & Hd' & Hi' & Hr').
    + by apply indexed_rec.
    + done.
    + by rewrite (replayed_mapped _ _ (replay_rec_file _ _ _)), Hm, <- app_assoc.
    + lia.
    + rewrite <- app_assoc in Hd', Hi'. exists d'. split_and!; [done|done|].
      eapply replayed_trans; [apply replay_rec_file|done].
Qed.

(** ** Compaction *)
Lemma slice_splice b c x b' off sz : splice b c x = Some b' → c + length x ≤ off → slice b' off sz = slice b off sz.
Proof using Type.
  intros Hs Ho. pose proof (splice_length _ _ _ _ Hs) as Hl. unfold slice. rewrite Hl.
  destruct (off + sz <=? length b)%nat; [|done]. f_equal. f_equal. unfold splice in Hs.
  destruct (Nat.leb_spec (c + length x) (length b)); [|done]. injection Hs as <-.
  rewrite app_assoc, drop_app_ge by (rewrite length_app, length_take; lia).
  rewrite drop_drop. f_equal. rewrite length_app, length_take. lia.
Qed.
Lemma take_splice b c x b' : splice b c x = Some b' → take (c + length x) b' = take c b ++ x.
Proof using Type.
  unfold splice. destruct (Nat.leb_spec (c + length x) (length b)); [|done]. intros [= <-].
  rewrite app_assoc, take_app_length' by (rewrite length_app, length_take; lia). done.
Qed.
Lemma take_slice b c n x : slice b c n = Some x → take (c + n) b = take c b ++ x ∧ length x = n.
Proof using Type.
  unfold slice. destruct (Nat.leb_spec (c + n) (length b)); [|done]. intros [= <-].
  rewrite length_take, length_drop. split; [|lia]. rewrite <- (take_take_drop b c n). done.
Qed.
(** The live records of a log, apart from each other. *)
Lemma log_end_app (l1 l2 : list Rec) : log_end (l1 ++ l2) = log_end l1 + length (log_bytes l2).
Proof using Type. unfold log_end. rewrite log_bytes_app, length_app. lia. Qed.
Lemma live_disjoint log j k m m' : live log j = Some m → live log k = Some m' → j ≠ k →
  m_offset m ≤ m_offset m' → m_offset m + m_size m ≤ m_offset m'.
Proof.
  intros Hj Hk Hne Hle.
  destruct (live_kv log j) as [[? _]|(l1 & v & l2 & Hl & Hj' & _)]; [congruence|].
  destruct (live_kv log k) as [[? _]|(l1' & v' & l2' & Hl' & Hk' & _)]; [congruence|].
  rewrite Hj in Hj'. rewrite Hk in Hk'. injection Hj' as ->. injection Hk' as ->. cbn [m_offset m_size] in *.
  rewrite Hl in Hl'. apply app_cons_split in Hl' as [(R & -> & ->)|[(-> & ? & ->)|(R & -> & ->)]].
  - rewrite log_end_app, log_bytes_cons, length_app, rec_bytes_length. lia.
  - simplify_eq.
  - rewrite log_end_app, log_bytes_cons, length_app, rec_bytes_length in Hle. unfold rec_size in Hle. lia.
Qed.
(** The entries of a snapshot, in the order of the file. *)
Fixpoint chain (cursor : nat) (R : list (K * EntryMeta)) : Prop :=
  match R with [] => True | (_, m) :: R => cursor ≤ m_offset m ∧ chain (m_offset m + m_size m) R end.
Lemma chain_mono c c' R : c' ≤ c → chain c R → chain c' R.
Proof using Type. destruct R as [|[k m] R]; simpl; [done|]. intros ? [? ?]. split; [lia|done]. Qed.
Lemma sorted_chain log R : StronglySorted (λ p q, by_offset p q = true) R → NoDup (map fst R) →
  Forall (λ p, live log p.1 = Some p.2) R → ∀ c, Forall (λ p, c ≤ m_offset p.2) R → chain c R.
Proof.
  induction 1 as [|[k m] R Hs IH HF]; [done|]. simpl. intros [Hk Hnd]%NoDup_cons [Hl HL]%Forall_cons c [Hc _]%Forall_cons.
  split; [done|]. apply IH; [done|done|]. rewrite Forall_forall in *. intros q Hq. specialize (HF q Hq).
  apply Nat.leb_le in HF. apply (live_disjoint log k q.1); [done|by apply HL| |done].
  intros ->. apply Hk. by apply list_elem_of_fmap_2.
Qed.
(** What the records of a snapshot are. *)
Definition recs_of (f : K → option V) (R : list (K * EntryMeta)) : list Rec := map (λ p, (p.1, f p.1)) R.
Definition record_at b (f : K → option V) (p : K * EntryMeta) : Prop := ∃ v, f p.1 = Some v ∧
  rec_ok (p.1, Some v) ∧ m_size p.2 = rec_size (p.1, Some v) ∧ slice b (m_offset p.2) (m_size p.2) = Some (rec_bytes (p.1, Some v)).
Definition moved d d' : Prop := kd_map d' = kd_map d ∧ length (kd_file d') = length (kd_file d) ∧
  kd_config d' = kd_config d ∧ kd_os d' = kd_os d.
(** The index half-way: new places for the records moved already. *)
Definition half_moved f g ix : Prop := ∀ j : K, bt_get j ix = match f j with Some m => Some m | None => g j end.
(** One move of the loop. *)
Lemma move_spec d n src len c x : kd_map d = Mapped n → n ≤ length (kd_file d) →
  slice (mapped d) src len = Some x → c ≤ src → ∃ d',
  (if (src =? c)%nat then Ok d else match copy_within (mapped d) src len c with
     | Some b => Ok (set_mapped b d) | None => Panic end : io KeyDir) = Ok d' ∧ same_but_file d d' ∧
  take (c + len) (mapped d') = take c (mapped d) ++ x ∧
  ∀ off sz, src + len ≤ off → slice (mapped d') off sz = slice (mapped d) off sz.
Proof using Type.
  intros Hm Hn Hx Hc. destruct (take_slice _ _ _ _ Hx) as [Ht Hlx]. destruct (Nat.eqb_spec src c) as [->|Hne].
  { exists d. by split_and!. }
  assert (length x + src ≤ length (mapped d)) as Hfit.
  { unfold slice in Hx. destruct (Nat.leb_spec (src + len) (length (mapped d))); [lia|done]. }
  assert (∃ b, splice (mapped d) c x = Some b) as [b Hb].
  { unfold splice. destruct (Nat.leb_spec (c + length x) (length (mapped d))); [by eexists|lia]. }
  rewrite (copy_store d src len c x Hx). destruct (store_ok d n c x b Hm Hn Hb) as (d' & -> & Hm' & Hsame).
  exists d'. split_and!; [done|done|..].
  - rewrite Hm', <- Hlx. by apply take_splice.
  - intros off sz Ho. rewrite Hm'. eapply slice_splice; [done|lia].
Qed.
Lemma record_at_after b b' f lo R : (∀ off sz, lo ≤ off → slice b' off sz = slice b off sz) → chain lo R →
  Forall (record_at b f) R → Forall (record_at b' f) R.
Proof using Type.
  intros Hs. assert (∀ lo', lo ≤ lo' → chain lo' R → Forall (record_at b f) R → Forall (record_at b' f) R) as Hx; [|by apply Hx].
  induction R as [|[k m] R IH]; intros lo' Hlo; [done|]. simpl. intros [Hc Hch] [Hr HR]%Forall_cons. constructor.
  - destruct Hr as (v & ? & ? & ? & Hsl). exists v. split_and!; try done. simpl in *. rewrite Hs by lia. done.
  - apply (IH (m_offset m + m_size m)); [lia|done|done].
Qed.
Lemma compact_loop_spec (f : K → option V) g n R : ∀ P d, kd_map d = Mapped n → n ≤ length (kd_file d) →
  take (log_end P) (mapped d) = magic_bytes ++ log_bytes P → chain (log_end P) R → NoDup (map fst R) →
  Forall (record_at (mapped d) f) R → NoDup (map fst (kd_index d)) → half_moved (live P) g (kd_index d) →
  Forall (λ p, live P p.1 = None ∧ g p.1 = Some p.2) R → ∃ d',
  compact_loop R (log_end P) d = Ok (d', log_end (P ++ recs_of f R)) ∧ moved d d' ∧
  take (log_end (P ++ recs_of f R)) (mapped d') = magic_bytes ++ log_bytes (P ++ recs_of f R) ∧
  NoDup (map fst (kd_index d')) ∧ half_moved (live (P ++ recs_of f R)) g (kd_index d') ∧
  total_size (kd_index d') = total_size (kd_index d).
Proof.
  induction R as [|[k m] R IH]; intros P d Hm Hn Ht Hc HndR HR Hnd Hix HRg.
  { exists d. simpl. rewrite app_nil_r. by split_and!. }
  destruct Hc as [Hc Hch]. apply Forall_cons in HR as [(v & Hv & Hok & Hsz & Hsl) HR].
  apply Forall_cons in HRg as [[Hlv Hg] HRg]. apply NoDup_cons in HndR as [HkR HndR]. cbn [fst snd m_offset m_size] in *.
  change (recs_of f ((k, m) :: R)) with ((k, f k) :: recs_of f R). cbn [compact_loop].
  destruct (move_spec d n _ _ (log_end P) _ Hm Hn Hsl Hc) as (d1 & -> & (I1 & M1 & C1 & S1 & D1 & O1 & L1) & T1 & K1).
  cbn [rbind]. set (d2 := set_index _ d1). rewrite Hv.
  assert (log_end P + m_size m = log_end (P ++ [(k, Some v)])) as Hend by (rewrite log_end_snoc, Hsz; done).
  assert (total_size (kd_index d2) = total_size (kd_index d)) as Htot.
  { simpl. rewrite I1. pose proof (total_insert k (mkMeta (log_end P) (m_size m)) (kd_index d) Hnd) as Hti.
    rewrite Hix, Hlv, Hg in Hti. simpl in Hti. lia. }
  replace (P ++ (k, Some v) :: recs_of f R) with ((P ++ [(k, Some v)]) ++ recs_of f R) by (by rewrite <- app_assoc).
  rewrite Hend. destruct (IH (P ++ [(k, Some v)]) d2) as (d' & -> & (M' & L' & C' & O') & T' & N' & X' & Tot').
  - simpl. congruence.
  - simpl. lia.
  - rewrite <- Hend. change (mapped d2) with (mapped d1). by rewrite T1, Ht, log_bytes_snoc, <- app_assoc.
  - rewrite <- Hend. eapply chain_mono; [|exact Hch]. lia.
  - done.
  - change (mapped d2) with (mapped d1). eapply record_at_after; [exact K1|exact Hch|exact HR].
  - simpl. rewrite I1. by apply hm_insert_nodup.
  - intros j. simpl. rewrite I1, hm_get_insert, live_snoc. simpl. rewrite Hsz. destruct (cmp j k); [done|apply Hix..].
  - rewrite Forall_forall in *. intros q Hq. destruct (HRg q Hq) as [Hq1 Hq2]. split; [|done].
    rewrite live_snoc. simpl. destruct (cmpP q.1 k) as [E|E E'|E E']; [|done..].
    destruct HkR. rewrite <- E. by apply list_elem_of_fmap_2.
  - exists d'. split_and!; [done| |done..|congruence]. unfold moved. simpl in *. split_and!; congruence.
Qed.

(** ** The store *)
Definition healthy d log : Prop := filed d log ∧ indexed d log.
(** The log a file holds, whatever became of the store. *)
Definition on_disk (file : list Z) log : Prop := Forall rec_ok log ∧ ∃ slack,
  file = magic_bytes ++ log_bytes log ++ sentinel_bytes ++ slack.
Lemma filed_on_disk d log : filed d log → on_disk (kd_file d) log.
Proof using Type.
  intros (slack & n & Hm & Hn & _ & _ & Hok). split; [done|]. exists (slack ++ drop n (kd_file d)).
  rewrite <- (take_drop n (kd_file d)) at 1. unfold mapped in Hm. rewrite Hn in Hm. rewrite Hm. by rewrite <- !app_assoc.
Qed.
Lemma resize_on_disk file log n : on_disk file log → log_end log + 4 ≤ n → on_disk (resize n file) log.
Proof using Type.
  intros [Hok [slack ->]] Hn. split; [done|].
  set (pre := magic_bytes ++ log_bytes log ++ sentinel_bytes).
  assert (length pre = log_end log + 4) as Hl.
  { unfold pre, log_end. rewrite !length_app. change (length magic_bytes) with HEADER_SIZE. change (length sentinel_bytes) with 4. lia. }
  replace (magic_bytes ++ log_bytes log ++ sentinel_bytes ++ slack) with (pre ++ slack) by (unfold pre; by rewrite <- !app_assoc).
  exists (resize (n - length pre) slack). unfold resize.
  rewrite take_app, (take_ge pre) by lia. rewrite length_app, Nat.sub_add_distr. unfold pre. by rewrite <- !app_assoc.
Qed.
(** A log of live records only stores what its keys map to. *)
Lemma kv_recs f (R : list (K * EntryMeta)) k : NoDup (map fst R) → Forall (λ p, is_Some (f p.1)) R →
  kv (recs_of f R) k = match bt_get k R with Some _ => f k | None => None end.
Proof.
  induction R as [|[j m] R IH] using rev_ind; [done|].
  unfold recs_of. rewrite !map_app, Forall_app, Forall_singleton. simpl. intros Hnd [HR [v Hv]]. simpl in Hv.
  apply NoDup_app in Hnd as (Hnd & Hj & _). rewrite kv_snoc. unfold kv_step. simpl. fold (recs_of f R). rewrite IH by done.
  destruct (cmpP k j) as [->|E E'|E E'].
  - assert (bt_get j R = None) as Hn.
    { apply bt_get_keys. intros Hin. apply (Hj j Hin). by left. }
    assert (bt_get j (R ++ [(j, m)]) = Some m) as ->; [|done]. clear -Hn H0.
    induction R as [|[i m'] R IH]; simpl in *; [by rewrite cmp_refl|]. destruct (cmp j i); [done|by apply IH..].
  - assert (bt_get k (R ++ [(j, m)]) = bt_get k R) as ->; [|done]. clear -E.
    induction R as [|[i m'] R IH]; simpl; [by rewrite E|]. destruct (cmp k i); [done|apply IH..].
  - assert (bt_get k (R ++ [(j, m)]) = bt_get k R) as ->; [|done]. clear -E.
    induction R as [|[i m'] R IH]; simpl; [by rewrite E|]. destruct (cmp k i); [done|apply IH..].
Qed.
Lemma total_size_perm ix ix' : ix ≡ₚ ix' → total_size ix = total_size ix'.
Proof using Type. induction 1; simpl; lia. Qed.
Lemma total_size_recs b f (R : list (K * EntryMeta)) : Forall (record_at b f) R →
  total_size R = length (log_bytes (recs_of f R)).
Proof using Type.
  induction 1 as [|[k m] R (v & Hv & _ & Hsz & _) HR IH]; [done|]. simpl in *. rewrite Hv.
  change (log_bytes ((k, Some v) :: recs_of f R)) with (rec_bytes (k, Some v) ++ log_bytes (recs_of f R)).
  rewrite length_app, rec_bytes_length, IH, Hsz. done.
Qed.
Lemma record_at_live d log p : filed d log → live log p.1 = Some p.2 → record_at (mapped d) (kv log) p.
Proof.
  intros Hf Hp. destruct (live_kv log p.1) as [[? _]|(l1 & v & l2 & Hl & Hm & Hv)]; [congruence|].
  rewrite Hp in Hm. injection Hm as Hm. exists v. destruct (filed_at d log l1 _ l2 Hf Hl) as (a & c & -> & Ha & Hok).
  split_and!; try done; rewrite Hm; [done|]. apply slice_app; [done|by rewrite rec_bytes_length].
Qed.
Lemma live_bound log k m : live log k = Some m → HEADER_SIZE ≤ m_offset m.
Proof.
  intros Hm. destruct (live_kv log k) as [[? _]|(l1 & v & l2 & _ & Hm' & _)]; [congruence|].
  rewrite Hm in Hm'. injection Hm' as ->. unfold log_end. cbn [m_offset]. lia.
Qed.
Lemma indexed_live d log : indexed d log → Forall (λ p, live log p.1 = Some p.2) (kd_index d).
Proof.
  intros (Hnd & Hix & _). apply Forall_forall. intros [k m] Hin. simpl. rewrite <- Hix. by apply nodup_get.
Qed.
(** The sweep of [compact], up to its sentinel. *)
Lemma sweep_spec d log n : healthy d log → kd_map d = Mapped n → n ≤ length (kd_file d) →
  let log' := recs_of (kv log) (sort_by by_offset (kd_index d)) in ∃ d',
  (r <-? compact_loop (sort_by by_offset (kd_index d)) HEADER_SIZE d ;;
   d' <-? store r.2 sentinel_bytes r.1 ;; Ok (d', r.2)) = Ok (d', log_end log') ∧
  moved d d' ∧ on_disk (take n (kd_file d')) log' ∧ NoDup (map fst (kd_index d')) ∧
  half_moved (live log') (live log) (kd_index d') ∧ total_size (kd_index d') = length (log_bytes log').
Proof.
  intros [Hf Hi] Hn Hle log'. pose proof (indexed_live d log Hi) as Hlive. pose proof Hi as (Hnd & Hix & Hdead).
  pose proof Hf as (slack & n' & Hmap & Hn' & _ & Hsize & Hok).
  set (R := sort_by by_offset (kd_index d)) in *.
  assert (R ≡ₚ kd_index d) as HR by apply sort_by_perm.
  assert (Forall (λ p, live log p.1 = Some p.2) R) as HRl by (by rewrite HR).
  assert (NoDup (map fst R)) as HndR by (by rewrite HR).
  assert (StronglySorted (λ p q, by_offset p q = true) R) as Hs.
  { apply sort_by_sorted; unfold by_offset; intros *; rewrite !Nat.leb_le; lia. }
  assert (Forall (record_at (mapped d) (kv log)) R) as Hrec.
  { eapply Forall_impl; [exact HRl|]. intros p. by apply record_at_live. }
  assert (total_size (kd_index d) = length (log_bytes log')) as Htot.
  { rewrite <- (total_size_perm _ _ HR). by eapply total_size_recs. }
  change HEADER_SIZE with (log_end ([] : list Rec)).
  destruct (compact_loop_spec (kv log) (live log) n R [] d) as (d1 & -> & (M1 & L1 & C1 & O1) & T1 & N1 & X1 & Tot1); try done.
  - by rewrite Hmap.
  - apply (sorted_chain log); try done. eapply Forall_impl; [exact HRl|]. intros p. apply live_bound.
  - eapply Forall_impl; [exact HRl|]. done.
  - change ([] ++ recs_of (kv log) R) with log' in *. cbn [rbind fst snd].
    assert (length (mapped d1) = length (mapped d)) as Hlm by (unfold mapped; rewrite M1, Hn, !length_take, L1; done).
    assert (log_end log' + 4 ≤ length (mapped d1)) as Hfit.
    { rewrite Hlm, Hmap, !length_app. unfold log_end. change (length magic_bytes) with HEADER_SIZE.
      change (length sentinel_bytes) with 4. lia. }
    assert (∃ b, splice (mapped d1) (log_end log') sentinel_bytes = Some b) as [b Hb].
    { unfold splice. change (length sentinel_bytes) with 4. destruct (Nat.leb_spec (log_end log' + 4) (length (mapped d1))); [by eexists|lia]. }
    destruct (store_ok d1 n (log_end log') sentinel_bytes b) as (d2 & -> & Hm2 & (I2 & M2 & C2 & _ & D2 & O2 & L2)); [congruence|lia|done|].
    exists d2. cbn [rbind]. split_and!; [done| | |by rewrite I2|by rewrite I2|by rewrite I2, Tot1].
    + unfold moved. split_and!; congruence.
    + assert (take n (kd_file d2) = b) as -> by (rewrite <- Hm2; unfold mapped; rewrite M2, M1, Hn; done). split.
      * unfold log', recs_of. apply Forall_fmap. eapply Forall_impl; [exact Hrec|].
        intros p (v & Hv & Hv' & _). simpl. by rewrite Hv.
      * pose proof (take_splice _ _ _ _ Hb) as Ht. rewrite T1 in Ht.
        exists (drop (log_end log' + length sentinel_bytes) b).
        rewrite <- (take_drop (log_end log' + length sentinel_bytes) b) at 1. rewrite Ht. by rewrite <- !app_assoc.
Qed.
Lemma on_disk_take n f log : on_disk (take n f) log → on_disk f log.
Proof using Type.
  intros [Hok [slack Hs]]. split; [done|]. exists (slack ++ drop n f). rewrite <- (take_drop n f) at 1. rewrite Hs.
  by rewrite <- !app_assoc.
Qed.
(** Resizing the file and mapping it anew. *)
Lemma remap_spec d log cap : on_disk (kd_file d) log → log_end log + 4 ≤ cap →
  let (d', o) := and_do (set_len cap (set_map Anon d)) (λ d _, map_file d) in
  on_disk (kd_file d') log ∧ same_store d d' ∧ kd_data_size d' = kd_data_size d ∧ o ≠ Panic ∧
  (kd_os d = [] → o = Ok tt ∧ kd_os d' = []) ∧
  (o = Ok tt → kd_map d' = Mapped (length (kd_file d')) ∧ length (kd_file d') = cap).
Proof using Type.
  intros Hd Hc. unfold set_len, map_file. pose proof (sys_spec (set_map Anon d)) as Hs.
  destruct (sys (set_map Anon d)) as [d1 o1]. destruct Hs as (I1 & M1 & F1 & C1 & S1 & D1 & P1 & E1).
  simpl in I1, M1, F1, C1, S1, D1, E1. destruct o1 as [[]|e|]; simpl; [|split_and!; try done; [by rewrite F1|by intros [_ ?]%E1]|done].
  set (d2 := set_file _ d1). pose proof (sys_spec d2) as Hs. destruct (sys d2) as [d3 o3].
  destruct Hs as (I3 & M3 & F3 & C3 & S3 & D3 & P3 & E3). simpl in I3, M3, F3, C3, S3, D3, E3.
  assert (on_disk (kd_file d3) log) as Hd3 by (rewrite F3, F1; by apply resize_on_disk).
  assert (same_store d d3) as Hs3 by (split_and!; congruence).
  destruct o3 as [[]|e|]; simpl; [| |done].
  - split_and!; try done; [congruence| |by rewrite F3, resize_length].
    intros Hos. split; [done|]. destruct (E1 Hos) as [E _]. subst d1. by destruct (E3 Hos) as [-> _].
  - split_and!; try done; [congruence|]. intros Hos. destruct (E1 Hos) as [E _]. subst d1. by destruct (E3 Hos) as [_ ?].
Qed.
(** [compact], whatever the system answers: it keeps what the log stores, and
    only a failing system call keeps it from leaving a smaller, whole store. *)
Lemma compact_spec d log : healthy d log → let (d', o) := kd_compact d in ∃ log',
  (∀ k, kv log' k = kv log k) ∧ on_disk (kd_file d') log' ∧ kd_config d' = kd_config d ∧ o ≠ Panic ∧
  (kd_os d = [] → o = Ok tt ∧ kd_os d' = []) ∧
  (o = Ok tt → healthy d' log' ∧ kd_dead_bytes d' = 0 ∧
    length (kd_file d') = Nat.max (log_end log' + 4) (initial_capacity (kd_config d))).
Proof.
  intros Hh. pose proof Hh as [Hf Hi]. pose proof Hi as (Hnd & Hix & Hdead). pose proof Hf as (_ & n & _ & Hn & Hle & _).
  unfold kd_compact. destruct (sweep_spec d log n Hh Hn Hle) as (d1 & -> & (M1 & L1 & C1 & O1) & Hdisk & N1 & X1 & Tot1).
  set (R := sort_by by_offset (kd_index d)) in *. set (log' := recs_of (kv log) R) in *.
  assert (R ≡ₚ kd_index d) as HR by apply sort_by_perm.
  assert (NoDup (map fst R)) as HndR by (by rewrite HR).
  assert (Forall (λ p, is_Some (kv log p.1)) R) as Hsome.
  { rewrite HR. eapply Forall_impl; [by apply indexed_live|]. intros p Hp. simpl in Hp.
    destruct (live_kv log p.1) as [[? _]|(_ & v & _ & _ & _ & ->)]; [congruence|done]. }
  assert (∀ k, kv log' k = kv log k) as Hkv.
  { intros k. unfold log'. rewrite kv_recs by done. rewrite (perm_get (kd_index d) R) by (done || by rewrite HR).
    rewrite Hix. destruct (live log k) eqn:E; [done|]. symmetry. by apply live_none. }
  set (d0 := set_stats (log_end log') 0 d1). pose proof (sys_spec d0) as Hs2.
  destruct (sys d0) as [d2 o2]. destruct Hs2 as (I2 & M2 & F2 & C2 & S2 & D2 & P2 & E2).
  simpl in I2, M2, F2, C2, S2, D2, E2. apply on_disk_take in Hdisk. rewrite <- F2 in Hdisk. rewrite O1 in E2.
  destruct o2 as [[]|e|]; cbn [and_do]; [|exists log'; split_and!; try done; [congruence|by intros [_ ?]%E2]|done].
  pose proof (remap_spec d2 log' (Nat.max (log_end log' + 4) (initial_capacity (kd_config d0))) Hdisk) as Hre.
  destruct (and_do _ _) as [d3 o3]. destruct Hre as (Hd3 & (I3 & C3 & D3) & S3 & P3 & E3 & Hok3); [lia|].
  exists log'. split_and!; try done; [congruence| |].
  { intros Hos. apply E3. destruct (E2 Hos) as [-> _]. unfold d0. simpl. congruence. }
  intros Ho. destruct (Hok3 Ho) as [Hm3 Hl3]. split_and!; [split|congruence|].
  - destruct Hd3 as [Hok [slack Hfile]]. exists slack, (length (kd_file d3)).
    split_and!; [|done|done|congruence|done]. unfold mapped. by rewrite Hm3, firstn_all.
  - unfold indexed. rewrite I3, I2. split_and!; [done| |rewrite D3, D2; done].
    intros k. rewrite X1. destruct (live log' k) eqn:E; [done|].
    apply live_none in E. rewrite Hkv in E. by apply live_none.
  - rewrite Hl3. unfold d0. simpl. by rewrite C1.
Qed.

(** ** Opening *)
(** Opening a file replays its log; the codec is all it needs. *)
Lemma open_spec file log config : on_disk file log → ∃ d,
  kd_open file config [] = Ok d ∧ healthy d log ∧ kd_config d = config ∧ kd_os d = [] ∧ kd_file d = file.
Proof.
  intros [Hok [slack Hfile]]. set (d0 := mkKeyDir ([] : list (K * EntryMeta)) (Mapped (length file)) file config 0 0 []).
  assert (mapped d0 = file) as Hm0 by apply firstn_all.
  change (kd_open file config []) with (opened match slice (mapped d0) 0 4 with
    | None => (d0, Panic)
    | Some magic => if (from_le_bytes magic =? MAGIC)%Z then rebuild_index d0 else (d0, Err InvalidData) end).
  assert (slice file 0 4 = Some magic_bytes) as Hs by (rewrite Hfile; by apply (slice_app [])). rewrite Hm0, Hs.
  assert ((from_le_bytes magic_bytes =? MAGIC)%Z = true) as -> by reflexivity. unfold rebuild_index.
  destruct (rebuild_loop_spec slack log (set_stats (kd_data_size d0) 0 d0) [] (length (mapped d0))) as (d1 & Hr & Hi & Hrep).
  - split_and!; [constructor|done|done].
  - done.
  - change (mapped (set_stats (kd_data_size d0) 0 d0)) with (mapped d0). by rewrite Hm0.
  - rewrite Hm0, Hfile, !length_app. lia.
  - change HEADER_SIZE with (log_end ([] : list Rec)). rewrite Hr. simpl.
    eexists. split; [done|]. pose proof Hrep as (M & F & C & S & O). simpl in M, F, C, S, O.
    split_and!; try done; [split; [|done]|done..]. exists slack, (length file). split_and!; [|done|by simpl; rewrite F|done|done].
    change (mapped (set_stats (log_end log) (kd_dead_bytes d1) d1)) with (mapped d1).
    rewrite (replayed_mapped _ _ Hrep). change (mapped (set_stats (kd_data_size d0) 0 d0)) with (mapped d0). by rewrite Hm0.
Qed.
End Replay.
