(* ===== verification/KeyDirBackend.v ===== *)
(** * KeyDir as a backend

    Each operation of the store against the log it leaves, whatever the system
    answers ([outcome]); with a system that does not fail, the store is a map
    that refuses the entries the codec refuses, across compactions and
    reopenings. *)
From stdpp Require Import base numbers option sorting list.
From Stdlib Require Import SpecFloat.
From S2P Require Import Prelude Bytes Order BTreeMap Backend MapBackend Engine Serdes Mmap KeyDir KeyDirLog KeyDirOps KeyDirReplay.
Import KeyDir.

Section Store.
Context {K V : Type} `{TotalCmp K} `{CK : Codec K} `{CV : Codec V} `{!LawfulCodec K, !LawfulCodec V}.
#[local] Abbreviation KeyDir := (KeyDir K).
#[local] Abbreviation Rec := (K * option V)%type.
#[local] Abbreviation op := (op K V).
#[local] Abbreviation answer := (answer V).
Implicit Types (d : KeyDir) (k j : K) (v : V) (r : Rec) (log : list Rec).

(** ** The log left by an operation *)
Definition holding (f : K → option V) log : Prop := ∀ k, kv log k = f k.
(** After a step that took [f] to [g]: a whole store when it went through,
    otherwise a file that still holds one or the other. *)
Definition outcome (f g : K → option V) d {A} (r : KeyDir * io A) (good : io A → Prop) : Prop :=
  let (d', o) := r in
  good o ∧ o ≠ Panic ∧ kd_config d' = kd_config d ∧ (kd_os d = [] → kd_os d' = []) ∧
  match o with
  | Ok _ => ∃ log', healthy d' log' ∧ holding g log'
  | _ => (∃ log', on_disk (kd_file d') log' ∧ (holding f log' ∨ holding g log')) ∧
         (kd_os d = [] → o = Err InvalidData ∧ ∃ log', healthy d' log' ∧ holding f log')
  end.
Lemma maybe_compact_spec d log : healthy d log → let (d', o) := maybe_compact d in ∃ log',
  (∀ k, kv log' k = kv log k) ∧ on_disk (kd_file d') log' ∧ kd_config d' = kd_config d ∧ o ≠ Panic ∧
  (kd_os d = [] → o = Ok tt ∧ kd_os d' = []) ∧ (o = Ok tt → healthy d' log').
Proof.
  intros Hh. pose proof (filed_on_disk d log (proj1 Hh)) as Hd. unfold maybe_compact.
  destruct (SFleb F64.one _). { exists log. by split_and!. }
  destruct (_ || _).
  - pose proof (compact_spec d log Hh) as Hc. destruct (kd_compact d) as [d' o].
    destruct Hc as (log' & Hkv & Hdisk & Hcfg & Hp & Hos & Hok).
    destruct o as [[]|e|]; cbn [and_do]; [|by exists log'; split_and!..].
    exists log'. split_and!; try done. intros _. by apply Hok.
  - exists log. by split_and!.
Qed.
(** What follows a record that was written. *)
Lemma settle d0 d log f g {A} (a : A) (good : io A → Prop) : healthy d log → holding g log →
  kd_config d = kd_config d0 → (kd_os d0 = [] → kd_os d = []) → good (Ok a) → (∀ e, kd_os d0 ≠ [] → good (Err e)) →
  outcome f g d0 (and_do (maybe_compact d) (λ d _, (d, Ok a))) good.
Proof.
  intros Hh Hg Hc Hos Ha He. pose proof (maybe_compact_spec d log Hh) as Hm. destruct (maybe_compact d) as [d' o].
  destruct Hm as (log' & Hkv & Hdisk & Hc' & Hp & Hos' & Hok). assert (holding g log') as Hg' by (intros k; by rewrite Hkv).
  destruct o as [[]|e|]; cbn [and_do outcome]; [| |done].
  - split_and!; [done|done|congruence| |]; [intros E; by destruct (Hos' (Hos E))|]. exists log'. split; [by apply Hok|done].
  - assert (kd_os d0 ≠ []) as Hne by (intros E; by destruct (Hos' (Hos E))).
    split_and!; [by apply He|done|congruence|done| |done]. exists log'. split; [done|by right].
Qed.
Lemma settle_unit d0 d log f g (good : io unit → Prop) : healthy d log → holding g log →
  kd_config d = kd_config d0 → (kd_os d0 = [] → kd_os d = []) → good (Ok tt) → (∀ e, kd_os d0 ≠ [] → good (Err e)) →
  outcome f g d0 (maybe_compact d) good.
Proof.
  intros. pose proof (settle d0 d log f g tt good) as Hs.
  replace (maybe_compact d) with (and_do (maybe_compact d) (λ d _, (d, Ok tt))); [by apply Hs|].
  by destruct (maybe_compact d) as [d' [[]|e|]].
Qed.

(** ** Writing and erasing an entry *)
Definition put_in (f : K → option V) k v : K → option V := λ j, match cmp j k with Eq => Some v | _ => f j end.
Definition del_in (f : K → option V) k : K → option V := λ j, match cmp j k with Eq => None | _ => f j end.
Lemma holding_put f log k v : holding f log → holding (put_in f k v) (log ++ [(k, Some v)]).
Proof using Type. intros Hf j. rewrite kv_snoc. unfold kv_step, put_in. simpl. by rewrite <- (Hf j). Qed.
Lemma holding_del f log k : holding f log → holding (del_in f k) (log ++ [(k, None)]).
Proof using Type. intros Hf j. rewrite kv_snoc. unfold kv_step, del_in. simpl. by rewrite <- (Hf j). Qed.

(** An entry written, indexed and settled; [after] is what the operation does
    to the index and the statistics. *)
Lemma write_settled d log f k v {A} (a : A) (after : EntryMeta → KeyDir → KeyDir) (good : io A → Prop) :
  healthy d log → holding f log →
  (∀ m d1, kd_index d1 = kd_index d → kd_dead_bytes d1 = kd_dead_bytes d → replayed d1 (after m d1) ∧
     kd_index (after m d1) = hm_insert k m (kd_index d) ∧
     kd_dead_bytes (after m d1) = kd_dead_bytes d + from_option m_size 0 (bt_get k (kd_index d))) →
  (accepts k v = true → good (Ok a)) → (∀ e, kd_os d ≠ [] → good (Err e)) → (accepts k v = false → good (Err InvalidData)) →
  outcome f (if accepts k v then put_in f k v else f) d
    (and_do (write_entry_into k v d) (λ d m, and_do (maybe_compact (after m d)) (λ d _, (d, Ok a)))) good.
Proof.
  intros [Hfi Hin] Hf Hafter Ha He Hr. pose proof (write_entry_spec d log k v Hfi) as Hw.
  destruct (write_entry_into k v d) as [d1 o]. destruct Hw as ((I1 & C1 & D1) & Hp & Hos & Ho).
  destruct o as [m|e|]; cbn [and_do]; [| |done].
  - destruct Ho as (Hacc & -> & Hf1). rewrite Hacc. set (m := mkMeta _ _).
    destruct (Hafter m d1 I1 D1) as (Hrep & Hi & Hd). pose proof Hrep as (M & F & C & S & O).
    apply (settle d (after m d1) (log ++ [(k, Some v)])); [split| |congruence|intros E; rewrite O; by apply Hos|by apply Ha|done].
    + destruct Hf1 as (slack & n & Hm1 & Hn & Hle & Hs & Hok). exists slack, n. rewrite (replayed_mapped _ _ Hrep), M, F, S.
      by split_and!.
    + by eapply indexed_put.
    + by apply holding_put.
  - destruct Ho as [Hf1 Hno]. assert (indexed d1 log) as Hi1 by (unfold indexed; by rewrite I1, D1).
    assert (kd_os d = [] → e = InvalidData ∧ accepts k v = false) as Hinv by (intros E; by destruct (Hno E) as [[=->] ?]).
    cbn [outcome]. split_and!; [|done|done|done| |].
    + destruct (decide (kd_os d = [])) as [E|E]; [|by apply He]. destruct (Hinv E) as [-> ?]. by apply Hr.
    + exists log. split; [by apply filed_on_disk|by left].
    + intros E. destruct (Hinv E) as [-> _]. split; [done|]. by exists log.
Qed.
Lemma after_place k m d d1 : kd_index d1 = kd_index d → kd_dead_bytes d1 = kd_dead_bytes d →
  replayed d1 (place k m d1) ∧ kd_index (place k m d1) = hm_insert k m (kd_index d) ∧
  kd_dead_bytes (place k m d1) = kd_dead_bytes d + from_option m_size 0 (bt_get k (kd_index d)).
Proof using Type.
  intros I D. split; [apply replay_entry_file|]. unfold place, replay_entry. rewrite I.
  destruct (bt_get k (kd_index d)); simpl; rewrite ?I, ?D; split; (done || lia).
Qed.
Lemma after_vacant k m d d1 : bt_get k (kd_index d) = None → kd_index d1 = kd_index d → kd_dead_bytes d1 = kd_dead_bytes d →
  replayed d1 (set_index (hm_insert k m (kd_index d1)) d1) ∧ kd_index (set_index (hm_insert k m (kd_index d1)) d1) = hm_insert k m (kd_index d) ∧
  kd_dead_bytes (set_index (hm_insert k m (kd_index d1)) d1) = kd_dead_bytes d + from_option m_size 0 (bt_get k (kd_index d)).
Proof using Type. intros E I D. rewrite E. simpl. rewrite ?I, ?D. split_and!; (done || lia). Qed.
Lemma after_occupied k m old d d1 : bt_get k (kd_index d) = Some old → kd_index d1 = kd_index d → kd_dead_bytes d1 = kd_dead_bytes d →
  let d2 := set_index (hm_insert k m (kd_index d1)) (add_dead (m_size old) d1) in
  replayed d1 d2 ∧ kd_index d2 = hm_insert k m (kd_index d) ∧
  kd_dead_bytes d2 = kd_dead_bytes d + from_option m_size 0 (bt_get k (kd_index d)).
Proof using Type. intros E I D. rewrite E. simpl. rewrite ?I, ?D. split_and!; done. Qed.

(** An entry erased. *)
Lemma erase_settled d d0 log f k old {A} (a : A) (good : io A → Prop) (after : KeyDir → KeyDir) :
  healthy d log → holding f log → bt_get k (kd_index d) = Some old →
  kd_map d0 = kd_map d → kd_file d0 = kd_file d → kd_config d0 = kd_config d → kd_data_size d0 = kd_data_size d →
  kd_os d0 = kd_os d → kd_dead_bytes d0 = kd_dead_bytes d + m_size old →
  (∀ d1, kd_index d1 = kd_index d0 → replayed d1 (after d1) ∧ kd_index (after d1) = bt_remove k (kd_index d) ∧
     kd_dead_bytes (after d1) = kd_dead_bytes d1) →
  good (Ok a) → (∀ e, kd_os d ≠ [] → good (Err e)) →
  outcome f (del_in f k) d
    (and_do (write_tombstone_into old d0) (λ d _, and_do (maybe_compact (after d)) (λ d _, (d, Ok a)))) good.
Proof.
  intros [Hfi Hin] Hf Hold M0 F0 C0 S0 O0 D0 Hafter Ha He.
  assert (filed d0 log) as Hf0.
  { destruct Hfi as (slack & n & Hm1 & Hn & Hle & Hs & Hok). exists slack, n. unfold mapped in *. rewrite M0, F0, S0. by split_and!. }
  pose proof Hin as (_ & Hix & _). pose proof Hold as Hlive. rewrite Hix in Hlive.
  destruct (live_kv log k) as [[? _]|(l1 & v & l2 & Hl & Hlive' & Hv)]; [congruence|].
  rewrite Hlive in Hlive'. injection Hlive' as ->.
  pose proof (write_tombstone_spec d0 log l1 k v l2 Hf0 Hl) as Hw.
  destruct (write_tombstone_into _ d0) as [d1 o]. destruct Hw as (I1 & C1 & Hp & Hos & Ho). rewrite O0 in Hos.
  destruct o as [[]|e|]; cbn [and_do]; [| |done].
  - destruct Ho as [D1 Hf1]. destruct (Hafter d1 I1) as (Hrep & Hi & Hd). pose proof Hrep as (M & F & C & S & O).
    apply (settle d (after d1) (log ++ [(k, None)])); [split| |congruence|intros E; rewrite O; by apply Hos|done|done].
    + destruct Hf1 as (slack & n & Hm1 & Hn & Hle & Hs & Hok). exists slack, n. rewrite (replayed_mapped _ _ Hrep), M, F, S.
      by split_and!.
    + eapply indexed_del; [exact Hin|done|]. rewrite Hd, D1, D0, Hold. done.
    + by apply holding_del.
  - destruct Ho as [_ Hf1]. assert (kd_os d ≠ []) as Hne by (intros E; by destruct (Hos E)).
    cbn [outcome]. split_and!; [by apply He|done|congruence|done| |done].
    exists log. split; [by apply filed_on_disk|by left].
Qed.

(** ** The operations *)
Definition answered {X} (f : X → answer) (p : KeyDir * io X) : KeyDir * io answer := (p.1, rmap f p.2).
Definition kd_step (o : op) d : KeyDir * io answer :=
  match o with
  | Put k v => answered (λ _, Done) (kd_put k v d)
  | PutIfAbsent k v => answered Flag (kd_put_if_absent k v d)
  | Replace k v => answered Previous (kd_replace k v d)
  | Delete k => answered Flag (kd_delete k d)
  | Update k f => answered (λ _, Done) (kd_update k f d)
  | Clear => answered (λ _, Done) (kd_clear d)
  end.
Definition kd_insert k v (m : btree K V) (a : answer) : btree K V * io answer :=
  if accepts k v then (bt_insert k v m, Ok a) else (m, Err InvalidData).
Lemma answered_unit {B} (w : KeyDir * io B) F (g : unit → answer) :
  answered g (and_do w (λ d m, maybe_compact (F m d))) =
  and_do w (λ d m, and_do (maybe_compact (F m d)) (λ d _, (d, Ok (g tt)))).
Proof using Type. destruct w as [d [b|e|]]; try done. simpl. by destruct (maybe_compact (F b d)) as [d' [[]|e|]]. Qed.
Lemma answered_val {B X} (w : KeyDir * io B) F (g : X → answer) (a : X) :
  answered g (and_do w (λ d m, and_do (maybe_compact (F m d)) (λ d _, (d, Ok a)))) =
  and_do w (λ d m, and_do (maybe_compact (F m d)) (λ d _, (d, Ok (g a)))).
Proof using Type. destruct w as [d [b|e|]]; try done. simpl. by destruct (maybe_compact (F b d)) as [d' [[]|e|]]. Qed.

(** The store holds the map. *)
Definition stores d (m : btree K V) : Prop := ∃ log, healthy d log ∧ holding (λ k, bt_get k m) log.
Lemma unchanged d log f {A} (a : A) (good : io A → Prop) : healthy d log → holding f log → good (Ok a) →
  outcome f f d (d, Ok a) good.
Proof using Type. intros Hh Hf Ha. split_and!; try done. by exists log. Qed.
Lemma outcome_ext f g g' d {A} (p : KeyDir * io A) good : (∀ k, g k = g' k) → outcome f g d p good → outcome f g' d p good.
Proof using Type.
  intros Hg. destruct p as [d' o]. unfold outcome. intros (H1 & H2 & H3 & H4 & H5). split_and!; try done.
  assert (∀ log, holding g log → holding g' log) as Hgg by (intros log Hl k; by rewrite <- Hg).
  destruct o as [a|e|]; [|destruct H5 as [(log & Hd & [Hl|Hl]) H5]..].
  - destruct H5 as (log & Hh & Hl). exists log. split; [done|by apply Hgg].
  - split; [|done]. exists log. split; [done|by left].
  - split; [|done]. exists log. split; [done|right; by apply Hgg].
  - split; [|done]. exists log. split; [done|by left].
  - split; [|done]. exists log. split; [done|right; by apply Hgg].
Qed.
Definition agrees (q : io answer) d (r : io answer) : Prop := kd_os d = [] → r = q.
Lemma insert_outcome d log (m : btree K V) k v a (after : EntryMeta → KeyDir → KeyDir) : healthy d log →
  holding (λ j, bt_get j m) log →
  (∀ e d1, kd_index d1 = kd_index d → kd_dead_bytes d1 = kd_dead_bytes d → replayed d1 (after e d1) ∧
     kd_index (after e d1) = hm_insert k e (kd_index d) ∧
     kd_dead_bytes (after e d1) = kd_dead_bytes d + from_option m_size 0 (bt_get k (kd_index d))) →
  let q := kd_insert k v m a in
  outcome (λ j, bt_get j m) (λ j, bt_get j q.1) d
    (and_do (write_entry_into k v d) (λ d e, and_do (maybe_compact (after e d)) (λ d _, (d, Ok a)))) (agrees q.2 d).
Proof.
  intros Hh Hf Hafter. unfold kd_insert. eapply outcome_ext; [|apply (write_settled d log (λ j, bt_get j m)); try done].
  - intros j. destruct (accepts k v); [|done]. unfold put_in. simpl.
    destruct (cmpP j k) as [->|E E'|E E']; [by rewrite bt_get_insert|..]; rewrite bt_get_insert_ne; try done.
    + by apply cmp_Lt_ne.
    + by apply not_eq_sym, cmp_Lt_ne.
  - intros ->. done.
  - intros e Hne E. done.
  - intros ->. done.
Qed.
Lemma remove_ext k (m : btree K V) j : del_in (λ j, bt_get j m) k j = bt_get j (bt_remove k m).
Proof.
  unfold del_in. destruct (cmpP j k) as [->|E E'|E E']; [by rewrite bt_get_remove|..]; rewrite bt_get_remove_ne; try done.
  - by apply cmp_Lt_ne.
  - by apply not_eq_sym, cmp_Lt_ne.
Qed.
Lemma remove_none_ext k (m : btree K V) j : bt_get k m = None → bt_get j m = bt_get j (bt_remove k m).
Proof.
  intros Hn. destruct (cmpP j k) as [->|E E'|E E']; [by rewrite bt_get_remove|..]; rewrite bt_get_remove_ne; try done.
  - by apply cmp_Lt_ne.
  - by apply not_eq_sym, cmp_Lt_ne.
Qed.
(** The index entry of a key, against the map. *)
Lemma index_cases d log (m : btree K V) k : healthy d log → holding (λ j, bt_get j m) log →
  (bt_get k (kd_index d) = None ∧ bt_get k m = None) ∨
  (∃ old v, bt_get k (kd_index d) = Some old ∧ bt_get k m = Some v ∧ read_value d old = Ok v ∧ decode_value d old = Ok v).
Proof.
  intros [Hfi (_ & Hix & _)] Hf. rewrite Hix. destruct (live log k) as [old|] eqn:E.
  - right. destruct (read_value_spec d log k old Hfi E) as (v & Hv & Hr & Hd & _). exists old, v.
    split_and!; try done. rewrite <- Hv. symmetry. apply (Hf k).
  - left. split; [done|]. apply live_none in E. rewrite <- E. symmetry. apply (Hf k).
Qed.
(** The magic and the sentinel of an empty log. *)
Lemma format_spec d n : kd_map d = Mapped n → n ≤ length (kd_file d) → 8 ≤ length (mapped d) →
  kd_index d = [] → kd_data_size d = HEADER_SIZE → kd_dead_bytes d = 0 → ∃ d',
  or_panic (store 0 magic_bytes d) d (λ d, or_panic (store HEADER_SIZE sentinel_bytes d) d (λ d, (d, Ok tt))) = (d', Ok tt) ∧
  healthy d' [] ∧ kd_config d' = kd_config d ∧ kd_os d' = kd_os d.
Proof.
  intros Hn Hle H8 Hi Hs Hd.
  assert (∃ b, splice (mapped d) 0 (magic_bytes ++ sentinel_bytes) = Some b) as [b Hb].
  { unfold splice. change (0 + length (magic_bytes ++ sentinel_bytes)) with 8.
    destruct (Nat.leb_spec 8 (length (mapped d))); [by eexists|lia]. }
  destruct (store_ok d n 0 _ b Hn Hle Hb) as (d2 & Hst & Hm2 & I & M & C & S & D & O & L).
  pose proof (store_bind d n 0 magic_bytes sentinel_bytes Hn Hle) as Hbind. rewrite Hst in Hbind.
  destruct (store 0 magic_bytes d) as [d1|e|]; [|done..]. cbn [rbind or_panic] in *.
  change (0 + length magic_bytes) with HEADER_SIZE in Hbind. rewrite Hbind. exists d2.
  split_and!; try done. split.
  - exists (drop 8 b), n. rewrite Hm2, M, S, L. split_and!; try done.
    pose proof (take_splice _ _ _ _ Hb) as Ht. change (0 + length (magic_bytes ++ sentinel_bytes)) with 8 in Ht.
    rewrite <- (take_drop 8 b) at 1. by rewrite Ht.
  - unfold indexed. rewrite I, D, Hi, Hd. split_and!; [constructor|done|done].
Qed.
Lemma clear_spec d log : healthy d log → ∃ d', kd_clear d = (d', Ok tt) ∧ healthy d' [] ∧
  kd_config d' = kd_config d ∧ kd_os d' = kd_os d.
Proof.
  intros [(slack & n & Hmap & Hn & Hle & Hsize & Hok) _].
  apply (format_spec (set_stats HEADER_SIZE 0 (set_index [] d)) n); try done.
  change (8 ≤ length (mapped d)). rewrite Hmap, !length_app. change (length magic_bytes) with 4.
  change (length sentinel_bytes) with 4. lia.
Qed.
Lemma step_outcome (o : op) d (m : btree K V) log : healthy d log → holding (λ k, bt_get k m) log →
  let q := map_step kd_insert o m in
  outcome (λ k, bt_get k m) (λ k, bt_get k q.1) d (kd_step o d) (agrees q.2 d).
Proof.
  intros Hh Hf. pose proof Hh as [_ (_ & Hix & _)]. destruct o as [k v|k v|k v|k|k f|]; cbn [kd_step map_step].
  - unfold kd_put. rewrite (answered_unit _ (place k)). apply (insert_outcome d log); try done. intros e d1. apply after_place.
  - unfold kd_put_if_absent, bt_contains. destruct (index_cases d log m k Hh Hf) as [[E1 E2]|(old & w & E1 & E2 & _)];
      rewrite E1, E2; cbn [is_some].
    + rewrite (answered_val _ (λ e d, set_index (hm_insert k e (kd_index d)) d)).
      apply (insert_outcome d log); try done. intros e d1. by apply after_vacant.
    + by apply (unchanged d log).
  - unfold kd_replace. destruct (index_cases d log m k Hh Hf) as [[E1 E2]|(old & w & E1 & E2 & _ & Hd)]; rewrite E1, E2.
    + rewrite (answered_val _ (λ e d, set_index (hm_insert k e (kd_index d)) d)).
      apply (insert_outcome d log); try done. intros e d1. by apply after_vacant.
    + rewrite Hd. rewrite (answered_val _ (λ e d, set_index (hm_insert k e (kd_index d)) (add_dead (m_size old) d))).
      apply (insert_outcome d log); try done. intros e d1. by apply after_occupied.
  - unfold kd_delete, bt_contains. destruct (index_cases d log m k Hh Hf) as [[E1 E2]|(old & w & E1 & E2 & _)]; rewrite E1, E2.
    + eapply outcome_ext; [intros j; by apply remove_none_ext|]. by apply (unchanged d log).
    + eapply outcome_ext; [intros j; apply remove_ext|].
      rewrite (answered_val _ (λ _ d, d)). apply (erase_settled d _ log _ k old _ _ id); try done.
      intros e Hne E. by destruct Hne.
  - unfold kd_update. destruct (index_cases d log m k Hh Hf) as [[E1 E2]|(old & w & E1 & E2 & _ & Hd)]; rewrite E1, E2.
    + destruct (f None) as [v|].
      * rewrite (answered_unit _ (λ e d, set_index (hm_insert k e (kd_index d)) d)).
        apply (insert_outcome d log); try done. intros e d1. by apply after_vacant.
      * eapply outcome_ext; [intros j; by apply remove_none_ext|]. by apply (unchanged d log).
    + rewrite Hd. destruct (f (Some w)) as [v|].
      * rewrite (answered_unit _ (λ e d, set_index (hm_insert k e (kd_index d)) (add_dead (m_size old) d))).
        apply (insert_outcome d log); try done. intros e d1. by apply after_occupied.
      * eapply outcome_ext; [intros j; apply remove_ext|].
        rewrite (answered_unit _ (λ _ d, set_index (bt_remove k (kd_index d)) d)).
        apply (erase_settled d _ log _ k old _ _ (λ d, set_index (bt_remove k (kd_index d)) d)); try done.
        -- intros d1 I1. simpl. rewrite I1. done.
        -- intros e Hne E. by destruct Hne.
  - destruct (clear_spec d log Hh) as (d' & -> & Hh' & Hc & Ho). split_and!; try done; [by simpl; rewrite Ho|].
    exists []. split; [done|]. done.
Qed.
End Store.
