(* ===== verification/KeyDirStore.v ===== *)
(** * KeyDir's properties

    Runs of a store with a system that works, one operation with a system that
    may not, and compaction; the instances make KeyDir a backend the clients'
    theorems apply to. *)
From stdpp Require Import base numbers option sorting list.
From Stdlib Require Import SpecFloat.
From S2P Require Import Prelude Bytes Order BTreeMap Backend MapBackend Engine Serdes Mmap KeyDir KeyDirLog KeyDirOps KeyDirReplay KeyDirBackend.
Import KeyDir.

Section Store.
Context {K V : Type} `{TotalCmp K} `{CK : Codec K} `{CV : Codec V} `{!LawfulCodec K, !LawfulCodec V}.
#[local] Abbreviation KeyDir := (KeyDir K).
#[local] Abbreviation Rec := (K * option V)%type.
#[local] Abbreviation answer := (answer V).
Implicit Types (d : KeyDir) (k j : K) (v : V) (log : list Rec) (m : btree K V).

(** ** Reads *)
Lemma get_stores d m k : stores d m → kd_get d k = Ok (bt_get k m).
Proof.
  intros (log & Hh & Hf). unfold kd_get. destruct (index_cases d log m k Hh Hf) as [[-> ->]|(old & v & -> & -> & -> & _)]; done.
Qed.
Lemma contains_stores d m k : stores d m → kd_contains d k = bt_contains k m.
Proof.
  intros (log & Hh & Hf). unfold kd_contains, bt_contains.
  by destruct (index_cases d log m k Hh Hf) as [[-> ->]|(old & v & -> & -> & _)].
Qed.
Lemma keys_stores d m : stores d m → bt_wf m → kd_keys d ≡ₚ bt_keys m.
Proof.
  intros Hs Hm. pose proof Hs as (log & [_ (Hnd & Hix & _)] & Hf). apply NoDup_Permutation; [done|by apply bt_keys_NoDup|].
  intros k. pose proof (contains_stores d m k Hs) as Hc. unfold kd_contains, bt_contains in Hc. unfold kd_keys, bt_keys.
  destruct (bt_get k (kd_index d)) as [e|] eqn:E1, (bt_get k m) as [v|] eqn:E2; try done.
  - apply bt_get_In in E1, E2. split; intros _; apply list_elem_of_fmap; by eexists (k, _).
  - apply bt_get_keys in E1. split; [done|]. intros Hin. apply list_elem_of_fmap in Hin as ([k' v] & -> & Hin).
    apply (bt_In_get _ _ _ Hm) in Hin. simpl in *. congruence.
Qed.
Lemma read_all_spec d m ix : (∀ k e, (k, e) ∈ ix → ∃ v, read_value d e = Ok v ∧ bt_get k m = Some v) →
  ∃ l, read_all d ix = Ok l ∧ map fst l = map fst ix ∧ Forall (λ p, bt_get p.1 m = Some p.2) l.
Proof using Type.
  induction ix as [|[k e] ix IH]; intros Hix; [by exists []|].
  destruct (Hix k e) as (v & Hr & Hv); [by left|]. destruct IH as (l & Hl & Hk & HF).
  { intros k' e' Hin. apply Hix. by right. }
  exists ((k, v) :: l). simpl. rewrite Hr. simpl. rewrite Hl. simpl. rewrite Hk. split_and!; [done..|by constructor].
Qed.
Lemma entries_stores d m : stores d m → bt_wf m → ∃ l, kd_entries d = Ok l ∧ l ≡ₚ m.
Proof.
  intros Hs Hm. pose proof Hs as (log & Hh & Hf). pose proof (proj2 Hh) as (Hnd & Hix & _).
  destruct (read_all_spec d m (kd_index d)) as (l & Hl & Hk & HF).
  { intros k e Hin. apply (nodup_get _ _ _ Hnd) in Hin.
    destruct (index_cases d log m k Hh Hf) as [[? _]|(old & v & Hold & Hv & Hr & _)]; [congruence|].
    exists v. split; [|done]. congruence. }
  exists l. split; [exact Hl|]. assert (NoDup (map fst l)) as Hndl by (by rewrite Hk).
  assert (map fst l ≡ₚ bt_keys m) as Hkp by (rewrite Hk; by apply keys_stores).
  apply NoDup_Permutation.
  - by apply (NoDup_fmap_1 fst).
  - apply (NoDup_fmap_1 fst). by apply bt_keys_NoDup.
  - intros [k v]. rewrite Forall_forall in HF. split.
    + intros Hin. apply bt_get_In. by apply (HF (k, v)).
    + intros Hin. assert (k ∈ map fst l) as Hkl.
      { rewrite Hkp. apply list_elem_of_fmap. by exists (k, v). }
      apply list_elem_of_fmap in Hkl as ([k' w] & -> & Hin'). pose proof (HF _ Hin') as Hw. simpl in *.
      apply (bt_In_get _ _ _ Hm) in Hin. congruence.
Qed.
Lemma size_stores d m : stores d m → bt_wf m → kd_size d = length m.
Proof.
  intros Hs Hm. pose proof (Permutation_length (keys_stores d m Hs Hm)) as Hl. unfold kd_keys, bt_keys in Hl.
  by rewrite !length_map in Hl.
Qed.

Lemma stores_os os d m : stores d m → stores (set_os os d) m.
Proof using Type. by destruct d. Qed.

(** ** Runs *)
Inductive kop := Op (o : op K V) | Compact | Reopen.
Definition kd_run_step (o : kop) d : KeyDir * io answer :=
  match o with
  | Op o => kd_step o d
  | Compact => answered (λ _, Done) (kd_compact d)
  | Reopen =>
      match kd_open (kd_drop d) (kd_config d) [] with
      | Ok d => (d, Ok Done)
      | Err e => (d, Err e)
      | Panic => (d, Panic)
      end
  end.
Definition kd_spec_step (o : kop) m : btree K V * io answer :=
  match o with Op o => map_step kd_insert o m | Compact | Reopen => (m, Ok Done) end.
Lemma spec_wf o m : bt_wf m → bt_wf (kd_spec_step o m).1.
Proof.
  intros Hm. destruct o as [o| |]; [|done..]. assert (∀ k v a, bt_wf (kd_insert k v m a).1) as Hi.
  { intros k v a. unfold kd_insert. destruct (accepts k v); [by apply bt_wf_insert|done]. }
  destruct o; simpl; try done; try apply Hi.
  - by destruct (bt_contains k m).
  - by apply bt_wf_remove.
  - destruct (f _); [apply Hi|by apply bt_wf_remove].
Qed.
Lemma spec_refused (o : op K V) m e : (map_step kd_insert o m).2 = Err e → (map_step kd_insert o m).1 = m.
Proof using Type.
  assert (∀ k v a, (kd_insert k v m a).2 = Err e → (kd_insert k v m a).1 = m) as Hi.
  { intros k v a. unfold kd_insert. by destruct (accepts k v). }
  destruct o; simpl; try done; try apply Hi.
  - destruct (bt_contains k m); [done|apply Hi].
  - destruct (f _); [apply Hi|done].
Qed.
Lemma create_spec config : 8 ≤ initial_capacity config → ∃ d,
  kd_create config [] = Ok d ∧ stores d [] ∧ kd_os d = [] ∧ kd_config d = config.
Proof.
  intros Hc. set (f := resize (initial_capacity config) []).
  set (d0 := mkKeyDir ([] : list (K * EntryMeta)) (Mapped (length f)) f config HEADER_SIZE 0 []).
  assert (length (mapped d0) = initial_capacity config) as Hl.
  { change (mapped d0) with (take (length f) f). rewrite firstn_all. apply resize_length. }
  destruct (format_spec d0 (length f)) as (d & Hd & Hh & Hcfg & Hos); try done; [lia|].
  exists d. split_and!; try done; [|by exists []].
  change (kd_create config []) with (opened (or_panic (store 0 magic_bytes d0) d0 (λ d,
    or_panic (store HEADER_SIZE sentinel_bytes d) d (λ d, (d, Ok tt))))). by rewrite Hd.
Qed.
Lemma create_room config d : kd_create config [] = Ok d → 8 ≤ initial_capacity config.
Proof using Type.
  set (f := resize (initial_capacity config) []).
  set (d0 := mkKeyDir ([] : list (K * EntryMeta)) (Mapped (length f)) f config HEADER_SIZE 0 []).
  change (kd_create config []) with (opened (or_panic (store 0 magic_bytes d0) d0 (λ d,
    or_panic (store HEADER_SIZE sentinel_bytes d) d (λ d, (d, Ok tt))))).
  pose proof (store_bind d0 (length f) 0 magic_bytes sentinel_bytes eq_refl ltac:(done)) as Hs.
  destruct (store 0 magic_bytes d0) as [d1|e|]; [|done..]. cbn [or_panic rbind] in *.
  change (store HEADER_SIZE sentinel_bytes d1) with (store (0 + length magic_bytes) sentinel_bytes d1). rewrite Hs.
  unfold store. change (mapped d0) with (take (length f) f). rewrite firstn_all. unfold splice.
  destruct (Nat.leb_spec (0 + length (magic_bytes ++ sentinel_bytes)) (length f)) as [Hl|]; [|done].
  intros _. unfold f in Hl. rewrite resize_length in Hl. exact Hl.
Qed.
Lemma create_blank config d : kd_create config [] = Ok d → on_disk (kd_file d) ([] : list Rec).
Proof.
  intros Hd. pose proof (create_room config d Hd) as Hc. set (f := resize (initial_capacity config) []).
  set (d0 := mkKeyDir ([] : list (K * EntryMeta)) (Mapped (length f)) f config HEADER_SIZE 0 []).
  assert (length (mapped d0) = initial_capacity config) as Hl.
  { change (mapped d0) with (take (length f) f). rewrite firstn_all. apply resize_length. }
  destruct (format_spec (V:=V) d0 (length f)) as (d' & Hd' & [Hf _] & _); try done; [lia|].
  change (kd_create config []) with (opened (or_panic (store 0 magic_bytes d0) d0 (λ d,
    or_panic (store HEADER_SIZE sentinel_bytes d) d (λ d, (d, Ok tt))))) in Hd. rewrite Hd' in Hd.
  injection Hd as <-. by apply filed_on_disk.
Qed.
Lemma reopen_stores file log m config : on_disk file log → holding (λ k, bt_get k m) log → ∃ d,
  kd_open file config [] = Ok d ∧ stores d m ∧ kd_os d = [] ∧ kd_config d = config.
Proof.
  intros Hd Hf. destruct (open_spec file log config Hd) as (d & Ho & Hh & Hc & Hos & _). exists d.
  split_and!; try done. by exists log.
Qed.
Lemma drop_file d : kd_drop d = kd_file d.
Proof using Type. unfold kd_drop, kd_flush. pose proof (sys_spec d) as Hs. destruct (sys d) as [d' o]. apply Hs. Qed.
Lemma run_step_agree o d m : stores d m → kd_os d = [] →
  let (d', r) := kd_run_step o d in let (m', q) := kd_spec_step o m in
  r = q ∧ r ≠ Panic ∧ stores d' m' ∧ kd_os d' = [] ∧ kd_config d' = kd_config d.
Proof.
  intros (log & Hh & Hf) Hos. destruct o as [o| |]; cbn [kd_run_step kd_spec_step].
  - pose proof (step_outcome o d m log Hh Hf) as Ho. pose proof (spec_refused o m) as Hre. cbn zeta in Ho.
    destruct (map_step kd_insert o m) as [m' q], (kd_step o d) as [d' r]. destruct Ho as (Ha & Hp & Hc & Hos' & Ho).
    simpl in *. specialize (Ha Hos). subst q. split_and!; try done; [|by apply Hos'].
    destruct r as [a|e|]; [by destruct Ho as (log' & ? & ?); exists log'| |done].
    destruct Ho as [_ Ho]. destruct (Ho Hos) as (_ & log' & Hh' & Hf'). rewrite (Hre e) by done. by exists log'.
  - pose proof (compact_spec d log Hh) as Hc. destruct (kd_compact d) as [d' o].
    destruct Hc as (log' & Hkv & _ & Hcfg & Hp & Hos' & Hok). destruct (Hos' Hos) as [-> Hos2]. simpl.
    split_and!; try done. exists log'. split; [by apply Hok|]. intros k. rewrite Hkv. apply Hf.
  - rewrite drop_file. destruct (reopen_stores (kd_file d) log m (kd_config d)) as (d' & -> & Hs & Ho & Hc);
      [by apply filed_on_disk, Hh|done|]. by split_and!.
Qed.
Lemma run_agree_kd ops : ∀ d m, stores d m → kd_os d = [] → bt_wf m →
  let (d', rs) := run_ops kd_run_step ops d in let (m', qs) := run_ops kd_spec_step ops m in
  rs = qs ∧ (Panic ∉ rs) ∧ stores d' m' ∧ bt_wf m'.
Proof.
  induction ops as [|o ops IH]; intros d m Hs Hos Hm; simpl; [split_and!; [done|apply not_elem_of_nil|done|done]|].
  pose proof (run_step_agree o d m Hs Hos) as Ha. pose proof (spec_wf o m Hm) as Hw.
  destruct (kd_run_step o d) as [d1 r], (kd_spec_step o m) as [m1 q]. destruct Ha as (-> & Hp & Hs1 & Hos1 & _).
  specialize (IH d1 m1 Hs1 Hos1 Hw). destruct (run_ops kd_run_step ops d1) as [d2 rs], (run_ops kd_spec_step ops m1) as [m2 qs].
  destruct IH as (-> & Hnp & Hs2 & Hw2). split_and!; try done. by apply not_elem_of_cons.
Qed.

(** ** The contract *)
#[export] Instance keydir_backend : Backend KeyDir K V := {|
  get d k := or_else None (kd_get d k);
  contains d k := kd_contains d k;
  entries d := or_else [] (kd_entries d);
  size d := kd_size d;
  put k v d := kd_put k v d;
  delete k d := kd_delete k d;
  clear d := kd_clear d;
|}.
#[export] Instance keydir_durable : Durable KeyDir := {|
  compact d := kd_compact d; flush d := kd_flush d; sync d := kd_sync d |}.
Definition kd_wf d : Prop := kd_os d = [] ∧ ∃ m, bt_wf m ∧ stores d m.
Lemma kd_get_wf d m k : stores d m → get d k = bt_get k m.
Proof. intros Hs. cbn. by rewrite (get_stores d m). Qed.
Lemma get_all_same d d' m m' j : stores d m → stores d' m' → bt_get j m' = bt_get j m → get d' j = get d j.
Proof. intros Hs Hs' E. by rewrite (kd_get_wf d m), (kd_get_wf d' m'). Qed.
#[export] Instance keydir_laws : BackendLaws KeyDir K V.
Proof.
  refine {| backend_wf := kd_wf |}.
  - intros d k (_ & m & Hm & Hs). rewrite (kd_get_wf d m) by done. cbn.
    destruct (entries_stores d m Hs Hm) as (l & -> & Hl). simpl. symmetry. apply perm_get; [|by symmetry].
    by apply bt_keys_NoDup.
  - intros d (_ & m & Hm & Hs). unfold keys. cbn. destruct (entries_stores d m Hs Hm) as (l & -> & Hl). simpl.
    rewrite Hl. by apply bt_keys_NoDup.
  - intros d (_ & m & Hm & Hs). cbn. destruct (entries_stores d m Hs Hm) as (l & -> & Hl). simpl.
    by rewrite Hl, (size_stores d m).
  - intros d k (_ & m & Hm & Hs). rewrite (kd_get_wf d m) by done. cbn. by rewrite (contains_stores d m).
  - intros k v d (Hos & m & Hm & Hs). change (put k v d) with (kd_put k v d).
    pose proof (run_step_agree (Op (Put k v)) d m Hs Hos) as Ha. pose proof (spec_wf (Op (Put k v)) m Hm) as Hw.
    simpl in Ha, Hw. unfold kd_insert in *. destruct (kd_put k v d) as [d' r], (accepts k v); simpl in Ha, Hw.
    all: destruct Ha as (Hr & _ & Hs' & Hos' & _); split_and!; [split; [done|eexists; split; [exact Hw|exact Hs']]|by intros ->|..].
    all: destruct r as [[]|e|]; try done.
    + intros j Hj. apply (get_all_same d d' m _ j Hs Hs'). by apply bt_get_insert_ne.
    + rewrite (kd_get_wf d' _ k Hs'). apply bt_get_insert.
    + intros j Hj. by apply (get_all_same d d' m _ j Hs Hs').
    + by apply (get_all_same d d' m _ k Hs Hs').
  - intros k d (Hos & m & Hm & Hs). change (delete k d) with (kd_delete k d).
    pose proof (run_step_agree (Op (Delete k)) d m Hs Hos) as Ha. pose proof (spec_wf (Op (Delete k)) m Hm) as Hw.
    simpl in Ha, Hw. destruct (kd_delete k d) as [d' r]. destruct Ha as (Hr & _ & Hs' & Hos' & _). simpl in Hr.
    destruct r as [b|e|]; [|done..]. simpl in Hr. injection Hr as ->.
    split_and!; [split; [done|eexists; split; [exact Hw|exact Hs']]|done|..].
    + intros j Hj. apply (get_all_same d d' m _ j Hs Hs'). by apply bt_get_remove_ne.
    + rewrite (kd_get_wf d m) by done. done.
    + rewrite (kd_get_wf d' _ k Hs'). apply bt_get_remove.
  - intros d (Hos & m & Hm & Hs). change (clear d) with (kd_clear d).
    pose proof (run_step_agree (Op Clear) d m Hs Hos) as Ha. simpl in Ha. destruct (kd_clear d) as [d' r].
    destruct Ha as (Hr & _ & Hs' & Hos' & _). split_and!; [split; [done|by exists []]|by destruct r|].
    destruct r as [[]|e|]; try done. intros j. by rewrite (kd_get_wf d' _ j Hs').
Defined.
#[export] Instance keydir_durable_laws : DurableLaws KeyDir K V.
Proof.
  constructor.
  - intros d (Hos & m & Hm & Hs). pose proof (run_step_agree Compact d m Hs Hos) as Ha. simpl in Ha. cbn.
    destruct (kd_compact d) as [d' r]. destruct Ha as (Hr & _ & Hs' & Hos' & _).
    split_and!; [split; [done|by exists m]|by destruct r|]. intros k. by rewrite !(get_stores _ m).
  - intros d (Hos & m & Hm & Hs). cbn. unfold kd_flush. rewrite (sys_ok d Hos). split_and!; [split; [done|by exists m]|done|done].
  - intros d (Hos & m & Hm & Hs). cbn. unfold kd_sync. rewrite (sys_ok d Hos). split_and!; [split; [done|by exists m]|done|done].
Qed.
(** Without system errors, what the codecs encode is written. *)
Lemma keydir_reliable : reliable (B:=KeyDir) (λ (k : K) (v : V), accepts k v = true) backend_wf.
Proof.
  intros d (Hos & m & Hm & Hs). split; [|split].
  - intros k v Hkv. pose proof (run_step_agree (Op (Put k v)) d m Hs Hos) as Ha.
    change (put k v d) with (kd_put k v d). simpl in Ha. unfold kd_insert in Ha. rewrite Hkv in Ha.
    destruct (kd_put k v d) as [d' [[]|e|]]; simpl in Ha; destruct Ha as (Hr & _); done.
  - intros k. pose proof (run_step_agree (Op (Delete k)) d m Hs Hos) as Ha. change (delete k d) with (kd_delete k d).
    simpl in Ha. destruct (kd_delete k d) as [d' [b|e|]]; simpl in Ha; destruct Ha as (Hr & _); done.
  - cbn. unfold kd_sync. by rewrite (sys_ok d Hos).
Qed.

(** ** Properties *)
Lemma stores_accounts d m : stores d m → kd_data_size d = HEADER_SIZE + kd_dead_bytes d + total_size (kd_index d).
Proof using Type.
  intros (log & [(_ & _ & _ & _ & _ & -> & _) (_ & _ & Hd)] & _). unfold log_end. rewrite <- Hd. lia.
Qed.
(** The compaction threshold is reached. *)
Definition due d : bool :=
  let threshold := compaction_ratio (kd_config d) in
  negb (SFleb F64.one threshold) &&
  (SFeqb threshold F64.zero
   || SFleb threshold (F64.div (F64.of_u64 (Z.of_nat (kd_dead_bytes d))) (F64.of_u64 (Z.of_nat (kd_data_size d))))).
Lemma maybe_compact_due d log d' : healthy d log → maybe_compact d = (d', Ok tt) → kd_dead_bytes d' = 0 ∨ due d' = false.
Proof.
  intros Hh Hm. unfold maybe_compact in Hm. destruct (SFleb F64.one _) eqn:E1.
  { injection Hm as <-. right. unfold due. by rewrite E1. }
  destruct (_ || _) eqn:E2.
  - left. pose proof (compact_spec d log Hh) as Hc. destruct (kd_compact d) as [d1 o]. destruct Hc as (log' & _ & _ & _ & _ & _ & Hok).
    destruct o as [[]|e|]; try done. injection Hm as <-. by destruct (Hok eq_refl) as (_ & ? & _).
  - right. injection Hm as <-. unfold due. by rewrite E1, E2.
Qed.

(** C9. A KeyDir refines a map that refuses the entries the codec refuses.  From a
    new file with room for the header, any sequence of writes, compactions and
    reopenings gives the map's answers and never panics; the store then reads
    as the map, entry by entry and as a whole, and the bytes of its file are
    those of the live records and the dead bytes it counts. *)
Theorem keydir_refines (config : KeyDirConfig) (ops : list kop) : 8 ≤ initial_capacity config → ∃ d0,
  kd_create config [] = Ok d0 ∧
  let (d, answers) := run_ops kd_run_step ops d0 in
  let (m, expected) := run_ops kd_spec_step ops ([] : btree K V) in
  answers = expected ∧ (Panic ∉ answers) ∧ bt_wf m ∧ kd_size d = length m ∧
  (∀ k, kd_get d k = Ok (bt_get k m) ∧ kd_contains d k = bt_contains k m) ∧
  (∃ l, kd_entries d = Ok l ∧ l ≡ₚ m) ∧
  kd_data_size d = HEADER_SIZE + kd_dead_bytes d + total_size (kd_index d).
Proof.
  intros Hc. destruct (create_spec config Hc) as (d0 & Hd0 & Hs0 & Hos & _). exists d0. split; [done|].
  pose proof (run_agree_kd ops d0 [] Hs0 Hos I) as Hr. destruct (run_ops kd_run_step ops d0) as [d answers].
  destruct (run_ops kd_spec_step ops []) as [m expected]. destruct Hr as (Heq & Hnp & Hs & Hw).
  split_and!; try done.
  - by apply size_stores.
  - intros k. by rewrite (get_stores d m), (contains_stores d m).
  - by apply entries_stores.
  - by eapply stores_accounts.
Qed.

(** C16. One operation while system calls may fail.  It never panics; when it
    reports success the store holds the new contents; when it reports an error
    the file, opened again, holds the contents before the operation or those
    after it, nothing in between. *)
Theorem keydir_faults (o : op K V) (d : KeyDir) (m : btree K V) : stores d m →
  let (m', _) := map_step kd_insert o m in
  let (d', r) := kd_step o d in
  r ≠ Panic ∧ (is_ok r = true → stores d' m') ∧
  (is_ok r = false → ∃ d2, kd_open (kd_drop d') (kd_config d') [] = Ok d2 ∧ (stores d2 m ∨ stores d2 m')).
Proof.
  intros (log & Hh & Hf). pose proof (step_outcome o d m log Hh Hf) as Ho. cbn zeta in Ho.
  destruct (map_step kd_insert o m) as [m' q], (kd_step o d) as [d' r]. destruct Ho as (_ & Hp & _ & _ & Ho).
  split; [done|]. destruct r as [a|e|]; [| |done]; split; try done; intros _.
  destruct Ho as [(log' & Hd & [Hl|Hl]) _]; rewrite drop_file;
    destruct (reopen_stores _ log' _ (kd_config d') Hd Hl) as (d2 & Ho2 & Hs2 & _); exists d2; (split; [done|]);
    [by left|by right].
Qed.

(** C19. Compaction keeps every entry, leaves no dead byte and cuts the file down
    to the live records (or the initial capacity); and a [put] that goes
    through leaves the dead bytes at zero or their share below the threshold. *)
Theorem keydir_compaction (d : KeyDir) (m : btree K V) : stores d m →
  (kd_os d = [] → let (d', r) := kd_compact d in
    r = Ok tt ∧ stores d' m ∧ kd_dead_bytes d' = 0 ∧ kd_data_size d' = HEADER_SIZE + total_size (kd_index d') ∧
    length (kd_file d') = Nat.max (kd_data_size d' + 4) (initial_capacity (kd_config d))) ∧
  (∀ k v d', kd_put k v d = (d', Ok tt) → kd_dead_bytes d' = 0 ∨ due d' = false).
Proof.
  intros (log & Hh & Hf). split.
  - intros Hos. pose proof (compact_spec d log Hh) as Hc. destruct (kd_compact d) as [d' r].
    destruct Hc as (log' & Hkv & _ & _ & _ & Hos' & Hok). destruct (Hos' Hos) as [-> _].
    destruct (Hok eq_refl) as (Hh' & Hdead & Hlen).
    assert (stores d' m) as Hs' by (exists log'; split; [done|]; intros k; rewrite Hkv; apply Hf).
    split_and!; try done.
    + rewrite (stores_accounts d' m Hs'), Hdead. lia.
    + rewrite Hlen. by destruct (proj1 Hh') as (_ & _ & _ & _ & _ & -> & _).
  - intros k v d'. unfold kd_put. pose proof (write_entry_spec d log k v (proj1 Hh)) as Hw.
    destruct (write_entry_into k v d) as [d1 o]. destruct o as [e|e|]; cbn [and_do]; [|done..].
    destruct Hw as ((I1 & C1 & D1) & _ & _ & Hacc & -> & Hf1).
    apply (maybe_compact_due _ (log ++ [(k, Some v)])). destruct (after_place k (mkMeta (log_end log) (rec_size (k, Some v))) d d1 I1 D1) as (Hrep & Hi & Hd).
    split; [|by eapply indexed_put; [exact (proj2 Hh)|..]].
    destruct Hf1 as (slack & n & Hm1 & Hn & Hle & Hs & Hok). pose proof Hrep as (M & F & C & S & O).
    exists slack, n. rewrite (replayed_mapped _ _ Hrep), M, F, S. by split_and!.
Qed.
End Store.
