(* ===== verification/BPlusPages.v ===== *)
(** * The B+ tree's pages: [zendb-storage/src/backend/btree.rs]

    The tree lives in 4096-byte pages of a memory-mapped file, the list of its
    bytes; [bp_map] and [bp_os] are as in [KeyDir.v].  Page numbers and offsets
    are naturals, stored counters integers.  Every access goes through a slice
    of a page: out of range it panics, and so does a subtraction below zero
    (in a release build it wraps, and the slice it computes is out of range).
    This file has the pages, the meta page, the freelist and extents. *)
From stdpp Require Import base numbers option list.
From Stdlib Require Import SpecFloat.
From S2P Require Import Prelude Bytes Mmap Backend.

Module Pages.
Definition PAGE_SIZE : nat := N.to_nat 4096.
Definition HEADER_SIZE : nat := 16.
Definition LEAF_HEADER_SIZE : nat := 24.
Definition SLOT_SIZE : nat := 2.
Definition MAGIC : Z := 0x5450425B.
Definition META_PAGE : nat := 0.
Definition PAGE_LEAF : Z := 1.
Definition PAGE_INTERNAL : Z := 2.
Definition FLAG_ROOT : Z := 1.
Definition META_ROOT : nat := 4.
Definition META_FREE_HEAD : nat := 12.
Definition META_PAGES : nat := 20.
Definition META_ENTRIES : nat := 28.
Definition META_RIGHTMOST_LEAF : nat := 36.
Definition META_LEAF_PAGES : nat := 44.
Definition META_LEAF_ENTRY_BYTES : nat := 52.
Definition META_FREE_PAGES : nat := 60.
Definition OVFL_FLAG : Z := 0x80000000.
Definition MAX_INLINE : nat := PAGE_SIZE - LEAF_HEADER_SIZE - SLOT_SIZE - 6.
Definition page_offset (page : nat) : nat := page * PAGE_SIZE.

(** ** Reads and writes of a byte slice *)
Definition get_bytes (b : list Z) (off n : nat) : io (list Z) :=
  match slice b off n with Some bs => Ok bs | None => Panic end.
Definition get (n : nat) (b : list Z) (off : nat) : io Z := rmap from_le_bytes (get_bytes b off n).
(** [rd_u16(..) as usize], [rd_u32(..) as usize] and [rd_u64(..)] of a page number. *)
Definition get16 (b : list Z) (off : nat) : io nat := rmap Z.to_nat (get 2 b off).
Definition get32 (b : list Z) (off : nat) : io nat := rmap Z.to_nat (get 4 b off).
Definition get64 (b : list Z) (off : nat) : io nat := rmap Z.to_nat (get 8 b off).
Definition put_bytes (b : list Z) (off : nat) (bs : list Z) : io (list Z) :=
  match splice b off bs with Some b => Ok b | None => Panic end.
Definition put (n : nat) (b : list Z) (off : nat) (v : Z) : io (list Z) := put_bytes b off (to_le_bytes n v).
Definition put16 (b : list Z) (off v : nat) : io (list Z) := put 2 b off (Z.of_nat v).
Definition put32 (b : list Z) (off v : nat) : io (list Z) := put 4 b off (Z.of_nat v).
Definition put64 (b : list Z) (off v : nat) : io (list Z) := put 8 b off (Z.of_nat v).
(** [a - b] on [usize]. *)
Definition checked_sub (a b : nat) : io nat := if (a <? b)%nat then Panic else Ok (a - b).
Definition div_ceil (n d : nat) : nat := (n + d - 1) / d.
Fixpoint each {A B} (f : A → io B) (l : list A) : io (list B) :=
  match l with [] => Ok [] | a :: l => b <-? f a ;; bs <-? each f l ;; Ok (b :: bs) end.

(** ** State *)
Record BPlusTreeConfig := mkConfig { initial_capacity_pages : nat; compaction_ratio : F64.f64 }.
Definition DEFAULT_COMPACTION_RATIO : F64.f64 := F64.div F64.one (F64.of_u64 2).
Definition DEFAULT_INITIAL_CAPACITY_PAGES : nat := N.to_nat 4096.
Definition BPlusTreeConfig_default : BPlusTreeConfig := mkConfig DEFAULT_INITIAL_CAPACITY_PAGES DEFAULT_COMPACTION_RATIO.
Record BPlusTreeStats := mkStats {
  st_entries : Z;
  st_pages : nat;
  st_free_pages : Z;
  st_leaf_pages : Z;
  st_leaf_entry_bytes : Z }.
Record BPlusTree := mkTree {
  bp_map : Mapping;
  bp_file : list Z;
  bp_config : BPlusTreeConfig;
  bp_stats : BPlusTreeStats;
  bp_os : list (option io_error) }.
Implicit Types (t : BPlusTree) (p page : nat).
Abbreviation step A := (BPlusTree * io A)%type.

Definition set_map m t := mkTree m (bp_file t) (bp_config t) (bp_stats t) (bp_os t).
Definition set_file f t := mkTree (bp_map t) f (bp_config t) (bp_stats t) (bp_os t).
Definition set_stats s t := mkTree (bp_map t) (bp_file t) (bp_config t) s (bp_os t).
Definition set_os o t := mkTree (bp_map t) (bp_file t) (bp_config t) (bp_stats t) o.

(** A read in a step: a panic leaves the tree as it is. *)
Definition reading {A B} (r : io A) t (f : A → step B) : step B :=
  match r with Ok a => f a | Err e => (t, Err e) | Panic => (t, Panic) end.
Notation "'let*' t , x := m 'in' k" := (and_then m (λ t x, k))
  (at level 200, t name, x name, m at level 100, k at level 200) : zen_scope.
Notation "'let*' t , '_' := m 'in' k" := (and_then m (λ t _, k))
  (at level 200, t name, m at level 100, k at level 200) : zen_scope.
Notation "'let!' x := r 'from' t 'in' k" := (reading r t (λ x, k))
  (at level 200, x name, r at level 100, k at level 200) : zen_scope.
Local Open Scope zen_scope.

(** ** The mapping and its pages *)
Definition mapped t : list Z := match bp_map t with Mapped n => take n (bp_file t) | Anon => [0%Z] end.
Definition set_mapped b t : BPlusTree :=
  match bp_map t with Mapped n => set_file (b ++ drop n (bp_file t)) t | Anon => t end.
Definition store (off : nat) (bs : list Z) t : step unit :=
  match splice (mapped t) off bs with Some b => (set_mapped b t, Ok tt) | None => (t, Panic) end.
Definition page_bytes t p : io (list Z) := get_bytes (mapped t) (page_offset p) PAGE_SIZE.
(** A block that takes [page_bytes_mut(p)] and writes to it. *)
Definition edit p (f : list Z → io (list Z)) t : step unit :=
  let! buf := page_bytes t p from t in
  let! buf := f buf from t in
  store (page_offset p) buf t.
(** Chains and descents visit each page at most once. *)
Definition fuel_of t : nat := length (mapped t).

(** ** System calls *)
Definition sys t : step unit :=
  match bp_os t with
  | [] => (t, Ok tt)
  | None :: os => (set_os os t, Ok tt)
  | Some e :: os => (set_os os t, Err e)
  end.
Definition map_file t : step unit :=
  let* t, _ := sys t in (set_map (Mapped (length (bp_file t))) t, Ok tt).
Definition set_len n t : step unit :=
  let* t, _ := sys t in (set_file (resize n (bp_file t)) t, Ok tt).

(** ** The meta page *)
Definition meta_page t (field : nat) : io nat := buf <-? page_bytes t META_PAGE ;; get64 buf field.
Definition set_meta (field : nat) (v : Z) t : step unit := edit META_PAGE (λ meta, put 8 meta field v) t.
Definition root t : io nat := meta_page t META_ROOT.
Definition set_root p t : step unit := set_meta META_ROOT (Z.of_nat p) t.
Definition rightmost_leaf t : io nat := meta_page t META_RIGHTMOST_LEAF.
Definition set_rightmost_leaf p t : step unit := set_meta META_RIGHTMOST_LEAF (Z.of_nat p) t.
Definition free_head t : io nat := meta_page t META_FREE_HEAD.
Definition set_free_head p t : step unit := set_meta META_FREE_HEAD (Z.of_nat p) t.
Definition pages_counter t : io nat := meta_page t META_PAGES.

Definition with_entries n s := mkStats n (st_pages s) (st_free_pages s) (st_leaf_pages s) (st_leaf_entry_bytes s).
Definition with_pages n s := mkStats (st_entries s) n (st_free_pages s) (st_leaf_pages s) (st_leaf_entry_bytes s).
Definition with_free n s := mkStats (st_entries s) (st_pages s) n (st_leaf_pages s) (st_leaf_entry_bytes s).
Definition with_leaves n s := mkStats (st_entries s) (st_pages s) (st_free_pages s) n (st_leaf_entry_bytes s).
Definition with_bytes n s := mkStats (st_entries s) (st_pages s) (st_free_pages s) (st_leaf_pages s) n.

Definition set_pages_counter (n : nat) t : step unit :=
  let* t, _ := set_meta META_PAGES (Z.of_nat n) t in (set_stats (with_pages n (bp_stats t)) t, Ok tt).
Definition write_entries (n : Z) t : step unit :=
  let* t, _ := set_meta META_ENTRIES n t in (set_stats (with_entries n (bp_stats t)) t, Ok tt).
Definition inc_entries (d : Z) t : step unit :=
  let! meta := page_bytes t META_PAGE from t in
  let! cur := get 8 meta META_ENTRIES from t in
  write_entries ((cur + d) mod two64)%Z t.
Definition dec_entries t : step unit :=
  let! meta := page_bytes t META_PAGE from t in
  let! cur := get 8 meta META_ENTRIES from t in
  write_entries ((cur - 1) mod two64)%Z t.
Definition write_leaf_pages (n : Z) t : step unit :=
  let* t, _ := set_meta META_LEAF_PAGES n t in (set_stats (with_leaves n (bp_stats t)) t, Ok tt).
Definition inc_leaf_pages t : step unit := write_leaf_pages (st_leaf_pages (bp_stats t) + 1) t.
Definition dec_leaf_pages t : step unit := write_leaf_pages (Z.max 0 (st_leaf_pages (bp_stats t) - 1)) t.
Definition write_leaf_entry_bytes (n : Z) t : step unit :=
  let* t, _ := set_meta META_LEAF_ENTRY_BYTES n t in (set_stats (with_bytes n (bp_stats t)) t, Ok tt).
Definition add_leaf_entry_bytes (d : nat) t : step unit :=
  write_leaf_entry_bytes (Z.min u64_max (st_leaf_entry_bytes (bp_stats t) + Z.of_nat d)) t.
Definition sub_leaf_entry_bytes (d : nat) t : step unit :=
  write_leaf_entry_bytes (Z.max 0 (st_leaf_entry_bytes (bp_stats t) - Z.of_nat d)) t.
Definition write_free_pages (n : Z) t : step unit :=
  let* t, _ := set_meta META_FREE_PAGES n t in (set_stats (with_free n (bp_stats t)) t, Ok tt).
Definition inc_free_pages t : step unit := write_free_pages (st_free_pages (bp_stats t) + 1) t.
Definition dec_free_pages t : step unit := write_free_pages (Z.max 0 (st_free_pages (bp_stats t) - 1)) t.

Definition refresh_stats_from_meta t : step unit :=
  let! meta := page_bytes t META_PAGE from t in
  let! entries := get 8 meta META_ENTRIES from t in
  let! pages := get64 meta META_PAGES from t in
  let! leaf_pages := get 8 meta META_LEAF_PAGES from t in
  let! bytes := get 8 meta META_LEAF_ENTRY_BYTES from t in
  let! free := get 8 meta META_FREE_PAGES from t in
  (set_stats (mkStats entries pages free leaf_pages bytes) t, Ok tt).

(** [fragmentation_ratio]. *)
Definition fragmentation_ratio t : F64.f64 :=
  let s := bp_stats t in
  let allocated := Z.max 0 (Z.of_nat (st_pages s) - 1) in
  if (allocated =? 0)%Z then F64.zero else
  let capacity := Z.of_nat (PAGE_SIZE - LEAF_HEADER_SIZE) in
  let packed := if (st_leaf_entry_bytes s =? 0)%Z then 1%Z
                else ((st_leaf_entry_bytes s + capacity - 1) / capacity)%Z in
  let reclaimable := Z.max 0 (st_leaf_pages s - packed) in
  F64.div (F64.of_u64 (st_free_pages s + reclaimable)) (F64.of_u64 allocated).

(** ** Allocation *)
Definition ensure_capacity (target : nat) t : step unit :=
  let current := length (mapped t) in
  if (target <=? current)%nat then (t, Ok tt) else
  let* t, _ := set_len (Nat.max (current * 2) target) t in map_file t.

Definition alloc_page t : step nat :=
  let! free := free_head t from t in
  if negb (free =? 0)%nat then
    let! buf := page_bytes t free from t in
    let! next := get64 buf 0 from t in
    let* t, _ := set_free_head next t in
    let* t, _ := dec_free_pages t in (t, Ok free)
  else
    let! p := pages_counter t from t in
    let* t, _ := ensure_capacity ((p + 1) * PAGE_SIZE) t in
    let* t, _ := set_pages_counter (p + 1) t in (t, Ok p).
Definition free_page page t : step unit :=
  let! head := free_head t from t in
  let* t, _ := edit page (λ buf, put64 buf 0 head) t in
  let* t, _ := set_free_head page t in inc_free_pages t.

(** The inner loop of [alloc_extent_from_freelist]: how far the run that
    starts the chain at [last] descends, page by page. *)
Fixpoint extent_run (fuel : nat) t (run_len last : nat) : io (nat * nat) :=
  match fuel with
  | O => Ok (run_len, last)
  | S fuel =>
      buf <-? page_bytes t last ;; next <-? get64 buf 0 ;;
      if (next =? 0)%nat || negb (next + 1 =? last)%nat then Ok (run_len, last)
      else extent_run fuel t (run_len + 1) next
  end.
Fixpoint extent_scan (fuel : nat) (n_pages : nat) (prev : option nat) (cur : nat) t : step (option nat) :=
  match fuel with
  | O => (t, Ok None)
  | S fuel =>
      if (cur =? 0)%nat then (t, Ok None) else
      let! run := extent_run (n_pages - 1) t 1 cur from t in
      let! buf := page_bytes t run.2 from t in
      let! after := get64 buf 0 from t in
      if (run.1 =? n_pages)%nat then
        let* t, _ := match prev with
                     | Some p => edit p (λ buf, put64 buf 0 after) t
                     | None => set_free_head after t
                     end in
        let* t, _ := write_free_pages (Z.max 0 (st_free_pages (bp_stats t) - Z.of_nat n_pages)) t in
        (t, Ok (Some run.2))
      else
        let! buf := page_bytes t cur from t in
        let! next := get64 buf 0 from t in
        extent_scan fuel n_pages (Some cur) next t
  end.
Definition alloc_extent_from_freelist (n_pages : nat) t : step (option nat) :=
  if (n_pages =? 0)%nat then (t, Ok None) else
  if (n_pages =? 1)%nat then
    let! free := free_head t from t in
    if (free =? 0)%nat then (t, Ok None) else
    let! buf := page_bytes t free from t in
    let! next := get64 buf 0 from t in
    let* t, _ := set_free_head next t in
    let* t, _ := dec_free_pages t in (t, Ok (Some free))
  else
    let! cur := free_head t from t in
    let! max_pages := pages_counter t from t in
    extent_scan max_pages n_pages None cur t.
Definition alloc_extent (n_pages : nat) t : step nat :=
  let* t, reused := alloc_extent_from_freelist n_pages t in
  match reused with
  | Some start => (t, Ok start)
  | None =>
      let! start := pages_counter t from t in
      let* t, _ := ensure_capacity ((start + n_pages) * PAGE_SIZE) t in
      let* t, _ := set_pages_counter (start + n_pages) t in (t, Ok start)
  end.
Definition write_extent (value_bytes : list Z) t : step nat :=
  let n_pages := div_ceil (length value_bytes) PAGE_SIZE in
  let* t, start := alloc_extent n_pages t in
  let* t, _ := store (page_offset start) value_bytes t in (t, Ok start).
Fixpoint free_run (start n : nat) t : step unit :=
  match n with
  | O => (t, Ok tt)
  | S n => let* t, _ := free_page start t in free_run (start + 1) n t
  end.
Definition free_extent (start value_len : nat) t : step unit := free_run start (div_ceil value_len PAGE_SIZE) t.

(** ** Fresh pages *)
Definition leaf_header (flags : Z) (buf : list Z) : io (list Z) :=
  buf <-? put 1 buf 0 PAGE_LEAF ;; buf <-? put 1 buf 1 flags ;;
  buf <-? put16 buf 2 0 ;; buf <-? put32 buf 4 PAGE_SIZE ;;
  buf <-? put64 buf 8 0 ;; put64 buf 16 0.
Definition init_leaf page (is_root : bool) t : step unit :=
  let* t, _ := edit page (leaf_header (if is_root then FLAG_ROOT else 0)) t in inc_leaf_pages t.
Definition init_internal page t : step unit :=
  edit page (λ buf, buf <-? put 1 buf 0 PAGE_INTERNAL ;; buf <-? put 1 buf 1 0 ;;
    buf <-? put16 buf 2 0 ;; buf <-? put32 buf 4 PAGE_SIZE ;; put64 buf 8 0) t.
(** [buf[1] |= FLAG_ROOT] and [buf[1] &= !FLAG_ROOT]. *)
Definition set_flag_root (buf : list Z) : io (list Z) :=
  f <-? get 1 buf 1 ;; put 1 buf 1 (Z.lor f FLAG_ROOT).
Definition clear_flag_root (buf : list Z) : io (list Z) :=
  f <-? get 1 buf 1 ;; put 1 buf 1 (Z.land f (255 - FLAG_ROOT)).
End Pages.
