(* ===== verification/BPlusNodes.v ===== *)
(** * The B+ tree's nodes: descent, leaf and internal pages, splits

    The byte-level read and write paths of [zendb-storage/src/backend/btree.rs]
    below the typed operations: slotted pages, searches, insertion with the
    splits that climb towards the root, deletion. *)
From stdpp Require Import base numbers option list.
From S2P Require Import Prelude Bytes BinarySearch Order Mmap Backend BPlusPages.

Module Nodes.
Import Pages.
Local Open Scope zen_scope.
Abbreviation Key := (list Z) (only parsing).
Implicit Types (t : BPlusTree) (p page : nat) (key value : list Z) (buf leaf scratch : list Z).

Record PageSplit := mkSplit { left_page : nat; right_page : nat; separator_key : list Z }.

(** The shortest prefix of [right_first] above [left_last], byte by byte; when
    no byte of the common length decides, [left_last] with a zero. *)
Fixpoint separator_from (pre l r : list Z) : option (list Z) :=
  match l, r with
  | a :: l, b :: r => if (a <? b)%Z then Some (pre ++ [b]) else separator_from (pre ++ [b]) l r
  | _, _ => None
  end.
Definition truncated_separator (left_last right_first : list Z) : list Z :=
  match separator_from [] left_last right_first with
  | Some s => s
  | None => left_last ++ [0%Z]
  end.
Definition leaf_entry_bytes (key_len payload_len : nat) : nat := 6 + key_len + payload_len + SLOT_SIZE.
Definition overflows (key value : list Z) : bool := (MAX_INLINE <? length key + length value + 6)%nat.
Definition payload_len (key value : list Z) : nat := if overflows key value then 8 else length value.

(** ** The descent path: a stack whose first eight entries are inline *)
Definition DESCENT_PATH_INLINE : nat := 8.
Record DescentPath := mkPath { inline : list nat; dp_len : nat; overflow : list nat }.
Definition path_new : DescentPath := mkPath (replicate DESCENT_PATH_INLINE 0) 0 [].
Definition path_push (page : nat) (d : DescentPath) : DescentPath :=
  if (dp_len d <? DESCENT_PATH_INLINE)%nat
  then mkPath (<[dp_len d := page]> (inline d)) (dp_len d + 1) (overflow d)
  else mkPath (inline d) (dp_len d) (page :: overflow d).
(** [DescentPathRev::next]; [overflow] is kept top first. *)
Definition path_next (d : DescentPath) : option (nat * DescentPath) :=
  match overflow d with
  | p :: rest => Some (p, mkPath (inline d) (dp_len d) rest)
  | [] =>
      match dp_len d with
      | O => None
      | S n => p ← inline d !! n; Some (p, mkPath (inline d) n [])
      end
  end.

(** ** Slots and entries *)
Definition page_count buf : io nat := get16 buf 2.
Definition data_offset buf : io nat := get32 buf 4.
Definition slot_at (hs : nat) buf (i : nat) : io nat := get16 buf (hs + i * SLOT_SIZE).
Definition is_extent (raw_vl : Z) : bool := negb (Z.land raw_vl OVFL_FLAG =? 0)%Z.
Definition extent_len (raw_vl : Z) : nat := Z.to_nat (Z.land raw_vl (OVFL_FLAG - 1)).
Definition raw_vl_at buf (eo : nat) : io Z := get 4 buf (eo + 2).
Definition leaf_key buf (eo : nat) : io (list Z) := kl <-? get16 buf eo ;; get_bytes buf (eo + 6) kl.
Definition internal_key buf (eo : nat) : io (list Z) := kl <-? get16 buf eo ;; get_bytes buf (eo + 10) kl.
Definition payload_of (raw_vl : Z) : nat := if is_extent raw_vl then 8 else Z.to_nat raw_vl.
(** The extent a leaf entry points to. *)
Definition entry_extent buf (eo : nat) : io (option (nat * nat)) :=
  raw_vl <-? raw_vl_at buf eo ;;
  if is_extent raw_vl then
    kl <-? get16 buf eo ;; start <-? get64 buf (eo + 6 + kl) ;; Ok (Some (start, extent_len raw_vl))
  else Ok None.

Definition key_bytes_at t (leaf_page i : nat) : io (list Z) :=
  leaf <-? page_bytes t leaf_page ;; eo <-? slot_at LEAF_HEADER_SIZE leaf i ;; leaf_key leaf eo.
Definition value_bytes_at t (leaf_page i : nat) : io (list Z) :=
  leaf <-? page_bytes t leaf_page ;;
  eo <-? slot_at LEAF_HEADER_SIZE leaf i ;;
  kl <-? get16 leaf eo ;;
  raw_vl <-? raw_vl_at leaf eo ;;
  if is_extent raw_vl then
    extent_start <-? get64 leaf (eo + 6 + kl) ;;
    get_bytes (mapped t) (page_offset extent_start) (extent_len raw_vl)
  else get_bytes leaf (eo + 6 + kl) (Z.to_nat raw_vl).

(** ** Searches *)
(** The loop [while lo < hi]: [before i] moves [lo] past [i]. *)
Fixpoint partition_point (fuel lo hi : nat) (before : nat → io bool) : io nat :=
  if (lo <? hi)%nat then
    match fuel with
    | O => Panic
    | S fuel =>
        let mid := lo + (hi - lo) / 2 in
        b <-? before mid ;;
        if b then partition_point fuel (mid + 1) hi before else partition_point fuel lo mid before
    end
  else Ok lo.
Definition separators_upto key buf (count : nat) : io nat :=
  partition_point count 0 count (λ mid,
    eo <-? slot_at HEADER_SIZE buf mid ;; k <-? internal_key buf eo ;; Ok (negb (ltb key k))).
Definition internal_search t page key : io nat :=
  buf <-? page_bytes t page ;;
  count <-? page_count buf ;;
  leftmost <-? get64 buf 8 ;;
  lo <-? separators_upto key buf count ;;
  if (lo =? 0)%nat then Ok leftmost
  else eo <-? slot_at HEADER_SIZE buf (lo - 1) ;; get64 buf (eo + 2).
Fixpoint find_slot_loop (fuel lo hi : nat) leaf key : io found :=
  if (lo <? hi)%nat then
    match fuel with
    | O => Panic
    | S fuel =>
        let mid := lo + (hi - lo) / 2 in
        eo <-? slot_at LEAF_HEADER_SIZE leaf mid ;;
        k <-? leaf_key leaf eo ;;
        match cmp k key with
        | Eq => Ok (Found mid)
        | Lt => find_slot_loop fuel (mid + 1) hi leaf key
        | Gt => find_slot_loop fuel lo mid leaf key
        end
    end
  else Ok (Absent lo).
Definition leaf_find_slot t page (count : nat) key : io found :=
  buf <-? page_bytes t page ;; find_slot_loop count 0 count buf key.

(** ** Descents *)
Definition page_type buf : io Z := get 1 buf 0.
Fixpoint first_leaf_from (fuel : nat) t p : io nat :=
  match fuel with
  | O => Panic
  | S fuel =>
      buf <-? page_bytes t p ;; ty <-? page_type buf ;;
      if (ty =? PAGE_LEAF)%Z then Ok p else child <-? get64 buf 8 ;; first_leaf_from fuel t child
  end.
Definition first_leaf t : io nat := p <-? root t ;; first_leaf_from (fuel_of t) t p.
Fixpoint find_leaf_from (fuel : nat) t p key : io nat :=
  match fuel with
  | O => Panic
  | S fuel =>
      buf <-? page_bytes t p ;; ty <-? page_type buf ;;
      if (ty =? PAGE_LEAF)%Z then Ok p
      else child <-? internal_search t p key ;; find_leaf_from fuel t child key
  end.
Definition find_leaf t p key : io nat := find_leaf_from (fuel_of t) t p key.
(** [leftmost_nonempty_leaf] follows [next_leaf] (at 8), its mirror image
    [prev_leaf] (at 16). *)
Fixpoint nonempty_leaf (fuel : nat) (link : nat) t page : io (option nat) :=
  if (page =? 0)%nat then Ok None else
  match fuel with
  | O => Panic
  | S fuel =>
      buf <-? page_bytes t page ;; count <-? page_count buf ;;
      if negb (count =? 0)%nat then Ok (Some page)
      else next <-? get64 buf link ;; nonempty_leaf fuel link t next
  end.
Definition leftmost_nonempty_leaf t : io (option nat) :=
  p <-? first_leaf t ;; nonempty_leaf (fuel_of t) 8 t p.
Definition rightmost_nonempty_leaf t : io (option nat) :=
  p <-? rightmost_leaf t ;; nonempty_leaf (fuel_of t) 16 t p.

Record DescentHint := mkHint { leaf_page : nat; path : DescentPath; slot : found }.
Fixpoint descend (fuel : nat) t page (path : DescentPath) key : io (nat * DescentPath) :=
  match fuel with
  | O => Panic
  | S fuel =>
      buf <-? page_bytes t page ;; ty <-? page_type buf ;;
      if (ty =? PAGE_LEAF)%Z then Ok (page, path)
      else child <-? internal_search t page key ;; descend fuel t child (path_push page path) key
  end.
Definition descend_to_leaf t key : io DescentHint :=
  p <-? root t ;;
  r <-? descend (fuel_of t) t p path_new key ;;
  buf <-? page_bytes t r.1 ;;
  count <-? page_count buf ;;
  s <-? leaf_find_slot t r.1 count key ;;
  Ok (mkHint r.1 r.2 s).
Definition value_bytes_for t key : io (option (list Z)) :=
  p <-? root t ;;
  leaf <-? find_leaf t p key ;;
  buf <-? page_bytes t leaf ;;
  count <-? page_count buf ;;
  s <-? leaf_find_slot t leaf count key ;;
  match s with
  | Found i => rmap Some (value_bytes_at t leaf i)
  | Absent _ => Ok None
  end.

(** ** Slot arrays *)
(** [for j in (pos..pos + n).rev()]: the slots move one to the right. *)
Fixpoint shift_right (hs pos n : nat) buf : io (list Z) :=
  match n with
  | O => Ok buf
  | S n =>
      v <-? slot_at hs buf (pos + n) ;;
      buf <-? put16 buf (hs + (pos + n + 1) * SLOT_SIZE) v ;;
      shift_right hs pos n buf
  end.
(** [for j in j..j + n]: the slots move one to the left. *)
Fixpoint shift_left (hs j n : nat) buf : io (list Z) :=
  match n with
  | O => Ok buf
  | S n =>
      v <-? slot_at hs buf j ;;
      buf <-? put16 buf (hs + (j - 1) * SLOT_SIZE) v ;;
      shift_left hs (j + 1) n buf
  end.
(** The slots of entries at or below [eo_rel] move up by [es]. *)
Fixpoint relocate_slots (hs j n eo_rel es : nat) buf : io (list Z) :=
  match n with
  | O => Ok buf
  | S n =>
      e <-? slot_at hs buf j ;;
      buf <-? put16 buf (hs + j * SLOT_SIZE) (if (e <=? eo_rel)%nat then e + es else e) ;;
      relocate_slots hs (j + 1) n eo_rel es buf
  end.
(** The slot, the count and the data offset of an entry written at [nd]. *)
Definition record_slot (hs pos nd count : nat) buf : io (list Z) :=
  buf <-? put16 buf (hs + pos * SLOT_SIZE) nd ;;
  buf <-? put16 buf 2 (count + 1) ;;
  put32 buf 4 nd.

(** ** Leaf entries *)
Definition put_entry (nd : nat) key (raw_vl : Z) (payload : list Z) leaf : io (list Z) :=
  leaf <-? put16 leaf nd (length key) ;;
  leaf <-? put 4 leaf (nd + 2) raw_vl ;;
  leaf <-? put_bytes leaf (nd + 6) key ;;
  put_bytes leaf (nd + 6 + length key) payload.
Definition write_leaf_entry_raw page (nd : nat) key value (is_ovfl : bool) t : step unit :=
  if is_ovfl then
    let* t, extent_start := write_extent value t in
    edit page (put_entry nd key (Z.lor (Z.of_nat (length value) mod 2 ^ 32) OVFL_FLAG)
                 (to_le_bytes 8 (Z.of_nat extent_start))) t
  else edit page (put_entry nd key (Z.of_nat (length value)) value) t.

Definition leaf_append_from_scratch_slot page scratch (slot_eo : nat) t : step unit :=
  let! kl := get16 scratch slot_eo from t in
  let! raw_vl := raw_vl_at scratch slot_eo from t in
  let! leaf := page_bytes t page from t in
  let! count := page_count leaf from t in
  let! data_off := data_offset leaf from t in
  let leaf_es := 6 + kl + payload_of raw_vl in
  let! nd := checked_sub data_off leaf_es from t in
  edit page (λ leaf,
    bs <-? get_bytes scratch slot_eo leaf_es ;;
    leaf <-? put_bytes leaf nd bs ;;
    record_slot LEAF_HEADER_SIZE count nd count leaf) t.
Definition leaf_append_inline_entry page key value t : step unit :=
  let is_ovfl := overflows key value in
  let! leaf := page_bytes t page from t in
  let! count := page_count leaf from t in
  let! data_off := data_offset leaf from t in
  let! nd := checked_sub data_off (6 + length key + payload_len key value) from t in
  let* t, _ := write_leaf_entry_raw page nd key value is_ovfl t in
  edit page (record_slot LEAF_HEADER_SIZE count nd count) t.

Definition leaf_remove_entry page (pos count data_off : nat) t : step unit :=
  let! leaf := page_bytes t page from t in
  let! eo_rel := slot_at LEAF_HEADER_SIZE leaf pos from t in
  let! kl := get16 leaf eo_rel from t in
  let! raw_vl := raw_vl_at leaf eo_rel from t in
  let payload := payload_of raw_vl in
  let es := 6 + kl + payload in
  let* t, _ := sub_leaf_entry_bytes (leaf_entry_bytes kl payload) t in
  edit page (λ leaf,
    leaf <-? shift_left LEAF_HEADER_SIZE (pos + 1) (count - (pos + 1)) leaf ;;
    dlen <-? checked_sub eo_rel data_off ;;
    leaf <-? match copy_within leaf data_off dlen (data_off + es) with Some b => Ok b | None => Panic end ;;
    count' <-? checked_sub count 1 ;;
    leaf <-? relocate_slots LEAF_HEADER_SIZE 0 count' eo_rel es leaf ;;
    leaf <-? put16 leaf 2 count' ;;
    put32 leaf 4 (data_off + es)) t.

(** ** Splitting *)
(** The old entries of the page in slot order, [None] marking the new one. *)
Definition split_order (hs : nat) scratch (ip count : nat) : io (list (option nat)) :=
  before <-? each (slot_at hs scratch) (seq 0 ip) ;;
  after <-? each (slot_at hs scratch) (seq ip (count - ip)) ;;
  Ok (map Some before ++ None :: map Some after).
Definition key_bytes_of (stored : list Z → nat → io (list Z)) scratch key (s : option nat) : io (list Z) :=
  match s with None => Ok key | Some eo => stored scratch eo end.
Fixpoint midpoint (half used j : nat) (sizes : list nat) : nat :=
  match sizes with
  | [] => 1
  | s :: sizes => if (half <=? used + s)%nat then j + 1 else midpoint half (used + s) (j + 1) sizes
  end.
(** [m.clamp(1, order.len() - 1)], which panics when the list is shorter. *)
Definition split_mid (sizes : list nat) : io nat :=
  if (length sizes - 1 <? 1)%nat then Panic
  else Ok (Nat.max 1 (Nat.min (midpoint (list_sum sizes / 2) 0 0 sizes) (length sizes - 1))).
Definition split_separator stored scratch key (order : list (option nat)) (mid : nat) : io (list Z) :=
  match order !! (mid - 1), order !! mid with
  | Some a, Some b =>
      l <-? key_bytes_of stored scratch key a ;; r <-? key_bytes_of stored scratch key b ;;
      Ok (truncated_separator l r)
  | _, _ => Panic
  end.
Definition reset_page buf : io (list Z) := buf <-? put16 buf 2 0 ;; put32 buf 4 PAGE_SIZE.

Definition leaf_entry_size scratch key value (s : option nat) : io nat :=
  match s with
  | None => Ok (6 + length key + payload_len key value + SLOT_SIZE)
  | Some eo =>
      kl <-? get16 scratch eo ;; raw_vl <-? raw_vl_at scratch eo ;;
      Ok (6 + kl + payload_of raw_vl + SLOT_SIZE)
  end.
Fixpoint leaf_repack page scratch key value (order : list (option nat)) t : step unit :=
  match order with
  | [] => (t, Ok tt)
  | s :: order =>
      let* t, _ := match s with
                   | None => leaf_append_inline_entry page key value t
                   | Some eo => leaf_append_from_scratch_slot page scratch eo t
                   end in
      leaf_repack page scratch key value order t
  end.
(** The links around a new right sibling. *)
Definition link_right page right old_next t : step unit :=
  let* t, _ := edit right (λ r, r <-? put64 r 8 old_next ;; put64 r 16 page) t in
  let* t, _ := edit page (λ l, put64 l 8 right) t in
  if negb (old_next =? 0)%nat then edit old_next (λ r, put64 r 16 right) t
  else set_rightmost_leaf right t.
Definition leaf_split page key value t : step (option PageSplit) :=
  let! scratch := page_bytes t page from t in
  let! count := page_count scratch from t in
  let! ip := partition_point count 0 count (λ m,
    eo <-? slot_at LEAF_HEADER_SIZE scratch m ;; k <-? leaf_key scratch eo ;; Ok (ltb k key)) from t in
  let! order := split_order LEAF_HEADER_SIZE scratch ip count from t in
  let new_entry_bytes := leaf_entry_bytes (length key) (payload_len key value) in
  let! sizes := each (leaf_entry_size scratch key value) order from t in
  let* t, _ := edit page reset_page t in
  if (list_sum sizes <=? PAGE_SIZE - LEAF_HEADER_SIZE)%nat then
    let* t, _ := leaf_repack page scratch key value order t in
    let* t, _ := add_leaf_entry_bytes new_entry_bytes t in (t, Ok None)
  else
    let! mid := split_mid sizes from t in
    let! sep := split_separator leaf_key scratch key order mid from t in
    let* t, right := alloc_page t in
    let* t, _ := init_leaf right false t in
    let* t, _ := leaf_repack page scratch key value (take mid order) t in
    let* t, _ := leaf_repack right scratch key value (drop mid order) t in
    let* t, _ := add_leaf_entry_bytes new_entry_bytes t in
    let! old_next := get64 scratch 8 from t in
    let* t, _ := link_right page right old_next t in
    (t, Ok (Some (mkSplit page right sep))).

(** ** [leaf_insert_bytes] *)
(** The branch [Err(pos)]. *)
Definition leaf_insert_absent page key value (pos : nat) t : step (option PageSplit) :=
  let! leaf := page_bytes t page from t in
  let! count := page_count leaf from t in
  let! data_off := data_offset leaf from t in
  let ovfl := overflows key value in
  let leaf_es := 6 + length key + payload_len key value in
  let free_start := LEAF_HEADER_SIZE + count * SLOT_SIZE in
  if (data_off <? free_start + (leaf_es + SLOT_SIZE))%nat then leaf_split page key value t else
  let* t, _ := edit page (shift_right LEAF_HEADER_SIZE pos (count - pos)) t in
  let nd := data_off - leaf_es in
  let* t, _ := write_leaf_entry_raw page nd key value ovfl t in
  let* t, _ := edit page (record_slot LEAF_HEADER_SIZE pos nd count) t in
  let* t, _ := add_leaf_entry_bytes (leaf_entry_bytes (length key) (payload_len key value)) t in
  (t, Ok None).
(** The branch [Ok(i)]; its recursive call is the other branch at [i]. *)
Definition leaf_overwrite page key value (i : nat) t : step (option PageSplit) :=
  let! leaf := page_bytes t page from t in
  let! count := page_count leaf from t in
  let! data_off := data_offset leaf from t in
  let! eo := slot_at LEAF_HEADER_SIZE leaf i from t in
  let! kl := get16 leaf eo from t in
  let! raw_vl := raw_vl_at leaf eo from t in
  let! old := entry_extent leaf eo from t in
  let* t, _ := match old with
               | Some (old_start, old_len) => free_extent old_start old_len t
               | None => (t, Ok tt)
               end in
  if negb (is_extent raw_vl) && negb (overflows key value) && (Z.to_nat raw_vl =? length value)%nat then
    let* t, _ := edit page (λ leaf, put_bytes leaf (eo + 6 + kl) value) t in (t, Ok None)
  else
    let* t, _ := leaf_remove_entry page i count data_off t in
    leaf_insert_absent page key value i t.
Definition leaf_insert_bytes page key value (s : found) t : step (option PageSplit) :=
  match s with
  | Found i => leaf_overwrite page key value i t
  | Absent pos => leaf_insert_absent page key value pos t
  end.

(** ** Internal pages *)
Definition put_internal (nd : nat) key (child : nat) buf : io (list Z) :=
  buf <-? put16 buf nd (length key) ;; buf <-? put64 buf (nd + 2) child ;; put_bytes buf (nd + 10) key.
Definition internal_append_entry page key (child : nat) t : step unit :=
  let! buf := page_bytes t page from t in
  let! count := page_count buf from t in
  let! data_off := data_offset buf from t in
  let! nd := checked_sub data_off (10 + length key) from t in
  edit page (λ buf, buf <-? put_internal nd key child buf ;; record_slot HEADER_SIZE count nd count buf) t.
Definition internal_append_from_scratch_slot page scratch (slot_eo : nat) t : step unit :=
  let! kl := get16 scratch slot_eo from t in
  let! buf := page_bytes t page from t in
  let! count := page_count buf from t in
  let! data_off := data_offset buf from t in
  let es := 10 + kl in
  let! nd := checked_sub data_off es from t in
  edit page (λ buf,
    bs <-? get_bytes scratch slot_eo es ;;
    buf <-? put_bytes buf nd bs ;;
    record_slot HEADER_SIZE count nd count buf) t.
Fixpoint internal_repack page scratch key (child : nat) (order : list (option nat)) t : step unit :=
  match order with
  | [] => (t, Ok tt)
  | s :: order =>
      let* t, _ := match s with
                   | None => internal_append_entry page key child t
                   | Some eo => internal_append_from_scratch_slot page scratch eo t
                   end in
      internal_repack page scratch key child order t
  end.
Definition internal_entry_size scratch key (s : option nat) : io nat :=
  k <-? key_bytes_of internal_key scratch key s ;; Ok (10 + length k + SLOT_SIZE).
Definition child_of scratch (child : nat) (s : option nat) : io nat :=
  match s with None => Ok child | Some eo => get64 scratch (eo + 2) end.
Definition internal_split page key (child : nat) t : step (option PageSplit) :=
  let! scratch := page_bytes t page from t in
  let! count := page_count scratch from t in
  let! ip := separators_upto key scratch count from t in
  let! order := split_order HEADER_SIZE scratch ip count from t in
  let! sizes := each (internal_entry_size scratch key) order from t in
  let* t, _ := edit page reset_page t in
  if (list_sum sizes <=? PAGE_SIZE - HEADER_SIZE)%nat then
    let* t, _ := internal_repack page scratch key child order t in (t, Ok None)
  else
    let! mid := split_mid sizes from t in
    let! sep := split_separator internal_key scratch key order mid from t in
    let! right_leftmost := match order !! mid with Some s => child_of scratch child s | None => Panic end from t in
    let* t, right := alloc_page t in
    let* t, _ := init_internal right t in
    let* t, _ := edit right (λ r, put64 r 8 right_leftmost) t in
    let* t, _ := internal_repack page scratch key child (take mid order) t in
    let* t, _ := internal_repack right scratch key child (drop (mid + 1) order) t in
    (t, Ok (Some (mkSplit page right sep))).
Definition internal_insert page key (child : nat) t : step (option PageSplit) :=
  let! buf := page_bytes t page from t in
  let! count := page_count buf from t in
  let! data_off := data_offset buf from t in
  let es := 10 + length key in
  let free_start := HEADER_SIZE + count * SLOT_SIZE in
  if (data_off <? free_start + es + SLOT_SIZE)%nat then internal_split page key child t else
  let! pos := separators_upto key buf count from t in
  let nd := data_off - es in
  let* t, _ := edit page (λ buf,
    buf <-? shift_right HEADER_SIZE pos (count - pos) buf ;;
    buf <-? put_internal nd key child buf ;;
    record_slot HEADER_SIZE pos nd count buf) t in
  (t, Ok None).

(** A new root above a page that split. *)
Definition grow_root (split : PageSplit) t : step unit :=
  let* t, nr := alloc_page t in
  let* t, _ := init_internal nr t in
  let* t, _ := edit nr (λ buf, put64 buf 8 (left_page split)) t in
  let* t, _ := internal_insert nr (separator_key split) (right_page split) t in
  let* t, _ := edit nr set_flag_root t in
  let* t, _ := edit (left_page split) clear_flag_root t in
  set_root nr t.
(** [fuel]: one more than the length of the path. *)
Fixpoint cascade_split (fuel : nat) (path : DescentPath) (split : PageSplit) t : step unit :=
  match fuel, path_next path with
  | S fuel, Some (pg, path) =>
      let* t, r := internal_insert pg (separator_key split) (right_page split) t in
      match r with
      | Some split => cascade_split fuel path split t
      | None => (t, Ok tt)
      end
  | _, _ => grow_root split t
  end.
Definition path_length (path : DescentPath) : nat := dp_len path + length (overflow path).

(** ** [insert_bytes] and [delete_bytes] *)
Definition insert_bytes key value (hint : option DescentHint) t : step bool :=
  let! hint := match hint with Some h => Ok h | None => descend_to_leaf t key end from t in
  let existed := match slot hint with Found _ => true | Absent _ => false end in
  let* t, split := leaf_insert_bytes (leaf_page hint) key value (slot hint) t in
  let* t, _ := if existed then (t, Ok tt) else inc_entries 1 t in
  match split with
  | Some split =>
      let* t, _ := cascade_split (path_length (path hint)) (path hint) split t in (t, Ok existed)
  | None => (t, Ok existed)
  end.
Definition delete_at page (i : nat) t : step unit :=
  let! leaf := page_bytes t page from t in
  let! count := page_count leaf from t in
  let! data_off := data_offset leaf from t in
  let! eo := slot_at LEAF_HEADER_SIZE leaf i from t in
  let! extent := entry_extent leaf eo from t in
  let* t, _ := match extent with
               | Some (start, len) => free_extent start len t
               | None => (t, Ok tt)
               end in
  let* t, _ := leaf_remove_entry page i count data_off t in dec_entries t.
Definition delete_bytes key t : step bool :=
  let! p := root t from t in
  let! leaf_page := find_leaf t p key from t in
  let! buf := page_bytes t leaf_page from t in
  let! count := page_count buf from t in
  let! s := leaf_find_slot t leaf_page count key from t in
  match s with
  | Found i => let* t, _ := delete_at leaf_page i t in (t, Ok true)
  | Absent _ => (t, Ok false)
  end.
End Nodes.
