(* ===== verification/BPlus.v ===== *)
(** * The B+ tree: [zendb-storage/src/backend/btree.rs]

    Bottom-up construction, compaction, opening, the typed reads and writes and
    the iterators, on the nodes of [BPlusNodes.v].  Keys are ordered by their
    encodings, byte by byte. *)
From stdpp Require Import base numbers option list.
From Stdlib Require Import SpecFloat.
From S2P Require Import Prelude Bytes BinarySearch Order Mmap Backend Serdes BPlusPages BPlusNodes.

Module BPlus.
Import Pages Nodes.
Local Open Scope zen_scope.
Implicit Types (t : BPlusTree) (p page : nat).

(** ** Cursors: the fields [page], [slot] and [count] of the iterators *)
Record Cursor := mkCursor { c_page : nat; c_slot : nat; c_count : nat }.
Definition enter t page : io Cursor :=
  if (page =? 0)%nat then Ok (mkCursor 0 0 0)
  else buf <-? page_bytes t page ;; count <-? page_count buf ;; Ok (mkCursor page 0 count).
(** The loop of every [next]: the next slot, along [next_leaf] (at 8) or
    [prev_leaf] (at 16). *)
Fixpoint cursor_next (fuel : nat) (link : nat) t (c : Cursor) : io (option Cursor) :=
  if (c_page c =? 0)%nat then Ok None else
  if (c_slot c <? c_count c)%nat then Ok (Some c) else
  match fuel with
  | O => Panic
  | S fuel =>
      buf <-? page_bytes t (c_page c) ;; next <-? get64 buf link ;;
      c <-? enter t next ;; cursor_next fuel link t c
  end.
Definition past (c : Cursor) : Cursor := mkCursor (c_page c) (c_slot c + 1) (c_count c).
(** The raw entry of a slot. *)
Definition raw_entry t (page i : nat) : io (list Z * list Z) :=
  k <-? key_bytes_at t page i ;; v <-? value_bytes_at t page i ;; Ok (k, v).
Definition raw_next t (c : Cursor) : io (option ((list Z * list Z) * Cursor)) :=
  c <-? cursor_next (fuel_of t) 8 t c ;;
  match c with
  | None => Ok None
  | Some c => e <-? raw_entry t (c_page c) (c_slot c) ;; Ok (Some (e, past c))
  end.

(** ** Bottom-up construction *)
Record BottomUpBuilder := mkBuilder {
  current_leaf : nat;
  leaves : list nat;
  leaf_first_keys : list (list Z);
  leaf_last_keys : list (list Z);
  current_first_key : option (list Z);
  current_last_key : option (list Z);
  entry_count : Z }.
Definition builder_new : BottomUpBuilder := mkBuilder 1 [1] [] [] None None 0.
Definition push_opt {A} (l : list A) (o : option A) : list A := match o with Some a => l ++ [a] | None => l end.
(** The current leaf is full: it is closed, and a fresh one linked to it. *)
Definition next_leaf (b : BottomUpBuilder) t : step BottomUpBuilder :=
  let* t, new_leaf := alloc_page t in
  let* t, _ := init_leaf new_leaf false t in
  let* t, _ := edit (current_leaf b) (λ cur, put64 cur 8 new_leaf) t in
  let* t, _ := edit new_leaf (λ nl, put64 nl 16 (current_leaf b)) t in
  (t, Ok (mkBuilder new_leaf (leaves b ++ [new_leaf])
            (push_opt (leaf_first_keys b) (current_first_key b))
            (push_opt (leaf_last_keys b) (current_last_key b)) None None (entry_count b))).
Definition builder_push (kb vb : list Z) (b : BottomUpBuilder) t : step BottomUpBuilder :=
  let b := mkBuilder (current_leaf b) (leaves b) (leaf_first_keys b) (leaf_last_keys b)
             (current_first_key b) (current_last_key b) (entry_count b + 1) in
  let ovfl := overflows kb vb in
  let leaf_es := 6 + length kb + payload_len kb vb in
  let! leaf := page_bytes t (current_leaf b) from t in
  let! count := page_count leaf from t in
  let! data_off := data_offset leaf from t in
  let free_start := LEAF_HEADER_SIZE + count * SLOT_SIZE in
  let* t, b := if (data_off <? free_start + (leaf_es + SLOT_SIZE))%nat then next_leaf b t else (t, Ok b) in
  let first := match current_first_key b with None => kb | Some k => k end in
  let! leaf := page_bytes t (current_leaf b) from t in
  let! count := page_count leaf from t in
  let! data_off := data_offset leaf from t in
  let! nd := checked_sub data_off leaf_es from t in
  let* t, _ := write_leaf_entry_raw (current_leaf b) nd kb vb ovfl t in
  let* t, _ := edit (current_leaf b) (record_slot LEAF_HEADER_SIZE count nd count) t in
  let* t, _ := add_leaf_entry_bytes (leaf_entry_bytes (length kb) (payload_len kb vb)) t in
  (t, Ok (mkBuilder (current_leaf b) (leaves b) (leaf_first_keys b) (leaf_last_keys b)
            (Some first) (Some kb) (entry_count b))).

(** A child of an internal level with the first and last keys below it. *)
Abbreviation child := (nat * (list Z * list Z))%type.
(** The loop that packs children into [current] while they fit. *)
Fixpoint pack_children (current : nat) (last : list Z) (rest : list child) t : step (list Z * list child) :=
  match rest with
  | [] => (t, Ok (last, []))
  | (page, (first, last')) :: rest' =>
      let sep := truncated_separator last first in
      let! buf := page_bytes t current from t in
      let! count := page_count buf from t in
      let! data_off := data_offset buf from t in
      let free_start := HEADER_SIZE + count * SLOT_SIZE in
      if (data_off <? free_start + (10 + length sep) + SLOT_SIZE)%nat then (t, Ok (last, rest)) else
      let nd := data_off - (10 + length sep) in
      let* t, _ := edit current (λ buf,
        buf <-? put_internal nd sep page buf ;; record_slot HEADER_SIZE count nd count buf) t in
      pack_children current last' rest' t
  end.
Fixpoint build_level (fuel : nat) (children : list child) t : step (list child) :=
  match children with
  | [] => (t, Ok [])
  | (page, (first, last)) :: rest =>
      match fuel with
      | O => (t, Panic)
      | S fuel =>
          let* t, current := alloc_page t in
          let* t, _ := init_internal current t in
          let* t, _ := edit current (λ buf, put64 buf 8 page) t in
          let* t, packed := pack_children current last rest t in
          let* t, next := build_level fuel packed.2 t in
          (t, Ok ((current, (first, packed.1)) :: next))
      end
  end.
Fixpoint build_levels (fuel : nat) (children : list child) t : step nat :=
  match children with
  | [] => (t, Panic)
  | [(page, _)] => (t, Ok page)
  | _ =>
      match fuel with
      | O => (t, Panic)
      | S fuel =>
          let* t, next := build_level (length children) children t in build_levels fuel next t
      end
  end.
(** The lists have one length, which the source asserts. *)
Definition build_internal_levels (pages : list nat) (first_keys last_keys : list (list Z)) t : step unit :=
  if negb (length pages =? length first_keys)%nat || negb (length pages =? length last_keys)%nat then (t, Panic) else
  let* t, top := build_levels (length pages) (zip pages (zip first_keys last_keys)) t in
  let* t, _ := edit top set_flag_root t in
  let* t, _ := if negb (top =? 1)%nat then edit 1 clear_flag_root t else (t, Ok tt) in
  set_root top t.
Definition builder_finish (b : BottomUpBuilder) t : step unit :=
  let first_keys := push_opt (leaf_first_keys b) (current_first_key b) in
  let last_keys := push_opt (leaf_last_keys b) (current_last_key b) in
  let* t, _ := set_rightmost_leaf (current_leaf b) t in
  let* t, _ := inc_entries (entry_count b) t in
  if (1 <? length (leaves b))%nat then build_internal_levels (leaves b) first_keys last_keys t
  else edit 1 set_flag_root t.

(** [bottom_up_build_raw] from the entries of another tree; its loop has the
    steps of [BottomUpBuilder::push] and its end those of [finish]. *)
Fixpoint build_from (fuel : nat) (source : BPlusTree) (c : Cursor) (b : BottomUpBuilder) t : step BottomUpBuilder :=
  match fuel with
  | O => (t, Panic)
  | S fuel =>
      let! item := raw_next source c from t in
      match item with
      | None => (t, Ok b)
      | Some (e, c) => let* t, b := builder_push e.1 e.2 b t in build_from fuel source c b t
      end
  end.
Definition bottom_up_build_raw (source : BPlusTree) (c : Cursor) t : step unit :=
  let* t, b := build_from (fuel_of source) source c builder_new t in builder_finish b t.

(** ** Creating, opening and compacting *)
Definition empty_stats : BPlusTreeStats := mkStats 0 2 0 1 0.
Definition empty_meta (meta : list Z) : io (list Z) :=
  meta <-? put64 meta META_ROOT 1 ;; meta <-? put64 meta META_FREE_HEAD 0 ;;
  meta <-? put64 meta META_PAGES 2 ;; meta <-? put64 meta META_ENTRIES 0 ;;
  meta <-? put64 meta META_RIGHTMOST_LEAF 1 ;; meta <-? put64 meta META_LEAF_PAGES 1 ;;
  meta <-? put64 meta META_LEAF_ENTRY_BYTES 0 ;; put64 meta META_FREE_PAGES 0.
Definition opened (r : step unit) : io BPlusTree :=
  match r with (t, Ok _) => Ok t | (_, Err e) => Err e | (_, Panic) => Panic end.
(** On the truncated file, whose opening may fail too. *)
Definition create_step (config : BPlusTreeConfig) (os : list (option io_error)) : step unit :=
  let t := mkTree Anon [] config empty_stats os in
  let* t, _ := sys t in
  let* t, _ := set_len (Nat.max (initial_capacity_pages config) 2 * PAGE_SIZE) t in
  let* t, _ := map_file t in
  let* t, _ := edit META_PAGE (λ meta, meta <-? put 4 meta 0 MAGIC ;; empty_meta meta) t in
  edit 1 (leaf_header FLAG_ROOT) t.
Definition bp_create (config : BPlusTreeConfig) (os : list (option io_error)) : io BPlusTree :=
  opened (create_step config os).
Definition bp_open (file : list Z) (config : BPlusTreeConfig) (os : list (option io_error)) : io BPlusTree :=
  opened (
    let t := mkTree Anon file config (mkStats 0 0 0 0 0) os in
    let* t, _ := sys t in
    let* t, _ := map_file t in
    let! magic := get 4 (mapped t) 0 from t in
    if (magic =? MAGIC)%Z then refresh_stats_from_meta t else (t, Err InvalidData)).

Definition shadow_config : BPlusTreeConfig := mkConfig 2 F64.one.
(** The shadow copy: its system calls draw from the same outcomes. *)
Definition build_shadow t : step BPlusTree :=
  let '(shadow, r) :=
    let* shadow, _ := create_step shadow_config (bp_os t) in
    let! first := first_leaf t from shadow in
    let! c := enter t first from shadow in
    bottom_up_build_raw t c shadow in
  let t := set_os (bp_os shadow) t in
  match r with Ok _ => (t, Ok shadow) | Err e => (t, Err e) | Panic => (t, Panic) end.
Definition bp_compact t : step unit :=
  let* t, shadow := build_shadow t in
  let! n := pages_counter shadow from t in
  let used := n * PAGE_SIZE in
  let! bytes := get_bytes (mapped shadow) 0 used from t in
  let* t, _ := store 0 bytes t in
  let t := set_stats (bp_stats shadow) t in
  let new_pages := Nat.max n (initial_capacity_pages (bp_config t)) in
  let* t, _ := sys t in
  let* t, _ := set_len (new_pages * PAGE_SIZE) (set_map Anon t) in
  map_file t.
Definition maybe_compact t : step unit :=
  let threshold := compaction_ratio (bp_config t) in
  if SFleb F64.one threshold then (t, Ok tt) else
  if SFleb threshold (fragmentation_ratio t) then bp_compact t else (t, Ok tt).
Definition bp_flush t : step unit := sys t.
Definition bp_sync t : step unit := sys t.
(** [Drop]: a last writeback, its outcome ignored; what is left is the file. *)
Definition bp_drop t : list Z := bp_file (bp_flush t).1.
Definition bp_size t : Z := st_entries (bp_stats t).
Definition bp_clear t : step unit :=
  let* t, _ := edit META_PAGE empty_meta t in
  edit 1 (leaf_header FLAG_ROOT) (set_stats empty_stats t).

(** ** Rebuilding the internal levels from the leaf chain *)
(** The surviving leaves with their first and last keys. *)
Fixpoint collect_leaves (fuel : nat) (page prev_nonempty : nat) t : step (list child) :=
  if (page =? 0)%nat then (t, Ok []) else
  match fuel with
  | O => (t, Panic)
  | S fuel =>
      let! buf := page_bytes t page from t in
      let! count := page_count buf from t in
      let! next := get64 buf 8 from t in
      if (count =? 0)%nat then
        let* t, _ := if negb (prev_nonempty =? 0)%nat
                     then edit prev_nonempty (λ b, put64 b 8 next) t else (t, Ok tt) in
        let* t, _ := if negb (next =? 0)%nat
                     then edit next (λ b, put64 b 16 prev_nonempty) t else (t, Ok tt) in
        let* t, _ := free_page page t in
        let* t, _ := dec_leaf_pages t in
        collect_leaves fuel next prev_nonempty t
      else
        let! first := key_bytes_at t page 0 from t in
        let! last := key_bytes_at t page (count - 1) from t in
        let* t, rest := collect_leaves fuel next page t in
        (t, Ok ((page, (first, last)) :: rest))
  end.
(** The children of an internal page that are internal, leftmost first. *)
Definition internal_children t page : io (list nat) :=
  buf <-? page_bytes t page ;;
  count <-? page_count buf ;;
  leftmost <-? get64 buf 8 ;;
  children <-? each (λ i, eo <-? slot_at HEADER_SIZE buf i ;; get64 buf (eo + 2)) (seq 0 count) ;;
  types <-? each (λ c, b <-? page_bytes t c ;; page_type b) (leftmost :: children) ;;
  Ok (map fst (filter (λ q, q.2 = PAGE_INTERNAL) (zip (leftmost :: children) types))).
(** The depth-first walk that frees the old internal pages; [stack] has its
    top first. *)
Fixpoint free_internals (fuel : nat) (stack seen : list nat) t : step unit :=
  match stack with
  | [] => (t, Ok tt)
  | p :: stack =>
      match fuel with
      | O => (t, Panic)
      | S fuel =>
          if bool_decide (p ∈ seen) then free_internals fuel stack seen t else
          let! children := internal_children t p from t in
          let* t, _ := free_page p t in
          free_internals fuel (rev children ++ stack) (p :: seen) t
      end
  end.
Definition rebuild_internal_from_leaves t : step unit :=
  let! first := first_leaf t from t in
  let* t, kept := collect_leaves (fuel_of t) first 0 t in
  match head kept, last kept with
  | Some (leaf0, _), Some (rightmost, _) =>
      let* t, _ := set_rightmost_leaf rightmost t in
      let! old_root := root t from t in
      let* t, _ := if negb (old_root =? leaf0)%nat && negb (old_root =? rightmost)%nat
                   then free_internals (fuel_of t) [old_root] [] t else (t, Ok tt) in
      if (length kept =? 1)%nat then
        let* t, _ := edit leaf0 set_flag_root t in set_root leaf0 t
      else build_internal_levels (map fst kept) (map (λ c, c.2.1) kept) (map (λ c, c.2.2) kept) t
  | _, _ =>
      let* t, p := alloc_page t in
      let* t, _ := init_leaf p true t in
      let* t, _ := set_root p t in set_rightmost_leaf p t
  end.

(** ** [bulk_delete_sorted], on the encoded keys *)
(** [while targets[target_idx] < key]. *)
Fixpoint skip_below (key : list Z) (targets : list (list Z)) : list (list Z) :=
  match targets with
  | target :: rest => if ltb target key then skip_below key rest else targets
  | [] => []
  end.
Fixpoint delete_in_leaf (fuel : nat) page (i count : nat) (targets : list (list Z)) t :
    step (list (list Z) * nat) :=
  match targets with
  | [] => (t, Ok ([], 0))
  | _ =>
      if negb (i <? count)%nat then (t, Ok (targets, 0)) else
      match fuel with
      | O => (t, Panic)
      | S fuel =>
          let! key := key_bytes_at t page i from t in
          match skip_below key targets with
          | target :: rest =>
              if bool_decide (target = key) then
                let* t, _ := delete_at page i t in
                let* t, r := delete_in_leaf fuel page i (count - 1) rest t in
                (t, Ok (r.1, r.2 + 1))
              else delete_in_leaf fuel page (i + 1) count (target :: rest) t
          | [] => delete_in_leaf fuel page (i + 1) count [] t
          end
      end
  end.
Fixpoint delete_along (fuel : nat) page (targets : list (list Z)) t : step nat :=
  match targets with
  | [] => (t, Ok 0)
  | _ =>
      if (page =? 0)%nat then (t, Ok 0) else
      match fuel with
      | O => (t, Panic)
      | S fuel =>
          let! buf := page_bytes t page from t in
          let! next := get64 buf 8 from t in
          let! count := page_count buf from t in
          let* t, r := delete_in_leaf count page 0 count targets t in
          let* t, n := delete_along fuel next r.1 t in
          (t, Ok (r.2 + n))
      end
  end.
Definition delete_sorted_bytes (targets : list (list Z)) t : step nat :=
  match targets with
  | [] => (t, Ok 0)
  | _ =>
      let! first := first_leaf t from t in
      let* t, removed := delete_along (fuel_of t) first targets t in
      if (removed =? 0)%nat then (t, Ok 0)
      else let* t, _ := rebuild_internal_from_leaves t in (t, Ok removed)
  end.

(** ** The typed operations *)
Section Typed.
Context {K V : Type} `{TotalCmp K} `{CK : Codec K} `{CV : Codec V}.
Implicit Types (k : K) (v : V).

(** [deserialize_from(..).expect(..)]. *)
Definition expect_decode {A} `{Codec A} (bs : list Z) : io A :=
  match deserialize_from bs with Ok a => Ok a | _ => Panic end.
(** A key the codec refuses is not found. *)
Definition bp_get t k : io (option V) :=
  match serialize_to_vec k with
  | Ok kb =>
      r <-? value_bytes_for t kb ;;
      match r with Some bs => rmap Some (expect_decode bs) | None => Ok None end
  | Err _ => Ok None
  | Panic => Panic
  end.
Definition bp_contains t k : io bool :=
  match serialize_to_vec k with
  | Ok kb => rmap (λ r, bool_decide (is_Some r)) (value_bytes_for t kb)
  | Err _ => Ok false
  | Panic => Panic
  end.
Definition typed_entry t (page i : nat) : io (K * V) :=
  kb <-? key_bytes_at t page i ;; k <-? expect_decode kb ;;
  vb <-? value_bytes_at t page i ;; v <-? expect_decode vb ;; Ok (k, v).
(** [RawBTreeKeys] and [RawBTreeEntries], driven to their end. *)
Fixpoint raw_collect {A} (fuel : nat) t (c : Cursor) (f : nat → nat → io A) : io (list A) :=
  match fuel with
  | O => Panic
  | S fuel =>
      c <-? cursor_next (fuel_of t) 8 t c ;;
      match c with
      | None => Ok []
      | Some c => a <-? f (c_page c) (c_slot c) ;; l <-? raw_collect fuel t (past c) f ;; Ok (a :: l)
      end
  end.
Definition along {A} t (f : nat → nat → io A) : io (list A) :=
  p <-? first_leaf t ;; c <-? enter t p ;; raw_collect (fuel_of t) t c f.
Definition bp_keys t : io (list K) := along t (λ page i, kb <-? key_bytes_at t page i ;; expect_decode kb).
Definition bp_values t : io (list V) := along t (λ page i, e <-? raw_entry t page i ;; expect_decode e.2).
(** [BTreeIter]. *)
Definition bp_entries t : io (list (K * V)) := along t (typed_entry t).

(** [BTreeRange]: ends at the first key not below [end_]. *)
Fixpoint range_collect (fuel : nat) t (c : Cursor) (end_ : list Z) : io (list (K * V)) :=
  match fuel with
  | O => Panic
  | S fuel =>
      c <-? cursor_next (fuel_of t) 8 t c ;;
      match c with
      | None => Ok []
      | Some c =>
          ks <-? key_bytes_at t (c_page c) (c_slot c) ;;
          if negb (ltb ks end_) then Ok [] else
          e <-? typed_entry t (c_page c) (c_slot c) ;;
          l <-? range_collect fuel t (past c) end_ ;; Ok (e :: l)
      end
  end.
(** Where a key is or would be: its leaf, the leaf's count and the slot. *)
Definition seek t (kb : list Z) : io (nat * nat * nat) :=
  p <-? root t ;; leaf <-? find_leaf t p kb ;;
  buf <-? page_bytes t leaf ;; count <-? page_count buf ;;
  s <-? leaf_find_slot t leaf count kb ;;
  Ok (leaf, count, match s with Found i | Absent i => i end).
Definition bp_range t (start end_ : K) : io (list (K * V)) :=
  match serialize_to_vec start, serialize_to_vec end_ with
  | Ok sb, Ok eb =>
      r <-? seek t sb ;; let '(leaf, count, i) := r in
      range_collect (fuel_of t) t (mkCursor leaf i count) eb
  | _, _ => Ok []
  end.

(** [BTreeIterRev] and [BTreeRangeRev]: slots count from the end; [start]
    bounds the second. *)
Definition from_end (c : Cursor) : nat := c_count c - 1 - c_slot c.
Fixpoint rev_collect (fuel : nat) t (c : Cursor) (start : option (list Z)) : io (list (K * V)) :=
  match fuel with
  | O => Panic
  | S fuel =>
      c <-? cursor_next (fuel_of t) 16 t c ;;
      match c with
      | None => Ok []
      | Some c =>
          ks <-? key_bytes_at t (c_page c) (from_end c) ;;
          if match start with Some start => ltb ks start | None => false end then Ok [] else
          e <-? typed_entry t (c_page c) (from_end c) ;;
          l <-? rev_collect fuel t (past c) start ;; Ok (e :: l)
      end
  end.
Definition bp_entries_rev t : io (list (K * V)) :=
  p <-? (if (bp_size t =? 0)%Z then Ok 0 else rightmost_leaf t) ;;
  c <-? enter t p ;; rev_collect (fuel_of t) t c None.
Definition bp_range_rev t (start end_ : K) : io (list (K * V)) :=
  match serialize_to_vec start, serialize_to_vec end_ with
  | Ok sb, Ok eb =>
      r <-? seek t eb ;; let '(leaf, count, i) := r in
      c <-? (if (i =? 0)%nat
             then buf <-? page_bytes t leaf ;; prev <-? get64 buf 16 ;; enter t prev
             else Ok (mkCursor leaf (count - i) count)) ;;
      rev_collect (fuel_of t) t c (Some sb)
  | _, _ => Ok []
  end.
Definition bp_first t : io (option (K * V)) :=
  if (bp_size t =? 0)%Z then Ok None else
  p <-? leftmost_nonempty_leaf t ;;
  match p with Some page => rmap Some (typed_entry t page 0) | None => Ok None end.
Definition bp_last t : io (option (K * V)) :=
  if (bp_size t =? 0)%Z then Ok None else
  p <-? rightmost_nonempty_leaf t ;;
  match p with
  | Some page =>
      buf <-? page_bytes t page ;; count <-? page_count buf ;;
      last_slot <-? checked_sub count 1 ;; rmap Some (typed_entry t page last_slot)
  | None => Ok None
  end.

(** Both encodings, then the step: [with_two_scratches]. *)
Definition encoding {A B} `{Codec A} (a : A) t (f : list Z → step B) : step B :=
  let! bs := serialize_to_vec a from t in f bs.
Definition bp_put k v t : step unit :=
  let* t, _ := encoding k t (λ kb, encoding v t (λ vb, insert_bytes kb vb None t)) in maybe_compact t.
Definition bp_put_if_absent k v t : step bool :=
  let* t, inserted := encoding k t (λ kb, encoding v t (λ vb,
    let! hint := descend_to_leaf t kb from t in
    match slot hint with
    | Found _ => (t, Ok false)
    | Absent _ => let* t, _ := insert_bytes kb vb (Some hint) t in (t, Ok true)
    end)) in
  if inserted then let* t, _ := maybe_compact t in (t, Ok true) else (t, Ok false).
(** The value under the hint, decoded with [?]. *)
Definition current_value t (hint : DescentHint) : io (option V) :=
  match slot hint with
  | Found i => bs <-? value_bytes_at t (leaf_page hint) i ;; rmap Some (deserialize_from bs)
  | Absent _ => Ok None
  end.
Definition bp_replace k v t : step (option V) :=
  let* t, prev := encoding k t (λ kb, encoding v t (λ vb,
    let! hint := descend_to_leaf t kb from t in
    let! prev := current_value t hint from t in
    let* t, _ := insert_bytes kb vb (Some hint) t in (t, Ok prev))) in
  let* t, _ := maybe_compact t in (t, Ok prev).
Definition bp_delete k t : step bool :=
  let* t, deleted := encoding k t (λ kb, delete_bytes kb t) in
  if deleted then let* t, _ := maybe_compact t in (t, Ok true) else (t, Ok false).
Definition bp_update k (f : option V → option V) t : step unit :=
  encoding k t (λ kb,
    let! hint := descend_to_leaf t kb from t in
    let! current := current_value t hint from t in
    match f current, slot hint with
    | Some v, _ =>
        let* t, _ := encoding v t (λ vb, insert_bytes kb vb (Some hint) t) in maybe_compact t
    | None, Found i => let* t, _ := delete_at (leaf_page hint) i t in maybe_compact t
    | None, Absent _ => (t, Ok tt)
    end).

Fixpoint bp_bulk_put (items : list (K * V)) t : step unit :=
  match items with
  | [] => (t, Ok tt)
  | (k, v) :: items => let* t, _ := bp_put k v t in bp_bulk_put items t
  end.
(** [bottom_up_build_encoded]: of adjacent equal keys the last is kept. *)
Fixpoint build_encoded (items : list (K * V)) (pending : option (K * V)) (b : BottomUpBuilder) t :
    step BottomUpBuilder :=
  let emit (q : K * V) t := encoding q.1 t (λ kb, encoding q.2 t (λ vb, builder_push kb vb b t)) in
  match items, pending with
  | [], None => (t, Ok b)
  | [], Some q => emit q t
  | e :: items, None => build_encoded items (Some e) b t
  | e :: items, Some q =>
      if match cmp q.1 e.1 with Eq => true | _ => false end then build_encoded items (Some e) b t
      else let* t, b := emit q t in build_encoded items (Some e) b t
  end.
Definition bp_bulk_put_sorted (sorted : list (K * V)) t : step unit :=
  if negb (bp_size t =? 0)%Z then bp_bulk_put sorted t
  else let* t, b := build_encoded sorted None builder_new t in builder_finish b t.
Definition bp_bulk_delete_sorted (sorted : list K) t : step nat :=
  let! targets := each serialize_to_vec sorted from t in delete_sorted_bytes targets t.
End Typed.
End BPlus.
