(* ===== verification/BPlusBytes.v ===== *)
(** * Reading and writing the bytes of a page

    [patch b off bs] is [b] with [bs] written at [off].  A read after a write
    is what was written, or what was there ([get_bytes_patch]). *)
From stdpp Require Import base numbers option list.
From S2P Require Import Prelude Bytes Mmap Backend BPlusPages.
Import Pages.
Implicit Types (b bs : list Z) (off o n m : nat).

(** ** Slices *)
Lemma get_bytes_ok b o n : o + n ≤ length b → get_bytes b o n = Ok (take n (drop o b)).
Proof. intros Hl. unfold get_bytes, slice. destruct (Nat.leb_spec (o + n) (length b)); [done|lia]. Qed.
Lemma get_bytes_inv b o n bs : get_bytes b o n = Ok bs → o + n ≤ length b ∧ bs = take n (drop o b).
Proof.
  unfold get_bytes, slice. destruct (Nat.leb_spec (o + n) (length b)); [|done]. intros [= <-]. done.
Qed.
Lemma get_bytes_length b o n bs : get_bytes b o n = Ok bs → length bs = n.
Proof. intros [Hl ->]%get_bytes_inv. rewrite length_take, length_drop. lia. Qed.
Lemma get_bytes_within b o n bs i k : get_bytes b o n = Ok bs → i + k ≤ n →
  get_bytes b (o + i) k = get_bytes bs i k.
Proof.
  intros [Hl ->]%get_bytes_inv Hik. rewrite !get_bytes_ok by (rewrite ?length_take, ?length_drop; lia). f_equal.
  rewrite <- drop_drop, skipn_firstn_comm, take_take. f_equal. lia.
Qed.
Lemma get_bytes_app b o x y : get_bytes b o (length x + length y) = Ok (x ++ y) →
  get_bytes b o (length x) = Ok x ∧ get_bytes b (o + length x) (length y) = Ok y.
Proof.
  intros Hg. pose proof (get_bytes_within b o _ _ 0 (length x) Hg) as H1.
  pose proof (get_bytes_within b o _ _ (length x) (length y) Hg) as H2. rewrite Nat.add_0_r in H1.
  rewrite H1, H2 by lia. rewrite !get_bytes_ok by (rewrite length_app; lia). split; f_equal.
  - by rewrite drop_0, take_app_length.
  - rewrite drop_app_length. by apply take_ge.
Qed.
Lemma get_bytes_join b o n m x y : get_bytes b o n = Ok x → get_bytes b (o + n) m = Ok y →
  get_bytes b o (n + m) = Ok (x ++ y).
Proof.
  intros [H1 ->]%get_bytes_inv [H2 ->]%get_bytes_inv. rewrite get_bytes_ok by lia. f_equal.
  by rewrite <- drop_drop, take_take_drop.
Qed.
Lemma get_bytes_nil b o : o ≤ length b → get_bytes b o 0 = Ok [].
Proof. intros. rewrite get_bytes_ok by lia. done. Qed.
Lemma get_bytes_all b : get_bytes b 0 (length b) = Ok b.
Proof. rewrite get_bytes_ok by lia. by rewrite drop_0, firstn_all. Qed.
Lemma get_bytes_ext b b' : length b' = length b →
  (∀ o n, o + n ≤ length b → get_bytes b' o n = get_bytes b o n) → b' = b.
Proof.
  intros Hl Hg. specialize (Hg 0 (length b) ltac:(lia)). rewrite <- Hl in Hg at 1.
  rewrite !get_bytes_all in Hg. by injection Hg.
Qed.

(** ** Writes *)
Definition patch b off bs : list Z := take off b ++ bs ++ drop (off + length bs) b.
Lemma put_bytes_ok b off bs : off + length bs ≤ length b → put_bytes b off bs = Ok (patch b off bs).
Proof. intros Hl. unfold put_bytes, splice. destruct (Nat.leb_spec (off + length bs) (length b)); [done|lia]. Qed.
Lemma patch_length b off bs : off + length bs ≤ length b → length (patch b off bs) = length b.
Proof. intros Hl. unfold patch. rewrite !length_app, length_take, length_drop. lia. Qed.
Lemma get_bytes_patch_eq b off bs : off + length bs ≤ length b →
  get_bytes (patch b off bs) off (length bs) = Ok bs.
Proof.
  intros Hl. rewrite get_bytes_ok by (rewrite patch_length; lia). f_equal. unfold patch.
  rewrite drop_app_length' by (rewrite length_take; lia). apply take_app_length.
Qed.
Lemma get_bytes_patch_ne b off bs o n : off + length bs ≤ length b → o + n ≤ off ∨ off + length bs ≤ o →
  get_bytes (patch b off bs) o n = get_bytes b o n.
Proof.
  intros Hl Hd. unfold get_bytes, slice. rewrite patch_length by done.
  destruct (Nat.leb_spec (o + n) (length b)) as [Hn|Hn]; [|done]. f_equal. unfold patch. destruct Hd as [Hd|Hd].
  - rewrite drop_app_le by (rewrite length_take; lia). rewrite take_app_le by (rewrite length_drop, length_take; lia).
    rewrite skipn_firstn_comm, take_take. f_equal. lia.
  - rewrite drop_app_ge by (rewrite length_take; lia). rewrite length_take, Nat.min_l by lia.
    rewrite drop_app_ge by lia. rewrite drop_drop. do 2 f_equal. lia.
Qed.

#[global] Arguments to_le_bytes : simpl never.

(** ** Integers *)
Lemma le_length n v : length (to_le_bytes n v) = n.
Proof. apply to_digits_length. Qed.
Lemma put_int_ok n b off v : off + n ≤ length b → put n b off v = Ok (patch b off (to_le_bytes n v)).
Proof. intros. unfold put. apply put_bytes_ok. by rewrite le_length. Qed.
Lemma get_of_bytes n b o v : get_bytes b o n = Ok (to_le_bytes n v) → (0 ≤ v < 256 ^ Z.of_nat n)%Z → get n b o = Ok v.
Proof. intros Hg Hv. unfold get. rewrite Hg. simpl. by rewrite le_roundtrip. Qed.
Lemma get_patch_eq n b off v : off + n ≤ length b → (0 ≤ v < 256 ^ Z.of_nat n)%Z →
  get n (patch b off (to_le_bytes n v)) off = Ok v.
Proof.
  intros Hl Hv. apply get_of_bytes; [|done]. pose proof (get_bytes_patch_eq b off (to_le_bytes n v)) as Hg.
  rewrite le_length in Hg. auto.
Qed.
Lemma get_nat_ok n b o v : get n b o = Ok (Z.of_nat v) → rmap Z.to_nat (get n b o) = Ok v.
Proof. intros ->. simpl. by rewrite Nat2Z.id. Qed.
(** The number a field holds, as bytes: what survives any write elsewhere. *)
Definition field (n : nat) b o (v : nat) : Prop := get_bytes b o n = Ok (to_le_bytes n (Z.of_nat v)).
Lemma field_get n b o v : field n b o v → (Z.of_nat v < 256 ^ Z.of_nat n)%Z → rmap Z.to_nat (get n b o) = Ok v.
Proof. intros Hf Hv. apply get_nat_ok. apply get_of_bytes; [done|lia]. Qed.
Lemma field16 b o v : field 2 b o v → (Z.of_nat v < 2 ^ 16)%Z → get16 b o = Ok v.
Proof. intros Hf Hv. apply (field_get 2); [done|]. change (256 ^ Z.of_nat 2)%Z with (2 ^ 16)%Z. lia. Qed.
Lemma field32 b o v : field 4 b o v → (Z.of_nat v < 2 ^ 32)%Z → get32 b o = Ok v.
Proof. intros Hf Hv. apply (field_get 4); [done|]. change (256 ^ Z.of_nat 4)%Z with (2 ^ 32)%Z. lia. Qed.
Lemma field64 b o v : field 8 b o v → (Z.of_nat v < 2 ^ 64)%Z → get64 b o = Ok v.
Proof. intros Hf Hv. apply (field_get 8); [done|]. change (256 ^ Z.of_nat 8)%Z with (2 ^ 64)%Z. lia. Qed.
Lemma field_patch n b o v : o + n ≤ length b → field n (patch b o (to_le_bytes n (Z.of_nat v))) o v.
Proof.
  intros Hl. unfold field. pose proof (get_bytes_patch_eq b o (to_le_bytes n (Z.of_nat v))) as Hg.
  rewrite le_length in Hg. auto.
Qed.

(** ** Agreement outside a range *)
Record same_outside (lo hi : nat) b b' : Prop := {
  so_length : length b' = length b;
  so_bytes : ∀ o n, o + n ≤ lo ∨ hi ≤ o → get_bytes b' o n = get_bytes b o n }.
Lemma same_refl lo hi b : same_outside lo hi b b.
Proof. by constructor. Qed.
Lemma same_trans lo hi b b' b'' : same_outside lo hi b b' → same_outside lo hi b' b'' → same_outside lo hi b b''.
Proof.
  intros [L1 B1] [L2 B2]. constructor; [congruence|]. intros o n Hd. by rewrite B2, B1.
Qed.
Lemma same_widen lo hi lo' hi' b b' : same_outside lo hi b b' → lo' ≤ lo → hi ≤ hi' → same_outside lo' hi' b b'.
Proof. intros [L B] H1 H2. constructor; [done|]. intros o n Hd. apply B. lia. Qed.
Lemma same_patch b off bs : off + length bs ≤ length b → same_outside off (off + length bs) b (patch b off bs).
Proof.
  intros Hl. constructor; [by apply patch_length|]. intros o n Hd. apply get_bytes_patch_ne; [done|lia].
Qed.
Lemma same_field lo hi b b' n o v : same_outside lo hi b b' → o + n ≤ lo ∨ hi ≤ o → field n b o v → field n b' o v.
Proof. intros Hs Hd Hf. unfold field. by rewrite (so_bytes _ _ _ _ Hs). Qed.

(** Two pages that agree outside of three ranges: the counters at [2, 8), a
    part of the slot array and a part of the data. *)
Lemma put16_spec b off v : off + 2 ≤ length b → ∃ b', put16 b off v = Ok b' ∧
  same_outside off (off + 2) b b' ∧ field 2 b' off v.
Proof.
  intros Hl. unfold put16. rewrite put_int_ok by done. eexists. split; [done|]. split; [|by apply field_patch].
  pose proof (same_patch b off (to_le_bytes 2 (Z.of_nat v))) as Hs. rewrite le_length in Hs. auto.
Qed.
Lemma put32_spec b off v : off + 4 ≤ length b → ∃ b', put32 b off v = Ok b' ∧
  same_outside off (off + 4) b b' ∧ field 4 b' off v.
Proof.
  intros Hl. unfold put32. rewrite put_int_ok by done. eexists. split; [done|]. split; [|by apply field_patch].
  pose proof (same_patch b off (to_le_bytes 4 (Z.of_nat v))) as Hs. rewrite le_length in Hs. auto.
Qed.
Lemma put64_spec b off v : off + 8 ≤ length b → ∃ b', put64 b off v = Ok b' ∧
  same_outside off (off + 8) b b' ∧ field 8 b' off v.
Proof.
  intros Hl. unfold put64. rewrite put_int_ok by done. eexists. split; [done|]. split; [|by apply field_patch].
  pose proof (same_patch b off (to_le_bytes 8 (Z.of_nat v))) as Hs. rewrite le_length in Hs. auto.
Qed.
Lemma put_bytes_spec b off bs : off + length bs ≤ length b → ∃ b', put_bytes b off bs = Ok b' ∧
  same_outside off (off + length bs) b b' ∧ get_bytes b' off (length bs) = Ok bs.
Proof.
  intros Hl. rewrite put_bytes_ok by done. eexists. split; [done|]. split; [by apply same_patch|by apply get_bytes_patch_eq].
Qed.
