(* ===== verification/BPlusSlots.v ===== *)
(** * Slotted pages

    [slotted hs buf slots]: behind a header of [hs] bytes the page [buf] has an
    array of slots, which grows up, and entries, which grow down and tile the
    end of the page.  [slots] lists the offset and the bytes of each entry, in
    slot order; their order in memory is any permutation of it. *)
From stdpp Require Import base numbers option list.
From S2P Require Import Prelude Bytes Mmap Backend BPlusPages BPlusNodes BPlusBytes.
Import Pages Nodes.

Abbreviation placed := (nat * list Z)%type.
Implicit Types (hs o n d : nat) (buf b : list Z) (slots A C : list placed) (phys P Q : list (list Z)).

Definition used slots : nat := length (concat (map snd slots)).
Fixpoint place o phys : list placed :=
  match phys with [] => [] | b :: phys => (o, b) :: place (o + length b) phys end.
Record slotted hs buf slots : Prop := {
  st_len : length buf = PAGE_SIZE;
  st_count : field 2 buf 2 (length slots);
  st_off : field 4 buf 4 (PAGE_SIZE - used slots);
  st_slot : ∀ i s, slots !! i = Some s → field 2 buf (hs + i * SLOT_SIZE) s.1;
  st_data : ∃ phys, slots ≡ₚ place (PAGE_SIZE - used slots) phys ∧
    get_bytes buf (PAGE_SIZE - used slots) (used slots) = Ok (concat phys);
  st_room : hs + length slots * SLOT_SIZE + used slots ≤ PAGE_SIZE;
  st_pos : Forall (λ s, 0 < length s.2) slots }.

Lemma page_size_Z : Z.of_nat PAGE_SIZE = 4096%Z.
Proof. unfold PAGE_SIZE. lia. Qed.
Ltac page_lia := pose proof page_size_Z; unfold SLOT_SIZE, HEADER_SIZE, LEAF_HEADER_SIZE in *; lia.
#[global] Opaque PAGE_SIZE.

(** ** Placement *)
Lemma used_cons s slots : used (s :: slots) = length s.2 + used slots.
Proof. unfold used. simpl. by rewrite length_app. Qed.
Lemma used_app A C : used (A ++ C) = used A + used C.
Proof. unfold used. by rewrite map_app, concat_app, length_app. Qed.
Lemma used_perm A C : A ≡ₚ C → used A = used C.
Proof. induction 1; rewrite ?used_cons in *; try done; lia. Qed.
Lemma place_app o P Q : place o (P ++ Q) = place o P ++ place (o + length (concat P)) Q.
Proof.
  revert o. induction P as [|b P IH]; intros o; simpl; [by rewrite Nat.add_0_r|].
  rewrite IH, length_app. do 3 f_equal. lia.
Qed.
Lemma place_snd o phys : map snd (place o phys) = phys.
Proof. revert o. induction phys as [|b phys IH]; intros o; simpl; [done|]. by rewrite IH. Qed.
Lemma place_used o phys : used (place o phys) = length (concat phys).
Proof. unfold used. by rewrite place_snd. Qed.
Lemma place_split o d b phys : (o, b) ∈ place d phys →
  ∃ P Q, phys = P ++ b :: Q ∧ o = d + length (concat P).
Proof.
  revert d. induction phys as [|x phys IH]; intros d; simpl; [by intros ?%not_elem_of_nil|].
  intros [[= -> ->]|Hin]%elem_of_cons.
  - exists [], phys. simpl. split; [done|lia].
  - destruct (IH _ Hin) as (P & Q & -> & ->). exists (x :: P), Q. simpl. rewrite length_app. split; [done|lia].
Qed.
Lemma place_bounds o d b phys : (o, b) ∈ place d phys → d ≤ o ∧ o + length b ≤ d + length (concat phys).
Proof.
  intros (P & Q & -> & ->)%place_split. rewrite concat_app, length_app. simpl. rewrite length_app. lia.
Qed.
Lemma placed_bytes buf o d b phys : get_bytes buf d (length (concat phys)) = Ok (concat phys) →
  (o, b) ∈ place d phys → get_bytes buf o (length b) = Ok b.
Proof.
  intros Hg (P & Q & -> & ->)%place_split. rewrite concat_app, length_app in Hg. simpl in Hg.
  apply get_bytes_app in Hg as [_ Hg]. rewrite length_app in Hg. by apply get_bytes_app in Hg as [Hg _].
Qed.

(** ** Reading a slotted page *)
Section Read.
Context hs buf slots (Hsl : slotted hs buf slots).
Lemma data_phys : ∃ phys, slots ≡ₚ place (PAGE_SIZE - used slots) phys ∧ length (concat phys) = used slots ∧
  get_bytes buf (PAGE_SIZE - used slots) (length (concat phys)) = Ok (concat phys).
Proof using Hsl.
  destruct (st_data _ _ _ Hsl) as (phys & Hp & Hg). exists phys. pose proof (used_perm _ _ Hp) as Hu.
  rewrite place_used in Hu. split_and!; [done|congruence|]. by rewrite <- Hu.
Qed.
Lemma slot_bounds o b : (o, b) ∈ slots → PAGE_SIZE - used slots ≤ o ∧ o + length b ≤ PAGE_SIZE.
Proof using Hsl.
  intros Hin. destruct data_phys as (phys & Hp & Hu & _). rewrite Hp in Hin. apply place_bounds in Hin.
  pose proof (st_room _ _ _ Hsl). lia.
Qed.
Lemma slot_blob o b : (o, b) ∈ slots → get_bytes buf o (length b) = Ok b.
Proof using Hsl. intros Hin. destruct data_phys as (phys & Hp & _ & Hg). rewrite Hp in Hin. by eapply placed_bytes. Qed.
Lemma page_count_ok : page_count buf = Ok (length slots).
Proof using Hsl. apply field16; [apply Hsl|]. pose proof (st_room _ _ _ Hsl). page_lia. Qed.
Lemma data_offset_ok : data_offset buf = Ok (PAGE_SIZE - used slots).
Proof using Hsl. apply field32; [apply Hsl|]. page_lia. Qed.
Lemma slot_at_ok i o b : slots !! i = Some (o, b) → slot_at hs buf i = Ok o.
Proof using Hsl.
  intros Hi. apply field16; [by apply (st_slot _ _ _ Hsl i (o, b))|]. apply list_elem_of_lookup_2 in Hi.
  apply slot_bounds in Hi. page_lia.
Qed.
End Read.

Lemma slotted_nil hs buf : length buf = PAGE_SIZE → hs ≤ PAGE_SIZE → field 2 buf 2 0 → field 4 buf 4 PAGE_SIZE →
  slotted hs buf [].
Proof.
  intros Hl Hh Hc Ho. constructor; unfold used; simpl; rewrite ?Nat.sub_0_r; try done; [|page_lia].
  exists []. split; [done|]. apply get_bytes_nil. lia.
Qed.

(** ** Inserting an entry *)
Lemma slotted_insert hs buf buf' slots pos b : slotted hs buf slots → pos ≤ length slots → 0 < length b →
  hs + (length slots + 1) * SLOT_SIZE + (used slots + length b) ≤ PAGE_SIZE →
  let d := PAGE_SIZE - used slots in let nd := d - length b in
  length buf' = PAGE_SIZE → field 2 buf' 2 (length slots + 1) → field 4 buf' 4 nd →
  get_bytes buf' nd (length b) = Ok b → get_bytes buf' d (used slots) = get_bytes buf d (used slots) →
  (∀ i o, i < pos → field 2 buf (hs + i * SLOT_SIZE) o → field 2 buf' (hs + i * SLOT_SIZE) o) →
  field 2 buf' (hs + pos * SLOT_SIZE) nd →
  (∀ i o, pos ≤ i < length slots → field 2 buf (hs + i * SLOT_SIZE) o → field 2 buf' (hs + (i + 1) * SLOT_SIZE) o) →
  slotted hs buf' (take pos slots ++ (nd, b) :: drop pos slots).
Proof.
  intros Hsl Hpos Hb Hroom d nd Hlen Hcount Hoff Hblob Hdata Hlo Hat Hhi.
  set (slots' := take pos slots ++ (nd, b) :: drop pos slots).
  assert (slots' ≡ₚ (nd, b) :: slots) as Hp.
  { unfold slots'. rewrite <- Permutation_middle. by rewrite take_drop. }
  assert (used slots' = length b + used slots) as Hu by (rewrite (used_perm _ _ Hp); apply used_cons).
  assert (length slots' = length slots + 1) as Hn by (rewrite (Permutation_length Hp); simpl; lia).
  assert (PAGE_SIZE - used slots' = nd) as Hnd by (unfold nd, d; lia).
  pose proof (st_room _ _ _ Hsl) as Hr.
  constructor; rewrite ?Hn, ?Hnd; try done; [| |lia|].
  - intros i s Hi. unfold slots' in Hi. destruct (decide (i < pos)) as [Hip|Hip].
    + rewrite lookup_app_l in Hi by (rewrite length_take; lia). rewrite lookup_take in Hi.
      rewrite decide_True in Hi by lia.
      apply Hlo; [done|]. by apply (st_slot _ _ _ Hsl).
    + rewrite lookup_app_r in Hi by (rewrite length_take; lia). rewrite length_take, Nat.min_l in Hi by lia.
      destruct (i - pos) as [|j] eqn:E; simpl in Hi.
      * injection Hi as <-. by replace i with pos by lia.
      * rewrite lookup_drop in Hi. replace i with (pos + j + 1) by lia. apply Hhi.
        { split; [lia|]. by eapply lookup_lt_Some. }
        by apply (st_slot _ _ _ Hsl).
  - destruct (data_phys _ _ _ Hsl) as (phys & Hphys & Hlp & Hg). exists (b :: phys). split.
    + rewrite Hp, Hphys. simpl. by replace (nd + length b) with (PAGE_SIZE - used slots) by (unfold nd, d; lia).
    + simpl. rewrite Hu. apply get_bytes_join; [done|]. replace (nd + length b) with d by (unfold nd, d; lia).
      rewrite Hdata. unfold d. by rewrite <- Hlp at 2.
  - rewrite Hp. constructor; [done|]. apply Hsl.
Qed.

(** The slots from [pos] on move one to the right. *)
Lemma shift_right_spec hs pos n buf (f : nat → nat) : hs + (pos + n + 1) * SLOT_SIZE ≤ length buf →
  (∀ i, pos ≤ i < pos + n → field 2 buf (hs + i * SLOT_SIZE) (f i) ∧ (Z.of_nat (f i) < 2 ^ 16)%Z) →
  ∃ buf', shift_right hs pos n buf = Ok buf' ∧
    same_outside (hs + (pos + 1) * SLOT_SIZE) (hs + (pos + n + 1) * SLOT_SIZE) buf buf' ∧
    ∀ i, pos ≤ i < pos + n → field 2 buf' (hs + (i + 1) * SLOT_SIZE) (f i).
Proof.
  revert buf. induction n as [|n IH]; intros buf Hl Hf.
  - exists buf. split_and!; [done|apply same_refl|]. lia.
  - destruct (Hf (pos + n) ltac:(lia)) as [Hfn Hbn]. cbn [shift_right]. unfold slot_at at 1.
    rewrite (field16 _ _ _ Hfn Hbn). cbn [rbind].
    destruct (put16_spec buf (hs + (pos + n + 1) * SLOT_SIZE) (f (pos + n))) as (b1 & -> & Hs1 & Hf1); [page_lia|].
    cbn [rbind]. destruct (IH b1) as (b2 & -> & Hs2 & Hf2).
    { rewrite (so_length _ _ _ _ Hs1). page_lia. }
    { intros i Hi. destruct (Hf i ltac:(lia)) as [Hfi Hbi]. split; [|done].
      eapply same_field; [exact Hs1| |done]. page_lia. }
    exists b2. split_and!; [done| |].
    + eapply same_trans; [eapply same_widen; [exact Hs1|page_lia..]|eapply same_widen; [exact Hs2|page_lia..]].
    + intros i Hi. destruct (decide (i = pos + n)) as [->|Hne]; [|apply Hf2; lia].
      eapply same_field; [exact Hs2| |exact Hf1]. page_lia.
Qed.
Lemma record_slot_spec hs pos nd count buf : 8 ≤ hs → hs + (pos + 1) * SLOT_SIZE ≤ length buf →
  ∃ buf', record_slot hs pos nd count buf = Ok buf' ∧ length buf' = length buf ∧
    field 2 buf' (hs + pos * SLOT_SIZE) nd ∧ field 2 buf' 2 (count + 1) ∧ field 4 buf' 4 nd ∧
    ∀ o n, (o + n ≤ 2 ∨ 8 ≤ o) → (o + n ≤ hs + pos * SLOT_SIZE ∨ hs + (pos + 1) * SLOT_SIZE ≤ o) →
      get_bytes buf' o n = get_bytes buf o n.
Proof.
  intros Hh Hl. unfold record_slot.
  destruct (put16_spec buf (hs + pos * SLOT_SIZE) nd) as (b1 & -> & S1 & F1); [page_lia|]. cbn [rbind].
  destruct (put16_spec b1 2 (count + 1)) as (b2 & -> & S2 & F2); [rewrite (so_length _ _ _ _ S1); page_lia|]. cbn [rbind].
  destruct (put32_spec b2 4 nd) as (b3 & -> & S3 & F3);
    [rewrite (so_length _ _ _ _ S2), (so_length _ _ _ _ S1); page_lia|].
  exists b3. split; [done|]. split; [by rewrite (so_length _ _ _ _ S3), (so_length _ _ _ _ S2), (so_length _ _ _ _ S1)|].
  split_and!.
  - eapply same_field; [exact S3|page_lia|]. eapply same_field; [exact S2|page_lia|done].
  - eapply same_field; [exact S3|page_lia|done].
  - done.
  - intros o n H1 H2. rewrite (so_bytes _ _ _ _ S3), (so_bytes _ _ _ _ S2), (so_bytes _ _ _ _ S1); [done|page_lia..].
Qed.

(** ** Appending an entry at the tail of the slot array *)
Lemma slotted_append hs buf buf' slots b : slotted hs buf slots → 0 < length b →
  hs + (length slots + 1) * SLOT_SIZE + (used slots + length b) ≤ PAGE_SIZE →
  let d := PAGE_SIZE - used slots in let nd := d - length b in
  length buf' = PAGE_SIZE → field 2 buf' 2 (length slots + 1) → field 4 buf' 4 nd →
  get_bytes buf' nd (length b) = Ok b → get_bytes buf' d (used slots) = get_bytes buf d (used slots) →
  (∀ i o, i < length slots → field 2 buf (hs + i * SLOT_SIZE) o → field 2 buf' (hs + i * SLOT_SIZE) o) →
  field 2 buf' (hs + length slots * SLOT_SIZE) nd →
  slotted hs buf' (slots ++ [(nd, b)]).
Proof.
  intros Hsl Hb Hroom d nd Hlen Hc Ho Hbl Hd Hlo Hat.
  pose proof (slotted_insert hs buf buf' slots (length slots) b Hsl ltac:(lia) Hb Hroom Hlen Hc Ho Hbl Hd Hlo Hat) as Hi.
  rewrite firstn_all, skipn_all in Hi. apply Hi. lia.
Qed.

(** ** Removing an entry *)
Lemma shift_left_spec hs j n buf (f : nat → nat) : 0 < j → hs + (j + n) * SLOT_SIZE ≤ length buf →
  (∀ i, j ≤ i < j + n → field 2 buf (hs + i * SLOT_SIZE) (f i) ∧ (Z.of_nat (f i) < 2 ^ 16)%Z) →
  ∃ buf', shift_left hs j n buf = Ok buf' ∧
    same_outside (hs + (j - 1) * SLOT_SIZE) (hs + (j + n - 1) * SLOT_SIZE) buf buf' ∧
    ∀ i, j ≤ i < j + n → field 2 buf' (hs + (i - 1) * SLOT_SIZE) (f i).
Proof.
  revert j buf. induction n as [|n IH]; intros j buf Hj Hl Hf.
  - exists buf. split_and!; [done|apply same_refl|]. lia.
  - destruct (Hf j ltac:(lia)) as [Hfj Hbj]. cbn [shift_left]. unfold slot_at at 1.
    rewrite (field16 _ _ _ Hfj Hbj). cbn [rbind].
    destruct (put16_spec buf (hs + (j - 1) * SLOT_SIZE) (f j)) as (b1 & -> & Hs1 & Hf1); [page_lia|].
    cbn [rbind]. destruct (IH (j + 1) b1) as (b2 & -> & Hs2 & Hf2); [lia|rewrite (so_length _ _ _ _ Hs1); page_lia| |].
    { intros i Hi. destruct (Hf i ltac:(lia)) as [Hfi Hbi]. split; [|done].
      eapply same_field; [exact Hs1| |done]. page_lia. }
    exists b2. split_and!; [done| |].
    + eapply same_trans; [eapply same_widen; [exact Hs1|page_lia..]|eapply same_widen; [exact Hs2|page_lia..]].
    + intros i Hi. destruct (decide (i = j)) as [->|Hne]; [|apply Hf2; lia].
      eapply same_field; [exact Hs2| |exact Hf1]. page_lia.
Qed.
Definition relocated (eo es e : nat) : nat := if (e <=? eo)%nat then e + es else e.
Lemma relocate_slots_spec hs j n eo es buf (f : nat → nat) : hs + (j + n) * SLOT_SIZE ≤ length buf →
  (∀ i, j ≤ i < j + n → field 2 buf (hs + i * SLOT_SIZE) (f i) ∧ (Z.of_nat (f i) < 2 ^ 16)%Z) →
  ∃ buf', relocate_slots hs j n eo es buf = Ok buf' ∧
    same_outside (hs + j * SLOT_SIZE) (hs + (j + n) * SLOT_SIZE) buf buf' ∧
    ∀ i, j ≤ i < j + n → field 2 buf' (hs + i * SLOT_SIZE) (relocated eo es (f i)).
Proof.
  revert j buf. induction n as [|n IH]; intros j buf Hl Hf.
  - exists buf. split_and!; [done|apply same_refl|]. lia.
  - destruct (Hf j ltac:(lia)) as [Hfj Hbj]. cbn [relocate_slots]. unfold slot_at at 1.
    rewrite (field16 _ _ _ Hfj Hbj). cbn [rbind]. change (if (f j <=? eo)%nat then f j + es else f j) with (relocated eo es (f j)).
    destruct (put16_spec buf (hs + j * SLOT_SIZE) (relocated eo es (f j))) as (b1 & -> & Hs1 & Hf1); [page_lia|].
    cbn [rbind]. destruct (IH (j + 1) b1) as (b2 & -> & Hs2 & Hf2); [rewrite (so_length _ _ _ _ Hs1); page_lia| |].
    { intros i Hi. destruct (Hf i ltac:(lia)) as [Hfi Hbi]. split; [|done].
      eapply same_field; [exact Hs1| |done]. page_lia. }
    exists b2. split_and!; [done| |].
    + eapply same_trans; [eapply same_widen; [exact Hs1|page_lia..]|eapply same_widen; [exact Hs2|page_lia..]].
    + intros i Hi. destruct (decide (i = j)) as [->|Hne]; [|apply Hf2; lia].
      eapply same_field; [exact Hs2| |exact Hf1]. page_lia.
Qed.
Lemma copy_within_spec buf src n dst x : get_bytes buf src n = Ok x → dst + n ≤ length buf →
  ∃ buf', copy_within buf src n dst = Some buf' ∧ same_outside dst (dst + n) buf buf' ∧ get_bytes buf' dst n = Ok x.
Proof.
  intros Hg Hl. pose proof (get_bytes_length _ _ _ _ Hg) as Hx. unfold copy_within. unfold get_bytes in Hg.
  destruct (slice buf src n) as [y|]; [|done]. injection Hg as ->. simpl.
  destruct (put_bytes_spec buf dst x) as (b' & Hp & Hs & Hb); [lia|]. unfold put_bytes in Hp. rewrite Hx in *.
  destruct (splice buf dst x); [|done]. injection Hp as <-. by eexists.
Qed.

(** The page without the entry of its slot [length A]. *)
Definition relocate_slot (eo es : nat) (s : placed) : placed := (relocated eo es s.1, s.2).
Definition remove_entry hs (pos count eo data_off es : nat) buf : io (list Z) :=
  leaf <-? shift_left hs (pos + 1) (count - (pos + 1)) buf ;;
  dlen <-? checked_sub eo data_off ;;
  leaf <-? match copy_within leaf data_off dlen (data_off + es) with Some b => Ok b | None => Panic end ;;
  count' <-? checked_sub count 1 ;;
  leaf <-? relocate_slots hs 0 count' eo es leaf ;;
  leaf <-? put16 leaf 2 count' ;;
  put32 leaf 4 (data_off + es).
Lemma place_relocate eo es d P Q : eo = d + length (concat P) → 0 < es →
  Forall (λ b, 0 < length b) P →
  map (relocate_slot eo es) (place d P ++ place (eo + es) Q) = place (d + es) (P ++ Q).
Proof.
  intros -> Hes HP. rewrite map_app, place_app. f_equal.
  - assert (∀ d0, d0 + length (concat P) = d + length (concat P) →
      map (relocate_slot (d + length (concat P)) es) (place d0 P) = place (d0 + es) P) as Hg; [|by apply Hg].
    clear Q. revert HP. generalize (d + length (concat P)) as e. intros e HP. induction HP as [|b P Hb HP IH]; intros d0 Hd0; simpl; [done|].
    simpl in Hd0. rewrite length_app in Hd0. f_equal.
    + unfold relocate_slot, relocated. simpl. destruct (Nat.leb_spec d0 e); [done|lia].
    + rewrite IH by lia. f_equal. lia.
  - replace (d + es + length (concat P)) with (d + length (concat P) + es) by lia.
    generalize (d + length (concat P)) as e. intros e. assert (∀ o, e < o → map (relocate_slot e es) (place o Q) = place o Q) as Hg.
    { clear P HP. induction Q as [|b Q IH]; intros o Ho; simpl; [done|]. rewrite IH by lia. f_equal.
      unfold relocate_slot, relocated. simpl. destruct (Nat.leb_spec o e); [lia|done]. }
    apply Hg. lia.
Qed.
Lemma close_slot hs buf A C eo b : slotted hs buf (A ++ (eo, b) :: C) → ∃ b1,
  shift_left hs (length A + 1) (length C) buf = Ok b1 ∧
  same_outside (hs + length A * SLOT_SIZE) (hs + (length A + length C) * SLOT_SIZE) buf b1 ∧
  ∀ i s, (A ++ C) !! i = Some s → field 2 b1 (hs + i * SLOT_SIZE) s.1.
Proof.
  intros Hsl. set (slots := A ++ (eo, b) :: C) in *. pose proof (st_room _ _ _ Hsl) as Hr.
  assert (length slots = length A + length C + 1) as Hn by (unfold slots; rewrite length_app; simpl; lia).
  pose proof (st_len _ _ _ Hsl) as Hl.
  destruct (shift_left_spec hs (length A + 1) (length C) buf (λ i, default 0 (fst <$> slots !! i))) as (b1 & Hb1 & Hs1 & Hf1);
    [lia|page_lia| |].
  { intros i Hi. destruct (slots !! i) as [[o x]|] eqn:E; [|apply lookup_ge_None in E; lia]. simpl. split.
    - by apply (st_slot _ _ _ Hsl i (o, x)).
    - apply list_elem_of_lookup_2 in E. pose proof (slot_bounds _ _ _ Hsl _ _ E). page_lia. }
  exists b1. split; [done|]. split; [eapply same_widen; [exact Hs1|page_lia..]|].
  intros i s Hi. destruct (decide (i < length A)) as [HiA|HiA].
  - rewrite lookup_app_l in Hi by done. eapply same_field; [exact Hs1|page_lia|].
    apply (st_slot _ _ _ Hsl i s). unfold slots. by rewrite lookup_app_l.
  - rewrite lookup_app_r in Hi by lia. pose proof (lookup_lt_Some _ _ _ Hi) as HiC.
    specialize (Hf1 (i + 1) ltac:(lia)). replace (i + 1 - 1) with i in Hf1 by lia.
    assert (slots !! (i + 1) = Some s) as E.
    { unfold slots. rewrite lookup_app_r by lia. by replace (i + 1 - length A) with (S (i - length A)) by lia. }
    by rewrite E in Hf1.
Qed.
(** What the entry's removal leaves in memory. *)
Lemma remaining_phys hs buf A C eo b : slotted hs buf (A ++ (eo, b) :: C) →
  let d := PAGE_SIZE - used (A ++ (eo, b) :: C) in
  ∃ P Q, eo = d + length (concat P) ∧ Forall (λ b, 0 < length b) P ∧ 0 < length b ∧
    A ++ C ≡ₚ place d P ++ place (eo + length b) Q ∧
    length (concat P) + (length b + length (concat Q)) = used (A ++ (eo, b) :: C) ∧
    get_bytes buf d (length (concat P)) = Ok (concat P) ∧
    get_bytes buf (eo + length b) (length (concat Q)) = Ok (concat Q).
Proof.
  intros Hsl d. destruct (data_phys _ _ _ Hsl) as (phys & Hp & Hu & Hg). fold d in Hp, Hg. clearbody d.
  assert ((eo, b) ∈ place d phys) as Hin by (rewrite <- Hp; apply elem_of_app; right; left).
  destruct (place_split _ _ _ _ Hin) as (P & Q & -> & ->). exists P, Q.
  pose proof (st_pos _ _ _ Hsl) as Hpos. rewrite Hp, place_app, Forall_app in Hpos. destruct Hpos as [HP HQ].
  rewrite concat_app, length_app in Hu, Hg. simpl in Hu, Hg, HQ. rewrite length_app in Hu, Hg.
  inversion HQ as [|? ? Hb _]; subst. split_and!; try done.
  - rewrite <- (place_snd d P). rewrite Forall_map. exact HP.
  - apply (Permutation_app_inv _ _ _ _ (d + length (concat P), b)). rewrite Hp, place_app. done.
  - rewrite <- (length_app b) in Hg. by apply get_bytes_app in Hg as [Hg _].
  - rewrite <- (length_app b) in Hg. apply get_bytes_app in Hg as [_ Hg]. rewrite length_app in Hg.
    by apply get_bytes_app in Hg as [_ Hg].
Qed.
Lemma slotted_remove hs buf A C eo b : 8 ≤ hs → slotted hs buf (A ++ (eo, b) :: C) →
  let slots := A ++ (eo, b) :: C in
  ∃ buf', remove_entry hs (length A) (length slots) eo (PAGE_SIZE - used slots) (length b) buf = Ok buf' ∧
    slotted hs buf' (map (relocate_slot eo (length b)) (A ++ C)) ∧
    ∀ o n, o + n ≤ 2 ∨ 8 ≤ o ∧ o + n ≤ hs → get_bytes buf' o n = get_bytes buf o n.
Proof.
  intros Hh Hsl slots. destruct (remaining_phys _ _ _ _ _ _ Hsl) as (P & Q & He & HP & Hb & Hperm & Hu & HgP & HgQ).
  fold slots in Hu, He, HgP. set (d := PAGE_SIZE - used slots) in *. pose proof (st_room _ _ _ Hsl) as Hr. fold slots in Hr.
  assert (length slots = length A + length C + 1) as Hn by (unfold slots; rewrite length_app; simpl; lia).
  pose proof (st_len _ _ _ Hsl) as Hl.
  unfold remove_entry. destruct (close_slot _ _ _ _ _ _ Hsl) as (b1 & Hb1 & S1 & F1).
  replace (length slots - (length A + 1)) with (length C) by lia. rewrite Hb1. cbn [rbind].
  unfold checked_sub. destruct (Nat.ltb_spec eo d); [lia|]. cbn [rbind].
  destruct (copy_within_spec b1 d (eo - d) (d + length b) (concat P)) as (b2 & -> & S2 & G2).
  { rewrite (so_bytes _ _ _ _ S1) by page_lia. by replace (eo - d) with (length (concat P)) by lia. }
  { rewrite (so_length _ _ _ _ S1). page_lia. }
  cbn [rbind]. destruct (Nat.ltb_spec (length slots) 1); [lia|]. cbn [rbind].
  destruct (relocate_slots_spec hs 0 (length slots - 1) eo (length b) b2 (λ i, default 0 (fst <$> (A ++ C) !! i)))
    as (b3 & -> & S3 & F3).
  { rewrite (so_length _ _ _ _ S2), (so_length _ _ _ _ S1). page_lia. }
  { intros i Hi. destruct ((A ++ C) !! i) as [[o x]|] eqn:E; [|apply lookup_ge_None in E; rewrite length_app in E; lia].
    simpl. split; [eapply same_field; [exact S2|page_lia|]; by apply (F1 i (o, x))|].
    apply list_elem_of_lookup_2, elem_of_app in E. destruct (slot_bounds _ _ _ Hsl o x) as [_ ?]; [|page_lia].
    apply elem_of_app. destruct E; [by left|right; by right]. }
  cbn [rbind]. destruct (put16_spec b3 2 (length slots - 1)) as (b4 & -> & S4 & F4);
    [rewrite (so_length _ _ _ _ S3), (so_length _ _ _ _ S2), (so_length _ _ _ _ S1); page_lia|].
  cbn [rbind]. destruct (put32_spec b4 4 (d + length b)) as (b5 & -> & S5 & F5);
    [rewrite (so_length _ _ _ _ S4), (so_length _ _ _ _ S3), (so_length _ _ _ _ S2), (so_length _ _ _ _ S1); page_lia|].
  exists b5. split; [done|]. assert (∀ o n, o + n ≤ 2 ∨ 8 ≤ o → (o + n ≤ hs ∨ hs + (length slots - 1) * SLOT_SIZE ≤ o) →
    get_bytes b5 o n = get_bytes b2 o n) as Hfr.
  { intros o n H1 H2. rewrite (so_bytes _ _ _ _ S5), (so_bytes _ _ _ _ S4), (so_bytes _ _ _ _ S3); [done|page_lia..]. }
  split; [|intros o n Hd; rewrite Hfr, (so_bytes _ _ _ _ S2), (so_bytes _ _ _ _ S1); [done|page_lia..]].
  set (slots' := map (relocate_slot eo (length b)) (A ++ C)).
  assert (slots' ≡ₚ place (d + length b) (P ++ Q)) as Hperm'.
  { unfold slots'. rewrite <- (place_relocate eo (length b) d P Q He Hb HP). by rewrite Hperm. }
  assert (used slots' = length (concat P) + length (concat Q)) as Hu'.
  { rewrite (used_perm _ _ Hperm'), place_used. by rewrite concat_app, length_app. }
  assert (length slots' = length slots - 1) as Hn' by (unfold slots'; rewrite length_map, length_app; lia).
  assert (PAGE_SIZE - used slots' = d + length b) as Hd' by lia.
  constructor; rewrite ?Hn', ?Hd'.
  - by rewrite (so_length _ _ _ _ S5), (so_length _ _ _ _ S4), (so_length _ _ _ _ S3), (so_length _ _ _ _ S2), (so_length _ _ _ _ S1).
  - eapply same_field; [exact S5|page_lia|done].
  - done.
  - intros i s Hi. unfold slots' in Hi. rewrite list_lookup_fmap in Hi. destruct ((A ++ C) !! i) as [[o x]|] eqn:E; [|done].
    injection Hi as <-. simpl. eapply same_field; [exact S5|page_lia|]. eapply same_field; [exact S4|page_lia|].
    pose proof (lookup_lt_Some _ _ _ E) as Hi. rewrite length_app in Hi. specialize (F3 i ltac:(lia)). by rewrite E in F3.
  - exists (P ++ Q). split; [done|]. rewrite Hu', concat_app. apply get_bytes_join.
    + rewrite Hfr by page_lia. by replace (length (concat P)) with (eo - d) by lia.
    + replace (d + length b + length (concat P)) with (eo + length b) by lia. rewrite Hfr by page_lia.
      rewrite (so_bytes _ _ _ _ S2), (so_bytes _ _ _ _ S1) by page_lia. done.
  - page_lia.
  - unfold slots'. rewrite Forall_map. pose proof (st_pos _ _ _ Hsl) as Hp. apply Forall_app in Hp as [HA HC].
    apply Forall_cons in HC as [_ HC]. apply Forall_app. split; done.
Qed.

(** ** Overwriting an entry with one of the same length *)
Lemma slotted_overwrite hs buf buf' A C o b b' : 8 ≤ hs → slotted hs buf (A ++ (o, b) :: C) → length b' = length b →
  same_outside o (o + length b) buf buf' → get_bytes buf' o (length b) = Ok b' →
  slotted hs buf' (A ++ (o, b') :: C).
Proof.
  intros Hh Hsl Hlb Hs Hg. assert ((o, b) ∈ A ++ (o, b) :: C) as Hin by (apply elem_of_app; right; left).
  pose proof (slot_bounds _ _ _ Hsl _ _ Hin) as Hob. pose proof (st_room _ _ _ Hsl) as Hr. pose proof (st_len _ _ _ Hsl) as Hl.
  destruct (remaining_phys _ _ _ _ _ _ Hsl) as (P & Q & He & _ & Hb & Hperm & Hu & HgP & HgQ).
  assert (used (A ++ (o, b') :: C) = used (A ++ (o, b) :: C)) as Hue by (rewrite !used_app, !used_cons; simpl; lia).
  assert (length (A ++ (o, b') :: C) = length (A ++ (o, b) :: C)) as Hne by (rewrite !length_app; done).
  constructor; rewrite ?Hue, ?Hne.
  - by rewrite (so_length _ _ _ _ Hs).
  - eapply same_field; [exact Hs|page_lia|apply Hsl].
  - eapply same_field; [exact Hs|page_lia|apply Hsl].
  - intros i s Hi. assert (∃ s0, (A ++ (o, b) :: C) !! i = Some s0 ∧ s0.1 = s.1) as (s0 & Hs0 & <-).
    { destruct (decide (i < length A)).
      - rewrite lookup_app_l in Hi |- * by done. by eexists.
      - rewrite lookup_app_r in Hi |- * by lia. destruct (i - length A); simpl in *; [injection Hi as <-|]; by eexists. }
    pose proof (lookup_lt_Some _ _ _ Hs0). eapply same_field; [exact Hs|page_lia|by apply (st_slot _ _ _ Hsl)].
  - exists (P ++ b' :: Q). split.
    + rewrite place_app. simpl. rewrite <- He, Hlb, <- !Permutation_middle, Hperm. done.
    + rewrite concat_app. simpl. rewrite <- Hu at 2. apply get_bytes_join.
      { by rewrite (so_bytes _ _ _ _ Hs) by lia. }
      rewrite <- He. apply get_bytes_join; [done|]. by rewrite (so_bytes _ _ _ _ Hs) by lia.
  - done.
  - pose proof (st_pos _ _ _ Hsl) as Hp. apply Forall_app in Hp as [HA HC]. apply Forall_cons in HC as [_ HC].
    apply Forall_app. split; [done|]. constructor; [simpl in *; lia|done].
Qed.
