(* ===== verification/BPlusCells.v ===== *)
(** * Leaf and internal pages

    [is_leaf] and [is_internal] say which entries a slotted page holds, in
    slot order, and which links its header has.  The lemmas read them and
    follow each write of [BPlusNodes.v] to a single page. *)
From stdpp Require Import base numbers option sorting list.
From S2P Require Import Prelude Bytes BinarySearch Order BTreeMap Backend Mmap BPlusPages BPlusNodes BPlusBytes BPlusSlots.
Import Pages Nodes.
(** A value lies in the page or in an extent of its own. *)
Inductive payload := Inline (v : list Z) | Extent (start : nat) (v : list Z).
Abbreviation entry := (list Z * payload)%type.
Abbreviation sep := (list Z * nat)%type.
Section Slotted.
Implicit Types (buf leaf : list Z) (k v : list Z) (pl : payload) (e : entry) (es : list entry) (cs : list sep) (o p next prev : nat).

Definition page_number p : Prop := (Z.of_nat p < 2 ^ 64)%Z.
Definition stored_value pl : list Z := match pl with Inline v | Extent _ v => v end.
Definition raw_of pl : Z :=
  match pl with Inline v => Z.of_nat (length v) | Extent _ v => Z.lor (Z.of_nat (length v) mod 2 ^ 32) OVFL_FLAG end.
Definition payload_bytes pl : list Z :=
  match pl with Inline v => v | Extent start _ => to_le_bytes 8 (Z.of_nat start) end.
Definition enc_entry e : list Z :=
  to_le_bytes 2 (Z.of_nat (length e.1)) ++ to_le_bytes 4 (raw_of e.2) ++ e.1 ++ payload_bytes e.2.
Definition enc_sep (c : sep) : list Z :=
  to_le_bytes 2 (Z.of_nat (length c.1)) ++ to_le_bytes 8 (Z.of_nat c.2) ++ c.1.
Definition entry_ok e : Prop :=
  (Z.of_nat (length e.1) < 2 ^ 16)%Z ∧ (Z.of_nat (length (stored_value e.2)) < 2 ^ 31)%Z ∧
  match e.2 with Inline _ => True | Extent start _ => page_number start end.
Definition sep_ok (c : sep) : Prop := (Z.of_nat (length c.1) < 2 ^ 16)%Z ∧ page_number c.2.
Definition payload_size pl : nat := length (payload_bytes pl).

Lemma enc_entry_length e : length (enc_entry e) = 6 + length e.1 + payload_size e.2.
Proof. unfold enc_entry. rewrite !length_app, !le_length. unfold payload_size. lia. Qed.
Lemma enc_sep_length c : length (enc_sep c) = 10 + length c.1.
Proof. unfold enc_sep. rewrite !length_app, !le_length. lia. Qed.

(** ** The length field of an entry *)
Lemma small_no_flag x : (0 ≤ x < 2 ^ 31)%Z → Z.land x OVFL_FLAG = 0%Z.
Proof.
  intros Hx. change OVFL_FLAG with (2 ^ 31)%Z. apply Z.bits_inj'. intros n Hn. rewrite Z.land_spec, Z.bits_0.
  destruct (Z.eq_dec n 31%Z) as [->|Hne]; [|rewrite Z.pow2_bits_false by lia; apply andb_false_r].
  replace (Z.testbit x 31%Z) with false; [done|]. symmetry. destruct (Z.eq_dec x 0%Z) as [->|]; [apply Z.bits_0|].
  apply Z.bits_above_log2; [lia|]. apply Z.log2_lt_pow2; lia.
Qed.
Lemma flagged_flag x : (0 ≤ x < 2 ^ 31)%Z → Z.land (Z.lor x OVFL_FLAG) OVFL_FLAG = OVFL_FLAG.
Proof. intros Hx. rewrite Z.land_lor_distr_l, small_no_flag by done. done. Qed.
Lemma flagged_len x : (0 ≤ x < 2 ^ 31)%Z → Z.land (Z.lor x OVFL_FLAG) (OVFL_FLAG - 1) = x.
Proof.
  intros Hx. rewrite Z.land_lor_distr_l. change (OVFL_FLAG - 1)%Z with (Z.ones 31).
  rewrite Z.land_ones, Z.mod_small by lia. change (Z.land OVFL_FLAG (Z.ones 31)) with 0%Z. apply Z.lor_0_r.
Qed.
Lemma flagged_bound x : (0 ≤ x < 2 ^ 31)%Z → (0 ≤ Z.lor x OVFL_FLAG < 2 ^ 32)%Z.
Proof.
  intros Hx. assert (Z.lor x OVFL_FLAG = x + OVFL_FLAG)%Z as ->; [|change OVFL_FLAG with (2 ^ 31)%Z; lia].
  rewrite <- Z.lxor_lor by (by apply small_no_flag). symmetry. apply Z.add_nocarry_lxor. by apply small_no_flag.
Qed.
Section Raw.
Context k pl (Hok : entry_ok (k, pl)).
Lemma raw_bound : (0 ≤ raw_of pl < 2 ^ 32)%Z.
Proof using Hok.
  destruct Hok as (_ & Hv & _). destruct pl as [v|s v]; simpl in *; [lia|]. rewrite Z.mod_small by lia.
  apply flagged_bound. lia.
Qed.
Lemma raw_is_extent : is_extent (raw_of pl) = match pl with Inline _ => false | Extent _ _ => true end.
Proof using Hok.
  destruct Hok as (_ & Hv & _). unfold is_extent. destruct pl as [v|s v]; simpl in *.
  - by rewrite small_no_flag by lia.
  - rewrite Z.mod_small, flagged_flag by lia. done.
Qed.
Lemma raw_payload : payload_of (raw_of pl) = payload_size pl.
Proof using Hok.
  unfold payload_of. rewrite raw_is_extent. destruct pl as [v|s v]; unfold payload_size; cbn [payload_bytes raw_of];
    [lia|by rewrite le_length].
Qed.
Lemma raw_extent_len s v : pl = Extent s v → extent_len (raw_of pl) = length v.
Proof using Hok.
  intros ->. destruct Hok as (_ & Hv & _). unfold extent_len. simpl in *. rewrite Z.mod_small, flagged_len by lia. lia.
Qed.
End Raw.

(** ** Reading an entry *)
Section Entry.
Context buf o k pl (Hg : get_bytes buf o (length (enc_entry (k, pl))) = Ok (enc_entry (k, pl))) (Hok : entry_ok (k, pl)).
Lemma entry_parts : field 2 buf o (length k) ∧ get_bytes buf (o + 2) 4 = Ok (to_le_bytes 4 (raw_of pl)) ∧
  get_bytes buf (o + 6) (length k) = Ok k ∧ get_bytes buf (o + 6 + length k) (payload_size pl) = Ok (payload_bytes pl).
Proof using Hg.
  unfold enc_entry in Hg. cbn [fst snd] in Hg. rewrite length_app in Hg. apply get_bytes_app in Hg as [H1 H2].
  rewrite length_app in H2. apply get_bytes_app in H2 as [H2 H3]. rewrite length_app in H3. apply get_bytes_app in H3 as [H3 H4].
  rewrite le_length in H1, H2, H3, H4. rewrite le_length in H2, H3, H4. split_and!; try done.
  - by replace (o + 6) with (o + 2 + 4) by lia.
  - by replace (o + 6 + length k) with (o + 2 + 4 + length k) by lia.
Qed.
Lemma entry_key_len : get16 buf o = Ok (length k).
Proof using Hg Hok. apply field16; [apply entry_parts|apply Hok]. Qed.
Lemma entry_key : leaf_key buf o = Ok k.
Proof using Hg Hok. unfold leaf_key. rewrite entry_key_len. apply entry_parts. Qed.
Lemma entry_raw : raw_vl_at buf o = Ok (raw_of pl).
Proof using Hg Hok. apply get_of_bytes; [apply entry_parts|]. apply (raw_bound _ _ Hok). Qed.
Lemma entry_extent_ok : entry_extent buf o =
  Ok match pl with Inline _ => None | Extent start v => Some (start, length v) end.
Proof using Hg Hok.
  unfold entry_extent. rewrite entry_raw, entry_key_len. cbn [rbind]. rewrite (raw_is_extent _ _ Hok).
  destruct entry_parts as (_ & _ & _ & Hp). destruct pl as [v|s v]; cbn [rbind]; [done|].
  assert (field 8 buf (o + 6 + length k) s) as Hf by (unfold payload_size in Hp; cbn [payload_bytes] in Hp; by rewrite le_length in Hp).
  rewrite (field64 _ _ _ Hf) by apply Hok. cbn [rbind]. by rewrite (raw_extent_len _ _ Hok s v).
Qed.
End Entry.
Section Sep.
Context buf o k p (Hg : get_bytes buf o (length (enc_sep (k, p))) = Ok (enc_sep (k, p))) (Hok : sep_ok (k, p)).
Lemma sep_parts : field 2 buf o (length k) ∧ field 8 buf (o + 2) p ∧ get_bytes buf (o + 10) (length k) = Ok k.
Proof using Hg.
  unfold enc_sep in Hg. cbn [fst snd] in Hg. rewrite length_app in Hg. apply get_bytes_app in Hg as [H1 H2].
  rewrite length_app in H2. apply get_bytes_app in H2 as [H2 H3]. rewrite le_length in H1, H2, H3.
  rewrite le_length in H2, H3. split_and!; try done. by replace (o + 10) with (o + 2 + 8) by lia.
Qed.
Lemma sep_key : internal_key buf o = Ok k.
Proof using Hg Hok. unfold internal_key. destruct sep_parts as (H1 & _ & H3). rewrite (field16 _ _ _ H1) by apply Hok. done. Qed.
Lemma sep_child : get64 buf (o + 2) = Ok p.
Proof using Hg Hok. apply field64; [apply sep_parts|apply Hok]. Qed.
End Sep.

(** ** Pages *)
Record is_leaf buf next prev es : Prop := {
  lp_slots : ∃ slots, slotted LEAF_HEADER_SIZE buf slots ∧ map snd slots = map enc_entry es;
  lp_type : get_bytes buf 0 1 = Ok [1%Z];
  lp_next : field 8 buf 8 next;
  lp_prev : field 8 buf 16 prev;
  lp_ok : Forall entry_ok es }.
Record is_internal buf leftmost cs : Prop := {
  ip_slots : ∃ slots, slotted HEADER_SIZE buf slots ∧ map snd slots = map enc_sep cs;
  ip_type : get_bytes buf 0 1 = Ok [2%Z];
  ip_leftmost : field 8 buf 8 leftmost;
  ip_ok : Forall sep_ok cs }.
(** The bytes the entries of a leaf take with their slots. *)
Definition leaf_used es : nat := list_sum (map (λ e, length (enc_entry e)) es).
Definition seps_used cs : nat := list_sum (map (λ c, length (enc_sep c)) cs).
Lemma used_map {A} (enc : A → list Z) slots l : map snd slots = map enc l →
  used slots = list_sum (map (λ a, length (enc a)) l).
Proof.
  intros Hm. unfold used. rewrite Hm. clear Hm. induction l as [|a l IH]; simpl; [done|]. by rewrite length_app, IH.
Qed.
Lemma slot_of {A} (enc : A → list Z) slots l i a : map snd slots = map enc l → l !! i = Some a →
  ∃ o, slots !! i = Some (o, enc a).
Proof.
  intros Hm Hi. assert (map snd slots !! i = Some (enc a)) as Hs by (rewrite Hm; by rewrite list_lookup_fmap, Hi).
  rewrite list_lookup_fmap in Hs. destruct (slots !! i) as [[o x]|]; [|done]. injection Hs as <-. by exists o.
Qed.
Lemma map_length_eq {A} (enc : A → list Z) (slots : list placed) l : map snd slots = map enc l → length slots = length l.
Proof. intros Hm. by rewrite <- (length_map snd), Hm, length_map. Qed.

Lemma leaf_page_type buf next prev es : is_leaf buf next prev es → page_type buf = Ok PAGE_LEAF.
Proof. intros Hp. unfold page_type, get. by rewrite (lp_type _ _ _ _ Hp). Qed.
Lemma internal_page_type buf l cs : is_internal buf l cs → page_type buf = Ok PAGE_INTERNAL.
Proof. intros Hp. unfold page_type, get. by rewrite (ip_type _ _ _ Hp). Qed.
Lemma leaf_page_length buf next prev es : is_leaf buf next prev es → length buf = PAGE_SIZE.
Proof. intros [(slots & Hs & _) _ _ _ _]. apply Hs. Qed.
Lemma internal_page_length buf l cs : is_internal buf l cs → length buf = PAGE_SIZE.
Proof. intros [(slots & Hs & _) _ _ _]. apply Hs. Qed.
Section LeafRead.
Context buf next prev es (Hp : is_leaf buf next prev es).
Lemma leaf_count : page_count buf = Ok (length es).
Proof using Hp. destruct (lp_slots _ _ _ _ Hp) as (slots & Hs & Hm). rewrite (page_count_ok _ _ _ Hs). by rewrite (map_length_eq _ _ _ Hm). Qed.
Lemma leaf_data_off : data_offset buf = Ok (PAGE_SIZE - leaf_used es).
Proof using Hp. destruct (lp_slots _ _ _ _ Hp) as (slots & Hs & Hm). rewrite (data_offset_ok _ _ _ Hs). by rewrite (used_map _ _ _ Hm). Qed.
Lemma leaf_room : LEAF_HEADER_SIZE + length es * SLOT_SIZE + leaf_used es ≤ PAGE_SIZE.
Proof using Hp.
  destruct (lp_slots _ _ _ _ Hp) as (slots & Hs & Hm). pose proof (st_room _ _ _ Hs) as Hr.
  by rewrite (map_length_eq _ _ _ Hm), (used_map _ _ _ Hm) in Hr.
Qed.
(** Where the entry of a slot is, and its bytes. *)
Lemma leaf_slot i k pl : es !! i = Some (k, pl) → entry_ok (k, pl) ∧ ∃ o, slot_at LEAF_HEADER_SIZE buf i = Ok o ∧
  get_bytes buf o (length (enc_entry (k, pl))) = Ok (enc_entry (k, pl)) ∧ leaf_key buf o = Ok k.
Proof using Hp.
  intros Hi. destruct (lp_slots _ _ _ _ Hp) as (slots & Hs & Hm). destruct (slot_of _ _ _ _ _ Hm Hi) as (o & Ho).
  assert (entry_ok (k, pl)) as Hok by (eapply Forall_lookup_1; [apply Hp|done]). split; [done|]. exists o.
  pose proof (slot_at_ok _ _ _ Hs _ _ _ Ho). apply list_elem_of_lookup_2 in Ho. pose proof (slot_blob _ _ _ Hs _ _ Ho) as Hg.
  split_and!; [done..|]. by apply (entry_key _ _ _ pl).
Qed.
End LeafRead.
Section InternalRead.
Context buf l cs (Hp : is_internal buf l cs).
Lemma internal_count : page_count buf = Ok (length cs).
Proof using Hp. destruct (ip_slots _ _ _ Hp) as (slots & Hs & Hm). rewrite (page_count_ok _ _ _ Hs). by rewrite (map_length_eq _ _ _ Hm). Qed.
Lemma internal_data_off : data_offset buf = Ok (PAGE_SIZE - seps_used cs).
Proof using Hp. destruct (ip_slots _ _ _ Hp) as (slots & Hs & Hm). rewrite (data_offset_ok _ _ _ Hs). by rewrite (used_map _ _ _ Hm). Qed.
Lemma internal_room : HEADER_SIZE + length cs * SLOT_SIZE + seps_used cs ≤ PAGE_SIZE.
Proof using Hp.
  destruct (ip_slots _ _ _ Hp) as (slots & Hs & Hm). pose proof (st_room _ _ _ Hs) as Hr.
  by rewrite (map_length_eq _ _ _ Hm), (used_map _ _ _ Hm) in Hr.
Qed.
Lemma internal_slot i k p : cs !! i = Some (k, p) → ∃ o, slot_at HEADER_SIZE buf i = Ok o ∧
  internal_key buf o = Ok k ∧ get64 buf (o + 2) = Ok p.
Proof using Hp.
  intros Hi. destruct (ip_slots _ _ _ Hp) as (slots & Hs & Hm). destruct (slot_of _ _ _ _ _ Hm Hi) as (o & Ho).
  assert (sep_ok (k, p)) as Hok by (eapply Forall_lookup_1; [apply Hp|done]). exists o.
  pose proof (slot_at_ok _ _ _ Hs _ _ _ Ho). apply list_elem_of_lookup_2 in Ho. pose proof (slot_blob _ _ _ Hs _ _ Ho) as Hg.
  split_and!; [done|by eapply sep_key|by eapply sep_child].
Qed.
End InternalRead.

End Slotted.

(** * Searching a page

    Ordered entries split at a key ([under], [over]), and the binary searches
    of [BPlusNodes.v] as such splits. *)
(** ** A map around a key *)
Section Split.
Context {K V : Type} `{TotalCmp K}.
Implicit Types (k : K) (v w : V) (m A B C : btree K V).
Definition under k m : Prop := Forall (λ e, cmp e.1 k = Lt) m.
Definition over k m : Prop := Forall (λ e, cmp k e.1 = Lt) m.
Lemma under_nil k : under k [].
Proof. constructor. Qed.
Lemma over_nil k : over k [].
Proof. constructor. Qed.
Lemma under_app k A B : under k (A ++ B) ↔ under k A ∧ under k B.
Proof. apply Forall_app. Qed.
Lemma over_app k A B : over k (A ++ B) ↔ over k A ∧ over k B.
Proof. apply Forall_app. Qed.
Lemma get_over k C : over k C → bt_get k C = None.
Proof. apply bt_lt_get_None. Qed.
Lemma get_skip k A C : under k A → bt_get k (A ++ C) = bt_get k C.
Proof. induction 1 as [|e A He _ IH]; [done|]. destruct e as [j u]. simpl in *. rewrite (proj1 (cmp_Lt_Gt _ _) He). done. Qed.
Lemma get_here k A v C : under k A → bt_get k (A ++ (k, v) :: C) = Some v.
Proof. intros HA. rewrite get_skip by done. simpl. by rewrite cmp_refl. Qed.
Lemma get_gap k A C : under k A → over k C → bt_get k (A ++ C) = None.
Proof. intros. rewrite get_skip by done. by apply get_over. Qed.
Lemma insert_skip k v A C : under k A → bt_insert k v (A ++ C) = A ++ bt_insert k v C.
Proof. induction 1 as [|e A He _ IH]; [done|]. destruct e as [j u]. simpl in *. rewrite (proj1 (cmp_Lt_Gt _ _) He). by rewrite IH. Qed.
Lemma insert_gap k v A C : under k A → over k C → bt_insert k v (A ++ C) = A ++ (k, v) :: C.
Proof.
  intros HA HC. rewrite insert_skip by done. f_equal. destruct C as [|[j u] C]; [done|]. inversion HC; subst. simpl in *.
  by rewrite H3.
Qed.
Lemma insert_here k v A w C : under k A → bt_insert k v (A ++ (k, w) :: C) = A ++ (k, v) :: C.
Proof. intros HA. rewrite insert_skip by done. simpl. by rewrite cmp_refl. Qed.
Lemma remove_skip k A C : under k A → bt_remove k (A ++ C) = A ++ bt_remove k C.
Proof. induction 1 as [|e A He _ IH]; [done|]. destruct e as [j u]. simpl in *. rewrite (proj1 (cmp_Lt_Gt _ _) He). by rewrite IH. Qed.
Lemma remove_over k C : over k C → bt_remove k C = C.
Proof. induction 1 as [|e C He _ IH]; [done|]. destruct e as [j u]. simpl in *. rewrite He. by rewrite IH. Qed.
Lemma remove_here k A v C : under k A → over k C → bt_remove k (A ++ (k, v) :: C) = A ++ C.
Proof. intros HA HC. rewrite remove_skip by done. simpl. by rewrite cmp_refl, remove_over. Qed.
Lemma remove_gap k A C : under k A → over k C → bt_remove k (A ++ C) = A ++ C.
Proof. intros HA HC. by rewrite remove_skip, remove_over. Qed.
Lemma wf_app A B : bt_wf (A ++ B) ↔ bt_wf A ∧ bt_wf B ∧ ∀ a b, a ∈ A → b ∈ B → cmp a.1 b.1 = Lt.
Proof.
  induction A as [|[k v] A IH]; simpl.
  - split; [|tauto]. intros Hw. split_and!; [done..|]. by intros a b ?%not_elem_of_nil.
  - rewrite IH, Forall_app. setoid_rewrite elem_of_cons. split.
    + intros [[HA HB] (WA & WB & HX)]. split_and!; [done..|]. intros a b [->|Ha] Hb; [|by apply HX].
      rewrite Forall_forall in HB. by apply HB.
    + intros ([HA WA] & WB & HX). split_and!; [done| |done..|].
      * apply Forall_forall. intros b Hb. apply (HX (k, v) b); [by left|exact Hb].
      * intros a b Ha Hb. apply HX; [by right|done].
Qed.
Lemma wf_split k m : bt_wf m →
  (∃ A v C, m = A ++ (k, v) :: C ∧ under k A ∧ over k C) ∨ (∃ A C, m = A ++ C ∧ under k A ∧ over k C).
Proof.
  induction m as [|[j u] m IH]; intros Hw; [right; exists [], []; split_and!; [done|constructor..]|]. destruct Hw as [Hj Hw].
  destruct (cmpP k j) as [->|E _|_ E].
  - left. exists [], u, m. split_and!; [done|constructor|done].
  - right. exists [], ((j, u) :: m). split_and!; [done|constructor|]. constructor; [done|].
    eapply Forall_impl; [exact Hj|]. intros e He. simpl in *. ord.
  - destruct (IH Hw) as [(A & v & C & -> & HA & HC)|(A & C & -> & HA & HC)]; [left|right].
    + exists ((j, u) :: A), v, C. split_and!; [done|by constructor|done].
    + exists ((j, u) :: A), C. split_and!; [done|by constructor|done].
Qed.
Lemma wf_mid A k v C : bt_wf (A ++ (k, v) :: C) → under k A ∧ over k C.
Proof.
  intros (_ & [HC _] & HX)%wf_app. split; [|done]. apply Forall_forall. intros a Ha. apply (HX a (k, v)); [done|left].
Qed.
(** The map's values through a function. *)
Context {W : Type} (f : V → W).
Definition on_values m : btree K W := map (λ e, (e.1, f e.2)) m.
Lemma values_get k m : bt_get k (on_values m) = f <$> bt_get k m.
Proof using Type. induction m as [|[j u] m IH]; simpl; [done|]. destruct (cmp k j); [done|done|exact IH]. Qed.
Lemma values_insert k v m : on_values (bt_insert k v m) = bt_insert k (f v) (on_values m).
Proof using Type. induction m as [|[j u] m IH]; simpl; [done|]. destruct (cmp k j); simpl; [done|done|by rewrite IH]. Qed.
Lemma values_remove k m : on_values (bt_remove k m) = bt_remove k (on_values m).
Proof using Type. induction m as [|[j u] m IH]; simpl; [done|]. destruct (cmp k j); simpl; [done|by rewrite IH..]. Qed.
Lemma values_wf m : bt_wf (on_values m) ↔ bt_wf m.
Proof using Type. induction m as [|[j u] m IH]; simpl; [done|]. rewrite IH. unfold on_values at 1. by rewrite Forall_map. Qed.
End Split.

(** ** Binary searches *)
Lemma half_bounds lo hi : lo < hi → lo ≤ lo + (hi - lo) / 2 < hi.
Proof. intros Hl. pose proof (Nat.div_lt (hi - lo) 2 ltac:(lia) ltac:(lia)). lia. Qed.
Lemma partition_point_spec (before : nat → io bool) (P : nat → bool) : ∀ fuel lo hi, hi - lo ≤ fuel → lo ≤ hi →
  (∀ i, lo ≤ i < hi → before i = Ok (P i)) → (∀ i j, lo ≤ i < j → j < hi → P j = true → P i = true) →
  ∃ m, partition_point fuel lo hi before = Ok m ∧ lo ≤ m ≤ hi ∧
    (∀ i, lo ≤ i < m → P i = true) ∧ (∀ i, m ≤ i < hi → P i = false).
Proof.
  induction fuel as [|fuel IH]; intros lo hi Hf Hl Hb Hm; cbn [partition_point]; destruct (Nat.ltb_spec lo hi) as [Hlt|Hge];
    try lia; try (exists lo; split_and!; [done|lia..|intros; lia|intros; lia]).
  pose proof (half_bounds _ _ Hlt) as Hmid. set (mid := lo + (hi - lo) / 2) in *. clearbody mid.
  rewrite Hb by lia. cbn [rbind]. destruct (P mid) eqn:E.
  - destruct (IH (mid + 1) hi) as (m & -> & H1 & H2 & H3); [lia|lia|intros; apply Hb; lia|intros i j ? ? ?; apply (Hm i j); (done || lia)|].
    exists m. split_and!; [done|lia|lia| |done]. intros i Hi. destruct (decide (i ≤ mid)); [|apply H2; lia].
    destruct (decide (i = mid)) as [->|]; [done|]. by apply (Hm i mid); [lia..|].
  - destruct (IH lo mid) as (m & -> & H1 & H2 & H3); [lia|lia|intros; apply Hb; lia|intros i j ? ? ?; apply (Hm i j); (done || lia)|].
    exists m. split_and!; [done|lia|lia|done|]. intros i Hi. destruct (decide (i < mid)); [apply H3; lia|].
    destruct (decide (i = mid)) as [->|]; [done|]. destruct (P i) eqn:E'; [|done].
    by rewrite (Hm mid i) in E by (done || lia).
Qed.

Implicit Types (k key : list Z) (es : list entry) (cs : list sep).
(** How many separators are at or below the key, and the child they lead to. *)
Fixpoint n_upto {A} key (cs : list (list Z * A)) : nat :=
  match cs with [] => 0 | (s, _) :: cs => if key <? s then 0 else S (n_upto key cs) end.
Fixpoint pick {A} key (c : A) (cs : list (list Z * A)) : A :=
  match cs with [] => c | (s, c') :: cs => if key <? s then c else pick key c' cs end.
Lemma n_upto_bound {A} key (cs : list (list Z * A)) : n_upto key cs ≤ length cs.
Proof. induction cs as [|[s c] cs IH]; simpl; [lia|]. destruct (key <? s); lia. Qed.
Lemma n_upto_unique {A} key (cs : list (list Z * A)) m : m ≤ length cs →
  (∀ i s c, i < m → cs !! i = Some (s, c) → (key <? s) = false) →
  (∀ s c, cs !! m = Some (s, c) → (key <? s) = true) → n_upto key cs = m.
Proof.
  revert m. induction cs as [|[s c] cs IH]; intros m Hm Hlo Hhi; simpl in *; [lia|]. destruct m as [|m].
  - by rewrite (Hhi s c).
  - rewrite (Hlo 0 s c) by (done || lia). f_equal. apply IH; [lia| |done].
    intros i s' c' Hi Hc. by apply (Hlo (S i) s' c' ltac:(lia)).
Qed.
Lemma pick_upto {A} key (c : A) (l : list (list Z * A)) : pick key c l =
  match n_upto key l with O => c | S n => from_option snd c (l !! n) end.
Proof.
  revert c. induction l as [|[s c'] l IH]; intros c; simpl; [done|]. destruct (key <? s); [done|]. rewrite IH.
  pose proof (n_upto_bound key l) as Hb. destruct (n_upto key l) as [|n]; simpl; [done|].
  destruct (l !! n) eqn:E; [done|]. apply lookup_ge_None in E. lia.
Qed.
Lemma wf_lookup_lt {V} (m : btree (list Z) V) i j a b : bt_wf m → i < j → m !! i = Some a → m !! j = Some b → cmp a.1 b.1 = Lt.
Proof.
  intros Hw Hij Hi Hj. rewrite <- (take_drop j m) in Hw. apply wf_app in Hw as (_ & _ & HX). apply HX.
  - apply list_elem_of_lookup. exists i. rewrite lookup_take. by rewrite decide_True.
  - apply list_elem_of_lookup. exists 0. rewrite lookup_drop. by rewrite Nat.add_0_r.
Qed.

Lemma separators_upto_spec buf l cs key : is_internal buf l cs → bt_wf cs →
  separators_upto key buf (length cs) = Ok (n_upto key cs).
Proof.
  intros Hp Hw. unfold separators_upto.
  destruct (partition_point_spec (λ mid, eo <-? slot_at HEADER_SIZE buf mid ;; k <-? internal_key buf eo ;; Ok (negb (key <? k)))
    (λ i, negb (key <? from_option fst [] (cs !! i))) (length cs) 0 (length cs)) as (m & -> & Hm & Hlo & Hhi); [lia|lia| | |].
  - intros i Hi. destruct (cs !! i) as [[s c]|] eqn:E; [|apply lookup_ge_None in E; lia].
    destruct (internal_slot _ _ _ Hp _ _ _ E) as (o & -> & Hk & _). cbn [rbind]. by rewrite Hk.
  - intros i j Hij Hj. destruct (cs !! j) as [[s c]|] eqn:Ej; [|apply lookup_ge_None in Ej; lia].
    destruct (cs !! i) as [[s' c']|] eqn:Ei; [|apply lookup_ge_None in Ei; lia]. simpl.
    assert (i < j) as Hlt by lia. pose proof (wf_lookup_lt _ _ _ _ _ Hw Hlt Ei Ej) as Hs. simpl in Hs.
    intros Hns%negb_true_iff. apply negb_true_iff. destruct (key <? s') eqn:E'; [|done]. apply ltb_lt in E'.
    assert ((key <? s) = true) as E''; [|congruence]. apply ltb_lt. ord.
  - f_equal. symmetry. apply n_upto_unique; [lia| |].
    + intros i s c Hi Hc. specialize (Hlo i ltac:(lia)). rewrite Hc in Hlo. by apply negb_true_iff in Hlo.
    + intros s c Hc. pose proof (lookup_lt_Some _ _ _ Hc). specialize (Hhi m ltac:(lia)). rewrite Hc in Hhi.
      by apply negb_false_iff in Hhi.
Qed.

(** Where a leaf holds a key, or would. *)
Fixpoint locate {V} key (es : btree (list Z) V) : found :=
  match es with
  | [] => Absent 0
  | (k, _) :: es =>
      match cmp k key with
      | Lt => match locate key es with Found i => Found (S i) | Absent i => Absent (S i) end
      | Eq => Found 0
      | Gt => Absent 0
      end
  end.
Lemma locate_here {V} key (A C : btree (list Z) V) v : under key A → locate key (A ++ (key, v) :: C) = Found (length A).
Proof.
  induction 1 as [|[k w] A He _ IH]; simpl in *; [by rewrite cmp_refl|]. by rewrite He, IH.
Qed.
Lemma locate_gap {V} key (A C : btree (list Z) V) : under key A → over key C → locate key (A ++ C) = Absent (length A).
Proof.
  intros HA HC. induction HA as [|[k w] A He _ IH]; simpl in *; [|by rewrite He, IH].
  destruct HC as [|[k w] C Hc _]; simpl in *; [done|]. by rewrite (proj1 (cmp_Lt_Gt _ _) Hc).
Qed.
Lemma find_slot_loop_spec buf next prev es key : is_leaf buf next prev es → bt_wf es → ∀ fuel lo hi, hi - lo ≤ fuel →
  lo ≤ hi ≤ length es →
  (∀ i k pl, i < lo → es !! i = Some (k, pl) → cmp k key = Lt) →
  (∀ i k pl, hi ≤ i → es !! i = Some (k, pl) → cmp key k = Lt) →
  find_slot_loop fuel lo hi buf key = Ok (locate key es).
Proof.
  intros Hp Hw. induction fuel as [|fuel IH]; intros lo hi Hf Hl Hlo Hhi; cbn [find_slot_loop]; destruct (Nat.ltb_spec lo hi) as [Hlt|Hge]; try lia.
  1,3: assert (lo = hi) as <- by lia; rewrite <- (take_drop lo es), locate_gap, length_take;
    [by rewrite Nat.min_l by lia|..]; apply Forall_forall; intros [k pl] (i & Hi)%list_elem_of_lookup; simpl.
  1,3: rewrite lookup_take in Hi; case_decide; [|done]; by apply (Hlo i k pl).
  1,2: rewrite lookup_drop in Hi; apply (Hhi (lo + i) k pl); [lia|done].
  pose proof (half_bounds _ _ Hlt) as Hmid. set (mid := lo + (hi - lo) / 2) in *. clearbody mid.
  destruct (es !! mid) as [[k pl]|] eqn:E; [|apply lookup_ge_None in E; lia].
  destruct (leaf_slot _ _ _ _ Hp _ _ _ E) as (_ & o & -> & _ & Hk). cbn [rbind]. rewrite Hk. cbn [rbind].
  destruct (cmpP k key) as [->|E1 E1'|E1 E1'].
  - assert (es = take mid es ++ (key, pl) :: drop (S mid) es) as Hes by (by rewrite <- drop_S, take_drop).
    assert (bt_wf (take mid es ++ (key, pl) :: drop (S mid) es)) as Hw' by (by rewrite <- Hes).
    apply wf_mid in Hw' as [HA _]. rewrite Hes at 1. rewrite locate_here by done. rewrite length_take. f_equal. f_equal. lia.
  - apply IH; [lia|lia| |done]. intros i k' pl' Hi E'. destruct (decide (i = mid)) as [->|]; [congruence|].
    assert (i < mid) as Him by lia. pose proof (wf_lookup_lt _ _ _ _ _ Hw Him E' E). simpl in *. ord.
  - apply IH; [lia|lia|done|]. intros i k' pl' Hi E'. destruct (decide (i = mid)) as [->|]; [congruence|].
    assert (mid < i) as Him by lia. pose proof (wf_lookup_lt _ _ _ _ _ Hw Him E E'). simpl in *. ord.
Qed.
