(* ===== verification/BPlusPageOps.v ===== *)
(** * What the writes to one page do to its entries

    Inserting, appending, removing and overwriting entries of a leaf or an
    internal page, and the header fields. *)
From stdpp Require Import base numbers option sorting list.
From S2P Require Import Prelude Bytes BinarySearch Order BTreeMap Mmap Backend BPlusPages BPlusNodes BPlusBytes BPlusSlots BPlusCells.
Import Pages Nodes.
Implicit Types (buf leaf b : list Z) (k v key : list Z) (pl : payload) (e : entry) (es : list entry) (cs : list sep) (o p next prev : nat).

(** Bytes of the header no entry write touches. *)
Definition same_header hs buf b : Prop := ∀ o n, o + n ≤ 2 ∨ 8 ≤ o ∧ o + n ≤ hs → get_bytes b o n = get_bytes buf o n.
Lemma same_header_trans hs buf b b' : same_header hs buf b → same_header hs b b' → same_header hs buf b'.
Proof. intros H1 H2 o n Hd. by rewrite H2, H1. Qed.

(** ** Inserting an entry of [n] bytes at [pos] *)
Lemma slotted_insert_steps hs buf slots pos n : slotted hs buf slots → 8 ≤ hs → pos ≤ length slots → 0 < n →
  hs + (length slots + 1) * SLOT_SIZE + (used slots + n) ≤ PAGE_SIZE →
  let nd := PAGE_SIZE - used slots - n in
  ∃ b1, shift_right hs pos (length slots - pos) buf = Ok b1 ∧ length b1 = PAGE_SIZE ∧
    ∀ b b2, length b = n → same_outside nd (nd + n) b1 b2 → get_bytes b2 nd n = Ok b →
      ∃ b3, record_slot hs pos nd (length slots) b2 = Ok b3 ∧ same_header hs buf b3 ∧
        slotted hs b3 (take pos slots ++ (nd, b) :: drop pos slots).
Proof.
  intros Hsl Hh Hpos Hn Hroom nd. pose proof (st_len _ _ _ Hsl) as Hl. pose proof (st_room _ _ _ Hsl) as Hr.
  destruct (shift_right_spec hs pos (length slots - pos) buf (λ i, default 0 (fst <$> slots !! i))) as (b1 & Hb1 & S1 & F1);
    [page_lia| |].
  { intros i Hi. destruct (slots !! i) as [[o x]|] eqn:E; [|apply lookup_ge_None in E; lia]. simpl. split.
    - by apply (st_slot _ _ _ Hsl i (o, x)).
    - apply list_elem_of_lookup_2 in E. pose proof (slot_bounds _ _ _ Hsl _ _ E). page_lia. }
  exists b1. split; [done|]. split; [by rewrite (so_length _ _ _ _ S1)|]. intros b b2 Hb S2 G2.
  destruct (record_slot_spec hs pos nd (length slots) b2) as (b3 & Hb3 & L3 & F3 & C3 & O3 & S3);
    [lia|rewrite (so_length _ _ _ _ S2), (so_length _ _ _ _ S1); page_lia|].
  exists b3. split; [done|]. assert (∀ o m, o + m ≤ 2 ∨ 8 ≤ o → o + m ≤ hs + pos * SLOT_SIZE ∨ hs + (length slots + 1) * SLOT_SIZE ≤ o →
    o + m ≤ nd ∨ nd + n ≤ o → get_bytes b3 o m = get_bytes buf o m) as Hfr.
  { intros o m H1 H2 H3. rewrite S3, (so_bytes _ _ _ _ S2), (so_bytes _ _ _ _ S1); [done|page_lia..]. }
  split; [intros o m Hd; apply Hfr; page_lia|].
  assert (∀ i x : nat, field 2 b2 (hs + i * SLOT_SIZE) x → i ≠ pos → i ≤ length slots → field 2 b3 (hs + i * SLOT_SIZE) x) as Hf3.
  { intros i x Hf Hi Hi'. unfold field. rewrite S3; [done|page_lia..]. }
  subst n. apply (slotted_insert hs buf b3 slots pos b Hsl Hpos Hn Hroom); fold nd.
  - by rewrite L3, (so_length _ _ _ _ S2), (so_length _ _ _ _ S1).
  - done.
  - done.
  - rewrite S3 by page_lia. done.
  - apply Hfr; page_lia.
  - intros i x Hi Hf. unfold field. rewrite Hfr by page_lia. exact Hf.
  - done.
  - intros i x Hi Hf. apply Hf3; [|lia|lia]. eapply same_field; [exact S2|page_lia|].
    specialize (F1 i ltac:(lia)). destruct (slots !! i) as [[o y]|] eqn:E; [|apply lookup_ge_None in E; lia]. simpl in F1.
    pose proof (st_slot _ _ _ Hsl i (o, y) E) as Hf'. unfold field in Hf, Hf'. cbn [fst] in Hf'.
    assert (to_le_bytes 2 (Z.of_nat x) = to_le_bytes 2 (Z.of_nat o)) as Hv by congruence. unfold field. rewrite Hv. exact F1.
Qed.
Lemma map_take_drop {A} (enc : A → list Z) (slots : list placed) l pos x nd : map snd slots = map enc l →
  map snd (take pos slots ++ (nd, enc x) :: drop pos slots) = map enc (take pos l ++ x :: drop pos l).
Proof. intros Hm. rewrite !map_app. simpl. by rewrite <- !firstn_map, <- !skipn_map, Hm. Qed.

(** ** Leaves *)
Lemma put_entry_spec nd k pl leaf : nd + length (enc_entry (k, pl)) ≤ length leaf →
  ∃ b, put_entry nd k (raw_of pl) (payload_bytes pl) leaf = Ok b ∧
    same_outside nd (nd + length (enc_entry (k, pl))) leaf b ∧
    get_bytes b nd (length (enc_entry (k, pl))) = Ok (enc_entry (k, pl)).
Proof.
  intros Hl. pose proof (enc_entry_length (k, pl)) as He. cbn [fst snd] in He. unfold payload_size in He. unfold put_entry.
  destruct (put16_spec leaf nd (length k)) as (b1 & -> & S1 & F1); [lia|]. cbn [rbind].
  pose proof (put_bytes_spec b1 (nd + 2) (to_le_bytes 4 (raw_of pl))) as P2. rewrite le_length, (so_length _ _ _ _ S1) in P2.
  destruct P2 as (b2 & Hb2 & S2 & F2); [lia|]. unfold put. rewrite Hb2. cbn [rbind].
  destruct (put_bytes_spec b2 (nd + 6) k) as (b3 & -> & S3 & F3); [rewrite (so_length _ _ _ _ S2), (so_length _ _ _ _ S1); lia|].
  cbn [rbind]. destruct (put_bytes_spec b3 (nd + 6 + length k) (payload_bytes pl)) as (b4 & -> & S4 & F4);
    [rewrite (so_length _ _ _ _ S3), (so_length _ _ _ _ S2), (so_length _ _ _ _ S1); lia|].
  exists b4. split; [done|]. split.
  - eapply same_trans; [|eapply same_widen; [exact S4|lia..]]. eapply same_trans; [|eapply same_widen; [exact S3|lia..]].
    eapply same_trans; [eapply same_widen; [exact S1|lia..]|eapply same_widen; [exact S2|lia..]].
  - rewrite He. unfold enc_entry. cbn [fst snd]. replace (6 + length k + length (payload_bytes pl)) with
      (2 + (4 + (length k + length (payload_bytes pl)))) by lia.
    apply get_bytes_join; [|apply get_bytes_join; [|replace (nd + 2 + 4) with (nd + 6) by lia; apply get_bytes_join; [|done]]].
    + rewrite (so_bytes _ _ _ _ S4), (so_bytes _ _ _ _ S3), (so_bytes _ _ _ _ S2) by lia. exact F1.
    + rewrite (so_bytes _ _ _ _ S4), (so_bytes _ _ _ _ S3) by lia. exact F2.
    + rewrite (so_bytes _ _ _ _ S4) by lia. exact F3.
Qed.
Definition insert_at {A} (pos : nat) (x : A) (l : list A) : list A := take pos l ++ x :: drop pos l.
Lemma leaf_reheader buf b next prev es slots : is_leaf buf next prev es → same_header LEAF_HEADER_SIZE buf b →
  ∀ es', slotted LEAF_HEADER_SIZE b slots → map snd slots = map enc_entry es' → Forall entry_ok es' → is_leaf b next prev es'.
Proof.
  intros Hp Hh es' Hs Hm Hok. unfold LEAF_HEADER_SIZE in Hh.
  constructor; [by exists slots|rewrite Hh by lia; apply Hp|unfold field; rewrite Hh by lia; apply Hp..|done].
Qed.
Lemma insert_at_Forall {A} (P : A → Prop) pos x l : P x → Forall P l → Forall P (insert_at pos x l).
Proof.
  intros Hx Hl. rewrite <- (take_drop pos l) in Hl. apply Forall_app in Hl as [H1 H2]. apply Forall_app. split; [done|by constructor].
Qed.
(** The room an entry of [n] bytes and its slot need. *)
Definition leaf_fits es (n : nat) : Prop := LEAF_HEADER_SIZE + (length es + 1) * SLOT_SIZE + (leaf_used es + n) ≤ PAGE_SIZE.
Lemma leaf_insert_steps buf next prev es pos n : is_leaf buf next prev es → pos ≤ length es → 0 < n → leaf_fits es n →
  let nd := PAGE_SIZE - leaf_used es - n in
  ∃ b1, shift_right LEAF_HEADER_SIZE pos (length es - pos) buf = Ok b1 ∧ length b1 = PAGE_SIZE ∧
    ∀ e b2, entry_ok e → length (enc_entry e) = n → same_outside nd (nd + n) b1 b2 → get_bytes b2 nd n = Ok (enc_entry e) →
      ∃ b3, record_slot LEAF_HEADER_SIZE pos nd (length es) b2 = Ok b3 ∧ is_leaf b3 next prev (insert_at pos e es).
Proof.
  intros Hp Hpos Hn Hfit nd. destruct (lp_slots _ _ _ _ Hp) as (slots & Hs & Hm).
  pose proof (map_length_eq _ _ _ Hm) as Hle. pose proof (used_map _ _ _ Hm) as Hu. fold (leaf_used es) in Hu. unfold leaf_fits in Hfit.
  destruct (slotted_insert_steps LEAF_HEADER_SIZE buf slots pos n Hs) as (b1 & Hb1 & L1 & Hnext);
    [page_lia|lia|done|rewrite Hle, Hu; exact Hfit|]. rewrite Hle, Hu in *. fold nd in Hnext.
  exists b1. split; [done|]. split; [done|]. intros e b2 Hok Hn' S2 G2.
  destruct (Hnext (enc_entry e) b2 Hn' S2 G2) as (b3 & Hb3 & Hh3 & Hs3). exists b3. split; [done|].
  eapply leaf_reheader; [exact Hp|done|exact Hs3|by apply map_take_drop|]. apply insert_at_Forall; [done|apply Hp].
Qed.
Lemma insert_at_end {A} (x : A) l : insert_at (length l) x l = l ++ [x].
Proof. unfold insert_at. by rewrite firstn_all, skipn_all. Qed.
(** Appending needs no shift. *)
Lemma leaf_append_page buf next prev es n : is_leaf buf next prev es → 0 < n → leaf_fits es n →
  let nd := PAGE_SIZE - leaf_used es - n in
  ∀ e b2, entry_ok e → length (enc_entry e) = n → same_outside nd (nd + n) buf b2 → get_bytes b2 nd n = Ok (enc_entry e) →
    ∃ b3, record_slot LEAF_HEADER_SIZE (length es) nd (length es) b2 = Ok b3 ∧ is_leaf b3 next prev (es ++ [e]).
Proof.
  intros Hp Hn Hfit nd e b2 Hok He S2 G2.
  destruct (leaf_insert_steps buf next prev es (length es) n Hp ltac:(lia) Hn Hfit) as (b1 & Hb1 & _ & Hnext).
  rewrite Nat.sub_diag in Hb1. injection Hb1 as <-. rewrite <- insert_at_end. by apply (Hnext e b2).
Qed.
Lemma leaf_remove_page buf next prev A k pl C : is_leaf buf next prev (A ++ (k, pl) :: C) →
  let es := A ++ (k, pl) :: C in
  ∃ eo buf', slot_at LEAF_HEADER_SIZE buf (length A) = Ok eo ∧
    get_bytes buf eo (length (enc_entry (k, pl))) = Ok (enc_entry (k, pl)) ∧
    remove_entry LEAF_HEADER_SIZE (length A) (length es) eo (PAGE_SIZE - leaf_used es) (length (enc_entry (k, pl))) buf = Ok buf' ∧
    is_leaf buf' next prev (A ++ C).
Proof.
  intros Hp es. destruct (lp_slots _ _ _ _ Hp) as (slots & Hs & Hm). pose proof (used_map _ _ _ Hm) as Hu. pose proof (map_length_eq _ _ _ Hm) as Hle.
  destruct (slot_of _ _ _ (length A) (k, pl) Hm) as (eo & Ho); [by apply list_lookup_middle|].
  assert (slots = take (length A) slots ++ (eo, enc_entry (k, pl)) :: drop (S (length A)) slots) as Hsp by (by rewrite <- drop_S, take_drop).
  assert (length (take (length A) slots) = length A) as HlA by (rewrite length_take; apply lookup_lt_Some in Ho; lia).
  rewrite Hsp in Hs. destruct (slotted_remove LEAF_HEADER_SIZE buf _ _ eo _ ltac:(page_lia) Hs) as (buf' & Hr & Hs' & Hh).
  rewrite HlA in Hr. rewrite <- Hsp in Hr, Hs. rewrite Hle, Hu in Hr. exists eo, buf'.
  split_and!; [by eapply slot_at_ok| |exact Hr|].
  - apply list_elem_of_lookup_2 in Ho. by apply (slot_blob _ _ _ Hs).
  - eapply leaf_reheader; [exact Hp|exact Hh|exact Hs'| |].
    + rewrite map_map. change (map (λ x, (relocate_slot eo (length (enc_entry (k, pl))) x).2)) with (map (@snd nat (list Z))).
      rewrite map_app, <- firstn_map, <- skipn_map, Hm, !map_app.
      rewrite take_app_length' by (by rewrite length_map). f_equal. rewrite drop_app_ge by (rewrite length_map; lia).
      rewrite length_map. by replace (S (length A) - length A) with 1 by lia.
    + pose proof (lp_ok _ _ _ _ Hp) as Hok. apply Forall_app in Hok as [HA HC]. apply Forall_cons in HC as [_ HC]. by apply Forall_app.
Qed.
Lemma leaf_overwrite_page buf next prev A k v v' C : is_leaf buf next prev (A ++ (k, Inline v) :: C) → length v' = length v →
  ∃ eo buf', slot_at LEAF_HEADER_SIZE buf (length A) = Ok eo ∧
    get_bytes buf eo (length (enc_entry (k, Inline v))) = Ok (enc_entry (k, Inline v)) ∧
    put_bytes buf (eo + 6 + length k) v' = Ok buf' ∧ is_leaf buf' next prev (A ++ (k, Inline v') :: C).
Proof.
  intros Hp Hv. destruct (lp_slots _ _ _ _ Hp) as (slots & Hs & Hm). pose proof (st_len _ _ _ Hs) as Hl.
  destruct (slot_of _ _ _ (length A) (k, Inline v) Hm) as (eo & Ho); [by apply list_lookup_middle|].
  assert (slots = take (length A) slots ++ (eo, enc_entry (k, Inline v)) :: drop (S (length A)) slots) as Hsp by (by rewrite <- drop_S, take_drop).
  pose proof (list_elem_of_lookup_2 _ _ _ Ho) as Hin. pose proof (slot_bounds _ _ _ Hs _ _ Hin) as Hb.
  pose proof (slot_blob _ _ _ Hs _ _ Hin) as Hg. pose proof (enc_entry_length (k, Inline v)) as He. unfold payload_size in He. cbn [fst snd payload_bytes] in He.
  destruct (put_bytes_spec buf (eo + 6 + length k) v') as (buf' & Hb' & S1 & G1);
    [rewrite Hv, Hl; clear -Hb He; lia|].
  exists eo, buf'. split_and!; [by eapply slot_at_ok|done|done|]. rewrite Hsp in Hs.
  pose proof (entry_parts _ _ _ _ Hg) as (H1 & H2 & H3 & _).
  assert (length (enc_entry (k, Inline v')) = length (enc_entry (k, Inline v))) as Hle by (rewrite !enc_entry_length; unfold payload_size; simpl; lia).
  assert (slotted LEAF_HEADER_SIZE buf' (take (length A) slots ++ (eo, enc_entry (k, Inline v')) :: drop (S (length A)) slots)) as Hs'.
  { eapply slotted_overwrite; [page_lia|exact Hs|done|eapply same_widen; [exact S1|lia..]|].
    rewrite He. unfold enc_entry. cbn [fst snd raw_of payload_bytes]. rewrite Hv. replace (6 + length k + length v) with (2 + (4 + (length k + length v))) by lia.
    apply get_bytes_join; [rewrite (so_bytes _ _ _ _ S1) by lia; exact H1|].
    apply get_bytes_join; [rewrite (so_bytes _ _ _ _ S1) by lia; exact H2|]. replace (eo + 2 + 4) with (eo + 6) by lia.
    apply get_bytes_join; [rewrite (so_bytes _ _ _ _ S1) by lia; exact H3|]. by rewrite <- Hv. }
  assert (PAGE_SIZE - used slots ≤ eo) as Hlo by lia. rewrite <- Hsp in Hs. pose proof (st_room _ _ _ Hs) as Hr.
  eapply leaf_reheader; [exact Hp| |exact Hs'| |].
  - intros o n Hd. apply (so_bytes _ _ _ _ S1). page_lia.
  - rewrite map_app. simpl. rewrite <- firstn_map, <- skipn_map, Hm, !map_app. simpl.
    rewrite take_app_length' by (by rewrite length_map). f_equal. f_equal.
    rewrite drop_app_ge by (rewrite length_map; lia). rewrite length_map. by replace (S (length A) - length A) with 1 by lia.
  - pose proof (lp_ok _ _ _ _ Hp) as Hok. apply Forall_app in Hok as [HA HC]. apply Forall_cons in HC as [HC HC'].
    apply Forall_app. split; [done|]. constructor; [|done]. destruct HC as (K1 & K2 & _). split_and!; [done| |done].
    simpl in *. by rewrite Hv.
Qed.

(** ** Header fields *)
Lemma leaf_header_spec buf flags : length buf = PAGE_SIZE → (0 ≤ flags < 256)%Z →
  ∃ b, leaf_header flags buf = Ok b ∧ is_leaf b 0 0 [].
Proof.
  intros Hl Hf. unfold leaf_header, put.
  destruct (put_bytes_spec buf 0 (to_le_bytes 1 PAGE_LEAF)) as (b1 & -> & S1 & F1); [rewrite le_length; page_lia|]. cbn [rbind].
  destruct (put_bytes_spec b1 1 (to_le_bytes 1 flags)) as (b2 & -> & S2 & _); [rewrite le_length, (so_length _ _ _ _ S1); page_lia|]. cbn [rbind].
  rewrite le_length in F1, S1, S2. pose proof (so_length _ _ _ _ S1). pose proof (so_length _ _ _ _ S2).
  destruct (put16_spec b2 2 0) as (b3 & -> & S3 & F3); [page_lia|]. cbn [rbind]. pose proof (so_length _ _ _ _ S3).
  destruct (put32_spec b3 4 PAGE_SIZE) as (b4 & -> & S4 & F4); [page_lia|]. cbn [rbind]. pose proof (so_length _ _ _ _ S4).
  destruct (put64_spec b4 8 0) as (b5 & -> & S5 & F5); [page_lia|]. cbn [rbind]. pose proof (so_length _ _ _ _ S5).
  destruct (put64_spec b5 16 0) as (b6 & -> & S6 & F6); [page_lia|]. pose proof (so_length _ _ _ _ S6).
  exists b6. split; [done|]. constructor; [exists []; split; [|done]|..|constructor].
  - apply slotted_nil; [congruence|page_lia| |].
    + eapply same_field; [exact S6|lia|]. eapply same_field; [exact S5|lia|]. eapply same_field; [exact S4|lia|done].
    + eapply same_field; [exact S6|lia|]. eapply same_field; [exact S5|lia|done].
  - rewrite (so_bytes _ _ _ _ S6), (so_bytes _ _ _ _ S5), (so_bytes _ _ _ _ S4), (so_bytes _ _ _ _ S3), (so_bytes _ _ _ _ S2) by lia. done.
  - eapply same_field; [exact S6|lia|done].
  - done.
Qed.
Lemma leaf_reset buf next prev es : is_leaf buf next prev es → ∃ b, reset_page buf = Ok b ∧ is_leaf b next prev [].
Proof.
  intros Hp. pose proof (leaf_page_length _ _ _ _ Hp) as Hl. unfold reset_page.
  destruct (put16_spec buf 2 0) as (b1 & -> & S1 & F1); [page_lia|]. cbn [rbind]. pose proof (so_length _ _ _ _ S1).
  destruct (put32_spec b1 4 PAGE_SIZE) as (b2 & -> & S2 & F2); [page_lia|]. pose proof (so_length _ _ _ _ S2).
  exists b2. split; [done|]. eapply leaf_reheader; [exact Hp| |apply slotted_nil|done|constructor].
  - intros o n Hd. rewrite (so_bytes _ _ _ _ S2), (so_bytes _ _ _ _ S1); [done|page_lia..].
  - congruence.
  - page_lia.
  - eapply same_field; [exact S2|lia|done].
  - done.
Qed.
(** A page whose bytes behind the links, and whose counters, are kept. *)
Lemma slotted_frame hs buf b slots : slotted hs buf slots → 8 ≤ hs → length b = length buf →
  (∀ o n, 2 ≤ o ∧ o + n ≤ 8 ∨ hs ≤ o → get_bytes b o n = get_bytes buf o n) → slotted hs b slots.
Proof.
  intros Hs Hh Hl Hf. pose proof (st_room _ _ _ Hs). constructor; try apply Hs.
  - rewrite Hl. apply Hs.
  - unfold field. rewrite Hf by lia. apply Hs.
  - unfold field. rewrite Hf by lia. apply Hs.
  - intros i s Hi. unfold field. rewrite Hf by lia. by apply (st_slot _ _ _ Hs).
  - destruct (st_data _ _ _ Hs) as (phys & Hp & Hg). exists phys. split; [done|]. by rewrite Hf by page_lia.
Qed.
Lemma leaf_set_next buf next prev es n : is_leaf buf next prev es → ∃ b, put64 buf 8 n = Ok b ∧ is_leaf b n prev es.
Proof.
  intros Hp. pose proof (leaf_page_length _ _ _ _ Hp) as Hl. destruct (put64_spec buf 8 n) as (b & Hb & S & F); [page_lia|].
  exists b. split; [done|]. destruct (lp_slots _ _ _ _ Hp) as (slots & Hs & Hm). constructor.
  - exists slots. split; [|done]. eapply slotted_frame; [exact Hs|page_lia|apply S|]. intros. apply (so_bytes _ _ _ _ S). page_lia.
  - rewrite (so_bytes _ _ _ _ S) by lia. apply Hp.
  - done.
  - eapply same_field; [exact S|lia|apply Hp].
  - apply Hp.
Qed.
Lemma leaf_set_prev buf next prev es n : is_leaf buf next prev es → ∃ b, put64 buf 16 n = Ok b ∧ is_leaf b next n es.
Proof.
  intros Hp. pose proof (leaf_page_length _ _ _ _ Hp) as Hl. destruct (put64_spec buf 16 n) as (b & Hb & S & F); [page_lia|].
  exists b. split; [done|]. destruct (lp_slots _ _ _ _ Hp) as (slots & Hs & Hm). constructor.
  - exists slots. split; [|done]. eapply slotted_frame; [exact Hs|page_lia|apply S|]. intros. apply (so_bytes _ _ _ _ S). page_lia.
  - rewrite (so_bytes _ _ _ _ S) by lia. apply Hp.
  - eapply same_field; [exact S|lia|apply Hp].
  - done.
  - apply Hp.
Qed.
Lemma put_flag buf x : length buf = PAGE_SIZE → ∃ b, put 1 buf 1 x = Ok b ∧ same_outside 1 2 buf b.
Proof.
  intros Hl. unfold put. destruct (put_bytes_spec buf 1 (to_le_bytes 1 x)) as (b & Hb & S & _); [rewrite le_length; page_lia|].
  rewrite le_length in S. by exists b.
Qed.
Lemma flag_read buf : length buf = PAGE_SIZE → ∃ f, get 1 buf 1 = Ok f.
Proof. intros Hl. unfold get. rewrite get_bytes_ok by page_lia. by eexists. Qed.
Lemma set_flag_spec buf : length buf = PAGE_SIZE → ∃ b, set_flag_root buf = Ok b ∧ same_outside 1 2 buf b.
Proof. intros Hl. unfold set_flag_root. destruct (flag_read buf Hl) as (f & ->). cbn [rbind]. by apply put_flag. Qed.
Lemma clear_flag_spec buf : length buf = PAGE_SIZE → ∃ b, clear_flag_root buf = Ok b ∧ same_outside 1 2 buf b.
Proof. intros Hl. unfold clear_flag_root. destruct (flag_read buf Hl) as (f & ->). cbn [rbind]. by apply put_flag. Qed.
Lemma leaf_flag buf b next prev es : is_leaf buf next prev es → same_outside 1 2 buf b → is_leaf b next prev es.
Proof.
  intros Hp S. destruct (lp_slots _ _ _ _ Hp) as (slots & Hs & Hm). constructor.
  - exists slots. split; [|done]. eapply slotted_frame; [exact Hs|page_lia|apply S|]. intros. apply (so_bytes _ _ _ _ S). page_lia.
  - rewrite (so_bytes _ _ _ _ S) by lia. apply Hp.
  - eapply same_field; [exact S|lia|apply Hp].
  - eapply same_field; [exact S|lia|apply Hp].
  - apply Hp.
Qed.
Lemma internal_flag buf b l cs : is_internal buf l cs → same_outside 1 2 buf b → is_internal b l cs.
Proof.
  intros Hp S. destruct (ip_slots _ _ _ Hp) as (slots & Hs & Hm). constructor.
  - exists slots. split; [|done]. eapply slotted_frame; [exact Hs|page_lia|apply S|]. intros. apply (so_bytes _ _ _ _ S). page_lia.
  - rewrite (so_bytes _ _ _ _ S) by lia. apply Hp.
  - eapply same_field; [exact S|lia|apply Hp].
  - apply Hp.
Qed.

(** ** Internal pages *)
Lemma put_internal_spec nd k p buf : nd + length (enc_sep (k, p)) ≤ length buf →
  ∃ b, put_internal nd k p buf = Ok b ∧ same_outside nd (nd + length (enc_sep (k, p))) buf b ∧
    get_bytes b nd (length (enc_sep (k, p))) = Ok (enc_sep (k, p)).
Proof.
  intros Hl. pose proof (enc_sep_length (k, p)) as He. cbn [fst snd] in He. unfold put_internal.
  destruct (put16_spec buf nd (length k)) as (b1 & -> & S1 & F1); [lia|]. cbn [rbind].
  destruct (put64_spec b1 (nd + 2) p) as (b2 & -> & S2 & F2); [rewrite (so_length _ _ _ _ S1); lia|]. cbn [rbind].
  destruct (put_bytes_spec b2 (nd + 10) k) as (b3 & -> & S3 & F3); [rewrite (so_length _ _ _ _ S2), (so_length _ _ _ _ S1); lia|].
  exists b3. split; [done|]. split.
  - eapply same_trans; [|eapply same_widen; [exact S3|lia..]].
    eapply same_trans; [eapply same_widen; [exact S1|lia..]|eapply same_widen; [exact S2|lia..]].
  - rewrite He. unfold enc_sep. cbn [fst snd]. replace (10 + length k) with (2 + (8 + length k)) by lia.
    apply get_bytes_join; [|apply get_bytes_join; [|by replace (nd + 2 + 8) with (nd + 10) by lia]].
    + rewrite (so_bytes _ _ _ _ S3), (so_bytes _ _ _ _ S2) by lia. exact F1.
    + rewrite (so_bytes _ _ _ _ S3) by lia. exact F2.
Qed.
Lemma internal_reheader buf b l cs slots : is_internal buf l cs → same_header HEADER_SIZE buf b →
  ∀ cs', slotted HEADER_SIZE b slots → map snd slots = map enc_sep cs' → Forall sep_ok cs' → is_internal b l cs'.
Proof.
  intros Hp Hh cs' Hs Hm Hok. unfold HEADER_SIZE in Hh.
  constructor; [by exists slots|rewrite Hh by lia; apply Hp|unfold field; rewrite Hh by lia; apply Hp|done].
Qed.
Definition internal_fits cs (n : nat) : Prop := HEADER_SIZE + (length cs + 1) * SLOT_SIZE + (seps_used cs + n) ≤ PAGE_SIZE.
Lemma internal_insert_steps buf l cs pos n : is_internal buf l cs → pos ≤ length cs → 0 < n → internal_fits cs n →
  let nd := PAGE_SIZE - seps_used cs - n in
  ∃ b1, shift_right HEADER_SIZE pos (length cs - pos) buf = Ok b1 ∧ length b1 = PAGE_SIZE ∧
    ∀ c b2, sep_ok c → length (enc_sep c) = n → same_outside nd (nd + n) b1 b2 → get_bytes b2 nd n = Ok (enc_sep c) →
      ∃ b3, record_slot HEADER_SIZE pos nd (length cs) b2 = Ok b3 ∧ is_internal b3 l (insert_at pos c cs).
Proof.
  intros Hp Hpos Hn Hfit nd. destruct (ip_slots _ _ _ Hp) as (slots & Hs & Hm).
  pose proof (map_length_eq _ _ _ Hm) as Hle. pose proof (used_map _ _ _ Hm) as Hu. fold (seps_used cs) in Hu. unfold internal_fits in Hfit.
  destruct (slotted_insert_steps HEADER_SIZE buf slots pos n Hs) as (b1 & Hb1 & L1 & Hnext);
    [page_lia|lia|done|rewrite Hle, Hu; exact Hfit|]. rewrite Hle, Hu in *. fold nd in Hnext.
  exists b1. split; [done|]. split; [done|]. intros c b2 Hok Hn' S2 G2.
  destruct (Hnext (enc_sep c) b2 Hn' S2 G2) as (b3 & Hb3 & Hh3 & Hs3). exists b3. split; [done|].
  eapply internal_reheader; [exact Hp|done|exact Hs3|by apply map_take_drop|]. apply insert_at_Forall; [done|apply Hp].
Qed.
(** The whole insertion of a separator that fits. *)
Lemma internal_insert_page buf l cs pos k p : is_internal buf l cs → pos ≤ length cs → sep_ok (k, p) →
  internal_fits cs (10 + length k) → let nd := PAGE_SIZE - seps_used cs - (10 + length k) in
  ∃ b, (buf <-? shift_right HEADER_SIZE pos (length cs - pos) buf ;; buf <-? put_internal nd k p buf ;;
        record_slot HEADER_SIZE pos nd (length cs) buf) = Ok b ∧ is_internal b l (insert_at pos (k, p) cs).
Proof.
  intros Hp Hpos Hok Hfit nd. destruct (internal_insert_steps buf l cs pos (10 + length k) Hp Hpos ltac:(lia) Hfit) as (b1 & -> & L1 & Hnext).
  cbn [rbind]. pose proof (enc_sep_length (k, p)) as He. cbn [fst snd] in He.
  destruct (put_internal_spec nd k p b1) as (b2 & -> & S2 & G2); [rewrite He, L1; unfold internal_fits in Hfit; lia|].
  cbn [rbind]. rewrite He in S2, G2. by apply (Hnext (k, p) b2).
Qed.
Lemma internal_append_page buf l cs k p : is_internal buf l cs → sep_ok (k, p) → internal_fits cs (10 + length k) →
  let nd := PAGE_SIZE - seps_used cs - (10 + length k) in
  ∃ b, (buf <-? put_internal nd k p buf ;; record_slot HEADER_SIZE (length cs) nd (length cs) buf) = Ok b ∧
    is_internal b l (cs ++ [(k, p)]).
Proof.
  intros Hp Hok Hfit nd. destruct (internal_insert_page buf l cs (length cs) k p Hp ltac:(lia) Hok Hfit) as (b & Hb & Hi).
  rewrite Nat.sub_diag in Hb. rewrite insert_at_end in Hi. by exists b.
Qed.
Lemma internal_set_leftmost buf l cs n : is_internal buf l cs → ∃ b, put64 buf 8 n = Ok b ∧ is_internal b n cs.
Proof.
  intros Hp. pose proof (internal_page_length _ _ _ Hp) as Hl. destruct (put64_spec buf 8 n) as (b & Hb & S & F); [page_lia|].
  exists b. split; [done|]. destruct (ip_slots _ _ _ Hp) as (slots & Hs & Hm). constructor.
  - exists slots. split; [|done]. eapply slotted_frame; [exact Hs|page_lia|apply S|]. intros. apply (so_bytes _ _ _ _ S). page_lia.
  - rewrite (so_bytes _ _ _ _ S) by lia. apply Hp.
  - done.
  - apply Hp.
Qed.
Lemma internal_header_spec buf : length buf = PAGE_SIZE →
  ∃ b, (buf <-? put 1 buf 0 PAGE_INTERNAL ;; buf <-? put 1 buf 1 0 ;;
    buf <-? put16 buf 2 0 ;; buf <-? put32 buf 4 PAGE_SIZE ;; put64 buf 8 0) = Ok b ∧ is_internal b 0 [].
Proof.
  intros Hl. unfold put.
  destruct (put_bytes_spec buf 0 (to_le_bytes 1 PAGE_INTERNAL)) as (b1 & -> & S1 & F1); [rewrite le_length; page_lia|]. cbn [rbind].
  destruct (put_bytes_spec b1 1 (to_le_bytes 1 0)) as (b2 & -> & S2 & _); [rewrite le_length, (so_length _ _ _ _ S1); page_lia|]. cbn [rbind].
  rewrite le_length in F1, S1, S2. pose proof (so_length _ _ _ _ S1). pose proof (so_length _ _ _ _ S2).
  destruct (put16_spec b2 2 0) as (b3 & -> & S3 & F3); [page_lia|]. cbn [rbind]. pose proof (so_length _ _ _ _ S3).
  destruct (put32_spec b3 4 PAGE_SIZE) as (b4 & -> & S4 & F4); [page_lia|]. cbn [rbind]. pose proof (so_length _ _ _ _ S4).
  destruct (put64_spec b4 8 0) as (b5 & -> & S5 & F5); [page_lia|]. pose proof (so_length _ _ _ _ S5).
  exists b5. split; [done|]. constructor; [exists []; split; [|done]|..|constructor].
  - apply slotted_nil; [congruence|page_lia| |].
    + eapply same_field; [exact S5|lia|]. eapply same_field; [exact S4|lia|done].
    + eapply same_field; [exact S5|lia|done].
  - rewrite (so_bytes _ _ _ _ S5), (so_bytes _ _ _ _ S4), (so_bytes _ _ _ _ S3), (so_bytes _ _ _ _ S2) by lia. done.
  - done.
Qed.
