(* ===== verification/BPlusStore.v ===== *)
(** * The pages of a tree file

    [phys t A]: the file of [t] holds the abstract store [A], which says for
    each known page what it is ([cell]), and what the meta page says.  The
    steps of [BPlusPages.v] are specified by what they do to [A]; an operating
    system that works is assumed ([bp_os] empty), and fewer than 2^64 pages. *)
From stdpp Require Import base numbers option gmap list.
From S2P Require Import Prelude Bytes BinarySearch Order BTreeMap Mmap Backend BPlusPages BPlusNodes BPlusBytes BPlusSlots BPlusCells BPlusPageOps.
Import Pages Nodes.

(** An extent page is tagged with the key whose value it holds. *)
Inductive cell :=
  | CLeaf (next prev : nat) (es : list entry)
  | CInternal (leftmost : nat) (cs : list sep)
  | CFree (next : nat)
  | CExt (key bs : list Z)
  | CRaw (buf : list Z).
Definition cell_at (buf : list Z) (c : cell) : Prop :=
  match c with
  | CLeaf next prev es => is_leaf buf next prev es ∧ page_number next ∧ page_number prev
  | CInternal leftmost cs => is_internal buf leftmost cs ∧ page_number leftmost
  | CFree next => field 8 buf 0 next ∧ page_number next
  | CExt _ bs => get_bytes buf 0 (length bs) = Ok bs
  | CRaw b => buf = b
  end.
Definition in_use (c : cell) : Prop := match c with CFree _ => False | _ => True end.
Record Abs := mkAbs {
  a_root : nat;
  a_right : nat;
  a_free : list nat;
  a_pages : nat;
  a_count : Z;
  a_config : BPlusTreeConfig;
  a_cells : gmap nat cell }.
Implicit Types (t : BPlusTree) (A : Abs) (p q n : nat) (c : cell) (buf meta : list Z) (F : list nat).

Definition set_cells cs A := mkAbs (a_root A) (a_right A) (a_free A) (a_pages A) (a_count A) (a_config A) cs.
Definition put_cell p c A := set_cells (<[p := c]> (a_cells A)) A.
Definition with_root p A := mkAbs p (a_right A) (a_free A) (a_pages A) (a_count A) (a_config A) (a_cells A).
Definition with_right p A := mkAbs (a_root A) p (a_free A) (a_pages A) (a_count A) (a_config A) (a_cells A).
Definition with_freelist F A := mkAbs (a_root A) (a_right A) F (a_pages A) (a_count A) (a_config A) (a_cells A).
Definition with_page_count n A := mkAbs (a_root A) (a_right A) (a_free A) n (a_count A) (a_config A) (a_cells A).
Definition with_count z A := mkAbs (a_root A) (a_right A) (a_free A) (a_pages A) z (a_config A) (a_cells A).

Definition head_page F : nat := default 0 (head F).
Fixpoint free_chain (cs : gmap nat cell) F : Prop :=
  match F with [] => True | p :: F => cs !! p = Some (CFree (head_page F)) ∧ free_chain cs F end.
Record meta_ok meta A (s : BPlusTreeStats) : Prop := {
  mo_magic : get_bytes meta 0 4 = Ok (to_le_bytes 4 MAGIC);
  mo_root : field 8 meta META_ROOT (a_root A);
  mo_free : field 8 meta META_FREE_HEAD (head_page (a_free A));
  mo_pages : field 8 meta META_PAGES (a_pages A);
  mo_right : field 8 meta META_RIGHTMOST_LEAF (a_right A);
  mo_entries : get_bytes meta META_ENTRIES 8 = Ok (to_le_bytes 8 (st_entries s));
  mo_leaves : get_bytes meta META_LEAF_PAGES 8 = Ok (to_le_bytes 8 (st_leaf_pages s));
  mo_bytes : get_bytes meta META_LEAF_ENTRY_BYTES 8 = Ok (to_le_bytes 8 (st_leaf_entry_bytes s));
  mo_nfree : get_bytes meta META_FREE_PAGES 8 = Ok (to_le_bytes 8 (st_free_pages s)) }.
Definition free_ok A : Prop := free_chain (a_cells A) (a_free A) ∧ NoDup (a_free A).
Record phys t A : Prop := {
  ph_map : bp_map t = Mapped (length (bp_file t));
  ph_os : bp_os t = [];
  ph_config : bp_config t = a_config A;
  ph_two : 2 ≤ a_pages A;
  ph_size : a_pages A * PAGE_SIZE ≤ length (bp_file t);
  ph_bound : page_number (a_pages A);
  ph_meta : ∃ meta, page_bytes t META_PAGE = Ok meta ∧ meta_ok meta A (bp_stats t);
  ph_entries : st_entries (bp_stats t) = a_count A ∧ (0 ≤ a_count A < two64)%Z ∧ st_pages (bp_stats t) = a_pages A;
  ph_links : a_root A < a_pages A ∧ a_right A < a_pages A;
  ph_chain : free_ok A;
  ph_cells : ∀ p c, a_cells A !! p = Some c → 0 < p < a_pages A ∧ ∃ buf, page_bytes t p = Ok buf ∧ cell_at buf c }.

(** ** The mapping *)
Lemma phys_mapped t A : phys t A → mapped t = bp_file t.
Proof. intros Hp. unfold mapped. rewrite (ph_map _ _ Hp). apply firstn_all. Qed.
Lemma page_exists t A p : phys t A → p < a_pages A → ∃ buf, page_bytes t p = Ok buf ∧ length buf = PAGE_SIZE.
Proof.
  intros Hp Hlt. unfold page_bytes. rewrite (phys_mapped _ _ Hp). pose proof (ph_size _ _ Hp). unfold page_offset.
  rewrite get_bytes_ok by page_lia. eexists. split; [done|]. rewrite length_take, length_drop. page_lia.
Qed.
Lemma page_length t p buf : page_bytes t p = Ok buf → length buf = PAGE_SIZE.
Proof. apply get_bytes_length. Qed.
Lemma page_lookup t A p c : phys t A → a_cells A !! p = Some c → ∃ buf, page_bytes t p = Ok buf ∧ cell_at buf c.
Proof. intros Hp Hc. by apply (ph_cells _ _ Hp). Qed.
Lemma fuel_pages t A : phys t A → a_pages A < fuel_of t.
Proof. intros Hp. unfold fuel_of. rewrite (phys_mapped _ _ Hp). pose proof (ph_size _ _ Hp). pose proof (ph_two _ _ Hp). page_lia. Qed.

(** ** Writing one page *)
Record rewritten p buf' t t' : Prop := {
  rw_map : bp_map t' = bp_map t;
  rw_size : length (bp_file t') = length (bp_file t);
  rw_os : bp_os t' = bp_os t;
  rw_config : bp_config t' = bp_config t;
  rw_stats : bp_stats t' = bp_stats t;
  rw_page : page_bytes t' p = Ok buf';
  rw_other : ∀ q, q ≠ p → page_bytes t' q = page_bytes t q }.
Lemma edit_mapped t p f buf buf' : bp_map t = Mapped (length (bp_file t)) → (p + 1) * PAGE_SIZE ≤ length (bp_file t) → page_bytes t p = Ok buf →
  f buf = Ok buf' → length buf' = PAGE_SIZE → ∃ t', edit p f t = (t', Ok tt) ∧ rewritten p buf' t t'.
Proof.
  intros Hm Hs Hb Hf Hl. unfold edit, reading. rewrite Hb, Hf. unfold store.
  assert (mapped t = bp_file t) as Hmap by (unfold mapped; rewrite Hm; apply firstn_all).
  assert (page_offset p + length buf' ≤ length (mapped t)) as Hin by (rewrite Hmap; unfold page_offset; page_lia).
  pose proof (put_bytes_ok _ _ _ Hin) as Hput. unfold put_bytes in Hput. destruct (splice _ _ _) as [b|]; [|done]. injection Hput as ->.
  eexists. split; [done|]. unfold set_mapped. rewrite Hm, skipn_all, app_nil_r. rewrite Hmap in *.
  assert (length (patch (bp_file t) (page_offset p) buf') = length (bp_file t)) as Hlen by (by apply patch_length).
  assert (mapped (set_file (patch (bp_file t) (page_offset p) buf') t) = patch (bp_file t) (page_offset p) buf') as Hmap'.
  { unfold mapped. simpl. rewrite Hm. apply take_ge. lia. }
  constructor; try done.
  - unfold page_bytes. rewrite Hmap', <- Hl. by apply get_bytes_patch_eq.
  - intros q Hq. unfold page_bytes. rewrite Hmap', Hmap.
    apply get_bytes_patch_ne; [done|]. unfold page_offset. rewrite Hl. destruct (decide (q < p)); [left|right]; page_lia.
Qed.
Lemma edit_page t A p f buf buf' : phys t A → p < a_pages A → page_bytes t p = Ok buf → f buf = Ok buf' → length buf' = PAGE_SIZE →
  ∃ t', edit p f t = (t', Ok tt) ∧ rewritten p buf' t t'.
Proof. intros Hp Hlt Hb. pose proof (ph_size _ _ Hp). apply edit_mapped; [apply Hp|page_lia|done]. Qed.

(** ** The freelist *)
Lemma chain_insert cs F p c : p ∉ F → free_chain cs F → free_chain (<[p := c]> cs) F.
Proof.
  induction F as [|q F IH]; intros Hn; simpl; [done|]. apply not_elem_of_cons in Hn as [Hne Hn]. intros [Hq HF].
  rewrite lookup_insert_ne by done. split; [done|by apply IH].
Qed.
Lemma chain_lookup cs F p : free_chain cs F → p ∈ F → ∃ n, cs !! p = Some (CFree n).
Proof.
  induction F as [|q F IH]; intros HF; [by intros ?%not_elem_of_nil|]. destruct HF as [Hq HF]. intros [->|Hin]%elem_of_cons; [by eexists|by apply IH].
Qed.
Lemma used_not_free A p c : free_ok A → a_cells A !! p = Some c → in_use c → p ∉ a_free A.
Proof. intros [HF _] Hc Hu Hin. destruct (chain_lookup _ _ _ HF Hin) as (n & Hn). rewrite Hn in Hc. by injection Hc as <-. Qed.
Lemma free_bound t A p : phys t A → p ∈ a_free A → 0 < p < a_pages A.
Proof.
  intros Hp Hin. destruct (ph_chain _ _ Hp) as [HF _]. destruct (chain_lookup _ _ _ HF Hin) as (n & Hn).
  by apply (ph_cells _ _ Hp) in Hn as [? _].
Qed.
Lemma head_bound t A F : phys t A → free_chain (a_cells A) F → head_page F < a_pages A.
Proof.
  intros Hp HF. pose proof (ph_two _ _ Hp). destruct F as [|p F]; unfold head_page; simpl; [lia|]. destruct HF as [Hc _].
  apply (ph_cells _ _ Hp) in Hc as [? _]. lia.
Qed.

(** ** Changing the cell of a page *)
Lemma meta_ok_same meta A A' s : meta_ok meta A s → a_root A' = a_root A → a_right A' = a_right A → head_page (a_free A') = head_page (a_free A) →
  a_pages A' = a_pages A → meta_ok meta A' s.
Proof. intros [] E1 E2 E3 E4. constructor; rewrite ?E1, ?E2, ?E3, ?E4; done. Qed.
Lemma edit_relink t A p f c F' : phys t A → 0 < p < a_pages A → head_page F' = head_page (a_free A) →
  free_chain (<[p := c]> (a_cells A)) F' → NoDup F' →
  (∀ buf, page_bytes t p = Ok buf → ∃ buf', f buf = Ok buf' ∧ length buf' = PAGE_SIZE ∧ cell_at buf' c) →
  ∃ t', edit p f t = (t', Ok tt) ∧ phys t' (with_freelist F' (put_cell p c A)).
Proof.
  intros Hp Hlt Hh HF Hnd Hf. destruct (page_exists _ _ p Hp) as (buf & Hb & _); [lia|]. destruct (Hf buf Hb) as (buf' & Hf' & Hl & Hc).
  destruct (edit_page _ _ p f buf buf' Hp ltac:(lia) Hb Hf' Hl) as (t' & -> & Hw).
  exists t'. split; [done|]. destruct Hw, Hp. constructor; cbn [a_pages a_root a_right a_free a_count a_config a_cells put_cell set_cells with_freelist]; try congruence; try done; try lia.
  - destruct ph_meta0 as (meta & Hmt & Hok). exists meta. rewrite rw_other0 by (unfold META_PAGE; lia). split; [done|].
    rewrite rw_stats0. eapply meta_ok_same; [exact Hok|done..].
  - intros q d Hq. apply lookup_insert_Some in Hq as [[<- <-]|[Hqp Hq]]; [split; [lia|by exists buf']|].
    destruct (ph_cells0 q d Hq) as [Hr (b & Hb' & Hd)]. split; [done|]. exists b. by rewrite rw_other0 by done.
Qed.
Lemma edit_cell t A p f c : phys t A → 0 < p < a_pages A → p ∉ a_free A →
  (∀ buf, page_bytes t p = Ok buf → ∃ buf', f buf = Ok buf' ∧ length buf' = PAGE_SIZE ∧ cell_at buf' c) →
  ∃ t', edit p f t = (t', Ok tt) ∧ phys t' (put_cell p c A).
Proof.
  intros Hp Hlt Hn Hf. destruct (ph_chain _ _ Hp) as [HF Hnd].
  destruct (edit_relink t A p f c (a_free A) Hp Hlt eq_refl (chain_insert _ _ _ _ Hn HF) Hnd Hf) as (t' & He & Hp'). exists t'. by split.
Qed.
(** The same, from the cell the page has. *)
Lemma edit_used t A p f c0 c : phys t A → a_cells A !! p = Some c0 → in_use c0 →
  (∀ buf, cell_at buf c0 → length buf = PAGE_SIZE → ∃ buf', f buf = Ok buf' ∧ length buf' = PAGE_SIZE ∧ cell_at buf' c) →
  ∃ t', edit p f t = (t', Ok tt) ∧ phys t' (put_cell p c A).
Proof.
  intros Hp Hc Hu Hf. destruct (ph_cells _ _ Hp _ _ Hc) as [Hr (b & Hb & Hat)]. apply edit_cell; [done|done| |].
  - by eapply used_not_free; [apply Hp|..].
  - intros buf Hbuf. rewrite Hb in Hbuf. injection Hbuf as <-. apply Hf; [done|by apply (page_length t p)].
Qed.
(** A page becomes known by its bytes. *)
Lemma adopt_page t A p c buf : phys t A → 0 < p < a_pages A → p ∉ a_free A → page_bytes t p = Ok buf → cell_at buf c → phys t (put_cell p c A).
Proof.
  intros Hp Hr Hn Hb Hc. destruct Hp. constructor; try done.
  - destruct ph_meta0 as (meta & Hm & Hok). exists meta. split; [done|]. by eapply meta_ok_same.
  - destruct ph_chain0. split; [by apply chain_insert|done].
  - simpl. intros q d Hq. apply lookup_insert_Some in Hq as [[<- <-]|[Hqp Hq]]; [split; [done|by exists buf]|by apply ph_cells0].
Qed.

(** ** The meta page *)
Ltac meta_lia := unfold META_ROOT, META_FREE_HEAD, META_PAGES, META_ENTRIES, META_RIGHTMOST_LEAF, META_LEAF_PAGES, META_LEAF_ENTRY_BYTES, META_FREE_PAGES, META_PAGE in *; page_lia.
Lemma set_meta_spec t A field v : phys t A → field + 8 ≤ PAGE_SIZE → ∃ t' meta meta', set_meta field v t = (t', Ok tt) ∧
  page_bytes t META_PAGE = Ok meta ∧ meta_ok meta A (bp_stats t) ∧ rewritten META_PAGE meta' t t' ∧
  same_outside field (field + 8) meta meta' ∧ get_bytes meta' field 8 = Ok (to_le_bytes 8 v).
Proof.
  intros Hp Hf. pose proof (ph_two _ _ Hp). destruct (ph_meta _ _ Hp) as (meta & Hm & Hok). pose proof (page_length _ _ _ Hm) as Hl.
  destruct (put_bytes_spec meta field (to_le_bytes 8 v)) as (meta' & Hput & Hs & Hg); [rewrite le_length; lia|]. rewrite le_length in Hs, Hg.
  destruct (edit_page t A META_PAGE (λ meta, put 8 meta field v) meta meta' Hp ltac:(meta_lia) Hm Hput) as (t' & He & Hw).
  { rewrite (so_length _ _ _ _ Hs). done. }
  exists t', meta, meta'. by split_and!.
Qed.
Lemma meta_read t A f v meta : page_bytes t META_PAGE = Ok meta → field 8 meta f v → page_number v → meta_page t f = Ok v.
Proof. intros Hm Hf Hv. unfold meta_page. rewrite Hm. cbn [rbind]. by apply field64. Qed.
Lemma meta_page_ok t A : phys t A → root t = Ok (a_root A) ∧ rightmost_leaf t = Ok (a_right A) ∧
  free_head t = Ok (head_page (a_free A)) ∧ pages_counter t = Ok (a_pages A).
Proof.
  intros Hp. destruct (ph_meta _ _ Hp) as (meta & Hm & []). pose proof (ph_links _ _ Hp). pose proof (ph_bound _ _ Hp). unfold page_number in *.
  assert (head_page (a_free A) < a_pages A) by (apply (head_bound t); [done|apply Hp]).
  split_and!; eapply meta_read; try done; unfold page_number; lia.
Qed.
(** The meta page written to, with the statistics that mirror it. *)
Lemma meta_update t t' t'' A A' meta' s : phys t A → rewritten META_PAGE meta' t t' → t'' = set_stats s t' → meta_ok meta' A' s →
  a_cells A' = a_cells A → a_config A' = a_config A → a_pages A' * PAGE_SIZE ≤ length (bp_file t) → page_number (a_pages A') → a_pages A ≤ a_pages A' →
  st_entries s = a_count A' ∧ (0 ≤ a_count A' < two64)%Z ∧ st_pages s = a_pages A' → a_root A' < a_pages A' ∧ a_right A' < a_pages A' →
  free_ok A' → phys t'' A'.
Proof.
  intros Hp Hw -> Hok Hc Hcf Hsz Hpn Hpp He Hr Hfr. destruct Hw, Hp. constructor; simpl; try done; try congruence; try lia.
  - exists meta'. split; [|done]. exact rw_page0.
  - intros p c Hpc. rewrite Hc in Hpc. destruct (ph_cells0 p c Hpc) as [Hr' (b & Hb & Hat)]. split; [lia|]. exists b. split; [|done].
    rewrite <- Hb. apply rw_other0. unfold META_PAGE. lia.
Qed.
Lemma stats_same t t' p b : rewritten p b t t' → t' = set_stats (bp_stats t) t'.
Proof. intros Hw. rewrite <- (rw_stats _ _ _ _ Hw). by destruct t'. Qed.
(** What a setter leaves of the meta page. *)
Lemma meta_rest meta meta' A s f : meta_ok meta A s → same_outside f (f + 8) meta meta' → 4 ≤ f →
  (∀ g x, g + 8 ≤ f ∨ f + 8 ≤ g → get_bytes meta g 8 = x → get_bytes meta' g 8 = x) ∧ get_bytes meta' 0 4 = Ok (to_le_bytes 4 MAGIC).
Proof.
  intros Hok Hs Hf. split; [intros g x Hd <-; by apply (so_bytes _ _ _ _ Hs)|]. rewrite (so_bytes _ _ _ _ Hs) by lia. apply Hok.
Qed.
Ltac meta_setter Hp fld v s :=
  let t' := fresh "t'" in let meta := fresh "meta" in let meta' := fresh "meta'" in let Hw := fresh "Hw" in let Hok := fresh "Hok" in
  let Hs := fresh "Hs" in let Hg := fresh "Hg" in let Ho := fresh "Ho" in let Hmg := fresh "Hmg" in let Hmt := fresh "Hmt" in
  destruct (set_meta_spec _ _ fld v Hp ltac:(meta_lia)) as (t' & meta & meta' & -> & Hmt & Hok & Hw & Hs & Hg);
  destruct (meta_rest meta meta' _ _ fld Hok Hs ltac:(meta_lia)) as [Ho Hmg];
  cbn [and_then]; eexists; split; [reflexivity|]; rewrite ?(rw_stats _ _ _ _ Hw);
  eapply (meta_update _ t' _ _ _ meta' s); [exact Hp|exact Hw|first [by apply (stats_same _ _ _ _ Hw)|reflexivity]| |try apply Hp; try done..];
  try (destruct Hok; constructor; first [exact Hmg|exact Hg|unfold field; apply Ho; [meta_lia|assumption]]).
Lemma set_root_ok t A p : phys t A → p < a_pages A → ∃ t', set_root p t = (t', Ok tt) ∧ phys t' (with_root p A).
Proof. intros Hp Hlt. unfold set_root. meta_setter Hp META_ROOT (Z.of_nat p) (bp_stats t). split; [done|apply Hp]. Qed.
Lemma set_right_ok t A p : phys t A → p < a_pages A → ∃ t', set_rightmost_leaf p t = (t', Ok tt) ∧ phys t' (with_right p A).
Proof. intros Hp Hlt. unfold set_rightmost_leaf. meta_setter Hp META_RIGHTMOST_LEAF (Z.of_nat p) (bp_stats t). split; [apply Hp|done]. Qed.
Lemma set_free_ok t A F : phys t A → free_chain (a_cells A) F → NoDup F →
  ∃ t', set_free_head (head_page F) t = (t', Ok tt) ∧ phys t' (with_freelist F A).
Proof. intros Hp HF Hnd. unfold set_free_head. meta_setter Hp META_FREE_HEAD (Z.of_nat (head_page F)) (bp_stats t). Qed.
Lemma set_pages_ok t A n : phys t A → a_pages A ≤ n → page_number n → n * PAGE_SIZE ≤ length (bp_file t) →
  ∃ t', set_pages_counter n t = (t', Ok tt) ∧ phys t' (with_page_count n A).
Proof.
  intros Hp Hn Hpn Hs. unfold set_pages_counter. meta_setter Hp META_PAGES (Z.of_nat n) (with_pages n (bp_stats t)).
  - pose proof (ph_entries _ _ Hp) as (E1 & E2 & _). split; [exact E1|]. by split.
  - pose proof (ph_links _ _ Hp). simpl. lia.
Qed.
Lemma write_entries_ok t A (n : Z) : phys t A → (0 ≤ n < two64)%Z →
  ∃ t', write_entries n t = (t', Ok tt) ∧ phys t' (with_count n A).
Proof.
  intros Hp Hn. unfold write_entries. meta_setter Hp META_ENTRIES n (with_entries n (bp_stats t)).
  pose proof (ph_entries _ _ Hp) as (_ & _ & E3). split; [done|]. by split.
Qed.
(** The other counters are no part of [A]. *)
Lemma write_leaf_pages_ok t A (n : Z) : phys t A → ∃ t', write_leaf_pages n t = (t', Ok tt) ∧ phys t' A.
Proof. intros Hp. unfold write_leaf_pages. meta_setter Hp META_LEAF_PAGES n (with_leaves n (bp_stats t)). Qed.
Lemma write_leaf_bytes_ok t A (n : Z) : phys t A → ∃ t', write_leaf_entry_bytes n t = (t', Ok tt) ∧ phys t' A.
Proof. intros Hp. unfold write_leaf_entry_bytes. meta_setter Hp META_LEAF_ENTRY_BYTES n (with_bytes n (bp_stats t)). Qed.
Lemma write_free_pages_ok t A (n : Z) : phys t A → ∃ t', write_free_pages n t = (t', Ok tt) ∧ phys t' A.
Proof. intros Hp. unfold write_free_pages. meta_setter Hp META_FREE_PAGES n (with_free n (bp_stats t)). Qed.
