(* ===== verification/BPlusAlloc.v ===== *)
(** * Allocation in a tree file

    Pages and extents are taken from the freelist or from the file's end, and
    freed.  What is in use elsewhere is kept ([keeps]); a page handed out is
    [fresh]. *)
From stdpp Require Import base numbers option gmap list.
From S2P Require Import Prelude Bytes BinarySearch Order BTreeMap Backend Mmap BPlusPages BPlusNodes BPlusBytes BPlusSlots BPlusCells BPlusPageOps BPlusStore.
Import Pages Nodes.
Implicit Types (t : BPlusTree) (A : Abs) (p q n : nat) (c : cell) (buf : list Z) (F X : list nat).

(** [X]: the pages a step may change. *)
Record keeps X A A' : Prop := {
  kp_pages : a_pages A ≤ a_pages A';
  kp_config : a_config A' = a_config A;
  kp_cells : ∀ q c, q ∉ X → in_use c → a_cells A !! q = Some c → a_cells A' !! q = Some c }.
Record same_meta A A' : Prop := {
  sm_root : a_root A' = a_root A;
  sm_right : a_right A' = a_right A;
  sm_count : a_count A' = a_count A }.
Definition fresh A p : Prop := 0 < p < a_pages A ∧ (p ∉ a_free A) ∧ (∀ c, a_cells A !! p = Some c → ¬ in_use c).

Lemma kept_refl X A : keeps X A A.
Proof. by constructor. Qed.
Lemma kept_trans X Y A1 A2 A3 : keeps X A1 A2 → keeps Y A2 A3 → keeps (X ++ Y) A1 A3.
Proof.
  intros [P1 C1 K1] [P2 C2 K2]. constructor; [lia|congruence|]. intros q c Hq Hu Hc. apply not_elem_of_app in Hq as [H1 H2].
  apply K2; [done|done|]. by apply K1.
Qed.
Lemma keeps_weaken X Y A A' : keeps X A A' → (∀ q, q ∈ X → q ∈ Y) → keeps Y A A'.
Proof. intros [P C K] Hi. constructor; [done|done|]. intros q c Hq. apply K. intros Hx. by apply Hq, Hi. Qed.
Lemma keeps_nil_trans X A1 A2 A3 : keeps X A1 A2 → keeps X A2 A3 → keeps X A1 A3.
Proof. intros H1 H2. eapply keeps_weaken; [by eapply kept_trans|]. intros q Hq. apply elem_of_app in Hq. tauto. Qed.
Lemma keeps_put p c A : keeps [p] A (put_cell p c A).
Proof. constructor; [done|done|]. simpl. intros q d Hq Hu Hd. rewrite lookup_insert_ne; [done|]. intros ->. apply Hq. left. Qed.
Lemma keeps_put_fresh p c A : fresh A p → keeps [] A (put_cell p c A).
Proof.
  intros (_ & _ & Hf). constructor; [done|done|]. simpl. intros q d Hq Hu Hd. rewrite lookup_insert_ne; [done|]. intros ->. by apply (Hf d).
Qed.
Lemma same_refl_meta A : same_meta A A.
Proof. by constructor. Qed.
Lemma same_meta_trans A1 A2 A3 : same_meta A1 A2 → same_meta A2 A3 → same_meta A1 A3.
Proof. intros [] []. constructor; congruence. Qed.
Lemma same_meta_put p c A : same_meta A (put_cell p c A).
Proof. by constructor. Qed.
Lemma fresh_unused X A A' p c : keeps X A A' → fresh A' p → p ∉ X → in_use c → a_cells A !! p ≠ Some c.
Proof. intros Hk (_ & _ & Hf) Hx Hu Hc. apply (Hf c); [|done]. by apply (kp_cells _ _ _ Hk). Qed.
Lemma edit_fresh t A p f c : phys t A → fresh A p →
  (∀ buf, length buf = PAGE_SIZE → ∃ buf', f buf = Ok buf' ∧ length buf' = PAGE_SIZE ∧ cell_at buf' c) →
  ∃ t', edit p f t = (t', Ok tt) ∧ phys t' (put_cell p c A).
Proof.
  intros Hp (Hr & Hn & _) Hf. apply edit_cell; [done..|]. intros buf Hb. apply Hf. by apply (page_length t p).
Qed.

(** ** Growing the file *)
Lemma resize_page n f p : n ≥ length f → (p + 1) * PAGE_SIZE ≤ length f →
  get_bytes (resize n f) (page_offset p) PAGE_SIZE = get_bytes f (page_offset p) PAGE_SIZE.
Proof.
  intros Hn Hp. unfold page_offset. rewrite !get_bytes_ok by (rewrite ?resize_length; page_lia). f_equal.
  unfold resize. rewrite (take_ge f n) by lia. rewrite drop_app_le by page_lia. rewrite take_app_le; [done|]. rewrite length_drop. page_lia.
Qed.
Lemma ensure_ok t A n : phys t A → ∃ t', ensure_capacity n t = (t', Ok tt) ∧ phys t' A ∧ n ≤ length (bp_file t').
Proof.
  intros Hp. unfold ensure_capacity. rewrite (phys_mapped _ _ Hp). destruct (Nat.leb_spec n (length (bp_file t))) as [Hl|Hl]; [by exists t|].
  set (m := Nat.max (length (bp_file t) * 2) n). assert (length (bp_file t) ≤ m) as Hm by lia. assert (n ≤ m) as Hnm by lia. clearbody m.
  unfold set_len, map_file, sys. rewrite (ph_os _ _ Hp). cbn [and_then bp_os set_file]. rewrite (ph_os _ _ Hp). cbn [and_then].
  eexists. split; [done|]. cbn [bp_file set_map set_file]. rewrite resize_length. split; [|done].
  assert (∀ p, p < a_pages A → page_bytes (set_map (Mapped m) (set_file (resize m (bp_file t)) t)) p = page_bytes t p) as Hpg.
  { intros p Hlt. unfold page_bytes. rewrite (phys_mapped _ _ Hp). unfold mapped. cbn [bp_map bp_file set_map set_file].
    rewrite take_ge by (rewrite resize_length; lia). apply resize_page; [lia|]. pose proof (ph_size _ _ Hp). page_lia. }
  pose proof (ph_two _ _ Hp) as Htwo. pose proof (ph_size _ _ Hp).
  constructor; cbn [bp_map bp_file bp_os bp_config bp_stats set_map set_file]; rewrite ?resize_length; try apply Hp; try done.
  - lia.
  - destruct (ph_meta _ _ Hp) as (meta & Hmt & Hok). exists meta. rewrite Hpg by (unfold META_PAGE; lia). done.
  - intros p c Hc. destruct (ph_cells _ _ Hp p c Hc) as [Hr (b & Hb & Hat)]. split; [done|]. exists b. by rewrite Hpg by lia.
Qed.
Lemma fresh_tail t A n p : phys t A → a_pages A ≤ p < n → fresh (with_page_count n A) p.
Proof.
  intros Hp Hr. pose proof (ph_two _ _ Hp). split_and!; simpl; [lia|lia| |].
  - intros Hin. apply (free_bound _ _ _ Hp) in Hin. lia.
  - intros c Hc. apply (ph_cells _ _ Hp) in Hc as [? _]. lia.
Qed.

(** ** Pages *)
(** What an allocation of [n] consecutive pages from [start] gives. *)
Record allocated n start A A' : Prop := {
  al_keeps : keeps [] A A';
  al_meta : same_meta A A';
  al_pages : a_pages A' ≤ a_pages A + n;
  al_fresh : ∀ i, i < n → fresh A' (start + i) }.
Lemma alloc_page_ok t A : phys t A → page_number (a_pages A + 1) → ∃ t' p A',
  alloc_page t = (t', Ok p) ∧ phys t' A' ∧ allocated 1 p A A'.
Proof.
  intros Hp Hn. unfold alloc_page. destruct (meta_page_ok _ _ Hp) as (_ & _ & -> & Hpc). cbn [reading].
  destruct (a_free A) as [|p F] eqn:EF.
  - change (head_page []) with 0. cbn [Nat.eqb negb]. rewrite Hpc. cbn [reading]. destruct (ensure_ok t A ((a_pages A + 1) * PAGE_SIZE) Hp) as (t1 & -> & Hp1 & Hl). cbn [and_then].
    destruct (set_pages_ok t1 A (a_pages A + 1) Hp1) as (t2 & -> & Hp2); [lia|done|done|]. cbn [and_then].
    exists t2, (a_pages A), (with_page_count (a_pages A + 1) A). split_and!; [done|done|]. constructor; [|done|done|].
    + constructor; simpl; [lia|done|done].
    + intros i Hi. apply (fresh_tail t); [done|lia].
  - pose proof (ph_chain _ _ Hp) as [HF Hnd]. rewrite EF in HF, Hnd. destruct HF as [Hc HF]. apply NoDup_cons in Hnd as [Hpf Hnd].
    destruct (ph_cells _ _ Hp _ _ Hc) as [Hr (b & Hb & Hf & Hpn)]. change (head_page (p :: F)) with p. destruct (Nat.eqb_spec p 0) as [->|_]; [lia|]. cbn [negb].
    rewrite Hb. cbn [reading]. rewrite (field64 _ _ _ Hf Hpn). cbn [reading].
    destruct (set_free_ok t A F Hp HF Hnd) as (t1 & -> & Hp1). cbn [and_then].
    unfold dec_free_pages. destruct (write_free_pages_ok t1 _ (Z.max 0 (st_free_pages (bp_stats t1) - 1)) Hp1) as (t2 & -> & Hp2). cbn [and_then].
    exists t2, p, (with_freelist F A). split_and!; [done|done|]. constructor; [by constructor|done|simpl; lia|].
    intros i Hi. replace (p + i) with p by lia. split; [done|]. split; [done|]. simpl. intros c Hc'. rewrite Hc in Hc'. injection Hc' as <-. by intros [].
Qed.
Lemma free_page_ok t A p c : phys t A → a_cells A !! p = Some c → in_use c → ∃ t' A',
  free_page p t = (t', Ok tt) ∧ phys t' A' ∧ keeps [p] A A' ∧ same_meta A A' ∧ a_pages A' = a_pages A.
Proof.
  intros Hp Hc Hu. pose proof (ph_cells _ _ Hp _ _ Hc) as [Hr _]. pose proof (used_not_free _ _ _ (ph_chain _ _ Hp) Hc Hu) as Hpf.
  pose proof (ph_chain _ _ Hp) as [HF Hnd]. pose proof (head_bound _ _ _ Hp HF) as Hh. pose proof (ph_bound _ _ Hp) as Hb.
  unfold free_page. destruct (meta_page_ok _ _ Hp) as (_ & _ & -> & _). cbn [reading].
  destruct (edit_cell t A p (λ buf, put64 buf 0 (head_page (a_free A))) (CFree (head_page (a_free A))) Hp Hr Hpf) as (t1 & -> & Hp1).
  { intros buf Hbuf. pose proof (page_length _ _ _ Hbuf) as Hl. destruct (put64_spec buf 0 (head_page (a_free A))) as (b' & Hb' & Hs & Hf); [page_lia|].
    exists b'. split; [done|]. split; [by rewrite (so_length _ _ _ _ Hs)|]. split; [done|]. unfold page_number in *. lia. }
  cbn [and_then]. destruct (set_free_ok t1 _ (p :: a_free A) Hp1) as (t2 & Hs & Hp2).
  { simpl. rewrite lookup_insert_eq. split; [done|by apply chain_insert]. }
  { by apply NoDup_cons. }
  change (head_page (p :: a_free A)) with p in Hs. rewrite Hs. cbn [and_then]. unfold inc_free_pages.
  destruct (write_free_pages_ok t2 _ (st_free_pages (bp_stats t2) + 1) Hp2) as (t3 & -> & Hp3).
  exists t3, (with_freelist (p :: a_free A) (put_cell p (CFree (head_page (a_free A))) A)). split; [done|]. split; [done|]. split; [|by repeat constructor].
  destruct (keeps_put p (CFree (head_page (a_free A))) A). by constructor.
Qed.

(** * Extents: runs of pages that hold one large value

    [has_extent cs key start v]: the pages from [start] hold [v], cut in page
    sized pieces.  Allocation finds a descending run on the freelist, or takes
    pages from the file's end. *)
Implicit Types (v key : list Z) (Y : list nat).

Definition chunk v (i : nat) : list Z := take PAGE_SIZE (drop (i * PAGE_SIZE) v).
Definition chunks v : nat := div_ceil (length v) PAGE_SIZE.
Definition has_extent (cs : gmap nat cell) key (start : nat) v : Prop :=
  ∀ i, i < chunks v → cs !! (start + i) = Some (CExt key (chunk v i)).

Lemma chunks_bound v : length v ≤ chunks v * PAGE_SIZE < length v + PAGE_SIZE.
Proof.
  unfold chunks, div_ceil. pose proof page_size_Z. assert (PAGE_SIZE ≠ 0) as Hz by lia.
  pose proof (Nat.div_mod (length v + PAGE_SIZE - 1) PAGE_SIZE Hz). pose proof (Nat.mod_upper_bound (length v + PAGE_SIZE - 1) PAGE_SIZE Hz). nia.
Qed.
Lemma chunks_pos v : 0 < length v → 0 < chunks v.
Proof. intros Hl. pose proof (chunks_bound v). destruct (chunks v); lia. Qed.
Lemma take_chunk v i : take ((i + 1) * PAGE_SIZE) v = take (i * PAGE_SIZE) v ++ chunk v i.
Proof. unfold chunk. rewrite take_take_drop. f_equal. lia. Qed.
Lemma extent_read t A key start v : phys t A → has_extent (a_cells A) key start v → 0 < length v →
  get_bytes (mapped t) (page_offset start) (length v) = Ok v.
Proof.
  intros Hp He Hl. assert (start < a_pages A) as Hs.
  { pose proof (chunks_pos v Hl) as Hc. specialize (He 0 Hc). rewrite Nat.add_0_r in He. apply (ph_cells _ _ Hp) in He as [? _]. lia. }
  assert (∀ m, m ≤ chunks v → get_bytes (mapped t) (page_offset start) (length (take (m * PAGE_SIZE) v)) = Ok (take (m * PAGE_SIZE) v)) as Hm.
  { induction m as [|m IH]; intros Hm.
    - simpl. apply get_bytes_nil. rewrite (phys_mapped _ _ Hp). pose proof (ph_size _ _ Hp). unfold page_offset. page_lia.
    - replace (S m) with (m + 1) by lia. rewrite take_chunk, length_app. apply get_bytes_join; [apply IH; lia|].
      pose proof (chunks_bound v). assert (length (take (m * PAGE_SIZE) v) = m * PAGE_SIZE) as -> by (rewrite length_take; page_lia).
      destruct (page_lookup _ _ _ _ Hp (He m Hm)) as (buf & Hb & Hat). simpl in Hat. unfold page_bytes in Hb.
      pose proof (get_bytes_length _ _ _ _ Hb). pose proof (get_bytes_inv _ _ _ _ Hat) as [Hle _].
      replace (page_offset start + m * PAGE_SIZE) with (page_offset (start + m) + 0) by (unfold page_offset; lia).
      rewrite (get_bytes_within _ _ _ _ 0 _ Hb) by lia. exact Hat. }
  specialize (Hm _ (le_n _)). pose proof (chunks_bound v). rewrite take_ge in Hm by lia. exact Hm.
Qed.

(** ** A run on the freelist *)
Definition descending (cur n : nat) : list nat := map (λ i, cur - i) (seq 0 n).
Lemma descending_S cur n : descending (S cur) (S n) = S cur :: descending cur n.
Proof. unfold descending. simpl. f_equal. rewrite <- seq_shift, map_map. done. Qed.
Lemma free_read t A p Y : phys t A → free_chain (a_cells A) (p :: Y) →
  0 < p < a_pages A ∧ ∃ buf, page_bytes t p = Ok buf ∧ get64 buf 0 = Ok (head_page Y).
Proof.
  intros Hp [Hc _]. destruct (ph_cells _ _ Hp _ _ Hc) as [Hr (b & Hb & Hf & Hn)]. split; [done|]. exists b. split; [done|]. by apply field64.
Qed.
Lemma extent_run_ok t A : phys t A → ∀ n m cur Y, free_chain (a_cells A) (cur :: Y) → ∃ k Y',
  extent_run n t m cur = Ok (m + k, cur - k) ∧ k ≤ n ∧ k < cur ∧ cur :: Y = descending cur (S k) ++ Y'.
Proof.
  intros Hp. induction n as [|n IH]; intros m cur Y HF; destruct (free_read _ _ _ _ Hp HF) as (Hr & b & Hb & Hg); cbn [extent_run].
  - exists 0, Y. split_and!; [f_equal; f_equal; lia|lia|lia|]. unfold descending. simpl. f_equal. lia.
  - rewrite Hb. cbn [rbind]. rewrite Hg. cbn [rbind]. destruct Y as [|q Y]; simpl head_page.
    { exists 0, []. split_and!; [simpl; do 2 f_equal; lia|lia|lia|]. unfold descending. simpl. f_equal. lia. }
    change (head_page (q :: Y)) with q. destruct HF as [_ HF]. destruct (free_read _ _ _ _ Hp HF) as (Hrq & _).
    destruct (Nat.eqb_spec q 0) as [->|_]; [lia|]. cbn [orb]. destruct (Nat.eqb_spec (q + 1) cur) as [<-|Hne]; cbn [negb].
    + destruct (IH (m + 1) q Y HF) as (k & Y' & -> & Hk & Hkq & HY). exists (S k), Y'. split_and!; [f_equal; f_equal; lia|lia|lia|].
      replace (q + 1) with (S q) by lia. rewrite descending_S, <- app_comm_cons. by rewrite <- HY.
    + exists 0, (q :: Y). split_and!; [do 2 f_equal; lia|lia|lia|]. unfold descending. simpl. f_equal. lia.
Qed.
Lemma chain_suffix cs X Y : free_chain cs (X ++ Y) → free_chain cs Y.
Proof. induction X as [|p X IH]; simpl; [done|]. intros [_ HF]. by apply IH. Qed.
Lemma chain_relink cs X p Z Y : NoDup (X ++ [p]) → p ∉ Y → free_chain cs (X ++ p :: Z) → free_chain cs Y →
  free_chain (<[p := CFree (head_page Y)]> cs) (X ++ p :: Y).
Proof.
  intros Hnd HpY HF HY. induction X as [|x X IH]; simpl in *.
  - rewrite lookup_insert_eq. split; [done|by apply chain_insert].
  - destruct HF as [Hx HF]. apply NoDup_cons in Hnd as [Hxn Hnd]. rewrite lookup_insert_ne.
    + split; [|by apply IH]. rewrite Hx. by destruct X.
    + intros ->. apply Hxn. apply elem_of_app. right. left.
Qed.
Lemma elem_descending cur n i : i < n → cur - i ∈ descending cur n.
Proof. intros Hi. apply list_elem_of_fmap. exists i. split; [done|]. apply elem_of_seq. lia. Qed.

(** The run [descending cur (S k)] is unlinked. *)
Lemma unlink_run t A X cur k Y : phys t A → a_free A = X ++ descending cur (S k) ++ Y → k < cur → ∃ t' A',
  (match last X with Some p => edit p (λ buf, put64 buf 0 (head_page Y)) t | None => set_free_head (head_page Y) t end) = (t', Ok tt) ∧
  phys t' A' ∧ allocated (S k) (cur - k) A A'.
Proof.
  intros Hp HF Hk. pose proof (ph_chain _ _ Hp) as [Hch Hnd]. rewrite HF in Hch, Hnd.
  assert (free_chain (a_cells A) Y) as HY by (rewrite app_assoc in Hch; by apply chain_suffix in Hch).
  apply NoDup_app in Hnd as (HndX & HX & Hnd). apply NoDup_app in Hnd as (_ & HR & HndY).
  assert (NoDup (X ++ Y)) as HndXY.
  { apply NoDup_app. split_and!; [done| |done]. intros x Hx HxY. apply (HX x Hx). apply elem_of_app. by right. }
  assert (∀ i, i < S k → ∃ q, cur - k + i = q ∧ q ∈ a_free A ∧ q ∉ X ++ Y) as Hrun.
  { intros i Hi. exists (cur - (k - i)). split; [lia|]. assert (cur - (k - i) ∈ descending cur (S k)) as Hin by (apply elem_descending; lia).
    split; [rewrite HF, !elem_of_app; tauto|]. intros [Hx|Hy]%elem_of_app; [|by apply (HR _ Hin)].
    apply (HX _ Hx). apply elem_of_app. by left. }
  pose proof (head_bound _ _ _ Hp HY) as Hh. pose proof (ph_bound _ _ Hp) as Hb.
  destruct X as [|x X' _] using rev_ind.
  - simpl. destruct (set_free_ok t A Y Hp HY HndY) as (t' & -> & Hp'). exists t', (with_freelist Y A). split_and!; [done..|].
    constructor; [by constructor|by constructor|simpl; lia|]. intros i Hi. destruct (Hrun i Hi) as (q & -> & Hq & Hn).
    split; [by apply (free_bound t A)|]. split; [done|]. intros c Hc. simpl in Hc. destruct (chain_lookup _ _ _ (proj1 (ph_chain _ _ Hp)) Hq) as (m & Hm).
    rewrite Hm in Hc. injection Hc as <-. by intros [].
  - rewrite last_snoc. assert (x ∈ a_free A) as Hx by (rewrite HF, !elem_of_app; left; right; left).
    rewrite <- app_assoc in Hch. simpl in Hch.
    assert (x ∉ Y) as HxY. { intros Hin. apply (HX x); [apply elem_of_app; right; left|apply elem_of_app; by right]. }
    pose proof (free_bound _ _ _ Hp Hx) as Hrx. destruct (chain_lookup _ _ _ (proj1 (ph_chain _ _ Hp)) Hx) as (mx & Hmx).
    destruct (edit_relink t A x (λ buf, put64 buf 0 (head_page Y)) (CFree (head_page Y)) ((X' ++ [x]) ++ Y) Hp Hrx) as (t' & -> & Hp').
    + rewrite HF. unfold head_page. by destruct X'.
    + rewrite <- app_assoc. by apply (chain_relink _ X' x (descending cur (S k) ++ Y)).
    + done.
    + intros buf Hbuf. pose proof (page_length _ _ _ Hbuf) as Hl. destruct (put64_spec buf 0 (head_page Y)) as (b' & Hb' & Hs & Hf); [page_lia|].
      exists b'. split; [done|]. split; [by rewrite (so_length _ _ _ _ Hs)|]. split; [done|]. unfold page_number in *. lia.
    + eexists t', _. split; [done|]. split; [exact Hp'|]. constructor; [constructor; [done..|]|by constructor|simpl; lia|].
      * intros q c _ Hu Hc. simpl. rewrite lookup_insert_ne; [done|]. intros ->. rewrite Hmx in Hc. by injection Hc as <-.
      * intros i Hi. destruct (Hrun i Hi) as (q & -> & Hq & Hn). split; [by apply (free_bound t A)|]. split; [done|].
        intros c Hc. simpl in Hc. destruct (chain_lookup _ _ _ (proj1 (ph_chain _ _ Hp)) Hq) as (m & Hm).
        rewrite lookup_insert_ne in Hc by (intros ->; apply Hn; apply elem_of_app; left; apply elem_of_app; right; left).
        rewrite Hm in Hc. injection Hc as <-. by intros [].
Qed.
Lemma descending_snoc cur k : descending cur (S k) = descending cur k ++ [cur - k].
Proof. unfold descending. by rewrite seq_S, map_app. Qed.

(** ** Allocating an extent *)
Lemma extent_scan_ok t A k : phys t A → ∀ fuel X Y, a_free A = X ++ Y →
  extent_scan fuel (S k) (last X) (head_page Y) t = (t, Ok None) ∨
  ∃ t' start A', extent_scan fuel (S k) (last X) (head_page Y) t = (t', Ok (Some start)) ∧ phys t' A' ∧ allocated (S k) start A A'.
Proof.
  intros Hp. induction fuel as [|fuel IH]; intros X Y HF; cbn [extent_scan]; [by left|].
  destruct Y as [|cur Y]; [by left|]. change (head_page (cur :: Y)) with cur.
  pose proof (ph_chain _ _ Hp) as [Hch _]. rewrite HF in Hch. apply chain_suffix in Hch.
  destruct (free_read _ _ _ _ Hp Hch) as (Hr & b & Hb & Hg). destruct (Nat.eqb_spec cur 0) as [->|_]; [lia|].
  destruct (extent_run_ok t A Hp k 1 cur Y Hch) as (j & Y' & Hrun & Hj & Hjc & HY). replace (S k - 1) with k by lia. rewrite Hrun. cbn [reading fst snd].
  assert (free_chain (a_cells A) ((cur - j) :: Y')) as Hlast.
  { rewrite HY, descending_snoc, <- app_assoc in Hch. by apply chain_suffix in Hch. }
  destruct (free_read _ _ _ _ Hp Hlast) as (_ & b' & Hb' & Hg'). rewrite Hb'. cbn [reading]. rewrite Hg'. cbn [reading].
  destruct (Nat.eqb_spec (1 + j) (S k)) as [Heq|_].
  - right. assert (j = k) as -> by lia. rewrite HY in HF. destruct (unlink_run t A X cur k Y' Hp HF Hjc) as (t1 & A1 & He & Hp1 & Ha). rewrite He. cbn [and_then].
    destruct (write_free_pages_ok t1 A1 (Z.max 0 (st_free_pages (bp_stats t1) - Z.of_nat (S k))) Hp1) as (t2 & -> & Hp2). cbn [and_then].
    by exists t2, (cur - k), A1.
  - rewrite Hb. cbn [reading]. rewrite Hg. cbn [reading]. specialize (IH (X ++ [cur]) Y). rewrite last_snoc in IH. apply IH.
    by rewrite <- app_assoc.
Qed.
Lemma alloc_extent_ok t A n : phys t A → 0 < n → page_number (a_pages A + n) → ∃ t' start A',
  alloc_extent n t = (t', Ok start) ∧ phys t' A' ∧ allocated n start A A'.
Proof.
  intros Hp Hn Hpn. destruct (meta_page_ok _ _ Hp) as (_ & _ & Hfh & Hpc). unfold alloc_extent.
  assert (∃ t' o, alloc_extent_from_freelist n t = (t', Ok o) ∧
    match o with Some start => ∃ A', phys t' A' ∧ allocated n start A A' | None => t' = t end) as (t1 & o & -> & Ho).
  { unfold alloc_extent_from_freelist. destruct (Nat.eqb_spec n 0); [lia|]. destruct (Nat.eqb_spec n 1) as [->|Hn1].
    - rewrite Hfh. cbn [reading]. pose proof (ph_chain _ _ Hp) as [HF Hnd]. destruct (a_free A) as [|p F] eqn:EF.
      { change (head_page []) with 0. cbn [Nat.eqb]. by exists t, None. }
      change (head_page (p :: F)) with p. destruct (free_read _ _ _ _ Hp HF) as (Hr & b & Hb & Hg). destruct (Nat.eqb_spec p 0) as [->|_]; [lia|].
      destruct (alloc_page_ok t A Hp Hpn) as (t' & p' & A' & Ha & Hp' & Hal). unfold alloc_page in Ha. rewrite Hfh in Ha. cbn [reading] in Ha.
      change (head_page (p :: F)) with p in Ha. destruct (Nat.eqb_spec p 0) as [->|_]; [lia|]. cbn [negb] in Ha.
      rewrite Hb in Ha |- *. cbn [reading] in Ha |- *. rewrite Hg in Ha |- *. cbn [reading] in Ha |- *.
      destruct (set_free_head _ _) as [t1 [[]|e|]]; cbn [and_then] in Ha |- *; [|done..].
      destruct (dec_free_pages _) as [t2 [[]|e|]]; cbn [and_then] in Ha |- *; [|done..]. injection Ha as -> ->.
      exists t', (Some p'). split; [done|]. by exists A'.
    - rewrite Hfh, Hpc. cbn [reading]. destruct n as [|k]; [lia|].
      pose proof (extent_scan_ok t A k Hp (a_pages A) [] (a_free A) eq_refl) as Hsc. change (last (@nil nat)) with (@None nat) in Hsc.
      destruct Hsc as [->|(t' & start & A' & -> & Hp' & Ha)]; [by exists t, None|].
      exists t', (Some start). split; [done|]. by exists A'. }
  cbn [and_then]. destruct o as [start|].
  - destruct Ho as (A' & Hp' & Ha). by exists t1, start, A'.
  - subst t1. rewrite Hpc. cbn [reading]. destruct (ensure_ok t A ((a_pages A + n) * PAGE_SIZE) Hp) as (t1 & -> & Hp1 & Hl). cbn [and_then].
    destruct (set_pages_ok t1 A (a_pages A + n) Hp1) as (t2 & -> & Hp2); [lia|done|done|]. cbn [and_then].
    exists t2, (a_pages A), (with_page_count (a_pages A + n) A). split_and!; [done|done|]. constructor; [|done|done|].
    + constructor; simpl; [lia|done|done].
    + intros i Hi. apply (fresh_tail t); [done|lia].
Qed.

(** ** Writing an extent *)
Definition in_run (start n q : nat) : Prop := start ≤ q < start + n.
#[local] Instance in_run_dec start n q : Decision (in_run start n q).
Proof. unfold in_run. apply _. Defined.
Definition forget (start n : nat) A : Abs := set_cells (filter (λ qc, ¬ in_run start n qc.1) (a_cells A)) A.
Lemma forget_lookup start n A q : a_cells (forget start n A) !! q = if decide (in_run start n q) then None else a_cells A !! q.
Proof.
  simpl. destruct (decide (in_run start n q)) as [Hi|Hi].
  - apply map_lookup_filter_None. right. intros c _ Hn. by apply Hn.
  - destruct (a_cells A !! q) as [c|] eqn:E.
    + apply map_lookup_filter_Some. by split.
    + apply map_lookup_filter_None. by left.
Qed.
Lemma forget_ok t A start n : phys t A → (∀ i, i < n → fresh A (start + i)) → phys t (forget start n A) ∧ keeps [] A (forget start n A).
Proof.
  intros Hp Hf. assert (∀ q, in_run start n q → fresh A q) as Hfr.
  { intros q Hq. unfold in_run in Hq. specialize (Hf (q - start)). replace (start + (q - start)) with q in Hf by lia. apply Hf. lia. }
  split.
  - constructor; try apply Hp.
    + destruct (ph_meta _ _ Hp) as (meta & Hm & Hok). exists meta. split; [done|]. by eapply meta_ok_same.
    + destruct (ph_chain _ _ Hp) as [HF Hnd]. split; [|done]. change (a_free (forget start n A)) with (a_free A).
      assert (∀ q, q ∈ a_free A → ¬ in_run start n q) as Hout by (intros q Hq Hi; by destruct (Hfr q Hi) as (_ & Hn & _)).
      induction (a_free A) as [|p F IH]; [done|]. cbn [free_chain] in HF |- *. rewrite forget_lookup, decide_False by (apply Hout; left).
      destruct HF as [Hc HF]. apply NoDup_cons in Hnd as [_ Hnd]. split; [done|]. apply IH; [done..|]. intros q Hq. apply Hout. by right.
    + intros p c Hc. rewrite forget_lookup in Hc. case_decide; [done|]. by apply (ph_cells _ _ Hp).
  - constructor; [done|done|]. intros q c _ Hu Hc. rewrite forget_lookup, decide_False; [done|].
    intros Hi. destruct (Hfr q Hi) as (_ & _ & Hn). by apply (Hn c).
Qed.
(** Bytes stored over pages nothing is known of. *)
Lemma store_bytes_ok t A start v : phys t A → start + chunks v ≤ a_pages A → 0 < start → (∀ i, i < chunks v → a_cells A !! (start + i) = None) → ∃ t',
  store (page_offset start) v t = (t', Ok tt) ∧ phys t' A ∧
  ∀ i, i < chunks v → ∃ buf, page_bytes t' (start + i) = Ok buf ∧ get_bytes buf 0 (length (chunk v i)) = Ok (chunk v i).
Proof.
  intros Hp Hs H0 Hn. pose proof (ph_size _ _ Hp) as Hsz. pose proof (phys_mapped _ _ Hp) as Hmap. pose proof (ph_map _ _ Hp) as Hm. pose proof (chunks_bound v) as Hcb.
  assert (page_offset start + length v ≤ length (bp_file t)) as Hin by (unfold page_offset; page_lia).
  unfold store. pose proof (put_bytes_ok (mapped t) (page_offset start) v ltac:(by rewrite Hmap)) as Hput.
  unfold put_bytes in Hput. destruct (splice _ _ _) as [b|]; [|done]. injection Hput as ->. eexists. split; [done|].
  unfold set_mapped. rewrite Hm, skipn_all, app_nil_r, Hmap. set (f := patch (bp_file t) (page_offset start) v).
  assert (length f = length (bp_file t)) as Hlen by (by apply patch_length).
  assert (mapped (set_file f t) = f) as Hmap' by (unfold mapped; simpl; rewrite Hm; apply take_ge; lia).
  assert (∀ q, ¬ in_run start (chunks v) q → page_bytes (set_file f t) q = page_bytes t q) as Hout.
  { intros q Hq. unfold page_bytes. rewrite Hmap', Hmap. apply get_bytes_patch_ne; [done|]. unfold in_run in Hq. unfold page_offset.
    destruct (decide (q < start)); [left; page_lia|right]. assert (start + chunks v ≤ q) by lia. page_lia. }
  split.
  - constructor; cbn [bp_map bp_file bp_os bp_config bp_stats set_file]; rewrite ?Hlen; try apply Hp.
    + destruct (ph_meta _ _ Hp) as (meta & Hmt & Hok). exists meta. rewrite Hout by (unfold in_run, META_PAGE; lia). done.
    + intros p c Hc. destruct (ph_cells _ _ Hp p c Hc) as [Hr (b & Hb & Hat)]. split; [done|]. exists b. split; [|done]. rewrite Hout; [done|].
      intros Hi. unfold in_run in Hi. specialize (Hn (p - start) ltac:(lia)). replace (start + (p - start)) with p in Hn by lia. congruence.
  - intros i Hi. assert (page_bytes (set_file f t) (start + i) = Ok (take PAGE_SIZE (drop (page_offset (start + i)) f))) as Hb.
    { unfold page_bytes. rewrite Hmap'. apply get_bytes_ok. unfold page_offset. page_lia. }
    eexists. split; [exact Hb|]. pose proof (get_bytes_patch_eq (bp_file t) (page_offset start) v Hin) as Hg. fold f in Hg.
    assert (length (chunk v i) = Nat.min PAGE_SIZE (length v - i * PAGE_SIZE)) as Hlc by (unfold chunk; by rewrite length_take, length_drop).
    unfold page_bytes in Hb. rewrite Hmap' in Hb. rewrite <- (get_bytes_within _ _ _ _ 0 _ Hb) by lia.
    replace (page_offset (start + i) + 0) with (page_offset start + i * PAGE_SIZE) by (unfold page_offset; lia).
    rewrite (get_bytes_within _ _ _ _ _ _ Hg) by page_lia. rewrite get_bytes_ok by page_lia. f_equal. unfold chunk at 1. unfold chunk in Hlc.
    rewrite Hlc. unfold chunk. destruct (decide (PAGE_SIZE ≤ length v - i * PAGE_SIZE)).
    + by rewrite Nat.min_l by lia.
    + rewrite Nat.min_r by lia. rewrite !take_ge; [done|rewrite length_drop; lia..].
Qed.
Lemma adopt_run t A key start v : phys t A → (∀ i, i < chunks v → 0 < start + i < a_pages A ∧ (start + i ∉ a_free A) ∧ a_cells A !! (start + i) = None) →
  (∀ i, i < chunks v → ∃ buf, page_bytes t (start + i) = Ok buf ∧ get_bytes buf 0 (length (chunk v i)) = Ok (chunk v i)) →
  ∃ A', phys t A' ∧ keeps [] A A' ∧ same_meta A A' ∧ a_pages A' = a_pages A ∧ has_extent (a_cells A') key start v.
Proof.
  intros Hp Hf Hb. assert (∀ m, m ≤ chunks v → ∃ A', phys t A' ∧ keeps [] A A' ∧ same_meta A A' ∧ a_pages A' = a_pages A ∧ a_free A' = a_free A ∧
    (∀ i, i < m → a_cells A' !! (start + i) = Some (CExt key (chunk v i))) ∧ (∀ i, m ≤ i < chunks v → a_cells A' !! (start + i) = None)) as Hm.
  { induction m as [|m IH]; intros Hm.
    - exists A. split; [done|]. split; [apply kept_refl|]. split; [apply same_refl_meta|]. split; [done|]. split; [done|].
      split; [lia|]. intros i Hi. apply Hf. lia.
    - destruct IH as (A' & Hp' & Hk & Hs & Hpg & Hfr & Hlo & Hhi); [lia|]. destruct (Hf m ltac:(lia)) as (Hr & Hn & _).
      destruct (Hb m ltac:(lia)) as (buf & Hbuf & Hg). exists (put_cell (start + m) (CExt key (chunk v m)) A'). split_and!.
      + eapply adopt_page; [done|by rewrite Hpg|by rewrite Hfr|exact Hbuf|exact Hg].
      + eapply keeps_nil_trans; [exact Hk|]. apply keeps_put_fresh. split; [by rewrite Hpg|]. split; [by rewrite Hfr|].
        intros c Hc. rewrite Hhi in Hc by lia. done.
      + eapply same_meta_trans; [exact Hs|apply same_meta_put].
      + done.
      + done.
      + intros i Hi. simpl. destruct (decide (i = m)) as [->|]; [apply lookup_insert_eq|]. rewrite lookup_insert_ne by lia. apply Hlo. lia.
      + intros i Hi. simpl. rewrite lookup_insert_ne by lia. apply Hhi. lia. }
  destruct (Hm _ (le_n _)) as (A' & Hp' & Hk & Hs & Hpg & _ & Hlo & _). by exists A'.
Qed.
Lemma write_extent_ok t A key v : phys t A → 0 < length v → page_number (a_pages A + chunks v) → ∃ t' start A',
  write_extent v t = (t', Ok start) ∧ phys t' A' ∧ keeps [] A A' ∧ same_meta A A' ∧ a_pages A' ≤ a_pages A + chunks v ∧
  has_extent (a_cells A') key start v ∧ page_number start.
Proof.
  intros Hp Hl Hpn. pose proof (chunks_pos v Hl) as Hc. unfold write_extent. fold (chunks v).
  destruct (alloc_extent_ok t A (chunks v) Hp Hc Hpn) as (t1 & start & A1 & -> & Hp1 & [Hk Hs Hpg Hf]). cbn [and_then].
  destruct (forget_ok t1 A1 start (chunks v) Hp1 Hf) as [Hp2 Hk2].
  assert (∀ i, i < chunks v → a_cells (forget start (chunks v) A1) !! (start + i) = None) as Hnone.
  { intros i Hi. rewrite forget_lookup, decide_True; [done|]. unfold in_run. lia. }
  assert (0 < start ∧ start + chunks v ≤ a_pages A1) as [H0 Hle].
  { pose proof (Hf 0 Hc) as ([? _] & _). pose proof (Hf (chunks v - 1) ltac:(lia)) as ([_ ?] & _). lia. }
  destruct (store_bytes_ok t1 _ start v Hp2 Hle H0 Hnone) as (t2 & -> & Hp3 & Hb). cbn [and_then].
  destruct (adopt_run t2 _ key start v Hp3) as (A' & Hp' & Hk' & Hs' & Hpg' & He).
  { intros i Hi. destruct (Hf i Hi) as (Hr & Hn & _). split; [done|]. split; [done|]. by apply Hnone. }
  { done. }
  exists t2, start, A'. split_and!; try done.
  - eapply keeps_nil_trans; [exact Hk|]. by eapply keeps_nil_trans.
  - destruct Hs, Hs'. constructor; simpl in *; congruence.
  - rewrite Hpg'. done.
  - pose proof (ph_bound _ _ Hp1). unfold page_number in *. lia.
Qed.

(** ** Freeing an extent *)
Lemma free_run_ok key n : ∀ t A start, phys t A → (∀ i, i < n → ∃ bs, a_cells A !! (start + i) = Some (CExt key bs)) → ∃ t' A',
  free_run start n t = (t', Ok tt) ∧ phys t' A' ∧ keeps (seq start n) A A' ∧ same_meta A A' ∧ a_pages A' = a_pages A.
Proof.
  induction n as [|n IH]; intros t A start Hp He; cbn [free_run].
  - exists t, A. split_and!; try done; by constructor.
  - destruct (He 0 ltac:(lia)) as (bs & Hc). rewrite Nat.add_0_r in Hc.
    destruct (free_page_ok t A start _ Hp Hc I) as (t1 & A1 & -> & Hp1 & Hk1 & Hs1 & Hpg1). cbn [and_then].
    destruct (IH t1 A1 (start + 1) Hp1) as (t2 & A2 & -> & Hp2 & Hk2 & Hs2 & Hpg2).
    { intros i Hi. destruct (He (i + 1) ltac:(lia)) as (bs' & Hc'). exists bs'. replace (start + 1 + i) with (start + (i + 1)) by lia.
      apply (kp_cells _ _ _ Hk1); [|done|done]. rewrite list_elem_of_singleton. lia. }
    exists t2, A2. split; [done|]. split; [done|]. split; [|split; [by eapply same_meta_trans|congruence]].
    eapply keeps_weaken; [eapply kept_trans; [exact Hk1|exact Hk2]|]. intros q. rewrite elem_of_app, list_elem_of_singleton, !elem_of_seq. lia.
Qed.
(** Every page in use keeps its cell, but those of the extent. *)
Definition keeps_but_key key A A' : Prop := a_pages A' = a_pages A ∧ a_config A' = a_config A ∧
  ∀ q c, (∀ bs, c ≠ CExt key bs) → in_use c → a_cells A !! q = Some c → a_cells A' !! q = Some c.
Lemma free_extent_ok t A key start v : phys t A → has_extent (a_cells A) key start v → ∃ t' A',
  free_extent start (length v) t = (t', Ok tt) ∧ phys t' A' ∧ keeps_but_key key A A' ∧ same_meta A A'.
Proof.
  intros Hp He. unfold free_extent. fold (chunks v).
  destruct (free_run_ok key (chunks v) t A start Hp) as (t' & A' & -> & Hp' & Hk & Hs & Hpg); [intros i Hi; by eexists; apply He|].
  exists t', A'. split; [done|]. split; [done|]. split; [|done]. split; [done|]. split; [apply Hk|]. intros q c Hne Hu Hc. apply (kp_cells _ _ _ Hk); [|done|done].
  rewrite elem_of_seq. intros Hq. specialize (He (q - start) ltac:(lia)). replace (start + (q - start)) with q in He by lia.
  rewrite Hc in He. injection He as ->. by apply (Hne (chunk v (q - start))).
Qed.
