(* ===== verification/BPlusLeaf.v ===== *)
(** * Leaves of a tree file: inserting, removing and overwriting an entry

    The steps of [BPlusNodes.v] on one leaf, by what they do to its cell; a
    value too large for the page goes to an extent ([holds_value]). *)
From stdpp Require Import base numbers option gmap list.
From S2P Require Import Prelude Bytes BinarySearch Order BTreeMap Mmap Backend BPlusPages BPlusNodes BPlusBytes BPlusSlots BPlusCells BPlusPageOps BPlusStore BPlusAlloc.
Import Pages Nodes.
Implicit Types (t : BPlusTree) (A : Abs) (p q n next prev : nat) (c : cell) (buf v key k : list Z) (pl : payload) (e : entry) (es : list entry).

Definition holds_value (cs : gmap nat cell) e : Prop :=
  match e.2 with Inline _ => True | Extent start v => has_extent cs e.1 start v ∧ 0 < length v end.
(** What may be stored under a key: lengths that fit their fields. *)
Definition storable k v : Prop := (Z.of_nat (length k) < 2 ^ 16)%Z ∧ (Z.of_nat (length v) < 2 ^ 31)%Z ∧ (overflows k v = true → 0 < length v).
Definition entry_size k v : nat := 6 + length k + payload_len k v.
Record payload_for k v pl : Prop := {
  pf_value : stored_value pl = v;
  pf_size : payload_size pl = payload_len k v;
  pf_ok : entry_ok (k, pl) }.
Lemma enc_entry_size k v pl : payload_for k v pl → length (enc_entry (k, pl)) = entry_size k v.
Proof. intros [_ Hs _]. rewrite enc_entry_length. simpl. unfold entry_size. by rewrite Hs. Qed.
Lemma inline_for k v : storable k v → overflows k v = false → payload_for k v (Inline v).
Proof. intros (Hk & Hv & _) Ho. constructor; [done| |done]. unfold payload_size, payload_len. cbn [payload_bytes]. by rewrite Ho. Qed.
Lemma extent_for k v s : storable k v → overflows k v = true → page_number s → payload_for k v (Extent s v).
Proof. intros (Hk & Hv & _) Ho Hs. constructor; [done| |done]. unfold payload_size, payload_len. cbn [payload_bytes]. by rewrite Ho, le_length. Qed.
Lemma holds_keeps (X : list nat) (cs cs' : gmap nat cell) e : (∀ q c, q ∉ X → in_use c → cs !! q = Some c → cs' !! q = Some c) → (∀ q, q ∈ X → ∀ k bs, cs !! q ≠ Some (CExt k bs)) →
  holds_value cs e → holds_value cs' e.
Proof.
  intros Hk HX. unfold holds_value. destruct e.2 as [v|s v]; [done|]. intros [He Hv]. split; [|done].
  intros i Hi. apply Hk; [|done|by apply He]. intros Hin. by apply (HX _ Hin e.1 (chunk v i)), He.
Qed.

Lemma leaf_page_at t A p next prev es : phys t A → a_cells A !! p = Some (CLeaf next prev es) → ∃ buf,
  page_bytes t p = Ok buf ∧ is_leaf buf next prev es ∧ page_number next ∧ page_number prev.
Proof. intros Hp Hc. destruct (page_lookup _ _ _ _ Hp Hc) as (buf & Hb & Hat). by exists buf. Qed.
(** A page in use, seen as its bytes. *)
Lemma expose_page t A p c buf : phys t A → a_cells A !! p = Some c → in_use c → page_bytes t p = Ok buf → phys t (put_cell p (CRaw buf) A).
Proof.
  intros Hp Hc Hu Hb. eapply adopt_page; [done| | |done|done]; [by apply (ph_cells _ _ Hp p c)|]. by eapply used_not_free; [apply Hp|..].
Qed.
Lemma edit_raw t A p f b b' : phys t A → a_cells A !! p = Some (CRaw b) → f b = Ok b' → length b' = PAGE_SIZE →
  ∃ t', edit p f t = (t', Ok tt) ∧ phys t' (put_cell p (CRaw b') A).
Proof. intros Hp Hc Hf Hl. eapply edit_used; [done|done|done|]. intros buf Hbuf _. simpl in Hbuf. subst buf. by exists b'. Qed.
Lemma put_put p c d A : put_cell p c (put_cell p d A) = put_cell p c A.
Proof. unfold put_cell, set_cells. simpl. by rewrite insert_insert_eq. Qed.
Lemma put_same p c A : a_cells A !! p = Some c → put_cell p c A = A.
Proof. intros Hc. unfold put_cell, set_cells. rewrite insert_id by done. by destruct A. Qed.
Lemma put_lookup p c A : a_cells (put_cell p c A) !! p = Some c.
Proof. apply lookup_insert_eq. Qed.
Lemma put_lookup_ne p q c A : q ≠ p → a_cells (put_cell p c A) !! q = a_cells A !! q.
Proof. intros. by apply lookup_insert_ne. Qed.
Lemma keeps_raw p b A A' : keeps [p] (put_cell p (CRaw b) A) A' → keeps [p] A A'.
Proof.
  intros [P C K]. constructor; [done|done|]. intros q c Hq Hu Hc. apply K; [done|done|]. rewrite put_lookup_ne; [done|].
  intros ->. apply Hq. left.
Qed.
Lemma keeps_put_r X p c A A' : keeps X A A' → p ∈ X → keeps X A (put_cell p c A').
Proof.
  intros Hk Hx. eapply keeps_nil_trans; [exact Hk|]. eapply keeps_weaken; [apply keeps_put|]. by intros q ->%list_elem_of_singleton.
Qed.
(** What a step that writes to the leaf [p] leaves. *)
Record wrote p v A A' : Prop := {
  wr_keeps : keeps [p] A A';
  wr_meta : same_meta A A';
  wr_pages : a_pages A' ≤ a_pages A + chunks v }.
Lemma wrote_put p v c A A' : wrote p v A A' → wrote p v A (put_cell p c A').
Proof.
  intros [K M P]. constructor; [apply keeps_put_r; [done|left]| |done]. eapply same_meta_trans; [exact M|apply same_meta_put].
Qed.
Lemma holds_put p c c0 A e : a_cells A !! p = Some c0 → (∀ j bs, c0 ≠ CExt j bs) → holds_value (a_cells A) e → holds_value (a_cells (put_cell p c A)) e.
Proof.
  intros Hc Hn. unfold holds_value. destruct e.2 as [v|s v]; [done|]. intros [He Hv]. split; [|done].
  intros i Hi. rewrite put_lookup_ne; [by apply He|]. intros Heq. specialize (He i Hi). rewrite Heq, Hc in He. injection He as ->. by eapply Hn.
Qed.

(** ** The bytes of an entry *)
Lemma write_entry_ok t A p b1 nd k v : phys t A → a_cells A !! p = Some (CRaw b1) → length b1 = PAGE_SIZE → nd + entry_size k v ≤ PAGE_SIZE →
  storable k v → page_number (a_pages A + chunks v) → ∃ t' A' b2 pl,
  write_leaf_entry_raw p nd k v (overflows k v) t = (t', Ok tt) ∧ phys t' A' ∧ wrote p v A A' ∧ a_cells A' !! p = Some (CRaw b2) ∧
  payload_for k v pl ∧ holds_value (a_cells A') (k, pl) ∧
  same_outside nd (nd + entry_size k v) b1 b2 ∧ get_bytes b2 nd (entry_size k v) = Ok (enc_entry (k, pl)).
Proof.
  intros Hp Hc Hl Hnd Hst Hpn. unfold write_leaf_entry_raw. destruct (overflows k v) eqn:Ho.
  - destruct (write_extent_ok t A k v Hp) as (t1 & s & A1 & -> & Hp1 & Hk1 & Hs1 & Hpg1 & He1 & Hsn); [by apply Hst|done|]. cbn [and_then].
    pose proof (extent_for k v s Hst Ho Hsn) as Hpf. pose proof (enc_entry_size _ _ _ Hpf) as Hsz.
    assert (a_cells A1 !! p = Some (CRaw b1)) as Hc1 by (apply (kp_cells _ _ _ Hk1); [apply not_elem_of_nil|done|done]).
    destruct (put_entry_spec nd k (Extent s v) b1) as (b2 & Hb2 & S2 & G2); [lia|]. rewrite Hsz in S2, G2. cbn [raw_of payload_bytes] in Hb2.
    destruct (edit_raw t1 A1 p _ b1 b2 Hp1 Hc1 Hb2) as (t2 & -> & Hp2); [by rewrite (so_length _ _ _ _ S2)|].
    exists t2, (put_cell p (CRaw b2) A1), b2, (Extent s v). split_and!; try done.
    + apply wrote_put. constructor; [|done|done]. eapply keeps_weaken; [exact Hk1|]. by intros q ?%not_elem_of_nil.
    + apply put_lookup.
    + split; [|by apply Hst]. intros i Hi. rewrite put_lookup_ne; [by apply He1|]. intros Heq. specialize (He1 i Hi). simpl in He1. congruence.
  - pose proof (inline_for k v Hst Ho) as Hpf. pose proof (enc_entry_size _ _ _ Hpf) as Hsz.
    destruct (put_entry_spec nd k (Inline v) b1) as (b2 & Hb2 & S2 & G2); [lia|]. rewrite Hsz in S2, G2. cbn [raw_of payload_bytes] in Hb2.
    destruct (edit_raw t A p _ b1 b2 Hp Hc Hb2) as (t2 & -> & Hp2); [by rewrite (so_length _ _ _ _ S2)|].
    exists t2, (put_cell p (CRaw b2) A), b2, (Inline v). split_and!; try done.
    + constructor; [apply keeps_put|apply same_meta_put|simpl; lia].
    + apply put_lookup.
Qed.
(** The slot of an entry written at the head of the data, and the leaf it makes. *)
Lemma record_ok t A p next prev es pos nd n b2 : phys t A → a_cells A !! p = Some (CRaw b2) → page_number next → page_number prev →
  (∃ b3, record_slot LEAF_HEADER_SIZE pos nd n b2 = Ok b3 ∧ is_leaf b3 next prev es) →
  ∃ t', edit p (record_slot LEAF_HEADER_SIZE pos nd n) t = (t', Ok tt) ∧ phys t' (put_cell p (CLeaf next prev es) A).
Proof.
  intros Hp Hc Hn Hpr (b3 & Hb3 & Hl3). eapply edit_used; [done|done|done|]. intros buf Hbuf _. simpl in Hbuf. subst buf. exists b3. split; [done|].
  split; [by eapply leaf_page_length|done].
Qed.

(** ** Inserting where there is room *)
Lemma leaf_insert_fit t A p next prev es pos k v : phys t A → a_cells A !! p = Some (CLeaf next prev es) → pos ≤ length es →
  leaf_fits es (entry_size k v) → storable k v → page_number (a_pages A + chunks v) → ∃ t' A' pl,
  leaf_insert_absent p k v pos t = (t', Ok None) ∧ phys t' A' ∧ a_cells A' !! p = Some (CLeaf next prev (insert_at pos (k, pl) es)) ∧ wrote p v A A' ∧
  payload_for k v pl ∧ holds_value (a_cells A') (k, pl).
Proof.
  intros Hp Hc Hpos Hfit Hst Hpn. destruct (leaf_page_at _ _ _ _ _ _ Hp Hc) as (buf & Hb & Hleaf & Hn1 & Hn2).
  unfold leaf_insert_absent. rewrite Hb. cbn [reading]. rewrite (leaf_count _ _ _ _ Hleaf), (leaf_data_off _ _ _ _ Hleaf). cbn [reading].
  fold (entry_size k v). unfold leaf_fits in Hfit. pose proof (leaf_room _ _ _ _ Hleaf) as Hroom.
  destruct (Nat.ltb_spec (PAGE_SIZE - leaf_used es) (LEAF_HEADER_SIZE + length es * SLOT_SIZE + (entry_size k v + SLOT_SIZE))) as [Hlt|_]; [page_lia|].
  destruct (leaf_insert_steps buf next prev es pos (entry_size k v) Hleaf Hpos ltac:(unfold entry_size; lia) Hfit) as (b1 & Hb1 & L1 & Hnext).
  pose proof (expose_page t A p _ buf Hp Hc I Hb) as Hp0.
  destruct (edit_raw t _ p _ buf b1 Hp0 (put_lookup _ _ _) Hb1 L1) as (t1 & -> & Hp1). rewrite put_put in Hp1. cbn [and_then].
  destruct (write_entry_ok t1 _ p b1 (PAGE_SIZE - leaf_used es - entry_size k v) k v Hp1 (put_lookup _ _ _) L1) as
    (t2 & A2 & b2 & pl & -> & Hp2 & [Hk2 Hs2 Hg2] & Hc2 & Hpf & Hh2 & S2 & G2); [page_lia|done|done|]. cbn [and_then].
  destruct (record_ok t2 A2 p next prev (insert_at pos (k, pl) es) pos (PAGE_SIZE - leaf_used es - entry_size k v) (length es) b2 Hp2 Hc2 Hn1 Hn2) as (t3 & -> & Hp3).
  { apply Hnext; [apply Hpf|by apply enc_entry_size|done|done]. }
  cbn [and_then]. unfold add_leaf_entry_bytes. edestruct (write_leaf_bytes_ok t3) as (t4 & -> & Hp4); [exact Hp3|]. cbn [and_then].
  eexists t4, _, pl. split; [done|]. split; [exact Hp4|]. split_and!; [apply put_lookup| |done|by eapply holds_put].
  apply wrote_put. constructor; [by eapply keeps_raw| |done]. eapply same_meta_trans; [apply same_meta_put|exact Hs2].
Qed.

(** ** Removing *)
Lemma leaf_remove_ok t A p next prev X k pl Y : phys t A → a_cells A !! p = Some (CLeaf next prev (X ++ (k, pl) :: Y)) →
  let es := X ++ (k, pl) :: Y in ∃ t',
  leaf_remove_entry p (length X) (length es) (PAGE_SIZE - leaf_used es) t = (t', Ok tt) ∧ phys t' (put_cell p (CLeaf next prev (X ++ Y)) A).
Proof.
  intros Hp Hc es. destruct (leaf_page_at _ _ _ _ _ _ Hp Hc) as (buf & Hb & Hleaf & Hn1 & Hn2).
  destruct (leaf_remove_page buf next prev X k pl Y Hleaf) as (eo & buf' & Heo & Hg & Hrem & Hl'). fold es in Hrem.
  assert (entry_ok (k, pl)) as Hok. { pose proof (lp_ok _ _ _ _ Hleaf) as HF. apply Forall_app in HF as [_ HF]. by apply Forall_cons in HF as [? _]. }
  unfold leaf_remove_entry. rewrite Hb. cbn [reading]. rewrite Heo. cbn [reading]. rewrite (entry_key_len _ _ _ _ Hg Hok), (entry_raw _ _ _ _ Hg Hok). cbn [reading].
  rewrite (raw_payload _ _ Hok). unfold sub_leaf_entry_bytes. pose proof (expose_page t A p _ buf Hp Hc I Hb) as Hp0.
  destruct (write_leaf_bytes_ok t _ (Z.max 0 (st_leaf_entry_bytes (bp_stats t) - Z.of_nat (leaf_entry_bytes (length k) (payload_size pl)))) Hp0) as (t1 & -> & Hp1). cbn [and_then].
  pose proof (enc_entry_length (k, pl)) as He. cbn [fst snd] in He. rewrite <- He.
  destruct (edit_used t1 _ p (remove_entry LEAF_HEADER_SIZE (length X) (length es) eo (PAGE_SIZE - leaf_used es) (length (enc_entry (k, pl))))
    (CRaw buf) (CLeaf next prev (X ++ Y)) Hp1 (put_lookup _ _ _) I) as (t2 & He2 & Hp2).
  { intros b Hbb _. simpl in Hbb. subst b. exists buf'. split; [done|]. split; [by eapply leaf_page_length|done]. }
  rewrite put_put in Hp2. by exists t2.
Qed.

(** What a write under the key [k] may change: the pages of [X] and the
    extents of that key. *)
Record amends (X : list nat) k A A' : Prop := {
  am_pages : a_pages A ≤ a_pages A';
  am_config : a_config A' = a_config A;
  am_cells : ∀ q c, q ∉ X → (∀ bs, c ≠ CExt k bs) → in_use c → a_cells A !! q = Some c → a_cells A' !! q = Some c }.
Lemma amends_refl X k A : amends X k A A.
Proof. by constructor. Qed.
Lemma amends_keeps X k A A' : keeps X A A' → amends X k A A'.
Proof. intros [P C K]. constructor; [done|done|]. intros q c Hq _. by apply K. Qed.
Lemma amends_trans X Y k A1 A2 A3 : amends X k A1 A2 → amends Y k A2 A3 → amends (X ++ Y) k A1 A3.
Proof.
  intros [P1 C1 K1] [P2 C2 K2]. constructor; [lia|congruence|]. intros q c Hq Ht Hu Hc. apply not_elem_of_app in Hq as [H1 H2].
  apply K2; [done..|]. by apply K1.
Qed.
Lemma amends_weaken X Y k A A' : amends X k A A' → (∀ q, q ∈ X → q ∈ Y) → amends Y k A A'.
Proof. intros [P C K] Hi. constructor; [done|done|]. intros q c Hq. apply K. intros Hx. by apply Hq, Hi. Qed.
Lemma amends_same X k A1 A2 A3 : amends X k A1 A2 → amends X k A2 A3 → amends X k A1 A3.
Proof. intros H1 H2. eapply amends_weaken; [by eapply amends_trans|]. intros q Hq. apply elem_of_app in Hq. tauto. Qed.
Lemma amends_put X k p c A : p ∈ X → amends X k A (put_cell p c A).
Proof. intros Hp. apply amends_keeps. eapply keeps_weaken; [apply keeps_put|]. by intros q ->%list_elem_of_singleton. Qed.
Lemma amends_lookup X k A A' q c : amends X k A A' → a_cells A !! q = Some c → q ∉ X → (∀ bs, c ≠ CExt k bs) → in_use c → a_cells A' !! q = Some c.
Proof. intros Ha Hc Hq Ht Hu. by apply (am_cells _ _ _ _ Ha). Qed.
(** Another key's value stays where it is. *)
Lemma holds_amends X k A A' e : amends X k A A' → e.1 ≠ k → (∀ q c, q ∈ X → a_cells A !! q = Some c → ∀ j bs, j ≠ k → c ≠ CExt j bs) →
  holds_value (a_cells A) e → holds_value (a_cells A') e.
Proof.
  intros Ha Hne HX. unfold holds_value. destruct e.2 as [v|s v]; [done|]. intros [He Hv]. split; [|done].
  intros i Hi. specialize (He i Hi). apply (am_cells _ _ _ _ Ha); [|intros bs [= ? ?]; congruence|done|done].
  intros Hin. by apply (HX _ _ Hin He e.1 (chunk v i) Hne).
Qed.

(** The extent of the entry at [i], read and freed. *)
Lemma free_old_ok t A p next prev X k pl Y : phys t A → a_cells A !! p = Some (CLeaf next prev (X ++ (k, pl) :: Y)) →
  holds_value (a_cells A) (k, pl) → ∃ t' A',
  (match (match pl with Inline _ => None | Extent start v => Some (start, length v) end) with
   | Some (start, len) => free_extent start len t | None => (t, Ok tt) end) = (t', Ok tt) ∧ phys t' A' ∧
  amends [] k A A' ∧ same_meta A A' ∧ a_pages A' = a_pages A ∧ a_cells A' !! p = Some (CLeaf next prev (X ++ (k, pl) :: Y)).
Proof.
  intros Hp Hc Hh. destruct pl as [v|s v].
  - exists t, A. split_and!; try done; by constructor.
  - destruct Hh as [He Hv]. destruct (free_extent_ok t A k s v Hp He) as (t' & A' & -> & Hp' & (Hpg & Hcf & Hk) & Hs).
    exists t', A'. split_and!; try done; [|by apply Hk]. constructor; [lia|done|]. intros q c _. apply Hk.
Qed.
Lemma delete_at_ok t A p next prev X k pl Y : phys t A → a_cells A !! p = Some (CLeaf next prev (X ++ (k, pl) :: Y)) →
  holds_value (a_cells A) (k, pl) → ∃ t' A', delete_at p (length X) t = (t', Ok tt) ∧
  phys t' (with_count ((a_count A - 1) mod two64) (put_cell p (CLeaf next prev (X ++ Y)) A')) ∧ amends [] k A A' ∧ same_meta A A' ∧ a_pages A' = a_pages A.
Proof.
  intros Hp Hc Hh. destruct (leaf_page_at _ _ _ _ _ _ Hp Hc) as (buf & Hb & Hleaf & Hn1 & Hn2).
  assert ((X ++ (k, pl) :: Y) !! length X = Some (k, pl)) as Hi by (by apply list_lookup_middle).
  destruct (leaf_slot _ _ _ _ Hleaf _ _ _ Hi) as (Hok & eo & Heo & Hg & _).
  unfold delete_at. rewrite Hb. cbn [reading]. rewrite (leaf_count _ _ _ _ Hleaf), (leaf_data_off _ _ _ _ Hleaf). cbn [reading].
  rewrite Heo. cbn [reading]. rewrite (entry_extent_ok _ _ _ _ Hg Hok). cbn [reading].
  destruct (free_old_ok t A p next prev X k pl Y Hp Hc Hh) as (t1 & A1 & -> & Hp1 & Ha1 & Hs1 & Hpg1 & Hc1). cbn [and_then].
  destruct (leaf_remove_ok t1 A1 p next prev X k pl Y Hp1 Hc1) as (t2 & -> & Hp2). cbn [and_then].
  unfold dec_entries. destruct (ph_meta _ _ Hp2) as (meta & Hm & Hok2). rewrite Hm. cbn [reading].
  pose proof (ph_entries _ _ Hp2) as (Hcnt & Hcb & _). simpl in Hcnt, Hcb.
  rewrite (get_of_bytes 8 meta META_ENTRIES _ (mo_entries _ _ _ Hok2)) by (rewrite Hcnt; exact Hcb). cbn [reading]. rewrite Hcnt.
  destruct (write_entries_ok t2 _ ((a_count A1 - 1) mod two64) Hp2) as (t3 & -> & Hp3); [apply Z.mod_pos_bound; done|].
  exists t3, A1. rewrite <- (sm_count _ _ Hs1). by split_and!.
Qed.
