(* ===== verification/BPlusSplit.v ===== *)
(** * Splitting a leaf

    The entries of a full leaf and the new one are repacked into two pages at
    the byte midpoint.  Where no entry takes more than a third of a page
    ([MAX_ENTRY]) both halves fit. *)
From stdpp Require Import base numbers option gmap list.
From S2P Require Import Prelude Bytes BinarySearch Order BTreeMap Mmap Backend BPlusPages BPlusNodes BPlusBytes BPlusSlots BPlusCells BPlusPageOps BPlusStore BPlusAlloc BPlusLeaf.
Import Pages Nodes.
Implicit Types (t : BPlusTree) (A : Abs) (p q n next prev : nat) (c : cell) (buf scratch v key k : list Z) (pl : payload) (e : entry) (es X Y : list entry).

(** ** The midpoint *)
Definition MAX_ENTRY : nat := 1357.
Definition entry_cost e : nat := length (enc_entry e) + SLOT_SIZE.
Definition leaf_cost es : nat := list_sum (map entry_cost es).
Lemma leaf_cost_cons e es : leaf_cost (e :: es) = entry_cost e + leaf_cost es.
Proof. done. Qed.
Lemma leaf_cost_used es : leaf_cost es = leaf_used es + length es * SLOT_SIZE.
Proof.
  induction es as [|e es IH]; [done|]. rewrite leaf_cost_cons, IH. change (leaf_used (e :: es)) with (length (enc_entry e) + leaf_used es).
  unfold entry_cost. change (length (e :: es)) with (S (length es)). lia.
Qed.
Lemma leaf_cost_one e : leaf_cost [e] = entry_cost e.
Proof. rewrite leaf_cost_cons. change (leaf_cost []) with 0. lia. Qed.
Lemma leaf_cost_app X Y : leaf_cost (X ++ Y) = leaf_cost X + leaf_cost Y.
Proof. unfold leaf_cost. by rewrite map_app, list_sum_app. Qed.
Lemma sizes_sum X Y n : list_sum (map entry_cost X ++ n :: map entry_cost Y) = leaf_cost X + n + leaf_cost Y.
Proof. rewrite list_sum_app. change (list_sum (n :: map entry_cost Y)) with (n + leaf_cost Y). unfold leaf_cost. lia. Qed.
Lemma midpoint_spec half sizes : ∀ used j, used < half → half ≤ used + list_sum sizes → ∃ m, midpoint half used j sizes = j + m ∧
  1 ≤ m ≤ length sizes ∧ used + list_sum (take (m - 1) sizes) < half ∧ half ≤ used + list_sum (take m sizes).
Proof.
  induction sizes as [|s sizes IH]; intros used j Hu Hh; simpl in Hh; [lia|]. cbn [midpoint]. destruct (Nat.leb_spec half (used + s)) as [Hl|Hl].
  - exists 1. simpl. split_and!; [done|lia..].
  - destruct (IH (used + s) (j + 1)) as (m & -> & Hm & H1 & H2); [lia|lia|]. exists (S m). split; [lia|]. cbn [length]. split; [lia|].
    replace (S m - 1) with m by lia. destruct m as [|m]; [lia|]. simpl in *. rewrite Nat.sub_0_r in H1. lia.
Qed.
Lemma take_last_sum (sizes : list nat) m : 1 ≤ m ≤ length sizes → Forall (λ s, s ≤ MAX_ENTRY) sizes →
  list_sum (take m sizes) ≤ list_sum (take (m - 1) sizes) + MAX_ENTRY.
Proof.
  intros Hm HF. destruct m as [|m]; [lia|]. replace (S m - 1) with m by lia.
  destruct (sizes !! m) as [s|] eqn:E; [|apply lookup_ge_None in E; lia]. rewrite (take_S_r _ _ _ E), list_sum_app. simpl.
  pose proof (Forall_lookup_1 _ _ _ _ HF E) as Hs. simpl in Hs. lia.
Qed.
Lemma split_mid_ok (sizes : list nat) cap : Forall (λ s, s ≤ MAX_ENTRY) sizes → cap < list_sum sizes → list_sum sizes ≤ cap + MAX_ENTRY →
  3 * MAX_ENTRY ≤ cap → ∃ m, split_mid sizes = Ok m ∧ 1 ≤ m < length sizes ∧
  list_sum (take m sizes) ≤ cap ∧ list_sum (drop m sizes) ≤ cap.
Proof.
  intros HF Hgt Hle Hcap. unfold split_mid. assert (MAX_ENTRY = 1357) as HM by done.
  pose proof (Nat.div_mod (list_sum sizes) 2 ltac:(lia)) as Hdm. pose proof (Nat.mod_upper_bound (list_sum sizes) 2 ltac:(lia)) as Hmb.
  set (half := list_sum sizes / 2) in *. clearbody half.
  destruct (midpoint_spec half sizes 0 0) as (m & -> & Hm & H1 & H2); [lia|lia|]. simpl in H1, H2. rewrite Nat.add_0_l.
  pose proof (take_last_sum sizes m Hm HF) as H3.
  assert (list_sum (take m sizes) + list_sum (drop m sizes) = list_sum sizes) as Hsum by (rewrite <- list_sum_app; by rewrite take_drop).
  assert (m < length sizes) as Hml.
  { destruct (decide (m = length sizes)) as [->|]; [|lia]. rewrite firstn_all in H3. lia. }
  destruct (Nat.ltb_spec (length sizes - 1) 1); [lia|]. exists m. split; [f_equal; lia|]. split; [lia|]. lia.
Qed.

(** ** Appending to a leaf *)
Definition entry_at scratch (eo : nat) e : Prop := get_bytes scratch eo (length (enc_entry e)) = Ok (enc_entry e) ∧ entry_ok e.
Lemma cost_fits es n : leaf_cost es + (n + SLOT_SIZE) ≤ PAGE_SIZE - LEAF_HEADER_SIZE → leaf_fits es n.
Proof. rewrite leaf_cost_used. unfold leaf_fits. page_lia. Qed.
Lemma append_slot_ok t A p next prev es scratch eo e : phys t A → a_cells A !! p = Some (CLeaf next prev es) → entry_at scratch eo e →
  leaf_cost (es ++ [e]) ≤ PAGE_SIZE - LEAF_HEADER_SIZE → ∃ t',
  leaf_append_from_scratch_slot p scratch eo t = (t', Ok tt) ∧ phys t' (put_cell p (CLeaf next prev (es ++ [e])) A).
Proof.
  intros Hp Hc [Hg Hok] Hcost. destruct (leaf_page_at _ _ _ _ _ _ Hp Hc) as (buf & Hb & Hleaf & Hn1 & Hn2).
  destruct e as [k pl]. rewrite leaf_cost_app, leaf_cost_one in Hcost. unfold entry_cost in Hcost.
  assert (leaf_fits es (length (enc_entry (k, pl)))) as Hfit by (apply cost_fits; lia).
  unfold leaf_append_from_scratch_slot. rewrite (entry_key_len _ _ _ _ Hg Hok), (entry_raw _ _ _ _ Hg Hok). cbn [reading]. rewrite Hb. cbn [reading].
  rewrite (leaf_count _ _ _ _ Hleaf), (leaf_data_off _ _ _ _ Hleaf). cbn [reading]. rewrite (raw_payload _ _ Hok).
  pose proof (enc_entry_length (k, pl)) as He. cbn [fst snd] in He. rewrite <- He. unfold leaf_fits in Hfit. unfold checked_sub.
  destruct (Nat.ltb_spec (PAGE_SIZE - leaf_used es) (length (enc_entry (k, pl)))) as [Hlt|_]; [page_lia|]. cbn [reading].
  set (nd := PAGE_SIZE - leaf_used es - length (enc_entry (k, pl))).
  pose proof (expose_page t A p _ buf Hp Hc I Hb) as Hp0. pose proof (leaf_page_length _ _ _ _ Hleaf) as Hl.
  destruct (put_bytes_spec buf nd (enc_entry (k, pl))) as (b2 & Hb2 & S2 & G2); [unfold nd; page_lia|].
  destruct (leaf_append_page buf next prev es (length (enc_entry (k, pl))) Hleaf ltac:(lia) Hfit (k, pl) b2 Hok eq_refl S2 G2) as (b3 & Hb3 & Hl3).
  match goal with |- ∃ _, edit p ?f t = _ ∧ _ => destruct (edit_used t _ p f (CRaw buf) (CLeaf next prev (es ++ [(k, pl)])) Hp0 (put_lookup _ _ _) I) as (t2 & He2 & Hp2) end.
  { intros b Hbb _. simpl in Hbb. subst b. exists b3. rewrite Hg. cbn [rbind]. rewrite Hb2. cbn [rbind]. split; [exact Hb3|]. split; [by eapply leaf_page_length|done]. }
  rewrite put_put in Hp2. by exists t2.
Qed.
(** Adopting the bytes a page has. *)
Lemma append_new_ok t A p next prev es k v : phys t A → a_cells A !! p = Some (CLeaf next prev es) → storable k v →
  leaf_cost es + (entry_size k v + SLOT_SIZE) ≤ PAGE_SIZE - LEAF_HEADER_SIZE → page_number (a_pages A + chunks v) → ∃ t' A' pl,
  leaf_append_inline_entry p k v t = (t', Ok tt) ∧ phys t' A' ∧ a_cells A' !! p = Some (CLeaf next prev (es ++ [(k, pl)])) ∧ wrote p v A A' ∧
  payload_for k v pl ∧ holds_value (a_cells A') (k, pl).
Proof.
  intros Hp Hc Hst Hcost Hpn. destruct (leaf_page_at _ _ _ _ _ _ Hp Hc) as (buf & Hb & Hleaf & Hn1 & Hn2).
  apply cost_fits in Hcost. pose proof Hcost as Hfit. unfold leaf_fits in Hcost.
  unfold leaf_append_inline_entry. rewrite Hb. cbn [reading]. rewrite (leaf_count _ _ _ _ Hleaf), (leaf_data_off _ _ _ _ Hleaf). cbn [reading].
  fold (entry_size k v). unfold checked_sub. destruct (Nat.ltb_spec (PAGE_SIZE - leaf_used es) (entry_size k v)) as [Hlt|_]; [page_lia|]. cbn [reading].
  pose proof (expose_page t A p _ buf Hp Hc I Hb) as Hp0. pose proof (leaf_page_length _ _ _ _ Hleaf) as Hl.
  destruct (write_entry_ok t _ p buf (PAGE_SIZE - leaf_used es - entry_size k v) k v Hp0 (put_lookup _ _ _) Hl) as
    (t2 & A2 & b2 & pl & -> & Hp2 & [Hk2 Hs2 Hg2] & Hc2 & Hpf & Hh2 & S2 & G2); [page_lia|done|done|]. cbn [and_then].
  destruct (record_ok t2 A2 p next prev (es ++ [(k, pl)]) (length es) (PAGE_SIZE - leaf_used es - entry_size k v) (length es) b2 Hp2 Hc2 Hn1 Hn2) as (t3 & -> & Hp3).
  { eapply leaf_append_page; [exact Hleaf| |exact Hfit|apply Hpf|by apply enc_entry_size|done|done]. unfold entry_size. lia. }
  eexists t3, _, pl. split; [done|]. split; [exact Hp3|]. split_and!; [apply put_lookup| |done|by eapply holds_put].
  apply wrote_put. constructor; [by eapply keeps_raw| |done]. eapply same_meta_trans; [apply same_meta_put|exact Hs2].
Qed.
Lemma repack_olds p next prev scratch k v : ∀ eos es' t A es, Forall2 (entry_at scratch) eos es' → phys t A → a_cells A !! p = Some (CLeaf next prev es) →
  leaf_cost (es ++ es') ≤ PAGE_SIZE - LEAF_HEADER_SIZE → ∃ t',
  leaf_repack p scratch k v (map Some eos) t = (t', Ok tt) ∧ phys t' (put_cell p (CLeaf next prev (es ++ es')) A).
Proof.
  intros eos es' t A es HF. revert t A es. induction HF as [|eo e eos es' He HF IH]; intros t A es Hp Hc Hcost; cbn [map leaf_repack].
  - exists t. split; [done|]. by rewrite app_nil_r, put_same.
  - replace (es ++ e :: es') with ((es ++ [e]) ++ es') in * by (by rewrite <- app_assoc).
    destruct (append_slot_ok t A p next prev es scratch eo e Hp Hc He) as (t1 & -> & Hp1); [rewrite leaf_cost_app in Hcost; lia|]. cbn [and_then].
    destruct (IH t1 _ (es ++ [e]) Hp1 (put_lookup _ _ _) Hcost) as (t2 & -> & Hp2). rewrite put_put in Hp2. by exists t2.
Qed.
Lemma leaf_repack_app p scratch k v o1 o2 t : leaf_repack p scratch k v (o1 ++ o2) t =
  and_then (leaf_repack p scratch k v o1 t) (λ t _, leaf_repack p scratch k v o2 t).
Proof.
  revert t. induction o1 as [|o o1 IH]; intros t; simpl; [done|]. destruct (match o with Some _ => _ | None => _ end) as [t1 [[]|e|]]; cbn [and_then]; [apply IH|done..].
Qed.
Lemma repack_new p next prev scratch k v eos1 eos2 X Y t A : Forall2 (entry_at scratch) eos1 X → Forall2 (entry_at scratch) eos2 Y →
  phys t A → a_cells A !! p = Some (CLeaf next prev []) → storable k v → page_number (a_pages A + chunks v) →
  leaf_cost X + (entry_size k v + SLOT_SIZE) + leaf_cost Y ≤ PAGE_SIZE - LEAF_HEADER_SIZE → ∃ t' A' pl,
  leaf_repack p scratch k v (map Some eos1 ++ None :: map Some eos2) t = (t', Ok tt) ∧
  phys t' A' ∧ a_cells A' !! p = Some (CLeaf next prev (X ++ (k, pl) :: Y)) ∧ wrote p v A A' ∧ payload_for k v pl ∧ holds_value (a_cells A') (k, pl).
Proof.
  intros HX HY Hp Hc Hst Hpn Hcost. rewrite leaf_repack_app.
  destruct (repack_olds p next prev scratch k v eos1 X t A [] HX Hp Hc) as (t1 & -> & Hp1); [simpl; lia|]. cbn [and_then leaf_repack]. simpl app in Hp1.
  destruct (append_new_ok t1 _ p next prev X k v Hp1 (put_lookup _ _ _) Hst) as (t2 & A2 & pl & -> & Hp2 & Hc2 & Hw & Hpf & Hh); [lia|done|]. cbn [and_then].
  destruct (repack_olds p next prev scratch k v eos2 Y t2 _ (X ++ [(k, pl)]) HY Hp2 Hc2) as (t3 & -> & Hp3).
  { rewrite !leaf_cost_app, leaf_cost_one. unfold entry_cost. rewrite (enc_entry_size _ _ _ Hpf). lia. }
  rewrite <- app_assoc in Hp3. eexists t3, _, pl. split; [done|]. split; [exact Hp3|]. split_and!; [apply put_lookup| |done|by eapply holds_put].
  apply wrote_put. destruct Hw as [K M P]. constructor; [|by destruct M|done].
  eapply keeps_weaken; [eapply kept_trans; [apply keeps_put|exact K]|]. intros q. by rewrite elem_of_app, !list_elem_of_singleton; intros [->| ->].
Qed.

(** ** The order of the entries, read from the copy of the page *)
Lemma each_app {B C} (f : B → io C) l1 l2 r1 r2 : each f l1 = Ok r1 → each f l2 = Ok r2 → each f (l1 ++ l2) = Ok (r1 ++ r2).
Proof.
  revert r1. induction l1 as [|a l1 IH]; intros r1 H1 H2; simpl in *; [by injection H1 as <-|].
  destruct (f a) as [b|e|]; simpl in *; [|done..]. destruct (each f l1) as [bs|e|]; simpl in *; [|done..]. injection H1 as <-.
  by rewrite (IH bs).
Qed.
Lemma each_slots buf next prev es : is_leaf buf next prev es → ∀ n a, a + n ≤ length es → ∃ eos,
  each (slot_at LEAF_HEADER_SIZE buf) (seq a n) = Ok eos ∧ Forall2 (entry_at buf) eos (take n (drop a es)).
Proof.
  intros Hp. induction n as [|n IH]; intros a Ha; [by exists []|]. destruct (IH (S a) ltac:(lia)) as (eos & He & HF).
  destruct (es !! a) as [[k pl]|] eqn:E; [|apply lookup_ge_None in E; lia]. destruct (leaf_slot _ _ _ _ Hp _ _ _ E) as (Hok & eo & Ho & Hg & _).
  exists (eo :: eos). cbn [seq each]. rewrite Ho. cbn [rbind]. rewrite He. cbn [rbind]. split; [done|]. rewrite (drop_S _ _ _ E). simpl. by constructor.
Qed.
Lemma each_sizes scratch k v eos es : Forall2 (entry_at scratch) eos es → each (leaf_entry_size scratch k v) (map Some eos) = Ok (map entry_cost es).
Proof.
  induction 1 as [|eo [j pl] eos es [Hg Hok] _ IH]; [done|]. cbn [map each leaf_entry_size].
  rewrite (entry_key_len _ _ _ _ Hg Hok), (entry_raw _ _ _ _ Hg Hok). cbn [rbind]. rewrite IH. cbn [rbind]. do 2 f_equal.
  unfold entry_cost. by rewrite enc_entry_length, (raw_payload _ _ Hok).
Qed.
Lemma order_keys scratch k eos1 eos2 X Y i o : Forall2 (entry_at scratch) eos1 X → Forall2 (entry_at scratch) eos2 Y →
  (map Some eos1 ++ None :: map Some eos2) !! i = Some o → ∃ j, (map fst X ++ k :: map fst Y) !! i = Some j ∧ key_bytes_of leaf_key scratch k o = Ok j.
Proof.
  assert (∀ eos es i o, Forall2 (entry_at scratch) eos es → map Some eos !! i = Some o → ∃ j, map fst es !! i = Some j ∧ key_bytes_of leaf_key scratch k o = Ok j) as Hold.
  { intros eos es i' o' HF Ho. rewrite list_lookup_fmap in Ho. destruct (eos !! i') as [eo|] eqn:E; [|done]. injection Ho as <-.
    destruct (Forall2_lookup_l _ _ _ _ _ HF E) as ([j pl] & He & Hg & Hok). exists j. split; [by rewrite list_lookup_fmap, He|]. simpl. by eapply entry_key. }
  intros HX HY. pose proof (Forall2_length _ _ _ HX) as Hl. rewrite !lookup_app, !length_map, !list_lookup_fmap.
  destruct (eos1 !! i) as [eo|] eqn:E1.
  - intros [= <-]. destruct (Hold eos1 X i (Some eo) HX) as (j & Hj & Hk); [by rewrite list_lookup_fmap, E1|]. rewrite list_lookup_fmap in Hj.
    exists j. destruct (X !! i); [|done]. by split.
  - simpl. assert (X !! i = None) as ->. { apply lookup_ge_None. apply lookup_ge_None in E1. lia. } simpl. rewrite Hl.
    destruct (i - length X) as [|m]; simpl; [intros [= <-]; by exists k|]. intros Hm. by apply (Hold eos2 Y m o).
Qed.
Lemma leaf_ip buf next prev X Y k : is_leaf buf next prev (X ++ Y) → under k X → over k Y →
  partition_point (length (X ++ Y)) 0 (length (X ++ Y)) (λ m, eo <-? slot_at LEAF_HEADER_SIZE buf m ;; j <-? leaf_key buf eo ;; Ok (ltb j k)) = Ok (length X).
Proof.
  intros Hp HX HY. assert (∀ i, i < length (X ++ Y) → (eo <-? slot_at LEAF_HEADER_SIZE buf i ;; j <-? leaf_key buf eo ;; Ok (ltb j k)) = Ok (bool_decide (i < length X))) as Hb.
  { intros i Hi. destruct ((X ++ Y) !! i) as [[j pl]|] eqn:E; [|apply lookup_ge_None in E; lia].
    destruct (leaf_slot _ _ _ _ Hp _ _ _ E) as (_ & eo & -> & _ & Hk). cbn [rbind]. rewrite Hk. cbn [rbind]. f_equal.
    apply lookup_app_Some in E as [E|[Hge E]].
    - rewrite bool_decide_eq_true_2 by (by eapply lookup_lt_Some). apply ltb_lt. by apply (Forall_lookup_1 _ _ _ _ HX E).
    - rewrite bool_decide_eq_false_2 by lia. pose proof (Forall_lookup_1 _ _ _ _ HY E) as Hlt. simpl in Hlt.
      destruct (j <? k) eqn:E'; [|done]. apply ltb_lt in E'. exfalso. ord. }
  destruct (partition_point_spec (λ m, eo <-? slot_at LEAF_HEADER_SIZE buf m ;; j <-? leaf_key buf eo ;; Ok (ltb j k)) (λ i, bool_decide (i < length X)) (length (X ++ Y)) 0 (length (X ++ Y))) as (m & -> & Hm & Hlo & Hhi);
    [lia|lia|intros i Hi; apply Hb; lia|intros i j Hij Hj; rewrite !bool_decide_eq_true; lia|]. f_equal.
  rewrite length_app in Hm, Hhi. destruct (lt_eq_lt_dec m (length X)) as [[Hlt| ->]|Hlt]; [|done|].
  - specialize (Hhi m ltac:(lia)). by apply bool_decide_eq_false in Hhi.
  - specialize (Hlo (length X) ltac:(lia)). apply bool_decide_eq_true in Hlo. lia.
Qed.
Lemma order_ok buf next prev X Y : is_leaf buf next prev (X ++ Y) → ∃ eos1 eos2,
  split_order LEAF_HEADER_SIZE buf (length X) (length (X ++ Y)) = Ok (map Some eos1 ++ None :: map Some eos2) ∧
  Forall2 (entry_at buf) eos1 X ∧ Forall2 (entry_at buf) eos2 Y.
Proof.
  intros Hp. destruct (each_slots _ _ _ _ Hp (length X) 0) as (eos1 & H1 & F1); [rewrite length_app; lia|].
  destruct (each_slots _ _ _ _ Hp (length Y) (length X)) as (eos2 & H2 & F2); [rewrite length_app; lia|]. unfold split_order. rewrite H1. cbn [rbind].
  replace (length (X ++ Y) - length X) with (length Y) by (rewrite length_app; lia). rewrite H2. cbn [rbind]. exists eos1, eos2. split; [done|].
  rewrite drop_0, take_app_length in F1. rewrite drop_app_length, firstn_all in F2. done.
Qed.

(** ** The two halves *)
Lemma wrote_r p r v A A' : wrote p v A A' → keeps [p; r] A A'.
Proof. intros [K _ _]. eapply keeps_weaken; [exact K|]. intros q ->%list_elem_of_singleton. left. Qed.
Lemma repack_halves t A p r next prev scratch k v eos1 eos2 X Y mid : phys t A → p ≠ r →
  a_cells A !! p = Some (CLeaf next prev []) → a_cells A !! r = Some (CLeaf 0 0 []) →
  Forall2 (entry_at scratch) eos1 X → Forall2 (entry_at scratch) eos2 Y → storable k v → page_number (a_pages A + chunks v) →
  let order := map Some eos1 ++ None :: map Some eos2 in let sizes := map entry_cost X ++ (entry_size k v + SLOT_SIZE) :: map entry_cost Y in
  mid ≤ length order → list_sum (take mid sizes) ≤ PAGE_SIZE - LEAF_HEADER_SIZE → list_sum (drop mid sizes) ≤ PAGE_SIZE - LEAF_HEADER_SIZE → ∃ t' A' pl L R,
  and_then (leaf_repack p scratch k v (take mid order) t) (λ t _, leaf_repack r scratch k v (drop mid order) t) = (t', Ok tt) ∧
  phys t' A' ∧ keeps [p; r] A A' ∧ same_meta A A' ∧ a_pages A' ≤ a_pages A + chunks v ∧
  a_cells A' !! p = Some (CLeaf next prev L) ∧ a_cells A' !! r = Some (CLeaf 0 0 R) ∧ L ++ R = X ++ (k, pl) :: Y ∧ length L = mid ∧
  payload_for k v pl ∧ holds_value (a_cells A') (k, pl).
Proof.
  intros Hp Hne Hcp Hcr HX HY Hst Hpn order sizes Hmid HL HR. pose proof (Forall2_length _ _ _ HX) as LX. pose proof (Forall2_length _ _ _ HY) as LY.
  assert (length order = length X + S (length Y)) as Hlo by (unfold order; rewrite length_app; simpl; rewrite !length_map; lia).
  destruct (decide (mid ≤ length X)) as [Hm|Hm].
  - assert (take mid order = map Some (take mid eos1)) as -> by (unfold order; rewrite take_app_le by (rewrite length_map; lia); apply firstn_map).
    assert (drop mid order = map Some (drop mid eos1) ++ None :: map Some eos2) as -> by (unfold order; rewrite drop_app_le by (rewrite length_map; lia); f_equal; apply skipn_map).
    assert (take mid sizes = map entry_cost (take mid X)) as EL by (unfold sizes; rewrite take_app_le by (rewrite length_map; lia); apply firstn_map).
    assert (drop mid sizes = map entry_cost (drop mid X) ++ (entry_size k v + SLOT_SIZE) :: map entry_cost Y) as ER
      by (unfold sizes; rewrite drop_app_le by (rewrite length_map; lia); f_equal; apply skipn_map).
    rewrite EL in HL. rewrite ER, sizes_sum in HR. fold (leaf_cost (take mid X)) in HL.
    destruct (repack_olds p next prev scratch k v (take mid eos1) (take mid X) t A [] (Forall2_take _ _ _ _ HX) Hp Hcp HL) as (t1 & -> & Hp1). cbn [and_then]. simpl app in Hp1.
    destruct (repack_new r 0 0 scratch k v (drop mid eos1) eos2 (drop mid X) Y t1 _ (Forall2_drop _ _ _ _ HX) HY Hp1) as (t2 & A2 & pl & -> & Hp2 & Hcr2 & Hw & Hpf & Hh);
      [by rewrite put_lookup_ne|done|done|lia|].
    exists t2, A2, pl, (take mid X), (drop mid X ++ (k, pl) :: Y). split; [done|]. split; [exact Hp2|]. split_and!; try done.
    + eapply keeps_nil_trans; [eapply keeps_weaken; [apply keeps_put|]|eapply keeps_weaken; [apply Hw|]]; intros q ->%list_elem_of_singleton; [left|right; left].
    + destruct (wr_meta _ _ _ _ Hw). by constructor.
    + apply (wr_pages _ _ _ _ Hw).
    + apply (kp_cells _ _ _ (wr_keeps _ _ _ _ Hw)); [by rewrite list_elem_of_singleton|done|apply put_lookup].
    + by rewrite app_assoc, take_drop.
    + rewrite length_take. lia.
  - set (m := mid - length X - 1). assert (mid = length X + S m) as Hmid' by (unfold m; lia).
    assert (take mid order = map Some eos1 ++ None :: map Some (take m eos2)) as ->.
    { unfold order. rewrite take_app_ge by (rewrite length_map; lia). rewrite length_map. replace (mid - length eos1) with (S m) by lia. simpl. by rewrite firstn_map. }
    assert (drop mid order = map Some (drop m eos2)) as ->.
    { unfold order. rewrite drop_app_ge by (rewrite length_map; lia). rewrite length_map. replace (mid - length eos1) with (S m) by lia. simpl. by rewrite skipn_map. }
    assert (take mid sizes = map entry_cost X ++ (entry_size k v + SLOT_SIZE) :: map entry_cost (take m Y)) as EL.
    { unfold sizes. rewrite take_app_ge by (rewrite length_map; lia). rewrite length_map. replace (mid - length X) with (S m) by lia. simpl. by rewrite firstn_map. }
    assert (drop mid sizes = map entry_cost (drop m Y)) as ER.
    { unfold sizes. rewrite drop_app_ge by (rewrite length_map; lia). rewrite length_map. replace (mid - length X) with (S m) by lia. simpl. by rewrite skipn_map. }
    rewrite ER in HR. rewrite EL, sizes_sum in HL. fold (leaf_cost (drop m Y)) in HR.
    destruct (repack_new p next prev scratch k v eos1 (take m eos2) X (take m Y) t A HX (Forall2_take _ _ _ _ HY) Hp Hcp Hst Hpn) as
      (t1 & A1 & pl & -> & Hp1 & Hc1 & Hw & Hpf & Hh); [lia|]. cbn [and_then].
    assert (a_cells A1 !! r = Some (CLeaf 0 0 [])) as Hr1 by (apply (kp_cells _ _ _ (wr_keeps _ _ _ _ Hw)); [rewrite list_elem_of_singleton; congruence|done|done]).
    destruct (repack_olds r 0 0 scratch k v (drop m eos2) (drop m Y) t1 A1 [] (Forall2_drop _ _ _ _ HY) Hp1 Hr1 HR) as (t2 & -> & Hp2). simpl app in Hp2.
    eexists t2, _, pl, (X ++ (k, pl) :: take m Y), (drop m Y). split; [done|]. split; [exact Hp2|]. split_and!; try done.
    + eapply keeps_nil_trans; [eapply keeps_weaken; [apply Hw|]|eapply keeps_weaken; [apply keeps_put|]]; intros q ->%list_elem_of_singleton; [left|right; left].
    + destruct (wr_meta _ _ _ _ Hw). by constructor.
    + apply (wr_pages _ _ _ _ Hw).
    + by rewrite put_lookup_ne.
    + apply put_lookup.
    + by rewrite <- app_assoc, <- app_comm_cons, take_drop.
    + rewrite length_app. cbn [length]. rewrite length_take. lia.
    + by eapply holds_put.
Qed.

(** ** Links *)
Lemma set_prev_ok t A p next prev es n : phys t A → a_cells A !! p = Some (CLeaf next prev es) → page_number n → ∃ t',
  edit p (λ buf, put64 buf 16 n) t = (t', Ok tt) ∧ phys t' (put_cell p (CLeaf next n es) A).
Proof.
  intros Hp Hc Hn. eapply edit_used; [done|done|done|]. intros buf (Hl & H1 & H2) _. destruct (leaf_set_prev _ _ _ _ n Hl) as (b & Hb & Hl').
  exists b. split; [done|]. split; [by eapply leaf_page_length|]. by split.
Qed.
Lemma set_next_ok t A p next prev es n : phys t A → a_cells A !! p = Some (CLeaf next prev es) → page_number n → ∃ t',
  edit p (λ buf, put64 buf 8 n) t = (t', Ok tt) ∧ phys t' (put_cell p (CLeaf n prev es) A).
Proof.
  intros Hp Hc Hn. eapply edit_used; [done|done|done|]. intros buf (Hl & H1 & H2) _. destruct (leaf_set_next _ _ _ _ n Hl) as (b & Hb & Hl').
  exists b. split; [done|]. split; [by eapply leaf_page_length|]. by split.
Qed.
(** The leaf behind a page, if there is one, has a link back to be set. *)
Definition back_linked (cs : gmap nat cell) (p next : nat) : Prop :=
  next = 0 ∨ next ≠ p ∧ ∃ nn np es, cs !! next = Some (CLeaf nn np es).
Definition relinked (cs cs' : gmap nat cell) (next r : nat) : Prop :=
  next = 0 ∨ ∃ nn np es, cs !! next = Some (CLeaf nn np es) ∧ cs' !! next = Some (CLeaf nn r es).
Lemma link_right_ok t A p r next prev L R : phys t A → p ≠ r → next ≠ r → 0 < p → 0 < r →
  a_cells A !! p = Some (CLeaf next prev L) → a_cells A !! r = Some (CLeaf 0 0 R) → page_number next → back_linked (a_cells A) p next → ∃ t' A',
  link_right p r next t = (t', Ok tt) ∧ phys t' A' ∧ keeps [p; r; next] A A' ∧ a_pages A' = a_pages A ∧
  a_root A' = a_root A ∧ a_count A' = a_count A ∧ a_right A' = (if (next =? 0)%nat then r else a_right A) ∧
  a_cells A' !! p = Some (CLeaf r prev L) ∧ a_cells A' !! r = Some (CLeaf next p R) ∧ relinked (a_cells A) (a_cells A') next r ∧
  ∀ e, holds_value (a_cells A) e → holds_value (a_cells A') e.
Proof.
  intros Hp Hpr Hnr H0p H0r Hcp Hcr Hnn Hbl. pose proof (ph_cells _ _ Hp _ _ Hcp) as [Hrp _]. pose proof (ph_cells _ _ Hp _ _ Hcr) as [Hrr _].
  pose proof (ph_bound _ _ Hp) as Hpb. unfold link_right.
  assert (page_number p) as Hpnp by (unfold page_number in *; lia). assert (page_number r) as Hpnr by (unfold page_number in *; lia).
  destruct (edit_used t A r (λ b, b <-? put64 b 8 next ;; put64 b 16 p) _ (CLeaf next p R) Hp Hcr I) as (t1 & -> & Hp1).
  { intros buf (Hl & H1 & H2) _. destruct (leaf_set_next _ _ _ _ next Hl) as (b & Hb & Hl1). destruct (leaf_set_prev _ _ _ _ p Hl1) as (b2 & Hb2 & Hl2).
    exists b2. rewrite Hb. cbn [rbind]. split; [done|]. split; [by eapply leaf_page_length|]. by split. }
  cbn [and_then]. destruct (set_next_ok t1 _ p next prev L r Hp1) as (t2 & -> & Hp2); [by rewrite put_lookup_ne|done|]. cbn [and_then].
  set (A2 := put_cell p (CLeaf r prev L) (put_cell r (CLeaf next p R) A)) in *.
  assert (keeps [p; r; next] A A2) as Hk2.
  { apply keeps_put_r; [|left]. apply keeps_put_r; [apply kept_refl|right; left]. }
  assert (∀ e, holds_value (a_cells A) e → holds_value (a_cells A2) e) as Hh2.
  { intros e He. eapply holds_put; [rewrite put_lookup_ne by done; exact Hcp|done|]. by eapply holds_put. }
  assert (a_cells A2 !! p = Some (CLeaf r prev L)) as Hcp2 by apply put_lookup.
  assert (a_cells A2 !! r = Some (CLeaf next p R)) as Hcr2 by (unfold A2; rewrite put_lookup_ne by done; apply put_lookup).
  destruct Hbl as [->|(Hnp & nn & np & es & Hcn)].
  - cbn [Nat.eqb negb]. destruct (set_right_ok t2 A2 r Hp2) as (t3 & -> & Hp3); [simpl; lia|].
    exists t3, (with_right r A2). split_and!; try done; [destruct Hk2; by constructor|by left].
  - assert (next ≠ 0) as Hn0 by (apply (ph_cells _ _ Hp) in Hcn as [? _]; lia). destruct (Nat.eqb_spec next 0) as [|_]; [done|]. cbn [negb].
    assert (a_cells A2 !! next = Some (CLeaf nn np es)) as Hcn2 by (unfold A2; by rewrite !put_lookup_ne).
    destruct (set_prev_ok t2 A2 next nn np es r Hp2 Hcn2 Hpnr) as (t3 & -> & Hp3).
    eexists t3, _. split; [done|]. split; [exact Hp3|]. split_and!; try done.
    + apply keeps_put_r; [done|]. right. right. left.
    + by rewrite put_lookup_ne.
    + by rewrite put_lookup_ne.
    + right. exists nn, np, es. split; [done|]. apply put_lookup.
    + intros e He. eapply holds_put; [exact Hcn2|done|]. by apply Hh2.
Qed.

(** ** The split *)
Record split_result p next prev k v X Y A t' A' pl r sep L R : Prop := {
  sr_entries : L ++ R = X ++ (k, pl) :: Y;
  sr_sep : ∃ a b, last L = Some a ∧ head R = Some b ∧ sep = truncated_separator a.1 b.1;
  sr_payload : payload_for k v pl;
  sr_holds : holds_value (a_cells A') (k, pl);
  sr_phys : phys t' A';
  sr_new : 0 < r < a_pages A' ∧ r ≠ p ∧ (∀ c, in_use c → a_cells A !! r ≠ Some c);
  sr_root : a_root A' = a_root A;
  sr_count : a_count A' = a_count A;
  sr_last : a_right A' = (if (next =? 0)%nat then r else a_right A);
  sr_pages : a_pages A' ≤ a_pages A + chunks v + 1;
  sr_keeps : keeps [p; r; next] A A';
  sr_left : a_cells A' !! p = Some (CLeaf r prev L);
  sr_right : a_cells A' !! r = Some (CLeaf next p R);
  sr_links : relinked (a_cells A) (a_cells A') next r }.
Lemma init_leaf_ok t A r b : phys t A → fresh A r → ∃ t', init_leaf r b t = (t', Ok tt) ∧ phys t' (put_cell r (CLeaf 0 0 []) A).
Proof.
  intros Hp Hf. unfold init_leaf. destruct (edit_fresh t A r (leaf_header (if b then FLAG_ROOT else 0)) (CLeaf 0 0 []) Hp Hf) as (t1 & -> & Hp1).
  { intros buf Hl. destruct (leaf_header_spec buf (if b then FLAG_ROOT else 0) Hl) as (b' & Hb & Hl'); [by destruct b|].
    exists b'. split; [done|]. split; [by eapply leaf_page_length|]. by split. }
  cbn [and_then]. apply (write_leaf_pages_ok t1 _ (st_leaf_pages (bp_stats t1) + 1) Hp1).
Qed.
Lemma separator_ok buf k eos1 eos2 X Y m : Forall2 (entry_at buf) eos1 X → Forall2 (entry_at buf) eos2 Y → 1 ≤ m ≤ length X + length Y → ∃ a b,
  split_separator leaf_key buf k (map Some eos1 ++ None :: map Some eos2) m = Ok (truncated_separator a b) ∧
  (map fst X ++ k :: map fst Y) !! (m - 1) = Some a ∧ (map fst X ++ k :: map fst Y) !! m = Some b.
Proof.
  intros HX HY Hm. set (order := map Some eos1 ++ None :: map Some eos2).
  assert (length order = length X + S (length Y)) as Hlo.
  { unfold order. rewrite length_app. cbn [length]. by rewrite !length_map, (Forall2_length _ _ _ HX), (Forall2_length _ _ _ HY). }
  unfold split_separator. destruct (order !! (m - 1)) as [o1|] eqn:E1; [|apply lookup_ge_None in E1; lia].
  destruct (order !! m) as [o2|] eqn:E2; [|apply lookup_ge_None in E2; lia].
  destruct (order_keys buf k eos1 eos2 X Y _ _ HX HY E1) as (a & Ha & ->). destruct (order_keys buf k eos1 eos2 X Y _ _ HX HY E2) as (b & Hb & ->).
  exists a, b. by split_and!.
Qed.
Lemma boundary_keys {B} (L R : list (list Z * B)) K m a b : map fst (L ++ R) = K → length L = m → 1 ≤ m → K !! (m - 1) = Some a → K !! m = Some b →
  ∃ x y, last L = Some x ∧ head R = Some y ∧ x.1 = a ∧ y.1 = b.
Proof.
  intros <- <- Hm Ha Hb. rewrite list_lookup_fmap in Ha, Hb. rewrite lookup_app_l in Ha by lia. rewrite lookup_app_r, Nat.sub_diag in Hb by lia.
  rewrite last_lookup. replace (pred (length L)) with (length L - 1) by lia. destruct (L !! (length L - 1)) as [x|]; [|done].
  destruct R as [|y R]; [done|]. exists x, y. simpl in *. by split_and!; try congruence.
Qed.
Lemma leaf_split_ok t A p next prev X Y k v : phys t A → a_cells A !! p = Some (CLeaf next prev (X ++ Y)) → under k X → over k Y →
  Forall (λ e, entry_cost e ≤ MAX_ENTRY) (X ++ Y) → storable k v → entry_size k v + SLOT_SIZE ≤ MAX_ENTRY →
  ¬ leaf_fits (X ++ Y) (entry_size k v) → page_number (a_pages A + chunks v + 1) → back_linked (a_cells A) p next → ∃ t' A' pl r sep L R,
  leaf_split p k v t = (t', Ok (Some (mkSplit p r sep))) ∧ split_result p next prev k v X Y A t' A' pl r sep L R.
Proof.
  intros Hp Hc HX HY HF Hst Hsz Hnf Hpn Hbl. destruct (leaf_page_at _ _ _ _ _ _ Hp Hc) as (buf & Hb & Hleaf & Hn1 & Hn2).
  pose proof (leaf_room _ _ _ _ Hleaf) as Hroom. pose proof (leaf_cost_used (X ++ Y)) as Hcu. unfold leaf_fits in Hnf.
  destruct (order_ok _ _ _ _ _ Hleaf) as (eos1 & eos2 & Hord & F1 & F2).
  set (cap := PAGE_SIZE - LEAF_HEADER_SIZE). set (sizes := map entry_cost X ++ (entry_size k v + SLOT_SIZE) :: map entry_cost Y).
  assert (each (leaf_entry_size buf k v) (map Some eos1 ++ None :: map Some eos2) = Ok sizes) as Hsizes.
  { apply each_app; [by apply each_sizes|]. cbn [each leaf_entry_size rbind]. fold (entry_size k v). rewrite (each_sizes _ _ _ _ _ F2). done. }
  assert (list_sum sizes = leaf_cost (X ++ Y) + (entry_size k v + SLOT_SIZE)) as Hsum by (unfold sizes; rewrite sizes_sum, leaf_cost_app; lia).
  destruct (split_mid_ok sizes cap) as (m & Hm & Hml & HL & HR).
  { apply Forall_app. apply Forall_app in HF as [H1 H2]. split; [by apply Forall_map|]. constructor; [done|by apply Forall_map]. }
  { unfold cap. page_lia. }
  { unfold cap. page_lia. }
  { unfold cap, MAX_ENTRY. page_lia. }
  assert (length sizes = length X + S (length Y)) as Hls by (unfold sizes; rewrite length_app; cbn [length]; by rewrite !length_map).
  destruct (separator_ok buf k eos1 eos2 X Y m F1 F2) as (ka & kb & Hsep & Hka & Hkb); [lia|].
  unfold leaf_split. rewrite Hb. cbn [reading]. rewrite (leaf_count _ _ _ _ Hleaf). cbn [reading].
  rewrite (leaf_ip _ _ _ _ _ _ Hleaf HX HY). cbn [reading]. rewrite Hord. cbn [reading]. rewrite Hsizes. cbn [reading].
  destruct (edit_used t A p reset_page _ (CLeaf next prev []) Hp Hc I) as (t1 & -> & Hp1).
  { intros b (Hl & _) _. destruct (leaf_reset _ _ _ _ Hl) as (b' & Hb' & Hl'). exists b'. split; [done|]. split; [by eapply leaf_page_length|done]. }
  cbn [and_then]. destruct (Nat.leb_spec (list_sum sizes) (PAGE_SIZE - LEAF_HEADER_SIZE)) as [Hle|_]; [page_lia|].
  rewrite Hm. cbn [reading]. rewrite Hsep. cbn [reading].
  destruct (alloc_page_ok t1 _ Hp1) as (t2 & r & A2 & -> & Hp2 & [Hk2 Hs2 Hg2 Hf2]); [simpl; unfold page_number in *; lia|]. cbn [and_then]. simpl in Hg2.
  specialize (Hf2 0 ltac:(lia)). rewrite Nat.add_0_r in Hf2.
  assert (a_cells A2 !! p = Some (CLeaf next prev [])) as Hcp2 by (apply (kp_cells _ _ _ Hk2); [apply not_elem_of_nil|done|apply put_lookup]).
  assert (r ≠ p) as Hrp. { intros ->. destruct Hf2 as (_ & _ & Hf2). by apply (Hf2 _ Hcp2). }
  destruct (init_leaf_ok t2 A2 r false Hp2 Hf2) as (t3 & -> & Hp3). cbn [and_then].
  destruct (repack_halves t3 _ p r next prev buf k v eos1 eos2 X Y m Hp3 (not_eq_sym Hrp)) as
    (t4 & A4 & pl & L & R & Hrep & Hp4 & Hk4 & Hs4 & Hg4 & Hcp4 & Hcr4 & HLR & HlL & Hpf & Hh4); try done.
  { by rewrite put_lookup_ne. }
  { apply put_lookup. }
  { simpl. unfold page_number in *. lia. }
  { rewrite length_app. cbn [length]. rewrite !length_map, (Forall2_length _ _ _ F1), (Forall2_length _ _ _ F2). lia. }
  destruct (leaf_repack p buf k v _ t3) as [t5 [[]|e|]]; [|done..]. cbn [and_then] in Hrep |- *. rewrite Hrep. cbn [and_then].
  unfold add_leaf_entry_bytes. edestruct (write_leaf_bytes_ok t4) as (t6 & -> & Hp6); [exact Hp4|]. cbn [and_then].
  rewrite (field64 _ _ _ (lp_next _ _ _ _ Hleaf) Hn1). cbn [reading].
  assert (∀ q c, in_use c → a_cells A !! q = Some c → q ≠ p → a_cells A2 !! q = Some c) as HA2.
  { intros q c Hu Hq Hqp. apply (kp_cells _ _ _ Hk2); [apply not_elem_of_nil|done|]. by rewrite put_lookup_ne. }
  assert (∀ q c, in_use c → a_cells A !! q = Some c → q ≠ p → r ≠ q) as Hrq.
  { intros q c Hu Hq Hqp ->. destruct Hf2 as (_ & _ & Hf2). apply (Hf2 c); [|done]. by apply HA2. }
  assert (∀ q c, in_use c → a_cells A !! q = Some c → q ≠ p → a_cells A4 !! q = Some c) as HA4.
  { intros q c Hu Hq Hqp. pose proof (Hrq _ _ Hu Hq Hqp). apply (kp_cells _ _ _ Hk4); [rewrite !elem_of_cons, elem_of_nil; naive_solver|done|].
    rewrite put_lookup_ne by congruence. by apply HA2. }
  assert (0 < p) as H0p by (apply (ph_cells _ _ Hp) in Hc as [? _]; lia). assert (0 < r < a_pages A2) as H0r by apply Hf2.
  assert (next ≠ r ∧ back_linked (a_cells A4) p next) as [Hnr Hbl4].
  { destruct Hbl as [->|(Hnp & nn & np & es & Hcn)]; [split; [lia|by left]|]. split.
    - intros <-. by apply (Hrq _ (CLeaf nn np es) I Hcn Hnp).
    - right. split; [done|]. exists nn, np, es. by apply HA4. }
  destruct (link_right_ok t6 A4 p r next prev L R Hp6 (not_eq_sym Hrp) Hnr H0p ltac:(lia) Hcp4 Hcr4 Hn1 Hbl4) as
    (t7 & A7 & -> & Hp7 & Hk7 & Hg7 & Hr7 & Hn7 & Hl7 & Hcp7 & Hcr7 & Hre7 & Hh7). cbn [and_then].
  destruct (boundary_keys L R (map fst X ++ k :: map fst Y) m ka kb) as (x & y & Hx & Hy & <- & <-); [|done|lia|done|done|].
  { rewrite HLR, map_app. done. }
  pose proof (kp_pages _ _ _ Hk4) as HP4. pose proof (kp_pages _ _ _ Hk2) as HP2.
  eexists t7, A7, pl, r, _, L, R. split; [done|]. destruct Hs2, Hs4. simpl in *. constructor; try done.
  - by exists x, y.
  - by apply Hh7.
  - split; [lia|]. split; [done|]. intros c Hu Hcr. destruct (decide (r = p)) as [|Hne]; [done|]. by apply (Hrq _ _ Hu Hcr Hne).
  - congruence.
  - congruence.
  - rewrite Hl7. destruct (next =? 0)%nat; congruence.
  - lia.
  - constructor; [lia| |].
    + pose proof (kp_config _ _ _ Hk2). pose proof (kp_config _ _ _ Hk4). pose proof (kp_config _ _ _ Hk7). simpl in *. congruence.
    + intros q c Hq Hu Hcq. rewrite !elem_of_cons, elem_of_nil in Hq. apply (kp_cells _ _ _ Hk7); [rewrite !elem_of_cons, elem_of_nil; naive_solver|done|].
      apply HA4; [done|done|]. naive_solver.
  - destruct Hre7 as [->|(nn & np & es & H4 & H7)]; [by left|]. right. exists nn, np, es. split; [|done].
    destruct Hbl as [->|(Hnp & nn' & np' & es' & Hcn)]; [apply (ph_cells _ _ Hp4) in H4 as [? _]; lia|].
    pose proof (HA4 _ (CLeaf nn' np' es') I Hcn Hnp) as H4'. rewrite H4 in H4'. injection H4' as -> -> ->. done.
Qed.
