(* ===== verification/BPlusPut.v ===== *)
(** * Putting an entry into its leaf

    [leaf_insert_bytes] on every branch: in place, after removing the old
    entry, with a split.  [leaf_put] says what each leaves. *)
From stdpp Require Import base numbers option gmap list.
From S2P Require Import Prelude Bytes BinarySearch Order BTreeMap Backend Mmap BPlusPages BPlusNodes BPlusBytes BPlusSlots BPlusCells BPlusPageOps BPlusStore BPlusAlloc BPlusLeaf BPlusSplit.
Import Pages Nodes.
Implicit Types (t : BPlusTree) (A : Abs) (p q n r next prev : nat) (c : cell) (v key k sep : list Z) (pl : payload) (e : entry) (es X Y L R : list entry) (o : option PageSplit).

Record split_leaf p next prev k X Y A A' pl r sep L R : Prop := {
  sl_entries : L ++ R = X ++ (k, pl) :: Y;
  sl_sep : ∃ a b, last L = Some a ∧ head R = Some b ∧ sep = truncated_separator a.1 b.1;
  sl_new : 0 < r < a_pages A' ∧ r ≠ p ∧ (∀ c, in_use c → (∀ bs, c ≠ CExt k bs) → a_cells A !! r ≠ Some c);
  sl_last : a_right A' = (if (next =? 0)%nat then r else a_right A);
  sl_keeps : amends [p; r; next] k A A';
  sl_left : a_cells A' !! p = Some (CLeaf r prev L);
  sl_right : a_cells A' !! r = Some (CLeaf next p R);
  sl_links : relinked (a_cells A) (a_cells A') next r }.
Record leaf_put p next prev k v X Y A A' pl o : Prop := {
  lf_payload : payload_for k v pl;
  lf_holds : holds_value (a_cells A') (k, pl);
  lf_root : a_root A' = a_root A;
  lf_count : a_count A' = a_count A;
  lf_pages : a_pages A' ≤ a_pages A + chunks v + 1;
  lf_leaf : match o with
            | None => amends [p] k A A' ∧ a_right A' = a_right A ∧ a_cells A' !! p = Some (CLeaf next prev (X ++ (k, pl) :: Y))
            | Some (mkSplit p' r sep) => p' = p ∧ ∃ L R, split_leaf p next prev k X Y A A' pl r sep L R
            end }.
(** The room for one more entry under the key. *)
Definition small_entry k v : Prop := entry_size k v + SLOT_SIZE ≤ MAX_ENTRY.
Definition small es : Prop := Forall (λ e, entry_cost e ≤ MAX_ENTRY) es.
Lemma insert_at_mid {B} (X Y : list B) (e : B) : insert_at (length X) e (X ++ Y) = X ++ e :: Y.
Proof. unfold insert_at. by rewrite take_app_length, drop_app_length. Qed.
Lemma put_absent_ok t A p next prev X Y k v : phys t A → a_cells A !! p = Some (CLeaf next prev (X ++ Y)) → under k X → over k Y →
  small (X ++ Y) → storable k v → small_entry k v → page_number (a_pages A + chunks v + 1) → back_linked (a_cells A) p next → ∃ t' A' pl o,
  leaf_insert_absent p k v (length X) t = (t', Ok o) ∧ phys t' A' ∧ leaf_put p next prev k v X Y A A' pl o.
Proof.
  intros Hp Hc HX HY Hsm Hst Hse Hpn Hbl. assert (length X ≤ length (X ++ Y)) as Hlen by (rewrite length_app; lia).
  destruct (decide (LEAF_HEADER_SIZE + (length (X ++ Y) + 1) * SLOT_SIZE + (leaf_used (X ++ Y) + entry_size k v) ≤ PAGE_SIZE)) as [Hfit|Hno].
  - destruct (leaf_insert_fit t A p next prev (X ++ Y) (length X) k v Hp Hc Hlen Hfit Hst) as (t' & A' & pl & Hi & Hp' & Hc' & [Hk Hm Hg] & Hpf & Hh);
      [unfold page_number in *; lia|]. exists t', A', pl, None. split; [done|]. split; [done|]. destruct Hm. rewrite insert_at_mid in Hc'. constructor; try done; [lia|].
    split; [by apply amends_keeps|]. by split.
  - destruct (leaf_page_at _ _ _ _ _ _ Hp Hc) as (buf & Hb & Hleaf & _). pose proof (leaf_room _ _ _ _ Hleaf) as Hroom.
    destruct (leaf_split_ok t A p next prev X Y k v Hp Hc HX HY Hsm Hst Hse Hno Hpn Hbl) as (t' & A' & pl & r & sep & L & R & Hsp & Hsr).
    exists t', A', pl, (Some (mkSplit p r sep)). split; [|split; [apply Hsr|]].
    + unfold leaf_insert_absent. rewrite Hb. cbn [reading]. rewrite (leaf_count _ _ _ _ Hleaf), (leaf_data_off _ _ _ _ Hleaf). cbn [reading].
      fold (entry_size k v). destruct (Nat.ltb_spec (PAGE_SIZE - leaf_used (X ++ Y)) (LEAF_HEADER_SIZE + length (X ++ Y) * SLOT_SIZE + (entry_size k v + SLOT_SIZE))) as [_|Hge]; [done|].
      exfalso. apply Hno. page_lia.
    + destruct Hsr as [He Hs Hpf Hh _ Hn Hr Hct Hl Hpg Hk Hcl Hcr Hrl]. constructor; try done. split; [done|]. exists L, R. constructor; try done.
      * split; [lia|]. split; [apply Hn|]. intros c Hu _. by apply Hn.
      * by apply amends_keeps.
Qed.

(** ** After steps on the same key's own extents *)
Lemma back_linked_amends k A A' p next : amends [p] k A A' → back_linked (a_cells A) p next → back_linked (a_cells A') p next.
Proof.
  intros Ha [->|(Hn & nn & np & es & Hc)]; [by left|]. right. split; [done|]. exists nn, np, es.
  apply (amends_lookup _ _ _ _ _ _ Ha Hc); [by rewrite list_elem_of_singleton|done|done].
Qed.
Lemma leaf_put_after t1 p next prev k v X Y A A1 A' pl o es0 : phys t1 A1 → amends [p] k A A1 → a_cells A !! p = Some (CLeaf next prev es0) → same_meta A A1 → a_pages A1 = a_pages A →
  back_linked (a_cells A) p next → leaf_put p next prev k v X Y A1 A' pl o → leaf_put p next prev k v X Y A A' pl o.
Proof.
  intros Hp1 Ha Hc0 [Hr Hg Hct] Hpg Hbl [H1 H2 H3 H4 H5 H6].
  constructor; [done|done|congruence|congruence|lia|]. destruct o as [[p' r sep]|].
  - destruct H6 as (-> & L & R & [E1 E2 E3 E4 E5 E6 E7 E8]). split; [done|]. exists L, R. constructor; try done.
    + split; [apply E3|]. split; [apply E3|]. intros c Hu Ht Hc. destruct E3 as (_ & Hne & E3). apply (E3 c Hu Ht).
      apply (amends_lookup _ _ _ _ _ _ Ha Hc); [by rewrite list_elem_of_singleton|done|done].
    + by rewrite E4, Hg.
    + eapply amends_weaken; [eapply amends_trans; [exact Ha|exact E5]|]. intros q. rewrite elem_of_app, !elem_of_cons, elem_of_nil. tauto.
    + destruct E8 as [->|(nn & np & es & E8 & E8')]; [by left|]. right. destruct Hbl as [->|(Hn & nn' & np' & es' & Hc)].
      * apply (ph_cells _ _ Hp1) in E8 as [? _]. lia.
      * pose proof (amends_lookup _ _ _ _ _ _ Ha Hc) as Hc'. rewrite list_elem_of_singleton in Hc'. specialize (Hc' Hn ltac:(done) I).
        rewrite E8 in Hc'. injection Hc' as -> -> ->. by exists nn', np', es'.
  - destruct H6 as (E1 & E2 & E3). split; [|split; [by rewrite E2, Hg|done]]. eapply amends_same; [exact Ha|exact E1].
Qed.

(** ** Overwriting *)
Lemma small_drop X k pl Y : small (X ++ (k, pl) :: Y) → small (X ++ Y).
Proof. unfold small. rewrite !Forall_app, Forall_cons. tauto. Qed.
Lemma overwrite_slow t A p next prev X k plo Y v : phys t A → a_cells A !! p = Some (CLeaf next prev (X ++ (k, plo) :: Y)) → holds_value (a_cells A) (k, plo) →
  under k X → over k Y → small (X ++ (k, plo) :: Y) → storable k v → small_entry k v → page_number (a_pages A + chunks v + 1) → back_linked (a_cells A) p next →
  let es := X ++ (k, plo) :: Y in ∃ t' A' pl o,
  (let* t, _ := match (match plo with Inline _ => None | Extent start v => Some (start, length v) end) with
                | Some (start, len) => free_extent start len t | None => (t, Ok tt) end in
   let* t, _ := leaf_remove_entry p (length X) (length es) (PAGE_SIZE - leaf_used es) t in leaf_insert_absent p k v (length X) t) = (t', Ok o) ∧
  phys t' A' ∧ leaf_put p next prev k v X Y A A' pl o.
Proof.
  intros Hp Hc Hh HX HY Hsm Hst Hse Hpn Hbl es. unfold es.
  destruct (free_old_ok t A p next prev X k plo Y Hp Hc Hh) as (t1 & A1 & -> & Hp1 & Ha1 & Hs1 & Hpg1 & Hc1). cbn [and_then].
  destruct (leaf_remove_ok t1 A1 p next prev X k plo Y Hp1 Hc1) as (t2 & -> & Hp2). cbn [and_then].
  assert (amends [p] k A (put_cell p (CLeaf next prev (X ++ Y)) A1)) as Ha2.
  { eapply amends_same; [eapply amends_weaken; [exact Ha1|by intros q ?%not_elem_of_nil]|]. apply amends_put. left. }
  destruct (put_absent_ok t2 _ p next prev X Y k v Hp2 (put_lookup _ _ _) HX HY (small_drop _ _ _ _ Hsm) Hst Hse) as (t3 & A3 & pl & o & -> & Hp3 & Hl3).
  { simpl. by rewrite Hpg1. }
  { by eapply back_linked_amends. }
  exists t3, A3, pl, o. split; [done|]. split; [done|]. eapply leaf_put_after; [exact Hp2|exact Ha2|exact Hc|by destruct Hs1|done|done|done].
Qed.
Lemma overwrite_ok t A p next prev X k plo Y v : phys t A → a_cells A !! p = Some (CLeaf next prev (X ++ (k, plo) :: Y)) → holds_value (a_cells A) (k, plo) →
  under k X → over k Y → small (X ++ (k, plo) :: Y) → storable k v → small_entry k v → page_number (a_pages A + chunks v + 1) → back_linked (a_cells A) p next → ∃ t' A' pl o,
  leaf_overwrite p k v (length X) t = (t', Ok o) ∧ phys t' A' ∧ leaf_put p next prev k v X Y A A' pl o.
Proof.
  intros Hp Hc Hh HX HY Hsm Hst Hse Hpn Hbl. pose proof (overwrite_slow t A p next prev X k plo Y v Hp Hc Hh HX HY Hsm Hst Hse Hpn Hbl) as Hslow.
  destruct (leaf_page_at _ _ _ _ _ _ Hp Hc) as (buf & Hb & Hleaf & Hn1 & Hn2).
  assert ((X ++ (k, plo) :: Y) !! length X = Some (k, plo)) as Hi by (by apply list_lookup_middle).
  destruct (leaf_slot _ _ _ _ Hleaf _ _ _ Hi) as (Hok & eo & Heo & Hg & _). unfold leaf_overwrite.
  rewrite Hb. cbn [reading]. rewrite (leaf_count _ _ _ _ Hleaf), (leaf_data_off _ _ _ _ Hleaf). cbn [reading]. rewrite Heo. cbn [reading].
  rewrite (entry_key_len _ _ _ _ Hg Hok), (entry_raw _ _ _ _ Hg Hok), (entry_extent_ok _ _ _ _ Hg Hok). cbn [reading]. rewrite (raw_is_extent _ _ Hok).
  destruct plo as [w|s w]; [|exact Hslow]. cbn [negb andb and_then] in *. cbn [raw_of]. rewrite Nat2Z.id.
  destruct (negb (overflows k v)) eqn:Ho; [|exact Hslow]. destruct (Nat.eqb_spec (length w) (length v)) as [El|_]; [|exact Hslow]. cbn [andb].
  destruct (leaf_overwrite_page buf next prev X k w v Y Hleaf (eq_sym El)) as (eo' & buf' & Heo' & _ & Hput & Hl').
  rewrite Heo in Heo'. injection Heo' as <-.
  pose proof (ph_cells _ _ Hp _ _ Hc) as [Hr _].
  destruct (edit_cell t A p (λ leaf, put_bytes leaf (eo + 6 + length k) v) (CLeaf next prev (X ++ (k, Inline v) :: Y)) Hp Hr) as (t1 & -> & Hp1); [by eapply used_not_free; [apply Hp|exact Hc|]|..].
  { intros b Hbb. rewrite Hb in Hbb. injection Hbb as <-. exists buf'. split; [exact Hput|]. split; [by eapply leaf_page_length|done]. }
  cbn [and_then]. eexists t1, _, (Inline v), None. split; [done|]. split; [exact Hp1|]. apply negb_true_iff in Ho. constructor; try done; [by apply inline_for|simpl; lia|].
  split; [apply amends_put; left|]. split; [done|apply put_lookup].
Qed.

(** ** Both branches *)
(** How the entries of a leaf split around the key, its own aside. *)
Definition splits_at k es X Y : Prop := under k X ∧ over k Y ∧ (es = X ++ Y ∨ ∃ plo, es = X ++ (k, plo) :: Y).
Lemma leaf_insert_ok t A p next prev es k v : phys t A → a_cells A !! p = Some (CLeaf next prev es) → bt_wf es → Forall (holds_value (a_cells A)) es →
  small es → storable k v → small_entry k v → page_number (a_pages A + chunks v + 1) → back_linked (a_cells A) p next → ∃ X Y t' A' pl o,
  splits_at k es X Y ∧ leaf_insert_bytes p k v (locate k es) t = (t', Ok o) ∧ phys t' A' ∧ leaf_put p next prev k v X Y A A' pl o.
Proof.
  intros Hp Hc Hw HF Hsm Hst Hse Hpn Hbl.
  destruct (wf_split k es Hw) as [(X & plo & Y & -> & HX & HY)|(X & Y & -> & HX & HY)]; exists X, Y.
  - apply Forall_app in HF as [_ [Hh _]%Forall_cons].
    destruct (overwrite_ok t A p next prev X k plo Y v) as (t' & A' & pl & o & Hi & Hp' & Hl); try done. exists t', A', pl, o.
    rewrite locate_here by done. split; [|done]. split; [done|]. split; [done|]. right. by exists plo.
  - destruct (put_absent_ok t A p next prev X Y k v) as (t' & A' & pl & o & Hi & Hp' & Hl); try done. exists t', A', pl, o.
    rewrite locate_gap by done. split; [|done]. split; [done|]. split; [done|]. by left.
Qed.

(** * Separators: the parent of a split leaf, and a new root

    [internal_insert] where the page has room, and [grow_root]. *)
Implicit Types (cs : list sep).

Lemma internal_insert_ok t A pg leftmost cs key child : phys t A → a_cells A !! pg = Some (CInternal leftmost cs) → bt_wf cs →
  internal_fits cs (10 + length key) → sep_ok (key, child) → ∃ t', internal_insert pg key child t = (t', Ok None) ∧
  phys t' (put_cell pg (CInternal leftmost (insert_at (n_upto key cs) (key, child) cs)) A).
Proof.
  intros Hp Hc Hw Hfit Hok. destruct (page_lookup _ _ _ _ Hp Hc) as (buf & Hb & Hi & Hpn). pose proof (ph_cells _ _ Hp _ _ Hc) as [Hr _].
  unfold internal_insert. rewrite Hb. cbn [reading]. rewrite (internal_count _ _ _ Hi), (internal_data_off _ _ _ Hi). cbn [reading].
  pose proof (internal_room _ _ _ Hi) as Hroom. unfold internal_fits in Hfit.
  destruct (Nat.ltb_spec (PAGE_SIZE - seps_used cs) (HEADER_SIZE + length cs * SLOT_SIZE + (10 + length key) + SLOT_SIZE)) as [Hlt|_]; [page_lia|].
  rewrite (separators_upto_spec _ _ _ key Hi Hw). cbn [reading].
  destruct (internal_insert_page buf leftmost cs (n_upto key cs) key child Hi (n_upto_bound _ _) Hok Hfit) as (b & Hb' & Hi').
  match goal with |- context [edit pg ?f t] => destruct (edit_cell t A pg f (CInternal leftmost (insert_at (n_upto key cs) (key, child) cs)) Hp Hr) as (t1 & -> & Hp1) end.
  - by eapply used_not_free; [apply Hp|exact Hc|].
  - intros b0 Hb0. rewrite Hb in Hb0. injection Hb0 as <-. exists b. split; [exact Hb'|]. split; [by eapply internal_page_length|]. by split.
  - by exists t1.
Qed.
Lemma init_internal_ok t A p : phys t A → fresh A p → ∃ t', init_internal p t = (t', Ok tt) ∧ phys t' (put_cell p (CInternal 0 []) A).
Proof.
  intros Hp Hf. unfold init_internal. eapply edit_fresh; [done|done|]. intros buf Hl. destruct (internal_header_spec buf Hl) as (b & Hb & Hi).
  exists b. split; [done|]. split; [by eapply internal_page_length|]. by split.
Qed.
(** The root grown above the leaves [p] and [r]. *)
Record grown p r key A nr A' : Prop := {
  gr_new : 0 < nr < a_pages A' ∧ (∀ c, in_use c → a_cells A !! nr ≠ Some c);
  gr_cell : a_cells A' !! nr = Some (CInternal p [(key, r)]);
  gr_root : a_root A' = nr;
  gr_right : a_right A' = a_right A;
  gr_count : a_count A' = a_count A;
  gr_pages : a_pages A' ≤ a_pages A + 1;
  gr_keeps : keeps [] A A' }.
Lemma grow_root_ok t A p r key next prev es : phys t A → a_cells A !! p = Some (CLeaf next prev es) → sep_ok (key, r) →
  length key ≤ MAX_ENTRY → page_number (a_pages A + 1) → ∃ t' nr A', grow_root (mkSplit p r key) t = (t', Ok tt) ∧ phys t' A' ∧ grown p r key A nr A'.
Proof.
  intros Hp Hc Hok Hlk Hpn. unfold grow_root. destruct (alloc_page_ok t A Hp Hpn) as (t1 & nr & A1 & -> & Hp1 & [Hk1 Hs1 Hg1 Hf1]). cbn [and_then].
  specialize (Hf1 0 ltac:(lia)). rewrite Nat.add_0_r in Hf1. destruct (init_internal_ok t1 A1 nr Hp1 Hf1) as (t2 & -> & Hp2). cbn [and_then left_page right_page separator_key].
  pose proof (ph_cells _ _ Hp _ _ Hc) as [Hrp _]. pose proof (ph_bound _ _ Hp) as Hbd. assert (page_number p) as Hpp by (unfold page_number in *; lia).
  assert (a_cells A1 !! p = Some (CLeaf next prev es)) as Hc1 by (apply (kp_cells _ _ _ Hk1); [apply not_elem_of_nil|done|done]).
  assert (nr ≠ p) as Hne. { intros ->. destruct Hf1 as (_ & _ & Hf1). by apply (Hf1 _ Hc1). }
  destruct (edit_used t2 _ nr (λ buf, put64 buf 8 p) _ (CInternal p []) Hp2 (put_lookup _ _ _) I) as (t3 & -> & Hp3).
  { intros buf (Hi & _) _. destruct (internal_set_leftmost _ _ _ p Hi) as (b & Hb & Hi'). exists b. split; [done|]. split; [by eapply internal_page_length|done]. }
  cbn [and_then]. rewrite put_put in Hp3.
  destruct (internal_insert_ok t3 _ nr p [] key r Hp3 (put_lookup _ _ _) I) as (t4 & -> & Hp4); [|done|].
  { unfold internal_fits. change (length (@nil sep)) with 0. change (seps_used []) with 0. unfold MAX_ENTRY in Hlk. page_lia. }
  cbn [and_then]. rewrite put_put in Hp4. change (insert_at (n_upto key []) (key, r) []) with [(key, r)] in Hp4.
  destruct (edit_used t4 _ nr set_flag_root _ (CInternal p [(key, r)]) Hp4 (put_lookup _ _ _) I) as (t5 & -> & Hp5).
  { intros buf (Hi & Hn) Hl. destruct (set_flag_spec buf Hl) as (b & Hb & S). exists b. split; [done|]. split; [by rewrite (so_length _ _ _ _ S)|].
    split; [by eapply internal_flag|done]. }
  cbn [and_then]. rewrite put_put in Hp5.
  destruct (edit_used t5 _ p clear_flag_root (CLeaf next prev es) (CLeaf next prev es) Hp5) as (t6 & -> & Hp6); [by rewrite put_lookup_ne|done| |].
  { intros buf (Hl & H1 & H2) Hlen. destruct (clear_flag_spec buf Hlen) as (b & Hb & S). exists b. split; [done|]. split; [by rewrite (so_length _ _ _ _ S)|].
    split; [by eapply leaf_flag|done]. }
  cbn [and_then]. rewrite put_same in Hp6 by (by rewrite put_lookup_ne).
  destruct (set_root_ok t6 _ nr Hp6) as (t7 & -> & Hp7); [simpl; apply Hf1|].
  eexists t7, nr, _. split; [done|]. split; [exact Hp7|]. destruct Hs1. constructor; simpl; try done.
  - split; [apply Hf1|]. intros c Hu Hcc. destruct Hf1 as (_ & _ & Hf1). apply (Hf1 c); [|done]. apply (kp_cells _ _ _ Hk1); [apply not_elem_of_nil|done|done].
  - apply put_lookup.
  - destruct (keeps_put_fresh nr (CInternal p [(key, r)]) A1 Hf1) as [P2 C2 K2]. destruct Hk1 as [P1 C1 K1]. constructor; simpl; [done|done|].
    intros q c Hq Hu Hcc. apply K2; [done|done|]. by apply K1.
Qed.
