(* ===== verification/BPlusShape.v ===== *)
(** * The tree a file holds

    A ghost [tree] of page numbers and leaf entries, and its leaves in order,
    each with the key its range starts at ([flat]).  A [frame] is an internal
    page with a hole; a descent is a stack of frames, and what a write does to
    one leaf is done inside them ([plug]). *)
From stdpp Require Import base numbers option gmap list.
From S2P Require Import Prelude Bytes BinarySearch Order BTreeMap Mmap Backend BPlusPages BPlusNodes BPlusCells BPlusStore.
Import Pages Nodes.

Inductive tree := Leaf (p : nat) (es : list entry) | Node (p : nat) (c : tree) (cs : list (list Z * tree)).
Abbreviation fenced := (list Z * (nat * list entry))%type.
Implicit Types (p q n next prev : nat) (k key lo s f : list Z) (e : entry) (es : list entry) (T : tree) (cs : list (list Z * tree)) (l : list fenced).

Definition page_of T : nat := match T with Leaf p _ => p | Node p _ _ => p end.
Fixpoint flat lo T : list fenced :=
  match T with
  | Leaf p es => [(lo, (p, es))]
  | Node _ c cs => flat lo c ++ concat (map (λ st, flat st.1 st.2) cs)
  end.
Definition forest cs : list fenced := concat (map (λ st, flat st.1 st.2) cs).
Definition seps cs : list sep := map (λ st, (st.1, page_of st.2)) cs.
(** The internal pages: number, leftmost child and separators. *)
Abbreviation node := (nat * (nat * list sep))%type.
Fixpoint nodes T : list node :=
  match T with
  | Leaf _ _ => []
  | Node p c cs => (p, (page_of c, seps cs)) :: nodes c ++ concat (map (λ st, nodes st.2) cs)
  end.
Definition side_nodes cs : list node := concat (map (λ st, nodes st.2) cs).

(** ** Keys against fences *)
Definition upto f k : Prop := cmp k f ≠ Lt.
Lemma upto_ltb f k : (k <? f) = false ↔ upto f k.
Proof. unfold upto. pose proof (ltb_lt k f) as Hl. destruct (k <? f); split; intros H; try done; [by destruct H; apply Hl|]. intros Hc. by apply Hl in Hc. Qed.
Lemma upto_cases f k : upto f k ↔ f = k ∨ cmp f k = Lt.
Proof.
  unfold upto. destruct (cmpP k f) as [->|E E'|E E'].
  - split; [by left|done].
  - split; [done|]. intros [->|Hl]; [by rewrite cmp_refl in E|]. ord.
  - split; [by right|done].
Qed.
Lemma upto_refl f : upto f f.
Proof. apply upto_cases. by left. Qed.
Lemma lt_upto f k : cmp f k = Lt → upto f k.
Proof. intros. apply upto_cases. by right. Qed.
Lemma upto_lt f k s : upto f k → cmp k s = Lt → cmp f s = Lt.
Proof. intros [->|Hf]%upto_cases Hl; [done|]. ord. Qed.
Lemma lt_of_upto s f k : cmp s f = Lt → upto f k → cmp s k = Lt.
Proof. intros Hl [->|Hf]%upto_cases; [done|]. ord. Qed.
Lemma upto_trans f k s : upto f k → upto k s → upto f s.
Proof. intros [->|Hf]%upto_cases Hk; [done|]. apply lt_upto. by eapply lt_of_upto. Qed.
Lemma nil_upto k : upto [] k.
Proof. apply upto_cases. destruct k; [by left|by right]. Qed.

(** ** The ranges of the leaves *)
Fixpoint ranged l : Prop :=
  match l with
  | [] => True
  | (f, (_, es)) :: l => bt_wf es ∧ Forall (λ e, upto f e.1) es ∧ Forall (λ x, Forall (λ e, cmp e.1 x.1 = Lt) es) l ∧ ranged l
  end.
Definition contents l : list entry := concat (map (λ x, x.2.2) l).
Definition below_all (l1 l2 : list fenced) : Prop := ∀ x y, x ∈ l1 → y ∈ l2 → cmp x.1 y.1 = Lt ∧ Forall (λ e, cmp e.1 y.1 = Lt) x.2.2.
Definition in_order l : Prop := bt_wf l ∧ ranged l.
Lemma entries_app l1 l2 : contents (l1 ++ l2) = contents l1 ++ contents l2.
Proof. unfold contents. by rewrite map_app, concat_app. Qed.
Lemma contents_one f p es : contents [(f, (p, es))] = es.
Proof. unfold contents. simpl. apply app_nil_r. Qed.
Lemma elem_contents e l : e ∈ contents l ↔ ∃ x, x ∈ l ∧ e ∈ x.2.2.
Proof.
  unfold contents. induction l as [|y l IH]; simpl; [split; [by intros ?%not_elem_of_nil|by intros (x & ?%not_elem_of_nil & _)]|].
  rewrite elem_of_app, IH. setoid_rewrite elem_of_cons. naive_solver.
Qed.
Lemma ranged_app l1 l2 : ranged (l1 ++ l2) ↔ ranged l1 ∧ ranged l2 ∧ ∀ x y, x ∈ l1 → y ∈ l2 → Forall (λ e, cmp e.1 y.1 = Lt) x.2.2.
Proof.
  induction l1 as [|[f [p es]] l1 IH]; simpl.
  - split; [|tauto]. intros Hr. split_and!; [done..|]. by intros x y ?%not_elem_of_nil.
  - rewrite IH, Forall_app. setoid_rewrite elem_of_cons. split.
    + intros (H1 & H2 & [H3 H4] & H5 & H6 & H7). split_and!; try done. intros x y [->|Hx] Hy; [|by apply H7].
      simpl. rewrite Forall_forall in H4. by apply H4.
    + intros ((H1 & H2 & H3 & H4) & H5 & H6). split_and!; try done.
      * apply Forall_forall. intros y Hy. apply (H6 (f, (p, es)) y); [by left|done].
      * intros x y Hx Hy. apply H6; [by right|done].
Qed.
Lemma in_order_app l1 l2 : in_order (l1 ++ l2) ↔ in_order l1 ∧ in_order l2 ∧ below_all l1 l2.
Proof.
  unfold in_order, below_all. rewrite ranged_app, wf_app. split.
  - intros ((W1 & W2 & W3) & R1 & R2 & R3). split_and!; try done. intros x y Hx Hy. split; [by apply W3|by apply (R3 x y)].
  - intros ((W1 & R1) & (W2 & R2) & HX). split_and!; try done; intros x y Hx Hy; by apply (HX x y).
Qed.
Lemma in_order_one f p es : in_order [(f, (p, es))] ↔ bt_wf es ∧ Forall (λ e, upto f e.1) es.
Proof. unfold in_order. simpl. split; [tauto|]. intros [? ?]. by repeat constructor. Qed.
Lemma ranged_elem l x : ranged l → x ∈ l → bt_wf x.2.2 ∧ Forall (λ e, upto x.1 e.1) x.2.2.
Proof.
  induction l as [|[f [p es]] l IH]; simpl; [by intros _ ?%not_elem_of_nil|]. intros (H1 & H2 & _ & H3) [->|Hx]%elem_of_cons; [done|by apply IH].
Qed.
Lemma contents_wf l : in_order l → bt_wf (contents l).
Proof.
  induction l as [|[f [p es]] l IH]; [done|]. intros Ho. change ((f, (p, es)) :: l) with ([(f, (p, es))] ++ l) in *.
  apply in_order_app in Ho as ([_ H1] & H2 & HX). rewrite entries_app, contents_one. apply wf_app. destruct H1 as (H1 & _). split_and!; [done|by apply IH|].
  intros a b Ha (y & Hy & Hb)%elem_contents. destruct (HX (f, (p, es)) y (list_elem_of_here _ _) Hy) as [_ HF]. simpl in HF.
  rewrite Forall_forall in HF. specialize (HF a Ha). destruct H2 as [_ Hr]. destruct (ranged_elem _ _ Hr Hy) as [_ Hf].
  rewrite Forall_forall in Hf. by eapply lt_of_upto; [apply HF|apply Hf].
Qed.
(** A key in the range of a leaf is above all before and below all behind. *)
Lemma around l1 f p es l2 k : in_order (l1 ++ (f, (p, es)) :: l2) → upto f k → Forall (λ y, cmp k y.1 = Lt) l2 →
  under k (contents l1) ∧ over k (contents l2).
Proof.
  intros Ho Hf Hs. apply in_order_app in Ho as (H1 & H2 & HX). change ((f, (p, es)) :: l2) with ([(f, (p, es))] ++ l2) in H2.
  apply in_order_app in H2 as (_ & [_ H2] & _). split; apply Forall_forall; intros e (x & Hx & He)%elem_contents.
  - destruct (HX x (f, (p, es)) Hx (list_elem_of_here _ _)) as [_ HF]. rewrite Forall_forall in HF. by eapply lt_of_upto; [apply HF|].
  - destruct (ranged_elem _ _ H2 Hx) as [_ HF]. rewrite Forall_forall in HF. rewrite Forall_forall in Hs. by eapply lt_of_upto; [apply Hs|apply HF].
Qed.

(** ** The first fence of a tree *)
Lemma flat_head lo T : ∃ x l, flat lo T = (lo, x) :: l.
Proof. revert lo. induction T as [p es|p c IH cs]; intros lo; simpl; [by eexists _, _|]. destruct (IH lo) as (x & l & ->). by eexists _, _. Qed.
Lemma flat_above lo T : bt_wf (flat lo T) → ∀ x, x ∈ flat lo T → upto lo x.1.
Proof.
  intros Hw x Hx. destruct (flat_head lo T) as (y & l & E). rewrite E in *. apply elem_of_cons in Hx as [->|Hx]; [apply upto_refl|].
  destruct Hw as [HF _]. rewrite Forall_forall in HF. apply lt_upto. by apply HF.
Qed.
Lemma flat_self lo T : ∃ x, (lo, x) ∈ flat lo T.
Proof. destruct (flat_head lo T) as (x & l & ->). exists x. left. Qed.
Lemma forest_cons st cs : forest (st :: cs) = flat st.1 st.2 ++ forest cs.
Proof. done. Qed.
Lemma forest_app cs1 cs2 : forest (cs1 ++ cs2) = forest cs1 ++ forest cs2.
Proof. unfold forest. by rewrite map_app, concat_app. Qed.
Lemma seps_elem {B} (g : tree → B) cs s : s ∈ map fst (map (λ st, (st.1, g st.2)) cs) → ∃ x, (s, x) ∈ forest cs.
Proof.
  induction cs as [|[s' T] cs IH]; simpl; [by intros ?%not_elem_of_nil|]. intros [->|Hs]%elem_of_cons.
  - destruct (flat_self s' T) as (x & Hx). exists x. rewrite forest_cons. apply elem_of_app. by left.
  - destruct (IH Hs) as (x & Hx). exists x. rewrite forest_cons. apply elem_of_app. by right.
Qed.
Lemma seps_wf cs : bt_wf (forest cs) → bt_wf (seps cs).
Proof.
  induction cs as [|[s T] cs IH]; [done|]. rewrite forest_cons. intros (H1 & H2 & HX)%wf_app. split; [|by apply IH].
  apply Forall_forall. intros [s' c] Hs. destruct (flat_self s T) as (x & Hx).
  destruct (seps_elem page_of cs s') as (y & Hy); [apply list_elem_of_fmap; by exists (s', c)|]. by apply (HX (s, x) (s', y)).
Qed.

(** ** Frames *)
(** An internal page without one child: the children before it, if it is not
    the leftmost ([fr_fence] is then its separator), and those behind it. *)
Record frame := mkFrame {
  fr_page : nat;
  fr_pre : option (tree * list (list Z * tree));
  fr_fence : list Z;
  fr_post : list (list Z * tree) }.
Implicit Types (F : frame) (C : list frame).
Definition fill F T : tree :=
  match fr_pre F with
  | None => Node (fr_page F) T (fr_post F)
  | Some (c, cs) => Node (fr_page F) c (cs ++ (fr_fence F, T) :: fr_post F)
  end.
Definition plug C T : tree := foldl (λ T F, fill F T) T C.
Fixpoint hole_fence lo C : list Z :=
  match C with
  | [] => lo
  | F :: C => match fr_pre F with None => hole_fence lo C | Some _ => fr_fence F end
  end.
Fixpoint left_of lo C : list fenced :=
  match C with
  | [] => []
  | F :: C => left_of lo C ++ match fr_pre F with None => [] | Some (c, cs) => flat (hole_fence lo C) c ++ forest cs end
  end.
Fixpoint right_of C : list fenced := match C with [] => [] | F :: C => forest (fr_post F) ++ right_of C end.
Lemma flat_fill lo F T : flat lo (fill F T) =
  match fr_pre F with None => [] | Some (c, cs) => flat lo c ++ forest cs end ++
  flat (match fr_pre F with None => lo | Some _ => fr_fence F end) T ++ forest (fr_post F).
Proof.
  unfold fill. destruct (fr_pre F) as [[c cs]|]; simpl; [|done].
  change (concat (map (λ st, flat st.1 st.2) (cs ++ (fr_fence F, T) :: fr_post F))) with (forest (cs ++ (fr_fence F, T) :: fr_post F)).
  by rewrite forest_app, forest_cons, app_assoc.
Qed.
Lemma flat_plug lo C T : flat lo (plug C T) = left_of lo C ++ flat (hole_fence lo C) T ++ right_of C.
Proof.
  revert T. induction C as [|F C IH]; intros T; simpl; [by rewrite app_nil_r|]. rewrite IH, flat_fill. by rewrite <- !app_assoc.
Qed.
Lemma plug_app C C' T : plug (C ++ C') T = plug C' (plug C T).
Proof. apply foldl_app. Qed.
Lemma hole_fence_app lo C C' : hole_fence lo (C ++ C') = hole_fence (hole_fence lo C') C.
Proof. induction C as [|F C IH]; simpl; [done|]. by rewrite IH. Qed.
Lemma right_of_app C C' : right_of (C ++ C') = right_of C ++ right_of C'.
Proof. induction C as [|F C IH]; simpl; [done|]. by rewrite IH, app_assoc. Qed.

Definition frame_node F q : node :=
  (fr_page F, match fr_pre F with
              | None => (q, seps (fr_post F))
              | Some (c, cs) => (page_of c, seps cs ++ (fr_fence F, q) :: seps (fr_post F))
              end).
Definition frame_sides F : list node :=
  match fr_pre F with None => [] | Some (c, cs) => nodes c ++ side_nodes cs end ++ side_nodes (fr_post F).
Fixpoint ctx_nodes C q : list node :=
  match C with [] => [] | F :: C => frame_node F q :: frame_sides F ++ ctx_nodes C (fr_page F) end.
Lemma page_fill F T : page_of (fill F T) = fr_page F.
Proof. unfold fill. by destruct (fr_pre F) as [[c cs]|]. Qed.
Lemma page_plug C T T' : page_of T = page_of T' → page_of (plug C T) = page_of (plug C T').
Proof. revert T T'. induction C as [|F C IH]; intros T T' E; simpl; [done|]. apply IH. by rewrite !page_fill. Qed.
Lemma side_nodes_app cs1 cs2 : side_nodes (cs1 ++ cs2) = side_nodes cs1 ++ side_nodes cs2.
Proof. unfold side_nodes. by rewrite map_app, concat_app. Qed.
Lemma seps_app cs1 cs2 : seps (cs1 ++ cs2) = seps cs1 ++ seps cs2.
Proof. apply map_app. Qed.
Lemma nodes_fill F T : nodes (fill F T) ≡ₚ nodes T ++ frame_node F (page_of T) :: frame_sides F.
Proof.
  unfold fill, frame_node, frame_sides. destruct (fr_pre F) as [[c cs]|]; simpl.
  - change (concat (map (λ st, nodes st.2) (cs ++ (fr_fence F, T) :: fr_post F))) with (side_nodes (cs ++ (fr_fence F, T) :: fr_post F)).
    rewrite side_nodes_app, seps_app. change (seps ((fr_fence F, T) :: fr_post F)) with ((fr_fence F, page_of T) :: seps (fr_post F)).
    change (side_nodes ((fr_fence F, T) :: fr_post F)) with (nodes T ++ side_nodes (fr_post F)). solve_Permutation.
  - change (concat (map (λ st, nodes st.2) (fr_post F))) with (side_nodes (fr_post F)). solve_Permutation.
Qed.
Lemma nodes_plug C T : nodes (plug C T) ≡ₚ nodes T ++ ctx_nodes C (page_of T).
Proof.
  revert T. induction C as [|F C IH]; intros T; simpl; [by rewrite app_nil_r|]. rewrite IH, nodes_fill, page_fill, <- app_assoc. done.
Qed.

(** ** Choosing a child *)
Lemma pick_child k c cs : bt_wf (seps cs) → (Forall (λ st, cmp k st.1 = Lt) cs ∧ pick k (page_of c) (seps cs) = page_of c) ∨
  ∃ cs1 s T cs2, cs = cs1 ++ (s, T) :: cs2 ∧ upto s k ∧ Forall (λ st, cmp k st.1 = Lt) cs2 ∧ pick k (page_of c) (seps cs) = page_of T.
Proof.
  intros Hw. revert c Hw. induction cs as [|[s T] cs IH]; intros c Hw; simpl; [by left|]. destruct Hw as [HF Hw].
  destruct (k <? s) eqn:E.
  - left. split; [|done]. apply ltb_lt in E. constructor; [done|]. apply Forall_forall. intros [s' T'] Hin. simpl.
    rewrite Forall_forall in HF. specialize (HF (s', page_of T')). simpl in HF. assert (cmp s s' = Lt) as Hs.
    { apply HF. unfold seps. apply list_elem_of_fmap. by exists (s', T'). }
    ord.
  - right. apply upto_ltb in E. destruct (IH T Hw) as [[HF' Hp]|(cs1 & s' & T' & cs2 & -> & Hs & HF' & Hp)].
    + exists [], s, T, cs. by split_and!.
    + exists ((s, T) :: cs1), s', T', cs2. by split_and!.
Qed.
Lemma above_seps k cs : bt_wf (forest cs) → Forall (λ st, cmp k st.1 = Lt) cs → ∀ x, x ∈ forest cs → cmp k x.1 = Lt.
Proof.
  induction cs as [|[s T] cs IH]; [by intros _ _ x ?%not_elem_of_nil|]. rewrite forest_cons. intros (H1 & H2 & _)%wf_app [Hs HF]%Forall_cons x.
  intros [Hx|Hx]%elem_of_app; [|by apply IH]. eapply lt_of_upto; [exact Hs|]. by apply (flat_above s T).
Qed.
