(* ===== verification/BPlusTree.v ===== *)
(** * A file that holds a tree, and descents in it

    [tree_in A T]: the pages of [A] are those of [T], its leaves linked both
    ways in order, its entries inside the ranges of their leaves, its values
    where the entries say.  A descent ends in the leaf whose range has the key
    ([descend_ok]), and gives the stack of pages above it. *)
From stdpp Require Import base numbers option gmap list.
From S2P Require Import Prelude Bytes BinarySearch Order BTreeMap Mmap Backend BPlusPages BPlusNodes BPlusBytes BPlusSlots BPlusCells BPlusPageOps BPlusStore BPlusAlloc BPlusLeaf BPlusShape.
Import Pages Nodes.
Implicit Types (t : BPlusTree) (A : Abs) (p q n next prev nxt : nat) (k key lo s f : list Z) (e : entry) (es : list entry) (T : tree)
  (l : list fenced) (cells : gmap nat cell) (C : list frame) (path : DescentPath).

(** ** The chain of leaves *)
Definition first_page l (d : nat) : nat := match l with [] => d | x :: _ => x.2.1 end.
Definition last_page l (d : nat) : nat := match last l with Some x => x.2.1 | None => d end.
Fixpoint chain cells prev l nxt : Prop :=
  match l with
  | [] => True
  | (_, (p, es)) :: l => cells !! p = Some (CLeaf (first_page l nxt) prev es) ∧ chain cells p l nxt
  end.
Definition pages_in l : list nat := map (λ x, x.2.1) l.
Lemma first_page_app l1 l2 d : first_page (l1 ++ l2) d = first_page l1 (first_page l2 d).
Proof. by destruct l1. Qed.
Lemma last_page_cons x l d : last_page (x :: l) d = last_page l x.2.1.
Proof. unfold last_page. rewrite last_cons. by destruct (last l). Qed.
Lemma last_page_app l1 l2 d : last_page (l1 ++ l2) d = last_page l2 (last_page l1 d).
Proof. revert d. induction l1 as [|x l1 IH]; intros d; [done|]. by rewrite <- app_comm_cons, !last_page_cons, IH. Qed.
Lemma chain_app cells prev l1 l2 nxt : chain cells prev (l1 ++ l2) nxt ↔
  chain cells prev l1 (first_page l2 nxt) ∧ chain cells (last_page l1 prev) l2 nxt.
Proof.
  revert prev. induction l1 as [|[f [p es]] l1 IH]; intros prev; [simpl; tauto|]. rewrite <- app_comm_cons. cbn [chain].
  rewrite first_page_app, IH, last_page_cons. simpl. tauto.
Qed.
Lemma chain_frame cells cells' prev l nxt : (∀ p es next prev, p ∈ pages_in l → cells !! p = Some (CLeaf next prev es) → cells' !! p = Some (CLeaf next prev es)) →
  chain cells prev l nxt → chain cells' prev l nxt.
Proof.
  revert prev. induction l as [|[f [p es]] l IH]; intros prev Hf; [done|]. cbn [chain]. intros [Hc Hl]. split; [apply Hf; [left|done]|].
  apply IH; [|done]. intros q es' n' p' Hq. apply Hf. by right.
Qed.
Lemma chain_elem cells prev l nxt x : chain cells prev l nxt → x ∈ l → ∃ next pr, cells !! x.2.1 = Some (CLeaf next pr x.2.2).
Proof.
  revert prev. induction l as [|[f [p es]] l IH]; intros prev; [by intros _ ?%not_elem_of_nil|]. cbn [chain]. intros [Hc Hl] [->|Hx]%elem_of_cons; [by eexists _, _|by eapply IH].
Qed.
Lemma pages_in_app l1 l2 : pages_in (l1 ++ l2) = pages_in l1 ++ pages_in l2.
Proof. apply map_app. Qed.

(** ** The invariant *)
Definition nodes_in cells (ns : list node) : Prop := Forall (λ n : node, cells !! n.1 = Some (CInternal n.2.1 n.2.2)) ns.
Definition tree_pages T : list nat := map fst (nodes T) ++ pages_in (flat [] T).
Record tree_in A T : Prop := {
  ti_root : a_root A = page_of T;
  ti_right : a_right A = last_page (flat [] T) 0;
  ti_nodes : nodes_in (a_cells A) (nodes T);
  ti_chain : chain (a_cells A) 0 (flat [] T) 0;
  ti_pages : NoDup (tree_pages T);
  ti_order : in_order (flat [] T);
  ti_values : Forall (holds_value (a_cells A)) (contents (flat [] T));
  ti_count : a_count A = Z.of_nat (length (contents (flat [] T))) }.
(** What it stores: the entries in key order. *)
Definition stored T : btree (list Z) (list Z) := on_values stored_value (contents (flat [] T)).
Lemma stored_wf A T : tree_in A T → bt_wf (stored T).
Proof. intros Ht. apply values_wf, contents_wf, Ht. Qed.
Lemma nodup_bound (l : list nat) n : NoDup l → (∀ x, x ∈ l → x < n) → length l ≤ n.
Proof.
  intros Hnd Hb. rewrite <- (length_seq n 0). apply submseteq_length. apply NoDup_submseteq; [done|].
  intros x Hx. apply elem_of_seq. specialize (Hb x Hx). lia.
Qed.
Lemma tree_page_bound t A T p : phys t A → tree_in A T → p ∈ tree_pages T → 0 < p < a_pages A.
Proof.
  intros Hp Ht [Hin|Hin]%elem_of_app.
  - apply list_elem_of_fmap in Hin as (n & -> & Hn). pose proof (ti_nodes _ _ Ht) as HF. unfold nodes_in in HF. rewrite Forall_forall in HF.
    specialize (HF n Hn). by apply (ph_cells _ _ Hp) in HF as [? _].
  - apply list_elem_of_fmap in Hin as (x & -> & Hx). destruct (chain_elem _ _ _ _ _ (ti_chain _ _ Ht) Hx) as (nx & pr & Hc).
    by apply (ph_cells _ _ Hp) in Hc as [? _].
Qed.
Lemma tree_pages_count t A T : phys t A → tree_in A T → length (tree_pages T) < a_pages A.
Proof.
  intros Hp Ht. pose proof (ph_two _ _ Hp). assert (length (map pred (tree_pages T)) ≤ a_pages A - 1) as Hl; [|rewrite length_map in Hl; lia].
  apply nodup_bound.
  - apply NoDup_fmap_2_strong; [|apply Ht]. intros x y Hx Hy E. apply (tree_page_bound _ _ _ _ Hp Ht) in Hx, Hy. lia.
  - intros x (y & -> & Hy)%list_elem_of_fmap. apply (tree_page_bound _ _ _ _ Hp Ht) in Hy. lia.
Qed.

(** ** The descent path *)
Definition path_pages path : list nat := overflow path ++ rev (take (dp_len path) (inline path)).
Definition path_ok path : Prop := length (inline path) = DESCENT_PATH_INLINE ∧ dp_len path ≤ DESCENT_PATH_INLINE ∧
  (overflow path ≠ [] → dp_len path = DESCENT_PATH_INLINE).
Lemma path_new_ok : path_ok path_new ∧ path_pages path_new = [].
Proof. split; [|done]. split; [done|]. split; [simpl; unfold DESCENT_PATH_INLINE; lia|done]. Qed.
Lemma path_push_ok p path : path_ok path → path_ok (path_push p path) ∧ path_pages (path_push p path) = p :: path_pages path.
Proof.
  intros (Hl & Hd & Ho). unfold path_push. destruct (Nat.ltb_spec (dp_len path) DESCENT_PATH_INLINE) as [Hlt|Hge].
  - assert (overflow path = []) as Hov. { destruct (overflow path); [done|]. rewrite Ho in Hlt by done. lia. }
    split; [split; simpl; [by rewrite length_insert|]; split; [lia|by rewrite Hov]|]. unfold path_pages. simpl. rewrite Hov. simpl.
    rewrite Nat.add_1_r, (take_S_r _ _ p) by (apply list_lookup_insert_eq; lia). rewrite take_insert_ge by lia. by rewrite rev_app_distr.
  - split; [|done]. split; [done|]. split; [done|]. simpl. intros _. lia.
Qed.
Lemma path_next_ok path : path_ok path → match path_pages path with
  | [] => path_next path = None
  | p :: ps => ∃ path', path_next path = Some (p, path') ∧ path_ok path' ∧ path_pages path' = ps
  end.
Proof.
  intros (Hl & Hd & Ho). unfold path_pages, path_next. destruct (overflow path) as [|p ov] eqn:E; simpl.
  - destruct (dp_len path) as [|n] eqn:En; [done|]. destruct (inline path !! n) as [p|] eqn:Ei; [|apply lookup_ge_None in Ei; lia].
    rewrite (take_S_r _ _ _ Ei), rev_app_distr. simpl. eexists. split; [done|]. split; [|done]. split; [done|]. split; [simpl; lia|done].
  - eexists. split; [done|]. split; [|done]. split; [done|]. split; [simpl; lia|]. simpl. intros _. by apply Ho.
Qed.
Definition path_of C path : DescentPath := foldr (λ F d, path_push (fr_page F) d) path C.
Lemma path_of_ok C path : path_ok path → path_ok (path_of C path) ∧ path_pages (path_of C path) = map fr_page C ++ path_pages path.
Proof.
  intros Hp. induction C as [|F C [IH1 IH2]]; simpl; [done|]. destruct (path_push_ok (fr_page F) _ IH1) as [H1 H2]. split; [done|]. by rewrite H2, IH2.
Qed.

(** ** Descents *)
Lemma page_is t A p c : phys t A → a_cells A !! p = Some c → ∃ buf, page_bytes t p = Ok buf ∧ cell_at buf c.
Proof. apply page_lookup. Qed.
Lemma internal_search_ok t A p leftmost cs key : phys t A → a_cells A !! p = Some (CInternal leftmost cs) → bt_wf cs →
  internal_search t p key = Ok (pick key leftmost cs).
Proof.
  intros Hp Hc Hw. destruct (page_is _ _ _ _ Hp Hc) as (buf & Hb & Hi & Hn). unfold internal_search. rewrite Hb. cbn [rbind].
  rewrite (internal_count _ _ _ Hi). cbn [rbind]. rewrite (field64 _ _ _ (ip_leftmost _ _ _ Hi) Hn). cbn [rbind].
  rewrite (separators_upto_spec _ _ _ _ Hi Hw). cbn [rbind]. rewrite pick_upto. pose proof (n_upto_bound key cs) as Hub.
  destruct (n_upto key cs) as [|m]; [done|]. cbn [Nat.eqb]. replace (S m - 1) with m by lia.
  destruct (cs !! m) as [[s c]|] eqn:E; [|apply lookup_ge_None in E; lia].
  destruct (internal_slot _ _ _ Hi _ _ _ E) as (o & -> & _ & Hg). cbn [rbind]. exact Hg.
Qed.
Definition leaves_in cells l : Prop := ∀ x, x ∈ l → ∃ next prev, cells !! x.2.1 = Some (CLeaf next prev x.2.2).
Lemma descend_ok t A key : phys t A → ∀ fuel T lo path, nodes_in (a_cells A) (nodes T) → leaves_in (a_cells A) (flat lo T) →
  bt_wf (flat lo T) → upto lo key → length (nodes T) < fuel → ∃ C p es, T = plug C (Leaf p es) ∧ upto (hole_fence lo C) key ∧
  Forall (λ x, cmp key x.1 = Lt) (right_of C) ∧ descend fuel t (page_of T) path key = Ok (p, path_of C path).
Proof.
  intros Hp. induction fuel as [|fuel IH]; intros T lo path Hn Hl Hw Hlo Hf; [lia|]. cbn [descend]. destruct T as [p es|p c cs].
  - destruct (Hl (lo, (p, es)) (list_elem_of_here _ _)) as (nx & pr & Hc). cbn [fst snd] in Hc. destruct (page_is _ _ _ _ Hp Hc) as (buf & Hb & Hleaf & _).
    cbn [page_of]. rewrite Hb. cbn [rbind]. rewrite (leaf_page_type _ _ _ _ Hleaf). cbn [rbind]. rewrite Z.eqb_refl.
    exists [], p, es. by split_and!.
  - cbn [nodes] in Hn. apply Forall_cons in Hn as [Hc Hn]. apply Forall_app in Hn as [Hnc Hns]. cbn [fst snd] in Hc.
    cbn [flat] in Hl, Hw. fold (forest cs) in Hl, Hw. fold (side_nodes cs) in Hns. apply wf_app in Hw as (Hwc & Hws & HX).
    destruct (page_is _ _ _ _ Hp Hc) as (buf & Hb & Hi & _). cbn [page_of]. rewrite Hb. cbn [rbind].
    rewrite (internal_page_type _ _ _ Hi). cbn [rbind]. change (PAGE_INTERNAL =? PAGE_LEAF)%Z with false. cbn iota.
    rewrite (internal_search_ok _ _ _ _ _ key Hp Hc (seps_wf _ Hws)). cbn [rbind]. cbn [nodes length] in Hf. rewrite length_app in Hf.
    destruct (pick_child key c cs (seps_wf _ Hws)) as [[HF ->]|(cs1 & s & T & cs2 & -> & Hs & HF & ->)].
    + destruct (IH c lo (path_push p path) Hnc) as (C & q & es & -> & Hfe & Hr & Hd); [intros x Hx; apply Hl, elem_of_app; by left|done|done|lia|].
      exists (C ++ [mkFrame p None [] cs]), q, es. split; [by rewrite plug_app|]. rewrite hole_fence_app, right_of_app. split; [done|].
      split; [|rewrite Hd; unfold path_of; by rewrite foldr_app]. apply Forall_app. split; [done|]. cbn [right_of fr_post]. rewrite app_nil_r.
      apply Forall_forall. intros x Hx. apply (above_seps key cs); done.
    + rewrite forest_app, forest_cons in Hl, Hws. cbn [fst snd] in Hl, Hws. apply wf_app in Hws as (_ & Hws & _). apply wf_app in Hws as (HwT & Hws & _).
      fold (side_nodes (cs1 ++ (s, T) :: cs2)) in Hf. rewrite side_nodes_app in Hf, Hns. apply Forall_app in Hns as [_ Hns].
      change (side_nodes ((s, T) :: cs2)) with (nodes T ++ side_nodes cs2) in Hf, Hns. apply Forall_app in Hns as [HnT _]. rewrite !length_app in Hf.
      destruct (IH T s (path_push p path) HnT) as (C & q & es & -> & Hfe & Hr & Hd);
        [intros x Hx; apply Hl; rewrite !elem_of_app; tauto|done|done|lia|].
      exists (C ++ [mkFrame p (Some (c, cs1)) s cs2]), q, es. split; [by rewrite plug_app|]. rewrite hole_fence_app, right_of_app. split; [done|].
      split; [|rewrite Hd; unfold path_of; by rewrite foldr_app]. apply Forall_app. split; [done|]. cbn [right_of fr_post]. rewrite app_nil_r.
      apply Forall_forall. intros x Hx. apply (above_seps key cs2); done.
Qed.

Lemma find_leaf_descend t key : ∀ fuel p path, find_leaf_from fuel t p key = rmap fst (descend fuel t p path key).
Proof.
  induction fuel as [|fuel IH]; intros p path; [done|]. cbn [find_leaf_from descend]. destruct (page_bytes t p) as [buf|e|]; cbn [rbind]; [|done..].
  destruct (page_type buf) as [ty|e|]; cbn [rbind]; [|done..]. destruct (ty =? PAGE_LEAF)%Z; [done|].
  destruct (internal_search t p key) as [c|e|]; cbn [rbind]; [|done..]. apply IH.
Qed.
Lemma tree_leaves A T : tree_in A T → leaves_in (a_cells A) (flat [] T).
Proof. intros Ht x Hx. by apply (chain_elem _ _ _ _ _ (ti_chain _ _ Ht)). Qed.
Lemma tree_fuel t A T : phys t A → tree_in A T → length (nodes T) + length (flat [] T) < fuel_of t.
Proof.
  intros Hp Ht. pose proof (tree_pages_count _ _ _ Hp Ht) as Hl. pose proof (fuel_pages _ _ Hp).
  unfold tree_pages, pages_in in Hl. rewrite length_app, !length_map in Hl. lia.
Qed.

(** ** The leaf of a key *)
(** The stack [C] leads to the leaf [p], in whose range [key] is. *)
Record at_leaf A T key C p es : Prop := {
  al_tree : T = plug C (Leaf p es);
  al_fence : upto (hole_fence [] C) key;
  al_behind : Forall (λ x, cmp key x.1 = Lt) (right_of C) }.
Lemma find_leaf_ok t A T key : phys t A → tree_in A T → ∃ C p es, at_leaf A T key C p es ∧
  find_leaf t (a_root A) key = Ok p ∧ descend (fuel_of t) t (a_root A) path_new key = Ok (p, path_of C path_new).
Proof.
  intros Hp Ht. pose proof (tree_fuel _ _ _ Hp Ht) as Hf.
  destruct (descend_ok t A key Hp (fuel_of t) T [] path_new (ti_nodes _ _ Ht) (tree_leaves _ _ Ht) (proj1 (ti_order _ _ Ht)) (nil_upto _) ltac:(lia))
    as (C & p & es & HT & Hfe & Hr & Hd). exists C, p, es. rewrite (ti_root _ _ Ht). split; [by constructor|]. split; [|done].
  unfold find_leaf. by rewrite (find_leaf_descend _ _ _ _ path_new), Hd.
Qed.
Section AtLeaf.
Context A T key C p es (Ht : tree_in A T) (Hl : at_leaf A T key C p es).
Lemma at_flat : flat [] T = left_of [] C ++ (hole_fence [] C, (p, es)) :: right_of C.
Proof using Hl. rewrite (al_tree _ _ _ _ _ _ Hl), flat_plug. done. Qed.
Lemma at_contents : contents (flat [] T) = contents (left_of [] C) ++ es ++ contents (right_of C).
Proof using Hl. rewrite at_flat, entries_app. unfold contents at 2. simpl. done. Qed.
Lemma at_around : under key (contents (left_of [] C)) ∧ over key (contents (right_of C)).
Proof using Hl Ht. pose proof (ti_order _ _ Ht) as Ho. rewrite at_flat in Ho. eapply around; [exact Ho|apply Hl|apply Hl]. Qed.
Lemma at_wf : bt_wf es.
Proof using Hl Ht.
  pose proof (contents_wf _ (ti_order _ _ Ht)) as Hw. rewrite at_contents in Hw. apply wf_app in Hw as (_ & Hw & _). by apply wf_app in Hw as (Hw & _).
Qed.
Lemma at_cell : a_cells A !! p = Some (CLeaf (first_page (right_of C) 0) (last_page (left_of [] C) 0) es).
Proof using Hl Ht. pose proof (ti_chain _ _ Ht) as Hc. rewrite at_flat in Hc. apply chain_app in Hc as [_ Hc]. apply Hc. Qed.
Lemma at_holds : Forall (holds_value (a_cells A)) es.
Proof using Hl Ht. pose proof (ti_values _ _ Ht) as HF. rewrite at_contents, !Forall_app in HF. tauto. Qed.
Lemma at_get : bt_get key (contents (flat [] T)) = bt_get key es.
Proof using Hl Ht.
  destruct at_around as [Hu Ho]. rewrite at_contents, get_skip by done.
  destruct (wf_split key es at_wf) as [(X & v & Y & -> & HX & HY)|(X & Y & -> & HX & HY)].
  - rewrite <- app_assoc, <- app_comm_cons. by rewrite !get_here.
  - rewrite <- app_assoc, !get_gap; [done..|]. apply over_app. by split.
Qed.
End AtLeaf.

(** ** The first leaf *)
Lemma first_leaf_from_ok t A : phys t A → ∀ fuel T lo, nodes_in (a_cells A) (nodes T) → leaves_in (a_cells A) (flat lo T) → length (nodes T) < fuel →
  first_leaf_from fuel t (page_of T) = Ok (first_page (flat lo T) 0).
Proof.
  intros Hp. induction fuel as [|fuel IH]; intros T lo Hn Hl Hf; [lia|]. cbn [first_leaf_from]. destruct T as [p es|p c cs].
  - destruct (Hl (lo, (p, es)) (list_elem_of_here _ _)) as (nx & pr & Hc). cbn [fst snd] in Hc. destruct (page_is _ _ _ _ Hp Hc) as (buf & Hb & Hleaf & _).
    cbn [page_of]. rewrite Hb. cbn [rbind]. rewrite (leaf_page_type _ _ _ _ Hleaf). done.
  - cbn [nodes] in Hn. apply Forall_cons in Hn as [Hc Hn]. apply Forall_app in Hn as [Hnc _]. cbn [fst snd] in Hc.
    destruct (page_is _ _ _ _ Hp Hc) as (buf & Hb & Hi & Hpn). cbn [page_of]. rewrite Hb. cbn [rbind]. rewrite (internal_page_type _ _ _ Hi). cbn [rbind].
    change (PAGE_INTERNAL =? PAGE_LEAF)%Z with false. cbn iota. rewrite (field64 _ _ _ (ip_leftmost _ _ _ Hi) Hpn). cbn [rbind].
    cbn [nodes length flat] in *. rewrite length_app in Hf. rewrite (IH c lo Hnc); [|intros x Hx; apply Hl, elem_of_app; by left|lia].
    by destruct (flat_head lo c) as (x & l & ->).
Qed.
Lemma first_leaf_ok t A T : phys t A → tree_in A T → first_leaf t = Ok (first_page (flat [] T) 0).
Proof.
  intros Hp Ht. unfold first_leaf. destruct (meta_page_ok _ _ Hp) as (-> & _). cbn [rbind]. rewrite (ti_root _ _ Ht).
  apply (first_leaf_from_ok t A Hp); [apply Ht|by apply tree_leaves|]. pose proof (tree_fuel _ _ _ Hp Ht). lia.
Qed.
