(* ===== verification/BPlusEdit.v ===== *)
(** * One leaf of a tree changes

    What [tree_in] needs when an entry is put into a leaf or removed, in place
    and with a split: order, chain, values and pages. *)
From stdpp Require Import base numbers option gmap list.
From S2P Require Import Prelude Bytes BinarySearch Order BTreeMap Mmap Backend BPlusPages BPlusNodes BPlusBytes BPlusSlots BPlusCells BPlusPageOps BPlusStore BPlusAlloc BPlusLeaf BPlusSplit BPlusPut BPlusShape BPlusTree.
Import Pages Nodes.
Implicit Types (t : BPlusTree) (A B : Abs) (p q n r next prev : nat) (c : cell) (key k s f sep : list Z) (e : entry) (es X Y L R : list entry) (T : tree)
  (l : list fenced) (C : list frame) (F : frame).

(** ** Separators *)
Lemma separator_from_spec (a : list Z) : ∀ b pre : list Z, cmp a b = Lt → match separator_from pre a b with
  | Some s => ∃ s', s = pre ++ s' ∧ cmp a s' = Lt ∧ upto s' b ∧ length s' ≤ length b
  | None => ∃ y b', b = a ++ y :: b'
  end.
Proof.
  induction a as [|x a IH]; intros [|y b] pre Hlt; simpl; try done; [by exists y, b|].
  unfold cmp, list_cmp in Hlt. simpl in Hlt. unfold then_with in Hlt. destruct (Z.ltb_spec x y) as [Hxy|Hge].
  - exists [y]. split; [done|]. unfold upto, cmp, list_cmp. simpl. rewrite (cmp_refl y). simpl. unfold then_with.
    assert (cmp x y = Lt) as -> by (by apply Z.compare_lt_iff). split; [done|]. split; [by destruct b|simpl; lia].
  - destruct (cmpP x y) as [->|E E'|E E']; [|assert (x < y)%Z by (by apply Z.compare_lt_iff); lia|done]. specialize (IH b (pre ++ [y]) Hlt).
    destruct (separator_from (pre ++ [y]) a b) as [s|].
    + destruct IH as (s' & -> & H1 & H2 & H3). exists (y :: s'). rewrite <- app_assoc. split; [done|]. unfold upto, cmp, list_cmp in *. simpl. rewrite cmp_refl. split; [done|]. split; [done|lia].
    + destruct IH as (z & b' & ->). by exists z, b'.
Qed.
Lemma cmp_append (a b b' : list Z) : cmp (a ++ b) (a ++ b') = cmp b b'.
Proof. induction a as [|x a IH]; [done|]. unfold cmp, list_cmp in *. simpl. by rewrite cmp_refl. Qed.
(** Between the keys it parts. *)
Lemma separator_parts (a b : list Z) : cmp a b = Lt → Forall is_byte b → cmp a (truncated_separator a b) = Lt ∧ upto (truncated_separator a b) b ∧
  length (truncated_separator a b) ≤ length b.
Proof.
  intros Hlt Hb. unfold truncated_separator. pose proof (separator_from_spec a b [] Hlt) as Hs. destruct (separator_from [] a b) as [s|].
  - destruct Hs as (s' & -> & H1 & H2). done.
  - destruct Hs as (y & b' & ->). apply Forall_app in Hb as [_ [Hy _]%Forall_cons]. rewrite !length_app. cbn [length]. split; [|split; [|lia]].
    + rewrite <- (app_nil_r a) at 1. by rewrite cmp_append.
    + unfold upto. rewrite cmp_append. unfold cmp, list_cmp. simpl. unfold then_with, is_byte, is_digit in *.
      destruct (cmpP y 0%Z) as [->|E E'|E E']; [by destruct b'| |done]. assert (y < 0)%Z by (by apply Z.compare_lt_iff). lia.
Qed.

(** ** Order *)
Section Order.
Context l1 f p es l2 k (Ho : in_order (l1 ++ (f, (p, es)) :: l2)) (Hf : upto f k) (Hk : Forall (λ x, cmp k x.1 = Lt) l2).
(** The same keys, perhaps with [k]. *)
Definition keys_from es es' : Prop := ∀ e, e ∈ es' → e.1 = k ∨ ∃ e0, e0 ∈ es ∧ e0.1 = e.1.
Lemma order_leaf es' : bt_wf es' → keys_from es es' → in_order (l1 ++ (f, (p, es')) :: l2).
Proof using Ho Hf Hk.
  intros Hw Hks. apply in_order_app in Ho as (H1 & H2 & H3). change ((f, (p, es)) :: l2) with ([(f, (p, es))] ++ l2) in *.
  apply in_order_app in H2 as (H4 & H5 & H6). apply in_order_one in H4 as [_ HF]. rewrite Forall_forall in HF. rewrite Forall_forall in Hk.
  apply in_order_app. split; [done|]. split.
  - change ((f, (p, es')) :: l2) with ([(f, (p, es'))] ++ l2). apply in_order_app. split; [|split; [done|]].
    + apply in_order_one. split; [done|]. apply Forall_forall. intros e He. destruct (Hks e He) as [->|(e0 & He0 & <-)]; [done|by apply HF].
    + intros x y Hx Hy. apply list_elem_of_singleton in Hx as ->. destruct (H6 (f, (p, es)) y (list_elem_of_here _ _) Hy) as [H7 H8]. split; [done|].
      simpl in *. rewrite Forall_forall in H8. apply Forall_forall. intros e He. destruct (Hks e He) as [->|(e0 & He0 & <-)]; [by apply Hk|by apply H8].
  - intros x y Hx [->|Hy]%elem_of_cons; [by apply (H3 x (f, (p, es))); [|left]|]. apply H3; [done|by right].
Qed.
End Order.
Lemma order_split l1 f p L R r sep l2 a b : in_order (l1 ++ (f, (p, L ++ R)) :: l2) → last L = Some a → head R = Some b →
  cmp a.1 sep = Lt → upto sep b.1 → in_order (l1 ++ (f, (p, L)) :: (sep, (r, R)) :: l2).
Proof.
  intros (H1 & H2 & H3)%in_order_app Ha Hb Has Hsb. change ((f, (p, L ++ R)) :: l2) with ([(f, (p, L ++ R))] ++ l2) in *.
  apply in_order_app in H2 as (H4 & H5 & H6). apply in_order_one in H4 as [Hw HF]. apply Forall_app in HF as [HFL HFR]. apply wf_app in Hw as (HwL & HwR & HLR).
  assert (a ∈ L) as HaL by (apply last_Some in Ha as (L' & ->); apply elem_of_app; right; left).
  destruct R as [|[bk bv] R]; [done|]. injection Hb as <-. simpl in Hsb.
  assert (∀ e, e ∈ L → cmp e.1 sep = Lt) as HL.
  { intros e He. apply last_Some in Ha as (L' & ->). apply elem_of_app in He as [He|He]; [|apply list_elem_of_singleton in He; by subst].
    apply wf_app in HwL as (_ & _ & HX). assert (cmp e.1 a.1 = Lt) by (apply HX; [done|left]). ord. }
  assert (Forall (λ e, upto sep e.1) ((bk, bv) :: R)) as HR.
  { constructor; [done|]. apply Forall_forall. intros e He. eapply upto_trans; [exact Hsb|]. apply lt_upto. destruct HwR as [HF _].
    rewrite Forall_forall in HF. by apply HF. }
  assert (cmp f sep = Lt) as Hfs. { rewrite Forall_forall in HFL. specialize (HFL a HaL). simpl in HFL. destruct (proj1 (upto_cases _ _) HFL) as [->|Hlt]; [done|ord]. }
  apply in_order_app. split; [done|]. split.
  - change (in_order ([(f, (p, L))] ++ [(sep, (r, (bk, bv) :: R))] ++ l2)). apply in_order_app. split; [by apply in_order_one|]. split.
    + apply in_order_app. split; [by apply in_order_one|]. split; [done|]. intros x y Hx%list_elem_of_singleton Hy. subst x.
      destruct (H6 (f, (p, L ++ (bk, bv) :: R)) y (list_elem_of_here _ _) Hy) as [H7 H8]. simpl in *. apply Forall_app in H8 as [_ H8]. split; [|done].
      apply Forall_cons in H8 as [H8 _]. destruct (proj1 (upto_cases _ _) Hsb) as [->|Hlt]; [done|ord].
    + intros x y Hx%list_elem_of_singleton Hy. subst x. simpl. apply elem_of_app in Hy as [Hy%list_elem_of_singleton|Hy].
      * subst y. split; [done|]. by apply Forall_forall.
      * destruct (H6 (f, (p, L ++ (bk, bv) :: R)) y (list_elem_of_here _ _) Hy) as [H7 H8]. simpl in *. apply Forall_app in H8 as [H8 _]. by split.
  - intros x y Hx Hy. destruct (H3 x (f, (p, L ++ (bk, bv) :: R)) Hx (list_elem_of_here _ _)) as [H7 H8]. simpl in *.
    apply elem_of_cons in Hy as [->|Hy]; [done|]. apply elem_of_cons in Hy as [->|Hy].
    + simpl. split; [ord|]. eapply Forall_impl; [exact H8|]. intros e He. simpl in He. ord.
    + apply H3; [done|by right].
Qed.

(** ** The pages beside the leaf *)
Definition others C p : list nat := map fst (ctx_nodes C p) ++ pages_in (left_of [] C) ++ pages_in (right_of C).
Lemma plug_pages C p es : tree_pages (plug C (Leaf p es)) ≡ₚ p :: others C p.
Proof.
  unfold tree_pages, others. rewrite nodes_plug, flat_plug. simpl. rewrite !pages_in_app. simpl. solve_Permutation.
Qed.
Definition not_extent k c : Prop := ∀ j bs, j ≠ k → c ≠ CExt j bs.
Section Edit.
Context t A T k C p es (Hp : phys t A) (Ht : tree_in A T) (Hl : at_leaf A T k C p es).
#[local] Abbreviation nxt := (first_page (right_of C) 0).
#[local] Abbreviation prv := (last_page (left_of [] C) 0).
Lemma others_nodup : NoDup (p :: others C p).
Proof using Ht Hl. rewrite <- (plug_pages C p es), <- (al_tree _ _ _ _ _ _ Hl). apply Ht. Qed.
Lemma edit_nodes : Forall (λ n : node, a_cells A !! n.1 = Some (CInternal n.2.1 n.2.2)) (ctx_nodes C p).
Proof using Ht Hl.
  pose proof (ti_nodes _ _ Ht) as Hn. unfold nodes_in in Hn. rewrite (al_tree _ _ _ _ _ _ Hl), nodes_plug in Hn. exact Hn.
Qed.
Lemma edit_chain : chain (a_cells A) 0 (left_of [] C) p ∧ chain (a_cells A) p (right_of C) 0.
Proof using Ht Hl.
  pose proof (ti_chain _ _ Ht) as Hc. rewrite (at_flat _ _ _ _ _ _ Hl) in Hc. by apply chain_app in Hc as [H1 [_ H2]].
Qed.
Lemma side_leaf x : x ∈ left_of [] C ++ right_of C → ∃ nx pr, a_cells A !! x.2.1 = Some (CLeaf nx pr x.2.2).
Proof using Ht Hl. destruct edit_chain as [H1 H2]. intros [Hx|Hx]%elem_of_app; [by apply (chain_elem _ _ _ _ _ H1)|by apply (chain_elem _ _ _ _ _ H2)]. Qed.
Lemma other_cell q : q ∈ others C p → ∃ c, a_cells A !! q = Some c ∧ in_use c ∧ ∀ j bs, c ≠ CExt j bs.
Proof using Ht Hl.
  unfold others. rewrite <- pages_in_app. intros [Hq|Hq]%elem_of_app.
  - apply list_elem_of_fmap in Hq as (n & -> & Hn). pose proof edit_nodes as HF. rewrite Forall_forall in HF. eexists. split; [by apply HF|]. by split.
  - apply list_elem_of_fmap in Hq as (x & -> & Hx). destruct (side_leaf x Hx) as (nx & pr & Hc). eexists. split; [exact Hc|]. by split.
Qed.
Lemma back_linked_at : back_linked (a_cells A) p nxt.
Proof using Ht Hl.
  destruct (right_of C) as [|[f [q es']] l] eqn:E; [by left|]. right. simpl. split.
  - pose proof others_nodup as Hnd. unfold others in Hnd. rewrite E in Hnd. apply NoDup_cons in Hnd as [Hnd _]. intros ->. apply Hnd. rewrite !elem_of_app. right. right. left.
  - destruct (side_leaf (f, (q, es'))) as (nx & pr & Hc); [rewrite E; apply elem_of_app; right; left|]. by exists nx, pr, es'.
Qed.
(** What the amended store still holds. *)
Lemma kept_values (W : list nat) B : amends W k A B → (∀ q c, q ∈ W → a_cells A !! q = Some c → not_extent k c) →
  Forall (holds_value (a_cells B)) (contents (left_of [] C)) ∧ Forall (holds_value (a_cells B)) (contents (right_of C)) ∧
  ∀ e, e ∈ es → e.1 ≠ k → holds_value (a_cells B) e.
Proof using Ht Hl.
  intros Ha HX. pose proof (ti_values _ _ Ht) as HV. rewrite (at_contents _ _ _ _ _ _ Hl), !Forall_app in HV. destruct HV as (H1 & H2 & H3).
  destruct (at_around _ _ _ _ _ _ Ht Hl) as [Hu Ho]. unfold under, over in *. rewrite Forall_forall in H1, Hu. rewrite Forall_forall in H3, Ho. rewrite Forall_forall in H2.
  split; [|split].
  - apply Forall_forall. intros e He. eapply holds_amends; [exact Ha| |done|by apply H1]. specialize (Hu e He). simpl in Hu. intros Heq. rewrite Heq in Hu. by rewrite cmp_refl in Hu.
  - apply Forall_forall. intros e He. eapply holds_amends; [exact Ha| |done|by apply H3]. specialize (Ho e He). simpl in Ho. intros Heq. rewrite Heq in Ho. by rewrite cmp_refl in Ho.
  - intros e He Hne. eapply holds_amends; [exact Ha|done|done|by apply H2].
Qed.
Lemma kept_cell (W : list nat) B q c : amends W k A B → q ∈ others C p → a_cells A !! q = Some c → q ∉ W → a_cells B !! q = Some c.
Proof using Ht Hl.
  intros Ha Hq Hc HX. destruct (other_cell q Hq) as (c' & Hc' & Hu & Hx). rewrite Hc in Hc'. injection Hc' as <-. by eapply amends_lookup.
Qed.
Lemma edit_in_place B es' : a_root B = a_root A → a_right B = a_right A → amends [p] k A B → a_cells B !! p = Some (CLeaf nxt prv es') →
  bt_wf es' → keys_from k es es' → Forall (holds_value (a_cells B)) es' → a_count B = Z.of_nat (length (contents (left_of [] C) ++ es' ++ contents (right_of C))) →
  tree_in B (plug C (Leaf p es')).
Proof using Ht Hl.
  intros Hr Hg Ha Hc Hw Hk HV Hn. pose proof (al_tree _ _ _ _ _ _ Hl) as HT. pose proof (at_flat _ _ _ _ _ _ Hl) as Hfl.
  pose proof others_nodup as Hnd. pose proof (NoDup_cons_1_1 _ _ Hnd) as Hpo.
  assert (∀ q c, q ∈ others C p → a_cells A !! q = Some c → a_cells B !! q = Some c) as Hkeep.
  { intros q c Hq Hqc. eapply kept_cell; [exact Ha|done|done|]. rewrite list_elem_of_singleton. by intros ->. }
  destruct (kept_values [p] B Ha) as (V1 & V2 & _).
  { intros q c ->%list_elem_of_singleton Hqc. rewrite (at_cell _ _ _ _ _ _ Ht Hl) in Hqc. by injection Hqc as <-. }
  pose proof (page_plug C (Leaf p es) (Leaf p es') eq_refl) as Hpg. rewrite <- HT in Hpg.
  assert (flat [] (plug C (Leaf p es')) = left_of [] C ++ (hole_fence [] C, (p, es')) :: right_of C) as Hfl' by (by rewrite flat_plug).
  assert (contents (flat [] (plug C (Leaf p es'))) = contents (left_of [] C) ++ es' ++ contents (right_of C)) as Hct by (by rewrite Hfl', entries_app).
  constructor.
  - by rewrite Hr, (ti_root _ _ Ht).
  - rewrite Hg, (ti_right _ _ Ht), Hfl, Hfl', !last_page_app, !last_page_cons. done.
  - unfold nodes_in. rewrite nodes_plug. simpl. pose proof edit_nodes as HF. rewrite Forall_forall in HF |- *. intros n Hin. apply Hkeep; [|by apply HF].
    apply elem_of_app. left. apply list_elem_of_fmap. by exists n.
  - rewrite Hfl'. destruct edit_chain as [H1 H2]. apply chain_app. split; [|split; [exact Hc|]].
    + eapply chain_frame; [|exact H1]. intros q es0 nx pr Hq Hqc. apply Hkeep; [|done]. unfold others. rewrite !elem_of_app. tauto.
    + eapply chain_frame; [|exact H2]. intros q es0 nx pr Hq Hqc. apply Hkeep; [|done]. unfold others. rewrite !elem_of_app. tauto.
  - rewrite plug_pages. exact Hnd.
  - rewrite Hfl'. eapply order_leaf; [|apply Hl|apply Hl|done|exact Hk]. rewrite <- Hfl. apply Ht.
  - rewrite Hct, !Forall_app. done.
  - by rewrite Hct.
Qed.

(** ** The leaf splits *)
(** What the store must say when the entries [L] stay in [p] and [R] go to [r]. *)
Record split_in (W : list nat) B L R r sep : Prop := {
  si_keys : keys_from k es (L ++ R);
  si_wf : bt_wf (L ++ R);
  si_sep : ∃ a b, last L = Some a ∧ head R = Some b ∧ cmp a.1 sep = Lt ∧ upto sep b.1;
  si_left : a_cells B !! p = Some (CLeaf r prv L);
  si_right : a_cells B !! r = Some (CLeaf nxt p R);
  si_links : relinked (a_cells A) (a_cells B) nxt r;
  si_last : a_right B = (if (nxt =? 0)%nat then r else a_right A);
  si_keeps : amends W k A B;
  si_leaves : ∀ q, q ∈ W → q ∈ pages_in (left_of [] C) ++ pages_in (right_of C) → q = nxt;
  si_extents : ∀ q c, q ∈ W → a_cells A !! q = Some c → not_extent k c;
  si_values : Forall (holds_value (a_cells B)) (L ++ R);
  si_count : a_count B = Z.of_nat (length (contents (left_of [] C) ++ (L ++ R) ++ contents (right_of C))) }.
Lemma split_chain W B L R r sep : split_in W B L R r sep → chain (a_cells B) 0 (left_of [] C ++ (hole_fence [] C, (p, L)) :: (sep, (r, R)) :: right_of C) 0.
Proof using Hp Ht Hl.
  intros [_ _ _ Hcl Hcr Hrl _ Ha HW _ _ _]. destruct edit_chain as [H1 H2]. pose proof others_nodup as Hnd. unfold others in Hnd.
  apply NoDup_cons in Hnd as [Hpo Hnd]. apply NoDup_app in Hnd as (_ & _ & Hnd). apply NoDup_app in Hnd as (Hnl & Hlr & Hnr).
  apply chain_app. split; [|split; [exact Hcl|split; [exact Hcr|]]].
  - eapply chain_frame; [|exact H1]. intros q es0 nx pr Hq Hqc. eapply kept_cell; [exact Ha| |done|].
    + unfold others. rewrite !elem_of_app. tauto.
    + intros HqW. assert (q = nxt) as -> by (apply HW; [done|]; rewrite elem_of_app; tauto).
      destruct (right_of C) as [|[f [q es']] l]; simpl in *; [apply (ph_cells _ _ Hp) in Hqc as [? _]; lia|]. apply (Hlr q); [done|left].
  - destruct (right_of C) as [|[f [q es']] l]; [done|]. destruct H2 as [Hq H2]. cbn [first_page fst snd] in *. pose proof (ph_cells _ _ Hp _ _ Hq) as [H0q _]. split.
    + destruct Hrl as [->|(nn & np & es0 & E1 & E2)]; [lia|]. rewrite Hq in E1. injection E1 as <- <- <-. exact E2.
    + eapply chain_frame; [|exact H2]. intros q' es0 nx pr Hq' Hqc. apply NoDup_cons in Hnr as [Hnq _].
      eapply (amends_lookup W k A B); [exact Ha|exact Hqc| |done|done].
      intros HqW. assert (q' = q) as -> by (apply HW; [done|]; rewrite elem_of_app; right; by right). done.
Qed.
Lemma edit_split W B L R r sep T' : split_in W B L R r sep →
  flat [] T' = left_of [] C ++ (hole_fence [] C, (p, L)) :: (sep, (r, R)) :: right_of C →
  a_root B = page_of T' → nodes_in (a_cells B) (nodes T') → NoDup (tree_pages T') → tree_in B T'.
Proof using Hp Ht Hl.
  intros Hs Hfl' Hr Hns Hnd. pose proof (split_chain _ _ _ _ _ _ Hs) as Hch. destruct Hs as [Hk Hw (a & b & Ea & Eb & Has & Hsb) _ _ _ Hg Ha _ HX HV Hn].
  pose proof (at_flat _ _ _ _ _ _ Hl) as Hfl. destruct (kept_values W B Ha HX) as (V1 & V2 & _).
  assert (contents (flat [] T') = contents (left_of [] C) ++ (L ++ R) ++ contents (right_of C)) as Hct.
  { rewrite Hfl', entries_app, <- !app_assoc. unfold contents at 2. simpl. done. }
  constructor; [exact Hr| |exact Hns|by rewrite Hfl'|exact Hnd| |rewrite Hct, !Forall_app; apply Forall_app in HV; tauto|by rewrite Hct].
  - rewrite Hg, (ti_right _ _ Ht), Hfl, Hfl', !last_page_app, !last_page_cons. simpl.
    destruct edit_chain as [_ H2]. destruct (right_of C) as [|[f [q es']] l]; [done|]. destruct H2 as [Hq _]. pose proof (ph_cells _ _ Hp _ _ Hq) as [H0q _].
    simpl. rewrite !last_page_cons. destruct (Nat.eqb_spec q 0); [lia|done].
  - rewrite Hfl'. eapply order_split; [|done|done|done|done]. eapply order_leaf; [rewrite <- Hfl; apply Ht|apply Hl|apply Hl|done|done].
Qed.
End Edit.

