(* ===== verification/BPlusReads.v ===== *)
(** * Reads of a tree

    Looking a key up, and walking the chain of leaves in either direction:
    what the reads of [BPlus.v] find is what the tree stores ([stored]). *)
From stdpp Require Import base numbers option gmap list.
From S2P Require Import Prelude Bytes BinarySearch Order BTreeMap Mmap Backend BPlusPages BPlusNodes BPlus BPlusBytes BPlusSlots BPlusCells BPlusPageOps BPlusStore BPlusAlloc BPlusLeaf BPlusShape BPlusTree.
Import Pages Nodes BPlus.
Implicit Types (t : BPlusTree) (A : Abs) (p q n next prev : nat) (k key : list Z) (e : entry) (es : list entry) (T : tree) (l : list fenced) (c : Cursor) (back : bool).

(** ** One leaf *)
Section Leaf.
Context t A p next prev es (Hp : phys t A) (Hc : a_cells A !! p = Some (CLeaf next prev es)).
Lemma leaf_find_ok key : bt_wf es → leaf_find_slot t p (length es) key = Ok (locate key es).
Proof using Hp Hc.
  intros Hw. destruct (leaf_page_at _ _ _ _ _ _ Hp Hc) as (buf & Hb & Hleaf & _). unfold leaf_find_slot. rewrite Hb. cbn [rbind].
  eapply find_slot_loop_spec; [done|done|lia|lia|lia|]. intros i k pl Hi Hl. apply lookup_lt_Some in Hl. lia.
Qed.
Lemma key_at_ok i e : es !! i = Some e → key_bytes_at t p i = Ok e.1.
Proof using Hp Hc.
  intros Hi. destruct e as [k pl]. destruct (leaf_page_at _ _ _ _ _ _ Hp Hc) as (buf & Hb & Hleaf & _). unfold key_bytes_at. rewrite Hb. cbn [rbind].
  destruct (leaf_slot _ _ _ _ Hleaf _ _ _ Hi) as (_ & o & -> & _ & Hk). cbn [rbind]. done.
Qed.
Lemma value_at_ok i e : es !! i = Some e → holds_value (a_cells A) e → value_bytes_at t p i = Ok (stored_value e.2).
Proof using Hp Hc.
  intros Hi Hh. destruct e as [k pl]. destruct (leaf_page_at _ _ _ _ _ _ Hp Hc) as (buf & Hb & Hleaf & _). unfold value_bytes_at. rewrite Hb. cbn [rbind].
  destruct (leaf_slot _ _ _ _ Hleaf _ _ _ Hi) as (Hok & o & -> & Hg & _). cbn [rbind].
  rewrite (entry_key_len _ _ _ _ Hg Hok), (entry_raw _ _ _ _ Hg Hok). cbn [rbind]. rewrite (raw_is_extent _ _ Hok).
  destruct (entry_parts _ _ _ _ Hg) as (_ & _ & _ & Hpl). destruct pl as [v|s v]; cbn [stored_value].
  - simpl. rewrite Nat2Z.id. exact Hpl.
  - assert (field 8 buf (o + 6 + length k) s) as Hf by (unfold payload_size in Hpl; cbn [payload_bytes] in Hpl; by rewrite le_length in Hpl).
    cbn iota. rewrite (field64 _ _ _ Hf) by apply Hok. cbn [rbind]. rewrite (raw_extent_len _ _ Hok s v) by done.
    destruct Hh as [He Hv]. by eapply extent_read.
Qed.
Lemma leaf_count_at : (buf <-? page_bytes t p ;; page_count buf) = Ok (length es).
Proof using Hp Hc.
  destruct (leaf_page_at _ _ _ _ _ _ Hp Hc) as (buf & -> & Hleaf & _). cbn [rbind]. by rewrite (leaf_count _ _ _ _ Hleaf).
Qed.
End Leaf.

(** ** Lookups *)
Lemma value_for_ok t A T key : phys t A → tree_in A T → value_bytes_for t key = Ok (bt_get key (stored T)).
Proof.
  intros Hp Ht. destruct (find_leaf_ok t A T key Hp Ht) as (C & p & es & Hl & Hf & _). unfold value_bytes_for.
  destruct (meta_page_ok _ _ Hp) as (-> & _). cbn [rbind]. rewrite Hf. cbn [rbind].
  pose proof (at_cell _ _ _ _ _ _ Ht Hl) as Hc. pose proof (at_wf _ _ _ _ _ _ Ht Hl) as Hw.
  destruct (leaf_page_at _ _ _ _ _ _ Hp Hc) as (buf & Hb & Hleaf & _). rewrite Hb. cbn [rbind]. rewrite (leaf_count _ _ _ _ Hleaf). cbn [rbind].
  rewrite (leaf_find_ok _ _ _ _ _ _ Hp Hc key Hw). cbn [rbind]. unfold stored. rewrite values_get, (at_get _ _ _ _ _ _ Ht Hl).
  destruct (wf_split key es Hw) as [(X & pl & Y & -> & HX & HY)|(X & Y & -> & HX & HY)].
  - rewrite locate_here, get_here by done. rewrite (value_at_ok _ _ _ _ _ _ Hp Hc (length X) (key, pl)); [done|by apply list_lookup_middle|].
    pose proof (at_holds _ _ _ _ _ _ Ht Hl) as HF. apply Forall_app in HF as [_ HF]. by apply Forall_cons in HF as [? _].
  - by rewrite locate_gap, get_gap by done.
Qed.

(** ** Walking the leaves *)
(** [back]: along [prev_leaf], in [l] the leaves in that order. *)
Definition link_of back : nat := if back then 16 else 8.
Fixpoint linked back (cells : gmap nat cell) l : Prop :=
  match l with
  | [] => True
  | (_, (p, es)) :: l => (∃ nx pr, cells !! p = Some (CLeaf nx pr es) ∧ (if back then pr else nx) = first_page l 0) ∧ linked back cells l
  end.
Lemma chain_linked cells l : ∀ prev, chain cells prev l 0 → linked false cells l.
Proof. induction l as [|[f [p es]] l IH]; intros prev; [done|]. intros [Hc Hl]. split; [by eexists _, _|by eapply IH]. Qed.
(** The leaves before [n] seen from [n], the last of them first. *)
Lemma chain_linked_back cells l : ∀ n, chain cells 0 l n → linked true cells (rev l).
Proof.
  induction l as [|[f [p es]] l IH] using rev_ind; intros n; [done|]. intros [Hl [Hc _]]%chain_app. rewrite rev_app_distr. simpl. split.
  - exists n, (last_page l 0). split; [done|]. destruct l as [|y l _] using rev_ind; [done|]. by rewrite rev_app_distr, last_page_app.
  - by eapply IH.
Qed.
Definition run_of (x : fenced) : list Cursor := map (λ i, mkCursor x.2.1 i (length x.2.2)) (seq 0 (length x.2.2)).
Definition runs l : list Cursor := concat (map run_of l).
(** What is left of a walk. *)
Definition resume c l : list Cursor := map (λ i, mkCursor (c_page c) i (c_count c)) (seq (c_slot c) (c_count c - c_slot c)) ++ runs l.
Definition at_link back A c l : Prop :=
  c_page c = 0 ∧ c_count c = 0 ∧ l = [] ∨
  c_page c ≠ 0 ∧ linked back (a_cells A) l ∧ ∃ nx pr es, a_cells A !! c_page c = Some (CLeaf nx pr es) ∧ (if back then pr else nx) = first_page l 0.
Lemma link_read t A p next prev es back : phys t A → a_cells A !! p = Some (CLeaf next prev es) → ∃ buf, page_bytes t p = Ok buf ∧
  get64 buf (link_of back) = Ok (if back then prev else next).
Proof.
  intros Hp Hc. destruct (leaf_page_at _ _ _ _ _ _ Hp Hc) as (buf & Hb & Hleaf & H1 & H2). exists buf. split; [done|].
  destruct back; [by apply (field64 _ _ _ (lp_prev _ _ _ _ Hleaf))|by apply (field64 _ _ _ (lp_next _ _ _ _ Hleaf))].
Qed.
Lemma enter_ok t A back l : phys t A → linked back (a_cells A) l → ∃ c, enter t (first_page l 0) = Ok c ∧ at_link back A c (tail l) ∧ resume c (tail l) = runs l.
Proof.
  intros Hp Hl. unfold enter. destruct l as [|[f [p es]] l]; simpl.
  - exists (mkCursor 0 0 0). split; [done|]. split; [by left|done].
  - destruct Hl as [(nx & pr & Hc & Hn) Hl]. pose proof (ph_cells _ _ Hp _ _ Hc) as [H0 _].
    destruct (leaf_page_at _ _ _ _ _ _ Hp Hc) as (buf & Hb & Hleaf & _). destruct (Nat.eqb_spec p 0) as [->|H0p]; [lia|].
    rewrite Hb. cbn [rbind]. rewrite (leaf_count _ _ _ _ Hleaf). cbn [rbind]. eexists. split; [done|]. split.
    + right. split; [done|]. split; [done|]. by exists nx, pr, es.
    + unfold resume. simpl. by rewrite Nat.sub_0_r.
Qed.
Lemma past_resume c l : c_slot c < c_count c → resume c l = c :: resume (past c) l.
Proof.
  intros Hlt. unfold resume. destruct c as [p i n]. simpl in *. replace (n - i) with (S (n - (i + 1))) by lia. simpl. by replace (i + 1) with (S i) by lia.
Qed.
(** The next slot of a walk, and the walk behind it. *)
Lemma cursor_next_ok t A back : phys t A → ∀ l fuel c, length l < fuel → at_link back A c l → match resume c l with
  | [] => cursor_next fuel (link_of back) t c = Ok None
  | c' :: rest => cursor_next fuel (link_of back) t c = Ok (Some c') ∧ ∃ l', at_link back A (past c') l' ∧ resume (past c') l' = rest ∧ length l' ≤ length l
  end.
Proof.
  intros Hp. induction l as [|x l IH]; intros fuel c Hf Hat; destruct fuel as [|fuel]; simpl in Hf; try lia; cbn [cursor_next];
    (destruct Hat as [(H0 & Hn & Hnil)|(H0 & Hl & nx & pr & es & Hc & Hlk)]; [try done|]).
  - unfold resume. rewrite H0, Hn. done.
  - destruct (Nat.eqb_spec (c_page c) 0) as [|_]; [done|]. destruct (Nat.ltb_spec (c_slot c) (c_count c)) as [Hlt|Hge].
    + rewrite past_resume by done. split; [done|]. exists []. split; [|done]. right. split; [done|]. split; [done|]. by exists nx, pr, es.
    + unfold resume. replace (c_count c - c_slot c) with 0 by lia. simpl. destruct (link_read _ _ _ _ _ _ back Hp Hc) as (buf & -> & Hg).
      cbn [rbind]. rewrite Hg. cbn [rbind]. rewrite Hlk. cbn [first_page]. unfold enter. cbn [Nat.eqb rbind]. by destruct fuel.
  - destruct (Nat.eqb_spec (c_page c) 0) as [|_]; [done|]. destruct (Nat.ltb_spec (c_slot c) (c_count c)) as [Hlt|Hge].
    + rewrite past_resume by done. split; [done|]. exists (x :: l). split; [|done]. right. split; [done|]. split; [done|]. by exists nx, pr, es.
    + destruct (link_read _ _ _ _ _ _ back Hp Hc) as (buf & -> & Hg). cbn [rbind]. rewrite Hg. cbn [rbind]. rewrite Hlk.
      destruct (enter_ok t A back (x :: l) Hp Hl) as (c' & -> & Hat' & Hr). cbn [rbind tail] in *.
      specialize (IH fuel c' ltac:(lia) Hat'). rewrite Hr in IH. unfold resume at 1. replace (c_count c - c_slot c) with 0 by lia. simpl app.
      destruct (runs (x :: l)) as [|c'' rest]; [done|]. destruct IH as (IH1 & l' & IH2 & IH3 & IH4). split; [done|]. exists l'. split; [done|]. split; [done|]. simpl. lia.
Qed.

(** ** What a walk reads *)
Definition in_way {B} back (l : list B) : list B := if back then rev l else l.
Definition slot_in back c : nat := if back then from_end c else c_slot c.
Definition reads_as t back c (e : list Z * list Z) : Prop :=
  key_bytes_at t (c_page c) (slot_in back c) = Ok e.1 ∧ value_bytes_at t (c_page c) (slot_in back c) = Ok e.2.
Definition walked back l : list (list Z * list Z) := concat (map (λ x, in_way back (on_values stored_value x.2.2)) l).
Lemma in_way_length {B} back (l : list B) : length (in_way back l) = length l.
Proof. destruct back; [apply length_rev|done]. Qed.
Lemma slot_reads t A p next prev es back i : phys t A → a_cells A !! p = Some (CLeaf next prev es) → Forall (holds_value (a_cells A)) es → i < length es → ∃ e : list Z * list Z,
  in_way back (on_values stored_value es) !! i = Some e ∧ reads_as t back (mkCursor p i (length es)) e.
Proof.
  intros Hp Hc HF Hi. set (j := slot_in back (mkCursor p i (length es))).
  assert (j < length es) as Hj by (unfold j, slot_in, from_end; destruct back; simpl; lia).
  destruct (es !! j) as [e|] eqn:E; [|apply lookup_ge_None in E; lia]. exists (e.1, stored_value e.2). split.
  - assert (on_values stored_value es !! j = Some (e.1, stored_value e.2)) as Hv by (unfold on_values; by rewrite list_lookup_fmap, E).
    unfold in_way. destruct back; [|exact Hv]. rewrite rev_alt. change (reverse (on_values stored_value es) !! i = Some (e.1, stored_value e.2)). rewrite reverse_lookup by (unfold on_values; rewrite length_map; lia).
    unfold on_values in *. rewrite length_map. unfold j, slot_in, from_end in Hv. simpl in Hv. by replace (length es - S i) with (length es - 1 - i) by lia.
  - split; [by apply (key_at_ok t A p next prev es)|]. apply (value_at_ok t A p next prev es Hp Hc j e E). eapply Forall_lookup_1; [exact HF|exact E].
Qed.
Lemma run_reads t A p next prev es back : phys t A → a_cells A !! p = Some (CLeaf next prev es) → Forall (holds_value (a_cells A)) es → ∀ i,
  Forall2 (reads_as t back) (map (λ i, mkCursor p i (length es)) (seq i (length es - i))) (drop i (in_way back (on_values stored_value es))).
Proof.
  intros Hp Hc HF i. remember (length es - i) as n eqn:En. revert i En. induction n as [|n IH]; intros i En; simpl.
  - rewrite drop_ge; [constructor|]. rewrite in_way_length. unfold on_values. rewrite length_map. lia.
  - destruct (slot_reads t A p next prev es back i Hp Hc HF) as (e & He & Hr); [lia|]. rewrite (drop_S _ _ _ He). constructor; [done|]. apply IH. lia.
Qed.
Lemma runs_read t A back l : phys t A → linked back (a_cells A) l → Forall (holds_value (a_cells A)) (contents l) → Forall2 (reads_as t back) (runs l) (walked back l).
Proof.
  intros Hp. induction l as [|[f [p es]] l IH]; [constructor|]. intros [(nx & pr & Hc & _) Hl] HF.
  change (contents ((f, (p, es)) :: l)) with (es ++ contents l) in HF. apply Forall_app in HF as [H1 H2].
  apply Forall2_app; [|by apply IH]. pose proof (run_reads t A p nx pr es back Hp Hc H1 0) as Hr. by rewrite Nat.sub_0_r in Hr.
Qed.
Lemma walked_forward l : walked false l = on_values stored_value (contents l).
Proof. unfold walked, contents, on_values. simpl. rewrite concat_map, map_map. done. Qed.
Lemma walked_back l : walked true (rev l) = rev (on_values stored_value (contents l)).
Proof.
  unfold walked, contents, on_values, in_way. induction l as [|x l IH]; [done|]. simpl. rewrite map_app, concat_app, IH. simpl.
  by rewrite map_app, rev_app_distr, app_nil_r.
Qed.

(** ** Fuel *)
Lemma runs_length l : length (runs l) = length (contents l).
Proof.
  unfold runs, contents. induction l as [|x l IH]; simpl; [done|]. rewrite !length_app, IH. f_equal. unfold run_of. by rewrite length_map, length_seq.
Qed.
Lemma contents_bound t A l : phys t A → leaves_in (a_cells A) l → length (contents l) ≤ length l * PAGE_SIZE.
Proof.
  intros Hp. induction l as [|x l IH]; intros Hl; [done|]. change (contents (x :: l)) with (x.2.2 ++ contents l). rewrite length_app.
  specialize (IH (λ y Hy, Hl y (list_elem_of_further _ _ _ Hy))). destruct (Hl x (list_elem_of_here _ _)) as (nx & pr & Hc).
  destruct (leaf_page_at _ _ _ _ _ _ Hp Hc) as (buf & _ & Hleaf & _). pose proof (leaf_room _ _ _ _ Hleaf) as Hr. cbn [length]. page_lia.
Qed.
Lemma walk_fuel t A T : phys t A → tree_in A T → length (flat [] T) < fuel_of t ∧ length (contents (flat [] T)) < fuel_of t.
Proof.
  intros Hp Ht. pose proof (tree_fuel _ _ _ Hp Ht). split; [lia|]. pose proof (contents_bound t A _ Hp (tree_leaves _ _ Ht)) as Hb.
  pose proof (tree_pages_count _ _ _ Hp Ht) as Hc. unfold tree_pages, pages_in in Hc. rewrite length_app, !length_map in Hc.
  unfold fuel_of. rewrite (phys_mapped _ _ Hp). pose proof (ph_size _ _ Hp). page_lia.
Qed.

Lemma on_values_app {B} (g : payload → B) es1 es2 : on_values g (es1 ++ es2) = on_values g es1 ++ on_values g es2.
Proof. apply map_app. Qed.

(** ** The two ends, and the place of a key *)
Lemma first_page_rev l d : first_page (rev l) d = last_page l d.
Proof. destruct l as [|x l _] using rev_ind; [done|]. by rewrite rev_app_distr, last_page_app. Qed.
Lemma elem_upto key es : Forall (λ e, upto key e.1) es ↔ ∀ e, e ∈ es → upto key e.1.
Proof. apply Forall_forall. Qed.
(** Where a search for [key] stops: behind the entries of [X]. *)
Record sought A T key C p es X Y : Prop := {
  so_leaf : at_leaf A T key C p es;
  so_split : es = X ++ Y;
  so_below : under key (contents (left_of [] C) ++ X);
  so_above : Forall (λ e, upto key e.1) (Y ++ contents (right_of C)) }.
Lemma over_upto key es : over key es → Forall (λ e, upto key e.1) es.
Proof. intros Ho. eapply Forall_impl; [exact Ho|]. intros e He. by apply lt_upto. Qed.
Lemma seek_ok t A T key : phys t A → tree_in A T → ∃ C p es X Y, sought A T key C p es X Y ∧ seek t key = Ok (p, length es, length X).
Proof.
  intros Hp Ht. destruct (find_leaf_ok t A T key Hp Ht) as (C & p & es & Hl & Hf & _). unfold seek.
  destruct (meta_page_ok _ _ Hp) as (-> & _). cbn [rbind]. rewrite Hf. cbn [rbind].
  pose proof (at_cell _ _ _ _ _ _ Ht Hl) as Hc. pose proof (at_wf _ _ _ _ _ _ Ht Hl) as Hw. destruct (at_around _ _ _ _ _ _ Ht Hl) as [Hlo Hhi].
  destruct (leaf_page_at _ _ _ _ _ _ Hp Hc) as (buf & Hb & Hleaf & _). rewrite Hb. cbn [rbind]. rewrite (leaf_count _ _ _ _ Hleaf). cbn [rbind].
  rewrite (leaf_find_ok _ _ _ _ _ _ Hp Hc key Hw). cbn [rbind]. exists C, p, es.
  destruct (wf_split key es Hw) as [(X & pl & Y & -> & HX & HY)|(X & Y & -> & HX & HY)]; [exists X, ((key, pl) :: Y)|exists X, Y].
  - rewrite locate_here by done. split; [|done]. constructor; [done|done|by apply under_app|]. rewrite <- app_comm_cons. constructor; [apply upto_refl|].
    apply over_upto, over_app. by split.
  - rewrite locate_gap by done. split; [|done]. constructor; [done|done|by apply under_app|]. apply over_upto, over_app. by split.
Qed.
Section Sought.
Context t A T key C p es X Y (Hp : phys t A) (Ht : tree_in A T) (Hs : sought A T key C p es X Y).
Let Hl := so_leaf _ _ _ _ _ _ _ _ Hs.
Lemma sought_contents : contents (flat [] T) = (contents (left_of [] C) ++ X) ++ Y ++ contents (right_of C).
Proof using Hs. rewrite (at_contents _ _ _ _ _ _ Hl), (so_split _ _ _ _ _ _ _ _ Hs). by rewrite <- !app_assoc. Qed.
Lemma sought_holds : Forall (holds_value (a_cells A)) (contents (left_of [] C)) ∧ Forall (holds_value (a_cells A)) es ∧ Forall (holds_value (a_cells A)) (contents (right_of C)).
Proof using Ht Hs. pose proof (ti_values _ _ Ht) as HF. by rewrite (at_contents _ _ _ _ _ _ Hl), !Forall_app in HF. Qed.
Lemma sought_links : linked false (a_cells A) (right_of C) ∧ linked true (a_cells A) (rev (left_of [] C)).
Proof using Ht Hs.
  pose proof (ti_chain _ _ Ht) as Hc. rewrite (at_flat _ _ _ _ _ _ Hl) in Hc. apply chain_app in Hc as [Hc1 [_ Hc2]].
  split; [by eapply chain_linked|by eapply chain_linked_back].
Qed.
Lemma sought_length : length (left_of [] C) < fuel_of t ∧ length (right_of C) < fuel_of t ∧ length (contents (left_of [] C) ++ X) < fuel_of t ∧ length (Y ++ contents (right_of C)) < fuel_of t.
Proof using Hp Ht Hs.
  destruct (walk_fuel _ _ _ Hp Ht) as [H1 H2]. rewrite sought_contents, length_app in H2. rewrite (at_flat _ _ _ _ _ _ Hl), length_app in H1.
  cbn [length] in H1. lia.
Qed.
(** Forwards from the place, and backwards from it. *)
Lemma sought_forward : let c := mkCursor p (length X) (length es) in at_link false A c (right_of C) ∧
  Forall2 (reads_as t false) (resume c (right_of C)) (on_values stored_value (Y ++ contents (right_of C))).
Proof using Hp Ht Hs.
  intros c. pose proof (at_cell _ _ _ _ _ _ Ht Hl) as Hc. pose proof (ph_cells _ _ Hp _ _ Hc) as [H0 _]. destruct sought_links as [Hf _]. destruct sought_holds as (_ & H2 & H3). split.
  - right. split; [simpl; lia|]. split; [done|]. by eexists _, _, _.
  - unfold resume. simpl. rewrite on_values_app. apply Forall2_app; [|rewrite <- walked_forward; by apply (runs_read t A)].
    pose proof (run_reads t A _ _ _ _ false Hp Hc H2 (length X)) as Hr. unfold in_way, on_values in Hr. rewrite skipn_map in Hr.
    by rewrite (so_split _ _ _ _ _ _ _ _ Hs), drop_app_length, <- (so_split _ _ _ _ _ _ _ _ Hs) in Hr.
Qed.
Lemma sought_backward : ∃ c, (if (length X =? 0)%nat then buf <-? page_bytes t p ;; prev <-? get64 buf 16 ;; enter t prev else Ok (mkCursor p (length es - length X) (length es))) = Ok c ∧
  at_link true A c (if (length X =? 0)%nat then tail (rev (left_of [] C)) else rev (left_of [] C)) ∧
  Forall2 (reads_as t true) (resume c (if (length X =? 0)%nat then tail (rev (left_of [] C)) else rev (left_of [] C))) (rev (on_values stored_value (contents (left_of [] C) ++ X))).
Proof using Hp Ht Hs.
  pose proof (at_cell _ _ _ _ _ _ Ht Hl) as Hc. pose proof (ph_cells _ _ Hp _ _ Hc) as [H0 _]. destruct sought_links as [_ Hf]. destruct sought_holds as (H1 & H2 & _).
  rewrite on_values_app, rev_app_distr.
  assert (Forall2 (reads_as t true) (runs (rev (left_of [] C))) (rev (on_values stored_value (contents (left_of [] C))))) as Hruns.
  { rewrite <- walked_back. apply (runs_read t A); [done|done|].
    rewrite Forall_forall in H1 |- *. intros e (x & Hx & He)%elem_contents. apply H1, elem_contents. exists x. split; [|done]. apply list_elem_of_In in Hx. apply list_elem_of_In. by apply in_rev. }
  destruct (Nat.eqb_spec (length X) 0) as [E|E].
  - apply nil_length_inv in E. rewrite E. simpl app. destruct (link_read _ _ _ _ _ _ true Hp Hc) as (buf & -> & Hg). cbn [rbind]. unfold link_of in Hg. rewrite Hg. cbn [rbind].
    rewrite <- first_page_rev. destruct (enter_ok t A true _ Hp Hf) as (c & -> & Hat & Hr). exists c. split; [done|]. split; [done|]. by rewrite Hr.
  - eexists. split; [done|]. split.
    + right. split; [simpl; lia|]. split; [done|]. eexists _, _, _. split; [exact Hc|]. by rewrite first_page_rev.
    + unfold resume. simpl. apply Forall2_app; [|exact Hruns].
      pose proof (run_reads t A _ _ _ _ true Hp Hc H2 (length es - length X)) as Hr. unfold in_way in Hr.
      replace (drop (length es - length X) (rev (on_values stored_value es))) with (rev (on_values stored_value X)) in Hr; [exact Hr|].
      rewrite (so_split _ _ _ _ _ _ _ _ Hs), on_values_app, rev_app_distr, length_app. unfold on_values. rewrite drop_app_ge; rewrite length_rev, length_map; [|lia].
      replace (length X + length Y - length X - length Y) with 0 by lia. by rewrite drop_0.
Qed.
End Sought.
