(* ===== verification/BPlusWrites.v ===== *)
(** * Writes to a tree

    [insert_bytes] and [delete_bytes] keep [tree_in] and change what is
    stored as [bt_insert] and [bt_remove] do, unless an internal page would
    have to split ([parent_room]). *)
From stdpp Require Import base numbers option gmap list.
From S2P Require Import Prelude Bytes BinarySearch Order BTreeMap Mmap Backend BPlusPages BPlusNodes BPlusBytes BPlusSlots BPlusCells BPlusPageOps BPlusStore BPlusAlloc BPlusLeaf BPlusSplit BPlusPut BPlusShape BPlusTree BPlusEdit BPlusReads.
Import Pages Nodes.
Implicit Types (t : BPlusTree) (A B : Abs) (p q n r next prev : nat) (c : cell) (v key k sep : list Z) (e : entry) (es X Y L R : list entry) (T : tree)
  (l : list fenced) (C : list frame) (F : frame) (cs : list sep).

(** ** The parent's separators around a split child *)
Definition split_frame F (sep : list Z) r R : frame := mkFrame (fr_page F) (fr_pre F) (fr_fence F) ((sep, Leaf r R) :: fr_post F).
Lemma n_upto_mid key cs1 cs2 : Forall (λ s : sep, upto s.1 key) cs1 → Forall (λ s : sep, cmp key s.1 = Lt) cs2 → n_upto key (cs1 ++ cs2) = length cs1.
Proof.
  induction 1 as [|[s c] cs1 Hs _ IH]; intros H2; simpl.
  - destruct H2 as [|[s c] cs2 Hs _]; [done|]. simpl in *. apply ltb_lt in Hs. by rewrite Hs.
  - simpl in Hs. apply upto_ltb in Hs. rewrite Hs. f_equal. by apply IH.
Qed.
Lemma seps_forest (P : list Z → Prop) (cts : list (list Z * tree)) : (∀ x, x ∈ forest cts → P x.1) → Forall (λ s : sep, P s.1) (seps cts).
Proof.
  intros HP. apply Forall_forall. intros s Hs. destruct (seps_elem page_of cts s.1) as (x & Hx); [apply list_elem_of_fmap; by exists s|]. by apply (HP (s.1, x)).
Qed.
Lemma split_frame_flat lo F C sep r R T : flat lo (plug C (fill (split_frame F sep r R) T)) =
  left_of lo (F :: C) ++ flat (hole_fence lo (F :: C)) T ++ (sep, (r, R)) :: right_of (F :: C).
Proof.
  change (plug C (fill (split_frame F sep r R) T)) with (plug (split_frame F sep r R :: C) T). rewrite flat_plug.
  change (left_of lo (split_frame F sep r R :: C)) with (left_of lo (F :: C)). change (hole_fence lo (split_frame F sep r R :: C)) with (hole_fence lo (F :: C)).
  done.
Qed.
Section Parent.
Context F C p r (fence : list Z) R (lst : list entry).
Context (Ho : in_order (left_of [] (F :: C) ++ (hole_fence [] (F :: C), (p, lst)) :: (fence, (r, R)) :: right_of (F :: C))).
Lemma fences_around : (∀ x, x ∈ left_of [] (F :: C) → cmp x.1 (hole_fence [] (F :: C)) = Lt) ∧ cmp (hole_fence [] (F :: C)) fence = Lt ∧
  (∀ x, x ∈ right_of (F :: C) → cmp fence x.1 = Lt).
Proof using Ho.
  destruct Ho as [Hw _]. apply wf_app in Hw as (_ & Hw & HX). destruct Hw as [HF [HG _]]. rewrite Forall_forall in HF. rewrite Forall_forall in HG. split; [|split].
  - intros x Hx. by apply (HX x (hole_fence [] (F :: C), (p, lst)) Hx (list_elem_of_here _ _)).
  - apply (HF (fence, (r, R))). left.
  - intros x Hx. by apply HG.
Qed.
Lemma frame_seps_wf : bt_wf (frame_node F p).2.2.
Proof using Ho.
  destruct Ho as [Hw _]. destruct fences_around as (H1 & H2 & H3). unfold frame_node. apply wf_app in Hw as (HwL & [_ [_ HwR]] & _).
  cbn [right_of] in HwR. apply wf_app in HwR as (HwP & _). simpl in H1, H2, H3.
  assert (∀ x, x ∈ forest (fr_post F) → cmp fence x.1 = Lt) as Hpost by (intros x Hx; apply H3, elem_of_app; by left).
  destruct (fr_pre F) as [[c cts]|] eqn:E; [|by apply seps_wf].
  assert (∀ x, x ∈ forest cts → cmp x.1 (fr_fence F) = Lt) as Hpre by (intros x Hx; apply H1; rewrite !elem_of_app; tauto).
  apply wf_app. split; [|split].
  - apply seps_wf. cbn [left_of] in HwL. rewrite E in HwL. apply wf_app in HwL as (_ & HwL & _). by apply wf_app in HwL as (_ & ? & _).
  - split; [|by apply seps_wf]. apply (seps_forest (λ s, cmp (fr_fence F) s = Lt)). intros x Hx. specialize (Hpost x Hx). simpl in *. ord.
  - intros a b Ha Hb. pose proof (seps_forest (λ s, cmp s (fr_fence F) = Lt) cts Hpre) as HF. rewrite Forall_forall in HF. specialize (HF a Ha).
    apply elem_of_cons in Hb as [->|Hb]; [done|]. pose proof (seps_forest (λ s, cmp fence s = Lt) _ Hpost) as HG. rewrite Forall_forall in HG. specialize (HG b Hb). simpl in *. ord.
Qed.
(** The new separator goes right behind the child that split. *)
Lemma parent_position : (frame_node (split_frame F fence r R) p).2 =
  ((frame_node F p).2.1, insert_at (n_upto fence (frame_node F p).2.2) (fence, r) (frame_node F p).2.2).
Proof using Ho.
  destruct fences_around as (H1 & H2 & H3). unfold frame_node, split_frame. simpl in *.
  assert (Forall (λ s : sep, cmp fence s.1 = Lt) (seps (fr_post F))) as HG.
  { apply (seps_forest (λ s, cmp fence s = Lt)). intros x Hx. apply H3, elem_of_app. by left. }
  destruct (fr_pre F) as [[c cts]|] eqn:E; simpl; f_equal.
  - assert (Forall (λ s : sep, upto s.1 fence) (seps cts ++ [(fr_fence F, p)])) as HL.
    { apply Forall_app. split; [|constructor; [by apply lt_upto|constructor]]. apply (seps_forest (λ s, upto s fence)). intros x Hx. apply lt_upto.
      assert (cmp x.1 (fr_fence F) = Lt) by (apply H1; rewrite !elem_of_app; tauto). ord. }
    change (seps cts ++ (fr_fence F, p) :: seps (fr_post F)) with (seps cts ++ [(fr_fence F, p)] ++ seps (fr_post F)). rewrite app_assoc.
    rewrite (n_upto_mid _ _ _ HL HG), insert_at_mid, <- app_assoc. done.
  - pose proof (n_upto_mid fence [] _ (Forall_nil_2 _) HG) as E'. simpl in E'. by rewrite E'.
Qed.
End Parent.

(** ** Small steps *)
Lemma inc_entries_ok t A d : phys t A → (0 ≤ a_count A + d < two64)%Z → ∃ t', inc_entries d t = (t', Ok tt) ∧ phys t' (with_count (a_count A + d) A).
Proof.
  intros Hp Hb. unfold inc_entries. destruct (ph_meta _ _ Hp) as (meta & Hm & Hok). rewrite Hm. cbn [reading]. pose proof (ph_entries _ _ Hp) as (Hc & Hcb & _).
  rewrite (get_of_bytes 8 meta META_ENTRIES _ (mo_entries _ _ _ Hok)) by (rewrite Hc; exact Hcb). cbn [reading]. rewrite Hc.
  rewrite Z.mod_small by done. by apply write_entries_ok.
Qed.
Lemma splits_locate k es X Y : splits_at k es X Y → bt_wf es →
  locate k es = Absent (length X) ∧ es = X ++ Y ∨ locate k es = Found (length X) ∧ ∃ plo, es = X ++ (k, plo) :: Y.
Proof.
  intros (HX & HY & [->|(plo & ->)]) Hw; [left; by rewrite locate_gap|]. right. rewrite locate_here by done. split; [done|]. by exists plo.
Qed.
Lemma split_keys k es X Y pl : splits_at k es X Y → keys_from k es (X ++ (k, pl) :: Y).
Proof.
  intros (_ & _ & Hes) e [He|[->|He]%elem_of_cons]%elem_of_app; [right|by left|right].
  - exists e. split; [|done]. destruct Hes as [->|(plo & ->)]; rewrite elem_of_app; tauto.
  - exists e. split; [|done]. destruct Hes as [->|(plo & ->)]; rewrite elem_of_app, ?elem_of_cons; tauto.
Qed.
Lemma split_wf k es X Y pl : splits_at k es X Y → bt_wf es → bt_wf (X ++ (k, pl) :: Y).
Proof.
  intros (HX & HY & Hes) Hw. assert (bt_wf (X ++ Y)) as HXY.
  { destruct Hes as [->|(plo & ->)]; [done|]. apply wf_app in Hw as (H1 & [_ H2] & H3). apply wf_app. split; [done|]. split; [done|]. intros a b Ha Hb. apply H3; [done|by right]. }
  apply wf_app in HXY as (H1 & H2 & H3). apply wf_app. split; [done|]. split; [split; [exact HY|done]|]. unfold under in HX. rewrite Forall_forall in HX.
  intros a b Ha [->|Hb]%elem_of_cons; [by apply HX|by apply H3].
Qed.
Lemma split_inserted k es X Y pl (l1 l2 : list entry) : splits_at k es X Y → under k l1 → over k l2 → l1 ++ (X ++ (k, pl) :: Y) ++ l2 = bt_insert k pl (l1 ++ es ++ l2).
Proof.
  intros (HX & HY & Hes) H1 H2. rewrite insert_skip by done. f_equal. assert (over k (Y ++ l2)) as Ho by (by apply over_app).
  destruct Hes as [->|(plo & ->)]; rewrite <- !app_assoc, <- ?app_comm_cons; symmetry; [by apply insert_gap|by apply insert_here].
Qed.
Lemma split_other k es X Y e : splits_at k es X Y → e ∈ X ++ Y → e ∈ es ∧ e.1 ≠ k.
Proof.
  intros (HX & HY & Hes) He. split; [destruct Hes as [->|(plo & ->)]; [done|rewrite elem_of_app, elem_of_cons in *; tauto]|].
  unfold under, over in *. rewrite Forall_forall in HX. rewrite Forall_forall in HY. intros Hk. apply elem_of_app in He as [He|He]; [specialize (HX e He)|specialize (HY e He)]; simpl in *.
  - rewrite Hk in HX. by rewrite cmp_refl in HX.
  - rewrite Hk in HY. by rewrite cmp_refl in HY.
Qed.
Lemma path_length_ok path : path_ok path → path_length path = length (path_pages path).
Proof. intros (Hi & Hl & _). unfold path_length, path_pages. rewrite length_app, length_rev, length_take. lia. Qed.

(** ** After the leaf has split *)
Record tidy_entry e : Prop := {
  te_cost : entry_cost e ≤ MAX_ENTRY;
  te_bytes : Forall is_byte e.1;
  te_storable : storable e.1 (stored_value e.2);
  te_size : payload_size e.2 = payload_len e.1 (stored_value e.2) }.
Definition tidy T : Prop := Forall tidy_entry (contents (flat [] T)).
Lemma holds_kept (W : list nat) A B e : keeps W A B → (∀ q, q ∈ W → ∀ j bs, a_cells A !! q ≠ Some (CExt j bs)) → holds_value (a_cells A) e → holds_value (a_cells B) e.
Proof. intros Hk. apply holds_keeps. apply Hk. Qed.
Section Split.
Context t A T k C p es X Y A1 (pl : payload) r (sep : list Z) L R (Hp : phys t A) (Ht : tree_in A T) (Hl : at_leaf A T k C p es) (Hs : splits_at k es X Y).
#[local] Abbreviation nxt := (first_page (right_of C) 0).
#[local] Abbreviation prv := (last_page (left_of [] C) 0).
Context (Hsp : split_leaf p nxt prv k X Y A A1 pl r sep L R) (Hpl : holds_value (a_cells A1) (k, pl)).
Lemma next_cell : nxt = 0 ∨ ∃ nn np es', a_cells A !! nxt = Some (CLeaf nn np es').
Proof using Hsp. destruct (sl_links _ _ _ _ _ _ _ _ _ _ _ _ _ Hsp) as [->|(nn & np & es' & Hc & _)]; [by left|right]. by exists nn, np, es'. Qed.
Lemma new_beside q : q ∈ others C p → q ≠ r.
Proof using Ht Hl Hsp.
  intros Hq ->. destruct (other_cell A T k C p es Ht Hl _ Hq) as (c & Hc & Hu & Hx). destruct (sl_new _ _ _ _ _ _ _ _ _ _ _ _ _ Hsp) as (_ & _ & Hn). by apply (Hn c Hu).
Qed.
Lemma split_extents q c : q ∈ [p; r; nxt] → a_cells A !! q = Some c → not_extent k c.
Proof using Hp Ht Hl Hsp.
  intros Hq Hc j bs Hj ->. apply elem_of_cons in Hq as [->|Hq]; [rewrite (at_cell _ _ _ _ _ _ Ht Hl) in Hc; done|].
  apply elem_of_cons in Hq as [->|Hq].
  - destruct (sl_new _ _ _ _ _ _ _ _ _ _ _ _ _ Hsp) as (_ & _ & Hn). apply (Hn (CExt j bs) I); [|done]. intros bs' [= ? ?]. congruence.
  - apply list_elem_of_singleton in Hq as ->. destruct next_cell as [E|(nn & np & es' & Hc')]; [|congruence]. rewrite E in Hc. apply (ph_cells _ _ Hp) in Hc as [? _]. lia.
Qed.
Lemma split_fences : bt_wf es → tidy_entry (k, pl) → Forall tidy_entry es → ∃ a b, last L = Some a ∧ head R = Some b ∧ cmp a.1 sep = Lt ∧ upto sep b.1 ∧ length sep ≤ length b.1 ∧ tidy_entry b.
Proof using Hs Hsp.
  intros Hw Hpt HF. pose proof (sl_entries _ _ _ _ _ _ _ _ _ _ _ _ _ Hsp) as HLR. destruct (sl_sep _ _ _ _ _ _ _ _ _ _ _ _ _ Hsp) as (a & b & Ha & Hb & ->).
  exists a, b. pose proof (split_wf k es X Y pl Hs Hw) as Hw'. rewrite <- HLR in Hw'. apply wf_app in Hw' as (_ & _ & HX).
  assert (a ∈ L) as HaL by (apply last_Some in Ha as (L' & ->); apply elem_of_app; right; left). assert (b ∈ R) as HbR by (destruct R; [done|injection Hb as ->; left]).
  assert (tidy_entry b) as Htb.
  { assert (b ∈ X ++ (k, pl) :: Y) as Hin by (rewrite <- HLR; apply elem_of_app; by right). rewrite Forall_forall in HF.
    rewrite elem_of_app, elem_of_cons in Hin.
    destruct Hin as [Hin|[->|Hin]]; [|done|]; apply HF, (split_other k es X Y b Hs); rewrite elem_of_app; tauto. }
  destruct (separator_parts a.1 b.1 (HX a b HaL HbR) (te_bytes _ Htb)) as (H1 & H2 & H3). by split_and!.
Qed.
(** The store once the split is known above the leaf: only the pages of [W]
    have changed since. *)
Lemma split_in_store (W : list nat) z B : keeps W (with_count z A1) B → a_right B = a_right A1 → a_count B = z →
  (∀ q, q ∈ W → q ≠ p ∧ q ≠ r ∧ (q ∉ pages_in (left_of [] C) ++ pages_in (right_of C)) ∧ ∀ j bs, a_cells A1 !! q ≠ Some (CExt j bs)) →
  (∀ q c, q ∈ W → a_cells A !! q = Some c → not_extent k c) → (∀ q, q ∈ W → q ≠ 0) →
  bt_wf es → tidy_entry (k, pl) → Forall tidy_entry es → z = Z.of_nat (length (contents (left_of [] C) ++ (X ++ (k, pl) :: Y) ++ contents (right_of C))) →
  split_in A k C p es ([p; r; nxt] ++ W) B L R r sep.
Proof using Hp Ht Hl Hs Hsp Hpl.
  intros Hk Hg Hcnt HW HWA HW0 Hw Hpt HF Hz. pose proof (sl_entries _ _ _ _ _ _ _ _ _ _ _ _ _ Hsp) as HLR.
  destruct (split_fences Hw Hpt HF) as (a & b & Ha & Hb & Has & Hsb & _). pose proof (sl_keeps _ _ _ _ _ _ _ _ _ _ _ _ _ Hsp) as Hak.
  assert (amends ([p; r; nxt] ++ W) k A B) as Ham.
  { eapply amends_trans; [|apply amends_keeps; exact Hk]. destruct Hak. by constructor. }
  assert (∀ q c, q ∈ [p; r; nxt] ++ W → a_cells A !! q = Some c → not_extent k c) as Hext.
  { intros q c [Hq|Hq]%elem_of_app; [by apply split_extents|by apply HWA]. }
  assert (∀ q c, q ∉ W → in_use c → a_cells A1 !! q = Some c → a_cells B !! q = Some c) as Hkeep by apply Hk.
  assert (nxt ∉ W) as HnW.
  { intros Hq. destruct next_cell as [E|(nn & np & es' & Hc)]; [by apply (HW0 _ Hq)|]. destruct (HW _ Hq) as (_ & _ & Hnl & _). apply Hnl.
    rewrite elem_of_app. right. destruct (right_of C) as [|[f [q es'']] l]; simpl in *; [apply (ph_cells _ _ Hp) in Hc as [? _]; lia|left]. }
  pose proof Hsp as [_ _ _ HcG _ HcL HcR _]. constructor.
  - rewrite HLR. by apply split_keys.
  - rewrite HLR. by eapply split_wf.
  - by exists a, b.
  - apply Hkeep; [intros Hq; by apply HW in Hq as (? & _)|done|exact HcL].
  - apply Hkeep; [intros Hq; by apply HW in Hq as (_ & ? & _)|done|exact HcR].
  - destruct (sl_links _ _ _ _ _ _ _ _ _ _ _ _ _ Hsp) as [->|(nn & np & es' & E1 & E2)]; [by left|right]. exists nn, np, es'. split; [done|]. by apply Hkeep.
  - by rewrite Hg.
  - exact Ham.
  - intros q Hq Hin. assert (q ∈ others C p) as Hqo by (unfold others; rewrite elem_of_app; by right).
    apply elem_of_app in Hq as [Hq|Hq]; [|by destruct (HW _ Hq) as (_ & _ & ? & _)]. rewrite !elem_of_cons, elem_of_nil in Hq. destruct Hq as [->|[->|[->|[]]]]; [|by destruct (new_beside r Hqo)|done].
    pose proof (others_nodup A T k C p es Ht Hl) as Hnd. apply NoDup_cons in Hnd as [Hnd _]. done.
  - exact Hext.
  - rewrite HLR. destruct (kept_values A T k C p es Ht Hl _ B Ham Hext) as (_ & _ & HV).
    assert (∀ e, e ∈ X ++ Y → holds_value (a_cells B) e) as HXY. { intros e He. destruct (split_other k es X Y e Hs He). by apply HV. }
    assert (holds_value (a_cells B) (k, pl)) as Hh. { eapply (holds_kept W (with_count z A1)); [exact Hk| |exact Hpl]. intros q Hq. by apply HW. }
    apply Forall_forall. intros e. rewrite elem_of_app, elem_of_cons. intros [He|[->|He]]; [apply HXY|done|apply HXY]; rewrite elem_of_app; tauto.
  - by rewrite HLR, Hcnt.
Qed.

(** ** Above the split: the parent takes the separator, or a root grows *)
Lemma split_order : bt_wf es → tidy_entry (k, pl) → Forall tidy_entry es →
  in_order (left_of [] C ++ (hole_fence [] C, (p, L)) :: (sep, (r, R)) :: right_of C).
Proof using Ht Hl Hs Hsp.
  intros Hw Hpt HF. destruct (split_fences Hw Hpt HF) as (a & b & Ha & Hb & Has & Hsb & _). pose proof (sl_entries _ _ _ _ _ _ _ _ _ _ _ _ _ Hsp) as HLR.
  eapply order_split; [|done|done|done|done]. eapply order_leaf; [rewrite <- (at_flat _ _ _ _ _ _ Hl); apply Ht|apply Hl|apply Hl|..]; rewrite HLR; [by eapply split_wf|by apply split_keys].
Qed.
Lemma new_page_number t1 z : phys t1 (with_count z A1) → page_number r.
Proof using Hsp. intros Hp1. pose proof (ph_bound _ _ Hp1) as Hb. simpl in Hb. destruct (sl_new _ _ _ _ _ _ _ _ _ _ _ _ _ Hsp) as (Hr & _). unfold page_number in *. lia. Qed.
Lemma parent_cell F C' : C = F :: C' → a_cells A !! fr_page F = Some (CInternal (frame_node F p).2.1 (frame_node F p).2.2) ∧ fr_page F ∈ others C p ∧
  fr_page F ∉ pages_in (left_of [] C) ++ pages_in (right_of C).
Proof using Ht Hl Hsp.
  intros ->. pose proof (edit_nodes _ _ _ _ _ _ Ht Hl) as HF. cbn [ctx_nodes] in HF. apply Forall_cons in HF as [HF _]. split; [exact HF|].
  assert (fr_page F ∈ map fst (ctx_nodes (F :: C') p)) as Hin by (left). split; [unfold others; rewrite elem_of_app; by left|].
  pose proof (others_nodup _ _ _ _ _ _ Ht Hl) as Hnd. apply NoDup_cons in Hnd as [_ Hnd]. unfold others in Hnd. apply NoDup_app in Hnd as (_ & Hnd & _). by apply Hnd.
Qed.
Lemma parent_pages F C' : C = F :: C' → NoDup (tree_pages (plug C' (fill (split_frame F sep r R) (Leaf p L)))).
Proof using Ht Hl Hsp.
  intros HC. pose proof (others_nodup _ _ _ _ _ _ Ht Hl) as Hnd. destruct (sl_new _ _ _ _ _ _ _ _ _ _ _ _ _ Hsp) as (_ & Hrp & _).
  assert (NoDup (r :: p :: others C p)) as Hnd'.
  { apply NoDup_cons. split; [|exact Hnd]. rewrite elem_of_cons. intros [->|Hq]; [done|]. by apply (new_beside _ Hq). }
  assert (tree_pages (plug C' (fill (split_frame F sep r R) (Leaf p L))) ≡ₚ r :: p :: others C p) as ->; [|exact Hnd']. unfold tree_pages. rewrite split_frame_flat. unfold others. rewrite HC.
  change (plug C' (fill (split_frame F sep r R) (Leaf p L))) with (plug (split_frame F sep r R :: C') (Leaf p L)). rewrite nodes_plug.
  cbn [nodes ctx_nodes map app]. change (frame_sides (split_frame F sep r R)) with (frame_sides F). change (fr_page (split_frame F sep r R)) with (fr_page F).
  change (frame_node (split_frame F sep r R) p).1 with (fr_page F). change (frame_node F p).1 with (fr_page F). cbn [flat page_of]. rewrite !pages_in_app. cbn [pages_in map fst snd]. solve_Permutation.
Qed.
Lemma parent_nodes (W : list nat) F C' B : C = F :: C' → amends W k A B → (∀ q, q ∈ W → q ∈ p :: r :: nxt :: [fr_page F]) →
  a_cells B !! fr_page F = Some (CInternal (frame_node (split_frame F sep r R) p).2.1 (frame_node (split_frame F sep r R) p).2.2) →
  nodes_in (a_cells B) (nodes (plug C' (fill (split_frame F sep r R) (Leaf p L)))).
Proof using Hp Ht Hl Hsp.
  intros HC Ha HW Hc. change (plug C' (fill (split_frame F sep r R) (Leaf p L))) with (plug (split_frame F sep r R :: C') (Leaf p L)). unfold nodes_in. rewrite nodes_plug.
  cbn [nodes ctx_nodes app]. change (frame_sides (split_frame F sep r R)) with (frame_sides F). change (fr_page (split_frame F sep r R)) with (fr_page F).
  constructor; [exact Hc|]. pose proof (others_nodup _ _ _ _ _ _ Ht Hl) as Hnd. pose proof (edit_nodes _ _ _ _ _ _ Ht Hl) as HF. rewrite HC in HF. cbn [ctx_nodes] in HF.
  apply Forall_cons in HF as [_ HF]. apply Forall_forall. intros n Hn. rewrite Forall_forall in HF. specialize (HF n Hn).
  assert (n.1 ∈ map fst (frame_sides F ++ ctx_nodes C' (fr_page F))) as Hin by (apply list_elem_of_fmap; by exists n).
  assert (n.1 ∈ others C p) as Hno. { unfold others. rewrite HC. cbn [ctx_nodes map]. rewrite elem_of_app, elem_of_cons. tauto. }
  pose proof (ph_cells _ _ Hp _ _ HF) as [H0n _].
  eapply kept_cell; [exact Ht|exact Hl|exact Ha|exact Hno|exact HF|]. intros Hq%HW. rewrite !elem_of_cons, elem_of_nil in Hq.
  apply NoDup_cons in Hnd as [Hnp Hnd]. destruct Hq as [E|[E|[E|[E|[]]]]].
  - by rewrite E in Hno.
  - by apply (new_beside _ Hno).
  - destruct next_cell as [E'|(nn & np & es' & Hcn)]; [lia|]. rewrite <- E in Hcn. congruence.
  - unfold others in Hnd. rewrite HC in Hnd. cbn [ctx_nodes map app] in Hnd. apply NoDup_cons in Hnd as [Hnd _]. apply Hnd. rewrite elem_of_app. left. rewrite E in Hin. exact Hin.
Qed.
Lemma parent_kept F C' : C = F :: C' → a_cells A1 !! fr_page F = Some (CInternal (frame_node F p).2.1 (frame_node F p).2.2).
Proof using Hp Ht Hl Hsp.
  intros HC. destruct (parent_cell F C' HC) as (Hpc & Hpo & _). pose proof (new_beside _ Hpo) as Hpr. pose proof (ph_cells _ _ Hp _ _ Hpc) as [H0p _].
  apply (amends_lookup [p; r; nxt] k A _ (fr_page F)); [apply Hsp|exact Hpc| |done|done]. rewrite !elem_of_cons, elem_of_nil.
  intros [E|[E|[E|[]]]]; [|done|].
  - pose proof (others_nodup _ _ _ _ _ _ Ht Hl) as Hnd. apply NoDup_cons in Hnd as [Hnd _]. by rewrite E in Hpo.
  - destruct next_cell as [E'|(nn & np & es' & Hc)]; [lia|]. rewrite <- E in Hc. congruence.
Qed.
Lemma grow_parent F C' t1 z : C = F :: C' → a_root A1 = a_root A → phys t1 (with_count z A1) → bt_wf es → tidy_entry (k, pl) → Forall tidy_entry es →
  z = Z.of_nat (length (contents (left_of [] C) ++ (X ++ (k, pl) :: Y) ++ contents (right_of C))) →
  internal_fits (frame_node F p).2.2 (10 + length sep) → ∃ t2 B T', internal_insert (fr_page F) sep r t1 = (t2, Ok None) ∧ phys t2 B ∧ tree_in B T' ∧
  flat [] T' = left_of [] C ++ (hole_fence [] C, (p, L)) :: (sep, (r, R)) :: right_of C ∧ a_pages B = a_pages A1 ∧ a_config B = a_config A1.
Proof using Hp Ht Hl Hs Hsp Hpl.
  intros HC Hrt Hp1 Hw Hpt HF Hz Hfit. destruct (parent_cell F C' HC) as (Hpc & Hpo & Hpl'). pose proof (split_order Hw Hpt HF) as Ho.
  pose proof (others_nodup _ _ _ _ _ _ Ht Hl) as Hnd. pose proof (NoDup_cons_1_1 _ _ Hnd) as Hpn. pose proof (new_beside _ Hpo) as Hpr. pose proof (ph_cells _ _ Hp _ _ Hpc) as [H0p _].
  assert (fr_page F ≠ p) as Hpp by (intros E; by rewrite E in Hpo). destruct (sl_new _ _ _ _ _ _ _ _ _ _ _ _ _ Hsp) as (Hr & Hrp & _).
  assert (fr_page F ≠ nxt) as Hpx. { intros E. destruct next_cell as [E'|(nn & np & es' & Hc)]; [lia|]. rewrite <- E in Hc. congruence. }
  pose proof (parent_kept F C' HC) as Hpc1. change (a_cells A1) with (a_cells (with_count z A1)) in Hpc1.
  rewrite HC in Ho. pose proof (frame_seps_wf F C' p r sep R L Ho) as Hsw. pose proof (parent_position F C' p r sep R L Ho) as Hpos.
  destruct (split_fences Hw Hpt HF) as (a & b & _ & _ & _ & _ & Hlen & [Hcost _]).
  assert (sep_ok (sep, r)) as Hso.
  { split; [|by apply (new_page_number t1 z)]. unfold entry_cost in Hcost. rewrite enc_entry_length in Hcost. unfold MAX_ENTRY in Hcost. simpl. lia. }
  destruct (internal_insert_ok t1 _ (fr_page F) _ _ sep r Hp1 Hpc1 Hsw Hfit Hso) as (t2 & Hi & Hp2).
  eexists t2, _, (plug C' (fill (split_frame F sep r R) (Leaf p L))). split; [exact Hi|]. split; [exact Hp2|].
  set (B := put_cell _ _ _) in *.
  assert (flat [] (plug C' (fill (split_frame F sep r R) (Leaf p L))) = left_of [] C ++ (hole_fence [] C, (p, L)) :: (sep, (r, R)) :: right_of C) as Hfl.
  { rewrite split_frame_flat, HC. done. }
  assert (split_in A k C p es ([p; r; nxt] ++ [fr_page F]) B L R r sep) as Hsi.
  { apply (split_in_store [fr_page F] z); try done.
    - apply keeps_put_r; [apply kept_refl|left].
    - intros q ->%list_elem_of_singleton. split; [done|]. split; [done|]. split; [done|]. intros j bs. simpl in Hpc1. by rewrite Hpc1.
    - intros q c ->%list_elem_of_singleton. rewrite Hpc. by intros [= <-].
    - intros q ->%list_elem_of_singleton. lia. }
  split; [|by split]. eapply edit_split; [exact Hp|exact Ht|exact Hl|exact Hsi|exact Hfl|..].
  - change (a_root B) with (a_root A1). rewrite Hrt, (ti_root _ _ Ht), (al_tree _ _ _ _ _ _ Hl), HC. cbn [plug foldl]. apply page_plug. by rewrite !page_fill.
  - apply (parent_nodes ([p; r; nxt] ++ [fr_page F]) F C' B HC (si_keeps _ _ _ _ _ _ _ _ _ _ _ Hsi)); [done|]. rewrite Hpos. apply put_lookup.
  - by apply parent_pages.
Qed.
Lemma grow_top t1 z : C = [] → phys t1 (with_count z A1) → bt_wf es → tidy_entry (k, pl) → Forall tidy_entry es →
  z = Z.of_nat (length (contents (left_of [] C) ++ (X ++ (k, pl) :: Y) ++ contents (right_of C))) → page_number (a_pages A1 + 1) →
  ∃ t2 B T', grow_root (mkSplit p r sep) t1 = (t2, Ok tt) ∧ phys t2 B ∧ tree_in B T' ∧
  flat [] T' = left_of [] C ++ (hole_fence [] C, (p, L)) :: (sep, (r, R)) :: right_of C ∧ a_pages B ≤ a_pages A1 + 1 ∧ a_config B = a_config A1.
Proof using Hp Ht Hl Hs Hsp Hpl.
  intros HC Hp1 Hw Hpt HF Hz Hpn. destruct (split_fences Hw Hpt HF) as (a & b & _ & _ & _ & _ & Hlen & [Hcost _]).
  unfold entry_cost in Hcost. rewrite enc_entry_length in Hcost. pose proof Hsp as [_ _ (Hr & Hrp & _) _ _ HcL HcR _].
  assert (sep_ok (sep, r)) as Hso. { split; [|by apply (new_page_number t1 z)]. unfold MAX_ENTRY in Hcost. simpl. lia. }
  destruct (grow_root_ok t1 (with_count z A1) p r sep _ _ _ Hp1 HcL Hso) as (t2 & nr & B & Hg & Hp2 & [[Hnr Hnu] Hcn Hrt Hrg Hct Hpg Hk]); [lia|done|].
  exists t2, B, (Node nr (Leaf p L) [(sep, Leaf r R)]). split; [exact Hg|]. split; [exact Hp2|].
  assert (flat [] (Node nr (Leaf p L) [(sep, Leaf r R)]) = left_of [] C ++ (hole_fence [] C, (p, L)) :: (sep, (r, R)) :: right_of C) as Hfl by (by rewrite HC).
  split; [|split; [exact Hfl|]; split; [exact Hpg|apply Hk]].
  assert (split_in A k C p es ([p; r; nxt] ++ []) B L R r sep) as Hsi.
  { apply (split_in_store [] z); try done; intros; exfalso; by eapply not_elem_of_nil. }
  eapply edit_split; [exact Hp|exact Ht|exact Hl|exact Hsi|exact Hfl|exact Hrt|..].
  - constructor; [exact Hcn|constructor].
  - change (NoDup [nr; p; r]). rewrite !NoDup_cons, !elem_of_cons, !elem_of_nil. split_and!; [|naive_solver|naive_solver|apply NoDup_nil_2].
    intros [E|[E|[]]]; rewrite E in Hnu; [exact (Hnu (CLeaf _ prv L) I HcL)|exact (Hnu (CLeaf nxt p R) I HcR)].
Qed.
End Split.

(** ** Putting *)
(** The page has room for a separator [key]. *)
Definition separator_room t page key : bool :=
  match (buf <-? page_bytes t page ;; count <-? page_count buf ;; data_off <-? data_offset buf ;;
         Ok (negb (data_off <? HEADER_SIZE + count * SLOT_SIZE + (10 + length key) + SLOT_SIZE)%nat)) with Ok b => b | _ => false end.
(** Putting [value] under [key] splits no internal page. *)
Definition parent_room t key value : bool :=
  match descend_to_leaf t key with
  | Ok h =>
      match leaf_insert_bytes (leaf_page h) key value (slot h) t, path_next (path h) with
      | (t, Ok (Some split)), Some (pg, _) => separator_room t pg (separator_key split)
      | _, _ => true
      end
  | _ => false
  end.
Lemma separator_room_fits t A pg leftmost cs key : phys t A → a_cells A !! pg = Some (CInternal leftmost cs) → separator_room t pg key = true → internal_fits cs (10 + length key).
Proof.
  intros Hp Hc. destruct (page_lookup _ _ _ _ Hp Hc) as (buf & Hb & Hi & Hpn). unfold separator_room. rewrite Hb. cbn [rbind].
  rewrite (internal_count _ _ _ Hi), (internal_data_off _ _ _ Hi). cbn [rbind]. pose proof (internal_room _ _ _ Hi) as Hroom.
  rewrite negb_true_iff, Nat.ltb_ge. unfold internal_fits. page_lia.
Qed.
Lemma descend_to_leaf_ok t A T key : phys t A → tree_in A T → ∃ C p es, at_leaf A T key C p es ∧
  descend_to_leaf t key = Ok (mkHint p (path_of C path_new) (locate key es)).
Proof.
  intros Hp Ht. destruct (find_leaf_ok t A T key Hp Ht) as (C & p & es & Hl & _ & Hd). exists C, p, es. split; [done|]. unfold descend_to_leaf.
  destruct (meta_page_ok _ _ Hp) as (-> & _). cbn [rbind]. rewrite Hd. cbn [rbind fst snd].
  pose proof (at_cell _ _ _ _ _ _ Ht Hl) as Hc. destruct (leaf_page_at _ _ _ _ _ _ Hp Hc) as (buf & -> & Hleaf & _). cbn [rbind].
  rewrite (leaf_count _ _ _ _ Hleaf). cbn [rbind]. rewrite (leaf_find_ok _ _ _ _ _ _ Hp Hc key (at_wf _ _ _ _ _ _ Ht Hl)). done.
Qed.
Lemma with_count_same A : with_count (a_count A) A = A.
Proof. by destruct A. Qed.
Lemma count_ok t A (existed : bool) : phys t A → (a_count A + 1 < two64)%Z → ∃ t', (if existed then (t, Ok tt) else inc_entries 1 t) = (t', Ok tt) ∧
  phys t' (with_count (if existed then a_count A else a_count A + 1) A).
Proof.
  intros Hp Hb. destruct existed; [exists t; by rewrite with_count_same|]. destruct (ph_entries _ _ Hp) as (_ & Hc & _). apply inc_entries_ok; [done|lia].
Qed.
Lemma put_tidy k v pl : payload_for k v pl → storable k v → small_entry k v → Forall is_byte k → tidy_entry (k, pl).
Proof.
  intros Hpf Hst Hs Hb. constructor; simpl; rewrite ?(pf_value _ _ _ Hpf); [|done|done|apply Hpf]. unfold entry_cost. by rewrite (enc_entry_size _ _ _ Hpf).
Qed.
(** What a put leaves. *)
Record put_result t A T k v t' A' T' : Prop := {
  pr_phys : phys t' A';
  pr_tree : tree_in A' T';
  pr_tidy : tidy T';
  pr_stored : stored T' = bt_insert k v (stored T);
  pr_pages : a_pages A' ≤ a_pages A + chunks v + 2;
  pr_config : a_config A' = a_config A }.
Section Put.
Context t A T k v C p es (Hp : phys t A) (Ht : tree_in A T) (Hd : tidy T) (Hl : at_leaf A T k C p es).
#[local] Abbreviation nxt := (first_page (right_of C) 0).
#[local] Abbreviation prv := (last_page (left_of [] C) 0).
Lemma put_contents X Y pl T' : splits_at k es X Y → contents (flat [] T') = contents (left_of [] C) ++ (X ++ (k, pl) :: Y) ++ contents (right_of C) →
  contents (flat [] T') = bt_insert k pl (contents (flat [] T)).
Proof using Ht Hl.
  intros Hs ->. destruct (at_around _ _ _ _ _ _ Ht Hl) as [Hu Ho]. rewrite (at_contents _ _ _ _ _ _ Hl). by apply split_inserted.
Qed.
Lemma put_stored X Y pl T' : splits_at k es X Y → payload_for k v pl → contents (flat [] T') = contents (left_of [] C) ++ (X ++ (k, pl) :: Y) ++ contents (right_of C) →
  stored T' = bt_insert k v (stored T).
Proof using Ht Hl.
  intros Hs Hpf Hc. unfold stored. rewrite (put_contents X Y pl T' Hs Hc), values_insert. by rewrite (pf_value _ _ _ Hpf).
Qed.
Lemma leaf_tidy : Forall tidy_entry es.
Proof using Hd Hl. unfold tidy in Hd. rewrite (at_contents _ _ _ _ _ _ Hl), !Forall_app in Hd. tauto. Qed.
Lemma put_all_tidy X Y pl T' : splits_at k es X Y → tidy_entry (k, pl) → contents (flat [] T') = contents (left_of [] C) ++ (X ++ (k, pl) :: Y) ++ contents (right_of C) → tidy T'.
Proof using Hd Hl.
  intros Hs Hpt Hc. unfold tidy in *. rewrite Hc. rewrite (at_contents _ _ _ _ _ _ Hl), !Forall_app in Hd. rewrite !Forall_app, Forall_cons.
  destruct Hd as (H1 & H2 & H3). destruct Hs as (_ & _ & [->|(plo & ->)]); rewrite Forall_app, ?Forall_cons in H2; tauto.
Qed.
Lemma put_count X Y pl : splits_at k es X Y → Z.of_nat (length (contents (left_of [] C) ++ (X ++ (k, pl) :: Y) ++ contents (right_of C))) =
  (if match locate k es with Found _ => true | Absent _ => false end then a_count A else a_count A + 1)%Z.
Proof using Ht Hl.
  intros Hs. rewrite (ti_count _ _ Ht), (at_contents _ _ _ _ _ _ Hl), !length_app. cbn [length].
  destruct (splits_locate _ _ _ _ Hs (at_wf _ _ _ _ _ _ Ht Hl)) as [[-> ->]|(-> & plo & ->)]; rewrite length_app; cbn [length]; lia.
Qed.
Lemma put_existed : match locate k es with Found _ => true | Absent _ => false end = bt_contains k (stored T).
Proof using Ht Hl.
  unfold bt_contains, stored. rewrite values_get, (at_get _ _ _ _ _ _ Ht Hl).
  destruct (wf_split k es (at_wf _ _ _ _ _ _ Ht Hl)) as [(X & pl & Y & -> & HX & HY)|(X & Y & -> & HX & HY)]; [by rewrite locate_here, get_here|by rewrite locate_gap, get_gap].
Qed.
Lemma insert_hint_ok : storable k v → small_entry k v → Forall is_byte k → page_number (a_pages A + chunks v + 2) → (a_count A + 1 < two64)%Z →
  descend_to_leaf t k = Ok (mkHint p (path_of C path_new) (locate k es)) → parent_room t k v = true → ∃ t' A' T',
  insert_bytes k v (Some (mkHint p (path_of C path_new) (locate k es))) t = (t', Ok (bt_contains k (stored T))) ∧ put_result t A T k v t' A' T'.
Proof using Hp Ht Hd Hl.
  intros Hst Hse Hb Hpn Hcb Hdesc Hroom. unfold parent_room in Hroom. rewrite Hdesc in Hroom. cbn [leaf_page slot path] in Hroom.
  pose proof (at_wf _ _ _ _ _ _ Ht Hl) as Hw. pose proof (at_cell _ _ _ _ _ _ Ht Hl) as Hc. pose proof leaf_tidy as HF.
  destruct (leaf_insert_ok t A p nxt prv es k v Hp Hc Hw (at_holds _ _ _ _ _ _ Ht Hl)) as (X & Y & t1 & A1 & pl & o & Hs & Hins & Hp1 & [Hpf Hh Hrt Hct Hpg Hlf]); try done.
  { eapply Forall_impl; [exact HF|]. by intros e []. }
  { unfold page_number in *. lia. }
  { by eapply back_linked_at. }
  pose proof (put_tidy k v pl Hpf Hst Hse Hb) as Hpt. pose proof (put_count X Y pl Hs) as Hz.
  unfold insert_bytes. cbn [leaf_page slot path reading]. rewrite Hins in *. cbn [and_then]. rewrite put_existed in *.
  destruct (count_ok t1 A1 (bt_contains k (stored T)) Hp1) as (t2 & -> & Hp2); [lia|]. rewrite Hct, <- Hz in Hp2. cbn [and_then].
  set (z := Z.of_nat _) in *. destruct o as [[p' r sep]|].
  - destruct Hlf as (-> & L & R & Hsp). pose proof (sl_entries _ _ _ _ _ _ _ _ _ _ _ _ _ Hsp) as HLR.
    assert (∀ T', flat [] T' = left_of [] C ++ (hole_fence [] C, (p, L)) :: (sep, (r, R)) :: right_of C →
      contents (flat [] T') = contents (left_of [] C) ++ (X ++ (k, pl) :: Y) ++ contents (right_of C)) as Hcont.
    { intros T' ->. rewrite <- HLR, entries_app, <- !app_assoc. unfold contents at 2. simpl. done. }
    pose proof (proj2 path_new_ok) as Hpn0. destruct (path_of_ok C path_new (proj1 path_new_ok)) as [Hpo Hpp]. rewrite Hpn0, app_nil_r in Hpp.
    pose proof (path_next_ok _ Hpo) as Hnext. pose proof (path_length_ok _ Hpo) as Hplen. rewrite Hpp in Hnext, Hplen. rewrite Hplen.
    assert (∃ t3 B T', cascade_split (length (map fr_page C)) (path_of C path_new) (mkSplit p r sep) t2 = (t3, Ok tt) ∧ phys t3 B ∧ tree_in B T' ∧
      flat [] T' = left_of [] C ++ (hole_fence [] C, (p, L)) :: (sep, (r, R)) :: right_of C ∧ a_pages B ≤ a_pages A1 + 1 ∧ a_config B = a_config A1)
      as (t3 & B & T' & -> & Hp3 & Ht3 & Hfl & Hpg3 & Hcf3).
    { assert (C = [] ∨ ∃ F C', C = F :: C') as [HC|(F & C' & HC)] by (destruct C; eauto).
      - replace (length (map fr_page C)) with 0 by (by rewrite HC). cbn [cascade_split].
        apply (grow_top t A T k C p es X Y A1 pl r sep L R Hp Ht Hl Hs Hsp Hh t2 z HC Hp2 Hw Hpt HF eq_refl). unfold page_number in *. lia.
      - replace (length (map fr_page C)) with (S (length (map fr_page C'))) by (by rewrite HC). replace (map fr_page C) with (fr_page F :: map fr_page C') in Hnext by (by rewrite HC).
        destruct Hnext as (path' & Hn & _). rewrite Hn in Hroom. cbn [cascade_split separator_key right_page] in *. rewrite Hn.
        destruct (grow_parent t A T k C p es X Y A1 pl r sep L R Hp Ht Hl Hs Hsp Hh F C' t2 z HC Hrt Hp2 Hw Hpt HF eq_refl) as (t3 & B & T' & Hi & Hp3 & Ht3 & Hfl & Hpg3 & Hcf3).
        { eapply separator_room_fits; [exact Hp1| |exact Hroom]. exact (parent_kept t A T k C p es X Y A1 pl r sep L R Hp Ht Hl Hsp F C' HC). }
        rewrite Hi. cbn [and_then]. exists t3, B, T'. split_and!; try done. lia. }
    cbn [and_then]. exists t3, B, T'. split; [done|]. specialize (Hcont T' Hfl). constructor; [done|done|by eapply put_all_tidy|by eapply put_stored|clear - Hpg Hpg3; lia|].
    rewrite Hcf3. apply Hsp.
  - destruct Hlf as (Ha & Hg & Hcp). exists t2, (with_count z A1), (plug C (Leaf p (X ++ (k, pl) :: Y))). split; [done|].
    assert (contents (flat [] (plug C (Leaf p (X ++ (k, pl) :: Y)))) = contents (left_of [] C) ++ (X ++ (k, pl) :: Y) ++ contents (right_of C)) as Hcont.
    { rewrite flat_plug, entries_app. done. }
    constructor; [done| |by eapply put_all_tidy|by eapply put_stored|simpl; lia|apply Ha].
    eapply edit_in_place; [exact Ht|exact Hl|exact Hrt|exact Hg|destruct Ha; by constructor|exact Hcp|by eapply split_wf|by apply split_keys| |done].
    assert (amends [p] k A (with_count z A1)) as Ha' by (destruct Ha; by constructor).
    destruct (kept_values A T k C p es Ht Hl [p] (with_count z A1) Ha') as (_ & _ & HV).
    { intros q c ->%list_elem_of_singleton. rewrite Hc. by intros [= <-]. }
    apply Forall_forall. intros e. rewrite elem_of_app, elem_of_cons. intros [He|[->|He]]; [|exact Hh|];
      (destruct (split_other k es X Y e Hs); [rewrite elem_of_app; tauto|by apply HV]).
Qed.
End Put.
Lemma insert_bytes_ok t A T k v : phys t A → tree_in A T → tidy T → storable k v → small_entry k v → Forall is_byte k → page_number (a_pages A + chunks v + 2) →
  (a_count A + 1 < two64)%Z → parent_room t k v = true → ∃ t' A' T', insert_bytes k v None t = (t', Ok (bt_contains k (stored T))) ∧ put_result t A T k v t' A' T'.
Proof.
  intros Hp Ht Hd Hst Hse Hb Hpn Hcb Hroom. destruct (descend_to_leaf_ok t A T k Hp Ht) as (C & p & es & Hl & Hdesc).
  destruct (insert_hint_ok t A T k v C p es Hp Ht Hd Hl Hst Hse Hb Hpn Hcb Hdesc Hroom) as (t' & A' & T' & Hi & Hr). exists t', A', T'. split; [|done].
  unfold insert_bytes in *. by rewrite Hdesc.
Qed.

(** ** Deleting *)
Record del_result A T k t' A' T' : Prop := {
  dr_phys : phys t' A';
  dr_tree : tree_in A' T';
  dr_tidy : tidy T';
  dr_stored : stored T' = bt_remove k (stored T);
  dr_pages : a_pages A' = a_pages A;
  dr_config : a_config A' = a_config A }.
Lemma removed_keys k X pl Y : keys_from k (X ++ (k, pl) :: Y) (X ++ Y).
Proof. intros e He. right. exists e. split; [|done]. rewrite elem_of_app, elem_of_cons in *. tauto. Qed.
Lemma delete_at_leaf t A T k C p X pl Y : phys t A → tree_in A T → tidy T → at_leaf A T k C p (X ++ (k, pl) :: Y) → ∃ t' A' T',
  delete_at p (length X) t = (t', Ok tt) ∧ del_result A T k t' A' T'.
Proof.
  intros Hp Ht Hd Hl. pose proof (at_cell _ _ _ _ _ _ Ht Hl) as Hc. pose proof (at_wf _ _ _ _ _ _ Ht Hl) as Hw. pose proof (at_holds _ _ _ _ _ _ Ht Hl) as HH.
  pose proof (wf_mid _ _ _ _ Hw) as [HX HY]. destruct (at_around _ _ _ _ _ _ Ht Hl) as [Hu Ho]. pose proof (at_contents _ _ _ _ _ _ Hl) as Hcs.
  apply Forall_app in HH as [_ [Hh _]%Forall_cons]. destruct (delete_at_ok t A p _ _ X k pl Y Hp Hc Hh) as (t' & A1 & Hi & Hp' & Ha & Hm & Hpg).
  set (B := with_count _ _) in *. pose proof (ti_count _ _ Ht) as Hcnt. rewrite Hcs, !length_app in Hcnt. cbn [length] in Hcnt.
  pose proof (ph_entries _ _ Hp) as (_ & Hcb & _).
  assert (a_count B = Z.of_nat (length (contents (left_of [] C) ++ (X ++ Y) ++ contents (right_of C)))) as HcB.
  { simpl. rewrite Z.mod_small by lia. rewrite !length_app. lia. }
  assert (amends [p] k A B) as HaB.
  { destruct Ha as [P1 C1 K1]. constructor; [done|done|]. intros q c Hq Ht' Hu' Hqc. rewrite list_elem_of_singleton in Hq. simpl. rewrite lookup_insert_ne by congruence.
    apply K1; [by apply not_elem_of_nil|done..]. }
  assert (contents (flat [] (plug C (Leaf p (X ++ Y)))) = contents (left_of [] C) ++ (X ++ Y) ++ contents (right_of C)) as Hct by (by rewrite flat_plug, entries_app).
  assert (bt_wf (X ++ Y)) as Hw'.
  { apply wf_app in Hw as (H1 & [_ H2] & H3). apply wf_app. split; [done|]. split; [done|]. intros a b Hain Hbin. apply H3; [done|by right]. }
  exists t', B, (plug C (Leaf p (X ++ Y))). split; [exact Hi|]. constructor; [exact Hp'| | | |exact Hpg|apply Ha].
  - eapply edit_in_place; [exact Ht|exact Hl|apply Hm|apply Hm|exact HaB|apply lookup_insert_eq|exact Hw'|apply removed_keys| |exact HcB].
    destruct (kept_values A T k C p _ Ht Hl [p] B HaB) as (_ & _ & HV); [intros q c ->%list_elem_of_singleton; rewrite Hc; by intros [= <-]|].
    apply Forall_forall. intros e He. destruct (split_other k (X ++ (k, pl) :: Y) X Y e) as [H1 H2]; [|done|by apply HV].
    split; [done|]. split; [done|]. right. by exists pl.
  - unfold tidy in *. rewrite Hct. rewrite Hcs, !Forall_app, Forall_cons in Hd. rewrite !Forall_app. tauto.
  - unfold stored. rewrite Hct, Hcs, <- values_remove. f_equal. rewrite <- !app_assoc, <- app_comm_cons. rewrite !(app_assoc (contents (left_of [] C)) X). symmetry.
    apply remove_here; [by apply under_app|by apply over_app].
Qed.
Lemma delete_bytes_ok t A T k : phys t A → tree_in A T → tidy T → ∃ t' A' T',
  delete_bytes k t = (t', Ok (bt_contains k (stored T))) ∧ del_result A T k t' A' T'.
Proof.
  intros Hp Ht Hd. destruct (find_leaf_ok t A T k Hp Ht) as (C & p & es & Hl & Hf & _). pose proof (at_wf _ _ _ _ _ _ Ht Hl) as Hw.
  pose proof (at_cell _ _ _ _ _ _ Ht Hl) as Hc. rewrite <- (put_existed A T k C p es Ht Hl). unfold delete_bytes.
  destruct (meta_page_ok _ _ Hp) as (-> & _). cbn [reading]. rewrite Hf. cbn [reading]. destruct (leaf_page_at _ _ _ _ _ _ Hp Hc) as (buf & -> & Hleaf & _). cbn [reading].
  rewrite (leaf_count _ _ _ _ Hleaf). cbn [reading]. rewrite (leaf_find_ok _ _ _ _ _ _ Hp Hc k Hw). cbn [reading].
  destruct (wf_split k es Hw) as [(X & pl & Y & -> & HX & HY)|(X & Y & -> & HX & HY)].
  - rewrite locate_here by done. destruct (delete_at_leaf t A T k C p X pl Y Hp Ht Hd Hl) as (t' & A' & T' & -> & Hr). by exists t', A', T'.
  - rewrite locate_gap by done. exists t, A, T. split; [done|]. constructor; try done. unfold stored. rewrite <- values_remove. f_equal.
    destruct (at_around _ _ _ _ _ _ Ht Hl) as [Hu Ho]. rewrite (at_contents _ _ _ _ _ _ Hl), <- app_assoc, !(app_assoc (contents (left_of [] C)) X).
    symmetry. apply remove_gap; [by apply under_app|by apply over_app].
Qed.
