(* ===== verification/BPlusBuild.v ===== *)
(** * Bottom-up construction: the leaves, and the whole tree

    [building t A b cl cur es]: the builder [b] has closed the leaves [cl] and
    is filling [cur], which holds [es].  Pushing entries in key order into an
    empty tree and finishing leaves a well-formed tree of those entries
    ([finish_ok], [build_ok]). *)
From stdpp Require Import base numbers option gmap list.
From S2P Require Import Prelude Bytes BinarySearch Order BTreeMap Backend Mmap BPlusPages BPlusNodes BPlus BPlusBytes BPlusSlots BPlusCells BPlusPageOps BPlusStore BPlusAlloc BPlusLeaf BPlusSplit BPlusPut BPlusShape BPlusTree BPlusEdit BPlusReads BPlusWrites.
Import Pages Nodes BPlus.

(** * Bottom-up construction: the internal levels

    Leaves in key order get the fences their separators will set ([fenced_by]);
    a level of internal pages over a list of trees ([leveled]) keeps the leaves
    and their fences, and halves the list, until one tree is left. *)
Implicit Types (t : BPlusTree) (A B : Abs) (p q n : nat) (k key lo s f : list Z) (e : entry) (es : list entry) (T : tree) (l : list fenced) (cts : list (list Z * tree)).
Abbreviation page_entries := (nat * list entry)%type.
Implicit Types (G : list page_entries).

(** ** The fences of leaves *)
Definition head_key es : list Z := match head es with Some e => e.1 | None => [] end.
Definition last_key es : list Z := match last es with Some e => e.1 | None => [] end.
Fixpoint fenced_by (prev : list Z) G : list fenced :=
  match G with [] => [] | x :: G => (truncated_separator prev (head_key x.2), x) :: fenced_by (last_key x.2) G end.
Definition fences G : list fenced := match G with [] => [] | x :: G => ([], x) :: fenced_by (last_key x.2) G end.
Definition all_entries G : list entry := concat (map snd G).
Lemma fenced_by_plain prev G : map snd (fenced_by prev G) = G.
Proof. revert prev. induction G as [|x G IH]; intros prev; simpl; [done|]. by rewrite IH. Qed.
Lemma fences_plain G : map snd (fences G) = G.
Proof. destruct G as [|x G]; simpl; [done|]. by rewrite fenced_by_plain. Qed.
Lemma contents_plain l : contents l = all_entries (map snd l).
Proof. unfold contents, all_entries. by rewrite map_map. Qed.
Lemma chain_plain cells prev l l' nxt : map snd l = map snd l' → chain cells prev l nxt → chain cells prev l' nxt.
Proof.
  revert prev l'. induction l as [|[f [p es]] l IH]; intros prev [|[f' x] l'] E; try done. cbn [map] in E. injection E as E1 E2. simpl in E1. subst x.
  cbn [chain]. assert (first_page l nxt = first_page l' nxt) as ->.
  { destruct l as [|y l], l' as [|y' l']; try done. simpl in *. injection E2 as E2 _. by rewrite E2. }
  intros [Hc Hl]. split; [done|by apply (IH p)].
Qed.
Lemma last_key_app es es' : es' ≠ [] → last_key (es ++ es') = last_key es'.
Proof. intros Hne. unfold last_key. rewrite last_app. destruct (last es') eqn:E; [done|]. by apply last_None in E. Qed.
(** Entries in order, cut into leaves that are not empty, are in order behind
    their fences. *)
Lemma fenced_order G : ∀ f p es, bt_wf (es ++ all_entries G) → Forall (λ e, upto f e.1) es → Forall (λ e, Forall is_byte e.1) (all_entries G) →
  es ≠ [] → Forall (λ x : page_entries, x.2 ≠ []) G → in_order ((f, (p, es)) :: fenced_by (last_key es) G).
Proof.
  induction G as [|[q es'] G IH]; intros f p es Hw Hf Hb Hne HG.
  - simpl. apply in_order_one. unfold all_entries in Hw. simpl in Hw. by rewrite app_nil_r in Hw.
  - unfold all_entries in Hw, Hb. cbn [map concat snd] in Hw, Hb. fold (all_entries G) in Hw, Hb. apply Forall_app in Hb as [Hb' Hb]. apply Forall_cons in HG as [Hne' HG]. simpl in Hne'.
    pose proof (last_is_Some es) as [_ Hl]. pose proof (head_is_Some es') as [_ Hh]. destruct (Hl Hne) as [a Ha]. destruct (Hh Hne') as [b Hbb].
    assert (a ∈ es) as Hae by (apply last_Some in Ha as (X & ->); apply elem_of_app; right; left).
    assert (b ∈ es') as Hbe by (destruct es'; [done|]; injection Hbb as ->; left).
    pose proof Hw as Hww. apply wf_app in Hww as (_ & Hw2 & HX). assert (cmp a.1 b.1 = Lt) as Hab by (apply HX; [done|apply elem_of_app; by left]).
    rewrite Forall_forall in Hb'. destruct (separator_parts a.1 b.1 Hab (Hb' b Hbe)) as (S1 & S2 & _).
    cbn [fenced_by snd]. unfold last_key at 1, head_key. rewrite Ha, Hbb.
    rewrite app_assoc in Hw. apply (order_split [] f p es es' q (truncated_separator a.1 b.1) (fenced_by (last_key es') G) a b); [|done..].
    cbn [app]. rewrite <- (last_key_app es es') by done. apply IH; [done| |done| |done].
    + apply Forall_app. split; [done|]. apply Forall_forall. intros e He. rewrite Forall_forall in Hf. eapply upto_trans; [by apply Hf|]. apply lt_upto, HX; [done|].
      apply elem_of_app. by left.
    + intros E. by apply app_eq_nil in E as [? _].
Qed.
Lemma fences_order G : bt_wf (all_entries G) → Forall (λ e, Forall is_byte e.1) (all_entries G) → G ≠ [] → (length G = 1 ∨ Forall (λ x : page_entries, x.2 ≠ []) G) → in_order (fences G).
Proof.
  destruct G as [|[p es] G]; [done|]. intros Hw Hb _ Hne. unfold all_entries in Hw, Hb. cbn [map concat snd] in Hw, Hb. fold (all_entries G) in Hw, Hb.
  apply Forall_app in Hb as [_ Hb]. assert (Forall (λ e, upto [] e.1) es) as Hu by (apply Forall_forall; intros; apply nil_upto).
  destruct Hne as [Hl|[H1 H2]%Forall_cons]; [|by apply fenced_order].
  destruct G; [|done]. cbn [fences fenced_by]. apply in_order_one. unfold all_entries in Hw. simpl in Hw. by rewrite app_nil_r in Hw.
Qed.

(** ** Children of a level *)
Definition entries_of T : list entry := contents (flat [] T).
Lemma entries_any lo T : contents (flat lo T) = entries_of T.
Proof. induction T as [p es|p c IH cs]; [done|]. unfold entries_of. cbn [flat]. by rewrite !entries_app, IH. Qed.
Definition child_of (st : list Z * tree) : child := (page_of st.2, (head_key (entries_of st.2), last_key (entries_of st.2))).
Definition last_of (prev : list Z) cts : list Z := match last cts with Some st => last_key (entries_of st.2) | None => prev end.
Fixpoint spaced (prev : list Z) cts : Prop :=
  match cts with [] => True | (s, T) :: cts => s = truncated_separator prev (head_key (entries_of T)) ∧ spaced (last_key (entries_of T)) cts end.
Lemma last_of_cons prev s T cts : last_of prev ((s, T) :: cts) = last_of (last_key (entries_of T)) cts.
Proof. unfold last_of. rewrite last_cons. by destruct (last cts). Qed.
Lemma spaced_drop m : ∀ prev cts, spaced prev cts → spaced (last_of prev (take m cts)) (drop m cts).
Proof.
  induction m as [|m IH]; intros prev [|[s T] cts]; try done. intros [_ Hs]. cbn [take drop]. rewrite last_of_cons. by apply IH.
Qed.
(** What a page can take as a child. *)
Record child_ok A (st : list Z * tree) : Prop := {
  ck_sep : length st.1 ≤ MAX_ENTRY;
  ck_entries : entries_of st.2 ≠ [];
  ck_page : page_of st.2 < a_pages A }.
Lemma child_sep_ok t A st : phys t A → child_ok A st → sep_ok (st.1, page_of st.2).
Proof.
  intros Hp [H1 _ H3]. pose proof (ph_bound _ _ Hp) as Hb. unfold MAX_ENTRY in H1. split; simpl; [lia|unfold page_number in *; lia].
Qed.
Lemma child_ok_pages A A' st : child_ok A st → a_pages A ≤ a_pages A' → child_ok A' st.
Proof. intros [H1 H2 H3] Hle. constructor; [done|done|lia]. Qed.
Lemma append_sep_ok t A pg lm cs k p : phys t A → a_cells A !! pg = Some (CInternal lm cs) → sep_ok (k, p) → internal_fits cs (10 + length k) → ∃ t',
  edit pg (λ buf, buf <-? put_internal (PAGE_SIZE - seps_used cs - (10 + length k)) k p buf ;; record_slot HEADER_SIZE (length cs) (PAGE_SIZE - seps_used cs - (10 + length k)) (length cs) buf) t = (t', Ok tt) ∧
  phys t' (put_cell pg (CInternal lm (cs ++ [(k, p)])) A).
Proof.
  intros Hp Hc Hok Hfit. eapply edit_used; [done|done|done|]. intros buf (Hi & Hn) _. destruct (internal_append_page buf lm cs k p Hi Hok Hfit) as (b & Hb & Hi').
  exists b. split; [exact Hb|]. split; [by eapply internal_page_length|done].
Qed.
Lemma pack_ok : ∀ cts t A pg lm cs prev, phys t A → a_cells A !! pg = Some (CInternal lm cs) → spaced prev cts → Forall (child_ok A) cts → ∃ t' m,
  pack_children pg prev (map child_of cts) t = (t', Ok (last_of prev (take m cts), map child_of (drop m cts))) ∧
  phys t' (put_cell pg (CInternal lm (cs ++ seps (take m cts))) A) ∧ m ≤ length cts ∧ (cs = [] → cts ≠ [] → 1 ≤ m).
Proof.
  induction cts as [|[s T] cts IH]; intros t A pg lm cs prev Hp Hc Hs HF.
  { exists t, 0. cbn [take drop map pack_children seps]. rewrite app_nil_r, put_same by done. by split_and!. }
  destruct Hs as [-> Hs]. apply Forall_cons in HF as [Hck HF]. set (s := truncated_separator prev (head_key (entries_of T))) in *.
  cbn [map pack_children]. change (child_of (s, T)) with (page_of T, (head_key (entries_of T), last_key (entries_of T))). cbv iota beta. fold s.
  destruct (page_lookup _ _ _ _ Hp Hc) as (buf & Hb & Hi & Hpn). rewrite Hb. cbn [reading]. rewrite (internal_count _ _ _ Hi), (internal_data_off _ _ _ Hi). cbn [reading].
  pose proof (internal_room _ _ _ Hi) as Hroom.
  destruct (Nat.ltb_spec (PAGE_SIZE - seps_used cs) (HEADER_SIZE + length cs * SLOT_SIZE + (10 + length s) + SLOT_SIZE)) as [Hlt|Hge].
  - exists t, 0. cbn [take drop seps map]. rewrite app_nil_r, put_same by done. split_and!; try done; [lia|]. intros -> _. exfalso.
    pose proof (ck_sep _ _ Hck) as Hl. simpl in Hl. change (seps_used []) with 0 in Hlt. unfold MAX_ENTRY in Hl. simpl in Hlt. page_lia.
  - assert (internal_fits cs (10 + length s)) as Hfit by (unfold internal_fits; page_lia).
    destruct (append_sep_ok t A pg lm cs s (page_of T) Hp Hc (child_sep_ok t A (s, T) Hp Hck) Hfit) as (t1 & He & Hp1).
    rewrite He. cbn [and_then]. destruct (IH t1 _ pg lm (cs ++ [(s, page_of T)]) (last_key (entries_of T)) Hp1 (put_lookup _ _ _) Hs) as (t2 & m & Hpk & Hp2 & Hm & _).
    { eapply Forall_impl; [exact HF|]. intros st Hst. by eapply child_ok_pages. }
    rewrite put_put, <- app_assoc in Hp2. exists t2, (S m). cbn [take drop]. rewrite last_of_cons. split; [exact Hpk|]. split; [exact Hp2|]. split; [simpl; lia|lia].
Qed.

(** ** One level *)
Lemma entries_node p c cts : entries_of (Node p c cts) = entries_of c ++ contents (forest cts).
Proof. unfold entries_of. cbn [flat]. by rewrite entries_app. Qed.
Lemma contents_cons s T cts : contents (forest ((s, T) :: cts)) = entries_of T ++ contents (forest cts).
Proof. by rewrite forest_cons, entries_app, entries_any. Qed.
Lemma head_key_app es es' : es ≠ [] → head_key (es ++ es') = head_key es.
Proof. by destruct es. Qed.
Lemma last_key_node es cts : es ≠ [] → Forall (λ st, entries_of st.2 ≠ []) cts → last_key (es ++ contents (forest cts)) = last_of (last_key es) cts.
Proof.
  intros Hne HF. revert es Hne. induction HF as [|[s T] cts HT _ IH]; intros es Hne; [unfold forest, contents; simpl; by rewrite app_nil_r|].
  simpl in HT. rewrite contents_cons, app_assoc, IH, last_of_cons, last_key_app; [done|done|]. intros E. by apply app_eq_nil in E as [? _].
Qed.
Lemma child_node s p c cts : entries_of c ≠ [] → Forall (λ st, entries_of st.2 ≠ []) cts →
  child_of (s, Node p c cts) = (p, (head_key (entries_of c), last_of (last_key (entries_of c)) cts)).
Proof. intros Hc HF. unfold child_of. cbn [snd page_of]. by rewrite entries_node, head_key_app, last_key_node. Qed.
Definition linked_list cts : Prop := match cts with [] => True | (s, T) :: cts => spaced (last_key (entries_of T)) cts end.
Lemma spaced_linked prev cts : spaced prev cts → linked_list cts.
Proof. destruct cts as [|[s T] cts]; [done|]. by intros [_ H]. Qed.
(** The list [cts'] of trees over [cts], on the pages of [new]. *)
Record leveled A cts A' cts' (new : list node) : Prop := {
  lv_forest : forest cts' = forest cts;
  lv_nodes : side_nodes cts' ≡ₚ new ++ side_nodes cts;
  lv_cells : nodes_in (a_cells A') new;
  lv_new : NoDup (map fst new);
  lv_unused : ∀ q c, q ∈ map fst new → in_use c → a_cells A !! q ≠ Some c;
  lv_keeps : keeps [] A A';
  lv_meta : same_meta A A';
  lv_pages : a_pages A' ≤ a_pages A + length cts';
  lv_size : 2 * length cts' ≤ length cts + 1;
  lv_ok : Forall (child_ok A') cts';
  lv_spaced : ∀ prev, spaced prev cts → spaced prev cts';
  lv_linked : linked_list cts' }.
Lemma new_page t A p : phys t A → page_number (a_pages A + 1) → p < a_pages A → ∃ t' q A',
  (let* t, current := alloc_page t in
   let* t, _ := init_internal current t in
   let* t, _ := edit current (λ buf, put64 buf 8 p) t in (t, Ok current))%zen = (t', Ok q) ∧ phys t' A' ∧ a_cells A' !! q = Some (CInternal p []) ∧
  keeps [] A A' ∧ same_meta A A' ∧ a_pages A' ≤ a_pages A + 1 ∧ q < a_pages A' ∧ (∀ c, in_use c → a_cells A !! q ≠ Some c).
Proof.
  intros Hp Hpn Hlt. destruct (alloc_page_ok t A Hp Hpn) as (t1 & q & A1 & -> & Hp1 & [Hk1 Hs1 Hg1 Hf1]). cbn [and_then].
  specialize (Hf1 0 ltac:(lia)). rewrite Nat.add_0_r in Hf1. destruct (init_internal_ok t1 A1 q Hp1 Hf1) as (t2 & -> & Hp2). cbn [and_then].
  destruct (edit_used t2 _ q (λ buf, put64 buf 8 p) _ (CInternal p []) Hp2 (put_lookup _ _ _) I) as (t3 & -> & Hp3).
  { intros buf (Hi & _) _. destruct (internal_set_leftmost _ _ _ p Hi) as (b & Hb & Hi'). exists b. split; [done|]. split; [by eapply internal_page_length|].
    pose proof (ph_bound _ _ Hp). split; [done|]. unfold page_number in *. lia. }
  cbn [and_then]. rewrite put_put in Hp3. eexists t3, q, _. split; [done|]. split; [exact Hp3|]. split; [apply put_lookup|]. split; [|split; [|split; [|split]]].
  - eapply keeps_nil_trans; [exact Hk1|]. by apply keeps_put_fresh.
  - eapply same_meta_trans; [exact Hs1|apply same_meta_put].
  - exact Hg1.
  - apply Hf1.
  - intros c Hu Hc. destruct Hf1 as (_ & _ & Hf1). apply (Hf1 c); [|done]. apply (kp_cells _ _ _ Hk1); [apply not_elem_of_nil|done|done].
Qed.
Lemma build_level_cons fuel p (ks : list Z * list Z) (rest : list child) t : build_level (S fuel) ((p, ks) :: rest) t = (
  let* t, current := (let* t, current := alloc_page t in
   let* t, _ := init_internal current t in
   let* t, _ := edit current (λ buf, put64 buf 8 p) t in (t, Ok current)) in
  let* t, packed := pack_children current ks.2 rest t in
  let* t, next := build_level fuel packed.2 t in (t, Ok ((current, (ks.1, packed.1)) :: next)))%zen.
Proof.
  cbn [build_level]. destruct ks as [first last]. destruct (alloc_page t) as [t1 [q|e|]]; cbn [and_then]; [|done..].
  destruct (init_internal q t1) as [t2 [[]|e|]]; cbn [and_then]; [|done..]. by destruct (edit q _ t2) as [t3 [[]|e|]]; cbn [and_then].
Qed.
Lemma child_entries A cts : Forall (child_ok A) cts → Forall (λ st, entries_of st.2 ≠ []) cts.
Proof. intros HF. eapply Forall_impl; [exact HF|]. by intros st [_ H _]. Qed.
Lemma leveled_nil A : leveled A [] A [] [].
Proof. constructor; try done; try by constructor. - by intros q c ?%not_elem_of_nil. - simpl. lia. Qed.
Lemma build_level_ok : ∀ fuel cts t A, length cts ≤ fuel → phys t A → Forall (child_ok A) cts → linked_list cts → page_number (a_pages A + length cts) → ∃ t' A' cts' new,
  build_level fuel (map child_of cts) t = (t', Ok (map child_of cts')) ∧ phys t' A' ∧ leveled A cts A' cts' new.
Proof.
  induction fuel as [|fuel IH]; intros [|[s T] cts] t A Hf Hp HF Hl Hpn; try (simpl in Hf; lia).
  1,2: exists t, A, [], []; split; [done|]; split; [done|]; apply leveled_nil.
  apply Forall_cons in HF as [Hck HF]. simpl in Hf, Hpn. cbn [map]. change (child_of (s, T)) with (page_of T, (head_key (entries_of T), last_key (entries_of T))).
  rewrite build_level_cons. cbn [fst snd].
  destruct (new_page t A (page_of T) Hp) as (t1 & q & A1 & -> & Hp1 & Hc1 & Hk1 & Hs1 & Hg1 & Hq1 & Hu1); [unfold page_number in *; lia|apply Hck|]. cbn [and_then].
  pose proof (kp_pages _ _ _ Hk1) as Hle1. simpl in Hl.
  destruct (pack_ok cts t1 A1 q (page_of T) [] (last_key (entries_of T)) Hp1 Hc1 Hl) as (t2 & m & -> & Hp2 & Hm & Hm1).
  { eapply Forall_impl; [exact HF|]. intros st Hst. by eapply child_ok_pages. }
  cbn [and_then fst snd app] in *. set (A2 := put_cell q (CInternal (page_of T) (seps (take m cts))) A1) in *.
  assert (keeps [] A A2) as Hk2.
  { destruct Hk1 as [P1 C1 K1]. constructor; [done|done|]. intros r c Hr Hu Hc. destruct (decide (r = q)) as [->|Hne]; [by destruct (Hu1 c Hu Hc)|].
    unfold A2. rewrite put_lookup_ne by done. by apply K1. }
  pose proof (spaced_drop m _ _ Hl) as Hsp. pose proof (child_entries _ _ HF) as Hne.
  destruct (IH (drop m cts) t2 A2) as (t3 & A3 & cts' & new & -> & Hp3 & [L1 L2 L3 L4 L5 L6 L7 L8 L9 L10 L11 L12]).
  { rewrite length_drop. lia. }
  { exact Hp2. }
  { apply Forall_drop. eapply Forall_impl; [exact HF|]. intros st Hst. by eapply child_ok_pages. }
  { by eapply spaced_linked. }
  { rewrite length_drop. simpl. unfold page_number in *. lia. }
  cbn [and_then]. set (N := Node q T (take m cts)). pose proof (child_node s q T (take m cts) (ck_entries _ _ Hck) (Forall_take _ _ _ Hne)) as Hcn.
  assert (a_cells A2 !! q = Some (CInternal (page_of T) (seps (take m cts)))) as Hc2 by apply put_lookup.
  exists t3, A3, ((s, N) :: cts'), ((q, (page_of T, seps (take m cts))) :: new). cbn [map]. unfold N at 1. rewrite Hcn. split; [done|]. split; [done|].
  assert (last_key (entries_of N) = last_of (last_key (entries_of T)) (take m cts)) as HlN by (unfold child_of in Hcn; cbn [snd] in Hcn; by injection Hcn as _ ?).
  assert (head_key (entries_of N) = head_key (entries_of T)) as HhN by (unfold child_of in Hcn; cbn [snd] in Hcn; by injection Hcn as ? _).
  constructor.
  - rewrite forest_cons, L1. cbn [fst snd flat N]. rewrite (forest_cons (s, T)). cbn [fst snd]. rewrite <- app_assoc. f_equal.
    change (concat (map (λ st, flat st.1 st.2) (take m cts))) with (forest (take m cts)). by rewrite <- forest_app, take_drop.
  - change (side_nodes ((s, N) :: cts')) with (nodes N ++ side_nodes cts'). change (side_nodes ((s, T) :: cts)) with (nodes T ++ side_nodes cts).
    rewrite L2. cbn [nodes N]. change (concat (map (λ st, nodes st.2) (take m cts))) with (side_nodes (take m cts)).
    replace (side_nodes cts) with (side_nodes (take m cts) ++ side_nodes (drop m cts)) by (by rewrite <- side_nodes_app, take_drop). cbn [app]. constructor.
    rewrite (Permutation_app_swap_app (nodes T ++ _) new), <- app_assoc. done.
  - constructor; [|exact L3]. cbn [fst snd]. apply (kp_cells _ _ _ L6); [apply not_elem_of_nil|done|exact Hc2].
  - cbn [map fst]. apply NoDup_cons. split; [|exact L4]. intros Hin. exact (L5 q (CInternal (page_of T) (seps (take m cts))) Hin I Hc2).
  - intros r c Hr Hu Hc. cbn [map fst] in Hr. apply elem_of_cons in Hr as [->|Hr]; [by apply (Hu1 c)|]. apply (L5 r c Hr Hu).
    apply (kp_cells _ _ _ Hk2); [apply not_elem_of_nil|done|done].
  - by eapply keeps_nil_trans.
  - eapply same_meta_trans; [exact Hs1|]. eapply same_meta_trans; [apply same_meta_put|exact L7].
  - simpl in *. lia.
  - cbn [length]. rewrite length_drop in L9. destruct cts as [|x cts]; [simpl in *; lia|]. specialize (Hm1 eq_refl ltac:(done)). cbn [length] in *. lia.
  - constructor; [|exact L10]. constructor; cbn [fst snd page_of N].
    + apply Hck.
    + unfold N. rewrite entries_node. intros E. apply app_eq_nil in E as [E _]. by apply (ck_entries _ _ Hck).
    + pose proof (kp_pages _ _ _ L6). simpl in *. lia.
  - intros prev [-> Hs]. cbn [spaced]. rewrite HhN, HlN. split; [done|]. by apply L11.
  - cbn [linked_list]. rewrite HlN. by apply L11.
Qed.

(** ** All levels *)
(** One tree over [cts], on the pages of [new]. *)
Record raised A cts A' s T (new : list node) : Prop := {
  ra_flat : flat s T = forest cts;
  ra_nodes : nodes T ≡ₚ new ++ side_nodes cts;
  ra_cells : nodes_in (a_cells A') new;
  ra_new : NoDup (map fst new);
  ra_unused : ∀ q c, q ∈ map fst new → in_use c → a_cells A !! q ≠ Some c;
  ra_keeps : keeps [] A A';
  ra_meta : same_meta A A';
  ra_pages : a_pages A' ≤ a_pages A + 2 * length cts;
  ra_page : page_of T < a_pages A' }.
Lemma nodes_in_kept A A' (ns : list node) : keeps [] A A' → nodes_in (a_cells A) ns → nodes_in (a_cells A') ns.
Proof. intros Hk Hn. eapply Forall_impl; [exact Hn|]. clear Hn. intros n Hn. apply (kp_cells _ _ _ Hk); [apply not_elem_of_nil|done|done]. Qed.
Lemma build_levels_ok : ∀ fuel cts t A, length cts ≤ S fuel → cts ≠ [] → phys t A → Forall (child_ok A) cts → linked_list cts →
  page_number (a_pages A + 2 * length cts) → ∃ t' A' s T new,
  build_levels fuel (map child_of cts) t = (t', Ok (page_of T)) ∧ phys t' A' ∧ raised A cts A' s T new.
Proof.
  induction fuel as [|fuel IH]; intros [|[s T] cts] t A Hf Hne Hp HF Hl Hpn; try done.
  - destruct cts; [|simpl in Hf; lia]. exists t, A, s, T, []. split; [done|]. split; [done|]. apply Forall_cons in HF as [Hck _].
    constructor; try done; [unfold forest; simpl; by rewrite app_nil_r|by unfold side_nodes; simpl; rewrite app_nil_r|by apply Forall_nil|by apply NoDup_nil|by intros q c ?%not_elem_of_nil|lia|apply Hck].
  - destruct cts as [|[s2 T2] cts].
    { exists t, A, s, T, []. split; [done|]. split; [done|]. apply Forall_cons in HF as [Hck _].
      constructor; try done; [unfold forest; simpl; by rewrite app_nil_r|by unfold side_nodes; simpl; rewrite app_nil_r|by apply Forall_nil|by apply NoDup_nil|by intros q c ?%not_elem_of_nil|lia|apply Hck]. }
    remember ((s, T) :: (s2, T2) :: cts) as l eqn:El. assert (2 ≤ length l) as Hll by (rewrite El; simpl; lia).
    assert (build_levels (S fuel) (map child_of l) t = (let* t, next := build_level (length (map child_of l)) (map child_of l) t in build_levels fuel next t)%zen) as ->.
    { rewrite El. done. }
    destruct (build_level_ok (length (map child_of l)) l t A) as (t1 & A1 & cts1 & new1 & -> & Hp1 & [L1 L2 L3 L4 L5 L6 L7 L8 L9 L10 L11 L12]);
      [by rewrite length_map|done|done|done|unfold page_number in *; lia|]. cbn [and_then].
    assert (cts1 ≠ []) as Hne1.
    { intros ->. rewrite El in L1. cbn [map] in L1. rewrite forest_cons in L1. destruct (flat_head s T) as (x & r & E). simpl in L1. rewrite E in L1. done. }
    destruct (IH cts1 t1 A1) as (t2 & A2 & s' & T' & new2 & -> & Hp2 & [R1 R2 R3 R4 R5 R6 R7 R8 R9]); [lia|done|done|done|done|unfold page_number in *; lia|].
    exists t2, A2, s', T', (new2 ++ new1). split; [done|]. split; [done|]. constructor.
    + congruence.
    + by rewrite R2, L2, app_assoc.
    + apply Forall_app. split; [done|by eapply nodes_in_kept].
    + rewrite map_app. apply NoDup_app. split; [done|]. split; [|done]. intros q Hq2 Hq1. apply list_elem_of_fmap in Hq1 as (n & -> & Hn).
      unfold nodes_in in L3. rewrite Forall_forall in L3. exact (R5 n.1 (CInternal n.2.1 n.2.2) Hq2 I (L3 n Hn)).
    + intros q c Hq Hu Hc. rewrite map_app in Hq. apply elem_of_app in Hq as [Hq|Hq]; [|by apply (L5 q c)].
      apply (R5 q c Hq Hu). apply (kp_cells _ _ _ L6); [apply not_elem_of_nil|done|done].
    + by eapply keeps_nil_trans.
    + by eapply same_meta_trans.
    + lia.
    + done.
Qed.

(** ** Over leaves *)
Definition leaf_trees l : list (list Z * tree) := map (λ x : fenced, (x.1, Leaf x.2.1 x.2.2)) l.
Lemma leaf_forest l : forest (leaf_trees l) = l.
Proof. induction l as [|[f [p es]] l IH]; [done|]. change (leaf_trees ((f, (p, es)) :: l)) with ((f, Leaf p es) :: leaf_trees l). rewrite forest_cons, IH. done. Qed.
Lemma leaf_side_nodes l : side_nodes (leaf_trees l) = [].
Proof. induction l as [|x l IH]; [done|]. exact IH. Qed.
Lemma entries_leaf p es : entries_of (Leaf p es) = es.
Proof. apply contents_one. Qed.
Lemma leaf_spaced prev G : spaced prev (leaf_trees (fenced_by prev G)).
Proof. revert prev. induction G as [|[p es] G IH]; intros prev; [done|]. cbn [fenced_by leaf_trees map fst snd spaced]. rewrite entries_leaf. split; [done|apply IH]. Qed.
Lemma leaf_linked G : linked_list (leaf_trees (fences G)).
Proof. destruct G as [|[p es] G]; [done|]. cbn [fences leaf_trees map fst snd linked_list]. rewrite entries_leaf. apply leaf_spaced. Qed.
Lemma leaf_children l : map child_of (leaf_trees l) = zip (map fst (map snd l)) (zip (map (λ x : page_entries, head_key x.2) (map snd l)) (map (λ x : page_entries, last_key x.2) (map snd l))).
Proof.
  induction l as [|[f [p es]] l IH]; [done|]. change (leaf_trees ((f, (p, es)) :: l)) with ((f, Leaf p es) :: leaf_trees l). cbn [map zip zip_with fst snd]. rewrite IH.
  unfold child_of. cbn [snd page_of]. by rewrite entries_leaf.
Qed.
Definition flagged c : Prop := match c with CLeaf _ _ _ | CInternal _ _ => True | _ => False end.
Lemma flag_ok t A p c (f : list Z → io (list Z)) : phys t A → a_cells A !! p = Some c → flagged c → f = set_flag_root ∨ f = clear_flag_root → ∃ t', edit p f t = (t', Ok tt) ∧ phys t' A.
Proof.
  intros Hp Hc Hfl Hf. destruct (edit_used t A p f c c Hp Hc) as (t' & He & Hp'); [by destruct c| |].
  - intros buf Hat Hl. assert (∃ b, f buf = Ok b ∧ same_outside 1 2 buf b) as (b & Hb & S) by (destruct Hf as [->| ->]; [by apply set_flag_spec|by apply clear_flag_spec]).
    exists b. split; [done|]. split; [by rewrite (so_length _ _ _ _ S)|]. destruct c; try done.
    + destruct Hat as (H1 & H2 & H3). split; [by eapply leaf_flag|done].
    + destruct Hat as (H1 & H2). split; [by eapply internal_flag|done].
  - exists t'. split; [done|]. by rewrite put_same in Hp'.
Qed.
(** The tree over leaves in order, on the pages of the leaves and new ones. *)
Lemma leaf_trees_ok A G n : (∀ x : page_entries, x ∈ G → x.1 < a_pages A ∧ x.2 ≠ []) → Forall (λ x : fenced, length x.1 ≤ n) (fences G) → n ≤ MAX_ENTRY → Forall (child_ok A) (leaf_trees (fences G)).
Proof.
  intros HG Hn Hle. apply Forall_map. rewrite Forall_forall in Hn |- *. intros x Hx.
  destruct (HG x.2) as [H1 H2]; [rewrite <- (fences_plain G); by apply list_elem_of_fmap_2|]. specialize (Hn x Hx). simpl in Hn. constructor; cbn [fst snd page_of]; [lia|by rewrite entries_leaf|done].
Qed.
Lemma build_internal_ok t A G : phys t A → 2 ≤ length G → Forall (child_ok A) (leaf_trees (fences G)) → (∃ nx pr es, a_cells A !! 1 = Some (CLeaf nx pr es)) →
  page_number (a_pages A + 2 * length G) → ∃ t' A' T new,
  build_internal_levels (map fst G) (map (λ x : page_entries, head_key x.2) G) (map (λ x : page_entries, last_key x.2) G) t = (t', Ok tt) ∧
  phys t' (with_root (page_of T) A') ∧ raised A (leaf_trees (fences G)) A' [] T new.
Proof.
  intros Hp Hlen HF (nx & pr & es1 & H1) Hpn. unfold build_internal_levels. rewrite !length_map, Nat.eqb_refl. cbn [negb orb].
  pose proof (leaf_children (fences G)) as Hch. rewrite fences_plain in Hch. rewrite <- Hch.
  assert (length (leaf_trees (fences G)) = length G) as HlG by (rewrite <- (fences_plain G) at 2; unfold leaf_trees; by rewrite !length_map).
  destruct (build_levels_ok (length G) (leaf_trees (fences G)) t A) as (t1 & A1 & s & T & new & -> & Hp1 & Hra); [lia|intros E; rewrite E in HlG; simpl in HlG; lia|done|done|apply leaf_linked|by rewrite HlG|].
  cbn [and_then]. pose proof Hra as [R1 R2 R3 R4 R5 R6 R7 R8 R9]. rewrite leaf_forest in R1. rewrite leaf_side_nodes, app_nil_r in R2.
  assert (s = []) as ->. { destruct (flat_head s T) as (x & r & E). rewrite E in R1. destruct G; [simpl in Hlen; lia|]. by injection R1. }
  destruct T as [p es|p c cs].
  { exfalso. apply (f_equal (map snd)) in R1. rewrite fences_plain in R1. rewrite <- R1 in Hlen. simpl in Hlen. lia. }
  assert (a_cells A1 !! p = Some (CInternal (page_of c) (seps cs))) as Hcp.
  { unfold nodes_in in R3. rewrite <- R2 in R3. cbn [nodes] in R3. by apply Forall_cons in R3 as [R3 _]. }
  cbn [page_of]. destruct (flag_ok t1 A1 p _ set_flag_root Hp1 Hcp I ltac:(by left)) as (t2 & -> & Hp2). cbn [and_then page_of].
  assert (∃ t3, (if negb (p =? 1)%nat then edit 1 clear_flag_root t2 else (t2, Ok tt)) = (t3, Ok tt) ∧ phys t3 A1) as (t3 & -> & Hp3).
  { destruct (negb (p =? 1)%nat); [|by exists t2]. apply (flag_ok t2 A1 1 (CLeaf nx pr es1)); [done| |done|by right].
    apply (kp_cells _ _ _ R6); [apply not_elem_of_nil|done|done]. }
  cbn [and_then]. destruct (set_root_ok t3 A1 p Hp3 R9) as (t4 & -> & Hp4). by exists t4, A1, (Node p c cs), new.
Qed.

(** * Bottom-up construction: the leaves, and the whole tree *)
Implicit Types (cur : nat) (v : list Z) (cl : list page_entries) (b : BottomUpBuilder).

Definition plain G : list fenced := map (λ x : page_entries, ([], x)) G.
Lemma plain_app G1 G2 : plain (G1 ++ G2) = plain G1 ++ plain G2.
Proof. apply map_app. Qed.
Lemma plain_pages G : pages_in (plain G) = map fst G.
Proof. unfold pages_in, plain. by rewrite map_map. Qed.
Lemma plain_snd G : map snd (plain G) = G.
Proof. unfold plain. rewrite map_map. apply map_id. Qed.
Lemma all_entries_app G1 G2 : all_entries (G1 ++ G2) = all_entries G1 ++ all_entries G2.
Proof. unfold all_entries. by rewrite map_app, concat_app. Qed.
Lemma all_entries_one p es : all_entries [(p, es)] = es.
Proof. unfold all_entries. simpl. apply app_nil_r. Qed.
Record building t A b cl cur es : Prop := {
  bl_phys : phys t A;
  bl_cur : current_leaf b = cur;
  bl_leaves : leaves b = map fst cl ++ [cur];
  bl_first : leaf_first_keys b = map (λ x : page_entries, head_key x.2) cl;
  bl_last : leaf_last_keys b = map (λ x : page_entries, last_key x.2) cl;
  bl_cf : current_first_key b = fst <$> head es;
  bl_cl : current_last_key b = fst <$> last es;
  bl_chain : chain (a_cells A) 0 (plain (cl ++ [(cur, es)])) 0;
  bl_nodup : NoDup (map fst cl ++ [cur]);
  bl_closed : Forall (λ x : page_entries, x.2 ≠ []) cl;
  bl_holds : Forall (holds_value (a_cells A)) (all_entries cl ++ es);
  bl_tidy : Forall tidy_entry (all_entries cl ++ es);
  bl_one : head (map fst cl ++ [cur]) = Some 1 }.
Section Step.
Context t A b cl cur es (Hb : building t A b cl cur es).
#[local] Abbreviation prv := (last_page (plain cl) 0).
Lemma cur_chain : chain (a_cells A) 0 (plain cl) cur ∧ a_cells A !! cur = Some (CLeaf 0 prv es).
Proof using Hb.
  pose proof (bl_chain _ _ _ _ _ _ Hb) as Hc. rewrite plain_app in Hc. apply chain_app in Hc as [Hc1 [Hc2 _]]. by split.
Qed.
Lemma cur_page : 0 < cur < a_pages A.
Proof using Hb. destruct cur_chain as [_ Hc]. by apply (ph_cells _ _ (bl_phys _ _ _ _ _ _ Hb)) in Hc as [? _]. Qed.
Lemma closed_chain A' nxt : keeps [cur] A A' → chain (a_cells A) 0 (plain cl) nxt → chain (a_cells A') 0 (plain cl) nxt.
Proof using Hb.
  intros Hk. apply chain_frame. intros p es' nx pr Hp Hc. apply (kp_cells _ _ _ Hk); [|done|done]. rewrite list_elem_of_singleton. intros ->.
  rewrite plain_pages in Hp. pose proof (bl_nodup _ _ _ _ _ _ Hb) as Hn. apply NoDup_app in Hn as (_ & Hn & _). apply (Hn cur Hp). left.
Qed.
Lemma still_holds A' : keeps [cur] A A' → Forall (holds_value (a_cells A')) (all_entries cl ++ es).
Proof using Hb.
  intros Hk. eapply Forall_impl; [apply (bl_holds _ _ _ _ _ _ Hb)|]. intros e. apply (holds_kept [cur] A A' e Hk).
  intros q ->%list_elem_of_singleton j bs. destruct cur_chain as [_ ->]. done.
Qed.
(** The current leaf is closed. *)
Lemma next_leaf_ok : es ≠ [] → page_number (a_pages A + 1) → ∃ t' A' b' q, next_leaf b t = (t', Ok b') ∧ building t' A' b' (cl ++ [(cur, es)]) q [] ∧
  entry_count b' = entry_count b ∧ same_meta A A' ∧ a_config A' = a_config A ∧ a_pages A' ≤ a_pages A + 1.
Proof using Hb.
  intros Hne Hpn. pose proof (bl_phys _ _ _ _ _ _ Hb) as Hp. destruct cur_chain as [Hch Hc]. pose proof cur_page as Hcp. pose proof (ph_bound _ _ Hp) as Hbd.
  destruct (alloc_page_ok t A Hp Hpn) as (t1 & q & A1 & Ha & Hp1 & [Hk1 Hs1 Hg1 Hf1]). specialize (Hf1 0 ltac:(lia)). rewrite Nat.add_0_r in Hf1.
  destruct (init_leaf_ok t1 A1 q false Hp1 Hf1) as (t2 & Hi & Hp2).
  assert (a_cells A1 !! cur = Some (CLeaf 0 prv es)) as Hc1 by (apply (kp_cells _ _ _ Hk1); [apply not_elem_of_nil|done|done]).
  assert (q ≠ cur) as Hqc. { intros ->. destruct Hf1 as (_ & _ & Hf1). by apply (Hf1 _ Hc1). }
  assert (page_number q) as Hpq. { destruct Hf1 as ([_ ?] & _). unfold page_number in *. lia. }
  assert (page_number cur) as Hpc by (unfold page_number in *; lia).
  destruct (set_next_ok t2 _ cur 0 prv es q Hp2) as (t3 & Hn & Hp3); [by rewrite put_lookup_ne|done|].
  destruct (set_prev_ok t3 _ q 0 0 [] cur Hp3) as (t4 & Hpv & Hp4); [rewrite put_lookup_ne by done; apply put_lookup|done|].
  set (A4 := put_cell q (CLeaf 0 cur []) (put_cell cur (CLeaf q prv es) (put_cell q (CLeaf 0 0 []) A1))) in *.
  assert (∀ c, in_use c → a_cells A !! q ≠ Some c) as Hqu.
  { intros c Hu Hcq. destruct Hf1 as (_ & _ & Hf1). apply (Hf1 c); [|done]. apply (kp_cells _ _ _ Hk1); [apply not_elem_of_nil|done|done]. }
  assert (keeps [cur] A A4) as Hk4.
  { destruct Hk1 as [P1 C1 K1]. constructor; [done|done|]. intros r c Hr Hu Hcr. rewrite list_elem_of_singleton in Hr.
    assert (r ≠ q) by (intros ->; by apply (Hqu c)). unfold A4. rewrite !put_lookup_ne by done. apply K1; [apply not_elem_of_nil|done|done]. }
  assert (q ∉ map fst cl) as Hqn.
  { rewrite <- plain_pages. unfold pages_in. intros (x & -> & Hx)%list_elem_of_fmap. destruct (chain_elem _ _ _ _ _ Hch Hx) as (nx & pr & Hcx). exact (Hqu (CLeaf nx pr x.2.2) I Hcx). }
  exists t4, A4, (mkBuilder q (leaves b ++ [q]) (push_opt (leaf_first_keys b) (current_first_key b)) (push_opt (leaf_last_keys b) (current_last_key b)) None None (entry_count b)), q.
  split.
  { unfold next_leaf. rewrite Ha. cbn [and_then]. rewrite Hi. cbn [and_then]. rewrite (bl_cur _ _ _ _ _ _ Hb), Hn. cbn [and_then]. rewrite Hpv. done. }
  split; [|split; [done|split; [eapply same_meta_trans; [exact Hs1|by constructor]|split; [apply Hk4|exact Hg1]]]].
  destruct (head es) as [e0|] eqn:E0; [|by destruct es]. destruct (last es) as [e1|] eqn:E1; [|by apply last_None in E1].
  constructor; cbn [current_leaf leaves leaf_first_keys leaf_last_keys current_first_key current_last_key].
  - exact Hp4.
  - done.
  - by rewrite (bl_leaves _ _ _ _ _ _ Hb), map_app.
  - rewrite (bl_first _ _ _ _ _ _ Hb), (bl_cf _ _ _ _ _ _ Hb), map_app, E0. cbn [push_opt fmap option_fmap option_map map snd]. unfold head_key at 3. by rewrite E0.
  - rewrite (bl_last _ _ _ _ _ _ Hb), (bl_cl _ _ _ _ _ _ Hb), map_app, E1. cbn [push_opt fmap option_fmap option_map map snd]. unfold last_key at 3. by rewrite E1.
  - done.
  - done.
  - rewrite !plain_app. apply chain_app. split; [apply chain_app; split|].
    + by apply closed_chain.
    + split; [|done]. unfold A4. rewrite put_lookup_ne by done. apply put_lookup.
    + rewrite last_page_app. split; [|done]. unfold A4. apply put_lookup.
  - rewrite map_app. cbn [map fst]. apply NoDup_app. split; [apply Hb|]. split; [|apply NoDup_singleton]. intros r Hr ->%list_elem_of_singleton.
    apply elem_of_app in Hr as [Hr|Hr%list_elem_of_singleton]; [done|congruence].
  - apply Forall_app. split; [apply Hb|by constructor].
  - rewrite all_entries_app, all_entries_one, app_nil_r. by apply still_holds.
  - rewrite all_entries_app, all_entries_one, app_nil_r. apply Hb.
  - rewrite map_app. cbn [map fst]. pose proof (bl_one _ _ _ _ _ _ Hb) as Ho. destruct (map fst cl ++ [cur]); [done|]. exact Ho.
Qed.
(** What an append to the current leaf leaves. *)
Lemma appended t' A' b' k v pl : storable k v → phys t' A' → a_cells A' !! cur = Some (CLeaf 0 prv (es ++ [(k, pl)])) → wrote cur v A A' → payload_for k v pl → holds_value (a_cells A') (k, pl) →
  small_entry k v → Forall is_byte k → b' = mkBuilder (current_leaf b) (leaves b) (leaf_first_keys b) (leaf_last_keys b)
    (Some (match current_first_key b with None => k | Some j => j end)) (Some k) (entry_count b) → building t' A' b' cl cur (es ++ [(k, pl)]).
Proof using Hb.
  intros Hst Hp Hc [Hk Hm Hg] Hpf Hh Hse Hbk ->. destruct cur_chain as [Hch _].
  constructor; cbn [current_leaf leaves leaf_first_keys leaf_last_keys current_first_key current_last_key]; try apply Hb.
  - done.
  - rewrite (bl_cf _ _ _ _ _ _ Hb). by destruct es.
  - by rewrite last_snoc.
  - rewrite plain_app. apply chain_app. split; [by apply closed_chain|]. by split.
  - rewrite app_assoc. apply Forall_app. split; [by apply still_holds|by constructor].
  - rewrite app_assoc. apply Forall_app. split; [apply Hb|]. constructor; [|done]. by eapply put_tidy.
Qed.
End Step.

(** ** One push *)
Definition counted b : BottomUpBuilder := mkBuilder (current_leaf b) (leaves b) (leaf_first_keys b) (leaf_last_keys b) (current_first_key b) (current_last_key b) (entry_count b + 1).
Lemma building_counted t A b cl cur es : building t A b cl cur es → building t A (counted b) cl cur es.
Proof. intros []. by constructor. Qed.
(** The append at the end of [push], with the current leaf's room. *)
Lemma push_append_ok t A b cl cur es k v : building t A b cl cur es → storable k v → small_entry k v → Forall is_byte k →
  leaf_cost es + (entry_size k v + SLOT_SIZE) ≤ PAGE_SIZE - LEAF_HEADER_SIZE → page_number (a_pages A + chunks v) → ∃ t' A' pl b',
  (let first := match current_first_key b with None => k | Some k => k end in
   let! leaf := page_bytes t (current_leaf b) from t in
   let! count := page_count leaf from t in
   let! data_off := data_offset leaf from t in
   let! nd := checked_sub data_off (6 + length k + payload_len k v) from t in
   let* t, _ := write_leaf_entry_raw (current_leaf b) nd k v (overflows k v) t in
   let* t, _ := edit (current_leaf b) (record_slot LEAF_HEADER_SIZE count nd count) t in
   let* t, _ := add_leaf_entry_bytes (leaf_entry_bytes (length k) (payload_len k v)) t in
   (t, Ok (mkBuilder (current_leaf b) (leaves b) (leaf_first_keys b) (leaf_last_keys b) (Some first) (Some k) (entry_count b))))%zen = (t', Ok b') ∧
  building t' A' b' cl cur (es ++ [(k, pl)]) ∧ entry_count b' = entry_count b ∧ payload_for k v pl ∧ same_meta A A' ∧ a_config A' = a_config A ∧ a_pages A' ≤ a_pages A + chunks v.
Proof.
  intros Hb Hst Hse Hbk Hcost Hpn. pose proof (bl_phys _ _ _ _ _ _ Hb) as Hp. destruct (cur_chain _ _ _ _ _ _ Hb) as [_ Hc].
  destruct (append_new_ok t A cur _ _ es k v Hp Hc Hst Hcost Hpn) as (t1 & A1 & pl & Ha & Hp1 & Hc1 & Hw & Hpf & Hh).
  rewrite (bl_cur _ _ _ _ _ _ Hb). destruct (leaf_page_at _ _ _ _ _ _ Hp Hc) as (buf & Hbuf & Hleaf & _).
  unfold leaf_append_inline_entry in Ha. rewrite Hbuf in Ha |- *. cbn [reading] in Ha |- *.
  rewrite (leaf_count _ _ _ _ Hleaf), (leaf_data_off _ _ _ _ Hleaf) in Ha |- *. cbn [reading] in Ha |- *.
  destruct (checked_sub _ _) as [nd|e|]; cbn [reading] in Ha |- *; [|done..].
  destruct (write_leaf_entry_raw cur nd k v (overflows k v) t) as [t0 [[]|e|]]; cbn [and_then] in Ha |- *; [|done..]. rewrite Ha. cbn [and_then].
  unfold add_leaf_entry_bytes. edestruct (write_leaf_bytes_ok t1) as (t2 & -> & Hp2); [exact Hp1|]. cbn [and_then].
  eexists t2, A1, pl, _. split; [done|]. rewrite <- (bl_cur _ _ _ _ _ _ Hb).
  split; [by eapply (appended t A b cl); rewrite ?(bl_cur _ _ _ _ _ _ Hb)|]. split; [done|]. split; [done|]. split; [apply Hw|]. split; [apply Hw|apply Hw].
Qed.
Lemma builder_push_ok t A b cl cur es k v : building t A b cl cur es → storable k v → small_entry k v → Forall is_byte k → page_number (a_pages A + chunks v + 1) →
  ∃ t' A' b' cl' cur' es' pl, builder_push k v b t = (t', Ok b') ∧ building t' A' b' cl' cur' es' ∧ entry_count b' = (entry_count b + 1)%Z ∧ payload_for k v pl ∧
  all_entries cl' ++ es' = (all_entries cl ++ es) ++ [(k, pl)] ∧ es' ≠ [] ∧ same_meta A A' ∧ a_config A' = a_config A ∧ a_pages A' ≤ a_pages A + chunks v + 1.
Proof.
  intros Hb Hst Hse Hbk Hpn. pose proof (bl_phys _ _ _ _ _ _ Hb) as Hp. destruct (cur_chain _ _ _ _ _ _ Hb) as [_ Hc].
  destruct (leaf_page_at _ _ _ _ _ _ Hp Hc) as (buf & Hbuf & Hleaf & _). pose proof (leaf_cost_used es) as Hcu. pose proof (leaf_room _ _ _ _ Hleaf) as Hroom.
  unfold builder_push. change (mkBuilder _ _ _ _ _ _ (entry_count b + 1)) with (counted b). pose proof (building_counted _ _ _ _ _ _ Hb) as Hbc. unfold small_entry in Hse.
  change (current_leaf (counted b)) with (current_leaf b). rewrite (bl_cur _ _ _ _ _ _ Hb), Hbuf. cbn [reading].
  rewrite (leaf_count _ _ _ _ Hleaf), (leaf_data_off _ _ _ _ Hleaf). cbn [reading]. fold (entry_size k v).
  destruct (Nat.ltb_spec (PAGE_SIZE - leaf_used es) (LEAF_HEADER_SIZE + length es * SLOT_SIZE + (entry_size k v + SLOT_SIZE))) as [Hlt|Hge].
  - assert (es ≠ []) as Hne. { intros ->. change (leaf_used []) with 0 in Hlt. cbn [length] in Hlt. unfold MAX_ENTRY in Hse. page_lia. }
    destruct (next_leaf_ok _ _ _ _ _ _ Hbc Hne) as (t1 & A1 & b1 & q & Hn & Hb1 & Hct1 & Hs1 & Hcf1 & Hg1); [unfold page_number in *; lia|]. rewrite Hn. cbn [and_then].
    destruct (push_append_ok t1 A1 b1 (cl ++ [(cur, es)]) q [] k v Hb1 Hst Hse Hbk) as (t2 & A2 & pl & b2 & Hap & Hb2 & Hct2 & Hpf & Hs2 & Hcf2 & Hg2);
      [change (leaf_cost []) with 0; unfold MAX_ENTRY in Hse; page_lia|unfold page_number in *; lia|].
    exists t2, A2, b2, (cl ++ [(cur, es)]), q, [(k, pl)], pl. split; [exact Hap|]. split; [exact Hb2|]. split; [by rewrite Hct2, Hct1|]. split; [done|].
    split; [by rewrite all_entries_app, all_entries_one|]. split; [done|]. split; [by eapply same_meta_trans|]. split; [congruence|lia].
  - cbn [and_then]. destruct (push_append_ok t A (counted b) cl cur es k v Hbc Hst Hse Hbk) as (t2 & A2 & pl & b2 & Hap & Hb2 & Hct2 & Hpf & Hs2 & Hcf2 & Hg2);
      [page_lia|unfold page_number in *; lia|].
    exists t2, A2, b2, cl, cur, (es ++ [(k, pl)]), pl. split; [exact Hap|]. split; [exact Hb2|]. split; [by rewrite Hct2|]. split; [done|].
    split; [by rewrite app_assoc|]. split; [by destruct es|]. split; [done|]. split; [done|lia].
Qed.

(** ** Finishing *)
Lemma last_pages l d : last_page l d = default d (last (pages_in l)).
Proof. unfold last_page, pages_in. change (map (λ x : fenced, x.2.1) l) with ((λ x : fenced, x.2.1) <$> l). rewrite fmap_last. by destruct (last l). Qed.
Lemma fenced_pages G : pages_in (fences G) = map fst G.
Proof. unfold pages_in. rewrite <- (fences_plain G) at 2. by rewrite map_map. Qed.
Lemma fences_contents G : contents (fences G) = all_entries G.
Proof. by rewrite contents_plain, fences_plain. Qed.
Lemma tidy_key e : tidy_entry e → length e.1 ≤ MAX_ENTRY.
Proof. destruct e as [k pl]. intros [Hc _ _ _]. unfold entry_cost in Hc. rewrite enc_entry_length in Hc. simpl in *. lia. Qed.
Lemma fenced_short G : ∀ es, bt_wf (es ++ all_entries G) → Forall tidy_entry (all_entries G) → es ≠ [] → Forall (λ x : page_entries, x.2 ≠ []) G →
  Forall (λ x : fenced, length x.1 ≤ MAX_ENTRY) (fenced_by (last_key es) G).
Proof.
  induction G as [|[q es'] G IH]; intros es Hw Ht Hne HG; [constructor|]. unfold all_entries in Hw, Ht. cbn [map concat snd] in Hw, Ht. fold (all_entries G) in Hw, Ht.
  apply Forall_cons in HG as [Hne' HG]. simpl in Hne'. apply Forall_app in Ht as [Ht' Ht]. destruct es' as [|eb es']; [done|]. pose proof (last_is_Some es) as [_ Hl]. destruct (Hl Hne) as [a Ha].
  assert (a ∈ es) as Hae by (apply last_Some in Ha as (X & ->); apply elem_of_app; right; left).
  apply wf_app in Hw as (_ & Hw & HX). assert (cmp a.1 eb.1 = Lt) as Hab by (apply HX; [done|left]). rewrite Forall_forall in Ht'. pose proof (Ht' eb (list_elem_of_here _ _)) as Hte.
  cbn [fenced_by snd]. constructor; [|by apply IH]. unfold last_key, head_key. rewrite Ha. cbn [fst head].
  destruct (separator_parts a.1 eb.1 Hab) as (_ & _ & Hlen); [apply Hte|]. pose proof (tidy_key eb Hte). lia.
Qed.
Lemma fences_short G : bt_wf (all_entries G) → Forall tidy_entry (all_entries G) → Forall (λ x : page_entries, x.2 ≠ []) G → Forall (λ x : fenced, length x.1 ≤ MAX_ENTRY) (fences G).
Proof.
  destruct G as [|[p es] G]; [constructor|]. unfold all_entries. cbn [map concat snd]. fold (all_entries G). intros Hw [_ Ht]%Forall_app [Hne HG]%Forall_cons.
  cbn [fences]. constructor; [simpl; unfold MAX_ENTRY; lia|]. by apply fenced_short.
Qed.
Lemma tree_of_leaves A A' G T (new : list node) : G ≠ [] → flat [] T = fences G → nodes T ≡ₚ new → a_root A' = page_of T → a_right A' = default 0 (last (map fst G)) → nodes_in (a_cells A') new →
  NoDup (map fst new) → (∀ q c, q ∈ map fst new → in_use c → a_cells A !! q ≠ Some c) → (∀ q c, in_use c → a_cells A !! q = Some c → a_cells A' !! q = Some c) → chain (a_cells A) 0 (plain G) 0 →
  NoDup (map fst G) → (length G = 1 ∨ Forall (λ x : page_entries, x.2 ≠ []) G) → bt_wf (all_entries G) → Forall tidy_entry (all_entries G) → Forall (holds_value (a_cells A)) (all_entries G) →
  a_count A' = Z.of_nat (length (all_entries G)) → tree_in A' T ∧ tidy T ∧ contents (flat [] T) = all_entries G.
Proof.
  intros HG Hfl Hns Hr Hri Hnew Hnd Hun Hk Hch Hpg Hne Hw Ht Hh Hc. assert (contents (flat [] T) = all_entries G) as Hcon by (by rewrite Hfl, fences_contents).
  split; [|split; [by unfold tidy; rewrite Hcon|done]]. constructor; rewrite ?Hcon, ?Hfl.
  - done.
  - by rewrite last_pages, fenced_pages.
  - unfold nodes_in. by rewrite Hns.
  - apply (chain_plain _ _ (plain G)); [by rewrite plain_snd, fences_plain|]. eapply chain_frame; [|exact Hch]. intros p es nx pr _. by apply Hk.
  - unfold tree_pages. rewrite Hfl, fenced_pages, Hns. apply NoDup_app. split; [done|]. split; [|done]. intros q Hq Hq'. rewrite <- plain_pages in Hq'.
    apply list_elem_of_fmap in Hq' as (x & -> & Hx). destruct (chain_elem _ _ _ _ _ Hch Hx) as (nx & pr & Hcx). exact (Hun _ (CLeaf nx pr x.2.2) Hq I Hcx).
  - apply fences_order; [done| |done|done]. eapply Forall_impl; [exact Ht|]. by intros e [].
  - eapply Forall_impl; [exact Hh|]. intros e. apply (holds_keeps []); [|by intros q ?%not_elem_of_nil]. intros q c _. by apply Hk.
  - done.
Qed.
Lemma finish_ok t A b cl cur es : building t A b cl cur es → entry_count b = Z.of_nat (length (all_entries cl ++ es)) → a_count A = 0%Z → a_root A = 1 → (cl ≠ [] → es ≠ []) →
  bt_wf (all_entries cl ++ es) → page_number (a_pages A + 2 * (length cl + 1)) → (Z.of_nat (length (all_entries cl ++ es)) < two64)%Z → ∃ t' A' T,
  builder_finish b t = (t', Ok tt) ∧ phys t' A' ∧ tree_in A' T ∧ tidy T ∧ contents (flat [] T) = all_entries cl ++ es ∧ a_config A' = a_config A.
Proof.
  intros Hb Hct Hc0 Hr1 Hne Hw Hpn Hbd. pose proof (bl_phys _ _ _ _ _ _ Hb) as Hp. pose proof (cur_page _ _ _ _ _ _ Hb) as Hcp. destruct (cur_chain _ _ _ _ _ _ Hb) as [_ Hcc].
  set (G := cl ++ [(cur, es)]). assert (all_entries G = all_entries cl ++ es) as HG by (unfold G; by rewrite all_entries_app, all_entries_one).
  assert (map fst G = map fst cl ++ [cur]) as Hfst by (unfold G; by rewrite map_app).
  pose proof (bl_chain _ _ _ _ _ _ Hb) as Hch. fold G in Hch. pose proof (bl_tidy _ _ _ _ _ _ Hb) as Ht. pose proof (bl_holds _ _ _ _ _ _ Hb) as Hh. rewrite <- HG in *.
  unfold builder_finish. rewrite (bl_cur _ _ _ _ _ _ Hb). destruct (set_right_ok t A cur Hp) as (t1 & -> & Hp1); [lia|]. cbn [and_then].
  destruct (inc_entries_ok t1 _ (entry_count b) Hp1) as (t2 & -> & Hp2); [simpl; rewrite Hc0; lia|]. cbn [and_then]. rewrite (bl_leaves _ _ _ _ _ _ Hb), length_app, length_map. cbn [length].
  set (A2 := with_count _ _) in Hp2. assert (a_count A2 = Z.of_nat (length (all_entries G))) as Hc2 by (simpl; rewrite Hc0, Hct; lia).
  destruct (Nat.ltb_spec 1 (length cl + 1)) as [Hlt|Hge].
  - assert (cl ≠ []) as Hcl by (intros ->; simpl in Hlt; lia). specialize (Hne Hcl).
    assert (Forall (λ x : page_entries, x.2 ≠ []) G) as Hall by (apply Forall_app; split; [apply Hb|by constructor]).
    assert (push_opt (leaf_first_keys b) (current_first_key b) = map (λ x : page_entries, head_key x.2) G) as ->.
    { rewrite (bl_first _ _ _ _ _ _ Hb), (bl_cf _ _ _ _ _ _ Hb). unfold G. rewrite map_app. destruct es as [|e0 es0]; [done|]. done. }
    assert (push_opt (leaf_last_keys b) (current_last_key b) = map (λ x : page_entries, last_key x.2) G) as ->.
    { rewrite (bl_last _ _ _ _ _ _ Hb), (bl_cl _ _ _ _ _ _ Hb). unfold G. rewrite map_app. cbn [map snd]. unfold last_key at 3. destruct (last es) eqn:E; [done|]. by apply last_None in E. }
    rewrite <- Hfst. assert (length G = length cl + 1) as HlG by (unfold G; rewrite length_app; done).
    destruct (build_internal_ok t2 A2 G Hp2) as (t3 & A3 & T & new & -> & Hp3 & [R1 R2 R3 R4 R5 R6 [M1 M2 M3] R8 R9]).
    + lia.
    + apply (leaf_trees_ok A2 G MAX_ENTRY); [|by apply fences_short|done]. intros x Hx. rewrite Forall_forall in Hall. split; [|by apply Hall].
      assert ((([] : list Z), x) ∈ plain G) as Hxp by (apply list_elem_of_fmap; by exists x). destruct (chain_elem _ _ _ _ _ Hch Hxp) as (nx & pr & Hcx). apply (ph_cells _ _ Hp) in Hcx as [? _]. simpl in *. lia.
    + pose proof (bl_one _ _ _ _ _ _ Hb) as Ho. rewrite <- Hfst in Ho. destruct G as [|[p1 es1] G']; [done|]. injection Ho as ->. destruct Hch as [Hc1 _]. by eexists _, _, _.
    + rewrite HlG. exact Hpn.
    + rewrite leaf_forest in R1. rewrite leaf_side_nodes, app_nil_r in R2.
      exists t3, (with_root (page_of T) A3), T. split; [done|]. split; [done|].
      destruct (tree_of_leaves A (with_root (page_of T) A3) G T new) as (H1 & H2 & H3); try done.
      * unfold G. by destruct cl.
      * change (a_right A3 = default 0 (last (map fst G))). rewrite M2, Hfst, last_snoc. done.
      * intros q c Hu Hcq. apply (kp_cells _ _ _ R6); [apply not_elem_of_nil|done|done].
      * rewrite Hfst. apply Hb.
      * by right.
      * change (a_count A3 = Z.of_nat (length (all_entries G))). by rewrite M3.
      * split; [done|]. split; [done|]. split; [done|]. apply (kp_config _ _ _ R6).
  - assert (cl = []) as -> by (destruct cl; [done|simpl in Hge; lia]). pose proof (bl_one _ _ _ _ _ _ Hb) as Ho. injection Ho as ->.
    destruct (flag_ok t2 A2 1 _ set_flag_root Hp2 Hcc I ltac:(by left)) as (t3 & -> & Hp3). exists t3, A2, (Leaf 1 es). split; [done|]. split; [done|].
    destruct (tree_of_leaves A A2 G (Leaf 1 es) []) as (H1 & H2 & H3); try done.
    + by apply Forall_nil.
    + by apply NoDup_nil.
    + by intros q c ?%not_elem_of_nil.
    + rewrite Hfst. apply Hb.
    + by left.
Qed.

(** ** A whole construction *)
Implicit Types (items : list (list Z * list Z)).
Fixpoint push_all items b t : step BottomUpBuilder :=
  match items with
  | [] => (t, Ok b)
  | q :: items => and_then (builder_push q.1 q.2 b t) (λ t b, push_all items b t)
  end.
Definition item_ok (q : list Z * list Z) : Prop := storable q.1 q.2 ∧ small_entry q.1 q.2 ∧ Forall is_byte q.1.
Definition room_for items : nat := list_sum (map (λ q : list Z * list Z, chunks q.2 + 1) items).
Lemma room_cons (q : list Z * list Z) items : room_for (q :: items) = chunks q.2 + 1 + room_for items.
Proof. done. Qed.
Lemma room_length items : length items ≤ room_for items.
Proof. induction items as [|[k v] items IH]; [done|]. rewrite room_cons. simpl. lia. Qed.
Lemma push_all_ok items : ∀ t A b cl cur es, building t A b cl cur es → Forall item_ok items → page_number (a_pages A + room_for items) → ∃ t' A' b' cl' cur' es',
  push_all items b t = (t', Ok b') ∧ building t' A' b' cl' cur' es' ∧ entry_count b' = (entry_count b + Z.of_nat (length items))%Z ∧
  on_values stored_value (all_entries cl' ++ es') = on_values stored_value (all_entries cl ++ es) ++ items ∧ (items ≠ [] → es' ≠ []) ∧ (items = [] → cl' = cl ∧ es' = es) ∧
  same_meta A A' ∧ a_config A' = a_config A ∧ a_pages A' ≤ a_pages A + room_for items.
Proof.
  induction items as [|[k v] items IH]; intros t A b cl cur es Hb HF Hpn.
  { exists t, A, b, cl, cur, es. rewrite app_nil_r. split_and!; try done; simpl; lia. }
  apply Forall_cons in HF as [(H1 & H2 & H3) HF]. cbn [push_all fst snd] in *. rewrite room_cons in Hpn. cbn [snd] in Hpn.
  destruct (builder_push_ok t A b cl cur es k v Hb H1 H2 H3) as (t1 & A1 & b1 & cl1 & cur1 & es1 & pl & -> & Hb1 & Hct1 & Hpf & Hall & Hne & Hs1 & Hcf1 & Hg1); [unfold page_number in *; lia|].
  cbn [and_then]. destruct (IH t1 A1 b1 cl1 cur1 es1 Hb1 HF) as (t2 & A2 & b2 & cl2 & cur2 & es2 & -> & Hb2 & Hct2 & Hall2 & Hne2 & Hnil & Hs2 & Hcf2 & Hg2); [unfold page_number in *; lia|].
  exists t2, A2, b2, cl2, cur2, es2. split; [done|]. split; [done|]. split; [rewrite Hct2, Hct1; cbn [length]; lia|]. split.
  - rewrite Hall2, Hall, on_values_app. unfold on_values at 2. cbn [map fst snd]. rewrite (pf_value _ _ _ Hpf), <- app_assoc. done.
  - split; [|split; [done|]].
    + intros _. destruct items as [|q items]; [|by apply Hne2]. destruct (Hnil eq_refl) as [_ ->]. done.
    + split; [by eapply same_meta_trans|]. rewrite room_cons. cbn [snd]. split; [congruence|lia].
Qed.
Lemma building_new t A : phys t A → tree_in A (Leaf 1 []) → building t A builder_new [] 1 [].
Proof.
  intros Hp Ht. constructor; try done; try by constructor.
  - apply (chain_plain _ _ (flat [] (Leaf 1 []))); [done|apply Ht].
  - apply NoDup_singleton.
Qed.
Lemma closed_length cl : Forall (λ x : page_entries, x.2 ≠ []) cl → length cl ≤ length (all_entries cl).
Proof.
  induction 1 as [|[p es] cl Hne _ IH]; [done|]. unfold all_entries. cbn [map concat snd]. fold (all_entries cl). rewrite length_app. simpl in *. destruct es; [done|simpl; lia].
Qed.
Lemma build_ok t A items : phys t A → tree_in A (Leaf 1 []) → Forall item_ok items → bt_wf items → page_number (a_pages A + room_for items + 2 * (length items + 1)) → ∃ t' A' T,
  and_then (push_all items builder_new t) (λ t b, builder_finish b t) = (t', Ok tt) ∧ phys t' A' ∧ tree_in A' T ∧ tidy T ∧ stored T = items ∧ a_config A' = a_config A.
Proof.
  intros Hp Ht HF Hw Hpn. destruct (push_all_ok items t A builder_new [] 1 [] (building_new t A Hp Ht) HF) as
    (t1 & A1 & b1 & cl & cur & es & -> & Hb1 & Hct & Hall & Hne & Hnil & [M1 M2 M3] & Hcf & Hg); [unfold page_number in *; lia|]. cbn [and_then].
  change (on_values stored_value (all_entries [] ++ [])) with (@nil (list Z * list Z)) in Hall. cbn [app] in Hall.
  assert (length (all_entries cl ++ es) = length items) as Hlen by (rewrite <- Hall; unfold on_values; by rewrite length_map).
  pose proof (closed_length cl (bl_closed _ _ _ _ _ _ Hb1)) as Hcl. pose proof (room_length items) as Hrl. rewrite length_app in Hlen.
  destruct (finish_ok t1 A1 b1 cl cur es Hb1) as (t2 & A2 & T & -> & Hp2 & Ht2 & Hd2 & Hc2 & Hcf2).
  - rewrite Hct, length_app, Hlen. done.
  - rewrite M3, (ti_count _ _ Ht). done.
  - rewrite M1, (ti_root _ _ Ht). done.
  - intros Hn. apply Hne. intros ->. by destruct (Hnil eq_refl) as [-> _].
  - apply (values_wf stored_value). by rewrite Hall.
  - unfold page_number in *. lia.
  - rewrite length_app, Hlen. unfold page_number in Hpn. change two64 with (2 ^ 64)%Z. lia.
  - exists t2, A2, T. split; [done|]. split; [done|]. split; [done|]. split; [done|]. split; [unfold stored; by rewrite Hc2|congruence].
Qed.
