(* ===== verification/BPlusOpen.v ===== *)
(** * Creating, opening and clearing a tree

    A created or cleared file holds the empty tree; a file opened again holds
    the tree it had. *)
From stdpp Require Import base numbers option gmap list.
From S2P Require Import Prelude Bytes BinarySearch Order BTreeMap Mmap Backend BPlusPages BPlusNodes BPlus BPlusBytes BPlusSlots BPlusCells BPlusPageOps BPlusStore BPlusAlloc BPlusShape BPlusTree BPlusWrites.
Import Pages Nodes BPlus.
Implicit Types (t : BPlusTree) (A : Abs) (p q n : nat) (buf meta : list Z) (config : BPlusTreeConfig).

(** ** The empty tree *)
Definition empty_abs config : Abs := mkAbs 1 1 [] 2 0 config {[1 := CLeaf 0 0 []]}.
Lemma empty_tree config : tree_in (empty_abs config) (Leaf 1 []).
Proof.
  constructor; simpl; try done; [constructor|apply NoDup_singleton].
Qed.
Lemma empty_meta_ok meta : length meta = PAGE_SIZE → get_bytes meta 0 4 = Ok (to_le_bytes 4 MAGIC) → ∃ meta', empty_meta meta = Ok meta' ∧
  length meta' = PAGE_SIZE ∧ ∀ config, meta_ok meta' (empty_abs config) empty_stats.
Proof.
  intros Hl Hm. unfold empty_meta.
  destruct (put64_spec meta META_ROOT 1) as (b1 & -> & S1 & F1); [meta_lia|]. cbn [rbind]. pose proof (so_length _ _ _ _ S1) as L1.
  destruct (put64_spec b1 META_FREE_HEAD 0) as (b2 & -> & S2 & F2); [meta_lia|]. cbn [rbind]. pose proof (so_length _ _ _ _ S2) as L2.
  destruct (put64_spec b2 META_PAGES 2) as (b3 & -> & S3 & F3); [meta_lia|]. cbn [rbind]. pose proof (so_length _ _ _ _ S3) as L3.
  destruct (put64_spec b3 META_ENTRIES 0) as (b4 & -> & S4 & F4); [meta_lia|]. cbn [rbind]. pose proof (so_length _ _ _ _ S4) as L4.
  destruct (put64_spec b4 META_RIGHTMOST_LEAF 1) as (b5 & -> & S5 & F5); [meta_lia|]. cbn [rbind]. pose proof (so_length _ _ _ _ S5) as L5.
  destruct (put64_spec b5 META_LEAF_PAGES 1) as (b6 & -> & S6 & F6); [meta_lia|]. cbn [rbind]. pose proof (so_length _ _ _ _ S6) as L6.
  destruct (put64_spec b6 META_LEAF_ENTRY_BYTES 0) as (b7 & -> & S7 & F7); [meta_lia|]. cbn [rbind]. pose proof (so_length _ _ _ _ S7) as L7.
  destruct (put64_spec b7 META_FREE_PAGES 0) as (b8 & -> & S8 & F8); [meta_lia|]. pose proof (so_length _ _ _ _ S8) as L8.
  exists b8. split; [done|]. split; [lia|]. intros config. unfold field in *.
  constructor; unfold field; rewrite ?(so_bytes _ _ _ _ S8) by meta_lia; try exact F8; rewrite ?(so_bytes _ _ _ _ S7) by meta_lia; try exact F7;
    rewrite ?(so_bytes _ _ _ _ S6) by meta_lia; try exact F6; rewrite ?(so_bytes _ _ _ _ S5) by meta_lia; try exact F5;
    rewrite ?(so_bytes _ _ _ _ S4) by meta_lia; try exact F4; rewrite ?(so_bytes _ _ _ _ S3) by meta_lia; try exact F3;
    rewrite ?(so_bytes _ _ _ _ S2) by meta_lia; try exact F2; rewrite ?(so_bytes _ _ _ _ S1) by meta_lia; try exact F1. exact Hm.
Qed.
(** A mapped file whose first two pages are written as [clear] writes them. *)
Lemma empty_written t config (f : list Z → io (list Z)) : bp_map t = Mapped (length (bp_file t)) → bp_os t = [] → bp_config t = config → 2 * PAGE_SIZE ≤ length (bp_file t) →
  (∀ buf, length buf = PAGE_SIZE → page_bytes t META_PAGE = Ok buf → ∃ buf', f buf = Ok buf' ∧ length buf' = PAGE_SIZE ∧ meta_ok buf' (empty_abs config) empty_stats) → ∃ t1 t',
  edit META_PAGE f t = (t1, Ok tt) ∧ bp_stats t1 = bp_stats t ∧ edit 1 (leaf_header FLAG_ROOT) (set_stats empty_stats t1) = (t', Ok tt) ∧ phys t' (empty_abs config).
Proof.
  intros Hm Hos Hcf Hsz Hf. assert (mapped t = bp_file t) as Hmap by (unfold mapped; rewrite Hm; apply firstn_all).
  assert (∀ p, p < 2 → ∃ buf, page_bytes t p = Ok buf ∧ length buf = PAGE_SIZE) as Hpg.
  { intros p Hp. unfold page_bytes. rewrite Hmap. rewrite get_bytes_ok by (unfold page_offset; page_lia). eexists. split; [done|]. rewrite length_take, length_drop. unfold page_offset. page_lia. }
  destruct (Hpg 0) as (b0 & Hb0 & Hl0); [lia|]. destruct (Hpg 1) as (b1 & Hb1 & Hl1); [lia|].
  destruct (Hf b0 Hl0 Hb0) as (m' & Hm' & Hlm & Hok). destruct (edit_mapped t META_PAGE f b0 m' Hm) as (t1 & He1 & W1); [meta_lia|done|done|done|].
  destruct (leaf_header_spec b1 FLAG_ROOT Hl1) as (b1' & Hb1' & Hleaf); [done|]. set (t1s := set_stats empty_stats t1).
  destruct (edit_mapped t1s 1 (leaf_header FLAG_ROOT) b1 b1') as (t2 & He2 & W2).
  - change (bp_map t1 = Mapped (length (bp_file t1))). by rewrite (rw_map _ _ _ _ W1), (rw_size _ _ _ _ W1).
  - change (2 * PAGE_SIZE ≤ length (bp_file t1)). by rewrite (rw_size _ _ _ _ W1).
  - change (page_bytes t1 1 = Ok b1). by rewrite (rw_other _ _ _ _ W1) by done.
  - done.
  - by eapply leaf_page_length.
  - exists t1, t2. split; [done|]. split; [apply W1|]. split; [done|]. pose proof W1 as [WM1 WS1 WO1 WC1 WT1 WP1 WR1]. pose proof W2 as [WM2 WS2 WO2 WC2 WT2 WP2 WR2].
    change (bp_map t1s) with (bp_map t1) in WM2. change (bp_file t1s) with (bp_file t1) in WS2. change (bp_os t1s) with (bp_os t1) in WO2.
    change (bp_config t1s) with (bp_config t1) in WC2. change (bp_stats t1s) with empty_stats in WT2.
    constructor; cbn [a_config a_pages a_count a_root a_right empty_abs].
    + congruence.
    + congruence.
    + congruence.
    + done.
    + rewrite WS2, WS1. exact Hsz.
    + done.
    + exists m'. rewrite WT2. split; [|done]. by rewrite (WR2 META_PAGE).
    + by rewrite WT2.
    + lia.
    + split; [done|constructor].
    + intros p c Hc. cbn [a_cells empty_abs] in Hc. apply lookup_singleton_Some in Hc as [<- <-]. split; [lia|]. exists b1'. split; [done|]. by split.
Qed.
Lemma clear_ok t A : phys t A → ∃ t', bp_clear t = (t', Ok tt) ∧ phys t' (empty_abs (a_config A)).
Proof.
  intros Hp. pose proof (ph_two _ _ Hp). pose proof (ph_size _ _ Hp).
  destruct (empty_written t (a_config A) empty_meta) as (t1 & t' & H1 & _ & H2 & Hp'); [apply Hp|apply Hp|apply Hp|page_lia| |].
  2: { unfold bp_clear. rewrite H1. cbn [and_then]. by exists t'. }
  intros buf Hl Hb. destruct (ph_meta _ _ Hp) as (meta & Hm & Hok). rewrite Hb in Hm. injection Hm as <-.
  destruct (empty_meta_ok buf Hl (mo_magic _ _ _ Hok)) as (m' & Hm' & Hlm & Hok'). by exists m'.
Qed.
Lemma create_ok config : ∃ t, create_step config [] = (t, Ok tt) ∧ phys t (empty_abs config).
Proof.
  unfold create_step, sys, set_len, map_file, sys. cbn [bp_os and_then set_file set_map bp_file bp_config bp_stats]. set (n := Nat.max (initial_capacity_pages config) 2).
  set (t0 := set_map _ _).
  edestruct (empty_written t0 config (λ meta, meta <-? put 4 meta 0 MAGIC ;; empty_meta meta)) as (t1 & t' & -> & Hst & He & Hp); [done|done|done| | |].
  - unfold t0. cbn [bp_file set_map set_file]. rewrite resize_length. unfold n. page_lia.
  - intros buf Hl _. destruct (put_bytes_spec buf 0 (to_le_bytes 4 MAGIC)) as (b & Hb & S & G); [rewrite le_length; page_lia|]. unfold put. rewrite Hb. cbn [rbind].
    rewrite le_length in G. destruct (empty_meta_ok b) as (m' & Hm' & Hlm & Hok'); [by rewrite (so_length _ _ _ _ S)|done|]. by exists m'.
  - exists t'. cbn [and_then]. split; [|done]. rewrite <- He. f_equal. destruct t1. simpl in Hst. by subst.
Qed.

(** ** Opening again *)
Definition with_config config A : Abs := mkAbs (a_root A) (a_right A) (a_free A) (a_pages A) (a_count A) config (a_cells A).
Lemma tree_in_config config A T : tree_in A T → tree_in (with_config config A) T.
Proof. intros []. by constructor. Qed.
Lemma le_reread n z : to_le_bytes n (from_le_bytes (to_le_bytes n z)) = to_le_bytes n z.
Proof.
  pose proof (to_from_digits 256 ltac:(lia) (to_le_bytes n z) (to_digits_valid 256 ltac:(lia) n z)) as E. by rewrite le_length in E.
Qed.
Lemma open_ok t A config : phys t A → ∃ t', bp_open (bp_file t) config [] = Ok t' ∧ phys t' (with_config config A) ∧ bp_file t' = bp_file t.
Proof.
  intros Hp. unfold bp_open, sys, map_file, sys. cbn [bp_os and_then set_map bp_file bp_config bp_stats]. set (t1 := set_map _ _).
  assert (mapped t1 = bp_file t) as Hm1 by (unfold mapped; apply firstn_all). pose proof (phys_mapped _ _ Hp) as Hm.
  assert (∀ p, page_bytes t1 p = page_bytes t p) as Hpb by (intros p; unfold page_bytes; by rewrite Hm1, Hm).
  destruct (ph_meta _ _ Hp) as (meta & Hmp & Hok). pose proof (page_length _ _ _ Hmp) as Hl. pose proof (ph_size _ _ Hp) as Hsz. pose proof (ph_two _ _ Hp).
  destruct (ph_entries _ _ Hp) as (He & Hcb & Hpg).
  assert (get 4 (mapped t1) 0 = Ok MAGIC) as ->.
  { apply get_of_bytes; [|done]. rewrite Hm1. pose proof (mo_magic _ _ _ Hok) as Hg. unfold page_bytes in Hmp. rewrite Hm in Hmp.
    rewrite get_bytes_ok in Hmp by (unfold page_offset, META_PAGE; page_lia). injection Hmp as <-. unfold page_offset, META_PAGE in Hg. rewrite Nat.mul_0_l, drop_0 in Hg.
    rewrite get_bytes_ok in Hg by (rewrite length_take; page_lia). rewrite drop_0, take_take, Nat.min_l in Hg by page_lia.
    rewrite get_bytes_ok by page_lia. by rewrite drop_0. }
  cbn [reading]. rewrite Z.eqb_refl. unfold refresh_stats_from_meta. rewrite Hpb, Hmp. cbn [reading].
  rewrite (get_of_bytes 8 meta META_ENTRIES _ (mo_entries _ _ _ Hok)) by (rewrite He; exact Hcb). cbn [reading].
  rewrite (field64 _ _ _ (mo_pages _ _ _ Hok) (ph_bound _ _ Hp)). cbn [reading].
  unfold get. rewrite (mo_leaves _ _ _ Hok), (mo_bytes _ _ _ Hok), (mo_nfree _ _ _ Hok). cbn [rbind reading opened].
  eexists. split; [done|]. split; [|done]. constructor; cbn [bp_stats bp_file bp_map bp_os bp_config set_stats a_config a_pages a_count a_root a_right a_cells with_config]; try apply Hp; try done.
  - exists meta. split; [by rewrite <- Hmp, <- (Hpb META_PAGE)|]. destruct Hok. constructor; cbn [st_entries st_pages st_free_pages st_leaf_pages st_leaf_entry_bytes with_config a_root a_right a_free a_pages]; rewrite ?le_reread; done.
  - intros p c Hc. destruct (ph_cells _ _ Hp p c Hc) as [H1 (b & Hb & Hat)]. split; [done|]. exists b. split; [|done]. by rewrite <- Hb, <- (Hpb p).
Qed.
