(* ===== verification/BPlusTyped.v ===== *)
(** * Typed reads of a tree

    [serves t l]: the file of [t] holds a tree whose entries are the encodings
    of [l], in the order of the encoded keys.  Every read of [BPlus.v] is the
    read of that list. *)
From stdpp Require Import base numbers option sorting gmap list.
From S2P Require Import Prelude Bytes BinarySearch Order BTreeMap Mmap Backend Serdes KeyDirLog BPlusPages BPlusNodes BPlus BPlusCells BPlusStore BPlusLeaf BPlusShape BPlusTree BPlusReads.
Import Pages Nodes BPlus.

Fixpoint take_while {A} (f : A → bool) (l : list A) : list A := match l with [] => [] | a :: l => if f a then a :: take_while f l else [] end.
Lemma take_while_all {A} (f : A → bool) l : Forall (λ a, f a = true) l → take_while f l = l.
Proof. induction 1 as [|a l Ha _ IH]; simpl; [done|]. by rewrite Ha, IH. Qed.

Section Typed.
Context {K V : Type} `{TotalCmp K} `{CK : Codec K} `{CV : Codec V} `{!LawfulCodec K, !LawfulCodec V}.
Implicit Types (t : BPlusTree) (k : K) (v : V) (q : K * V) (l : list (K * V)) (c : Cursor) (s eb : list Z).

Definition pair_bytes q : list Z * list Z := (encoded q.1, encoded q.2).
Definition all_accepted l : Prop := Forall (λ q, accepts q.1 q.2 = true) l.
(** The list as a map from encoded keys. *)
Definition by_bytes l : btree (list Z) V := map (λ q, (encoded q.1, q.2)) l.
Definition serves t l : Prop := ∃ A T, phys t A ∧ tree_in A T ∧ stored T = map pair_bytes l ∧ all_accepted l.
Lemma accepts_parts k v : accepts k v = true → encodable k = true ∧ encodable v = true.
Proof. apply andb_true_iff. Qed.
Lemma expect_encoded {B} `{LawfulCodec B} (b : B) : encodable b = true → expect_decode (encoded b) = Ok b.
Proof using Type. intros He. unfold expect_decode. by rewrite (encodable_decode b He). Qed.
Lemma by_bytes_wf l : bt_wf (by_bytes l) ↔ bt_wf (map pair_bytes l).
Proof using Type.
  rewrite <- (values_wf encoded (by_bytes l)). unfold on_values, by_bytes. by rewrite map_map.
Qed.
Lemma by_bytes_get s l : bt_get s (map pair_bytes l) = encoded <$> bt_get s (by_bytes l).
Proof using Type.
  rewrite <- values_get. unfold on_values, by_bytes. by rewrite map_map.
Qed.
Lemma get_accepted s l v : all_accepted l → bt_get s (by_bytes l) = Some v → encodable v = true.
Proof using Type.
  induction 1 as [|[k w] l Hq _ IH]; simpl; [done|]. destruct (cmp s (encoded k)); [|done|exact IH].
  intros [= ->]. by apply (accepts_parts k).
Qed.

(** ** Lookups *)
Lemma bp_get_ok t l k : serves t l → bp_get t k = Ok (if encodable k then bt_get (encoded k) (by_bytes l) else None).
Proof.
  intros (A & T & Hp & Ht & Hs & HF). unfold bp_get. rewrite (encodable_vec k). destruct (encodable k); [|done].
  rewrite (value_for_ok t A T _ Hp Ht), Hs, by_bytes_get. cbn [rbind]. destruct (bt_get (encoded k) (by_bytes l)) as [v|] eqn:E; simpl; [|done].
  rewrite expect_encoded; [done|by eapply get_accepted].
Qed.
Lemma bp_contains_ok t l k : serves t l → bp_contains t k = Ok (if encodable k then bt_contains (encoded k) (by_bytes l) else false).
Proof.
  intros (A & T & Hp & Ht & Hs & HF). unfold bp_contains. rewrite (encodable_vec k). destruct (encodable k); [|done].
  rewrite (value_for_ok t A T _ Hp Ht), Hs, by_bytes_get. simpl. unfold bt_contains. by destruct (bt_get (encoded k) (by_bytes l)).
Qed.
Lemma bp_size_ok t l : serves t l → bp_size t = Z.of_nat (length l).
Proof using Type.
  intros (A & T & Hp & Ht & Hs & HF). unfold bp_size. destruct (ph_entries _ _ Hp) as (-> & _). rewrite (ti_count _ _ Ht). f_equal.
  rewrite <- (length_map pair_bytes l), <- Hs. unfold stored, on_values. by rewrite length_map.
Qed.

(** ** Walks *)
Section Walk.
Context t A (Hp : phys t A).
Lemma typed_entry_ok back c q : accepts q.1 q.2 = true → reads_as t back c (pair_bytes q) → typed_entry t (c_page c) (slot_in back c) = Ok q.
Proof using Type*.
  intros [Hk Hv]%accepts_parts [H1 H2]. unfold typed_entry. rewrite H1. cbn [rbind]. simpl. rewrite expect_encoded by done. cbn [rbind].
  rewrite H2. cbn [rbind]. simpl. rewrite expect_encoded by done. by destruct q.
Qed.
Lemma raw_collect_ok {B} (f : nat → nat → io B) : ∀ cs fuel c L, resume c L = cs → at_link false A c L → length L < fuel_of t → length cs < fuel →
  raw_collect fuel t c f = each (λ c, f (c_page c) (c_slot c)) cs.
Proof using Hp.
  induction cs as [|c' cs IH]; intros fuel c L Hr Hat HL Hf; (destruct fuel as [|fuel]; [simpl in Hf; lia|]); cbn [raw_collect];
    pose proof (cursor_next_ok t A false Hp L (fuel_of t) c HL Hat) as Hn; rewrite Hr in Hn.
  - unfold link_of in Hn. by rewrite Hn.
  - destruct Hn as (Hn & L' & Hat' & Hr' & HL'). unfold link_of in Hn. rewrite Hn. cbn [rbind each]. rewrite (IH fuel (past c') L'); [done|done|done|lia|simpl in Hf; lia].
Qed.
Lemma range_collect_ok eb : ∀ l fuel c L, Forall2 (reads_as t false) (resume c L) (map pair_bytes l) → all_accepted l → at_link false A c L →
  length L < fuel_of t → length l < fuel → range_collect fuel t c eb = Ok (take_while (λ q, ltb (encoded q.1) eb) l).
Proof using Type*.
  induction l as [|q l IH]; intros fuel c L Hr Ha Hat HL Hf; (destruct fuel as [|fuel]; [simpl in Hf; lia|]); cbn [range_collect];
    pose proof (cursor_next_ok t A false Hp L (fuel_of t) c HL Hat) as Hn; unfold link_of in Hn; simpl in Hr.
  - inversion Hr as [E|]. rewrite <- E in Hn. by rewrite Hn.
  - inversion Hr as [|c' ? rest ? Hq Hrest E1 E2]; subst. rewrite <- E1 in Hn. destruct Hn as (-> & L' & Hat' & Hr' & HL'). cbn [rbind].
    apply Forall_cons in Ha as [Haq Ha]. pose proof (typed_entry_ok false c' q Haq Hq) as Hte. destruct Hq as [Hk _]. unfold slot_in in Hk, Hte. rewrite Hk. cbn [rbind].
    cbn [take_while]. change (pair_bytes q).1 with (encoded q.1). destruct (ltb (encoded q.1) eb); [|done]. cbn [negb]. rewrite Hte. cbn [rbind].
    rewrite (IH fuel (past c') L'); [done|by rewrite Hr'|done|done|lia|simpl in Hf; lia].
Qed.
Definition from_start (start : option (list Z)) q : bool := match start with Some s => negb (ltb (encoded q.1) s) | None => true end.
Lemma rev_collect_ok start : ∀ l fuel c L, Forall2 (reads_as t true) (resume c L) (map pair_bytes l) → all_accepted l → at_link true A c L →
  length L < fuel_of t → length l < fuel → rev_collect fuel t c start = Ok (take_while (from_start start) l).
Proof using Type*.
  induction l as [|q l IH]; intros fuel c L Hr Ha Hat HL Hf; (destruct fuel as [|fuel]; [simpl in Hf; lia|]); cbn [rev_collect];
    pose proof (cursor_next_ok t A true Hp L (fuel_of t) c HL Hat) as Hn; unfold link_of in Hn; simpl in Hr.
  - inversion Hr as [E|]. rewrite <- E in Hn. by rewrite Hn.
  - inversion Hr as [|c' ? rest ? Hq Hrest E1 E2]; subst. rewrite <- E1 in Hn. destruct Hn as (-> & L' & Hat' & Hr' & HL'). cbn [rbind].
    apply Forall_cons in Ha as [Haq Ha]. pose proof (typed_entry_ok true c' q Haq Hq) as Hte. destruct Hq as [Hk _]. unfold slot_in in Hk, Hte. rewrite Hk. cbn [rbind].
    cbn [take_while]. change (pair_bytes q).1 with (encoded q.1). unfold from_start at 1.
    destruct start as [s|]; [destruct (ltb (encoded q.1) s); [done|]|]; cbn [negb]; rewrite Hte; cbn [rbind];
      (rewrite (IH fuel (past c') L'); [done|by rewrite Hr'|done|done|lia|simpl in Hf; lia]).
Qed.
Lemma each_reads {B} back (f : Cursor → io B) (g : K * V → B) cs l : Forall2 (reads_as t back) cs (map pair_bytes l) → all_accepted l →
  (∀ c q, accepts q.1 q.2 = true → reads_as t back c (pair_bytes q) → f c = Ok (g q)) → each f cs = Ok (map g l).
Proof using Type.
  intros HF Ha Hf. revert cs HF. induction Ha as [|q l Hq _ IH]; intros cs HF; simpl in HF; inversion HF; subst; [done|]. cbn [each map].
  rewrite (Hf _ q); [|done|done]. cbn [rbind]. by rewrite IH.
Qed.
End Walk.

(** ** Iteration *)
Lemma along_ok t A T {B} (f : nat → nat → io B) : phys t A → tree_in A T → along t f = each (λ c, f (c_page c) (c_slot c)) (runs (flat [] T)).
Proof using Type.
  intros Hp Ht. destruct (walk_fuel t A T Hp Ht) as [H1 H2]. unfold along. rewrite (first_leaf_ok t A T Hp Ht). cbn [rbind].
  destruct (enter_ok t A false (flat [] T) Hp) as (c & -> & Hat & Hr); [eapply chain_linked; apply Ht|]. cbn [rbind].
  apply (raw_collect_ok t A Hp f _ _ c (tail (flat [] T))); [done|done| |by rewrite runs_length]. destruct (flat [] T); simpl in *; lia.
Qed.
Lemma forward_reads t A T l : phys t A → tree_in A T → stored T = map pair_bytes l → Forall2 (reads_as t false) (runs (flat [] T)) (map pair_bytes l).
Proof using Type.
  intros Hp Ht <-. unfold stored. rewrite <- walked_forward. apply (runs_read t A); [done| |apply Ht]. eapply chain_linked. apply Ht.
Qed.
Lemma iterate_ok t l : serves t l → bp_keys t = Ok (map fst l) ∧ bp_values t = Ok (map snd l) ∧ bp_entries t = Ok l.
Proof.
  intros (A & T & Hp & Ht & Hs & HF). pose proof (forward_reads t A T l Hp Ht Hs) as Hr. unfold bp_keys, bp_values, bp_entries. rewrite !(along_ok t A T) by done.
  split; [|split].
  - apply (each_reads t false _ fst _ _ Hr HF). intros c q [Hk Hv]%accepts_parts [H1 H2]. unfold slot_in in H1. rewrite H1. cbn [rbind]. simpl. by rewrite expect_encoded.
  - apply (each_reads t false _ snd _ _ Hr HF). intros c q [Hk Hv]%accepts_parts [H1 H2]. unfold slot_in in H1, H2. unfold raw_entry. rewrite H1, H2. cbn [rbind]. simpl. by rewrite expect_encoded.
  - rewrite <- (map_id l) at 1. apply (each_reads t false _ id _ _ Hr HF). intros c q Ha Hq. by apply (typed_entry_ok t A Hp false c q).
Qed.
Lemma accepted_rev l : all_accepted l → all_accepted (rev l).
Proof using Type. unfold all_accepted. rewrite !Forall_forall. intros HF q Hq. apply HF. apply list_elem_of_In in Hq. apply list_elem_of_In. by apply in_rev. Qed.
Lemma entries_rev_ok t l : serves t l → bp_entries_rev t = Ok (rev l).
Proof.
  intros Hsv. pose proof (bp_size_ok t l Hsv) as Hsz. destruct Hsv as (A & T & Hp & Ht & Hs & HF). destruct (walk_fuel t A T Hp Ht) as [H1 H2].
  assert (length (contents (flat [] T)) = length l) as Hlen.
  { rewrite <- (length_map pair_bytes l), <- Hs. unfold stored, on_values. by rewrite length_map. }
  unfold bp_entries_rev. rewrite Hsz. destruct l as [|q l'] eqn:El.
  - change (Z.of_nat (length [])) with 0%Z. cbn [Z.eqb rbind]. unfold enter. cbn [Nat.eqb rbind].
    rewrite (rev_collect_ok t A Hp None [] _ _ []); [done|constructor|constructor|by left|simpl; lia|simpl; lia].
  - destruct (Z.eqb_spec (Z.of_nat (length (q :: l'))) 0) as [E|_]; [simpl in E; lia|]. rewrite <- El in *.
    destruct (meta_page_ok _ _ Hp) as (_ & -> & _). cbn [rbind]. rewrite (ti_right _ _ Ht), <- first_page_rev.
    pose proof (chain_linked_back _ _ _ (ti_chain _ _ Ht)) as Hlk. destruct (enter_ok t A true _ Hp Hlk) as (c & -> & Hat & Hr). cbn [rbind].
    rewrite (rev_collect_ok t A Hp None (rev l) _ c (tail (rev (flat [] T)))).
    + f_equal. apply take_while_all. by apply Forall_forall.
    + rewrite Hr, map_rev, <- Hs. unfold stored. rewrite <- walked_back. apply (runs_read t A); [done|done|].
      pose proof (ti_values _ _ Ht) as HV. rewrite Forall_forall in HV |- *. intros e (x & Hx & He)%elem_contents. apply HV, elem_contents. exists x.
      split; [|done]. apply list_elem_of_In in Hx. apply list_elem_of_In. by apply in_rev.
    + by apply accepted_rev.
    + done.
    + assert (length (rev (flat [] T)) < fuel_of t) as Hl by (by rewrite length_rev). destruct (rev (flat [] T)); simpl in *; lia.
    + rewrite length_rev. lia.
Qed.

(** ** The first and the last entry *)
Definition empty_leaf (x : fenced) : bool := (length x.2.2 =? 0)%nat.
Lemma nonempty_leaf_ok t A back L : phys t A → linked back (a_cells A) L → ∀ fuel, length L ≤ fuel →
  nonempty_leaf fuel (link_of back) t (first_page L 0) = Ok ((λ x : fenced, x.2.1) <$> head (List.filter (λ x, negb (empty_leaf x)) L)).
Proof using Type.
  intros Hp. induction L as [|[f [p es]] L IH]; intros Hl fuel Hf; [by destruct fuel|]. destruct Hl as [(nx & pr & Hc & Hn) Hl].
  destruct fuel as [|fuel]; simpl in Hf; [lia|]. cbn [first_page nonempty_leaf fst snd]. pose proof (ph_cells _ _ Hp _ _ Hc) as [Hpos _].
  destruct (Nat.eqb_spec p 0) as [->|_]; [lia|]. destruct (leaf_page_at _ _ _ _ _ _ Hp Hc) as (buf & Hb & Hleaf & _).
  destruct (link_read _ _ _ _ _ _ back Hp Hc) as (buf' & Hb' & Hg). rewrite Hb in Hb'. injection Hb' as <-.
  rewrite Hb. cbn [rbind]. rewrite (leaf_count _ _ _ _ Hleaf). cbn [rbind List.filter]. unfold empty_leaf at 1. cbn [fst snd].
  destruct (length es =? 0)%nat; cbn [negb]; [|done]. rewrite Hg. cbn [rbind]. rewrite Hn. apply IH; [done|lia].
Qed.
Lemma linked_elem back cells L x : linked back cells L → x ∈ L → ∃ nx pr, cells !! x.2.1 = Some (CLeaf nx pr x.2.2).
Proof using Type.
  induction L as [|[f [p es]] L IH]; [by intros _ ?%not_elem_of_nil|]. intros [(nx & pr & Hc & _) Hl] [->|Hx]%elem_of_cons; [by exists nx, pr|by apply IH].
Qed.
(** The first leaf that is not empty begins with the first entry. *)
Lemma first_entry L : head (contents L) = match head (List.filter (λ x, negb (empty_leaf x)) L) with Some x => head x.2.2 | None => None end.
Proof using Type.
  unfold contents. induction L as [|[f [p es]] L IH]; simpl; [done|]. unfold empty_leaf at 1. simpl. by destruct es.
Qed.
Lemma last_entry_of L : last (contents L) = match head (List.filter (λ x, negb (empty_leaf x)) (rev L)) with Some x => last x.2.2 | None => None end.
Proof using Type.
  induction L as [|x L IH] using rev_ind; [done|]. rewrite entries_app, last_app, rev_app_distr. unfold contents at 1. simpl. rewrite app_nil_r.
  destruct x as [f [p es]]. unfold empty_leaf at 1. cbn [fst snd]. destruct es as [|e es]; [exact IH|]. cbn [length Nat.eqb negb rev app List.filter head].
  destruct (last (e :: es)) as [y|] eqn:E; [by cbn [List.filter negb fst snd head]; rewrite ?E|]. by apply last_None in E.
Qed.
Lemma head_filter_elem {B} (f : B → bool) (L : list B) x : head (List.filter f L) = Some x → x ∈ L ∧ f x = true.
Proof using Type.
  induction L as [|y L IH]; simpl; [done|]. destruct (f y) eqn:E; simpl; [intros [= ->]; split; [left|done]|]. intros Hx. destruct (IH Hx). split; [by right|done].
Qed.
Lemma end_entry t A T l x i e : phys t A → tree_in A T → stored T = map pair_bytes l → x ∈ flat [] T → x.2.2 !! i = Some e → ∀ q, pair_bytes q = (e.1, stored_value e.2) →
  accepts q.1 q.2 = true → typed_entry t x.2.1 i = Ok q.
Proof.
  intros Hp Ht Hs Hx Hi q Hq Ha. destruct (chain_elem _ _ _ _ _ (ti_chain _ _ Ht) Hx) as (nx & pr & Hc).
  apply (typed_entry_ok t A Hp false (mkCursor x.2.1 i 0) q Ha). rewrite Hq. split; [by apply (key_at_ok t A _ nx pr x.2.2)|].
  apply (value_at_ok t A _ nx pr x.2.2 Hp Hc i e Hi). pose proof (ti_values _ _ Ht) as HF. rewrite Forall_forall in HF. apply HF, elem_contents.
  exists x. split; [done|]. by eapply list_elem_of_lookup_2.
Qed.
Lemma stored_ends T l : stored T = map pair_bytes l →
  ((λ e, (e.1, stored_value e.2)) <$> head (contents (flat [] T)) = pair_bytes <$> head l) ∧
  ((λ e, (e.1, stored_value e.2)) <$> last (contents (flat [] T)) = pair_bytes <$> last l).
Proof using Type.
  unfold stored, on_values. intros Hs. split.
  - destruct (contents (flat [] T)) as [|e C], l as [|q l]; simpl in *; congruence.
  - rewrite <- fmap_last, <- (fmap_last pair_bytes). change (pair_bytes <$> l) with (map pair_bytes l). by rewrite <- Hs.
Qed.
Lemma first_ok t l : serves t l → bp_first t = Ok (head l).
Proof.
  intros Hsv. pose proof (bp_size_ok t l Hsv) as Hsz. destruct Hsv as (A & T & Hp & Ht & Hs & HF). destruct (walk_fuel t A T Hp Ht) as [H1 H2].
  unfold bp_first. rewrite Hsz. destruct l as [|q l]; [done|]. destruct (Z.eqb_spec (Z.of_nat (length (q :: l))) 0) as [E|_]; [simpl in E; lia|].
  unfold leftmost_nonempty_leaf. rewrite (first_leaf_ok t A T Hp Ht). cbn [rbind].
  pose proof (nonempty_leaf_ok t A false _ Hp (chain_linked _ _ _ (ti_chain _ _ Ht)) (fuel_of t) ltac:(lia)) as Hne. unfold link_of in Hne. rewrite Hne. cbn [rbind].
  destruct (stored_ends T _ Hs) as [Hhd _]. rewrite first_entry in Hhd. destruct (head (List.filter _ _)) as [x|] eqn:Ex; [|done]. cbn [fmap option_fmap option_map].
  apply head_filter_elem in Ex as [Hx _]. destruct x.2.2 as [|e es] eqn:Ees; [done|]. simpl in Hhd. injection Hhd as Hq.
  apply Forall_cons in HF as [Hq' _]. rewrite (end_entry t A T _ x 0 e Hp Ht Hs Hx) with (q := q); [done|by rewrite Ees|unfold pair_bytes; congruence|done].
Qed.
Lemma last_ok t l : serves t l → bp_last t = Ok (last l).
Proof.
  intros Hsv. pose proof (bp_size_ok t l Hsv) as Hsz. destruct Hsv as (A & T & Hp & Ht & Hs & HF). destruct (walk_fuel t A T Hp Ht) as [H1 H2].
  unfold bp_last. rewrite Hsz. destruct l as [|q0 l0] eqn:El; [done|]. destruct (Z.eqb_spec (Z.of_nat (length (q0 :: l0))) 0) as [E|_]; [simpl in E; lia|].
  rewrite <- El in *. unfold rightmost_nonempty_leaf. destruct (meta_page_ok _ _ Hp) as (_ & -> & _). cbn [rbind]. rewrite (ti_right _ _ Ht), <- first_page_rev.
  pose proof (nonempty_leaf_ok t A true _ Hp (chain_linked_back _ _ _ (ti_chain _ _ Ht)) (fuel_of t) ltac:(rewrite length_rev; lia)) as Hne. unfold link_of in Hne. rewrite Hne. cbn [rbind].
  destruct (stored_ends T _ Hs) as [_ Hls]. rewrite last_entry_of in Hls.
  destruct (last l) as [q|] eqn:Eq; [|apply last_None in Eq; congruence]. destruct (head (List.filter _ _)) as [x|] eqn:Ex; [|done]. cbn [fmap option_fmap option_map].
  apply head_filter_elem in Ex as [Hx _]. assert (x ∈ flat [] T) as Hx' by (apply list_elem_of_In in Hx; apply list_elem_of_In; by apply in_rev).
  destruct (chain_elem _ _ _ _ _ (ti_chain _ _ Ht) Hx') as (nx & pr & Hc). destruct (leaf_page_at _ _ _ _ _ _ Hp Hc) as (buf & -> & Hleaf & _). cbn [rbind].
  rewrite (leaf_count _ _ _ _ Hleaf). cbn [rbind]. destruct (last x.2.2) as [e|] eqn:Ee; [|done]. simpl in Hls. injection Hls as Hq.
  assert (0 < length x.2.2) as Hpos by (destruct x.2.2; [done|simpl; lia]). unfold checked_sub. destruct (Nat.ltb_spec (length x.2.2) 1) as [|_]; [lia|]. cbn [rbind].
  rewrite last_lookup in Ee. replace (pred (length x.2.2)) with (length x.2.2 - 1) in Ee by lia.
  rewrite (end_entry t A T _ x _ e Hp Ht Hs Hx' Ee) with (q := q); [done|unfold pair_bytes; congruence|].
  unfold all_accepted in HF. rewrite Forall_forall in HF. apply HF. apply last_Some in Eq as (l' & ->). apply elem_of_app. right. left.
Qed.

(** ** Ranges *)
Definition between s eb q : bool := leb s (encoded q.1) && ltb (encoded q.1) eb.
Lemma leb_upto s eb : leb s eb = true ↔ upto s eb.
Proof using Type. rewrite <- upto_ltb. unfold leb, ltb. destruct (cmpP s eb) as [->|E1 E2|E1 E2]; rewrite ?cmp_refl, ?E2; done. Qed.
Lemma leb_negb s eb : leb s eb = negb (ltb eb s).
Proof using Type. pose proof (leb_upto s eb) as H1. pose proof (upto_ltb s eb) as H2. destruct (leb s eb), (ltb eb s); simpl; naive_solver. Qed.
Lemma filter_none {B} (f : B → bool) L : Forall (λ b, f b = false) L → List.filter f L = [].
Proof using Type. induction 1 as [|b L Hb _ IH]; simpl; [done|]. by rewrite Hb. Qed.
Lemma filter_ext_forall {B} (f g : B → bool) L : Forall (λ b, f b = g b) L → List.filter f L = List.filter g L.
Proof using Type. induction 1 as [|b L Hb _ IH]; simpl; [done|]. by rewrite Hb, IH. Qed.
Lemma take_while_below eb l : bt_wf (map pair_bytes l) → take_while (λ q, ltb (encoded q.1) eb) l = List.filter (λ q, ltb (encoded q.1) eb) l.
Proof using Type.
  induction l as [|q l IH]; [done|]. intros [HF Hw]. simpl. destruct (ltb (encoded q.1) eb) eqn:E; [by rewrite IH|]. symmetry. apply filter_none.
  apply Forall_map in HF. eapply Forall_impl; [exact HF|]. intros q' Hq. simpl in Hq. apply upto_ltb. apply upto_ltb in E. eapply upto_trans; [exact E|]. by apply lt_upto.
Qed.
Lemma take_while_from s l : bt_wf (map pair_bytes l) → take_while (from_start (Some s)) (rev l) = rev (List.filter (λ q, leb s (encoded q.1)) l).
Proof using Type.
  induction l as [|q l IH] using rev_ind; [done|]. rewrite map_app. intros (Hw & _ & HX)%wf_app. rewrite rev_app_distr, List.filter_app, rev_app_distr.
  cbn [rev app take_while List.filter]. unfold from_start at 1. rewrite <- leb_negb. destruct (leb s (encoded q.1)) eqn:E; cbn [rev app]; [by rewrite IH|].
  rewrite filter_none; [done|]. apply Forall_forall. intros q' Hq'. destruct (leb s (encoded q'.1)) eqn:E'; [|done]. exfalso.
  apply leb_upto in E'. assert (leb s (encoded q.1) = true); [|congruence]. apply leb_upto. eapply upto_trans; [exact E'|]. apply lt_upto.
  apply (HX (pair_bytes q') (pair_bytes q)); [|left]. apply list_elem_of_fmap. by exists q'.
Qed.
(** A sought key splits the list. *)
Lemma sought_list A T s C p es X Y l : sought A T s C p es X Y → stored T = map pair_bytes l → ∃ l1 l2, l = l1 ++ l2 ∧
  map pair_bytes l1 = on_values stored_value (contents (left_of [] C) ++ X) ∧ map pair_bytes l2 = on_values stored_value (Y ++ contents (right_of C)) ∧
  Forall (λ q, ltb (encoded q.1) s = true) l1 ∧ Forall (λ q, leb s (encoded q.1) = true) l2.
Proof using Type.
  intros Hs. unfold stored. rewrite (sought_contents _ _ _ _ _ _ _ _ Hs), on_values_app. intros Hl. symmetry in Hl.
  apply map_eq_app in Hl as (l1 & l2 & -> & H1 & H2). exists l1, l2. split_and!; try done.
  - pose proof (so_below _ _ _ _ _ _ _ _ Hs) as Hb. apply Forall_forall. intros q Hq. apply ltb_lt.
    assert (pair_bytes q ∈ map pair_bytes l1) as Hq' by (apply list_elem_of_fmap; by exists q). rewrite H1 in Hq'.
    apply list_elem_of_fmap in Hq' as (e & Hqe & He). unfold under in Hb. rewrite Forall_forall in Hb. specialize (Hb e He). unfold pair_bytes in Hqe.
    by injection Hqe as -> _.
  - pose proof (so_above _ _ _ _ _ _ _ _ Hs) as Hb. apply Forall_forall. intros q Hq. apply leb_upto.
    assert (pair_bytes q ∈ map pair_bytes l2) as Hq' by (apply list_elem_of_fmap; by exists q). rewrite H2 in Hq'.
    apply list_elem_of_fmap in Hq' as (e & Hqe & He). rewrite Forall_forall in Hb. specialize (Hb e He). unfold pair_bytes in Hqe.
    by injection Hqe as -> _.
Qed.
Definition range_of (a b : K) l : list (K * V) := if encodable a && encodable b then List.filter (between (encoded a) (encoded b)) l else [].
Lemma range_ok t l a b : serves t l → bp_range t a b = Ok (range_of a b l).
Proof.
  intros (A & T & Hp & Ht & Hs & HF). unfold bp_range, range_of. rewrite (encodable_vec a), (encodable_vec b).
  destruct (encodable a); [|done]. destruct (encodable b); [|done]. cbn [andb].
  destruct (seek_ok t A T (encoded a) Hp Ht) as (C & p & es & X & Y & Hk & ->). cbn [rbind].
  destruct (sought_list _ _ _ _ _ _ _ _ _ Hk Hs) as (l1 & l2 & -> & E1 & E2 & F1 & F2). apply Forall_app in HF as [_ HF].
  destruct (sought_forward t A T _ _ _ _ _ _ Hp Ht Hk) as [Hat Hr]. rewrite <- E2 in Hr. destruct (sought_length t A T _ _ _ _ _ _ Hp Ht Hk) as (_ & HL & _ & Hf).
  assert (length l2 < fuel_of t) as Hl2. { rewrite <- (length_map pair_bytes l2), E2. unfold on_values. by rewrite length_map. }
  rewrite (range_collect_ok t A Hp (encoded b) l2 _ _ _ Hr HF Hat HL Hl2). f_equal.
  pose proof (stored_wf _ _ Ht) as Hw. rewrite Hs, map_app in Hw. apply wf_app in Hw as (_ & Hw & _).
  rewrite take_while_below by done. rewrite List.filter_app, (filter_none _ l1), (filter_ext_forall (between _ _) (λ q, ltb (encoded q.1) (encoded b)) l2); [done| |].
  - eapply Forall_impl; [exact F2|]. intros q Hq. unfold between. simpl in Hq. by rewrite Hq.
  - eapply Forall_impl; [exact F1|]. intros q Hq. unfold between. simpl in Hq. by rewrite leb_negb, Hq.
Qed.
Lemma range_rev_ok t l a b : serves t l → bp_range_rev t a b = Ok (rev (range_of a b l)).
Proof.
  intros (A & T & Hp & Ht & Hs & HF). unfold bp_range_rev, range_of. rewrite (encodable_vec a), (encodable_vec b).
  destruct (encodable a); [|done]. destruct (encodable b); [|done]. cbn [andb].
  destruct (seek_ok t A T (encoded b) Hp Ht) as (C & p & es & X & Y & Hk & ->). cbn [rbind].
  destruct (sought_list _ _ _ _ _ _ _ _ _ Hk Hs) as (l1 & l2 & -> & E1 & E2 & F1 & F2). apply Forall_app in HF as [HF _].
  destruct (sought_backward t A T _ _ _ _ _ _ Hp Ht Hk) as (c & -> & Hat & Hr). cbn [rbind]. rewrite <- E1, <- map_rev in Hr.
  destruct (sought_length t A T _ _ _ _ _ _ Hp Ht Hk) as (HL & _ & Hf & _).
  assert (length l1 < fuel_of t) as Hl1. { rewrite <- (length_map pair_bytes l1), E1. unfold on_values. by rewrite length_map. }
  rewrite (rev_collect_ok t A Hp (Some (encoded a)) (rev l1) _ _ _ Hr (accepted_rev _ HF) Hat); [|destruct (length X =? 0)%nat; [|by rewrite length_rev]|by rewrite length_rev].
  - f_equal. pose proof (stored_wf _ _ Ht) as Hw. rewrite Hs, map_app in Hw. apply wf_app in Hw as (Hw & _).
    rewrite take_while_from by done. f_equal. rewrite List.filter_app, (filter_none _ l2), app_nil_r; [apply filter_ext_forall|].
    + eapply Forall_impl; [exact F1|]. intros q Hq. unfold between. simpl in Hq. by rewrite Hq, andb_true_r.
    + eapply Forall_impl; [exact F2|]. intros q Hq. unfold between. simpl in Hq. rewrite leb_negb in Hq. apply negb_true_iff in Hq. rewrite Hq. apply andb_false_r.
  - rewrite <- length_rev in HL. destruct (rev (left_of [] C)); simpl in *; lia.
Qed.
End Typed.
