(* ===== verification/BPlusCompact.v ===== *)
(** * Compaction, and loading into an empty tree

    Compaction builds a shadow tree from the entries in order and copies its
    pages over the file ([compact_same]); the file must have room for them
    ([shadow_fits]).  A bulk load into a tree that is one empty leaf builds the
    same way ([load_ok]). *)
From stdpp Require Import base numbers option gmap list.
From Stdlib Require Import SpecFloat.
From S2P Require Import Prelude Bytes BinarySearch Order BTreeMap Backend Serdes Mmap KeyDirLog BPlusPages BPlusNodes BPlus BPlusBytes BPlusSlots BPlusCells BPlusPageOps BPlusStore BPlusAlloc BPlusLeaf BPlusSplit BPlusPut BPlusShape BPlusTree BPlusEdit BPlusReads BPlusWrites BPlusBuild BPlusOpen BPlusTyped.
Import Pages Nodes BPlus.
Section Compact.
Implicit Types (t : BPlusTree) (A B : Abs) (p q n : nat) (k key v : list Z) (e : entry) (es : list entry) (T : tree) (l : list fenced) (b : BottomUpBuilder) (c : Cursor).
#[local] Abbreviation item := (list Z * list Z)%type.
Implicit Types (items : list item).

(** ** The entries of a tree, pushed *)
Lemma build_from_ok src A : phys src A → ∀ items fuel c l b t, Forall2 (reads_as src false) (resume c l) items → at_link false A c l → length l < fuel_of src → length items < fuel →
  build_from fuel src c b t = push_all items b t.
Proof.
  intros Hp. induction items as [|[k v] items IH]; intros fuel c l b t Hr Hat HL Hf; (destruct fuel as [|fuel]; [simpl in Hf; lia|]); cbn [build_from];
    pose proof (cursor_next_ok src A false Hp l (fuel_of src) c HL Hat) as Hn; unfold link_of in Hn; unfold raw_next.
  - inversion Hr as [E|]. rewrite <- E in Hn. rewrite Hn. done.
  - inversion Hr as [|c' ? rest ? [H1 H2] Hrest E1 E2]; subst. rewrite <- E1 in Hn. destruct Hn as (-> & l' & Hat' & Hr' & HL'). cbn [rbind].
    unfold slot_in in H1, H2. unfold raw_entry. rewrite H1. cbn [rbind]. rewrite H2. cbn [rbind reading fst snd push_all].
    destruct (builder_push k v b t) as [t1 [b1|e|]]; cbn [and_then]; [|done..]. apply (IH fuel (past c') l'); [by rewrite Hr'|done|lia|simpl in Hf; lia].
Qed.
Lemma tidy_items A T : tidy T → Forall item_ok (stored T).
Proof.
  intros Hd. unfold stored, on_values. apply Forall_map. eapply Forall_impl; [exact Hd|]. intros [k pl] [H1 H2 H3 H4]. simpl in *.
  split; [done|]. split; [|done]. unfold small_entry, entry_size. unfold entry_cost in H1. rewrite enc_entry_length in H1. simpl in *. lia.
Qed.
(** The pages a list of entries may need are bounded by those it is in. *)
Lemma chunks_limit v : (Z.of_nat (length v) < 2 ^ 31)%Z → (Z.of_nat (chunks v) ≤ 524288)%Z.
Proof. intros Hv. pose proof (chunks_bound v). pose proof page_size_Z. nia. Qed.
Lemma room_limit items : Forall item_ok items → (Z.of_nat (room_for items) ≤ Z.of_nat (length items) * 524289)%Z.
Proof.
  induction 1 as [|[k v] items [(_ & Hv & _) _] _ IH]; [done|]. rewrite room_cons. cbn [snd length] in *. pose proof (chunks_limit v Hv). lia.
Qed.
Definition few_pages t : Prop := (Z.of_nat (st_pages (bp_stats t)) < 2 ^ 31)%Z.
Lemma stored_length T : length (stored T) = length (contents (flat [] T)).
Proof. unfold stored, on_values. apply length_map. Qed.
Lemma rebuild_room t A T n : phys t A → tree_in A T → tidy T → few_pages t → n ≤ 4 → page_number (n + room_for (stored T) + 2 * (length (stored T) + 1)).
Proof.
  intros Hp Ht Hd Hf Hn. unfold few_pages in Hf. destruct (ph_entries _ _ Hp) as (_ & _ & Hpg). rewrite Hpg in Hf.
  pose proof (contents_bound t A _ Hp (tree_leaves _ _ Ht)) as Hb. rewrite <- stored_length in Hb. pose proof (room_limit _ (tidy_items A T Hd)) as Hr. pose proof page_size_Z.
  pose proof (tree_pages_count _ _ _ Hp Ht) as Hc. unfold tree_pages, pages_in in Hc. rewrite length_app, !length_map in Hc. unfold page_number.
  assert (Z.of_nat (length (stored T)) ≤ 2 ^ 31 * 4096)%Z by nia. change (2 ^ 64)%Z with 18446744073709551616%Z. change (2 ^ 31)%Z with 2147483648%Z in *. lia.
Qed.

(** ** The shadow *)
Lemma shadow_ok t A T : phys t A → tree_in A T → tidy T → few_pages t → ∃ shadow A' T',
  build_shadow t = (t, Ok shadow) ∧ phys shadow A' ∧ tree_in A' T' ∧ tidy T' ∧ stored T' = stored T.
Proof.
  intros Hp Ht Hd Hf. unfold build_shadow. rewrite (ph_os _ _ Hp). destruct (create_ok shadow_config) as (s0 & -> & Hp0). cbn [and_then].
  rewrite (first_leaf_ok t A T Hp Ht). cbn [reading]. pose proof (chain_linked _ _ _ (ti_chain _ _ Ht)) as Hlk.
  destruct (enter_ok t A false (flat [] T) Hp Hlk) as (c & -> & Hat & Hr). cbn [reading]. destruct (walk_fuel t A T Hp Ht) as [H1 H2]. unfold bottom_up_build_raw.
  rewrite (build_from_ok t A Hp (stored T) (fuel_of t) c (tail (flat [] T)) builder_new s0); [| |done|destruct (flat [] T); simpl in *; lia|by rewrite stored_length].
  - destruct (build_ok s0 (empty_abs shadow_config) (stored T) Hp0 (empty_tree _) (tidy_items A T Hd) (stored_wf _ _ Ht)) as (s1 & A1 & T1 & -> & Hp1 & Ht1 & Hd1 & Hs1 & _).
    { apply (rebuild_room t A T); [done..|simpl; lia]. }
    exists s1, A1, T1. rewrite (ph_os _ _ Hp1). split; [|done]. f_equal. unfold set_os. pose proof (ph_os _ _ Hp) as Ho. destruct t. simpl in *. by subst.
  - rewrite Hr. unfold stored. rewrite <- walked_forward. apply (runs_read t A); [done|done|apply Ht].
Qed.
(** A file whose first pages are those of another. *)
Lemma adopt_file s t A : phys s A → bp_map t = Mapped (length (bp_file t)) → bp_os t = [] → bp_stats t = bp_stats s → a_pages A * PAGE_SIZE ≤ length (bp_file t) →
  (∀ p, p < a_pages A → page_bytes t p = page_bytes s p) → phys t (with_config (bp_config t) A).
Proof.
  intros Hp Hm Ho Hst Hsz Hpg. pose proof (ph_two _ _ Hp). constructor; cbn [a_config a_pages a_count a_root a_right a_cells with_config]; rewrite ?Hst; try apply Hp; try done.
  - destruct (ph_meta _ _ Hp) as (meta & Hmp & Hok). exists meta. rewrite Hpg by (unfold META_PAGE; lia). split; [done|]. by destruct Hok.
  - intros p c Hc. destruct (ph_cells _ _ Hp p c Hc) as [Hr (b & Hb & Hat)]. split; [done|]. exists b. split; [|done]. by rewrite Hpg by lia.
Qed.
Lemma take_page n f p : (p + 1) * PAGE_SIZE ≤ n → n ≤ length f → get_bytes (take n f) (page_offset p) PAGE_SIZE = get_bytes f (page_offset p) PAGE_SIZE.
Proof.
  intros Hp Hn. unfold page_offset. rewrite !get_bytes_ok by (rewrite ?length_take; page_lia). f_equal. rewrite skipn_firstn_comm, take_take. f_equal. page_lia.
Qed.

(** ** Compaction *)
(** The shadow's pages fit the mapping they are copied to. *)
Definition shadow_fits t : bool :=
  match build_shadow t with (t', Ok shadow) => (st_pages (bp_stats shadow) * PAGE_SIZE <=? length (mapped t'))%nat | _ => false end.
Lemma resize_prefix n (bs r : list Z) : length bs ≤ n → take (length bs) (resize n (bs ++ r)) = bs.
Proof.
  intros Hn. unfold resize. rewrite take_app_le by (rewrite length_take, length_app; lia). rewrite take_take, Nat.min_l by done. apply take_app_length.
Qed.
(** The same tree contents in a file that works. *)
Record same_tree A T t' A' T' : Prop := {
  st_phys : phys t' A';
  st_tree : tree_in A' T';
  st_tidy : tidy T';
  st_stored : stored T' = stored T;
  st_config : a_config A' = a_config A }.
Lemma compact_same t A T : phys t A → tree_in A T → tidy T → few_pages t → shadow_fits t = true → ∃ t' A' T', bp_compact t = (t', Ok tt) ∧ same_tree A T t' A' T'.
Proof.
  intros Hp Ht Hd Hf Hfit. destruct (shadow_ok t A T Hp Ht Hd Hf) as (s & As & Ts & Hs & Hps & Hts & Hds & Hst). unfold shadow_fits in Hfit. rewrite Hs in Hfit.
  apply Nat.leb_le in Hfit. destruct (ph_entries _ _ Hps) as (_ & _ & Hpg). rewrite Hpg, (phys_mapped _ _ Hp) in Hfit.
  destruct (meta_page_ok _ _ Hps) as (_ & _ & _ & Hpc). unfold bp_compact. rewrite Hs. cbn [and_then]. rewrite Hpc. cbn [reading].
  pose proof (ph_size _ _ Hps) as Hsz. pose proof (phys_mapped _ _ Hps) as Hms. set (used := a_pages As * PAGE_SIZE) in *.
  rewrite Hms, get_bytes_ok by lia. cbn [reading]. rewrite drop_0. set (bs := take used (bp_file s)). assert (length bs = used) as Hbs by (unfold bs; rewrite length_take; lia).
  pose proof (phys_mapped _ _ Hp) as Hm. pose proof (put_bytes_ok (mapped t) 0 bs ltac:(rewrite Hm; simpl; lia)) as Hput.
  unfold store. unfold put_bytes in Hput. destruct (splice _ _ _) as [f0|]; [|done]. injection Hput as ->. cbn [and_then].
  unfold set_mapped. rewrite (ph_map _ _ Hp), skipn_all, app_nil_r, Hm. unfold set_len, map_file, sys. cbn [bp_os set_file set_stats set_map]. rewrite (ph_os _ _ Hp).
  cbn [and_then bp_os set_file set_stats set_map]. rewrite (ph_os _ _ Hp). cbn [and_then bp_os set_file set_stats set_map]. rewrite (ph_os _ _ Hp). cbn [and_then].
  set (N := Nat.max _ _ * PAGE_SIZE). assert (used ≤ N) as HN by (unfold N, used; nia). set (f1 := resize N _). set (t' := set_map _ _).
  assert (mapped t' = f1) as Hm' by apply firstn_all.
  assert (take used f1 = bs) as Hpre by (unfold f1, patch; simpl; rewrite <- Hbs; apply resize_prefix; lia).
  assert (length f1 = N) as Hl1 by apply resize_length.
  exists t', (with_config (bp_config t) As), Ts. split; [done|]. constructor.
  - apply (adopt_file s t' As Hps); [done|apply Hp|done|change (bp_file t') with f1; unfold used in HN; lia|].
    intros p Hlt. unfold page_bytes. rewrite Hm', Hms. assert ((p + 1) * PAGE_SIZE ≤ used) as Hpu by (unfold used; nia).
    rewrite <- (take_page used f1 p), <- (take_page used (bp_file s) p) by lia. by rewrite Hpre.
  - by apply tree_in_config.
  - done.
  - done.
  - apply (ph_config _ _ Hp).
Qed.
(** [maybe_compact], when there is room for what it may do. *)
Definition compaction_due t : bool :=
  negb (SFleb F64.one (compaction_ratio (bp_config t))) && SFleb (compaction_ratio (bp_config t)) (fragmentation_ratio t).
Definition may_compact t : bool := negb (compaction_due t) || ((Z.of_nat (st_pages (bp_stats t)) <? 2 ^ 31)%Z && shadow_fits t).
Lemma maybe_compact_ok t A T : phys t A → tree_in A T → tidy T → may_compact t = true → ∃ t' A' T', maybe_compact t = (t', Ok tt) ∧ same_tree A T t' A' T'.
Proof.
  intros Hp Ht Hd Hm. unfold may_compact, compaction_due in Hm. unfold maybe_compact. destruct (SFleb F64.one _); [by exists t, A, T|]. cbn [negb andb] in Hm.
  destruct (SFleb _ (fragmentation_ratio t)); [|by exists t, A, T]. cbn [negb orb] in Hm. apply andb_true_iff in Hm as [Hf%Z.ltb_lt Hfit]. by apply compact_same.
Qed.

End Compact.

(** * Encoding entries, and loading them into an empty tree

    [bulk_put_sorted] on a tree that is one empty leaf: the entries it keeps
    ([keep_last]), in the order of their encoded keys, are built bottom up. *)
Section Load.
Context {K V : Type} `{TotalCmp K} `{CK : Codec K} `{CV : Codec V} `{!LawfulCodec K, !LawfulCodec V}.
Implicit Types (t : BPlusTree) (k : K) (v : V) (q : K * V) (l items : list (K * V)) (b : BottomUpBuilder).

(** ** Encodings *)
Lemma encoding_ok {B C} `{LawfulCodec B} (x : B) t (f : list Z → step C) : encodable x = true → encoding x t f = f (encoded x).
Proof using Type. intros He. unfold encoding. by rewrite (encodable_vec x), He. Qed.
Lemma encoding_refused {B C} `{Codec B} (x : B) t (f : list Z → step C) : encodable x = false → encoding x t f = (t, Err InvalidData).
Proof using Type. intros He. unfold encoding. by rewrite (encodable_vec x), He. Qed.
(** The two encodings of a put, when one of them fails. *)
Lemma pair_refused {C} k v t (f : list Z → list Z → step C) : accepts k v = false → encoding k t (λ kb, encoding v t (f kb)) = (t, Err InvalidData).
Proof using Type.
  unfold accepts. intros Ha. destruct (encodable k) eqn:Ek; [|by apply encoding_refused].
  unfold encoding at 1. rewrite (encodable_vec k), Ek. by apply encoding_refused.
Qed.
Lemma pair_accepted {C} k v t (f : list Z → list Z → step C) : accepts k v = true → encoding k t (λ kb, encoding v t (f kb)) = f (encoded k) (encoded v).
Proof using Type*. intros [Hk Hv]%accepts_parts. by rewrite !encoding_ok. Qed.
Lemma bytes_of_encoded k : Forall is_byte (encoded k).
Proof using Type*.
  unfold encoded. destruct (bincode_encode k) as [bs|] eqn:E; [|constructor]. by destruct (codec_faithful k bs E).
Qed.

(** ** The entries kept *)
Fixpoint keep_last (pending : option (K * V)) items : list (K * V) :=
  match items, pending with
  | [], None => []
  | [], Some q => [q]
  | e :: items, None => keep_last (Some e) items
  | e :: items, Some q => if match cmp q.1 e.1 with Eq => true | _ => false end then keep_last (Some e) items else q :: keep_last (Some e) items
  end.
Lemma build_encoded_ok items : ∀ pending b t, all_accepted (keep_last pending items) →
  build_encoded items pending b t = push_all (map pair_bytes (keep_last pending items)) b t.
Proof using Type*.
  assert (∀ q b t, accepts q.1 q.2 = true → encoding q.1 t (λ kb, encoding q.2 t (λ vb, builder_push kb vb b t)) = builder_push (encoded q.1) (encoded q.2) b t) as Hemit.
  { intros q b t Ha. by apply (pair_accepted q.1 q.2 t (λ kb vb, builder_push kb vb b t)). }
  induction items as [|e items IH]; intros [q|] b t Ha; cbn [build_encoded keep_last] in *.
  - apply Forall_cons in Ha as [Hq _]. rewrite Hemit by done. cbn [map push_all]. unfold pair_bytes. cbn [fst snd]. by destruct (builder_push _ _ b t) as [t1 [b1|e|]].
  - done.
  - destruct (match cmp q.1 e.1 with Eq => true | _ => false end); [by apply IH|]. apply Forall_cons in Ha as [Hq Ha]. rewrite Hemit by done. cbn [map push_all].
    unfold pair_bytes at 1. cbn [fst snd]. destruct (builder_push _ _ b t) as [t1 [b1|x|]]; cbn [and_then]; [by apply IH|done..].
  - by apply IH.
Qed.

(** ** A tree that is one empty leaf *)
Definition one_empty_leaf t : bool :=
  match root t, page_bytes t 1 with
  | Ok 1, Ok buf => match page_type buf with Ok ty => (ty =? PAGE_LEAF)%Z && (bp_size t =? 0)%Z | _ => false end
  | _, _ => false
  end.
Lemma one_empty_leaf_ok t A T : phys t A → tree_in A T → one_empty_leaf t = true → T = Leaf 1 [].
Proof using Type.
  intros Hp Ht. unfold one_empty_leaf. destruct (meta_page_ok _ _ Hp) as (-> & _). rewrite (ti_root _ _ Ht). destruct (page_of T) as [|[|n]] eqn:Ep; try done.
  destruct T as [p es|p c cs]; cbn [page_of] in Ep; subst p.
  - destruct (page_bytes t 1) as [buf|e|]; [|done..]. destruct (page_type buf) as [ty|e|]; [|done..]. intros [_ Hs%Z.eqb_eq]%andb_true_iff.
    unfold bp_size in Hs. destruct (ph_entries _ _ Hp) as (He & _). rewrite He, (ti_count _ _ Ht) in Hs. unfold contents in Hs. simpl in Hs. destruct es; [done|simpl in Hs; lia].
  - pose proof (ti_nodes _ _ Ht) as Hn. cbn [nodes] in Hn. apply Forall_cons in Hn as [Hc _]. cbn [fst snd] in Hc. destruct (page_lookup _ _ _ _ Hp Hc) as (buf & -> & Hi & _).
    rewrite (internal_page_type _ _ _ Hi). done.
Qed.
(** What a load needs: keys in order, entries that fit, room for the pages. *)
Definition item_fits q : bool := (entry_size (encoded q.1) (encoded q.2) + SLOT_SIZE <=? MAX_ENTRY)%nat.
Fixpoint keys_in_order (ks : list (list Z)) : bool :=
  match ks with k1 :: (k2 :: _) as r => ltb k1 k2 && keys_in_order r | _ => true end.
Definition loads l t : bool :=
  one_empty_leaf t && forallb (λ q, accepts q.1 q.2 && item_fits q) l && keys_in_order (map (λ q, encoded q.1) l) &&
  (Z.of_nat (st_pages (bp_stats t) + room_for (map pair_bytes l) + 2 * (length l + 1)) <? two64)%Z.
Lemma in_order_wf l : keys_in_order (map (λ q, encoded q.1) l) = true → bt_wf (by_bytes l).
Proof using Type.
  induction l as [|q l IH]; [done|]. intros Ho. cbn [by_bytes map]. assert (keys_in_order (map (λ q, encoded q.1) l) = true) as Ho' by (destruct l; [done|]; by apply andb_true_iff in Ho as [_ ?]).
  specialize (IH Ho'). split; [|exact IH]. destruct l as [|q' l]; [constructor|]. apply andb_true_iff in Ho as [Hlt%ltb_lt _]. cbn [by_bytes map] in IH |- *. destruct IH as [HF _].
  constructor; [done|]. eapply Forall_impl; [exact HF|]. intros e He. simpl in He. ord.
Qed.
Lemma item_fits_ok q : accepts q.1 q.2 = true → item_fits q = true → item_ok (pair_bytes q).
Proof using Type*.
  intros _ Hf. unfold item_fits in Hf. apply Nat.leb_le in Hf. unfold item_ok, pair_bytes. cbn [fst snd]. split; [|split; [exact Hf|apply bytes_of_encoded]].
  unfold entry_size, MAX_ENTRY, payload_len in Hf. pose proof (encoded_small q.2) as Hsv. split; [lia|]. split; [lia|].
  intros Ho. rewrite Ho in Hf. unfold overflows, MAX_INLINE in Ho. apply Nat.ltb_lt in Ho. page_lia.
Qed.
Lemma load_ok t A T items : phys t A → tree_in A T → loads (keep_last None items) t = true → ∃ t' A' T',
  bp_bulk_put_sorted items t = (t', Ok tt) ∧ phys t' A' ∧ tree_in A' T' ∧ tidy T' ∧ stored T' = map pair_bytes (keep_last None items) ∧ a_config A' = a_config A.
Proof using Type*.
  intros Hp Ht Hl. unfold loads in Hl. set (l := keep_last None items) in *.
  apply andb_true_iff in Hl as [Hl Hr%Z.ltb_lt]. apply andb_true_iff in Hl as [Hl Ho]. apply andb_true_iff in Hl as [H1 HF]. pose proof (one_empty_leaf_ok t A T Hp Ht H1) as ->.
  assert (Forall (λ q, accepts q.1 q.2 = true ∧ item_fits q = true) l) as HF'.
  { rewrite forallb_forall in HF. apply Forall_forall. intros q Hq%list_elem_of_In. by apply HF, andb_true_iff in Hq. }
  assert (bp_size t = 0%Z) as Hs. { unfold bp_size. destruct (ph_entries _ _ Hp) as (-> & _). by rewrite (ti_count _ _ Ht). }
  unfold bp_bulk_put_sorted. rewrite Hs. cbn [Z.eqb negb]. rewrite build_encoded_ok; [|eapply Forall_impl; [exact HF'|]; by intros q [? _]].
  destruct (build_ok t A (map pair_bytes l) Hp Ht) as (t' & A' & T' & Hb & Hrest).
  - apply Forall_map. eapply Forall_impl; [exact HF'|]. intros q [Ha Hf]. by apply item_fits_ok.
  - by apply by_bytes_wf, in_order_wf.
  - destruct (ph_entries _ _ Hp) as (_ & _ & Hpg). rewrite Hpg in Hr. rewrite length_map. exact Hr.
  - exists t', A', T'. split; [exact Hb|done].
Qed.
End Load.
