(* ===== verification/BPlusLaws.v ===== *)
(** * What the tree promises

    The theorems of the B+ tree engine: it refines a map from encoded keys,
    its reads are those of the sorted list of entries, every file it reaches
    is a well-formed tree, and its loops end. *)
From stdpp Require Import base numbers option gmap list.
From Stdlib Require Import SpecFloat.
From S2P Require Import Prelude Bytes BinarySearch Order BTreeMap Backend Engine Serdes Mmap KeyDirLog BPlusPages BPlusNodes BPlus BPlusBytes BPlusSlots BPlusCells BPlusPageOps BPlusStore BPlusAlloc BPlusLeaf BPlusSplit BPlusPut BPlusShape BPlusTree BPlusReads BPlusWrites BPlusBuild BPlusOpen BPlusTyped BPlusCompact.
Import Pages Nodes BPlus.

(** * The tree as a storage engine

    [holds t m]: the file of [t] holds the entries of [m], a map from encoded
    keys.  Each operation of [BPlus.v] keeps that, and answers as the map
    does, while no internal page has to split and a compaction has room for
    its copy ([allowed]). *)
Section Engine.
Context {K V : Type} `{TotalCmp K} `{CK : Codec K} `{CV : Codec V} `{!LawfulCodec K, !LawfulCodec V}.
Implicit Types (t : BPlusTree) (k : K) (v : V) (m : btree (list Z) V) (kb vb : list Z).

(** ** Operations as data *)
Inductive bop := Op (o : op K V) | BulkPutSorted (items : list (K * V)) | Compact | Flush | Sync | Reopen.
Definition answering {B} (g : B → answer V) (r : BPlusTree * io B) : BPlusTree * io (answer V) := (r.1, rmap g r.2).
Definition bp_step (o : bop) t : BPlusTree * io (answer V) :=
  match o with
  | Op (Put k v) => answering (λ _, Done) (bp_put k v t)
  | Op (PutIfAbsent k v) => answering Flag (bp_put_if_absent k v t)
  | Op (Replace k v) => answering Previous (bp_replace k v t)
  | Op (Delete k) => answering Flag (bp_delete k t)
  | Op (Update k f) => answering (λ _, Done) (bp_update k f t)
  | Op Clear => answering (λ _, Done) (bp_clear t)
  | BulkPutSorted items => answering (λ _, Done) (bp_bulk_put_sorted items t)
  | Compact => answering (λ _, Done) (bp_compact t)
  | Flush => answering (λ _, Done) (bp_flush t)
  | Sync => answering (λ _, Done) (bp_sync t)
  | Reopen => match bp_open (bp_drop t) (bp_config t) [] with Ok t' => (t', Ok Done) | Err e => (t, Err e) | Panic => (t, Panic) end
  end.
(** What the map of encoded keys does: a value or a key that does not encode
    is refused. *)
Definition bytes_insert kb v m (a : answer V) : btree (list Z) V * io (answer V) :=
  if encodable v then (bt_insert kb v m, Ok a) else (m, Err InvalidData).
Definition rekey (o : op K V) : op (list Z) V :=
  match o with
  | Put k v => Put (encoded k) v
  | PutIfAbsent k v => PutIfAbsent (encoded k) v
  | Replace k v => Replace (encoded k) v
  | Delete k => Delete (encoded k)
  | Update k f => Update (encoded k) f
  | Clear => Clear
  end.
Definition refused (o : op K V) : bool :=
  match o with
  | Put k v | PutIfAbsent k v | Replace k v => negb (accepts k v)
  | Delete k | Update k _ => negb (encodable k)
  | Clear => false
  end.
Definition bp_spec_step (o : bop) m : btree (list Z) V * io (answer V) :=
  match o with
  | Op o => if refused o then (m, Err InvalidData) else map_step bytes_insert (rekey o) m
  | BulkPutSorted items => (by_bytes (keep_last None items), Ok Done)
  | _ => (m, Ok Done)
  end.
(** The entry an operation would write, if it writes one. *)
Definition writes (o : bop) t : option (K * V) :=
  match o with
  | Op (Put k v) | Op (Replace k v) => Some (k, v)
  | Op (PutIfAbsent k v) => if or_else false (bp_contains t k) then None else Some (k, v)
  | Op (Update k f) => v ← f (or_else None (bp_get t k)); Some (k, v)
  | _ => None
  end.
(** The tree it writes, before a compaction. *)
Definition written (o : bop) t : option BPlusTree :=
  match o with
  | Op (Delete k) => if encodable k then Some (delete_bytes (encoded k) t).1 else None
  | Op (Update k f) =>
      if encodable k then
        let current := or_else None (bp_get t k) in
        match f current with
        | Some v => if encodable v then Some (insert_bytes (encoded k) (encoded v) None t).1 else None
        | None => if is_some current then Some (delete_bytes (encoded k) t).1 else None
        end
      else None
  | _ => match writes o t with Some (k, v) => if accepts k v then Some (insert_bytes (encoded k) (encoded v) None t).1 else None | None => None end
  end.
(** Room for it: the parent of a leaf that splits has room for a separator,
    an entry takes at most a third of a leaf, the file stays below 2^64 bytes. *)
Definition fits kb vb t : bool :=
  (entry_size kb vb + SLOT_SIZE <=? MAX_ENTRY)%nat && (Z.of_nat (st_pages (bp_stats t) + chunks vb + 2) * 4096 <? two64)%Z && parent_room t kb vb.
Definition compactable t : bool := (Z.of_nat (st_pages (bp_stats t)) <? 2 ^ 31)%Z && shadow_fits t.
Definition allowed (o : bop) t : bool :=
  match o with
  | BulkPutSorted items => loads (keep_last None items) t
  | Compact => compactable t
  | _ =>
      match writes o t with Some (k, v) => negb (accepts k v) || fits (encoded k) (encoded v) t | None => true end &&
      match written o t with Some t' => may_compact t' | None => true end
  end.
Fixpoint run_allowed (os : list bop) t : bool :=
  match os with [] => true | o :: os => allowed o t && run_allowed os (bp_step o t).1 end.

(** ** The relation *)
Definition keyed m : Prop := Forall (λ e : list Z * V, (∃ k, encodable k = true ∧ encoded k = e.1) ∧ encodable e.2 = true) m.
Definition holds t m : Prop := ∃ A T, phys t A ∧ tree_in A T ∧ tidy T ∧ stored T = on_values encoded m ∧ keyed m.
Lemma keyed_insert kb v m : (∃ k, encodable k = true ∧ encoded k = kb) → encodable v = true → keyed m → keyed (bt_insert kb v m).
Proof using Type.
  intros Hk Hv. induction 1 as [|[j w] m [Hj Hw] HF IH]; simpl; [by repeat constructor|]. destruct (cmp kb j); constructor; try done; by constructor.
Qed.
Lemma keyed_remove kb m : keyed m → keyed (bt_remove kb m).
Proof using Type.
  induction 1 as [|[j w] m Hj HF IH]; simpl; [constructor|]. destruct (cmp kb j); [done|by constructor..].
Qed.
Lemma keyed_list m : keyed m → ∃ l : list (K * V), all_accepted l ∧ by_bytes l = m.
Proof using Type.
  induction 1 as [|[j w] m [(k & Hk & E) Hw] HF (l & Hl & <-)]; [exists []; split; [constructor|done]|]. simpl in *. subst j. exists ((k, w) :: l). split; [|done].
  constructor; [|done]. unfold accepts. simpl. by rewrite Hk, Hw.
Qed.
Lemma by_bytes_pairs (l : list (K * V)) : map pair_bytes l = on_values encoded (by_bytes l).
Proof using Type. unfold on_values, by_bytes. by rewrite map_map. Qed.
Lemma holds_serves t m : holds t m → ∃ l : list (K * V), serves t l ∧ by_bytes l = m.
Proof using Type.
  intros (A & T & Hp & Ht & _ & Hs & Hk). destruct (keyed_list m Hk) as (l & Hl & <-). exists l. split; [|done]. exists A, T.
  by rewrite by_bytes_pairs.
Qed.
Lemma keyed_get m kb v : keyed m → bt_get kb m = Some v → encodable v = true.
Proof using Type. intros Hk Hg. apply bt_get_In in Hg. unfold keyed in Hk. rewrite Forall_forall in Hk. by apply Hk in Hg as [_ ?]. Qed.

(** ** What the guard gives *)
Lemma fits_ok t A T k v : phys t A → tree_in A T → accepts k v = true → fits (encoded k) (encoded v) t = true →
  storable (encoded k) (encoded v) ∧ small_entry (encoded k) (encoded v) ∧ page_number (a_pages A + chunks (encoded v) + 2) ∧ (a_count A + 1 < two64)%Z ∧
  parent_room t (encoded k) (encoded v) = true.
Proof using Type*.
  intros Hp Ht _ Hf. unfold fits in Hf. apply andb_true_iff in Hf as [Hf Hroom]. apply andb_true_iff in Hf as [He%Nat.leb_le Hs%Z.ltb_lt].
  destruct (ph_entries _ _ Hp) as (_ & _ & Hpg). rewrite Hpg in Hs. pose proof page_size_Z as HP.
  pose proof (contents_bound t A _ Hp (tree_leaves _ _ Ht)) as Hb. pose proof (tree_pages_count _ _ _ Hp Ht) as Hc. unfold tree_pages, pages_in in Hc.
  rewrite length_app, !length_map in Hc. pose proof (ti_count _ _ Ht) as Hct. change two64 with 18446744073709551616%Z in *.
  assert (Z.of_nat (length (contents (flat [] T))) ≤ Z.of_nat (a_pages A) * 4096)%Z as Hz by nia.
  split; [|split; [exact He|split; [unfold page_number; lia|split; [lia|exact Hroom]]]].
  unfold entry_size, MAX_ENTRY, payload_len in He. pose proof (encoded_small v) as Hsv. split; [lia|]. split; [lia|].
  intros Ho. rewrite Ho in He. unfold overflows, MAX_INLINE in Ho. apply Nat.ltb_lt in Ho. page_lia.
Qed.

(** ** One write *)
Lemma put_holds t A T k v t' A' T' m : stored T = on_values encoded m → keyed m → accepts k v = true →
  put_result t A T (encoded k) (encoded v) t' A' T' → holds t' (bt_insert (encoded k) v m).
Proof using Type*.
  intros Hs Hk [Hak Hav]%accepts_parts [P1 P2 P3 P4 P5 P6].
  exists A', T'. split; [done|]. split; [done|]. split; [done|]. split; [by rewrite P4, Hs, values_insert|]. apply keyed_insert; [by exists k|done|done].
Qed.
Lemma del_holds A T kb t' A' T' m : stored T = on_values encoded m → keyed m → del_result A T kb t' A' T' → holds t' (bt_remove kb m).
Proof using Type.
  intros Hs Hk [P1 P2 P3 P4 P5 P6]. exists A', T'. split; [done|]. split; [done|]. split; [done|]. split; [by rewrite P4, Hs, values_remove|]. by apply keyed_remove.
Qed.
Lemma same_holds t A T t' A' T' m : stored T = on_values encoded m → keyed m → same_tree A T t' A' T' → holds t' m.
Proof using Type. intros Hs Hk [H1 H2 H3 H4 _]. exists A', T'. split; [done|]. split; [done|]. split; [done|]. split; [congruence|done]. Qed.
Lemma settles t m : holds t m → may_compact t = true → ∃ t', maybe_compact t = (t', Ok tt) ∧ holds t' m.
Proof using Type.
  intros (A & T & Hp & Ht & Hd & Hs & Hk) Hm. destruct (maybe_compact_ok t A T Hp Ht Hd Hm) as (t' & A' & T' & -> & Hsame). exists t'. split; [done|]. by eapply same_holds.
Qed.
Lemma compact_holds t m : holds t m → compactable t = true → ∃ t', bp_compact t = (t', Ok tt) ∧ holds t' m.
Proof using Type.
  intros (A & T & Hp & Ht & Hd & Hs & Hk) [Hf%Z.ltb_lt Hfit]%andb_true_iff. destruct (compact_same t A T Hp Ht Hd Hf Hfit) as (t' & A' & T' & -> & Hsame).
  exists t'. split; [done|]. by eapply same_holds.
Qed.
(** Deleting at a place already found. *)
Lemma delete_hint kb t h i : descend_to_leaf t kb = Ok h → slot h = Found i → delete_bytes kb t = and_then (delete_at (leaf_page h) i t) (λ t _, (t, Ok true)).
Proof using Type.
  unfold descend_to_leaf, delete_bytes. destruct (root t) as [p|e|]; cbn [rbind reading]; [|done..]. unfold find_leaf. rewrite (find_leaf_descend t kb (fuel_of t) p path_new).
  destruct (descend (fuel_of t) t p path_new kb) as [r|e|]; cbn [rbind rmap reading]; [|done..]. destruct (page_bytes t r.1) as [buf|e|]; cbn [rbind reading]; [|done..].
  destruct (page_count buf) as [n|e|]; cbn [rbind reading]; [|done..]. destruct (leaf_find_slot t r.1 n kb) as [s|e|]; cbn [rbind reading]; [|done..]. intros [= <-]. cbn [slot leaf_page]. by intros ->.
Qed.
Lemma stored_contains T m kb : stored T = on_values encoded m → bt_contains kb (stored T) = bt_contains kb m.
Proof using Type. intros ->. unfold bt_contains. rewrite values_get. by destruct (bt_get kb m). Qed.
(** The place of a key, with its value. *)
Lemma hint_ok t m kb : holds t m → ∃ A T C p es, phys t A ∧ tree_in A T ∧ tidy T ∧ stored T = on_values encoded m ∧
  at_leaf A T kb C p es ∧ descend_to_leaf t kb = Ok (mkHint p (path_of C path_new) (locate kb es)) ∧
  current_value t (mkHint p (path_of C path_new) (locate kb es)) = Ok (bt_get kb m) ∧
  match bt_get kb m with
  | Some _ => ∃ X pl Y, es = X ++ (kb, pl) :: Y ∧ locate kb es = Found (length X)
  | None => ∃ i, locate kb es = Absent i
  end.
Proof using Type*.
  intros (A & T & Hp & Ht & Hd & Hs & Hk). destruct (descend_to_leaf_ok t A T kb Hp Ht) as (C & p & es & Hl & Hdesc).
  exists A, T, C, p, es. do 6 (split; [done|]). pose proof (at_get _ _ _ _ _ _ Ht Hl) as Hg. pose proof (at_cell _ _ _ _ _ _ Ht Hl) as Hc.
  assert (bt_get kb (stored T) = stored_value <$> bt_get kb es) as Hst by (unfold stored; by rewrite values_get, Hg).
  rewrite Hs, values_get in Hst. unfold current_value. cbn [slot leaf_page].
  destruct (wf_split kb es (at_wf _ _ _ _ _ _ Ht Hl)) as [(X & pl & Y & -> & HX & HY)|(X & Y & -> & HX & HY)].
  - rewrite locate_here by done. rewrite get_here in Hst by done. simpl in Hst. destruct (bt_get kb m) as [v|] eqn:E; [|done]. injection Hst as Hv.
    rewrite (value_at_ok t A p _ _ _ Hp Hc (length X) (kb, pl)); [|by apply list_lookup_middle|].
    + cbn [rbind]. simpl. rewrite <- Hv, (encodable_decode v) by (by eapply keyed_get). split; [done|]. by exists X, pl, Y.
    + pose proof (at_holds _ _ _ _ _ _ Ht Hl) as HF. apply Forall_app in HF as [_ HF]. by apply Forall_cons in HF as [? _].
  - rewrite locate_gap by done. rewrite get_gap in Hst by done. destruct (bt_get kb m) as [v|] eqn:E; [done|]. split; [done|]. by exists (length X).
Qed.

(** ** Each operation *)
(** [p] answers as the map [m'] with [q], and holds it. *)
Definition agrees (p : BPlusTree * io (answer V)) (q : btree (list Z) V * io (answer V)) : Prop := p.2 = q.2 ∧ p.2 ≠ Panic ∧ holds p.1 q.1.
Lemma refuse_agrees t m : holds t m → agrees (t, Err InvalidData) (m, Err InvalidData).
Proof using Type. by intros Hh. Qed.
(** Inserting where the descent ended. *)
Definition inserted k v t : BPlusTree := (insert_bytes (encoded k) (encoded v) None t).1.
Lemma insert_holds t m k v : holds t m → accepts k v = true → fits (encoded k) (encoded v) t = true → ∃ h, descend_to_leaf t (encoded k) = Ok h ∧
  current_value t h = Ok (bt_get (encoded k) m) ∧ match slot h with Found _ => true | Absent _ => false end = bt_contains (encoded k) m ∧
  insert_bytes (encoded k) (encoded v) (Some h) t = (inserted k v t, Ok (bt_contains (encoded k) m)) ∧ insert_bytes (encoded k) (encoded v) None t = (inserted k v t, Ok (bt_contains (encoded k) m)) ∧
  holds (inserted k v t) (bt_insert (encoded k) v m).
Proof using Type*.
  intros Hh Ha Hf. pose proof Hh as (A0 & T0 & _ & _ & _ & _ & Hk).
  destruct (hint_ok t m (encoded k) Hh) as (A & T & C & p & es & Hp & Ht & Hd & Hs & Hl & Hdesc & Hcur & Hm).
  destruct (fits_ok t A T k v Hp Ht Ha Hf) as (Hst & Hse & Hpn & Hcb & Hroom).
  destruct (insert_hint_ok t A T (encoded k) (encoded v) C p es Hp Ht Hd Hl Hst Hse (bytes_of_encoded k) Hpn Hcb Hdesc Hroom) as (t' & A' & T' & Hi & Hr).
  rewrite (stored_contains T m) in Hi by done.
  assert (insert_bytes (encoded k) (encoded v) None t = (t', Ok (bt_contains (encoded k) m))) as Hi0 by (rewrite <- Hi; unfold insert_bytes; by rewrite Hdesc).
  assert (inserted k v t = t') as -> by (unfold inserted; by rewrite Hi0).
  eexists. split; [exact Hdesc|]. split; [exact Hcur|]. split.
  - cbn [slot]. unfold bt_contains. destruct (bt_get (encoded k) m); [destruct Hm as (X & pl & Y & _ & ->)|destruct Hm as (i & ->)]; done.
  - split; [exact Hi|]. split; [exact Hi0|]. by eapply put_holds.
Qed.
Lemma put_agrees t m k v : holds t m → accepts k v = true → fits (encoded k) (encoded v) t = true → may_compact (inserted k v t) = true →
  agrees (answering (λ _, Done) (bp_put k v t)) (bytes_insert (encoded k) v m Done).
Proof using Type*.
  intros Hh Ha Hf Hmc. pose proof (accepts_parts _ _ Ha) as [_ Hv]. destruct (insert_holds t m k v Hh Ha Hf) as (h & _ & _ & _ & _ & Hi & Hh').
  destruct (settles _ _ Hh' Hmc) as (t2 & Hc & Hh2). unfold bp_put, bytes_insert. rewrite pair_accepted, Hi, Hv by done. cbn [and_then]. rewrite Hc. done.
Qed.
Lemma put_if_absent_agrees t m k v : holds t m → accepts k v = true → (bt_contains (encoded k) m = false → fits (encoded k) (encoded v) t = true ∧ may_compact (inserted k v t) = true) →
  agrees (answering Flag (bp_put_if_absent k v t)) (if bt_contains (encoded k) m then (m, Ok (Flag false)) else bytes_insert (encoded k) v m (Flag true)).
Proof using Type*.
  intros Hh Ha Hf. pose proof (accepts_parts _ _ Ha) as [_ Hv]. unfold bp_put_if_absent. rewrite pair_accepted by done.
  destruct (bt_contains (encoded k) m) eqn:E.
  - destruct (hint_ok t m (encoded k) Hh) as (A & T & C & p & es & _ & _ & _ & _ & _ & -> & _ & Hm). cbn [reading slot].
    unfold bt_contains in E. destruct (bt_get (encoded k) m); [|done]. destruct Hm as (X & pl & Y & _ & ->). done.
  - destruct (Hf eq_refl) as [Hf' Hmc]. destruct (insert_holds t m k v Hh Ha Hf') as (h & -> & _ & Hsl & Hi & _ & Hh'). cbn [reading]. rewrite E in *.
    destruct (slot h) as [i|i]; [done|]. rewrite Hi. cbn [and_then]. destruct (settles _ _ Hh' Hmc) as (t2 & -> & Hh2). unfold bytes_insert. rewrite Hv. done.
Qed.
Lemma replace_agrees t m k v : holds t m → accepts k v = true → fits (encoded k) (encoded v) t = true → may_compact (inserted k v t) = true →
  agrees (answering Previous (bp_replace k v t)) (bytes_insert (encoded k) v m (Previous (bt_get (encoded k) m))).
Proof using Type*.
  intros Hh Ha Hf Hmc. pose proof (accepts_parts _ _ Ha) as [_ Hv]. destruct (insert_holds t m k v Hh Ha Hf) as (h & Hd & Hcur & _ & Hi & _ & Hh').
  destruct (settles _ _ Hh' Hmc) as (t2 & Hc & Hh2). unfold bp_replace, bytes_insert. rewrite pair_accepted, Hd, Hv by done. cbn [reading]. rewrite Hcur. cbn [reading]. rewrite Hi.
  cbn [and_then]. rewrite Hc. done.
Qed.
Definition deleted k t : BPlusTree := (delete_bytes (encoded k) t).1.
Lemma delete_holds t m k : holds t m → delete_bytes (encoded k) t = (deleted k t, Ok (bt_contains (encoded k) m)) ∧ holds (deleted k t) (bt_remove (encoded k) m).
Proof using Type*.
  intros (A & T & Hp & Ht & Hd & Hs & Hkd). destruct (delete_bytes_ok t A T (encoded k) Hp Ht Hd) as (t' & A' & T' & Hdel & Hr). rewrite (stored_contains T m) in Hdel by done.
  unfold deleted. rewrite Hdel. split; [done|]. by eapply del_holds.
Qed.
Lemma delete_agrees t m k : holds t m → encodable k = true → may_compact (deleted k t) = true →
  agrees (answering Flag (bp_delete k t)) (bt_remove (encoded k) m, Ok (Flag (bt_contains (encoded k) m))).
Proof using Type*.
  intros Hh Hk Hmc. unfold bp_delete. rewrite encoding_ok by done. destruct (delete_holds t m k Hh) as [-> Hh']. cbn [and_then].
  destruct (settles _ _ Hh' Hmc) as (t2 & Hc & Hh2). destruct (bt_contains (encoded k) m); cbn [and_then]; [rewrite Hc|]; done.
Qed.
Lemma remove_missing kb m : bt_get kb m = None → bt_remove kb m = m.
Proof using Type. induction m as [|[j w] m IH]; simpl; [done|]. destruct (cmpP kb j) as [->|E E'|E E']; rewrite ?cmp_refl, ?E; try done; intros Hn; by rewrite IH. Qed.
Lemma update_agrees t m k f : holds t m → encodable k = true → (∀ v, f (bt_get (encoded k) m) = Some v → encodable v = true → fits (encoded k) (encoded v) t = true ∧ may_compact (inserted k v t) = true) →
  (f (bt_get (encoded k) m) = None → bt_contains (encoded k) m = true → may_compact (deleted k t) = true) →
  agrees (answering (λ _, Done) (bp_update k f t)) (map_step bytes_insert (Update (encoded k) f) m).
Proof using Type*.
  intros Hh Hk Hf Hdel. unfold bp_update. rewrite encoding_ok by done. cbn [map_step].
  destruct (hint_ok t m (encoded k) Hh) as (A & T & C & p & es & Hp & Ht & Hd & Hs & Hl & Hdesc & Hcur & Hm).
  destruct (f (bt_get (encoded k) m)) as [v|] eqn:Ef.
  - destruct (encodable v) eqn:Hv.
    + assert (accepts k v = true) as Ha by (unfold accepts; by rewrite Hk, Hv). destruct (Hf v eq_refl Hv) as [Hfit Hmc].
      destruct (insert_holds t m k v Hh Ha Hfit) as (h & Hdd & Hcc & _ & Hi & _ & Hh'). destruct (settles _ _ Hh' Hmc) as (t2 & Hc & Hh2).
      rewrite Hdd. cbn [reading]. rewrite Hcc. cbn [reading]. rewrite Ef, encoding_ok by done.
      rewrite Hi. cbn [and_then]. rewrite Hc. unfold bytes_insert. rewrite Hv. done.
    + rewrite Hdesc. cbn [reading]. rewrite Hcur. cbn [reading]. rewrite Ef, encoding_refused by done. unfold bytes_insert. rewrite Hv. done.
  - destruct (delete_holds t m k Hh) as [Hdb Hh']. rewrite Hdesc. cbn [reading]. rewrite Hcur. cbn [reading slot leaf_page]. rewrite Ef. unfold bt_contains in Hdb, Hdel.
    destruct (bt_get (encoded k) m) as [w|] eqn:E.
    + destruct Hm as (X & pl & Y & -> & Hloc). rewrite Hloc in *. rewrite (delete_hint _ _ _ (length X) Hdesc eq_refl) in Hdb. cbn [leaf_page] in Hdb.
      destruct (delete_at p (length X) t) as [t1 [[]|e|]]; cbn [and_then] in Hdb |- *; [|done..]. injection Hdb as ->.
      destruct (settles _ _ Hh' (Hdel eq_refl eq_refl)) as (t2 & -> & Hh2). done.
    + destruct Hm as (i & ->). split; [done|]. split; [done|]. cbn [answering fst]. by rewrite remove_missing.
Qed.
Lemma clear_agrees t m : holds t m → agrees (answering (λ _, Done) (bp_clear t)) ([], Ok Done).
Proof using Type.
  intros (A & T & Hp & Ht & Hd & Hs & Hk). destruct (clear_ok t A Hp) as (t' & -> & Hp'). split; [done|]. split; [done|].
  exists (empty_abs (a_config A)), (Leaf 1 []). split; [done|]. split; [apply empty_tree|]. split; [constructor|]. split; [done|constructor].
Qed.
Lemma load_agrees t m items : holds t m → loads (keep_last None items) t = true →
  agrees (answering (λ _, Done) (bp_bulk_put_sorted items t)) (by_bytes (keep_last None items), Ok Done).
Proof using Type*.
  intros (A & T & Hp & Ht & Hd & Hs & Hk) Hl. destruct (load_ok t A T items Hp Ht Hl) as (t' & A' & T' & -> & Hp' & Ht' & Hd' & Hs' & _). split; [done|]. split; [done|].
  exists A', T'. split; [done|]. split; [done|]. split; [done|]. split; [by rewrite Hs', by_bytes_pairs|]. unfold loads in Hl. rewrite !andb_true_iff in Hl. destruct Hl as [[[_ HF] _] _].
  rewrite forallb_forall in HF. apply Forall_map, Forall_forall. intros q [[Hq Hv]%andb_true_iff _]%list_elem_of_In%HF%andb_true_iff. split; [by exists q.1|done].
Qed.
Lemma reopen_agrees t m : holds t m → agrees (bp_step Reopen t) (m, Ok Done).
Proof using Type.
  intros (A & T & Hp & Ht & Hd & Hs & Hk). cbn [bp_step]. assert (bp_drop t = bp_file t) as ->.
  { unfold bp_drop, bp_flush, sys. by rewrite (ph_os _ _ Hp). }
  destruct (open_ok t A (bp_config t) Hp) as (t' & -> & Hp' & _). split; [done|]. split; [done|]. exists (with_config (bp_config t) A), T.
  split; [done|]. split; [by apply tree_in_config|]. by split.
Qed.
Lemma step_agrees (o : bop) t m : holds t m → allowed o t = true → agrees (bp_step o t) (bp_spec_step o m).
Proof using Type*.
  intros Hh Ha. destruct (holds_serves t m Hh) as (l & Hsv & Hlm).
  assert (∀ k v, negb (accepts k v) || fits (encoded k) (encoded v) t = true → accepts k v = true → fits (encoded k) (encoded v) t = true) as Hacc.
  { intros k v Hor E. by rewrite E in Hor. }
  destruct o as [[k v|k v|k v|k|k f|]|items| | | |]; cbn [bp_step bp_spec_step refused rekey map_step allowed] in *; cbn [writes written] in Ha.
  - apply andb_true_iff in Ha as [Ha Hm]. destruct (accepts k v) eqn:E; cbn [negb]; [apply put_agrees; auto|]. unfold bp_put. rewrite pair_refused by done. by apply refuse_agrees.
  - destruct (accepts k v) eqn:E; cbn [negb].
    + apply put_if_absent_agrees; [done|done|]. intros Hc. rewrite (bp_contains_ok t l k Hsv), Hlm, Hc in Ha. pose proof (accepts_parts _ _ E) as [Hk _]. rewrite Hk in Ha. cbn [or_else] in Ha.
      rewrite E in Ha. apply andb_true_iff in Ha as [Ha Hm]. auto.
    + unfold bp_put_if_absent. rewrite pair_refused by done. by apply refuse_agrees.
  - apply andb_true_iff in Ha as [Ha Hm]. destruct (accepts k v) eqn:E; cbn [negb]; [apply replace_agrees; auto|]. unfold bp_replace. rewrite pair_refused by done. by apply refuse_agrees.
  - destruct (encodable k) eqn:E; cbn [negb]; [by apply delete_agrees|]. unfold bp_delete. rewrite encoding_refused by done. by apply refuse_agrees.
  - destruct (encodable k) eqn:E; cbn [negb].
    + rewrite (bp_get_ok t l k Hsv), E, Hlm in Ha. cbn [or_else] in Ha. apply update_agrees; [done|done| |].
      * intros v Hv Hev. rewrite Hv, Hev in Ha. simpl in Ha. apply andb_true_iff in Ha as [Ha Hm]. split; [|done]. apply Hacc; [done|]. unfold accepts. by rewrite E, Hev.
      * intros Hf Hc. rewrite Hf in Ha. unfold bt_contains in Hc. simpl in Ha. by destruct (bt_get (encoded k) m).
    + unfold bp_update. rewrite encoding_refused by done. by apply refuse_agrees.
  - by apply (clear_agrees t m).
  - by apply (load_agrees t m).
  - destruct (compact_holds t m Hh Ha) as (t' & -> & Hh'). done.
  - destruct Hh as (A & T & Hp & Hrest). unfold bp_flush, sys. rewrite (ph_os _ _ Hp). split; [done|]. split; [done|]. by exists A, T.
  - destruct Hh as (A & T & Hp & Hrest). unfold bp_sync, sys. rewrite (ph_os _ _ Hp). split; [done|]. split; [done|]. by exists A, T.
  - by apply reopen_agrees.
Qed.
End Engine.

(** * What the tree promises *)
Section Laws.
Context {K V : Type} `{TotalCmp K} `{CK : Codec K} `{CV : Codec V} `{!LawfulCodec K, !LawfulCodec V}.
Implicit Types (t : BPlusTree) (k : K) (v : V) (l : list (K * V)) (m : btree (list Z) V).

(** ** Runs *)
Lemma keyed_nil : keyed (K := K) ([] : btree (list Z) V).
Proof using Type. constructor. Qed.
Lemma create_holds config t0 : bp_create config [] = Ok t0 → holds (K := K) t0 ([] : btree (list Z) V).
Proof using Type.
  intros Hc. destruct (create_ok config) as (t & Ht & Hp). unfold bp_create in Hc. rewrite Ht in Hc. injection Hc as <-.
  exists (empty_abs config), (Leaf 1 []). split; [done|]. split; [apply empty_tree|]. split; [constructor|]. split; [done|]. apply keyed_nil.
Qed.
Lemma run_agrees (os : list (bop (K := K) (V := V))) : ∀ t m, holds (K := K) t m → run_allowed os t = true →
  let (t', rs) := run_ops bp_step os t in let (m', qs) := run_ops bp_spec_step os m in rs = qs ∧ (Panic ∉ rs) ∧ holds (K := K) t' m'.
Proof using Type*.
  induction os as [|o os IH]; intros t m Hh Ha; simpl in *; [split; [done|]; split; [by apply not_elem_of_nil|done]|].
  apply andb_true_iff in Ha as [Ha Hr]. destruct (step_agrees o t m Hh Ha) as (He & Hnp & Hh1).
  destruct (bp_step o t) as [t1 r], (bp_spec_step o m) as [m1 q]. simpl in *. subst q. specialize (IH t1 m1 Hh1 Hr).
  destruct (run_ops bp_step os t1) as [t2 rs], (run_ops bp_spec_step os m1) as [m2 qs]. destruct IH as (-> & Hp & Hh2).
  split; [done|]. split; [|done]. by apply not_elem_of_cons.
Qed.
Lemma created_run config os t0 : bp_create config [] = Ok t0 → run_allowed (K := K) (V := V) os t0 = true →
  holds (K := K) (run_ops bp_step os t0).1 (run_ops bp_spec_step os ([] : btree (list Z) V)).1.
Proof using Type*.
  intros Hc Ha. pose proof (run_agrees os t0 [] (create_holds config t0 Hc) Ha) as Hr.
  destruct (run_ops bp_step os t0), (run_ops bp_spec_step os []). apply Hr.
Qed.
Lemma serves_sorted t l : serves t l → bt_wf (by_bytes l).
Proof using Type. intros (A & T & Hp & Ht & Hs & _). apply by_bytes_wf. rewrite <- Hs. by eapply stored_wf. Qed.

(** C2. A B+ tree refines a map from encoded keys that refuses what the codec
    refuses.  From a new file, any sequence of writes, bulk loads, compactions,
    flushes and reopenings whose operations are [allowed] gives the map's
    answers and never panics, and the file then reads as the map.  Allowed
    is what follows.  An entry the codec accepts takes at most [MAX_ENTRY] =
    1357 bytes of its leaf, a third of it: its header and slot, the key, and
    the value or, for a value long enough for pages of its own, 8 bytes.
    A leaf may split, grow the root and add a separator, but no internal page
    may have to split.  A bulk load is of such entries, in ascending order of
    their serialized keys once only the last of each key is kept, into a tree of one empty leaf.  A compacted
    copy fits the mapped file, and the file stays below 2^64 bytes.  Outside of it the code
    can lose entries: [leaf_split_overflows] and [root_split_hides]. *)
Theorem btree_refines (config : BPlusTreeConfig) (os : list (bop (K := K) (V := V))) t0 : bp_create config [] = Ok t0 → run_allowed os t0 = true →
  let (t, answers) := run_ops bp_step os t0 in
  let (m, expected) := run_ops bp_spec_step os ([] : btree (list Z) V) in
  answers = expected ∧ (Panic ∉ answers) ∧ bt_wf m ∧ bp_size t = Z.of_nat (length m) ∧
  (∀ k, bp_get t k = Ok (if encodable k then bt_get (encoded k) m else None) ∧ bp_contains t k = Ok (if encodable k then bt_contains (encoded k) m else false)) ∧
  ∃ l, bp_entries t = Ok l ∧ by_bytes l = m.
Proof.
  intros Hc Ha. pose proof (run_agrees os t0 [] (create_holds config t0 Hc) Ha) as Hr.
  destruct (run_ops bp_step os t0) as [t answers], (run_ops bp_spec_step os []) as [m expected]. destruct Hr as (He & Hp & Hh).
  destruct (holds_serves t m Hh) as (l & Hs & <-). split; [done|]. split; [done|]. split; [by eapply serves_sorted|].
  split; [rewrite (bp_size_ok t l Hs); unfold by_bytes; by rewrite length_map|]. split; [|exists l; by destruct (iterate_ok t l Hs) as (_ & _ & ?)].
  intros k. by rewrite (bp_get_ok t l k Hs), (bp_contains_ok t l k Hs).
Qed.

(** C12. Every read of a tree is the read of the list of its entries in the order
    of their encoded keys: lookups, size, the iterations both ways, the first
    and last entry, and the half-open ranges both ways. *)
Theorem btree_reads t l : serves t l →
  bt_wf (by_bytes l) ∧ bp_size t = Z.of_nat (length l) ∧
  (∀ k, bp_get t k = Ok (if encodable k then bt_get (encoded k) (by_bytes l) else None)) ∧
  bp_keys t = Ok (map fst l) ∧ bp_values t = Ok (map snd l) ∧ bp_entries t = Ok l ∧ bp_entries_rev t = Ok (rev l) ∧
  bp_first t = Ok (head l) ∧ bp_last t = Ok (last l) ∧
  (∀ a b, bp_range t a b = Ok (range_of a b l) ∧ bp_range_rev t a b = Ok (rev (range_of a b l))).
Proof.
  intros Hs. destruct (iterate_ok t l Hs) as (H1 & H2 & H3). split_and!; try done.
  - by eapply serves_sorted.
  - by apply bp_size_ok.
  - intros k. by apply bp_get_ok.
  - by apply entries_rev_ok.
  - by apply first_ok.
  - by apply last_ok.
  - intros a b. split; [by apply range_ok|by apply range_rev_ok].
Qed.

(** C24. Every file reached from a new one is a well-formed tree: the meta page
    counts what is there, the internal pages and leaves hold their entries in
    order within the fences their separators set, the leaves are linked both
    ways, no page serves twice, and no entry is larger than a third of a page. *)
Theorem btree_shape (config : BPlusTreeConfig) (os : list (bop (K := K) (V := V))) t0 : bp_create config [] = Ok t0 →
  run_allowed (K := K) (V := V) os t0 = true → let t := (run_ops (V := V) bp_step os t0).1 in
  ∃ A T, phys t A ∧ tree_in A T ∧ tidy T ∧ NoDup (tree_pages T) ∧ (length (tree_pages T) < st_pages (bp_stats t)) ∧
    Z.of_nat (length (stored T)) = st_entries (bp_stats t).
Proof.
  intros Hc Ha. destruct (created_run config os t0 Hc Ha) as (A & T & Hp & Ht & Hd & _). exists A, T.
  destruct (ph_entries _ _ Hp) as (He & _ & Hpg). split_and!; try done.
  - apply Ht.
  - rewrite Hpg. by eapply tree_pages_count.
  - rewrite He, (ti_count _ _ Ht). unfold stored, on_values. by rewrite length_map.
Qed.

Lemma find_leaf_more t key p : ∀ fuel page, find_leaf_from fuel t page key = Ok p → ∀ fuel', fuel ≤ fuel' → find_leaf_from fuel' t page key = Ok p.
Proof using Type.
  induction fuel as [|fuel IH]; intros page Hf fuel' Hle; [done|]. destruct fuel' as [|fuel']; [lia|]. cbn [find_leaf_from] in *.
  destruct (page_bytes t page) as [buf|e|]; cbn [rbind] in *; [|done..]. destruct (page_type buf) as [ty|e|]; cbn [rbind] in *; [|done..].
  destruct (ty =? PAGE_LEAF)%Z; [done|]. destruct (internal_search t page key) as [c|e|]; cbn [rbind] in *; [|done..]. apply (IH c Hf). lia.
Qed.
(** C25. The loops end: a descent takes at most as many steps as the file has
    pages, so every bound from there on gives the same leaf, and a walk along
    the leaves ends after the last entry. *)
Theorem btree_loops_end t l : serves t l → ∃ r first, root t = Ok r ∧
  (∀ fuel, st_pages (bp_stats t) ≤ fuel → first_leaf_from fuel t r = Ok first) ∧
  (∀ key, ∃ leaf, ∀ fuel, st_pages (bp_stats t) ≤ fuel → find_leaf_from fuel t r key = Ok leaf) ∧
  (∃ o, ∀ fuel, st_pages (bp_stats t) ≤ fuel → nonempty_leaf fuel 8 t first = Ok o) ∧
  (∃ c, enter t first = Ok c ∧ ∀ fuel, length l < fuel → raw_collect fuel t c (key_bytes_at t) = Ok (map (λ q, encoded q.1) l)).
Proof.
  intros (A & T & Hp & Ht & Hs & HF). destruct (meta_page_ok _ _ Hp) as (Hroot & _). destruct (ph_entries _ _ Hp) as (_ & _ & ->).
  pose proof (tree_pages_count _ _ _ Hp Ht) as Hc. unfold tree_pages, pages_in in Hc. rewrite length_app, !length_map in Hc.
  pose proof (tree_leaves _ _ Ht) as Hl. pose proof (chain_linked _ _ _ (ti_chain _ _ Ht)) as Hlk.
  exists (a_root A), (first_page (flat [] T) 0). split; [done|]. split; [|split; [|split]].
  - intros fuel Hf. rewrite (ti_root _ _ Ht). apply (first_leaf_from_ok t A Hp); [apply Ht|done|lia].
  - intros key. destruct (descend_ok t A key Hp _ T [] path_new (ti_nodes _ _ Ht) Hl (proj1 (ti_order _ _ Ht)) (nil_upto _) (Nat.lt_succ_diag_r _)) as (C & p & es & _ & _ & _ & Hd).
    exists p. intros fuel Hf. rewrite (ti_root _ _ Ht). apply (find_leaf_more t key p (S (length (nodes T)))); [|destruct (flat_head [] T) as (x & L & E); rewrite E in Hc; simpl in Hc; lia].
    by rewrite (find_leaf_descend _ _ _ _ path_new), Hd.
  - eexists. intros fuel Hf. apply (nonempty_leaf_ok t A false _ Hp Hlk). lia.
  - destruct (enter_ok t A false (flat [] T) Hp Hlk) as (c & Hce & Hat & Hr). exists c. split; [done|]. intros fuel Hf.
    destruct (walk_fuel t A T Hp Ht) as [H1 H2].
    rewrite (raw_collect_ok t A Hp (key_bytes_at t) (runs (flat [] T)) fuel c (tail (flat [] T)) Hr Hat).
    + pose proof (forward_reads t A T l Hp Ht Hs) as Hrd. apply (each_reads t false _ (λ q, encoded q.1) _ _ Hrd HF). by intros c' q Ha [Hk _].
    + destruct (flat [] T); simpl in *; lia.
    + rewrite runs_length. rewrite <- (length_map pair_bytes l), <- Hs in Hf. unfold stored, on_values in Hf. by rewrite length_map in Hf.
Qed.
End Laws.
