(* ===== verification/Topic.v ===== *)
(** * Topics: [zendb-storage/src/topic.rs]

    The append-only log behind every table.  A segment is its file (a list of
    bytes) with the counters the code keeps beside it; [tp_retired] are the
    segments compaction has dropped but that a consumer's cursor may still
    hold (the [Arc] of the source).  Consumer offsets live in a backend ([Off],
    a [KeyDir] in the source) and in the table of live consumers.  [tp_disk]
    is how many bytes the file system still accepts: a write that does not fit
    leaves the bytes that did and fails, as [write_all] does; [tp_stray] are the
    segment files whose creation failed half-way (the code leaves them behind,
    and [create_new] refuses their names afterwards).

    Offsets are unbounded integers here: they stay below 2^64 in the source
    because each stands for a record of at least four bytes on disk. *)
From stdpp Require Import base numbers option gmap sorting list.
From S2P Require Import Prelude Bytes Order BTreeMap Backend Serdes.

Module Topic.
Definition MAGIC : Z := 0x43495054.
Definition HEADER_SIZE : nat := 4.

Record TopicStats := mkStats {
  earliest_offset : Z; next_offset : Z; records : Z; retained_bytes : Z }.
Record ConsumerState := mkConsumer { committed : Z; volatile : Z; reader_active : bool }.
Record Segment := mkSegment {
  base_offset : Z; end_offset : Z; byte_len : Z; seg_file : list Z; delete_on_drop : bool }.
Record SegmentCursor := mkCursor { cur_base : Z; cur_pos : nat; logical_offset : Z }.
Record TopicConsumer := mkHandle { tc_name : rstring; tc_current : option SegmentCursor }.
Record Topic (Off : Type) := mkTopic {
  tp_max_segment_bytes : Z;
  tp_segments : list Segment;
  tp_retired : list Segment;
  tp_next : Z;
  tp_consumers : gmap rstring ConsumerState;
  tp_offsets : Off;
  tp_stats : TopicStats;
  tp_disk : nat;
  tp_stray : list (Z * list Z) }.
Arguments mkTopic {_} _ _ _ _ _ _ _ _ _.
Arguments tp_max_segment_bytes {_} _. Arguments tp_segments {_} _. Arguments tp_retired {_} _.
Arguments tp_next {_} _. Arguments tp_consumers {_} _. Arguments tp_offsets {_} _.
Arguments tp_stats {_} _. Arguments tp_disk {_} _. Arguments tp_stray {_} _.

Definition record_count (s : Segment) : Z := (end_offset s - base_offset s)%Z.

(** ** Files *)
Definition magic_bytes : list Z := to_le_bytes 4 MAGIC.
(** [Write::write_all] on an append handle. *)
Definition write_all (bs : list Z) (file : list Z) (disk : nat) : list Z * nat * io unit :=
  if (length bs <=? disk)%nat then (file ++ bs, disk - length bs, Ok tt)
  else (file ++ take disk bs, 0, Err StorageFull).
(** [Read::read_exact] at a position; a failed read consumes what is left. *)
Definition read_exact (file : list Z) (pos n : nat) : nat * io (list Z) :=
  match slice file pos n with
  | Some bs => (pos + n, Ok bs)
  | None => (Nat.max pos (length file), Err UnexpectedEof)
  end.

Definition check_segment_magic (file : list Z) : io unit :=
  match read_exact file 0 4 with
  | (_, Ok magic) => if (from_le_bytes magic =? MAGIC)%Z then Ok tt else Err InvalidData
  | (_, Err e) => Err e
  | (_, Panic) => Panic
  end.

(** The loop of [scan_active_segment]; [fuel] bounds the records of the file. *)
Fixpoint scan_loop (fuel : nat) (file : list Z) (recs : Z) (cursor : nat) : io (Z * nat) :=
  match fuel with
  | O => Ok (recs, cursor)
  | S fuel =>
      if (cursor + 4 <=? length file)%nat then
        match read_exact file cursor 4 with
        | (_, Ok size) =>
            let end_ := cursor + 4 + Z.to_nat (from_le_bytes size) in
            if (end_ <=? length file)%nat then scan_loop fuel file (recs + 1) end_
            else Ok (recs, cursor)
        | (_, Err e) => Err e
        | (_, Panic) => Panic
        end
      else Ok (recs, cursor)
  end.
Definition scan_active_segment (file : list Z) (base : Z) : io (Z * nat * nat) :=
  _ <-? check_segment_magic file ;;
  r <-? scan_loop (length file) file 0 HEADER_SIZE ;;
  Ok ((base + r.1)%Z, r.2, length file).

(** [list_segments]: the segment files of the directory, in offset order. *)
Definition list_segments (dir : list (Z * list Z)) : list (Z * list Z) :=
  sort_by (λ p q, (p.1 <=? q.1)%Z) dir.

Section Topic.
Context {T Off : Type} `{Cd : Codec T} `{Bk : Backend Off rstring Z}.
Implicit Types (t : Topic Off) (h : TopicConsumer) (s : Segment).

Abbreviation step A := (Topic Off * io A)%type.

Definition set_segments segs t := mkTopic (tp_max_segment_bytes t) segs (tp_retired t)
  (tp_next t) (tp_consumers t) (tp_offsets t) (tp_stats t) (tp_disk t) (tp_stray t).
Definition set_disk d t := mkTopic (tp_max_segment_bytes t) (tp_segments t) (tp_retired t)
  (tp_next t) (tp_consumers t) (tp_offsets t) (tp_stats t) d (tp_stray t).
Definition set_stats st t := mkTopic (tp_max_segment_bytes t) (tp_segments t) (tp_retired t)
  (tp_next t) (tp_consumers t) (tp_offsets t) st (tp_disk t) (tp_stray t).
Definition set_next n t := mkTopic (tp_max_segment_bytes t) (tp_segments t) (tp_retired t)
  n (tp_consumers t) (tp_offsets t) (tp_stats t) (tp_disk t) (tp_stray t).
Definition set_retired r t := mkTopic (tp_max_segment_bytes t) (tp_segments t) r
  (tp_next t) (tp_consumers t) (tp_offsets t) (tp_stats t) (tp_disk t) (tp_stray t).
Definition set_consumers c t := mkTopic (tp_max_segment_bytes t) (tp_segments t) (tp_retired t)
  (tp_next t) c (tp_offsets t) (tp_stats t) (tp_disk t) (tp_stray t).
Definition set_offsets (o : Off) t := mkTopic (tp_max_segment_bytes t) (tp_segments t) (tp_retired t)
  (tp_next t) (tp_consumers t) o (tp_stats t) (tp_disk t) (tp_stray t).
Definition set_stray l t := mkTopic (tp_max_segment_bytes t) (tp_segments t) (tp_retired t)
  (tp_next t) (tp_consumers t) (tp_offsets t) (tp_stats t) (tp_disk t) l.

(** ** [Topic] *)
(** [self.segments.last().unwrap()]. *)
Definition active_segment t : option Segment := last (tp_segments t).
Definition update_active (f : Segment → Segment) t : Topic Off :=
  match active_segment t with
  | Some s => set_segments (removelast (tp_segments t) ++ [f s]) t
  | None => t
  end.

(** [create_segment] and the writer opened on it. *)
Definition create_segment (base : Z) t : Topic Off * io Segment :=
  if existsb (λ p, (p.1 =? base)%Z) (tp_stray t) then (t, Err AlreadyExists) else
  let '(file, disk, r) := write_all magic_bytes [] (tp_disk t) in
  let t := set_disk disk t in
  match r with
  | Ok _ => (t, Ok (mkSegment base base (Z.of_nat HEADER_SIZE) file false))
  | Err e => (set_stray ((base, file) :: tp_stray t) t, Err e)
  | Panic => (t, Panic)
  end.

(** [Topic::compact]: drop the leading segments every consumer has committed past. *)
Definition min_committed (cs : gmap rstring ConsumerState) : option Z :=
  foldr (λ p acc, Some (match acc with
                        | Some m => Z.min (committed p.2) m
                        | None => committed p.2
                        end)) None (map_to_list cs).
Fixpoint take_while_committed (through : Z) (segs : list Segment) : nat :=
  match segs with
  | s :: segs => if (end_offset s <=? through)%Z then S (take_while_committed through segs) else 0
  | [] => 0
  end.
Definition zsum (l : list Z) : Z := foldr Z.add 0%Z l.
Definition mark_deleted s : Segment :=
  mkSegment (base_offset s) (end_offset s) (byte_len s) (seg_file s) true.
Definition topic_compact t : step unit :=
  match min_committed (tp_consumers t) with
  | None => (t, Ok tt)
  | Some through =>
      let removable := take_while_committed through (removelast (tp_segments t)) in
      if (removable =? 0)%nat then (t, Ok tt) else
      let removed := take removable (tp_segments t) in
      let kept := drop removable (tp_segments t) in
      let st := tp_stats t in
      let t := set_retired (tp_retired t ++ map mark_deleted removed) (set_segments kept t) in
      match kept with
      | s0 :: _ =>
          (set_stats (mkStats (base_offset s0) (next_offset st)
            (records st - zsum (map record_count removed))
            (retained_bytes st - zsum (map byte_len removed))) t, Ok tt)
      | [] => (t, Panic)
      end
  end.

Definition rotate_segment t : step unit :=
  let '(t, r) := create_segment (next_offset (tp_stats t)) t in
  match r with
  | Ok s =>
      let st := tp_stats t in
      let t := set_stats (mkStats (earliest_offset st) (next_offset st) (records st)
                            (retained_bytes st + Z.of_nat HEADER_SIZE)) t in
      topic_compact (set_segments (tp_segments t ++ [s]) t)
  | Err e => (t, Err e)
  | Panic => (t, Panic)
  end.

(** The body of [append], on the encoded record. *)
Definition write_active (bs : list Z) t : step unit :=
  match active_segment t with
  | None => (t, Panic)
  | Some s =>
      let '(file, disk, r) := write_all bs (seg_file s) (tp_disk t) in
      (update_active (λ s, mkSegment (base_offset s) (end_offset s) (byte_len s) file
         (delete_on_drop s)) (set_disk disk t), r)
  end.
Definition record_appended (record_size : Z) t : step Z :=
  let st := tp_stats t in
  let offset := next_offset st in
  let t := update_active (λ s, mkSegment (base_offset s) (offset + 1)
             (byte_len s + record_size) (seg_file s) (delete_on_drop s)) t in
  let t := set_stats (mkStats (earliest_offset st) (offset + 1) (records st + 1)
             (retained_bytes st + record_size)) t in
  (set_next (offset + 1)%Z t, Ok offset).
Definition append_record (bs : list Z) t : step Z :=
  let '(t, r) := write_active (to_le_bytes 4 (Z.of_nat (length bs) mod 2 ^ 32)) t in
  match r with
  | Ok _ =>
      let '(t, r) := write_active bs t in
      match r with
      | Ok _ => record_appended (4 + Z.of_nat (length bs)) t
      | Err e => (t, Err e) | Panic => (t, Panic)
      end
  | Err e => (t, Err e) | Panic => (t, Panic)
  end.
Definition append (v : T) t : step Z :=
  match serialize_to_vec v with
  | Err e => (t, Err e)
  | Panic => (t, Panic)
  | Ok bs =>
      let record_size := (4 + Z.of_nat (length bs))%Z in
      match active_segment t with
      | None => (t, Panic)
      | Some s =>
          let '(t, r) :=
            if negb (record_count s =? 0)%Z &&
               (tp_max_segment_bytes t <? byte_len s + record_size)%Z
            then rotate_segment t else (t, Ok tt) in
          match r with
          | Ok _ => append_record bs t
          | Err e => (t, Err e) | Panic => (t, Panic)
          end
      end
  end.

(** [consumer]: register the name at the tail when first seen. *)
Definition consumer (name : rstring) t : step TopicConsumer :=
  let '(t, r) :=
    match tp_consumers t !! name with
    | Some st => (t, Ok st)
    | None =>
        let offset := tp_next t in
        let '(o, r) := put name offset (tp_offsets t) in
        let t := set_offsets o t in
        match r with
        | Ok _ =>
            let st := mkConsumer offset offset false in
            (set_consumers (<[name := st]> (tp_consumers t)) t, Ok st)
        | Err e => (t, Err e) | Panic => (t, Panic)
        end
    end in
  match r with
  | Ok st =>
      let t := set_consumers (<[name := mkConsumer (committed st) (volatile st) true]>
                                (tp_consumers t)) t in
      if reader_active st then (t, Err AlreadyExists) else (t, Ok (mkHandle name None))
  | Err e => (t, Err e) | Panic => (t, Panic)
  end.

(** ** Lifecycle *)
Definition create (max_segment_bytes : Z) (offsets : Off) (disk : nat) : io (Topic Off) :=
  let t := mkTopic max_segment_bytes [] [] 0 ∅ offsets (mkStats 0 0 0 (Z.of_nat HEADER_SIZE)) disk [] in
  let '(t, r) := create_segment 0 t in
  s <-? r ;; Ok (set_segments [s] t).

(** [open], on the files of the directory and the offsets backend; the
    active file is truncated after its last whole record. *)
Fixpoint open_segments (active_end : Z) (active_len : nat) (files : list (Z * list Z)) :
    io (list Segment) :=
  match files with
  | [] => Ok []
  | [(base, file)] =>
      Ok [mkSegment base active_end (Z.of_nat active_len) (take active_len file) false]
  | (base, file) :: (((next, _) :: _) as files) =>
      _ <-? check_segment_magic file ;;
      rest <-? open_segments active_end active_len files ;;
      Ok (mkSegment base next (Z.of_nat (length file)) file false :: rest)
  end.
Definition open_topic (max_segment_bytes : Z) (dir : list (Z * list Z)) (offsets : Off)
    (disk : nat) : io (Topic Off) :=
  let files := list_segments dir in
  match last files with
  | None => Panic
  | Some (active_base, active_file) =>
      r <-? scan_active_segment active_file active_base ;;
      let '(active_end, active_len, _) := r in
      segments <-? open_segments active_end active_len files ;;
      match head segments, last segments with
      | Some s0, Some sn =>
          let bytes := zsum (map byte_len segments) in
          let consumers := list_to_map (map (λ p, (p.1, mkConsumer p.2 p.2 false)) (entries offsets)) in
          Ok (mkTopic max_segment_bytes segments [] (end_offset sn) consumers offsets
            (mkStats (base_offset s0) (end_offset sn) (end_offset sn - base_offset s0) bytes) disk [])
      | _, _ => Panic
      end
  end.

(** ** [TopicConsumer] *)
Definition consumer_state h t : option ConsumerState := tp_consumers t !! tc_name h.
Definition set_volatile h (v : Z) t : Topic Off :=
  match consumer_state h t with
  | Some st => set_consumers (<[tc_name h := mkConsumer (committed st) v (reader_active st)]>
                                (tp_consumers t)) t
  | None => t
  end.

Definition commit h t : step unit :=
  match consumer_state h t with
  | None => (t, Panic)
  | Some st =>
      let '(o, r) := put (tc_name h) (volatile st) (tp_offsets t) in
      let t := set_offsets o t in
      match r with
      | Ok _ => (set_consumers (<[tc_name h := mkConsumer (volatile st) (volatile st)
                   (reader_active st)]> (tp_consumers t)) t, Ok tt)
      | Err e => (t, Err e) | Panic => (t, Panic)
      end
  end.
Definition seek (offset : Z) h t : Topic Off * TopicConsumer :=
  (set_volatile h offset t, mkHandle (tc_name h) None).
Definition reset h t : Topic Off * TopicConsumer :=
  (match consumer_state h t with Some st => set_volatile h (committed st) t | None => t end,
   mkHandle (tc_name h) None).
(** [Drop for TopicConsumer]. *)
Definition drop_consumer h t : Topic Off :=
  match consumer_state h t with
  | Some st => set_consumers (<[tc_name h := mkConsumer (committed st) (committed st) false]>
                                (tp_consumers t)) t
  | None => t
  end.
(** [delete] consumes the handle: a failure drops it. *)
Definition delete_consumer h t : step unit :=
  let '(o, r) := delete (tc_name h) (tp_offsets t) in
  let t := set_offsets o t in
  match r with
  | Ok _ => (set_consumers (base.delete (tc_name h) (tp_consumers t)) t, Ok tt)
  | Err e => (drop_consumer h t, Err e) | Panic => (t, Panic)
  end.

Definition holds (offset : Z) s : bool :=
  (base_offset s <=? offset)%Z && (offset <? end_offset s)%Z.
(** Skip [n] records from byte [pos]. *)
Fixpoint skip_records (n : nat) (file : list Z) (pos : nat) : io nat :=
  match n with
  | O => Ok pos
  | S n =>
      match read_exact file pos 4 with
      | (_, Ok size) => skip_records n file (pos + (4 + Z.to_nat (from_le_bytes size)))
      | (_, Err e) => Err e | (_, Panic) => Panic
      end
  end.
Definition position h t : TopicConsumer * io bool :=
  match consumer_state h t with
  | None => (h, Panic)
  | Some st =>
      let offset := volatile st in
      if (tp_next t <=? offset)%Z then (h, Ok false) else
      match List.find (holds offset) (tp_segments t) with
      | None => (h, Panic)
      | Some s =>
          match skip_records (Z.to_nat (offset - base_offset s)) (seg_file s) HEADER_SIZE with
          | Ok pos => (mkHandle (tc_name h) (Some (mkCursor (base_offset s) pos offset)), Ok true)
          | Err e => (h, Err e) | Panic => (h, Panic)
          end
      end
  end.

(** The segment a cursor holds. *)
Definition cursor_segment (c : SegmentCursor) t : option Segment :=
  List.find (λ s, (base_offset s =? cur_base c)%Z) (tp_segments t ++ tp_retired t).
(** Read one record at the cursor. *)
Definition read_record (c : SegmentCursor) s h t : Topic Off * TopicConsumer * io T :=
  match read_exact (seg_file s) (cur_pos c) 4 with
  | (pos, Ok size) =>
      match read_exact (seg_file s) pos (Z.to_nat (from_le_bytes size)) with
      | (pos, Ok bs) =>
          match deserialize_from bs with
          | Ok v =>
              let l := (logical_offset c + 1)%Z in
              (set_volatile h l t, mkHandle (tc_name h) (Some (mkCursor (cur_base c) pos l)), Ok v)
          | r => (t, mkHandle (tc_name h) (Some (mkCursor (cur_base c) pos (logical_offset c))), r)
          end
      | (pos, Err e) => (t, mkHandle (tc_name h) (Some (mkCursor (cur_base c) pos (logical_offset c))), Err e)
      | (_, Panic) => (t, h, Panic)
      end
  | (pos, Err e) => (t, mkHandle (tc_name h) (Some (mkCursor (cur_base c) pos (logical_offset c))), Err e)
  | (_, Panic) => (t, h, Panic)
  end.
Inductive need := AtEnd | HasCursor | NeedsPosition.
Definition needs_position h t : need :=
  match tc_current h with
  | None => NeedsPosition
  | Some c =>
      match cursor_segment c t with
      | None => NeedsPosition
      | Some s =>
          if (logical_offset c <? end_offset s)%Z then HasCursor
          else if (tp_next t <=? logical_offset c)%Z then AtEnd
          else NeedsPosition
      end
  end.
(** [Iterator::next]. *)
Definition next h t : Topic Off * TopicConsumer * option (io T) :=
  let read h :=
    match tc_current h with
    | Some c =>
        match cursor_segment c t with
        | Some s => let '(t, h, r) := read_record c s h t in (t, h, Some r)
        | None => (t, h, Some Panic)
        end
    | None => (t, h, Some Panic)
    end in
  match needs_position h t with
  | AtEnd => (t, h, None)
  | HasCursor => read h
  | NeedsPosition =>
      match position (mkHandle (tc_name h) None) t with
      | (h, Ok true) => read h
      | (h, Ok false) => (t, h, None)
      | (h, Err e) => (t, h, Some (Err e))
      | (h, Panic) => (t, h, Some Panic)
      end
  end.
(** [Topic::flush] and [sync]: the operating system holds the appended bytes
    already; what is written back is the offsets backend. *)
Definition topic_flush `{Durable Off} t : step unit :=
  let '(o, r) := flush (tp_offsets t) in (set_offsets o t, r).
Definition topic_sync `{Durable Off} t : step unit :=
  let '(o, r) := sync (tp_offsets t) in (set_offsets o t, r).
(** Drive the iterator: the records up to the end or the first error. *)
Fixpoint drain (fuel : nat) h t : Topic Off * TopicConsumer * io (list T) :=
  match fuel with
  | O => (t, h, Ok [])
  | S fuel =>
      match next h t with
      | (t, h, None) => (t, h, Ok [])
      | (t, h, Some (Ok v)) =>
          let '(t, h, r) := drain fuel h t in (t, h, rmap (cons v) r)
      | (t, h, Some (Err e)) => (t, h, Err e)
      | (t, h, Some Panic) => (t, h, Panic)
      end
  end.
End Topic.
End Topic.
