(* ===== verification/TopicLog.v ===== *)
(** * The log of a topic: invariant, appends, reads and recovery

    [Topic.v] translates the code; here the abstract state of a topic is its
    log, the list of the records retained, the first one at offset
    [earliest_offset].  [topic_wf t log] says the files and counters of [t]
    represent [log]: closed segments first, each non-empty and ending where the
    next begins, then the active one; every file is the magic number and the
    frames of its records. *)
From stdpp Require Import base numbers option gmap sorting list.
From S2P Require Import Prelude Bytes Order BTreeMap Backend Serdes Topic.
Import Topic.

Section Log.
Context {T Off : Type} `{Cd : Codec T} `{Bk : Backend Off rstring Z}.
Implicit Types (t : Topic Off) (h : TopicConsumer) (s : Segment) (v : T) (vs log : list T).

Definition frame v : list Z :=
  to_le_bytes 4 (Z.of_nat (length (encoded v))) ++ encoded v.
Definition frames vs : list Z := concat (map frame vs).
(** What the log stores: values the codec round-trips, whose length fits
    the 32-bit prefix. *)
Definition storable v : Prop := codec_ok v ∧ (Z.of_nat (length (encoded v)) < 2 ^ 32)%Z.

Definition seg_ok s vs : Prop :=
  Forall storable vs ∧ seg_file s = magic_bytes ++ frames vs ∧
  byte_len s = Z.of_nat (length (seg_file s)) ∧
  end_offset s = (base_offset s + Z.of_nat (length vs))%Z.
Inductive closed : Z → list Segment → list T → Z → Prop :=
  | closed_nil from : closed from [] [] from
  | closed_cons s vs segs log to : seg_ok s vs → vs ≠ [] →
      closed (end_offset s) segs log to → closed (base_offset s) (s :: segs) (vs ++ log) to.

Record topic_wf t log : Prop := {
  tw_segs : ∃ pre act plog avs, tp_segments t = pre ++ [act] ∧ log = plog ++ avs ∧
    closed (earliest_offset (tp_stats t)) pre plog (base_offset act) ∧ seg_ok act avs ∧
    end_offset act = next_offset (tp_stats t);
  tw_next : tp_next t = next_offset (tp_stats t);
  tw_records : records (tp_stats t) = Z.of_nat (length log);
  tw_bytes : retained_bytes (tp_stats t) = zsum (map byte_len (tp_segments t));
  tw_retired : Forall (λ s, base_offset s < end_offset s ≤ earliest_offset (tp_stats t))%Z
                 (tp_retired t);
  tw_stray : tp_stray t = [];
}.

(** ** Frames *)
Lemma frames_app vs vs' : frames (vs ++ vs') = frames vs ++ frames vs'.
Proof. unfold frames. by rewrite map_app, concat_app. Qed.
Lemma frame_length v : length (frame v) = 4 + length (encoded v).
Proof. unfold frame. rewrite length_app. by unfold to_le_bytes; rewrite to_digits_length. Qed.
Lemma magic_length : length magic_bytes = 4.
Proof. done. Qed.
Lemma size_roundtrip v : storable v →
  from_le_bytes (to_le_bytes 4 (Z.of_nat (length (encoded v)))) = Z.of_nat (length (encoded v)).
Proof. intros [_ Hl]. apply le_roundtrip. change (256 ^ Z.of_nat 4)%Z with (2 ^ 32)%Z. lia. Qed.

Lemma slice_mid a b c n : n = length b → slice (a ++ b ++ c) (length a) n = Some b.
Proof.
  intros ->. unfold slice. rewrite !length_app.
  destruct (Nat.leb_spec (length a + length b) (length a + (length b + length c))); [|lia].
  by rewrite drop_app_length, take_app_length.
Qed.
Lemma slice_short (b : list Z) pos n : length b < pos + n → slice b pos n = None.
Proof. intros Hl. unfold slice. destruct (Nat.leb_spec (pos + n) (length b)); [lia|done]. Qed.
(** The two reads of one frame. *)
Lemma read_size pre v rest : storable v →
  read_exact (pre ++ frame v ++ rest) (length pre) 4 =
  (length pre + 4, Ok (to_le_bytes 4 (Z.of_nat (length (encoded v))))).
Proof.
  intros Hv. unfold read_exact, frame. rewrite <- app_assoc, slice_mid; [done|].
  symmetry. apply to_digits_length.
Qed.
Lemma read_body pre v rest :
  read_exact (pre ++ frame v ++ rest) (length pre + 4) (length (encoded v)) =
  (length pre + 4 + length (encoded v), Ok (encoded v)).
Proof.
  unfold read_exact, frame. rewrite <- app_assoc, app_assoc.
  assert (length pre + 4 = length (pre ++ to_le_bytes 4 (Z.of_nat (length (encoded v))))) as ->.
  { unfold to_le_bytes. by rewrite length_app, to_digits_length. }
  by rewrite slice_mid.
Qed.

(** ** Scanning a file *)
Definition torn (bs : list Z) : Prop :=
  length bs < 4 ∨ ∃ size rest, bs = size ++ rest ∧ length size = 4 ∧
    (Z.of_nat (length rest) < from_le_bytes size)%Z.
Lemma torn_nil : torn [].
Proof. left. simpl. lia. Qed.

Lemma scan_torn fuel pre bs n : torn bs →
  scan_loop fuel (pre ++ bs) n (length pre) = Ok (n, length pre).
Proof.
  intros Ht. destruct fuel as [|fuel]; [done|]. cbn [scan_loop]. rewrite length_app.
  destruct (Nat.leb_spec (length pre + 4) (length pre + length bs)) as [Hl|]; [|done].
  destruct Ht as [?|(size & rest & -> & Hs & Hlt)]; [lia|].
  unfold read_exact. rewrite slice_mid by done. rewrite length_app in *.
  destruct (Nat.leb_spec (length pre + 4 + Z.to_nat (from_le_bytes size))
    (length pre + (length size + length rest))); [lia|done].
Qed.
Lemma scan_frames fuel pre vs bs n : Forall storable vs → torn bs → length vs ≤ fuel →
  scan_loop fuel (pre ++ frames vs ++ bs) n (length pre) =
  Ok ((n + Z.of_nat (length vs))%Z, length (pre ++ frames vs)).
Proof.
  revert pre vs n. induction fuel as [|fuel IH]; intros pre vs n Hv Ht Hf.
  { destruct vs; [|simpl in Hf; lia]. simpl. by rewrite app_nil_r, Z.add_0_r. }
  destruct Hv as [|v vs Hv Hvs].
  { simpl length at 2. rewrite (scan_torn (S fuel)) by done. unfold frames. simpl.
    by rewrite app_nil_r, Z.add_0_r. }
  cbn [scan_loop]. change (frames (v :: vs)) with (frame v ++ frames vs). rewrite <- app_assoc.
  rewrite !length_app, frame_length.
  destruct (Nat.leb_spec (length pre + 4)
    (length pre + (4 + length (encoded v) + (length (frames vs) + length bs)))); [|lia].
  rewrite read_size, size_roundtrip, Nat2Z.id by done.
  destruct (Nat.leb_spec (length pre + 4 + length (encoded v))
    (length pre + (4 + length (encoded v) + (length (frames vs) + length bs)))); [|lia].
  rewrite app_assoc.
  replace (length pre + 4 + length (encoded v)) with (length (pre ++ frame v))
    by (rewrite length_app, frame_length; lia).
  rewrite IH by (done || simpl in Hf; lia). f_equal. f_equal; [simpl length; lia|].
  rewrite !length_app, frame_length. lia.
Qed.
Lemma frames_length vs : length vs ≤ length (frames vs).
Proof.
  induction vs as [|v vs IH]; [done|]. change (frames (v :: vs)) with (frame v ++ frames vs).
  rewrite length_app, frame_length. simpl. lia.
Qed.
Lemma check_magic_ok rest : check_segment_magic (magic_bytes ++ rest) = Ok tt.
Proof. done. Qed.
Lemma scan_active_ok vs bs base : Forall storable vs → torn bs →
  scan_active_segment (magic_bytes ++ frames vs ++ bs) base =
  Ok ((base + Z.of_nat (length vs))%Z, length (magic_bytes ++ frames vs),
      length (magic_bytes ++ frames vs ++ bs)).
Proof.
  intros Hv Ht. unfold scan_active_segment. rewrite check_magic_ok. cbn [rbind].
  change HEADER_SIZE with (length magic_bytes).
  rewrite scan_frames; [|done|done|].
  - cbn [rbind fst snd]. by rewrite Z.add_0_l.
  - rewrite !length_app. pose proof (frames_length vs). lia.
Qed.

(** ** Closed prefixes *)
Lemma closed_to from segs log to : closed from segs log to →
  to = (from + Z.of_nat (length log))%Z.
Proof.
  induction 1 as [|s vs segs log to Hs Hne Hc IH]; [simpl; lia|].
  destruct Hs as (_ & _ & _ & He). rewrite length_app. lia.
Qed.
Lemma closed_snoc from segs log s vs : closed from segs log (base_offset s) → seg_ok s vs →
  vs ≠ [] → closed from (segs ++ [s]) (log ++ vs) (end_offset s).
Proof.
  intros Hc Hs Hne. remember (base_offset s) as b eqn:Eb.
  induction Hc as [from|s' vs' segs log to Hs' Hne' Hc IH]; subst; simpl.
  - rewrite <- (app_nil_r vs). constructor; [done|done|constructor].
  - rewrite <- app_assoc. constructor; [done|done|]. by apply IH.
Qed.
Lemma closed_drop from segs log to n : closed from segs log to → n ≤ length segs →
  ∃ k, closed (from + Z.of_nat k) (drop n segs) (drop k log) to ∧ k ≤ length log ∧
       zsum (map record_count (take n segs)) = Z.of_nat k ∧
       Forall (λ s, base_offset s < end_offset s ≤ from + Z.of_nat k)%Z (take n segs) ∧
       (n = 0 → k = 0) ∧
       (∀ s, last (take n segs) = Some s → end_offset s = from + Z.of_nat k)%Z.
Proof.
  intros Hc. revert n. induction Hc as [from|s vs segs log to Hs Hne Hc IH]; intros n Hn.
  { exists 0. simpl in Hn. assert (n = 0) as -> by lia. rewrite Z.add_0_r.
    split_and!; try done; constructor. }
  destruct n as [|n].
  { exists 0. rewrite Z.add_0_r. split_and!; try done; [by constructor|simpl; lia]. }
  destruct (IH n) as (k & Hk & Hkl & Hz & Hf & Hk0 & Hlast); [simpl in Hn; lia|].
  pose proof Hs as (_ & _ & _ & He). exists (length vs + k).
  assert (base_offset s < end_offset s)%Z by (destruct vs; [done|simpl in He; lia]).
  replace (base_offset s + Z.of_nat (length vs + k))%Z with (end_offset s + Z.of_nat k)%Z by lia.
  split_and!.
  - rewrite drop_app_add. done.
  - rewrite length_app. lia.
  - unfold zsum in *. cbn [take map foldr]. rewrite Hz. unfold record_count. lia.
  - simpl. constructor; [lia|done].
  - done.
  - intros s'. simpl take. destruct (take n segs) eqn:E.
    + intros [= <-]. destruct n; [rewrite Hk0 by done; lia|].
      destruct segs; [simpl in Hn; lia|done].
    + rewrite last_cons_cons. apply Hlast.
Qed.
Lemma closed_bases from segs log to s : closed from segs log to → s ∈ segs →
  (from ≤ base_offset s < to)%Z ∧ ∃ vs, seg_ok s vs.
Proof.
  induction 1 as [|s' vs segs log to Hs Hne Hc IH]; intros Hin; [by apply elem_of_nil in Hin|].
  pose proof Hs as (_ & _ & _ & He).
  assert (base_offset s' < end_offset s')%Z by (destruct vs; [done|simpl in He; lia]).
  pose proof (closed_to _ _ _ _ Hc).
  apply elem_of_cons in Hin as [->|Hin]; [split; [lia|eauto]|].
  destruct (IH Hin) as [? ?]. split; [lia|done].
Qed.
(** The segment that holds an offset, and where its records are in the log. *)
Definition located (from : Z) log s vs : Prop :=
  ∀ off, (base_offset s ≤ off < end_offset s)%Z →
    vs !! Z.to_nat (off - base_offset s) = log !! Z.to_nat (off - from).
Lemma closed_find from segs log to off : closed from segs log to → (from ≤ off < to)%Z →
  ∃ s vs, List.find (holds off) segs = Some s ∧ s ∈ segs ∧ seg_ok s vs ∧
    (base_offset s ≤ off < end_offset s)%Z ∧ (end_offset s ≤ to)%Z ∧ located from log s vs.
Proof.
  induction 1 as [|s vs segs log to Hs Hne Hc IH]; intros Hoff; [lia|].
  pose proof Hs as (_ & _ & _ & He). simpl. unfold holds at 1.
  pose proof (closed_to _ _ _ _ Hc).
  destruct (Z.leb_spec (base_offset s) off); [|lia]. simpl.
  destruct (Z.ltb_spec off (end_offset s)) as [Hlt|Hge].
  - exists s, vs. split_and!; [done|by left|done|lia|lia|lia|].
    intros i Hi. rewrite lookup_app_l by lia. done.
  - destruct IH as (s' & vs' & Hf & Hin & Hs' & Hb & Hto & Hl); [lia|].
    destruct (closed_bases _ _ _ _ s' Hc Hin) as [Hb' _].
    exists s', vs'. split_and!; [done|by right|done|lia|lia|lia|].
    intros i Hi. rewrite (Hl i) by done. rewrite lookup_app_r by lia. f_equal. lia.
Qed.
Lemma closed_by_base from segs log to s rest : closed from segs log to → s ∈ segs →
  List.find (λ s', base_offset s' =? base_offset s)%Z (segs ++ rest) = Some s.
Proof.
  induction 1 as [|s' vs segs log to Hs Hne Hc IH]; intros Hin; [by apply elem_of_nil in Hin|].
  pose proof Hs as (_ & _ & _ & He).
  assert (base_offset s' < end_offset s')%Z by (destruct vs; [done|simpl in He; lia]).
  simpl. apply elem_of_cons in Hin as [->|Hin]; [by rewrite Z.eqb_refl|].
  destruct (closed_bases _ _ _ _ _ Hc Hin) as [? _].
  destruct (Z.eqb_spec (base_offset s') (base_offset s)); [lia|]. by apply IH.
Qed.
End Log.
