(* ===== verification/TopicLaws.v ===== *)
(** * Topics: appends, compaction, reads and recovery

    The theorems about [zendb-storage/src/topic.rs], on the log of
    [TopicLog.v]. *)
From stdpp Require Import base numbers option gmap sorting list.
From S2P Require Import Prelude Bytes Order BTreeMap Backend Serdes Topic TopicLog.
Import Topic.

Section Laws.
Context {T Off : Type} `{Cd : Codec T} `{Bk : Backend Off rstring Z}.
Implicit Types (t : Topic Off) (h : TopicConsumer) (s : Segment) (v : T) (vs log : list T).

(** ** Appending *)
Lemma active_snoc t pre act : tp_segments t = pre ++ [act] → active_segment t = Some act.
Proof using Type. unfold active_segment. intros ->. by rewrite last_snoc. Qed.
Lemma update_active_snoc f t pre act : tp_segments t = pre ++ [act] →
  update_active f t = set_segments (pre ++ [f act]) t.
Proof using Type.
  intros E. unfold update_active. rewrite (active_snoc _ _ _ E), E. by rewrite removelast_last.
Qed.
Definition add_bytes (bs : list Z) s : Segment :=
  mkSegment (base_offset s) (end_offset s) (byte_len s) (seg_file s ++ bs) (delete_on_drop s).
Lemma write_active_ok bs t pre act : tp_segments t = pre ++ [act] → length bs ≤ tp_disk t →
  write_active bs t =
  (set_segments (pre ++ [add_bytes bs act]) (set_disk (tp_disk t - length bs) t), Ok tt).
Proof using Type.
  intros E Hd. unfold write_active. rewrite (active_snoc _ _ _ E). unfold write_all.
  destruct (Nat.leb_spec (length bs) (tp_disk t)); [|lia].
  by rewrite (update_active_snoc _ _ pre act).
Qed.
Lemma zsum_app l l' : zsum (l ++ l') = (zsum l + zsum l')%Z.
Proof using Type. unfold zsum. induction l as [|z l IH]; [done|]. cbn [app foldr]. rewrite IH. lia. Qed.

(** What an append changes beside the log. *)
Definition same_readers t t' : Prop :=
  tp_consumers t' = tp_consumers t ∧ tp_offsets t' = tp_offsets t ∧
  tp_max_segment_bytes t' = tp_max_segment_bytes t.
Lemma append_record_ok v t log : topic_wf t log → storable v → 4 + length (encoded v) ≤ tp_disk t →
  let (t', r) := append_record (encoded v) t in
  r = Ok (tp_next t) ∧ topic_wf t' (log ++ [v]) ∧ tp_next t' = (tp_next t + 1)%Z ∧
  earliest_offset (tp_stats t') = earliest_offset (tp_stats t) ∧ same_readers t t' ∧
  tp_disk t' = tp_disk t - (4 + length (encoded v)).
Proof using Type.
  intros [(pre & act & plog & avs & E & -> & Hc & Hs & He) Hn Hr Hb Hret Hstray] Hv Hd.
  unfold append_record. rewrite Z.mod_small by (split; [lia|apply Hv]).
  remember (to_le_bytes 4 (Z.of_nat (length (encoded v)))) as hd eqn:Ehd.
  assert (length hd = 4) as Hhd by (subst hd; apply to_digits_length).
  rewrite (write_active_ok hd t pre act) by (done || lia).
  rewrite (write_active_ok (encoded v) _ pre (add_bytes hd act)) by (done || simpl; lia).
  unfold record_appended. erewrite update_active_snoc by reflexivity.
  destruct Hs as (Hst & Hf & Hbl & Hend). cbn [tp_stats set_segments set_disk add_bytes].
  split_and!; [by rewrite Hn| |by rewrite Hn|done|done..|].
  - constructor; cbn.
    + eexists pre, _, plog, (avs ++ [v]). rewrite app_assoc. split_and!; [done..| |done].
      unfold seg_ok. cbn. split_and!.
      * apply Forall_app. split; [done|by constructor].
      * rewrite Hf, frames_app. unfold frames at 3. cbn [map concat].
        rewrite app_nil_r. unfold frame. rewrite <- Ehd. by rewrite <- !app_assoc.
      * rewrite Hbl, !length_app, Hhd. lia.
      * rewrite length_app. simpl. rewrite <- He, Hend. lia.
    + done.
    + rewrite !length_app in *. simpl. lia.
    + rewrite Hb, E, !map_app, !zsum_app. cbn. lia.
    + done.
    + done.
  - cbn. rewrite Hhd. lia.
Qed.

(** ** Compaction *)
Lemma min_committed_le (cs : gmap rstring ConsumerState) name st m :
  min_committed cs = Some m → cs !! name = Some st → (m ≤ committed st)%Z.
Proof using Type.
  intros Hm Hst. apply elem_of_map_to_list in Hst. unfold min_committed in Hm.
  revert m Hm. induction (map_to_list cs) as [|p l IH]; intros m Hm; [by apply elem_of_nil in Hst|].
  simpl in Hm. set (acc := foldr _ _ _) in *. injection Hm as <-.
  apply elem_of_cons in Hst as [<-|Hst]; simpl.
  - destruct acc; lia.
  - destruct acc as [a|] eqn:Ea; [specialize (IH Hst a eq_refl); lia|].
    destruct l as [|q l]; [by apply elem_of_nil in Hst|done].
Qed.
Lemma take_while_committed_spec through segs :
  take_while_committed through segs ≤ length segs ∧
  Forall (λ s, end_offset s ≤ through)%Z (take (take_while_committed through segs) segs).
Proof using Type.
  induction segs as [|s segs [IH1 IH2]]; simpl; [split; [lia|constructor]|].
  destruct (Z.leb_spec (end_offset s) through); simpl; [|split; [lia|constructor]].
  split; [lia|by constructor].
Qed.
Lemma closed_head from segs log to s : closed from segs log to → base_offset s = to →
  ∃ s0 rest, segs ++ [s] = s0 :: rest ∧ base_offset s0 = from.
Proof using Type.
  intros Hc Hs. destruct Hc as [from|s' vs segs log to ? ? ?]; [by eexists _, []|].
  by eexists _, _.
Qed.

(** A segment goes only when every consumer has committed past it. *)
Definition retention t t' : Prop :=
  earliest_offset (tp_stats t') = earliest_offset (tp_stats t) ∨
  ∀ name st, tp_consumers t !! name = Some st →
    (earliest_offset (tp_stats t') ≤ committed st)%Z.
Lemma compact_ok t log : topic_wf t log →
  let (t', r) := topic_compact t in r = Ok tt ∧
  ∃ k, k ≤ length log ∧ topic_wf t' (drop k log) ∧
    earliest_offset (tp_stats t') = (earliest_offset (tp_stats t) + Z.of_nat k)%Z ∧
    tp_next t' = tp_next t ∧ same_readers t t' ∧ tp_disk t' = tp_disk t ∧ retention t t'.
Proof using Type.
  intros Hwf. unfold topic_compact.
  assert (∃ k, k ≤ length log ∧ topic_wf t (drop k log) ∧
    earliest_offset (tp_stats t) = (earliest_offset (tp_stats t) + Z.of_nat k)%Z ∧
    tp_next t = tp_next t ∧ same_readers t t ∧ tp_disk t = tp_disk t ∧ retention t t) as Hid.
  { exists 0. rewrite Z.add_0_r. split_and!; try done; [lia|by left]. }
  destruct (min_committed (tp_consumers t)) as [through|] eqn:Em; [|done].
  destruct Hwf as [(pre & act & plog & avs & E & Elog & Hc & Hs & He) Hn Hr Hb Hret Hstray].
  rewrite E, removelast_last. set (n := take_while_committed through pre).
  destruct (take_while_committed_spec through pre) as [Hnl Hnt]. fold n in Hnl, Hnt.
  destruct (Nat.eqb_spec n 0) as [E0|Hpos]; [done|].
  destruct (closed_drop _ _ _ _ n Hc Hnl) as (k & Hck & Hkl & Hz & Hfr & _ & Hlast).
  rewrite take_app_le, drop_app_le by done.
  destruct (closed_head _ _ _ _ act Hck eq_refl) as (s0 & rest & Es0 & Hb0). rewrite Es0. rewrite <- Es0.
  split; [done|]. exists k. cbn. rewrite Elog.
  assert (earliest_offset (tp_stats t) + Z.of_nat k ≤ through)%Z as Hth.
  { destruct (last (take n pre)) as [s|] eqn:El.
    - rewrite <- (Hlast s eq_refl). rewrite Forall_forall in Hnt. apply Hnt.
      apply last_Some_elem_of. done.
    - apply last_None in El. apply (f_equal length) in El. rewrite length_take in El. simpl in El. lia. }
  split_and!; [rewrite length_app; lia| |done..|].
  - rewrite drop_app_le by done. constructor; cbn.
    + exists (drop n pre), act, (drop k plog), avs. by rewrite Hb0.
    + done.
    + rewrite Hr, Elog, Hz, !length_app, length_drop. lia.
    + rewrite Hb, E. rewrite <- (take_drop n pre) at 1. rewrite <- app_assoc, map_app, zsum_app. unfold zsum. lia.
    + apply Forall_app. rewrite Hb0. split.
      * eapply Forall_impl; [exact Hret|]. simpl. lia.
      * rewrite Forall_map. eapply Forall_impl; [exact Hfr|]. done.
    + done.
  - right. intros name st Hst. cbn. rewrite Hb0. pose proof (min_committed_le _ _ _ _ Em Hst). lia.
Qed.

Lemma rotate_ok t log act : topic_wf t log → active_segment t = Some act →
  record_count act ≠ 0%Z → 4 ≤ tp_disk t →
  let (t', r) := rotate_segment t in r = Ok tt ∧
  ∃ k, k ≤ length log ∧ topic_wf t' (drop k log) ∧
    earliest_offset (tp_stats t') = (earliest_offset (tp_stats t) + Z.of_nat k)%Z ∧
    tp_next t' = tp_next t ∧ same_readers t t' ∧ tp_disk t' = tp_disk t - 4 ∧ retention t t'.
Proof using Type.
  intros [(pre & act' & plog & avs & E & Elog & Hc & Hs & He) Hn Hr Hb Hret Hstray] Hact Hne Hd.
  rewrite (active_snoc _ _ _ E) in Hact. injection Hact as ->.
  unfold rotate_segment, create_segment, write_all. rewrite magic_length, Hstray.
  destruct (Nat.leb_spec 4 (tp_disk t)); [|lia]. cbn [existsb].
  set (s := mkSegment _ _ _ _ _). set (t1 := set_segments _ _).
  assert (topic_wf t1 log) as Hwf.
  { constructor; cbn; [|done|done|..].
    - exists (tp_segments t), s, log, []. rewrite app_nil_r.
      assert (closed (earliest_offset (tp_stats t)) (tp_segments t) log (next_offset (tp_stats t))) as Hc'.
      { rewrite E, Elog, <- He. apply closed_snoc; [done|done|].
        intros ->. destruct Hs as (_ & _ & _ & Hend). unfold record_count in Hne. simpl in Hend. lia. }
      split_and!; [done..| |done]. unfold seg_ok. cbn. rewrite Z.add_0_r. done.
    - rewrite Hb, map_app, zsum_app. done.
    - done.
    - done. }
  pose proof (compact_ok t1 log Hwf) as Hcomp. destruct (topic_compact t1) as [t' r].
  destruct Hcomp as (-> & k & H1' & H2' & H3' & H4' & H5' & H6' & H7'). split; [done|].
  exists k. done.
Qed.

(** ** Reading *)
Lemma find_app_l {A} (f : A → bool) l l' x : List.find f l = Some x → List.find f (l ++ l') = Some x.
Proof using Type.
  induction l as [|y l IH]; [done|]. simpl. by destruct (f y).
Qed.
(** The segment of an offset of the log; a cursor on it finds it again. *)
Lemma topic_find t log off : topic_wf t log →
  (earliest_offset (tp_stats t) ≤ off < tp_next t)%Z →
  ∃ s vs, List.find (holds off) (tp_segments t) = Some s ∧
    List.find (λ s', base_offset s' =? base_offset s)%Z (tp_segments t ++ tp_retired t) = Some s ∧
    seg_ok s vs ∧ (base_offset s ≤ off < end_offset s)%Z ∧ (end_offset s ≤ tp_next t)%Z ∧
    located (earliest_offset (tp_stats t)) log s vs.
Proof using Type.
  intros [(pre & act & plog & avs & E & Elog & Hc & Hs & He) Hn _ _ _ _] Hoff. rewrite E, Elog.
  destruct (decide (avs = [])) as [->|Hne].
  - pose proof Hs as (_ & _ & _ & Hend). simpl in Hend. rewrite app_nil_r.
    destruct (closed_find _ _ _ _ off Hc) as (s & vs & Hf & Hin & Hs' & Hb & Hto & Hl); [lia|].
    exists s, vs. split_and!; [by apply find_app_l| |done|lia|lia|lia|done].
    rewrite <- app_assoc. by eapply closed_by_base.
  - pose proof (closed_snoc _ _ _ _ _ Hc Hs Hne) as Hc'.
    destruct (closed_find _ _ _ _ off Hc') as (s & vs & Hf & Hin & Hs' & Hb & Hto & Hl); [lia|].
    exists s, vs. split_and!; [done| |done|lia|lia|lia|done]. by eapply closed_by_base.
Qed.

Lemma file_at vs k v : vs !! k = Some v → magic_bytes ++ frames vs =
  (magic_bytes ++ frames (take k vs)) ++ frame v ++ frames (drop (S k) vs).
Proof using Type.
  intros Hk. rewrite <- (take_drop_middle vs k v Hk) at 1. by rewrite frames_app, <- app_assoc.
Qed.
Definition record_pos vs (k : nat) : nat := length (magic_bytes ++ frames (take k vs)).
Lemma record_pos_S vs k v : vs !! k = Some v →
  record_pos vs (S k) = record_pos vs k + (4 + length (encoded v)).
Proof using Type.
  intros Hk. unfold record_pos. rewrite (take_S_r _ _ v) by done.
  rewrite !length_app, frames_app, length_app. unfold frames at 2. cbn [map concat].
  rewrite app_nil_r, frame_length. lia.
Qed.
Lemma skip_records_ok n vs k : Forall storable vs → k + n ≤ length vs →
  skip_records n (magic_bytes ++ frames vs) (record_pos vs k) = Ok (record_pos vs (k + n)).
Proof using Type.
  intros Hst. revert k. induction n as [|n IH]; intros k Hk; cbn [skip_records].
  { by rewrite Nat.add_0_r. }
  destruct (lookup_lt_is_Some_2 vs k) as [v Hv]; [lia|].
  assert (storable v) as Hsv by (rewrite Forall_lookup in Hst; eauto).
  rewrite (file_at _ _ _ Hv). unfold record_pos at 1. rewrite read_size by done.
  rewrite <- (file_at _ _ _ Hv). rewrite size_roundtrip, Nat2Z.id by done.
  rewrite <- (record_pos_S _ _ _ Hv). rewrite IH by lia. f_equal. f_equal. lia.
Qed.

Definition cursor_at (c : SegmentCursor) s vs : Prop :=
  cur_base c = base_offset s ∧ (base_offset s ≤ logical_offset c ≤ end_offset s)%Z ∧
  cur_pos c = record_pos vs (Z.to_nat (logical_offset c - base_offset s)).
Lemma read_record_ok c s vs v h t : seg_ok s vs → cursor_at c s vs →
  vs !! Z.to_nat (logical_offset c - base_offset s) = Some v →
  ∃ c', read_record c s h t =
    (set_volatile h (logical_offset c + 1) t, mkHandle (tc_name h) (Some c'), Ok v) ∧
    cursor_at c' s vs ∧ logical_offset c' = (logical_offset c + 1)%Z.
Proof using Type.
  intros (Hst & Hf & _ & Hend) (Hb & Hl & Hp) Hv. unfold read_record.
  assert (storable v) as Hsv by (rewrite Forall_lookup in Hst; eauto).
  pose proof (lookup_lt_Some _ _ _ Hv) as Hlt.
  rewrite Hf, (file_at _ _ _ Hv), Hp. unfold record_pos at 1.
  rewrite read_size, size_roundtrip, Nat2Z.id, read_body by done.
  rewrite codec_ok_decode by apply Hsv. eexists. split; [done|]. split; [|done].
  unfold cursor_at. cbn [cur_base logical_offset cur_pos]. split_and!; [done|lia|lia|].
  replace (Z.to_nat (logical_offset c + 1 - base_offset s))
    with (S (Z.to_nat (logical_offset c - base_offset s))) by lia.
  rewrite (record_pos_S _ _ _ Hv). unfold record_pos. lia.
Qed.

(** A consumer whose cursor, if it has one, stands at its volatile offset. *)
Definition reader_ok t log h (st : ConsumerState) : Prop :=
  consumer_state h t = Some st ∧ (earliest_offset (tp_stats t) ≤ volatile st)%Z ∧
  match tc_current h with
  | None => True
  | Some c => logical_offset c = volatile st ∧ ∃ s vs, cursor_segment c t = Some s ∧
      seg_ok s vs ∧ cursor_at c s vs ∧ (end_offset s ≤ tp_next t)%Z ∧
      located (earliest_offset (tp_stats t)) log s vs
  end.
Definition advanced (st : ConsumerState) : ConsumerState :=
  mkConsumer (committed st) (volatile st + 1) (reader_active st).
Lemma topic_wf_consumers cs t log : topic_wf t log → topic_wf (set_consumers cs t) log.
Proof using Type. intros [? ? ? ? ? ?]. by constructor. Qed.
Lemma set_volatile_state h (v : Z) t st h' : consumer_state h t = Some st → tc_name h' = tc_name h →
  consumer_state h' (set_volatile h v t) = Some (mkConsumer (committed st) v (reader_active st)).
Proof using Type.
  intros Hst Hn. unfold set_volatile. rewrite Hst. unfold consumer_state. rewrite Hn. cbn.
  by rewrite lookup_insert_eq.
Qed.
Lemma set_volatile_eq h (v : Z) t st : consumer_state h t = Some st →
  set_volatile h v t = set_consumers (<[tc_name h := mkConsumer (committed st) v (reader_active st)]>
    (tp_consumers t)) t.
Proof using Type. unfold set_volatile. by intros ->. Qed.

Lemma position_ok t log h st : topic_wf t log → reader_ok t log h st →
  if (tp_next t <=? volatile st)%Z then position h t = (h, Ok false)
  else ∃ c, position h t = (mkHandle (tc_name h) (Some c), Ok true) ∧
    reader_ok t log (mkHandle (tc_name h) (Some c)) st ∧
    ∃ s, cursor_segment c t = Some s ∧ (logical_offset c < end_offset s)%Z.
Proof using Type.
  intros Hwf (Hst & Hlo & _). unfold position. rewrite Hst.
  destruct (Z.leb_spec (tp_next t) (volatile st)) as [|Hlt]; [done|].
  destruct (topic_find t log (volatile st) Hwf) as (s & vs & Hf & Hfb & Hs & Hb & Hto & Hl); [lia|].
  rewrite Hf. destruct Hs as (Hsto & Hfile & Hbl & Hend). rewrite Hfile.
  change HEADER_SIZE with (record_pos vs 0). rewrite skip_records_ok by (done || lia).
  cbn [Nat.add]. eexists. split; [done|]. split; [|exists s; split; [done|cbn; lia]].
  split; [done|]. split; [done|]. split; [done|]. exists s, vs.
  split; [done|]. split; [done|]. split; [|by split].
  split; [done|]. split; [cbn; lia|done].
Qed.
Lemma read_step t log h c s st : topic_wf t log → reader_ok t log h st →
  tc_current h = Some c → cursor_segment c t = Some s → (logical_offset c < end_offset s)%Z →
  ∃ v h', log !! Z.to_nat (volatile st - earliest_offset (tp_stats t)) = Some v ∧
    read_record c s h t = (set_volatile h (volatile st + 1) t, h', Ok v) ∧
    tc_name h' = tc_name h ∧
    reader_ok (set_volatile h (volatile st + 1) t) log h' (advanced st).
Proof using Type.
  intros Hwf (Hst & Hlo & Hcur) Hc Hs Hlt. rewrite Hc in Hcur.
  destruct Hcur as (Hlog & s' & vs & Hs' & Hok & Hat & Hend & Hloc).
  rewrite Hs in Hs'. injection Hs' as <-.
  pose proof Hok as (_ & _ & _ & He). pose proof Hat as (_ & Hb & _).
  destruct (lookup_lt_is_Some_2 vs (Z.to_nat (logical_offset c - base_offset s))) as [v Hv]; [lia|].
  destruct (read_record_ok c s vs v h t Hok Hat Hv) as (c' & Hr & Hat' & Hl').
  exists v, (mkHandle (tc_name h) (Some c')). rewrite Hlog in *. split_and!; [|done|done|].
  - rewrite <- Hloc by lia. done.
  - split; [by apply set_volatile_state|]. rewrite (set_volatile_eq _ _ _ _ Hst). cbn. split; [lia|].
    split; [lia|]. exists s, vs. split_and!; try done.
    + destruct Hat as (Hcb & _), Hat' as (Hcb' & _). unfold cursor_segment in *. cbn.
      by rewrite Hcb', <- Hcb.
Qed.
Lemma next_ok t log h st : topic_wf t log → reader_ok t log h st →
  if (tp_next t <=? volatile st)%Z then ∃ h', next h t = (t, h', None) ∧ tc_name h' = tc_name h
  else ∃ v h', log !! Z.to_nat (volatile st - earliest_offset (tp_stats t)) = Some v ∧
    next h t = (set_volatile h (volatile st + 1) t, h', Some (Ok v)) ∧
    tc_name h' = tc_name h ∧
    reader_ok (set_volatile h (volatile st + 1) t) log h' (advanced st).
Proof using Type.
  intros Hwf Hr. pose proof (position_ok t log (mkHandle (tc_name h) None) st Hwf) as Hpos.
  assert (reader_ok t log (mkHandle (tc_name h) None) st) as Hr0
    by (destruct Hr as (? & ? & _); done).
  specialize (Hpos Hr0). unfold next, needs_position.
  assert (∀ h1, tc_name h1 = tc_name h → set_volatile h1 (volatile st + 1) t =
    set_volatile h (volatile st + 1) t) as Hname
    by (intros h1 Hn; unfold set_volatile, consumer_state; by rewrite Hn).
  destruct (tc_current h) as [c|] eqn:Ec.
  - pose proof Hr as (Hst & Hlo & Hcur). rewrite Ec in Hcur.
    destruct Hcur as (Hlog & s & vs & Hs & Hok & Hat & Hend & Hloc). rewrite Hs.
    destruct (Z.ltb_spec (logical_offset c) (end_offset s)) as [Hlt|Hge].
    + destruct (Z.leb_spec (tp_next t) (volatile st)); [lia|].
      destruct (read_step t log h c s st Hwf Hr Ec Hs Hlt) as (v & h' & Hv & Hrd & Hn & Hr').
      rewrite Hrd. by exists v, h'.
    + rewrite Hlog. destruct (Z.leb_spec (tp_next t) (volatile st)); [by exists h|].
      destruct Hpos as (c' & -> & Hr1 & s' & Hs' & Hlt'). cbn [tc_current]. rewrite Hs'.
      destruct (read_step t log _ c' s' st Hwf Hr1 eq_refl Hs' Hlt') as (v & h' & Hv & Hrd & Hn & Hr').
      rewrite Hrd. exists v, h'. rewrite Hname in * by done. done.
  - destruct (Z.leb_spec (tp_next t) (volatile st)).
    { rewrite Hpos. by eexists. }
    destruct Hpos as (c' & -> & Hr1 & s' & Hs' & Hlt'). cbn [tc_current]. rewrite Hs'.
    destruct (read_step t log _ c' s' st Hwf Hr1 eq_refl Hs' Hlt') as (v & h' & Hv & Hrd & Hn & Hr').
    rewrite Hrd. exists v, h'. rewrite Hname in * by done. done.
Qed.

Lemma topic_length t log : topic_wf t log →
  Z.of_nat (length log) = (tp_next t - earliest_offset (tp_stats t))%Z.
Proof using Type.
  intros [(pre & act & plog & avs & E & -> & Hc & (_ & _ & _ & Hs) & He) Hn _ _ _ _].
  pose proof (closed_to _ _ _ _ Hc). rewrite length_app. lia.
Qed.
Lemma set_volatile_id h t st : consumer_state h t = Some st → set_volatile h (volatile st) t = t.
Proof using Type.
  intros Hst. rewrite (set_volatile_eq _ _ _ _ Hst). destruct st; cbn.
  rewrite insert_id by done. by destruct t.
Qed.
Lemma set_volatile_twice h h' (a b : Z) t st : consumer_state h t = Some st → tc_name h' = tc_name h →
  set_volatile h' b (set_volatile h a t) = set_volatile h b t.
Proof using Type.
  intros Hst Hn.
  rewrite (set_volatile_eq h' _ _ _ (set_volatile_state h a t st h' Hst Hn)).
  rewrite !(set_volatile_eq h _ _ _ Hst), Hn. unfold set_consumers. cbn.
  by rewrite insert_insert_eq.
Qed.
Lemma set_volatile_next h (a : Z) t : tp_next (set_volatile h a t) = tp_next t.
Proof using Type. unfold set_volatile. by case_match. Qed.
Lemma set_volatile_stats h (a : Z) t : tp_stats (set_volatile h a t) = tp_stats t.
Proof using Type. unfold set_volatile. by case_match. Qed.
Lemma set_volatile_wf h (a : Z) t log : topic_wf t log → topic_wf (set_volatile h a t) log.
Proof using Type. unfold set_volatile. case_match; [apply topic_wf_consumers|done]. Qed.
Lemma drain_ok fuel t log h st : topic_wf t log → reader_ok t log h st →
  Z.to_nat (tp_next t - volatile st) < fuel →
  ∃ h', drain fuel h t = (set_volatile h (Z.max (volatile st) (tp_next t)) t, h',
    Ok (drop (Z.to_nat (volatile st - earliest_offset (tp_stats t))) log)) ∧ tc_name h' = tc_name h.
Proof using Type.
  revert t h st. induction fuel as [|fuel IH]; intros t h st Hwf Hr Hf; [lia|].
  cbn [drain]. pose proof (next_ok t log h st Hwf Hr) as Hn.
  pose proof (topic_length _ _ Hwf) as Hlen. pose proof Hr as (Hst & Hlo & _).
  destruct (Z.leb_spec (tp_next t) (volatile st)) as [Hle|Hlt].
  - destruct Hn as (h' & -> & Hn). exists h'. split; [|done].
    rewrite Z.max_l, (set_volatile_id _ _ _ Hst) by lia. rewrite drop_ge by lia. done.
  - destruct Hn as (v & h' & Hv & -> & Hn & Hr').
    destruct (IH _ h' (advanced st) (set_volatile_wf h (volatile st + 1) t log Hwf) Hr') as (h'' & Hd & Hn').
    { rewrite set_volatile_next. cbn. lia. }
    rewrite set_volatile_next, set_volatile_stats in Hd.
    exists h''. rewrite Hd. split; [|congruence].
    rewrite (set_volatile_twice _ _ _ _ _ _ Hst Hn).
    rewrite (drop_S log v (Z.to_nat (volatile st - earliest_offset (tp_stats t)))) by done.
    cbn [rmap volatile advanced].
    rewrite Z.max_r, Z.max_r by lia.
    replace (Z.to_nat (volatile st + 1 - earliest_offset (tp_stats t)))
      with (S (Z.to_nat (volatile st - earliest_offset (tp_stats t)))) by lia. done.
Qed.

(** ** Recovery *)
(** What a process that dies leaves on disk: the files of the segments, the
    active one possibly with the beginning of a record after its last one.
    The file of a segment that was dropped while a cursor still read it
    ([tp_retired]) is deleted when the cursor lets go of it, so that a process that dies
    before leaves it as well; that image is not considered. *)
Definition files_of t (tail : list Z) : list (Z * list Z) :=
  map (λ s, (base_offset s, seg_file s)) (removelast (tp_segments t)) ++
  match active_segment t with Some s => [(base_offset s, seg_file s ++ tail)] | None => [] end.
Definition reopened s : Segment :=
  mkSegment (base_offset s) (end_offset s) (byte_len s) (seg_file s) false.
Definition file_le (p q : Z * list Z) : bool := (p.1 <=? q.1)%Z.

Lemma file_le_total p q : file_le p q = true ∨ file_le q p = true.
Proof using Type. unfold file_le. rewrite !Z.leb_le. lia. Qed.
Lemma file_le_trans p q r : file_le p q = true → file_le q r = true → file_le p r = true.
Proof using Type. unfold file_le. rewrite !Z.leb_le. lia. Qed.
Lemma closed_files from segs log to p : closed from segs log to → p.1 = to →
  StronglySorted (λ a b, file_le a b = true ∧ file_le b a = false)
    (map (λ s, (base_offset s, seg_file s)) segs ++ [p]) ∧
  Forall (λ q, (from ≤ q.1)%Z) (map (λ s, (base_offset s, seg_file s)) segs ++ [p]).
Proof using Type.
  intros Hc Hp. induction Hc as [from|s vs segs log to Hs Hne Hc IH]; simpl.
  { split; [repeat constructor|]. constructor; [lia|constructor]. }
  destruct (IH Hp) as [IH1 IH2]. destruct Hs as (_ & _ & _ & He).
  assert (base_offset s < end_offset s)%Z by (destruct vs; [done|simpl in He; lia]).
  split; constructor; [done| |simpl; lia|]; (eapply Forall_impl; [exact IH2|]); simpl; [|lia].
  intros q Hq. unfold file_le. cbn. destruct (Z.leb_spec (base_offset s) q.1), (Z.leb_spec q.1 (base_offset s)); lia || done.
Qed.
Lemma closed_first from segs log to p : closed from segs log to → p.1 = to →
  ∃ q rest, map (λ s, (base_offset s, seg_file s)) segs ++ [p] = q :: rest ∧ q.1 = from.
Proof using Type.
  intros Hc Hp. destruct Hc as [from|s' vs segs log to ? ? ?]; simpl; [by exists p, []|]. by eexists _, _.
Qed.
Lemma open_segments_ok from segs log act file len : closed from segs log (base_offset act) →
  open_segments (end_offset act) len
    (map (λ s, (base_offset s, seg_file s)) segs ++ [(base_offset act, file)]) =
  Ok (map reopened segs ++ [mkSegment (base_offset act) (end_offset act) (Z.of_nat len) (take len file) false]).
Proof using Type.
  intros Hc. remember (base_offset act) as to eqn:Eto.
  induction Hc as [from|s vs segs log to Hs Hne Hc IH]; [by subst|]. cbn [map app open_segments].
  specialize (IH Eto).
  destruct (closed_first _ _ _ _ (to, file) Hc eq_refl) as ([q1 q2] & rest & Eq & Hq).
  simpl in Hq. subst q1. rewrite Eq in *. destruct Hs as (_ & Hf & Hbl & _).
  rewrite Hf, check_magic_ok. cbn [rbind]. rewrite IH. cbn [rbind]. unfold reopened at 2.
  by rewrite Hbl, Hf.
Qed.
Lemma list_to_map_get {A B} (f : A → B) (l : list (rstring * A)) (k : rstring) :
  (list_to_map (map (λ p, (p.1, f p.2)) l) : gmap rstring B) !! k = f <$> bt_get k l.
Proof using Type.
  induction l as [|[k' v] l IH]; simpl; [done|]. destruct (cmpP k k') as [->|Hk|Hk].
  - by rewrite lookup_insert_eq.
  - rewrite lookup_insert_ne; [done|]. intros ->. by rewrite cmp_refl in Hk.
  - rewrite lookup_insert_ne; [done|]. intros ->. by rewrite cmp_refl in Hk.
Qed.
Lemma closed_bytes from segs log to : closed from segs log to →
  map byte_len (map reopened segs) = map byte_len segs.
Proof using Type. intros _. by rewrite map_map. Qed.
Lemma closed_reopened from segs log to : closed from segs log to → closed from (map reopened segs) log to.
Proof using Type.
  induction 1 as [|s vs segs log to Hs Hne Hc IH]; [constructor|].
  exact (closed_cons (reopened s) vs _ _ _ Hs Hne IH).
Qed.

Lemma append_ok (t : Topic Off) (log : list T) (v : T) :
  topic_wf t log → storable v → 8 + length (encoded v) ≤ tp_disk t →
  let (t', r) := append v t in r = Ok (tp_next t) ∧
  ∃ k, k ≤ length log ∧ topic_wf t' (drop k log ++ [v]) ∧
    earliest_offset (tp_stats t') = (earliest_offset (tp_stats t) + Z.of_nat k)%Z ∧
    tp_next t' = (tp_next t + 1)%Z ∧ same_readers t t' ∧ retention t t'.
Proof using Type.
  intros Hwf Hv Hd. unfold append. rewrite codec_ok_encode by apply Hv.
  assert (∃ pre act, tp_segments t = pre ++ [act]) as (pre & act & E)
    by (destruct Hwf as [(pre & act & ? & ? & ? & _)]; eauto).
  rewrite (active_snoc _ _ _ E).
  destruct (Z.eqb_spec (record_count act) 0) as [E0|E0]; cbn [negb andb].
  2: destruct (_ <? _)%Z.
  1, 3: pose proof (append_record_ok v t log Hwf Hv ltac:(lia)) as Ha;
    destruct (append_record (encoded v) t) as [t' r];
    destruct Ha as (-> & Hw & Hnx & He & Hsr & _); split; [done|]; exists 0;
    rewrite Z.add_0_r; split_and!; [lia|done..|by left].
  pose proof (rotate_ok t log act Hwf (active_snoc _ _ _ E) E0 ltac:(lia)) as Hro.
  destruct (rotate_segment t) as [t1 r1]. destruct Hro as (-> & k & Hk & Hw & He & Hnx & Hsr & Hdk & Hret).
  pose proof (append_record_ok v t1 _ Hw Hv ltac:(lia)) as Ha.
  destruct (append_record (encoded v) t1) as [t' r].
  destruct Ha as (-> & Hw' & Hnx' & He' & Hsr' & _). split; [by rewrite Hnx|].
  exists k. destruct Hsr as (S1 & S2 & S3), Hsr' as (S1' & S2' & S3').
  split_and!; [done|done|congruence|congruence| |].
  - split_and!; congruence.
  - unfold retention in *. by rewrite He'.
Qed.

Lemma open_topic_ok `{!BackendLaws Off rstring Z} (t : Topic Off) (log : list T)
    (tail : list Z) (dir : list (Z * list Z)) (max_bytes : Z) (offs : Off) (disk : nat) :
  topic_wf t log → torn tail → dir ≡ₚ files_of t tail → backend_wf offs →
  ∃ t', open_topic max_bytes dir offs disk = Ok t' ∧ topic_wf t' log ∧
    tp_next t' = tp_next t ∧
    earliest_offset (tp_stats t') = earliest_offset (tp_stats t) ∧
    ∀ name, tp_consumers t' !! name = (λ c, mkConsumer c c false) <$> get offs name.
Proof using Type.
  intros [(pre & act & plog & avs & E & -> & Hc & Hs & He) Hn Hr Hb _] Ht Hp Hoff.
  unfold files_of in Hp. rewrite E, removelast_last, (active_snoc _ _ _ E) in Hp.
  destruct (closed_files _ _ _ _ (base_offset act, seg_file act ++ tail) Hc eq_refl) as [Hsort _].
  pose proof Hs as (Hst & Hf & Hbl & Hend).
  unfold open_topic, list_segments. change (λ p q : Z * list Z, (p.1 <=? q.1)%Z) with file_le.
  rewrite (sort_by_unique _ _ _ file_le_total file_le_trans Hsort Hp), last_snoc.
  rewrite Hf, <- app_assoc, scan_active_ok by done. cbn [rbind]. rewrite <- Hend.
  rewrite app_assoc, <- Hf, (open_segments_ok _ _ _ _ _ _ Hc). cbn [rbind].
  rewrite <- Hbl, take_app_length. change (mkSegment _ _ _ _ false) with (reopened act).
  rewrite last_snoc.
  destruct (closed_head _ _ _ _ (reopened act) (closed_reopened _ _ _ _ Hc) eq_refl) as (s0 & rest & Es & Hs0).
  assert (head (map reopened pre ++ [reopened act]) = Some s0) as -> by (by rewrite Es). eexists. split; [done|]. cbn. split_and!; [|lia|by rewrite Hs0|].
  - constructor; cbn; [|done|..].
    + exists (map reopened pre), (reopened act), plog, avs. rewrite Hs0. split_and!; try done.
      by apply closed_reopened.
    + rewrite Hs0. pose proof (closed_to _ _ _ _ Hc). rewrite length_app. lia.
    + done.
    + constructor.
    + done.
  - intros name. rewrite (list_to_map_get (λ c, mkConsumer c c false)), get_entries; done.
Qed.

(** ** Properties *)

(** C14. An append returns the next offset and adds the record to the end of the
    log, whether or not it rotates to a new segment; a rotation may drop a
    prefix of the log, but only records every registered consumer has
    committed past; consumers and their offsets are not touched. *)
Theorem topic_append (t : Topic Off) (log : list T) (v : T) :
  topic_wf t log → storable v → 8 + length (encoded v) ≤ tp_disk t →
  let (t', r) := append v t in r = Ok (tp_next t) ∧
  ∃ k, k ≤ length log ∧ topic_wf t' (drop k log ++ [v]) ∧
    earliest_offset (tp_stats t') = (earliest_offset (tp_stats t) + Z.of_nat k)%Z ∧
    tp_next t' = (tp_next t + 1)%Z ∧ same_readers t t' ∧ retention t t'.
Proof using Type. apply append_ok. Qed.

(** C15. A consumer that reads to the end gets every record of the log from its
    volatile offset on, in order, each once, without error, and its volatile
    offset ends at the tail. *)
Theorem topic_read (t : Topic Off) (log : list T) (h : TopicConsumer) (st : ConsumerState) :
  topic_wf t log → consumer_state h t = Some st → tc_current h = None →
  (earliest_offset (tp_stats t) ≤ volatile st)%Z →
  ∃ t', topic_wf t' log ∧
    consumer_state h t' = Some (mkConsumer (committed st) (Z.max (volatile st) (tp_next t))
                                  (reader_active st)) ∧
    ∀ fuel, Z.to_nat (tp_next t - volatile st) < fuel → ∃ h', tc_name h' = tc_name h ∧
      drain fuel h t = (t', h',
        Ok (drop (Z.to_nat (volatile st - earliest_offset (tp_stats t))) log)).
Proof using Type.
  intros Hwf Hst Hc Hlo.
  assert (reader_ok t log h st) as Hr by (split_and!; [done|done|by rewrite Hc]).
  exists (set_volatile h (Z.max (volatile st) (tp_next t)) t). split_and!.
  - rewrite (set_volatile_eq _ _ _ _ Hst). by apply topic_wf_consumers.
  - by apply set_volatile_state.
  - intros fuel Hf. destruct (drain_ok fuel t log h st Hwf Hr Hf) as (h' & Hd & Hn). eauto.
Qed.

(** C10. Opening a topic after a crash gives back the log, whatever the order in
    which the directory lists the files, and drops the torn record at the end
    of the active file and nothing else; every consumer restarts from the
    offset it had committed. *)
Theorem topic_recovery `{!BackendLaws Off rstring Z} (t : Topic Off) (log : list T)
    (tail : list Z) (dir : list (Z * list Z)) (max_bytes : Z) (offs : Off) (disk : nat) :
  topic_wf t log → torn tail → dir ≡ₚ files_of t tail → backend_wf offs →
  ∃ t', open_topic max_bytes dir offs disk = Ok t' ∧ topic_wf t' log ∧
    tp_next t' = tp_next t ∧
    earliest_offset (tp_stats t') = earliest_offset (tp_stats t) ∧
    ∀ name, tp_consumers t' !! name = (λ c, mkConsumer c c false) <$> get offs name.
Proof using Type. apply open_topic_ok. Qed.

End Laws.
