(* ===== verification/Table.v ===== *)
(** * Tables: [zendb-storage/src/table/table.rs] and [table/change.rs]

    A table couples a materialized state, an in-memory cache of the rows not
    yet written to it, and the topic of its changes.  The state ([St]) and the
    cache ([Ca], a [SkipList] in the source) are backends, proved against the
    contract of [Backend.v]; the topic is the one of [Topic.v].  The recovery
    consumer records how far the state has caught up with the topic. *)
From Stdlib Require Import Ascii String.
From stdpp Require Import base numbers option gmap sorting list.
From S2P Require Import Prelude Order BTreeMap Stamp Value Backend MergedEntries Serdes Topic.

(** Rust string literals. *)
Definition rstr (s : string) : rstring := map N_of_ascii (list_ascii_of_string s).

(** Which variant of [State] a backend is; an in-memory state starts empty on
    every open. *)
Inductive StateKind := Ordered | Unordered | InMemory.
Class HasKind (B : Type) := state_kind : B → StateKind.

Module Table.
Definition DEFAULT_MAX_BUFFERED_RECORDS : nat := 1024.
Definition RECOVERY_CONSUMER : rstring := rstr "__zendb_table_recovery".
Arguments RECOVERY_CONSUMER : simpl never.

Section Table.
Context `{L : Libp2p}.

Record Change := mkChange { ch_event : Event; previous : option Cell; current_cell : option Cell }.
Inductive InsertOutcome := Ignored | Applied (change : Change).

Context {St Ca Off : Type}.
Record Table := mkTable {
  tb_state : St; tb_cache : Ca; novel_pending : nat;
  tb_topic : Topic.Topic Off; tb_recovery : Topic.TopicConsumer }.

Context `{St_b : Backend St PrimaryKey Cell} `{St_o : OrderedBackend St PrimaryKey Cell}.
Context `{St_d : Durable St} `{St_k : HasKind St}.
Context `{Ca_b : Backend Ca PrimaryKey Cell} `{Ca_o : OrderedBackend Ca PrimaryKey Cell}.
Context `{Ca_c : Bounded Ca}.
Context `{Off_b : Backend Off rstring Z} `{Off_d : Durable Off} `{Cd : Codec Change}.
Implicit Types (t : Table) (k : PrimaryKey).

Definition set_state s t := mkTable s (tb_cache t) (novel_pending t) (tb_topic t) (tb_recovery t).
Definition set_cache c t := mkTable (tb_state t) c (novel_pending t) (tb_topic t) (tb_recovery t).
Definition set_novel n t := mkTable (tb_state t) (tb_cache t) n (tb_topic t) (tb_recovery t).
Definition set_topic p t := mkTable (tb_state t) (tb_cache t) (novel_pending t) p (tb_recovery t).
Definition set_recovery h t := mkTable (tb_state t) (tb_cache t) (novel_pending t) (tb_topic t) h.

(** Calls on the parts of the table. *)
Definition on_state {A} (r : St * io A) t : Table * io A := (set_state r.1 t, r.2).
Definition on_cache {A} (r : Ca * io A) t : Table * io A := (set_cache r.1 t, r.2).
Definition on_topic {A} (r : Topic.Topic Off * io A) t : Table * io A := (set_topic r.1 t, r.2).

(** ** Reads *)
Definition table_get t k : option Cell :=
  match get (tb_cache t) k with Some c => Some c | None => get (tb_state t) k end.
Definition table_contains t k : bool := contains (tb_cache t) k || contains (tb_state t) k.
Definition table_entries t : list (PrimaryKey * Cell) :=
  match state_kind (tb_state t) with
  | Ordered | InMemory => merged (entries (tb_state t)) (entries (tb_cache t)) Ascending
  | Unordered =>
      List.filter (λ p, negb (contains (tb_cache t) p.1)) (entries (tb_state t)) ++
      entries (tb_cache t)
  end.
Definition table_keys t : list PrimaryKey := map fst (table_entries t).
Definition table_values t : list Cell := map snd (table_entries t).
Definition table_size t : nat := size (tb_state t) + novel_pending t.
Definition table_is_empty t : bool := is_empty (tb_state t) && (novel_pending t =? 0).
Definition table_range t (s e : PrimaryKey) : list (PrimaryKey * Cell) :=
  merged (range (tb_state t) s e) (range (tb_cache t) s e) Ascending.
Definition table_first t : option (PrimaryKey * Cell) :=
  match first (tb_state t), first (tb_cache t) with
  | None, None => None
  | Some row, None | None, Some row => Some row
  | Some s, Some c => match cmp s.1 c.1 with Lt => Some s | _ => Some c end
  end.
Definition table_last t : option (PrimaryKey * Cell) :=
  match last_entry (tb_state t), last_entry (tb_cache t) with
  | None, None => None
  | Some row, None | None, Some row => Some row
  | Some s, Some c => match cmp s.1 c.1 with Gt => Some s | _ => Some c end
  end.
Definition table_entries_rev t : list (PrimaryKey * Cell) :=
  merged (entries_rev (tb_state t)) (entries_rev (tb_cache t)) Descending.
Definition table_range_rev t (s e : PrimaryKey) : list (PrimaryKey * Cell) :=
  merged (range_rev (tb_state t) s e) (range_rev (tb_cache t) s e) Descending.

(** ** Writeback *)
Definition drain_cache t : Table * io unit :=
  if is_empty (tb_cache t) then (t, Ok tt) else
  and_then (on_state (bulk_put (entries (tb_cache t)) (tb_state t)) t) (λ t _,
  and_then (on_cache (clear (tb_cache t)) t) (λ t _, (set_novel 0 t, Ok tt))).
Definition commit_recovery t : Table * io unit :=
  match state_kind (tb_state t) with
  | InMemory => (t, Ok tt)
  | _ => on_topic (Topic.commit (tb_recovery t) (tb_topic t)) t
  end.
Definition table_flush t : Table * io unit :=
  and_then (drain_cache t) (λ t _,
  and_then (on_state (flush (tb_state t)) t) (λ t _,
  and_then (commit_recovery t) (λ t _, on_topic (Topic.topic_flush (tb_topic t)) t))).
Definition table_sync t : Table * io unit :=
  and_then (drain_cache t) (λ t _,
  and_then (on_state (sync (tb_state t)) t) (λ t _,
  and_then (commit_recovery t) (λ t _, on_topic (Topic.topic_sync (tb_topic t)) t))).
Definition table_compact t : Table * io unit :=
  and_then (on_state (compact (tb_state t)) t) (λ t _,
    on_topic (Topic.topic_compact (tb_topic t)) t).

(** ** [insert] *)
Definition max_buffered t : option nat := capacity (tb_cache t).
Definition prepare_cache k t : Table * io unit :=
  if match max_buffered t with None => false | Some m => (m <=? size (tb_cache t))%nat end
     && negb (contains (tb_cache t) k)
  then drain_cache t else (t, Ok tt).
Definition insert (event : Event) t : Table * io InsertOutcome :=
  let key := primary_key event in
  let previous := table_get t key in
  let current := default (dummy None) previous in
  let current_stamp := from_option stamp EventStamp_default previous in
  match cell_apply_walk (path event) current (op event)
          (mkMergeStamps current_stamp (event_stamp event)) with
  | (_, Err _) => (t, Err OtherError)
  | (_, Panic) => (t, Panic)
  | (_, Ok false) => (t, Ok Ignored)
  | (current, Ok true) =>
      and_then (prepare_cache key t) (λ t _,
        let change := mkChange event previous (Some current) in
        and_then (on_topic (Topic.append change (tb_topic t)) t) (λ t offset,
        and_then (on_cache (put key current (tb_cache t)) t) (λ t _,
          let t := if is_none previous then set_novel (novel_pending t + 1) t else t in
          let '(topic, h) := Topic.seek (offset + 1) (tb_recovery t) (tb_topic t) in
          (set_recovery h (set_topic topic t), Ok (Applied change)))))
  end.
(** [Table::consumer]. *)
Definition table_consumer (name : rstring) t : Table * io Topic.TopicConsumer :=
  on_topic (Topic.consumer name (tb_topic t)) t.

(** ** Opening *)
Definition replay_change (change : Change) t : Table * io unit :=
  let key := primary_key (ch_event change) in
  match current_cell change with
  | Some c => on_state (put key c (tb_state t)) t
  | None => and_then (on_state (delete key (tb_state t)) t) (λ t _, (t, Ok tt))
  end.
Fixpoint replay_loop (fuel : nat) t : Table * io unit :=
  match fuel with
  | O => (t, Ok tt)
  | S fuel =>
      let '(topic, h, r) := Topic.next (tb_recovery t) (tb_topic t) in
      let t := set_recovery h (set_topic topic t) in
      match r with
      | None => (t, Ok tt)
      | Some (Ok change) => and_then (replay_change change t) (λ t _, replay_loop fuel t)
      | Some (Err e) => (t, Err e)
      | Some Panic => (t, Panic)
      end
  end.
(** [replay_recovery]; the loop ends at the tail of the topic, which
    [fuel] bounds. *)
Definition replay_recovery (fuel : nat) t : Table * io unit :=
  and_then (replay_loop fuel t) (λ t _,
  and_then (on_state (sync (tb_state t)) t) (λ t _,
  and_then (commit_recovery t) (λ t _, on_topic (Topic.topic_sync (tb_topic t)) t))).

(** [create] and [open], the state, the cache and the offsets backend having
    been created or opened. *)
Definition create (state : St) (cache : Ca) (max_segment_bytes : Z) (offs : Off) (disk : nat) :
    io Table :=
  topic <-? Topic.create max_segment_bytes offs disk ;;
  let '(topic, r) := Topic.consumer RECOVERY_CONSUMER topic in
  h <-? r ;; Ok (mkTable state cache 0 topic h).
Definition open_table (fuel : nat) (state : St) (cache : Ca) (max_segment_bytes : Z)
    (dir : list (Z * list Z)) (offs : Off) (disk : nat) : io Table :=
  topic <-? Topic.open_topic max_segment_bytes dir offs disk ;;
  let '(topic, r) := Topic.consumer RECOVERY_CONSUMER topic in
  h <-? r ;;
  let '(t, r) := replay_recovery fuel (mkTable state cache 0 topic h) in
  _ <-? r ;; Ok t.
End Table.
Arguments Table : clear implicits.
Arguments mkTable {_ _ _} _ _ _ _ _.
End Table.
