(* ===== verification/State.v ===== *)
(** * The materialized state: [zendb-storage/src/backend/state.rs]

    Runtime dispatch between a B+ tree ([Bp]), a [KeyDir] ([Kd]) and a skip
    list ([Sk]).  The skip list iterates in the order of the keys, the B+ tree in
    that of the serialized keys; the [KeyDir] has no order, and the ordered
    reads sort its entries by key.  [State] is a backend again when its engines
    are ([state_laws]), and the theorem, on the engines themselves, gives each
    ordered read. *)
From stdpp Require Import base numbers option sorting list.
From S2P Require Import Prelude Order BTreeMap Stamp Value Backend MapBackend MergedEntries.
From S2P Require Import SkipList SkipListReads Serdes KeyDir KeyDirLog KeyDirStore BPlusPages BPlus BPlusTyped BPlusLaws Topic Table.

Inductive StateConfig (Cb Ck Cs : Type) :=
  | ConfigOrdered (c : Cb) | ConfigUnordered (c : Ck) | ConfigInMemory (c : Cs).
Arguments ConfigOrdered {_ _ _} _. Arguments ConfigUnordered {_ _ _} _. Arguments ConfigInMemory {_ _ _} _.

Inductive State (Bp Kd Sk Cfg : Type) :=
  | SOrdered (backend : Bp) (config : Cfg)
  | SUnordered (backend : Kd) (config : Cfg)
  | SInMemory (backend : Sk) (config : Cfg).
Arguments SOrdered {_ _ _ _} _ _. Arguments SUnordered {_ _ _ _} _ _. Arguments SInMemory {_ _ _ _} _ _.

(** [Iterator::min_by] keeps the first least element, [max_by] the last
    greatest one. *)
Section MinMax.
Context {A : Type}.
Definition pick_by (pick : A → A → A) (acc : option A) (l : list A) : option A :=
  foldl (λ acc x, Some (match acc with None => x | Some a => pick a x end)) acc l.
Definition min_by (c : A → A → comparison) (l : list A) : option A :=
  pick_by (λ a x, match c a x with Gt => x | _ => a end) None l.
Definition max_by (c : A → A → comparison) (l : list A) : option A :=
  pick_by (λ a x, match c a x with Gt => a | _ => x end) None l.

(** What is picked is an element related to every other. *)
Lemma pick_by_spec pick (R : A → A → Prop) l acc :
  (∀ a, R a a) → (∀ a b c, R a b → R b c → R a c) →
  (∀ a x, (pick a x = a ∨ pick a x = x) ∧ R (pick a x) a ∧ R (pick a x) x) →
  match pick_by pick acc l with
  | None => acc = None ∧ l = []
  | Some m => (m ∈ l ∨ acc = Some m) ∧ ∀ x, x ∈ l ∨ acc = Some x → R m x
  end.
Proof.
  intros Hrefl Htrans Hpick. revert acc. induction l as [|y l IH]; intros acc; simpl.
  - destruct acc as [a|]; [|done]. split; [by right|].
    intros x [Hx|[= ->]]; [by apply elem_of_nil in Hx|done].
  - set (z := match acc with None => y | Some a => pick a y end).
    assert ((z = y ∨ acc = Some z) ∧ R z y ∧ ∀ a, acc = Some a → R z a) as (Hz & Hzy & Hza).
    { unfold z. destruct acc as [a|]; [|split; [by left|done]].
      destruct (Hpick a y) as ([->| ->] & H1 & H2); split_and!; try done; auto; congruence. }
    specialize (IH (Some z)). destruct (pick_by pick (Some z) l) as [m|]; [|destruct IH; done].
    destruct IH as [Hin Hle]. assert (R m z) as Hmz by (apply Hle; by right). split.
    + destruct Hin as [?|[= ->]]; [left; by right|]. destruct Hz as [->|?]; [left; by left|by right].
    + intros x [Hx|Hx].
      * apply elem_of_cons in Hx as [->|Hx]; [by apply (Htrans _ z)|apply Hle; by left].
      * apply (Htrans _ z); auto.
Qed.
End MinMax.

Section State.
Context {K V Bp Kd Sk Cb Ck Cs : Type} `{TotalCmp K}.
Context `{Bp_b : Backend Bp K V} `{Bp_o : OrderedBackend Bp K V} `{Bp_d : Durable Bp}.
Context `{Kd_b : Backend Kd K V} `{Kd_d : Durable Kd}.
Context `{Sk_b : Backend Sk K V} `{Sk_o : OrderedBackend Sk K V}.
Abbreviation Cfg := (StateConfig Cb Ck Cs).
Abbreviation St := (State Bp Kd Sk Cfg).

Definition config (s : St) : Cfg :=
  match s with SOrdered _ c | SUnordered _ c | SInMemory _ c => c end.
(** [create] and [open]: the engine the configuration names. *)
Definition state_open (open_bp : Cb → io Bp) (open_kd : Ck → io Kd) (new_sk : Cs → Sk) (c : Cfg) : io St :=
  match c with
  | ConfigOrdered b => rmap (λ x, SOrdered x c) (open_bp b)
  | ConfigUnordered k => rmap (λ x, SUnordered x c) (open_kd k)
  | ConfigInMemory s => Ok (SInMemory (new_sk s) c)
  end.

Definition on_bp {A} (cfg : Cfg) (r : Bp * io A) : St * io A := (SOrdered r.1 cfg, r.2).
Definition on_kd {A} (cfg : Cfg) (r : Kd * io A) : St * io A := (SUnordered r.1 cfg, r.2).
Definition on_sk {A} (cfg : Cfg) (r : Sk * io A) : St * io A := (SInMemory r.1 cfg, r.2).

#[export] Instance state_backend : Backend St K V := {|
  get s k := match s with
             | SOrdered b _ => get b k | SUnordered b _ => get b k | SInMemory b _ => get b k end;
  contains s k := match s with
             | SOrdered b _ => contains b k | SUnordered b _ => contains b k
             | SInMemory b _ => contains b k end;
  entries s := match s with
             | SOrdered b _ => entries b | SUnordered b _ => entries b | SInMemory b _ => entries b end;
  size s := match s with
             | SOrdered b _ => size b | SUnordered b _ => size b | SInMemory b _ => size b end;
  put k v s := match s with
             | SOrdered b c => on_bp c (put k v b)
             | SUnordered b c => on_kd c (put k v b)
             | SInMemory b c => on_sk c (put k v b) end;
  delete k s := match s with
             | SOrdered b c => on_bp c (delete k b)
             | SUnordered b c => on_kd c (delete k b)
             | SInMemory b c => on_sk c (delete k b) end;
  clear s := match s with
             | SOrdered b c => on_bp c (clear b)
             | SUnordered b c => on_kd c (clear b)
             | SInMemory b c => on_sk c (clear b) end;
|}.

(** [flush], [compact], [sync]: the in-memory engine has nothing to write. *)
#[export] Instance state_durable : Durable St := {|
  compact s := match s with
             | SOrdered b c => on_bp c (compact b) | SUnordered b c => on_kd c (compact b)
             | SInMemory b c => (s, Ok tt) end;
  flush s := match s with
             | SOrdered b c => on_bp c (flush b) | SUnordered b c => on_kd c (flush b)
             | SInMemory b c => (s, Ok tt) end;
  sync s := match s with
             | SOrdered b c => on_bp c (sync b) | SUnordered b c => on_kd c (sync b)
             | SInMemory b c => (s, Ok tt) end;
|}.
#[export] Instance state_has_kind : HasKind St := λ s,
  match s with SOrdered _ _ => Ordered | SUnordered _ _ => Unordered | SInMemory _ _ => InMemory end.

Definition sort_desc (l : list (K * V)) : list (K * V) := sort_by (λ p q, q.1 <=? p.1) l.
Definition key_cmp (p q : K * V) : comparison := cmp p.1 q.1.
#[export] Instance state_ordered : OrderedBackend St K V := {|
  range st s e := match st with
             | SOrdered b _ => range b s e
             | SUnordered b _ => ascending (List.filter (within s e) (entries b))
             | SInMemory b _ => range b s e end;
  first st := match st with
             | SOrdered b _ => first b
             | SUnordered b _ => min_by key_cmp (entries b)
             | SInMemory b _ => first b end;
  last_entry st := match st with
             | SOrdered b _ => last_entry b
             | SUnordered b _ => max_by key_cmp (entries b)
             | SInMemory b _ => last_entry b end;
  entries_rev st := match st with
             | SOrdered b _ => entries_rev b
             | SUnordered b _ => sort_desc (entries b)
             | SInMemory b _ => entries_rev b end;
  range_rev st s e := match st with
             | SOrdered b _ => range_rev b s e
             | SUnordered b _ => sort_desc (List.filter (within s e) (entries b))
             | SInMemory b _ => range_rev b s e end;
|}.

Context `{!BackendLaws Bp K V, !DurableLaws Bp K V}.
Context `{!BackendLaws Kd K V, !DurableLaws Kd K V}.
Context `{!BackendLaws Sk K V}.

Definition state_wf (s : St) : Prop :=
  match s with SOrdered b _ => backend_wf b | SUnordered b _ => backend_wf b | SInMemory b _ => backend_wf b end.
#[export] Instance state_laws : BackendLaws St K V.
Proof.
  refine {| backend_wf := state_wf |}.
  - intros [b c|b c|b c] k Hb; by apply (get_entries b k).
  - intros [b c|b c|b c] Hb; by apply (keys_nodup b).
  - intros [b c|b c|b c] Hb; by apply (size_entries b).
  - intros [b c|b c|b c] k Hb; by apply (contains_get b k).
  - intros k v [b c|b c|b c] Hb; pose proof (put_law k v b Hb) as Hl; cbn; by destruct (put k v b).
  - intros k [b c|b c|b c] Hb; pose proof (delete_law k b Hb) as Hl; cbn; by destruct (delete k b).
  - intros [b c|b c|b c] Hb; pose proof (clear_law b Hb) as Hl; cbn; by destruct (clear b).
Defined.
#[export] Instance state_durable_laws : DurableLaws St K V.
Proof.
  constructor.
  - intros [b c|b c|b c] Hb; cbn; [pose proof (compact_law b Hb); by destruct (compact b)..|done].
  - intros [b c|b c|b c] Hb; cbn; [pose proof (flush_law b Hb); by destruct (flush b)..|done].
  - intros [b c|b c|b c] Hb; cbn; [pose proof (sync_law b Hb); by destruct (sync b)..|done].
Qed.

Lemma dispatch_reliable (fits : K → V → Prop) :
  reliable (B:=Bp) fits backend_wf → reliable (B:=Kd) fits backend_wf →
  (∀ b : Sk, backend_wf b → (∀ k v, fits k v → (put k v b).2 = Ok tt) ∧ ∀ k, is_ok (delete k b).2 = true) →
  reliable (B:=St) fits backend_wf.
Proof using Type.
  intros HB HK HS [b c|b c|b c] Hb; [exact (HB b Hb)|exact (HK b Hb)|]. destruct (HS b Hb). by split_and!.
Qed.

(** The sorted views of an unordered engine. *)
Lemma sort_desc_rev (l : list (K * V)) : NoDup (map fst l) → sort_desc l = rev (ascending l).
Proof using H0.
  intros Hnd. pose proof (ascending_wf l Hnd) as Hwf. apply sort_by_unique.
  - intros p q. apply (leb_total q.1 p.1).
  - intros p q r Hpq Hqr. by apply (leb_trans r.1 q.1 p.1).
  - pose proof (proj1 (bt_wf_sorted _) Hwf) as Hs. clear Hwf Hnd.
    induction Hs as [|p l' Hs IH HF]; simpl; [constructor|].
    apply StronglySorted_app. split_and!; [|done|repeat constructor].
    intros x y Hx Hy. apply list_elem_of_singleton in Hy as ->.
    rewrite list_elem_of_In, <- in_rev, <- list_elem_of_In in Hx.
    rewrite Forall_forall in HF. by apply HF.
  - rewrite <- (sort_by_perm key_le l) at 1. unfold ascending, key_le.
    apply Permutation_rev.
Qed.
Lemma ascending_filter (p : K * V → bool) (l : list (K * V)) : NoDup (map fst l) →
  ascending (List.filter p l) = List.filter p (ascending l).
Proof using H0.
  intros Hnd. apply ascending_unique; [apply bt_wf_filter; by apply ascending_wf|].
  unfold ascending. by rewrite (sort_by_perm _ l).
Qed.

(** [min_by] and [max_by] are the ends of the sorted list. *)
Lemma min_by_head (l : list (K * V)) : NoDup (map fst l) → min_by key_cmp l = head (ascending l).
Proof using H0.
  intros Hnd. pose proof (ascending_wf l Hnd) as Hwf.
  pose proof (sort_by_perm key_le l : ascending l ≡ₚ l) as Hp. unfold min_by.
  set (pick := λ a x : K * V, match key_cmp a x with Gt => x | _ => a end).
  assert (∀ a x, (pick a x = a ∨ pick a x = x) ∧ key_le (pick a x) a = true ∧ key_le (pick a x) x = true) as Hpick.
  { intros a x. unfold pick, key_cmp, key_le, leb.
    destruct (cmpP a.1 x.1) as [E|E E'|E E']; rewrite ?E, ?E', ?cmp_refl; auto. }
  pose proof (pick_by_spec pick (λ p q, key_le p q = true) l None (λ a, leb_refl a.1) key_le_trans Hpick) as Hs.
  destruct (pick_by pick None l) as [m|]; [|by destruct Hs as [_ ->]].
  destruct Hs as [[Hin|?] Hle]; [|done]. rewrite <- Hp in Hin.
  destruct (ascending l) as [|[k v] l'] eqn:E; [by apply elem_of_nil in Hin|]. simpl. f_equal.
  apply elem_of_cons in Hin as [->|Hm]; [done|]. exfalso.
  destruct Hwf as [HF _]. rewrite Forall_forall in HF. specialize (HF _ Hm).
  assert (key_le m (k, v) = true) as Hc by (apply Hle; left; rewrite <- Hp; by left).
  unfold key_le, leb in Hc. simpl in HF, Hc. apply cmp_Lt_Gt in HF. by rewrite HF in Hc.
Qed.
Lemma greatest_last (l : list (K * V)) m : bt_wf l → m ∈ l → (∀ x, x ∈ l → key_le x m = true) →
  last l = Some m.
Proof using H0.
  induction l as [|[k v] l IH]; intros Hwf Hin Hle; [by apply elem_of_nil in Hin|].
  destruct Hwf as [HF Hwf]. destruct l as [|q l].
  { apply elem_of_cons in Hin as [->|Hin]; [done|by apply elem_of_nil in Hin]. }
  rewrite last_cons_cons. apply elem_of_cons in Hin as [->|Hin].
  - exfalso. rewrite Forall_forall in HF. assert (q ∈ q :: l) as Hq by (by left).
    specialize (HF _ Hq). assert (key_le q (k, v) = true) as Hc by (apply Hle; by right; left).
    unfold key_le, leb in Hc. simpl in HF, Hc. apply cmp_Lt_Gt in HF. by rewrite HF in Hc.
  - apply IH; [done|done|]. intros x Hx. apply Hle. by right.
Qed.
Lemma max_by_last (l : list (K * V)) : NoDup (map fst l) → max_by key_cmp l = last (ascending l).
Proof using H0.
  intros Hnd. pose proof (ascending_wf l Hnd) as Hwf.
  pose proof (sort_by_perm key_le l : ascending l ≡ₚ l) as Hp. unfold max_by.
  set (pick := λ a x : K * V, match key_cmp a x with Gt => a | _ => x end).
  assert (∀ a x, (pick a x = a ∨ pick a x = x) ∧ key_le a (pick a x) = true ∧ key_le x (pick a x) = true) as Hpick.
  { intros a x. unfold pick, key_cmp, key_le, leb.
    destruct (cmpP a.1 x.1) as [E|E E'|E E']; rewrite ?E, ?E', ?cmp_refl; auto. }
  pose proof (pick_by_spec pick (λ p q, key_le q p = true) l None (λ a, leb_refl a.1)
    (λ a b c H1 H2, key_le_trans c b a H2 H1) Hpick) as Hs.
  destruct (pick_by pick None l) as [m|]; [|by destruct Hs as [_ ->]].
  destruct Hs as [[Hin|?] Hle]; [|done]. symmetry. apply greatest_last; [done|by rewrite Hp|].
  intros x Hx. apply Hle. left. by rewrite <- Hp.
Qed.

Lemma state_kind_fixed (s : St) :
  (∀ k v, state_kind (put k v s).1 = state_kind s) ∧ (∀ k, state_kind (delete k s).1 = state_kind s) ∧
  state_kind (flush s).1 = state_kind s ∧ state_kind (sync s).1 = state_kind s ∧
  state_kind (compact s).1 = state_kind s.
Proof using Type. by destruct s. Qed.

End State.

(** ** The engines *)
(** The B+ tree as a backend; its reads return the default where the code
    panics, which [btree_reads] excludes on a tree that [serves] a list. *)
Section Tree.
Context {K V : Type} `{Codec K, Codec V}.
#[export] Instance btree_backend : Backend Pages.BPlusTree K V := {|
  get t k := or_else None (BPlus.bp_get t k);
  contains t k := or_else false (BPlus.bp_contains t k);
  entries t := or_else [] (BPlus.bp_entries t);
  size t := Z.to_nat (BPlus.bp_size t);
  put k v t := BPlus.bp_put k v t;
  delete k t := BPlus.bp_delete k t;
  clear t := BPlus.bp_clear t |}.
#[export] Instance btree_ordered : OrderedBackend Pages.BPlusTree K V := {|
  range t s e := or_else [] (BPlus.bp_range t s e);
  first t := or_else None (BPlus.bp_first t);
  last_entry t := or_else None (BPlus.bp_last t);
  entries_rev t := or_else [] (BPlus.bp_entries_rev t);
  range_rev t s e := or_else [] (BPlus.bp_range_rev t s e) |}.
#[export] Instance btree_durable : Durable Pages.BPlusTree := {|
  compact t := BPlus.bp_compact t; flush t := BPlus.bp_flush t; sync t := BPlus.bp_sync t |}.
End Tree.

(** The reads of a backend are those of one finite map, its [entries]. *)
Section ReadsMap.
Context {B K V : Type} `{TotalCmp K} `{Bb : Backend B K V}.
Definition reads_map (b : B) : Prop :=
  NoDup (keys b) ∧ (∀ k, get b k = bt_get k (entries b)) ∧ (∀ k, contains b k = is_some (get b k)) ∧
  size b = length (entries b).
Lemma backend_reads `{!BackendLaws B K V} (b : B) : backend_wf b → reads_map b.
Proof using Type.
  intros Hb. split; [by apply keys_nodup|]. split; [intros k; by apply get_entries|].
  split; [intros k; by apply contains_get|by apply size_entries].
Qed.
(** The entries of a backend sorted by key, as a map. *)
Lemma reads_ascending (b : B) : reads_map b → bt_wf (ascending (entries b)) ∧ ∀ k, bt_get k (ascending (entries b)) = get b k.
Proof using H0.
  intros (Hnd & Hg & _). split; [by apply ascending_wf|]. intros k.
  rewrite Hg. apply perm_get; [done|]. symmetry. apply sort_by_perm.
Qed.
Lemma reads_keys (b : B) k : reads_map b → k ∈ keys b ↔ is_Some (get b k).
Proof using H0.
  intros (Hnd & Hg & _). rewrite Hg. unfold keys in Hnd |- *. rewrite list_elem_of_fmap. split.
  - intros ([j v] & -> & Hin). exists v. by apply nodup_get.
  - intros [v Hv]. exists (k, v). by rewrite <- nodup_get.
Qed.
End ReadsMap.

Section Engines.
Context {K V Cb Ck Cs : Type} `{TotalCmp K} `{CK : Codec K, CV : Codec V, !LawfulCodec K, !LawfulCodec V}.
Abbreviation St := (State Pages.BPlusTree (KeyDir.KeyDir K) (SkipList.SkipList K V) (StateConfig Cb Ck Cs)).
Implicit Types (st : St) (k s e : K) (l : list (K * V)).

(** The engine of a state is in a state its own theorems speak of. *)
Definition engine_ok st : Prop :=
  match st with
  | SOrdered t _ => ∃ l : list (K * V), serves t l
  | SUnordered d _ => backend_wf (V:=V) d
  | SInMemory s _ => backend_wf s
  end.
(** The order of the ordered reads: the B+ tree's is that of the serialized
    keys, the others' that of the keys. *)
Definition key_order st k k' : bool :=
  match st with SOrdered _ _ => encoded k <=? encoded k' | _ => k <=? k' end.
(** The half-open range; the B+ tree has no range at a bound it cannot encode. *)
Definition in_range st s e k : bool :=
  match st with
  | SOrdered _ _ => encodable s && encodable e && ((encoded s <=? encoded k) && (encoded k <? encoded e))
  | _ => (s <=? k) && (k <? e)
  end.
Definition sorted_entries st : list (K * V) := sort_by (λ p q, key_order st p.1 q.1) (entries st).

(** A list in the order of the serialized keys, as a map. *)
Lemma encoded_inj k k' : encodable k = true → encodable k' = true → encoded k = encoded k' → k = k'.
Proof using LawfulCodec0.
  intros E1 E2 E. apply encodable_decode in E1, E2. rewrite E, E2 in E1. by injection E1.
Qed.
Lemma by_bytes_lookup l k : all_accepted l →
  bt_get k l = if encodable k then bt_get (encoded k) (by_bytes l) else None.
Proof using H0 LawfulCodec0.
  induction 1 as [|[j v] l Hj _ IH]; simpl; [by destruct (encodable k)|]. apply accepts_parts in Hj as [Hj _]. simpl in Hj.
  rewrite IH. destruct (cmpP k j) as [->|Hk|Hk].
  - by rewrite Hj, cmp_refl.
  - destruct (encodable k) eqn:Ek; [|done]. destruct (cmpP (encoded k) (encoded j)) as [E|?|?]; [|done..].
    apply encoded_inj in E; [subst; by rewrite cmp_refl in Hk|done..].
  - destruct (encodable k) eqn:Ek; [|done]. destruct (cmpP (encoded k) (encoded j)) as [E|?|?]; [|done..].
    apply encoded_inj in E; [subst; by rewrite cmp_refl in Hk|done..].
Qed.
Lemma by_bytes_sorted l : bt_wf (by_bytes l) → StronglySorted (λ p q, (encoded p.1 <=? encoded q.1) = true ∧ (encoded q.1 <=? encoded p.1) = false) l.
Proof using Type.
  induction l as [|p l IH]; [constructor|]. intros [HF Hw]. constructor; [by apply IH|].
  apply Forall_map in HF. eapply Forall_impl; [exact HF|]. intros q Hq. simpl in Hq.
  unfold leb. rewrite Hq. apply cmp_Lt_Gt in Hq. by rewrite Hq.
Qed.
Lemma sorted_by_bytes l : bt_wf (by_bytes l) → sort_by (λ p q : K * V, encoded p.1 <=? encoded q.1) l = l.
Proof using Type.
  intros Hw. apply sort_by_unique; [intros p q; apply leb_total|intros p q r; apply leb_trans|by apply by_bytes_sorted|done].
Qed.
Lemma serves_reads (t : Pages.BPlusTree) l : serves t l →
  bt_wf (by_bytes l) ∧ entries t = l ∧ size (K:=K) (V:=V) t = length l ∧ (∀ k, get t k = bt_get k l) ∧
  (∀ k, contains (K:=K) (V:=V) t k = is_some (bt_get k l)) ∧
  first t = head l ∧ last_entry t = last l ∧ entries_rev t = rev l ∧
  ∀ s e, range t s e = range_of s e l ∧ range_rev t s e = rev (range_of s e l).
Proof using H0 LawfulCodec0 LawfulCodec1.
  intros Hs. pose proof Hs as (A & T & _ & _ & _ & Hacc). destruct (iterate_ok t l Hs) as (_ & _ & He).
  pose proof (by_bytes_lookup l) as Hget. cbn.
  rewrite He, (first_ok t l Hs), (last_ok t l Hs), (entries_rev_ok t l Hs), (bp_size_ok t l Hs), Nat2Z.id.
  split; [by eapply serves_sorted|]. split_and!; try done.
  - intros k. by rewrite (bp_get_ok t l k Hs), Hget.
  - intros k. rewrite (bp_contains_ok t l k Hs), Hget by done. cbn. unfold bt_contains. by destruct (encodable k).
  - intros s e. by rewrite (range_ok t l s e Hs), (range_rev_ok t l s e Hs).
Qed.
Lemma by_bytes_nodup l : bt_wf (by_bytes l) → NoDup (map fst l).
Proof using Type.
  intros Hw%bt_keys_NoDup. unfold bt_keys, by_bytes in Hw. rewrite map_map in Hw. cbn in Hw.
  change (NoDup (map (λ p : K * V, encoded p.1) l)) in Hw. rewrite <- (map_map fst encoded) in Hw. by apply NoDup_fmap_1 in Hw.
Qed.

(** The ordered reads are those of the list [l], [r s e] being its ranges. *)
Definition ordered_as st (r : K → K → K → bool) l : Prop :=
  (∀ s e, range st s e = List.filter (λ p, r s e p.1) l ∧ range_rev st s e = rev (range st s e)) ∧
  entries_rev st = rev l ∧ first st = head l ∧ last_entry st = last l.
Lemma state_reads st : engine_ok st → reads_map st.
Proof using H0 LawfulCodec0 LawfulCodec1.
  destruct st as [t c|d c|s c]; intros Hst.
  - destruct Hst as [l Hs]. destruct (serves_reads t l Hs) as (Hw & He & Hn & Hg & Hc & _).
    unfold reads_map, keys. cbn [entries state_backend get contains size]. rewrite He.
    split_and!; [by apply by_bytes_nodup|done| |done]. intros k. by rewrite Hc, Hg.
  - exact (backend_reads d Hst).
  - exact (backend_reads s Hst).
Qed.
Lemma state_ordered_as st : engine_ok st → ordered_as st (in_range st) (sorted_entries st).
Proof using H0 LawfulCodec0 LawfulCodec1.
  destruct st as [t c|d c|s c]; intros Hst; unfold ordered_as, sorted_entries, key_order, in_range.
  - destruct Hst as [l Hs]. destruct (serves_reads t l Hs) as (Hw & He & _ & _ & _ & Hf & Hl & Hr & Hrange).
    cbn [entries state_backend range range_rev first last_entry entries_rev state_ordered].
    rewrite He, (sorted_by_bytes l Hw). split_and!; try done.
    intros s e. destruct (Hrange s e) as [-> ->]. split; [|done]. unfold range_of, between.
    destruct (encodable s && encodable e); [done|]. by rewrite filter_none by (by apply Forall_true).
  - pose proof (keys_nodup d Hst) as Hnd. cbn [state_backend entries]. split.
    + intros s e. cbn. split; [by apply ascending_filter|]. apply sort_desc_rev. by apply nodup_keys_filter.
    + split; [by apply sort_desc_rev|]. split; [by apply min_by_head|by apply max_by_last].
  - cbn [state_backend entries]. split.
    + intros a b. split; [by apply (range_law s)|by apply (range_rev_law s)].
    + split; [by apply (entries_rev_law s)|]. split; [by apply (first_law s)|by apply (last_law s)].
Qed.

(** Keys whose serialized order is their own.  A state reads in the order of
    the keys when this holds of its keys, or it is no B+ tree. *)
Definition agreed (ks : list K) : Prop := ∀ a b, a ∈ ks → b ∈ ks →
  encodable a = true ∧ cmp (encoded a) (encoded b) = cmp a b.
Definition in_key_order st (ks : list K) : Prop :=
  match st with SOrdered _ _ => agreed (ks ++ keys st) | _ => True end.
Lemma in_key_order_nil st ks : in_key_order st ks → in_key_order st [].
Proof using Type.
  destruct st; [|done..]. intros Ha a b Ha' Hb'. apply Ha; apply elem_of_app; by right.
Qed.
Lemma agreed_wf l : agreed (map fst l) → bt_wf (by_bytes l) → bt_wf l.
Proof using Type.
  induction l as [|[k v] l IH]; intros Ha; [done|]. intros [HF Hw]. split.
  - apply Forall_map in HF. apply Forall_forall. intros q Hq. eapply Forall_forall in HF; [|exact Hq]. simpl in HF.
    rewrite <- HF. symmetry. apply Ha; [by left|right; apply list_elem_of_fmap; by exists q].
  - apply IH; [|done]. intros a b Ha' Hb'. apply Ha; by right.
Qed.
Lemma entries_in_key_order st : engine_ok st → in_key_order st [] → state_kind st ≠ Unordered → bt_wf (entries st).
Proof using H0 LawfulCodec0 LawfulCodec1.
  destruct st as [t c|d c|s c]; intros Hst Ho Hk; [|done|by apply (entries_sorted s)].
  destruct Hst as [l Hs]. destruct (serves_reads t l Hs) as (Hw & He & _). cbn [entries state_backend].
  unfold in_key_order, keys in Ho. cbn [entries state_backend] in Ho. rewrite He in *. by apply agreed_wf.
Qed.
Lemma ordered_in_key_order st : engine_ok st → in_key_order st [] → sorted_entries st = ascending (entries st).
Proof using H0 LawfulCodec0 LawfulCodec1.
  intros Hst Ho. destruct st as [t c|d c|s c]; [|done..].
  pose proof (entries_in_key_order _ Hst Ho ltac:(done)) as Hwf. destruct Hst as [l Hs].
  destruct (serves_reads t l Hs) as (Hw & He & _). unfold sorted_entries, key_order.
  cbn [entries state_backend] in *. rewrite He in *. rewrite sorted_by_bytes by done. symmetry. by apply ascending_unique.
Qed.
Lemma range_in_key_order st s e p : in_key_order st [s; e] → p ∈ entries st → in_range st s e p.1 = within s e p.
Proof using Type.
  destruct st as [t c|d c|b c]; [|done..]. intros Ho Hp. unfold in_range, within, leb, ltb.
  assert (p.1 ∈ keys (SOrdered t c : St)) as Hk by (apply list_elem_of_fmap; by exists p).
  set (ks := [s; e] ++ keys (SOrdered t c : St)) in *.
  assert (s ∈ ks ∧ e ∈ ks ∧ p.1 ∈ ks) as (Is & Ie & Ip)
    by (unfold ks; rewrite !elem_of_app, !elem_of_cons; tauto).
  destruct (Ho s p.1 Is Ip) as [-> ->], (Ho p.1 e Ip Ie) as [_ ->], (Ho e e Ie Ie) as [-> _]. done.
Qed.
Lemma reads_in_key_order st : engine_ok st → in_key_order st [] →
  entries_rev st = rev (ascending (entries st)) ∧ first st = head (ascending (entries st)) ∧
  last_entry st = last (ascending (entries st)).
Proof using H0 LawfulCodec0 LawfulCodec1.
  intros Hst Ho. rewrite <- (ordered_in_key_order st) by done. exact (proj2 (state_ordered_as st Hst)).
Qed.
Lemma ranges_in_key_order st s e : engine_ok st → in_key_order st [s; e] →
  range st s e = List.filter (within s e) (ascending (entries st)) ∧ range_rev st s e = rev (range st s e).
Proof using H0 LawfulCodec0 LawfulCodec1.
  intros Hst Ho. destruct (proj1 (state_ordered_as st Hst) s e) as [Hr Hrr]. split; [|done].
  rewrite Hr, (ordered_in_key_order st) by (done || by eapply in_key_order_nil). apply filter_ext_in.
  intros p Hp. apply range_in_key_order; [done|]. apply list_elem_of_In in Hp. unfold ascending in Hp.
  by rewrite (sort_by_perm _ (entries st)) in Hp.
Qed.

(** ** Properties *)

(** C34. Whatever the engine, a state is a finite map: its keys are distinct, [get] and
    [contains] look them up, [size] counts them.  Its ordered reads are those
    of its entries sorted in the engine's order: the keys' own for the [KeyDir],
    whose entries [State] sorts, and for the skip list; that of the serialized
    keys for the B+ tree. *)
Theorem state_ordered_reads st : engine_ok st →
  NoDup (keys st) ∧ (∀ k, get st k = bt_get k (entries st)) ∧ (∀ k, contains st k = is_some (get st k)) ∧
  size st = length (entries st) ∧
  (∀ s e, range st s e = List.filter (λ p, in_range st s e p.1) (sorted_entries st) ∧
    range_rev st s e = rev (range st s e)) ∧
  entries_rev st = rev (sorted_entries st) ∧
  first st = head (sorted_entries st) ∧ last_entry st = last (sorted_entries st).
Proof using H0 LawfulCodec0 LawfulCodec1.
  intros Hst. destruct (state_reads st Hst) as (? & ? & ? & ?).
  do 4 (split; [done|]). exact (state_ordered_as st Hst).
Qed.
End Engines.
