(* ===== verification/TableLaws.v ===== *)
(** * Tables: contents, the log and recovery

    The theorems about [zendb-storage/src/table/table.rs].  The abstract state
    of a table is the map [table_get]; [table_ok] ties it to the topic: replaying
    the changes after the recovery offset over what a crash leaves of the state
    gives [table_get] back. *)
From stdpp Require Import base numbers option gmap sorting list.
From S2P Require Import Prelude Order BTreeMap Stamp Value CellOps Backend MergedEntries.
From S2P Require Import Serdes Topic TopicLog TopicLaws Table.
Import Table.

Section Laws.
Context `{L : Libp2p} {St Ca Off : Type}.
Context `{St_b : Backend St PrimaryKey Cell, !BackendLaws St PrimaryKey Cell} `{!OrderedBackend St PrimaryKey Cell}.
Context `{!Durable St, !DurableLaws St PrimaryKey Cell} `{St_k : HasKind St}.
Context `{Ca_b : Backend Ca PrimaryKey Cell, !BackendLaws Ca PrimaryKey Cell} `{!OrderedBackend Ca PrimaryKey Cell}.
Context `{!Bounded Ca, !BoundedLaws Ca PrimaryKey Cell}.
Context `{Off_b : Backend Off rstring Z, !BackendLaws Off rstring Z} `{!Durable Off, !DurableLaws Off rstring Z}.
Context `{Cd : Codec Change}.
Implicit Types (t : Table.Table St Ca Off) (k : PrimaryKey) (log pend : list Change).

(** No write changes which variant of [State] a state is. *)
Definition kind_stable : Prop := ∀ (s : St),
  (∀ k c, state_kind (put k c s).1 = state_kind s) ∧
  (∀ k, state_kind (delete k s).1 = state_kind s) ∧
  state_kind (flush s).1 = state_kind s ∧ state_kind (sync s).1 = state_kind s ∧
  state_kind (compact s).1 = state_kind s.
Hypothesis Hkind : kind_stable.

(** ** Replaying changes *)
Definition change_key (ch : Change) : PrimaryKey := primary_key (ch_event ch).
Definition replayed pend (f : PrimaryKey → option Cell) k : option Cell :=
  foldl (λ o ch, match cmp k (change_key ch) with Eq => current_cell ch | _ => o end) (f k) pend.
(** What a crash leaves of the state: an in-memory one is gone. *)
Definition durable (s : St) k : option Cell :=
  match state_kind s with InMemory => None | _ => get s k end.

Lemma replayed_app pend pend' f k :
  replayed (pend ++ pend') f k = replayed pend' (λ j, replayed pend f j) k.
Proof using Type. unfold replayed. by rewrite foldl_app. Qed.
Lemma replayed_ext pend f g k : f k = g k → replayed pend f k = replayed pend g k.
Proof using Type. unfold replayed. by intros ->. Qed.
(** Either a change decides the key, or none touches it. *)
Lemma replayed_const pend k : (∀ f g, replayed pend f k = replayed pend g k) ∨
  (∀ f, replayed pend f k = f k).
Proof using Type.
  unfold replayed. induction pend as [|ch pend IH] using rev_ind; [by right|].
  destruct (cmp k (change_key ch)) eqn:E.
  - left. intros f g. rewrite !foldl_app. simpl. by rewrite E.
  - destruct IH as [IH|IH]; [left; intros f g; rewrite !foldl_app; simpl; by rewrite E, (IH f g)|].
    right. intros f. rewrite foldl_app. simpl. rewrite E. apply IH.
  - destruct IH as [IH|IH]; [left; intros f g; rewrite !foldl_app; simpl; by rewrite E, (IH f g)|].
    right. intros f. rewrite foldl_app. simpl. rewrite E. apply IH.
Qed.
(** Writing final values into the state does not change what replay gives. *)
Lemma replayed_settle pend f f' g k : replayed pend f k = g k → f' k = f k ∨ f' k = g k →
  replayed pend f' k = g k.
Proof using Type.
  intros Hr [Hf|Hf]; [by rewrite (replayed_ext _ _ f)|].
  destruct (replayed_const pend k) as [Hc|Hc]; [by rewrite (Hc _ f)|by rewrite Hc].
Qed.

(** ** Invariants *)
Definition recovery_consumer t : option Topic.ConsumerState :=
  Topic.tp_consumers (tb_topic t) !! RECOVERY_CONSUMER.
Definition earliest t : Z := Topic.earliest_offset (Topic.tp_stats (tb_topic t)).
Definition tail t : Z := Topic.tp_next (tb_topic t).
Definition pending t log (st : Topic.ConsumerState) : list Change :=
  drop (Z.to_nat (Topic.committed st - earliest t)) log.

Record table_ok t log : Prop := {
  ok_state : backend_wf (tb_state t);
  ok_cache : backend_wf (tb_cache t);
  ok_offs : backend_wf (Topic.tp_offsets (tb_topic t));
  ok_topic : topic_wf (tb_topic t) log;
  ok_name : Topic.tc_name (tb_recovery t) = RECOVERY_CONSUMER;
  ok_consumer : ∃ st, recovery_consumer t = Some st ∧ Topic.volatile st = tail t ∧
    (earliest t ≤ Topic.committed st ≤ tail t)%Z ∧
    get (Topic.tp_offsets (tb_topic t)) RECOVERY_CONSUMER = Some (Topic.committed st) ∧
    ∀ k, replayed (pending t log st) (durable (tb_state t)) k = table_get t k;
}.
(** [novel_pending] counts the cached keys the state does not have. *)
Definition novel_ok t : Prop :=
  novel_pending t = length (List.filter (λ k, is_none (get (tb_state t) k)) (keys (tb_cache t))).
Definition same_contents t t' : Prop := ∀ k, table_get t' k = table_get t k.

(** A step that leaves the topic alone and writes only final values. *)
Lemma settle_ok t log s' c' n : table_ok t log →
  backend_wf s' → backend_wf c' → state_kind s' = state_kind (tb_state t) →
  (∀ k, get s' k = get (tb_state t) k ∨ get s' k = table_get t k) →
  same_contents t (mkTable s' c' n (tb_topic t) (tb_recovery t)) →
  table_ok (mkTable s' c' n (tb_topic t) (tb_recovery t)) log.
Proof using Type.
  intros [? ? ? ? ? (st & Hst & Hv & Hc & Hp & Hr)] Hs' Hc' Hk Hget Hsame.
  constructor; try done. exists st. split_and!; [done|done|apply Hc|apply Hc|done|].
  intros k. rewrite Hsame. change (pending (mkTable s' c' n _ _) log st) with (pending t log st).
  apply (replayed_settle _ (durable (tb_state t))); [done|].
  unfold durable. cbn [tb_state]. rewrite Hk. destruct (state_kind (tb_state t)); [apply Hget..|by left].
Qed.

(** ** Draining the cache *)
Lemma bulk_put_kind items (s : St) : state_kind (bulk_put items s).1 = state_kind s.
Proof using Hkind.
  revert s. induction items as [|[k c] items IH]; intros s; [done|]. simpl.
  pose proof (proj1 (Hkind s) k c) as Hp. destruct (put k c s) as [s1 [[]|e|]]; simpl in *; [|done..].
  by rewrite IH.
Qed.
(** The cached rows are entries the state accepts. *)
Definition cache_fits (fits : PrimaryKey → Cell → Prop) t : Prop :=
  Forall (λ p, fits p.1 p.2) (entries (tb_cache t)).
Lemma bulk_put_reliable fits items (s : St) : reliable (B:=St) fits backend_wf → backend_wf s →
  Forall (λ p, fits p.1 p.2) items → (bulk_put items s).2 = Ok tt.
Proof using Type.
  intros Hrel Hs Hfit. revert s Hs. induction Hfit as [|[k c] items Hkc _ IH]; intros s Hs; [done|]. simpl.
  pose proof (put_law k c s Hs) as Hp. pose proof (proj1 (Hrel s Hs) k c Hkc) as Hr.
  destruct (put k c s) as [s1 r]; simpl in *. subst r. simpl. apply IH. apply Hp.
Qed.
Definition same_log t t' : Prop := tb_topic t' = tb_topic t ∧ tb_recovery t' = tb_recovery t.
Lemma drain_cache_ok t log : table_ok t log →
  let (t', r) := drain_cache t in
  r ≠ Panic ∧ table_ok t' log ∧ same_contents t t' ∧ same_log t t' ∧
  state_kind (tb_state t') = state_kind (tb_state t) ∧
  capacity (tb_cache t') = capacity (tb_cache t) ∧
  (r = Ok tt → (∀ k, get (tb_cache t') k = None) ∧ (novel_ok t → novel_ok t')) ∧
  (∀ fits, reliable (B:=St) fits backend_wf → cache_fits fits t → r = Ok tt).
Proof using Hkind BoundedLaws0.
  intros Hok. pose proof Hok as [Hs Hc _ _ _ _]. unfold drain_cache.
  destruct (is_empty (tb_cache t)) eqn:Ee.
  { split_and!; try done. intros _. split; [|done]. by apply empty_get. }
  pose proof (bulk_put_kind (entries (tb_cache t)) (tb_state t)) as Hk.
  pose proof (λ fits R, bulk_put_reliable fits (entries (tb_cache t)) (tb_state t) R Hs) as Hrel.
  destruct (bulk_put (entries (tb_cache t)) (tb_state t)) as [s1 r1] eqn:Eb.
  destruct (bulk_put_spec _ _ _ _ Hs Eb) as (Hs1 & Hnp & Hfull & Hpart). unfold on_state. cbn [fst snd] in *.
  assert (∀ k, get s1 k = get (tb_state t) k ∨ get s1 k = table_get t k) as Hset.
  { intros k. destruct (Hpart k) as [?|(c & Hin & Hg)]; [by left|right].
    unfold table_get. apply get_elem in Hin; [|done]. by rewrite Hin. }
  assert (same_contents t (set_state s1 t)) as Hsame.
  { intros k. unfold table_get. cbn. destruct (get (tb_cache t) k) eqn:Ek; [done|].
    destruct (Hpart k) as [?|(c & Hin & Hg)]; [done|].
    apply get_elem in Hin; [congruence|done]. }
  destruct r1 as [[]|e|]; cbn [and_then]; [|split_and!; try done; by apply (settle_ok t)|done].
  pose proof (clear_law (tb_cache t) Hc) as Hcl. pose proof (clear_ok (tb_cache t) Hc) as Hclo.
  pose proof (clear_capacity (tb_cache t) Hc) as Hcap. cbn [tb_cache set_state].
  destruct (clear (tb_cache t)) as [c2 r2]; cbn [fst snd] in *. subst r2.
  destruct Hcl as (Hc2 & _ & Hemp). unfold on_cache. cbn.
  assert (same_contents t (mkTable s1 c2 0 (tb_topic t) (tb_recovery t))) as Hsame2.
  { intros k. unfold table_get. cbn. rewrite Hemp, (Hfull eq_refl).
    rewrite overlay_nodup by (by apply keys_nodup). rewrite <- get_entries by done. done. }
  split; [done|]. split; [by apply (settle_ok t)|]. split; [done|]. split; [done|].
  split; [done|]. split; [done|]. split; [|done].
  intros _. split; [done|]. intros _. unfold novel_ok. cbn.
  assert (keys c2 = []) as ->; [|done].
  destruct (keys c2) as [|k ks] eqn:E; [done|]. exfalso.
  assert (is_Some (get c2 k)) as [? Hx] by (apply elem_keys; [done|]; rewrite E; by left).
  by rewrite Hemp in Hx.
Qed.

(** ** Committing and writing back *)
(** A step of the writeback path: it never panics, keeps the contents and
    the log, and moves no consumer. *)
Definition keeps t t' log : Prop :=
  table_ok t' log ∧ same_contents t t' ∧ state_kind (tb_state t') = state_kind (tb_state t) ∧
  tail t' = tail t ∧ earliest t' = earliest t ∧
  tb_cache t' = tb_cache t ∧ novel_pending t' = novel_pending t ∧
  ∀ k, get (tb_state t') k = get (tb_state t) k.
Lemma keeps_refl t log : table_ok t log → keeps t t log.
Proof using Type. by intros. Qed.
Lemma keeps_trans t1 t2 t3 log : keeps t1 t2 log → keeps t2 t3 log → keeps t1 t3 log.
Proof using Type.
  intros (_ & S1 & K1 & T1 & E1 & C1 & N1 & G1) (? & S2 & K2 & T2 & E2 & C2 & N2 & G2).
  split_and!; [done|intros k; by rewrite S2|congruence..|intros k; by rewrite G2].
Qed.

Lemma on_state_ok {A} (r : St * io A) t log : table_ok t log →
  backend_wf r.1 → state_kind r.1 = state_kind (tb_state t) →
  (∀ k, get r.1 k = get (tb_state t) k) → keeps t (on_state r t).1 log.
Proof using Type.
  intros Hok Hwf Hk Hg.
  assert (same_contents t (set_state r.1 t)) as Hs by (intros k; unfold table_get; cbn; by rewrite Hg).
  split_and!; try done. apply (settle_ok t); try done; [apply Hok|]. intros k. by left.
Qed.

(** The consumer state after [commit]. *)
Definition caught_up (st : Topic.ConsumerState) : Topic.ConsumerState :=
  Topic.mkConsumer (Topic.volatile st) (Topic.volatile st) (Topic.reader_active st).
Lemma pending_caught_up t log st : table_ok t log → Topic.volatile st = tail t →
  pending t log (caught_up st) = [].
Proof using Type.
  intros Hok Hv. unfold pending. apply drop_ge. cbn. rewrite Hv.
  pose proof (topic_length _ _ (ok_topic _ _ Hok)). unfold tail, earliest. lia.
Qed.
Lemma commit_recovery_ok t log : table_ok t log →
  (state_kind (tb_state t) ≠ InMemory → ∀ k, get (tb_state t) k = table_get t k) →
  let (t', r) := commit_recovery t in
  r ≠ Panic ∧ keeps t t' log ∧
  (r = Ok tt → state_kind (tb_state t) ≠ InMemory →
    get (Topic.tp_offsets (tb_topic t')) RECOVERY_CONSUMER = Some (tail t)) ∧
  (∀ fits, reliable (B:=Off) fits backend_wf → fits RECOVERY_CONSUMER (tail t) → r = Ok tt).
Proof using Type.
  intros Hok Hset. unfold commit_recovery.
  assert (state_kind (tb_state t) ≠ InMemory →
    let (t', r) := on_topic (Topic.commit (tb_recovery t) (tb_topic t)) t in
    r ≠ Panic ∧ keeps t t' log ∧
    (r = Ok tt → get (Topic.tp_offsets (tb_topic t')) RECOVERY_CONSUMER = Some (tail t)) ∧
    (∀ fits, reliable (B:=Off) fits backend_wf → fits RECOVERY_CONSUMER (tail t) → r = Ok tt)) as Hcommit.
  { intros Hk. pose proof Hok as [Hs Hc Ho Ht Hn (st & Hst & Hv & Hb & Hp & Hr)].
    unfold Topic.commit, Topic.consumer_state. rewrite Hn. unfold recovery_consumer in Hst. rewrite Hst.
    pose proof (put_law RECOVERY_CONSUMER (Topic.volatile st) _ Ho) as Hput.
    destruct (put RECOVERY_CONSUMER (Topic.volatile st) (Topic.tp_offsets (tb_topic t))) as [o r] eqn:Ep.
    destruct Hput as (Ho' & Hnp & _ & Hg).
    assert (∀ fits, reliable (B:=Off) fits backend_wf → fits RECOVERY_CONSUMER (tail t) → r = Ok tt) as Hrel.
    { intros fits Hrel Hfit. rewrite <- Hv in Hfit. pose proof (proj1 (Hrel _ Ho) _ _ Hfit) as Hx.
      by rewrite Ep in Hx. }
    destruct r as [[]|e|]; unfold on_topic; cbn [fst snd]; [|..|done].
    - split; [done|]. split; [|split; [intros _; cbn; by rewrite Hg, Hv|done]].
      split_and!; try done. constructor; cbn; try done.
      + destruct Ht. by constructor.
      + exists (caught_up st). unfold recovery_consumer. cbn. rewrite lookup_insert_eq.
        split; [done|]. split; [done|]. unfold earliest, tail in *. cbn.
        split; [lia|]. split; [done|]. intros k.
        change (pending _ log (caught_up st)) with (pending t log (caught_up st)).
        rewrite pending_caught_up by done. transitivity (table_get t k); [|done].
        rewrite <- Hset by done. unfold replayed, durable; simpl. by destruct (state_kind (tb_state t)).
    - split; [done|]. split; [|done]. split_and!; try done. constructor; cbn; try done.
      + destruct Ht. by constructor.
      + exists st. unfold recovery_consumer. cbn. rewrite Hg. done. }
  destruct (state_kind (tb_state t)) eqn:Ek.
  1, 2: specialize (Hcommit ltac:(done)); destruct (on_topic _ _) as [t' r];
    destruct Hcommit as (? & ? & ? & ?); (split; [done|]; split; [done|]; split; [auto|done]).
  split; [done|]. split; [by apply keeps_refl|]. done.
Qed.

(** Writing the topic's offsets back. *)
Lemma on_offsets_ok (r : Off * io unit) t log : table_ok t log →
  backend_wf r.1 → (∀ n : rstring, get r.1 n = get (Topic.tp_offsets (tb_topic t)) n) →
  keeps t (set_topic (Topic.set_offsets r.1 (tb_topic t)) t) log.
Proof using Type.
  intros [Hs Hc Ho Ht Hn (st & Hst & Hv & Hb & Hp & Hr)] Hwf Hg.
  split_and!; try done. constructor; cbn; try done.
  - destruct Ht. by constructor.
  - exists st. unfold recovery_consumer. cbn. by rewrite Hg.
Qed.

(** The tail common to [flush], [sync] and the recovery: write the state
    back, commit the recovery offset, write the topic back. *)
Definition write_back (fs : St → St * io unit) (fo : Off → Off * io unit) t :
    Table.Table St Ca Off * io unit :=
  and_then (on_state (fs (tb_state t)) t) (λ t _,
  and_then (commit_recovery t) (λ t _,
    on_topic (let '(o, r) := fo (Topic.tp_offsets (tb_topic t)) in
              (Topic.set_offsets o (tb_topic t), r)) t)).
Lemma write_back_ok fs fo t log : table_ok t log →
  writes_nothing (K:=PrimaryKey) fs → (∀ s, state_kind (fs s).1 = state_kind s) →
  writes_nothing (K:=rstring) fo →
  (state_kind (tb_state t) ≠ InMemory → ∀ k, get (tb_state t) k = table_get t k) →
  let (t', r) := write_back fs fo t in
  r ≠ Panic ∧ keeps t t' log ∧
  (r = Ok tt → state_kind (tb_state t) ≠ InMemory →
    get (Topic.tp_offsets (tb_topic t')) RECOVERY_CONSUMER = Some (tail t)) ∧
  (∀ fits, reliable (B:=Off) fits backend_wf → fits RECOVERY_CONSUMER (tail t) → (∀ s, backend_wf s → (fs s).2 = Ok tt) →
    (∀ o, backend_wf o → (fo o).2 = Ok tt) → r = Ok tt).
Proof using Type.
  intros Hok Hfs Hfk Hfo Hset. unfold write_back.
  pose proof (Hfs _ (ok_state _ _ Hok)) as Hs. pose proof (Hfk (tb_state t)) as Hk.
  destruct (fs (tb_state t)) as [s1 r1] eqn:Es. destruct Hs as (Hs1 & Hnp1 & Hg1).
  pose proof (on_state_ok (s1, r1) t log Hok Hs1 Hk Hg1) as K1. unfold on_state in *. cbn [fst snd] in *.
  set (t1 := set_state s1 t) in *.
  destruct r1 as [[]|e|]; cbn [and_then]; [|..|done].
  2: { split_and!; try done. intros fits _ _ Hrel. specialize (Hrel _ (ok_state _ _ Hok)). by rewrite Es in Hrel. }
  pose proof K1 as (Hok1 & Hsame1 & Hk1 & T1 & _ & _ & _ & G1).
  assert (state_kind (tb_state t1) ≠ InMemory → ∀ k, get (tb_state t1) k = table_get t1 k) as Hset1.
  { intros Hne k. rewrite Hsame1, G1. apply Hset. by rewrite <- Hk1. }
  pose proof (commit_recovery_ok t1 log Hok1 Hset1) as Hc.
  destruct (commit_recovery t1) as [t2 r2]. destruct Hc as (Hnp2 & K2 & Hoff & Hrel2).
  pose proof (keeps_trans _ _ _ _ K1 K2) as K12.
  destruct r2 as [[]|e|]; cbn [and_then]; [|..|done].
  2: { split; [done|]. split; [done|]. split; [done|]. intros fits R F. rewrite <- T1 in F. by specialize (Hrel2 fits R F). }
  pose proof K2 as (Hok2 & _). pose proof (Hfo _ (ok_offs _ _ Hok2)) as Hf.
  pose proof (λ r, on_offsets_ok r t2 log Hok2) as K3.
  destruct (fo (Topic.tp_offsets (tb_topic t2))) as [o r3] eqn:Eo. destruct Hf as (Ho & Hnp3 & Hg3).
  specialize (K3 (o, r3) Ho Hg3). unfold on_topic. cbn [fst snd] in *.
  split; [done|]. split; [by eapply keeps_trans|]. split.
  - intros _ Hne. cbn. rewrite Hg3, <- T1. apply Hoff; [done|]. by rewrite Hk1.
  - intros fits _ _ _ Hrel. specialize (Hrel _ (ok_offs _ _ Hok2)). by rewrite Eo in Hrel.
Qed.

(** After a write-back of a drained table the state alone is the table. *)
Definition settled t : Prop := ∀ k, get (tb_state t) k = table_get t k.
Definition drained_back fs fo t : Table.Table St Ca Off * io unit :=
  and_then (drain_cache t) (λ t _, write_back fs fo t).
Lemma drained_back_ok fs fo t log : table_ok t log →
  writes_nothing (K:=PrimaryKey) fs → (∀ s, state_kind (fs s).1 = state_kind s) →
  writes_nothing (K:=rstring) fo →
  let (t', r) := drained_back fs fo t in
  r ≠ Panic ∧ table_ok t' log ∧ same_contents t t' ∧ tail t' = tail t ∧
  (r = Ok tt → settled t' ∧ (novel_ok t → novel_ok t') ∧ (state_kind (tb_state t) ≠ InMemory →
    get (Topic.tp_offsets (tb_topic t')) RECOVERY_CONSUMER = Some (tail t))).
Proof using Hkind BoundedLaws0 Durable1.
  intros Hok Hfs Hfk Hfo. unfold drained_back. pose proof (drain_cache_ok t log Hok) as Hd.
  destruct (drain_cache t) as [t1 r1]. destruct Hd as (Hnp & Hok1 & Hs1 & [Hl1 _] & Hk1 & _ & Hemp & _).
  assert (tail t1 = tail t) as Ht1 by (unfold tail; by rewrite Hl1).
  destruct r1 as [[]|e|]; cbn [and_then]; [|done|done].
  destruct (Hemp eq_refl) as [Hc0 Hn].
  assert (settled t1) as Hset by (intros k; unfold table_get; by rewrite Hc0).
  pose proof (write_back_ok fs fo t1 log Hok1 Hfs Hfk Hfo (λ _, Hset)) as Hw.
  destruct (write_back fs fo t1) as [t2 r2]. destruct Hw as (Hnp2 & K & Hoff & _).
  destruct K as (Hok2 & Hs2 & Hk2 & T2 & E2 & C2 & N2 & G2).
  split; [done|]. split; [done|]. split; [intros k; by rewrite Hs2|]. split; [congruence|].
  intros ->. split; [intros k; by rewrite G2, Hs2|]. split.
  - intros Hn0%Hn. unfold novel_ok in *. rewrite N2, C2, Hn0.
    f_equal. apply List.filter_ext. intros k. by rewrite G2.
  - intros Hne. rewrite <- Ht1. apply Hoff; [done|]. by rewrite Hk1.
Qed.

Lemma drained_back_keeps fs fo t log : table_ok t log →
  writes_nothing (K:=PrimaryKey) fs → (∀ s, state_kind (fs s).1 = state_kind s) →
  writes_nothing (K:=rstring) fo →
  let (t', _) := drained_back fs fo t in
  state_kind (tb_state t') = state_kind (tb_state t) ∧ capacity (tb_cache t') = capacity (tb_cache t).
Proof using Hkind BoundedLaws0 Durable1.
  intros Hok Hfs Hfk Hfo. unfold drained_back. pose proof (drain_cache_ok t log Hok) as Hd.
  destruct (drain_cache t) as [t1 r1]. destruct Hd as (_ & Hok1 & _ & _ & Hk1 & Hc1 & Hemp & _).
  destruct r1 as [[]|e|]; cbn [and_then]; [|done..]. destruct (Hemp eq_refl) as [Hc0 _].
  pose proof (write_back_ok fs fo t1 log Hok1 Hfs Hfk Hfo) as Hw. destruct (write_back fs fo t1) as [t2 r2].
  destruct Hw as (_ & (_ & _ & Hk2 & _ & _ & -> & _) & _); [|by rewrite Hk2, Hk1].
  intros _ k. unfold table_get. by rewrite Hc0.
Qed.

(** ** Inserting *)
Definition insert_walk (event : Event) t : Cell * result TypeError bool :=
  let previous := table_get t (primary_key event) in
  cell_apply_walk (path event) (default (dummy None) previous) (op event)
    (mkMergeStamps (from_option stamp EventStamp_default previous) (event_stamp event)).
Definition change_of (event : Event) t : Change :=
  mkChange event (table_get t (primary_key event)) (Some (insert_walk event t).1).

Lemma prepare_cache_ok k t log : table_ok t log → capacity (tb_cache t) ≠ Some 0 →
  let (t', r) := prepare_cache k t in
  r ≠ Panic ∧ table_ok t' log ∧ same_contents t t' ∧ same_log t t' ∧
  state_kind (tb_state t') = state_kind (tb_state t) ∧
  capacity (tb_cache t') = capacity (tb_cache t) ∧
  (r = Ok tt → (novel_ok t → novel_ok t') ∧ ∀ c, (put k c (tb_cache t')).2 = Ok tt) ∧
  (∀ fits, reliable (B:=St) fits backend_wf → cache_fits fits t → r = Ok tt).
Proof using Hkind BoundedLaws0.
  intros Hok Hcap. unfold prepare_cache, max_buffered. pose proof (drain_cache_ok t log Hok) as Hd.
  assert (backend_wf (tb_cache t)) as Hc by apply Hok.
  destruct (capacity (tb_cache t)) as [m|] eqn:Em; cbn [andb].
  2: { split_and!; try done. intros _. split; [done|]. intros c. apply put_room; [done|]. right. by rewrite Em. }
  destruct (Nat.leb_spec m (size (tb_cache t))) as [Hle|Hlt]; cbn [andb].
  2: { split_and!; try done. intros _. split; [done|]. intros c. apply put_room; [done|]. right. by rewrite Em. }
  destruct (contains (tb_cache t) k) eqn:Ec; cbn [negb].
  { split_and!; try done. intros _. split; [done|]. intros c. apply put_room; [done|]. left.
    rewrite contains_get in Ec by done. destruct (get (tb_cache t) k); [eauto|done]. }
  destruct (drain_cache t) as [t' r].
  destruct Hd as (Hnp & Hok' & Hs & Hl & Hk & Hcap' & Hemp & Hrel). split_and!; try done.
  intros Hr. destruct (Hemp Hr) as [H0' Hn]. split; [done|]. intros c.
  apply put_room; [apply Hok'|]. right. rewrite Hcap'.
  assert (size (tb_cache t') = 0) as ->; [|destruct m; [done|lia]].
  rewrite size_entries by apply Hok'. destruct (entries (tb_cache t')) as [|[j x] l] eqn:E; [done|].
  exfalso. assert (get (tb_cache t') j = Some x) as Hx.
  { apply get_elem; [apply Hok'|]. rewrite E. by left. }
  by rewrite H0' in Hx.
Qed.

(** The contents after a change, and the invariants of the log. *)
Definition extends t t' log (change : Change) : Prop :=
  (∀ k, table_get t' k = match cmp k (change_key change) with
                         | Eq => current_cell change | _ => table_get t k end) ∧
  ∃ j, j ≤ length log ∧ table_ok t' (drop j log ++ [change]) ∧ tail t' = (tail t + 1)%Z.
Lemma novel_put k c t cache' : backend_wf (tb_cache t) → put k c (tb_cache t) = (cache', Ok tt) →
  novel_ok t → novel_pending (if is_none (table_get t k) then set_novel (novel_pending t + 1) t else t) =
    length (List.filter (λ j, is_none (get (tb_state t) j)) (keys cache')).
Proof using Type.
  intros Hc Hp Hn. destruct (put_ok _ _ _ _ Hc Hp) as (Hc' & Hg & Hother).
  set (P := λ j, is_none (get (tb_state t) j)) in *.
  assert (NoDup (keys (tb_cache t)) ∧ NoDup (keys cache')) as [Hnd Hnd']
    by (split; by apply keys_nodup).
  destruct (get (tb_cache t) k) as [x|] eqn:Ek.
  - assert (keys cache' ≡ₚ keys (tb_cache t)) as Hperm.
    { apply NoDup_Permutation; [done|done|]. intros j. rewrite !elem_keys by done.
      destruct (decide (j = k)) as [->|]; [rewrite Hg, Ek; split; eauto|by rewrite Hother]. }
    unfold table_get. rewrite Ek. cbn. unfold novel_ok in Hn. rewrite Hn.
    fold P. apply Permutation_length. by rewrite Hperm.
  - assert (keys cache' ≡ₚ k :: keys (tb_cache t)) as Hperm.
    { apply NoDup_Permutation; [done| |].
      - apply NoDup_cons. split; [|done]. rewrite elem_keys by done. rewrite Ek. by intros [].
      - intros j. rewrite elem_of_cons, !elem_keys by done.
        destruct (decide (j = k)) as [->|Hne]; [rewrite Hg; naive_solver|rewrite Hother by done].
        naive_solver. }
    unfold table_get. rewrite Ek.
    transitivity (length (List.filter P (k :: keys (tb_cache t)))); [|apply Permutation_length; by rewrite Hperm].
    unfold novel_ok in Hn. simpl. unfold P at 1.
    destruct (get (tb_state t) k); cbn; rewrite Hn; fold P; [done|]. rewrite Nat.add_comm. done.
Qed.
(** Appending the change, caching the row and moving the recovery offset. *)
Definition record_change change t : Table.Table St Ca Off * io InsertOutcome :=
  and_then (on_topic (Topic.append change (tb_topic t)) t) (λ t offset,
  and_then (on_cache (put (change_key change) (default (dummy None) (current_cell change)) (tb_cache t)) t) (λ t _,
    let t := if is_none (previous change) then set_novel (novel_pending t + 1) t else t in
    let '(topic, h) := Topic.seek (offset + 1) (tb_recovery t) (tb_topic t) in
    (set_recovery h (set_topic topic t), Ok (Applied change)))).
Lemma pending_append t (top : Topic.Topic Off) log st j change :
  (earliest t ≤ Topic.committed st ≤ tail t)%Z → topic_wf (tb_topic t) log →
  Topic.earliest_offset (Topic.tp_stats top) = (earliest t + Z.of_nat j)%Z → j ≤ length log →
  (earliest t + Z.of_nat j ≤ Topic.committed st)%Z →
  drop (Z.to_nat (Topic.committed st - Topic.earliest_offset (Topic.tp_stats top))) (drop j log ++ [change]) =
  pending t log st ++ [change].
Proof using Type.
  intros Hb Hw He Hj Hc. pose proof (topic_length _ _ Hw) as Hl. unfold tail, earliest in *.
  rewrite He, drop_app_le by (rewrite length_drop; lia). f_equal.
  unfold pending, earliest. rewrite drop_drop. f_equal. lia.
Qed.
Lemma record_change_ok change c t log : table_ok t log → storable change →
  current_cell change = Some c → previous change = table_get t (change_key change) →
  8 + length (encoded change) ≤ Topic.tp_disk (tb_topic t) →
  (put (change_key change) c (tb_cache t)).2 = Ok tt →
  let (t', r) := record_change change t in
  r = Ok (Applied change) ∧ extends t t' log change ∧ (novel_ok t → novel_ok t').
Proof using Type.
  intros Hok Hst Hcur Hprev Hd Hput. pose proof Hok as [Hs Hc Ho Ht Hn (st & Hcs & Hv & Hb & Hp & Hr)].
  unfold record_change. rewrite Hcur. change (default (dummy None) (Some c)) with c.
  pose proof (append_ok (tb_topic t) log change Ht Hst Hd) as Ha.
  destruct (Topic.append change (tb_topic t)) as [top r1].
  destruct Ha as (-> & j & Hj & Hw & He & Hnx & (Hsc & Hso & _) & Hret).
  unfold on_topic. cbn [and_then fst snd tb_cache set_topic].
  destruct (put (change_key change) c (tb_cache t)) as [cache' r2] eqn:Ep.
  cbn [snd] in Hput. subst r2. destruct (put_ok _ _ _ _ Hc Ep) as (Hc' & Hg & Hother).
  unfold on_cache. cbn [and_then fst snd].
  set (t2 := if is_none (previous change) then _ else _).
  assert (t2 = mkTable (tb_state t) cache' (novel_pending
    (if is_none (table_get t (change_key change)) then set_novel (novel_pending t + 1) t else t)) top (tb_recovery t)) as ->.
  { unfold t2. rewrite Hprev. by destruct (table_get t (change_key change)). }
  unfold Topic.seek. cbn [tb_topic tb_recovery]. split; [done|].
  unfold recovery_consumer in Hcs. unfold Topic.set_volatile, Topic.consumer_state.
  rewrite Hn, Hsc, Hcs. split; [|intros Hnov; exact (novel_put _ _ _ _ Hc Ep Hnov)].
  assert (earliest t + Z.of_nat j ≤ Topic.committed st)%Z as Hkeep.
  { destruct Hret as [Hz|Hz]; [unfold earliest in *; lia|]. specialize (Hz _ _ Hcs). unfold earliest. lia. }
  assert (∀ k, match get cache' k with Some x => Some x | None => get (tb_state t) k end =
    match cmp k (change_key change) with Eq => current_cell change | _ => table_get t k end) as Hget.
  { intros k. destruct (cmpP k (change_key change)) as [->|Hk|Hk]; [by rewrite Hg, Hcur|..];
      rewrite Hother; try done; intros ->; by rewrite cmp_refl in Hk. }
  split; [exact Hget|]. exists j. split; [done|]. split; [|done].
  constructor; cbn; try done.
  - by rewrite Hso.
  - destruct Hw. by constructor.
  - exists (Topic.mkConsumer (Topic.committed st) (tail t + 1) (Topic.reader_active st)).
    unfold recovery_consumer. cbn. rewrite lookup_insert_eq, Hso.
    split; [done|]. split; [unfold tail; cbn; lia|]. unfold earliest, tail in *. cbn.
    split; [lia|]. split; [done|]. intros k. unfold pending, earliest. cbn.
    rewrite (pending_append t top log st j change) by done.
    rewrite replayed_app. unfold replayed at 1. simpl. rewrite Hr.
    symmetry. apply Hget.
Qed.

Lemma insert_ok event t log : table_ok t log → capacity (tb_cache t) ≠ Some 0 →
  storable (change_of event t) →
  8 + length (encoded (change_of event t)) ≤ Topic.tp_disk (tb_topic t) →
  let (t', r) := insert event t in
  match r with
  | Ok Ignored => t' = t ∧ (insert_walk event t).2 = Ok false
  | Ok (Applied change) => change = change_of event t ∧ (insert_walk event t).2 = Ok true ∧
      extends t t' log change ∧ (novel_ok t → novel_ok t')
  | Err _ => table_ok t' log ∧ same_contents t t' ∧ tail t' = tail t
  | Panic => False
  end ∧
  (∀ fits, reliable (B:=St) fits backend_wf → cache_fits fits t → is_ok r = is_ok (insert_walk event t).2).
Proof using Hkind BoundedLaws0.
  intros Hok Hcap Hst Hd. unfold insert.
  change (cell_apply_walk _ _ _ _) with (insert_walk event t).
  pose proof (cell_apply_walk_total (path event) (default (dummy None) (table_get t (primary_key event)))
    (op event) (mkMergeStamps (from_option stamp EventStamp_default (table_get t (primary_key event)))
      (event_stamp event)) : (insert_walk event t).2 ≠ Panic) as Hnp.
  unfold change_of in *. remember (insert_walk event t) as walk eqn:Ew. clear Ew.
  destruct walk as [cur [[]|e|]]; cbn [fst snd] in *; [|by split; [|intros]..].
  set (ch := mkChange event (table_get t (primary_key event)) (Some cur)) in *.
  pose proof (prepare_cache_ok (primary_key event) t log Hok Hcap) as Hprep.
  destruct (prepare_cache (primary_key event) t) as [t1 r1].
  destruct Hprep as (Hnp1 & Hok1 & Hs1 & [Hl1 _] & _ & _ & Hroom & Hrel).
  destruct r1 as [[]|e|]; cbn [and_then]; [| |done].
  2: { split; [|intros fits Hre Hf; by specialize (Hrel fits Hre Hf)]. split_and!; [done..|]. unfold tail. by rewrite Hl1. }
  destruct (Hroom eq_refl) as [Hn1 Hput].
  match goal with |- context [and_then (on_topic ?a ?b) ?f] =>
    change (and_then (on_topic a b) f) with (record_change ch t1) end.
  rewrite <- Hl1 in Hd.
  pose proof (record_change_ok ch cur t1 log Hok1 Hst eq_refl (eq_sym (Hs1 _)) Hd (Hput cur)) as Hrc.
  destruct (record_change ch t1) as [t' r]. destruct Hrc as (-> & [Hget Hext] & Hnov).
  split; [|done]. split; [done|]. split; [done|]. split; [split|].
  - intros k. rewrite Hget. by rewrite Hs1.
  - unfold tail in *. by rewrite <- Hl1.
  - intros Hn. apply Hnov. by apply Hn1.
Qed.
(** An insert changes neither the variant of the state nor the room of the
    cache. *)
Lemma insert_keeps event t log : table_ok t log → capacity (tb_cache t) ≠ Some 0 →
  state_kind (tb_state (insert event t).1) = state_kind (tb_state t) ∧
  capacity (tb_cache (insert event t).1) = capacity (tb_cache t).
Proof using Hkind BoundedLaws0.
  intros Hok Hcap. unfold insert. destruct (cell_apply_walk _ _ _ _) as [cur [[]|e|]]; try done.
  pose proof (prepare_cache_ok (primary_key event) t log Hok Hcap) as Hp.
  destruct (prepare_cache _ t) as [t1 r]. destruct Hp as (_ & Hok1 & _ & _ & Hk1 & Hc1 & _).
  destruct r as [[]|e|]; cbn [and_then fst]; [|done..]. rewrite <- Hc1, <- Hk1.
  unfold on_topic. destruct (Topic.append _ _) as [top [o|e|]]; cbn; [|done..].
  unfold on_cache. cbn. pose proof (put_capacity (primary_key event) cur (tb_cache t1) (ok_cache _ _ Hok1)) as Hput.
  destruct (put _ cur _) as [c [[]|e|]]; cbn in *; [|done..]. by destruct (is_none _); cbn; repeat case_match.
Qed.
End Laws.
