(* ===== verification/TableRecovery.v ===== *)
(** * Tables: replay, crash recovery and write-back

    [Table::open] after a crash, and the theorems of
    [zendb-storage/src/table/table.rs] about [insert], [flush] and [sync]. *)
From stdpp Require Import base numbers option gmap sorting list.
From S2P Require Import Prelude Order BTreeMap Stamp Value CellOps Backend MergedEntries.
From S2P Require Import Serdes Topic TopicLog TopicLaws Table TableLaws.
Import Table.

Section Recovery.
Context `{L : Libp2p} {St Ca Off : Type}.
Context `{St_b : Backend St PrimaryKey Cell, !BackendLaws St PrimaryKey Cell} `{!OrderedBackend St PrimaryKey Cell}.
Context `{!Durable St, !DurableLaws St PrimaryKey Cell} `{St_k : HasKind St}.
Context `{Ca_b : Backend Ca PrimaryKey Cell, !BackendLaws Ca PrimaryKey Cell} `{!OrderedBackend Ca PrimaryKey Cell}.
Context `{!Bounded Ca, !BoundedLaws Ca PrimaryKey Cell}.
Context `{Off_b : Backend Off rstring Z, !BackendLaws Off rstring Z} `{!Durable Off, !DurableLaws Off rstring Z}.
Context `{Cd : Codec Change}.
Implicit Types (t : Table.Table St Ca Off) (k : PrimaryKey) (log pend : list Change).
Hypothesis Hkind : kind_stable (St:=St).

(** ** Replay *)
(** The state accepts the row a change sets. *)
Definition change_fits (fits : PrimaryKey → Cell → Prop) change : Prop :=
  match current_cell change with Some c => fits (change_key change) c | None => True end.
Lemma replay_change_ok change t : backend_wf (tb_state t) →
  let (t', r) := replay_change change t in
  r ≠ Panic ∧ backend_wf (tb_state t') ∧
  t' = set_state (tb_state t') t ∧ state_kind (tb_state t') = state_kind (tb_state t) ∧
  (r = Ok tt → ∀ k, get (tb_state t') k = replayed [change] (get (tb_state t)) k) ∧
  (∀ fits, reliable (B:=St) fits backend_wf → change_fits fits change → r = Ok tt).
Proof using Hkind.
  intros Hs. unfold change_fits, replay_change, on_state. destruct (Hkind (tb_state t)) as (Hk1 & Hk2 & _).
  destruct (current_cell change) as [c|] eqn:Ec.
  - pose proof (put_law (change_key change) c _ Hs) as Hp. specialize (Hk1 (change_key change) c).
    pose proof (λ fits (R : reliable (B:=St) fits backend_wf), proj1 (R _ Hs) (change_key change) c) as Hrel.
    unfold change_key in *. destruct (put _ c (tb_state t)) as [s r].
    destruct Hp as (Hs' & Hnp & Hother & Hg). cbn [fst snd] in *.
    split_and!; try done. intros -> k. unfold replayed, change_key. simpl. rewrite Ec.
    destruct (cmpP k (primary_key (ch_event change))) as [->|Hk|Hk]; [done|..]; apply Hother;
      intros ->; by rewrite cmp_refl in Hk.
  - pose proof (delete_law (change_key change) _ Hs) as Hp. specialize (Hk2 (change_key change)).
    pose proof (λ fits (R : reliable (B:=St) fits backend_wf), proj1 (proj2 (R _ Hs)) (change_key change)) as Hrel.
    unfold change_key in *. destruct (delete _ (tb_state t)) as [s r].
    destruct Hp as (Hs' & Hnp & Hother & Hg). cbn [fst snd] in *.
    destruct r as [gone|e|]; cbn [and_then]; [..|done].
    + split_and!; try done. intros _ k. unfold replayed, change_key. simpl. rewrite Ec.
      destruct (cmpP k (primary_key (ch_event change))) as [->|Hk|Hk]; [apply Hg|..]; apply Hother;
        intros ->; by rewrite cmp_refl in Hk.
    + split_and!; try done. intros fits R _. by specialize (Hrel fits R).
Qed.

(** The table after the replay loop: only the state, the volatile offset and
    the cursor moved. *)
Definition after_replay t t' (st : Topic.ConsumerState) : Prop :=
  tb_topic t' = Topic.set_volatile (tb_recovery t) (Z.max (Topic.volatile st) (tail t)) (tb_topic t) ∧
  tb_cache t' = tb_cache t ∧ novel_pending t' = novel_pending t ∧
  Topic.tc_name (tb_recovery t') = Topic.tc_name (tb_recovery t).
Lemma replay_loop_ok fuel t log st : topic_wf (tb_topic t) log →
  reader_ok (tb_topic t) log (tb_recovery t) st → backend_wf (tb_state t) →
  Z.to_nat (tail t - Topic.volatile st) < fuel →
  let (t', r) := replay_loop fuel t in
  r ≠ Panic ∧
  (r = Ok tt → after_replay t t' st ∧ backend_wf (tb_state t') ∧
    state_kind (tb_state t') = state_kind (tb_state t) ∧
    ∀ k, get (tb_state t') k =
      replayed (drop (Z.to_nat (Topic.volatile st - earliest t)) log) (get (tb_state t)) k) ∧
  (∀ fits, reliable (B:=St) fits backend_wf → Forall (change_fits fits) log → r = Ok tt).
Proof using Hkind.
  revert t st. induction fuel as [|fuel IH]; intros t st Hwf Hr Hs Hf; [lia|].
  cbn [replay_loop]. pose proof (next_ok _ _ _ _ Hwf Hr) as Hn. pose proof Hr as (Hst & Hlo & _).
  pose proof (topic_length _ _ Hwf) as Hlen. unfold tail in *.
  destruct (Z.leb_spec (Topic.tp_next (tb_topic t)) (Topic.volatile st)) as [Hle|Hlt].
  - destruct Hn as (h' & -> & Hn). split_and!; try done. intros _. split; [|split; [done|split; [done|]]].
    + unfold after_replay, tail. cbn.
      rewrite Z.max_l, (set_volatile_id _ _ _ Hst) by lia. done.
    + intros k. rewrite drop_ge by (unfold earliest; lia). done.
  - destruct Hn as (change & h' & Hv & -> & Hn & Hr').
    set (t1 := set_recovery h' (set_topic _ t)).
    pose proof (replay_change_ok change t1 Hs) as Hc.
    destruct (replay_change change t1) as [t2 r2].
    destruct Hc as (Hnp & Hs2 & Ht2 & Hk2 & Hget & Hrel).
    destruct r2 as [[]|e|]; cbn [and_then]; [| |done].
    2: { split_and!; [done|done|]. intros fits R F. rewrite Forall_forall in F.
      by specialize (Hrel fits R (F _ (list_elem_of_lookup_2 _ _ _ Hv))). }
    assert (tb_topic t2 = Topic.set_volatile (tb_recovery t) (Topic.volatile st + 1) (tb_topic t) ∧
      tb_recovery t2 = h' ∧ tb_cache t2 = tb_cache t ∧ novel_pending t2 = novel_pending t)
      as (Et & Eh & Ec & En) by (by rewrite Ht2).
    specialize (IH t2 (advanced st)). unfold tail in IH. rewrite Et, Eh, set_volatile_next in IH.
    specialize (IH (set_volatile_wf _ _ _ _ Hwf) Hr' Hs2 ltac:(cbn; lia)).
    destruct (replay_loop fuel t2) as [t3 r3]. destruct IH as (Hnp3 & H3 & Hrel3).
    split; [done|]. split; [|done]. intros Hr3. destruct (H3 Hr3) as ((A1 & A2 & A3 & A4) & B & C & D).
    split; [|split; [done|split; [by rewrite C, Hk2|]]].
    + split_and!; [|congruence..]. rewrite A1. unfold tail. rewrite Et, Eh.
      rewrite set_volatile_next, (set_volatile_twice _ _ _ _ _ _ Hst Hn).
      cbn [Topic.volatile advanced]. rewrite !Z.max_r by lia. done.
    + intros k. rewrite D. unfold earliest. rewrite Et, set_volatile_stats.
      rewrite (drop_S log change (Z.to_nat (Topic.volatile st -
        Topic.earliest_offset (Topic.tp_stats (tb_topic t))))) by done.
      rewrite (replayed_app [change] (drop _ log) (get (tb_state t)) k : replayed (change :: drop _ log) _ k = _).
      cbn [Topic.volatile advanced].
      replace (Z.to_nat (Topic.volatile st + 1 - Topic.earliest_offset (Topic.tp_stats (tb_topic t))))
        with (S (Z.to_nat (Topic.volatile st - Topic.earliest_offset (Topic.tp_stats (tb_topic t))))) by lia.
      apply replayed_ext. by apply Hget.
Qed.

(** What a crash of [t] leaves for the next open: the state's durable part,
    an empty cache, the offsets, and the topic's files with perhaps a torn
    record at their end. *)
Record crashed t (torn_tail : list Z) (s0 : St) (c0 : Ca) (dir : list (Z * list Z)) (offs0 : Off) : Prop := {
  cr_state : backend_wf s0 ∧ state_kind s0 = state_kind (tb_state t) ∧
    ∀ k, get s0 k = durable (tb_state t) k;
  cr_cache : backend_wf c0 ∧ ∀ k, get c0 k = None;
  cr_offs : backend_wf offs0 ∧ ∀ n : rstring, get offs0 n = get (Topic.tp_offsets (tb_topic t)) n;
  cr_files : dir ≡ₚ files_of (tb_topic t) torn_tail;
  cr_torn : torn torn_tail;
}.

(** The recovery consumer of a topic just opened. *)
Lemma recovery_handle t log tail0 s0 c0 dir offs0 max_bytes disk :
  table_ok t log → crashed t tail0 s0 c0 dir offs0 →
  ∃ top c, Topic.open_topic max_bytes dir offs0 disk = Ok top ∧
    Topic.consumer RECOVERY_CONSUMER top =
      (Topic.set_consumers (<[RECOVERY_CONSUMER := Topic.mkConsumer c c true]> (Topic.tp_consumers top)) top,
       Ok (Topic.mkHandle RECOVERY_CONSUMER None)) ∧
    topic_wf top log ∧ Topic.tp_next top = tail t ∧
    Topic.earliest_offset (Topic.tp_stats top) = earliest t ∧ Topic.tp_offsets top = offs0 ∧
    get offs0 RECOVERY_CONSUMER = Some c ∧ (earliest t ≤ c ≤ tail t)%Z ∧
    ∀ k, replayed (drop (Z.to_nat (c - earliest t)) log) (durable (tb_state t)) k = table_get t k.
Proof using Type.
  intros [_ _ _ Ht _ (st & Hst & Hv & Hb & Hp & Hr)] [_ _ [Ho Hoe] Hdir Htorn].
  destruct (open_topic_ok (tb_topic t) log tail0 dir max_bytes offs0 disk Ht Htorn Hdir Ho)
    as (top & Hopen & Hw & Hn & He & Hc).
  exists top, (Topic.committed st). split; [done|].
  assert (Topic.tp_offsets top = offs0) as Hoffs.
  { unfold Topic.open_topic in Hopen. destruct (last _) as [[base file]|]; [|done].
    destruct (Topic.scan_active_segment file base) as [[[en len] ?]|e|]; cbn [rbind] in Hopen; [|done..].
    destruct (Topic.open_segments _ _ _) as [segs|e|]; cbn [rbind] in Hopen; [|done..].
    destruct (head segs), (last segs); try done. by injection Hopen as <-. }
  split; [|split_and!; [done|by rewrite Hn|by rewrite He|done|by rewrite Hoe|apply Hb|apply Hb|done]].
  unfold Topic.consumer. rewrite Hc, Hoe, Hp. cbn [fmap option_fmap option_map].
  reflexivity.
Qed.

Lemma replayed_table_ok t log tail0 s0 c0 dir offs0 top c t2 :
  table_ok t log → crashed t tail0 s0 c0 dir offs0 →
  topic_wf top log → Topic.tp_next top = tail t →
  Topic.earliest_offset (Topic.tp_stats top) = earliest t → Topic.tp_offsets top = offs0 →
  get offs0 RECOVERY_CONSUMER = Some c → (earliest t ≤ c ≤ tail t)%Z →
  (∀ k, replayed (drop (Z.to_nat (c - earliest t)) log) (durable (tb_state t)) k = table_get t k) →
  let h := Topic.mkHandle RECOVERY_CONSUMER None in
  let top1 := Topic.set_consumers (<[RECOVERY_CONSUMER := Topic.mkConsumer c c true]> (Topic.tp_consumers top)) top in
  after_replay (mkTable s0 c0 0 top1 h) t2 (Topic.mkConsumer c c true) →
  backend_wf (tb_state t2) → state_kind (tb_state t2) = state_kind s0 →
  (∀ k, get (tb_state t2) k = replayed (drop (Z.to_nat (c - earliest t)) log) (get s0) k) →
  table_ok t2 log ∧ same_contents t t2 ∧ novel_ok t2 ∧ settled t2.
Proof using Type.
  intros Hok [(Hs0 & Hk0 & Hg0) [Hc0 Hce] [Ho Hoe] _ _] Hw Hn He Hoffs Hp Hb Hr h top1
    (A1 & A2 & A3 & A4) Hs2 Hk2 Hg2. cbn [tb_topic tb_recovery tb_cache novel_pending] in *.
  unfold tail in A1. cbn [tb_topic top1 Topic.set_consumers Topic.tp_next Topic.volatile] in A1.
  rewrite Hn, Z.max_r in A1 by lia.
  assert (settled t2) as Hset by (intros k; unfold table_get; by rewrite A2, Hce).
  assert (∀ k, replayed (drop (Z.to_nat (c - earliest t)) log) (get s0) k = table_get t k) as Hr0.
  { intros k. rewrite <- Hr. apply replayed_ext. apply Hg0. }
  assert (same_contents t t2) as Hsame by (intros k; by rewrite <- Hset, Hg2, Hr0).
  split; [|split; [done|split; [|done]]].
  - constructor.
    + done.
    + by rewrite A2.
    + rewrite A1. unfold Topic.set_volatile. case_match; cbn; by rewrite Hoffs.
    + rewrite A1. apply set_volatile_wf. by apply topic_wf_consumers.
    + by rewrite A4.
    + exists (Topic.mkConsumer c (tail t) true).
      assert (tail t2 = tail t) as Ht2 by (unfold tail; rewrite A1, set_volatile_next; exact Hn).
      assert (earliest t2 = earliest t) as He2 by (unfold earliest; rewrite A1, set_volatile_stats; exact He).
      split_and!.
      * unfold recovery_consumer. rewrite A1.
        apply (set_volatile_state h (tail t) top1 (Topic.mkConsumer c c true) h); [|done].
        unfold Topic.consumer_state. cbn. by rewrite lookup_insert_eq.
      * by rewrite Ht2.
      * rewrite He2. apply Hb.
      * rewrite Ht2. apply Hb.
      * rewrite A1. unfold Topic.set_volatile. case_match; cbn; by rewrite Hoffs.
      * intros k. unfold pending. rewrite He2. cbn [Topic.committed].
        rewrite Hsame. unfold durable. rewrite Hk2, Hk0.
        destruct (state_kind (tb_state t)) eqn:Ek.
        1, 2: apply (replayed_settle _ (get s0)); [done|right; by rewrite Hg2].
        rewrite <- Hr. apply replayed_ext. unfold durable. by rewrite Ek.
  - unfold novel_ok. rewrite A3, A2.
    assert (keys c0 = []) as ->; [|done].
    destruct (keys c0) as [|k ks] eqn:E; [done|]. exfalso.
    assert (is_Some (get c0 k)) as [? Hx] by (apply elem_keys; [done|]; rewrite E; by left).
    by rewrite Hce in Hx.
Qed.

Lemma flush_nothing {B K V : Type} `{TotalCmp K, Bb : Backend B K V, !BackendLaws B K V, !Durable B,
  !DurableLaws B K V} : writes_nothing (B:=B) (K:=K) flush ∧ writes_nothing (B:=B) (K:=K) sync.
Proof using Type. split; intros b Hb; [by apply flush_law|by apply sync_law]. Qed.
Lemma open_table_ok t log tail0 s0 c0 dir offs0 max_bytes disk fuel :
  table_ok t log → crashed t tail0 s0 c0 dir offs0 → Z.to_nat (tail t - earliest t) < fuel →
  let r := open_table fuel s0 c0 max_bytes dir offs0 disk in
  r ≠ Panic ∧
  (∀ t', r = Ok t' → table_ok t' log ∧ same_contents t t' ∧ novel_ok t' ∧ settled t') ∧
  (∀ fits offsets_fit, reliable (B:=St) fits backend_wf → Forall (change_fits fits) log →
    reliable (B:=Off) offsets_fit backend_wf → offsets_fit RECOVERY_CONSUMER (tail t) → is_ok r = true).
Proof using Hkind BoundedLaws0 DurableLaws0 DurableLaws1.
  intros Hok Hcr Hf.
  destruct (recovery_handle t log tail0 s0 c0 dir offs0 max_bytes disk Hok Hcr)
    as (top & c & Hopen & Hcons & Hw & Hn & He & Hoffs & Hp & Hb & Hr).
  cbv zeta. unfold open_table. rewrite Hopen. cbn [rbind]. rewrite Hcons. cbn [rbind].
  set (h := Topic.mkHandle RECOVERY_CONSUMER None). set (top1 := Topic.set_consumers _ top).
  assert (reader_ok top1 log h (Topic.mkConsumer c c true)) as Hrd.
  { split_and!; [|cbn; lia|done]. unfold Topic.consumer_state. cbn. by rewrite lookup_insert_eq. }
  pose proof (replay_loop_ok fuel (mkTable s0 c0 0 top1 h) log (Topic.mkConsumer c c true)) as Hl.
  specialize (Hl (topic_wf_consumers _ _ _ Hw) Hrd (proj1 (cr_state _ _ _ _ _ _ Hcr))).
  unfold tail, earliest in Hl. cbn [tb_topic Topic.volatile] in Hl. cbn [top1 Topic.set_consumers Topic.tp_next Topic.tp_stats] in Hl.
  fold top1 in Hl. rewrite Hn, He in Hl. specialize (Hl ltac:(lia)).
  unfold replay_recovery. destruct (replay_loop fuel _) as [t2 r2].
  destruct Hl as (Hnp2 & H2 & Hrel2).
  destruct r2 as [[]|e|]; cbn [and_then]; [|..|done].
  2: { split; [done|]. split; [done|]. intros fits ofits R F _ _. by specialize (Hrel2 fits R F). }
  destruct (H2 eq_refl) as (A & B & C & D). cbn [tb_state] in C, D.
  destruct (replayed_table_ok t log tail0 s0 c0 dir offs0 top c t2 Hok Hcr Hw Hn He Hoffs Hp Hb Hr A B C D)
    as (Hok2 & Hs2 & Hnov2 & Hset2).
  match goal with |- context [and_then (on_state ?a ?b) ?f] =>
    change (and_then (on_state a b) f) with (write_back sync sync t2) end.
  pose proof (write_back_ok sync sync t2 log Hok2 (proj2 flush_nothing)
    (λ s, proj1 (proj2 (proj2 (proj2 (Hkind s))))) (proj2 flush_nothing) (λ _, Hset2)) as Hwb.
  destruct (write_back sync sync t2) as [t3 r3]. destruct Hwb as (Hnp3 & K & _ & Hrel3).
  destruct K as (Hok3 & Hs3 & _ & _ & _ & C3 & N3 & G3).
  destruct r3 as [[]|e|]; cbn [rbind]; [..|done].
  - split; [done|]. split; [|done]. intros t' [= <-]. split; [done|].
    split; [intros k; by rewrite Hs3|]. split; [|intros k; by rewrite G3, Hs3].
    unfold novel_ok in *. rewrite N3, C3, Hnov2. f_equal. apply List.filter_ext. intros k. by rewrite G3.
  - split; [done|]. split; [done|]. intros fits ofits R1 _ R2 F2.
    assert (tail t2 = tail t) as Ht2 by (unfold tail; rewrite (proj1 A), set_volatile_next; exact Hn).
    rewrite <- Ht2 in F2. specialize (Hrel3 ofits R2 F2).
    assert (Err e = Ok tt) as Hx; [|done]. apply Hrel3; [intros s Hs; by apply R1|intros o Ho; by apply R2].
Qed.

(** [flush], or [sync]. *)
Definition back (b : bool) t : Table.Table St Ca Off * io unit := if b then table_flush t else table_sync t.
Lemma back_ok b t log : table_ok t log →
  let (t', r) := back b t in
  r ≠ Panic ∧ table_ok t' log ∧ same_contents t t' ∧ state_kind (tb_state t') = state_kind (tb_state t) ∧
  capacity (tb_cache t') = capacity (tb_cache t) ∧ tail t' = tail t.
Proof using Hkind BoundedLaws0 DurableLaws0 DurableLaws1.
  intros Hok. pose proof (flush_nothing (B:=St) (K:=PrimaryKey)) as [F1 F2].
  pose proof (flush_nothing (B:=Off) (K:=rstring)) as [G1 G2].
  pose proof (λ fs fo F K G, conj (drained_back_ok Hkind fs fo t log Hok F K G) (drained_back_keeps Hkind fs fo t log Hok F K G)) as Hback.
  destruct b;
    [specialize (Hback flush flush F1 (λ s, proj1 (proj2 (proj2 (Hkind s)))) G1)
    |specialize (Hback sync sync F2 (λ s, proj1 (proj2 (proj2 (proj2 (Hkind s))))) G2)];
    unfold back, table_flush, table_sync;
    match type of Hback with context [drained_back ?a ?b ?t] => change (and_then (drain_cache t) _) with (drained_back a b t) end;
    destruct (drained_back _ _ t) as [t' r]; destruct Hback as [(? & ? & ? & ? & _) [? ?]]; by split_and!.
Qed.

(** A table just created. *)
Lemma topic_create_ok max_bytes (offs : Off) disk (top : Topic.Topic Off) :
  Topic.create max_bytes offs disk = Ok top →
  topic_wf top [] ∧ Topic.tp_consumers top = ∅ ∧ Topic.tp_offsets top = offs ∧
  Topic.tp_next top = 0%Z ∧ Topic.earliest_offset (Topic.tp_stats top) = 0%Z.
Proof using Type.
  unfold Topic.create, Topic.create_segment, Topic.write_all. cbn [Topic.tp_stray existsb Topic.tp_disk].
  destruct (_ <=? _)%nat; [|done]. cbn [rbind]. intros [= <-]. split_and!; try done.
  constructor; try done. eexists [], _, [], []. split_and!; [done|done|constructor|by repeat constructor|done].
Qed.
Lemma table_create_ok (s0 : St) (c0 : Ca) max_bytes (offs : Off) disk t :
  backend_wf s0 → backend_wf c0 → backend_wf offs →
  (∀ k, get s0 k = None) → (∀ k, get c0 k = None) →
  create s0 c0 max_bytes offs disk = Ok t →
  table_ok t [] ∧ (∀ k, table_get t k = None) ∧ tb_state t = s0 ∧ tb_cache t = c0.
Proof using Type.
  intros Hs Hc Ho Hs0 Hc0. unfold create.
  destruct (Topic.create max_bytes offs disk) as [top|e|] eqn:Et; cbn [rbind]; [|done..].
  destruct (topic_create_ok _ _ _ _ Et) as (Hw & Hcons & Hoffs & Hn & He). unfold Topic.consumer. rewrite Hcons, lookup_empty, Hn.
  rewrite Hoffs. pose proof (put_law RECOVERY_CONSUMER 0%Z offs Ho) as Hp. destruct (put RECOVERY_CONSUMER 0%Z offs) as [o [[]|e|]];
    cbn; [|done..]. destruct Hp as (Ho' & _ & _ & Hg). intros [= <-].
  assert (∀ k, table_get (mkTable s0 c0 0 top (Topic.mkHandle RECOVERY_CONSUMER None)) k = None) as Hnone
    by (intros k; unfold table_get; cbn; by rewrite Hc0).
  split; [|split; [exact Hnone|done]]. constructor; try done.
  - destruct Hw. by constructor.
  - eexists. split; [unfold recovery_consumer; cbn; apply lookup_insert_eq|]. cbn. unfold earliest, tail. cbn. rewrite He, Hn.
    split_and!; [done..|exact Hg|]. intros k. unfold pending. rewrite drop_nil. unfold replayed, durable. cbn.
    unfold table_get. cbn. rewrite Hc0, Hs0. by destruct (state_kind s0).
Qed.

(** ** Properties *)

(** C3. An insert either leaves the table as it was (the operation changed
    nothing), or appends exactly one change to the log and sets the row of
    its key to the cell the operation computes, every other row kept; it
    fails only when the operation does or when the cache cannot be drained,
    and then neither the contents nor the log has changed.  It never panics, and the table
    stays recoverable. *)
Theorem table_insert (event : Event) (t : Table.Table St Ca Off) (log : list Change) :
  table_ok t log → capacity (tb_cache t) ≠ Some 0 →
  storable (change_of event t) →
  8 + length (encoded (change_of event t)) ≤ Topic.tp_disk (tb_topic t) →
  let (t', r) := insert event t in
  match r with
  | Ok Ignored => t' = t ∧ (insert_walk event t).2 = Ok false
  | Ok (Applied change) => change = change_of event t ∧ (insert_walk event t).2 = Ok true ∧
      extends t t' log change ∧ (novel_ok t → novel_ok t')
  | Err _ => table_ok t' log ∧ same_contents t t' ∧ tail t' = tail t
  | Panic => False
  end ∧
  (∀ fits, reliable (B:=St) fits backend_wf → cache_fits fits t → is_ok r = is_ok (insert_walk event t).2).
Proof using Hkind BoundedLaws0. by apply insert_ok. Qed.

(** C18. [flush] and [sync] never panic and change no row; when they succeed the
    cache has been written out, so that the state alone holds the table, and,
    unless the state is in memory, the persisted recovery offset is the tail
    of the topic: nothing is left to replay. *)
Theorem table_write_back (t : Table.Table St Ca Off) (log : list Change) (f : bool) : table_ok t log →
  let (t', r) := if f then table_flush t else table_sync t in
  r ≠ Panic ∧ table_ok t' log ∧ same_contents t t' ∧ tail t' = tail t ∧
  (r = Ok tt → settled t' ∧ (novel_ok t → novel_ok t') ∧ (state_kind (tb_state t) ≠ InMemory →
    get (Topic.tp_offsets (tb_topic t')) RECOVERY_CONSUMER = Some (tail t))).
Proof using Hkind BoundedLaws0 DurableLaws0 DurableLaws1.
  intros Hok. pose proof (flush_nothing (B:=St) (K:=PrimaryKey)) as [F1 F2].
  pose proof (flush_nothing (B:=Off) (K:=rstring)) as [G1 G2]. destruct f.
  - apply (drained_back_ok Hkind flush flush t log Hok F1); [|done]. intros s. apply Hkind.
  - apply (drained_back_ok Hkind sync sync t log Hok F2); [|done]. intros s. apply Hkind.
Qed.

(** C1. Opening a table after a crash gives its contents back: whatever part of
    the changes the state had absorbed, whatever the cache held, and even with
    a torn record at the end of the log, every row is the one the table had.
    Opening never panics, and succeeds when the backends' writes do. *)
Theorem table_recovery (t : Table.Table St Ca Off) (log : list Change) (torn_tail : list Z)
    (s0 : St) (c0 : Ca) (dir : list (Z * list Z)) (offs0 : Off) (max_bytes : Z) (disk fuel : nat) :
  table_ok t log → crashed t torn_tail s0 c0 dir offs0 → Z.to_nat (tail t - earliest t) < fuel →
  let r := open_table fuel s0 c0 max_bytes dir offs0 disk in
  r ≠ Panic ∧
  (∀ t', r = Ok t' → table_ok t' log ∧ same_contents t t' ∧ novel_ok t' ∧ settled t') ∧
  (∀ fits offsets_fit, reliable (B:=St) fits backend_wf → Forall (change_fits fits) log →
    reliable (B:=Off) offsets_fit backend_wf → offsets_fit RECOVERY_CONSUMER (tail t) → is_ok r = true).
Proof using Hkind BoundedLaws0 DurableLaws0 DurableLaws1. apply open_table_ok. Qed.
End Recovery.
