(* ===== verification/TableReads.v ===== *)
(** * Tables: reads

    [entries], [keys], [size], the ends, the ranges and the descending iterations
    of [zendb-storage/src/table/table.rs], against the map [table_get].  The
    cache and the state are merged in the order of the keys, which is not the
    order a B+ tree iterates in: what depends on it is stated with the
    condition that the two orders agree on the keys at hand. *)
From stdpp Require Import base numbers option gmap sorting list.
From S2P Require Import Prelude Order BTreeMap Stamp Value Backend MapBackend MergedEntries.
From S2P Require Import SkipList SkipListReads Serdes KeyDir KeyDirLog KeyDirStore BPlusPages BPlusTyped Topic Table State TableLaws.
Import Table.

Section Reads.
Context `{L : Libp2p} {St Ca Off : Type}.
Context `{St_b : Backend St PrimaryKey Cell}.
Context `{St_o : OrderedBackend St PrimaryKey Cell} `{St_k : HasKind St}.
Context `{Ca_b : Backend Ca PrimaryKey Cell, !BackendLaws Ca PrimaryKey Cell}.
Context `{Ca_o : OrderedBackend Ca PrimaryKey Cell, !OrderedLaws Ca PrimaryKey Cell, !NativeOrder Ca PrimaryKey Cell}.
Implicit Types (t : Table.Table St Ca Off) (k : PrimaryKey).
Definition parts_wf t : Prop := reads_map (tb_state t) ∧ backend_wf (tb_cache t).

(** The state iterates in the order of the keys, or [entries] does not merge it. *)
Definition merges t : Prop := state_kind (tb_state t) ≠ Unordered → bt_wf (entries (tb_state t)).
Lemma unordered_entries t : parts_wf t → state_kind (tb_state t) = Unordered →
  NoDup (map fst (table_entries t)) ∧ ∀ k, bt_get k (table_entries t) = table_get t k.
Proof using Type.
  intros [(Hns & Hg & _) Hc] Hk. unfold table_entries, table_get. rewrite Hk.
  pose proof (keys_nodup _ Hc) as Hnc. unfold keys in Hns, Hnc. split.
  - rewrite map_app. apply NoDup_app. split_and!.
    + by apply nodup_keys_filter.
    + intros j Hj Hj'. apply list_elem_of_fmap in Hj as (p & -> & Hp).
      apply list_elem_of_In, filter_In in Hp as [_ Hp]. rewrite contains_get in Hp by done.
      apply elem_keys in Hj' as [x Hx]; [|done]. by rewrite Hx in Hp.
    + done.
  - intros k. assert (∀ l l' : list (PrimaryKey * Cell), bt_get k (l ++ l') =
      match bt_get k l with Some c => Some c | None => bt_get k l' end) as Happ.
    { clear. intros l l'. induction l as [|[j c] l IH]; simpl; [done|]. by destruct (cmp k j). }
    rewrite Happ, bt_get_filter by done. rewrite <- Hg, <- get_entries by done.
    destruct (get (tb_state t) k); cbn [fst]; rewrite ?contains_get by done;
      destruct (get (tb_cache t) k); done.
Qed.
Lemma table_entries_get t : parts_wf t → merges t →
  NoDup (map fst (table_entries t)) ∧ ∀ k, bt_get k (table_entries t) = table_get t k.
Proof using NativeOrder0.
  intros Hp Hm. destruct (state_kind (tb_state t)) eqn:Hk; [|by apply unordered_entries|];
    (pose proof Hp as [(_ & Hg & _) Hc]; pose proof (Hm ltac:(by rewrite Hk)) as Hws; pose proof (entries_sorted _ Hc) as Hwc;
     unfold table_entries; rewrite Hk; split; [by apply bt_keys_NoDup, merged_wf|];
     intros k; rewrite merged_get by done; unfold overlaid, table_get; by rewrite Hg, get_entries).
Qed.
Lemma table_entries_sorted t : parts_wf t → merges t → state_kind (tb_state t) ≠ Unordered → bt_wf (table_entries t).
Proof using NativeOrder0.
  intros [_ Hc] Hm Hk. pose proof (Hm Hk). pose proof (entries_sorted _ Hc). unfold table_entries.
  destruct (state_kind (tb_state t)); [by apply merged_wf|done|by apply merged_wf].
Qed.

(** The keys of a table: those of the state, and the novel ones. *)
Definition row_keys t : list PrimaryKey :=
  keys (tb_state t) ++ List.filter (λ k, is_none (get (tb_state t) k)) (keys (tb_cache t)).
Lemma row_keys_ok t : parts_wf t → NoDup (row_keys t) ∧ ∀ k, k ∈ row_keys t ↔ is_Some (table_get t k).
Proof using Type.
  intros [Hs Hc]. split.
  - apply NoDup_app. split_and!; [apply Hs| |].
    + intros k Hk Hin. apply list_elem_of_In, filter_In in Hin as [_ Hin].
      apply reads_keys in Hk as [c Hk]; [|done]. by rewrite Hk in Hin.
    + apply NoDup_ListNoDup, List.NoDup_filter, NoDup_ListNoDup. by apply keys_nodup.
  - intros k. unfold row_keys. rewrite elem_of_app, (list_elem_of_In (List.filter _ _)), filter_In, <- list_elem_of_In.
    rewrite reads_keys, elem_keys by done. unfold table_get.
    destruct (get (tb_cache t) k), (get (tb_state t) k); simpl; naive_solver.
Qed.
Lemma table_size_ok t : parts_wf t → novel_ok t → table_size t = length (row_keys t).
Proof using Type.
  intros [(_ & _ & _ & Hs) _] Hn. unfold table_size, row_keys. rewrite Hn, Hs, length_app.
  unfold keys. by rewrite !length_map.
Qed.
Lemma table_is_empty_ok t : parts_wf t → novel_ok t →
  table_is_empty t = true ↔ ∀ k, table_get t k = None.
Proof using Type.
  intros Hp Hn. pose proof (table_size_ok t Hp Hn) as Hsz. destruct (row_keys_ok t Hp) as [_ Hk].
  assert (table_is_empty t = (table_size t =? 0)%nat) as ->.
  { unfold table_is_empty, is_empty, table_size. by destruct (size (tb_state t)). }
  rewrite Nat.eqb_eq, Hsz. split.
  - intros Hl k. destruct (table_get t k) as [c|] eqn:E; [|done].
    assert (k ∈ row_keys t) as Hin by (apply Hk; by eexists). destruct (row_keys t); [by apply not_elem_of_nil in Hin|done].
  - intros Hnone. destruct (row_keys t) as [|k l]; [done|].
    destruct (proj1 (Hk k) ltac:(by left)) as [c Hc]. by rewrite Hnone in Hc.
Qed.

(** ** Ordered reads *)
(** The sorted entries of a table are the merge of those of its parts. *)
Lemma sorted_parts t : parts_wf t →
  (bt_wf (ascending (entries (tb_state t))) ∧ ∀ k, bt_get k (ascending (entries (tb_state t))) = get (tb_state t) k) ∧
  (bt_wf (ascending (entries (tb_cache t))) ∧ ∀ k, bt_get k (ascending (entries (tb_cache t))) = get (tb_cache t) k).
Proof using Type. intros [Hs Hc]. split; apply reads_ascending; [done|by apply backend_reads]. Qed.
Lemma sorted_table t : parts_wf t → merges t →
  ascending (table_entries t) = merged (ascending (entries (tb_state t))) (ascending (entries (tb_cache t))) Ascending.
Proof using NativeOrder0.
  intros Hp Hm. destruct (table_entries_get t Hp Hm) as [Hnd Hget].
  destruct (sorted_parts t Hp) as [[Was Hgs] [Wac Hgc]].
  apply bt_ext; [by apply ascending_wf|by apply merged_wf|]. intros k. rewrite merged_get by done. unfold overlaid.
  rewrite Hgs, Hgc, (perm_get (table_entries t)); [by rewrite Hget|done|]. symmetry. apply sort_by_perm.
Qed.
Lemma merged_filter (s e : PrimaryKey) (l c : list (PrimaryKey * Cell)) : bt_wf l → bt_wf c →
  merged (List.filter (within s e) l) (List.filter (within s e) c) Ascending = List.filter (within s e) (merged l c Ascending).
Proof using Type.
  intros Hl Hc. pose proof (merged_wf _ _ Hl Hc) as Hw.
  apply bt_ext; [apply merged_wf; by apply bt_wf_filter|by apply bt_wf_filter|]. intros k.
  rewrite merged_get by (by apply bt_wf_filter). unfold overlaid. rewrite !bt_get_filter by (by apply bt_keys_NoDup).
  rewrite merged_get by done. unfold overlaid, within. cbn [fst].
  destruct (bt_get k c), (bt_get k l), ((s <=? k) && (k <? e)); done.
Qed.
(** The first of a merge is the lesser of the two first ones, the cache's on
    equal keys. *)
Lemma head_merged o (l c : list (PrimaryKey * Cell)) : head (merged l c o) =
  match head l, head c with
  | None, None => None | Some p, None | None, Some p => Some p
  | Some p, Some q => match (match o with Ascending => cmp p.1 q.1 | Descending => CompOpp (cmp p.1 q.1) end) with
                      | Lt => Some p | _ => Some q end end.
Proof using Type.
  unfold merged. destruct l as [|p l], c as [|q c]; [done|done|done|].
  cbn. destruct o, (cmp p.1 q.1); done.
Qed.
Lemma last_head {A} (l : list A) : last l = head (rev l).
Proof using Type. induction l as [|x l _] using rev_ind; [done|]. by rewrite last_snoc, rev_app_distr. Qed.
Lemma table_range_ok t s e : parts_wf t → merges t →
  range (tb_state t) s e = List.filter (within s e) (ascending (entries (tb_state t))) →
  range_rev (tb_state t) s e = rev (range (tb_state t) s e) →
  table_range t s e = List.filter (within s e) (ascending (table_entries t)) ∧
  table_range_rev t s e = rev (table_range t s e).
Proof using NativeOrder0 OrderedLaws0.
  intros Hp Hm Hr Hrr. pose proof Hp as [_ Hc]. destruct (sorted_parts t Hp) as [[Was _] [Wac _]].
  unfold table_range, table_range_rev. rewrite Hrr, Hr, range_rev_law, range_law by done.
  split; [by rewrite sorted_table, merged_filter|]. by apply merged_rev; apply bt_wf_filter.
Qed.
Lemma table_ends_ok t : parts_wf t → merges t →
  entries_rev (tb_state t) = rev (ascending (entries (tb_state t))) →
  first (tb_state t) = head (ascending (entries (tb_state t))) →
  last_entry (tb_state t) = last (ascending (entries (tb_state t))) →
  table_entries_rev t = rev (ascending (table_entries t)) ∧ table_first t = head (ascending (table_entries t)) ∧
  table_last t = last (ascending (table_entries t)).
Proof using NativeOrder0 OrderedLaws0.
  intros Hp Hm Hr Hf Hl. pose proof Hp as [_ Hc]. destruct (sorted_parts t Hp) as [[Was _] [Wac _]].
  unfold table_entries_rev, table_first, table_last. rewrite Hr, Hf, Hl, entries_rev_law, first_law, last_law by done.
  rewrite sorted_table by done. split; [by apply merged_rev|]. split; [by rewrite head_merged|].
  rewrite !last_head, <- merged_rev, head_merged by done.
  destruct (head (rev _)) as [p|], (head (rev _)) as [q|]; try done. by destruct (cmp p.1 q.1).
Qed.
End Reads.

(** ** On the engines *)
Section Engines.
Context `{L : Libp2p} {Cb Ck Cs Off : Type}.
Context `{CK : Codec PrimaryKey, CV : Codec Cell, !LawfulCodec PrimaryKey, !LawfulCodec Cell}.
Abbreviation St := (State Pages.BPlusTree (KeyDir.KeyDir PrimaryKey) (SkipList.SkipList PrimaryKey Cell) (StateConfig Cb Ck Cs)).
Abbreviation Ca := (SkipList.SkipList PrimaryKey Cell).
Implicit Types (t : Table.Table St Ca Off) (k s e : PrimaryKey).

(** The engines of the table are in the states their own theorems speak of. *)
Definition engines_ok t : Prop := engine_ok (tb_state t) ∧ backend_wf (tb_cache t).
Lemma engines_parts t : engines_ok t → parts_wf t.
Proof using LawfulCodec0 LawfulCodec1. intros [Hs Hc]. split; [by apply state_reads|done]. Qed.
Lemma engines_merge t : engines_ok t → in_key_order (tb_state t) [] → merges t.
Proof using LawfulCodec0 LawfulCodec1. intros [Hs _] Ho Hk. by apply entries_in_key_order. Qed.

(** ** Properties *)

(** C26. A table over the engines of the source reads the overlay of its cache on its
    state.  [size] counts the rows [get] finds, and [is_empty] says whether
    there are any, on every engine.  [entries] lists every row once, in key
    order unless the state is unordered, and the descending iteration and the two ends
    are those of the sorted entries; so are the ranges.  On a B+ tree, which
    iterates in the order of the serialized keys, this needs that order to be
    the keys' own on the keys of the state, and on the bounds of the range. *)
Theorem table_reads t : engines_ok t →
  (novel_ok t → (∃ ks, NoDup ks ∧ (∀ k, k ∈ ks ↔ is_Some (table_get t k)) ∧ table_size t = length ks) ∧
    (table_is_empty t = true ↔ ∀ k, table_get t k = None)) ∧
  (in_key_order (tb_state t) [] →
    NoDup (table_keys t) ∧ (∀ k c, (k, c) ∈ table_entries t ↔ table_get t k = Some c) ∧
    (state_kind (tb_state t) ≠ Unordered → bt_wf (table_entries t)) ∧
    table_entries_rev t = rev (ascending (table_entries t)) ∧
    table_first t = head (ascending (table_entries t)) ∧ table_last t = last (ascending (table_entries t))) ∧
  (∀ s e, in_key_order (tb_state t) [s; e] →
    table_range t s e = List.filter (within s e) (ascending (table_entries t)) ∧
    table_range_rev t s e = rev (table_range t s e)).
Proof using LawfulCodec0 LawfulCodec1.
  intros He. pose proof (engines_parts t He) as Hp. pose proof (engines_merge t He) as Hm. destruct He as [Hs Hc]. split_and!.
  - intros Hn. split; [|by apply table_is_empty_ok]. exists (row_keys t).
    destruct (row_keys_ok t Hp). split_and!; [done|done|by apply table_size_ok].
  - intros Ho. pose proof (Hm Ho) as Hmo. destruct (table_entries_get t Hp Hmo) as [Hnd Hget].
    destruct (reads_in_key_order _ Hs Ho) as (Hr & Hf & Hl). split; [done|]. split.
    + intros k c. rewrite <- Hget. symmetry. by apply nodup_get.
    + split; [by apply table_entries_sorted|]. by apply table_ends_ok.
  - intros s e Ho. pose proof (Hm (in_key_order_nil _ _ Ho)) as Hmo.
    destruct (ranges_in_key_order _ s e Hs Ho) as [Hr Hrr]. by apply table_range_ok.
Qed.
End Engines.
