(* ===== verification/Devices.v ===== *)
(** * Devices: [zendb-workspace/src/devices/runtime.rs], the roles of
    [zendb-types/src/identity/peer.rs] and the listeners of
    [zendb-workspace/src/tables/listeners/]

    The registry of devices and their roles, the hybrid logical clock that
    stamps events, and the receipts of every peer.  The registry is a table
    ([Table.v]) mirrored in a cache; clocks and receipts are cached and written
    to a state ([Ps]) by [flush] and [sync].  The wall clock is an argument
    ([physical_ms()] returns an option); error messages carry no text here. *)
From stdpp Require Import base numbers option gmap sorting list.
From S2P Require Import Prelude Order BTreeMap Stamp Value Backend Serdes Table Receipts.

Inductive Role := Contributor | Operator | Admin.
#[export] Instance Role_eq_dec : EqDecision Role.
Proof. solve_decision. Defined.
(** [Role::has_at_least]. *)
Definition has_at_least (self required : Role) : bool :=
  match required with
  | Contributor => true
  | Operator => match self with Operator | Admin => true | _ => false end
  | Admin => match self with Admin => true | _ => false end
  end.

Module Devices.
Section Devices.
Context `{L : Libp2p}.

Record DeviceRecord := mkDevice { display_name : rstring; role : option Role }.
#[export] Instance DeviceRecord_eq_dec : EqDecision DeviceRecord.
Proof using Type. solve_decision. Defined.
Record EventClock := mkClock { next_sequence : Z; last_time : EventTime }.
Record PeerState := mkPeer { receipts : Receipts.ReceiptWindow; clock : option EventClock }.
Record RegistryCache := mkRegistry {
  reg_entries : btree PeerId DeviceRecord; local_role : option Role }.
Record PeerCache := mkCache {
  local : PeerState; local_dirty : bool;
  others : btree PeerId PeerState; dirty_others : btree PeerId unit }.

(** [zendb-workspace/src/error.rs]. *)
Inductive Error :=
  | EIo (e : io_error)
  | EAlreadyExists (name : rstring)
  | ENotFound (name : rstring)
  | PermissionDenied
  | SystemStateReadOnly (name : rstring)
  | SystemTableReadOnly (name : rstring)
  | ETypeMismatch (name : rstring)
  | CorruptCatalog
  | CorruptLocalState
  | CorruptDeviceRegistry
  | InvalidEventSequence
  | ClockExhausted
  | WorkspaceClosed
  | DeviceNotRegistered (p : PeerId)
  | ResourceBusy (name : rstring).

(** The registry table and the peer state, over their backends. *)
Context {St Ca Off Ps : Type}.
Record Devices := mkDevices {
  local_peer_id : PeerId;
  registry : Table.Table St Ca Off;
  registry_cache : RegistryCache;
  peer_state : Ps;
  peer_cache : PeerCache }.
Context `{St_b : Backend St PrimaryKey Cell} `{St_k : HasKind St}.
Context `{Ca_b : Backend Ca PrimaryKey Cell} `{Ca_c : Bounded Ca}.
Context `{Off_b : Backend Off rstring Z}.
Context `{Cd : Codec Table.Change} `{Cr : Codec DeviceRecord}.
Context `{Ps_b : Backend Ps PeerId PeerState} `{Ps_d : Durable Ps}.
Implicit Types (d : Devices).

Definition set_registry t d :=
  mkDevices (local_peer_id d) t (registry_cache d) (peer_state d) (peer_cache d).
Definition set_registry_cache c d :=
  mkDevices (local_peer_id d) (registry d) c (peer_state d) (peer_cache d).
Definition set_peer_state s d :=
  mkDevices (local_peer_id d) (registry d) (registry_cache d) s (peer_cache d).
Definition set_peer_cache c d :=
  mkDevices (local_peer_id d) (registry d) (registry_cache d) (peer_state d) c.
Definition set_local p dirty d :=
  let c := peer_cache d in
  set_peer_cache (mkCache p dirty (others c) (dirty_others c)) d.
Abbreviation res A := (result Error A).

(** ** Roles *)
Definition list d : list (PeerId * DeviceRecord) := reg_entries (registry_cache d).
Definition get_device d (p : PeerId) : option DeviceRecord := bt_get p (reg_entries (registry_cache d)).
Definition has_access d (p : PeerId) (required : Role) : bool :=
  let r := if bool_decide (p = local_peer_id d) then local_role (registry_cache d)
           else get_device d p ≫= role in
  is_some_and (λ r, has_at_least r required) r.
Definition require_access d (p : PeerId) (required : Role) : res unit :=
  if has_access d p required then Ok tt else Err PermissionDenied.

(** ** The clock *)
Definition mint (wall : option Z) d : Devices * res EventStamp :=
  match clock (local (peer_cache d)) with
  | None => (d, Panic)
  | Some c =>
      if (next_sequence c =? u64_max)%Z then (d, Err ClockExhausted) else
      match wall with
      | None => (d, Err ClockExhausted)
      | Some wall =>
          let last := last_time c in
          match (if (physical_ms last <? wall)%Z then Some (mkEventTime wall 0)
                 else mkEventTime (physical_ms last) <$> checked_add_u32 (logical last) 1) with
          | None => (d, Err ClockExhausted)
          | Some time =>
              let stamp := mkEventStamp (mkEventId (local_peer_id d) (next_sequence c)) time in
              (set_local (mkPeer (receipts (local (peer_cache d)))
                 (Some (mkClock (next_sequence c + 1) time))) true d, Ok stamp)
          end
      end
  end.

Definition empty_peer : PeerState := mkPeer Receipts.default None.
Definition lift_receipt {A} (r : result Receipts.Error A) : res A :=
  map_err (λ _, InvalidEventSequence) r.
(** The receipts part of [observe]: on the local peer or on the entry of
    another one, created when absent. *)
Definition observe_receipts (s : EventStamp) d : Devices * res Receipts.ObserveOutcome :=
  let id := stamp_id s in
  let cache := peer_cache d in
  if bool_decide (peer_id id = local_peer_id d) then
    let '(w, r) := Receipts.observe (receipts (local cache)) (sequence id) in
    (set_local (mkPeer w (clock (local cache))) (local_dirty cache) d, lift_receipt r)
  else
    let p := default empty_peer (bt_get (peer_id id) (others cache)) in
    let '(w, r) := Receipts.observe (receipts p) (sequence id) in
    (set_peer_cache (mkCache (local cache) (local_dirty cache)
       (bt_insert (peer_id id) (mkPeer w (clock p)) (others cache)) (dirty_others cache)) d,
     lift_receipt r).
Definition merged_time (wall : Z) (last time : EventTime) : EventTime :=
  let physical := Z.max (Z.max wall (physical_ms last)) (physical_ms time) in
  mkEventTime physical
    (if (physical_ms last <? physical)%Z && (physical_ms time <? physical)%Z then 0
     else if (physical =? physical_ms last)%Z && (physical =? physical_ms time)%Z
     then Z.max (logical last) (logical time)
     else if (physical =? physical_ms last)%Z then logical last
     else logical time).
Definition observe (wall : option Z) (s : EventStamp) d : Devices * res Receipts.ObserveOutcome :=
  match wall with
  | None => (d, Err ClockExhausted)
  | Some wall =>
      let is_local := bool_decide (peer_id (stamp_id s) = local_peer_id d) in
      if is_local && (sequence (stamp_id s) =? u64_max)%Z then (d, Err ClockExhausted) else
      let '(d, r) := observe_receipts s d in
      match r with
      | Ok outcome =>
          match clock (local (peer_cache d)) with
          | None => (d, Panic)
          | Some c =>
              let time := merged_time wall (last_time c) (stamp_time s) in
              let next := if is_local then Z.max (next_sequence c) (sequence (stamp_id s) + 1)
                          else next_sequence c in
              let d := set_local (mkPeer (receipts (local (peer_cache d))) (Some (mkClock next time)))
                         true d in
              let cache := peer_cache d in
              let dirty := if is_local then dirty_others cache
                           else bt_insert (peer_id (stamp_id s)) tt (dirty_others cache) in
              (set_peer_cache (mkCache (local cache) (local_dirty cache) (others cache) dirty) d,
               Ok outcome)
          end
      | Err e => (d, Err e)
      | Panic => (d, Panic)
      end
  end.

(** ** Listeners of the registry *)
(** [ReceiptListener::on_change]: failures are swallowed. *)
Definition receipt_listener (wall : option Z) (change : Table.Change) d : Devices :=
  (observe wall (event_stamp (Table.ch_event change)) d).1.
(** [DeviceRegistryListener::on_change]. *)
Definition registry_listener (change : Table.Change) d : Devices :=
  let ev := Table.ch_event change in
  match primary_key ev with
  | PK_PeerId p =>
      let cache := registry_cache d in
      match op ev with
      | OpUpsert (Blob blob) =>
          match deserialize_from blob with
          | Ok record =>
              set_registry_cache (mkRegistry (bt_insert p record (reg_entries cache))
                (if bool_decide (p = local_peer_id d) then role record else local_role cache)) d
          | _ => d
          end
      | OpDelete =>
          set_registry_cache (mkRegistry (bt_remove p (reg_entries cache))
            (if bool_decide (p = local_peer_id d) then None else local_role cache)) d
      | _ => d
      end
  | _ => d
  end.

(** ** [TableHandle::insert_internal] on the registry, a system table *)
Definition lift_io {A} (r : io A) : res A := map_err EIo r.
Definition insert_unchecked (wall : option Z) (event : Event) d : Devices * res Table.InsertOutcome :=
  let '(t, r) := Table.insert event (registry d) in
  let d := set_registry t d in
  match r with
  | Ok (Table.Applied change) =>
      (registry_listener change (receipt_listener wall change d), Ok (Table.Applied change))
  | r => (d, lift_io r)
  end.
Definition insert_internal (wall : option Z) (event : Event) d : Devices * res Table.InsertOutcome :=
  match require_access d (peer_id (stamp_id (event_stamp event))) Admin with
  | Ok _ => insert_unchecked wall event d
  | Err e => (d, Err e)
  | Panic => (d, Panic)
  end.
(** [Devices::upsert]; the clock is read by [mint] and by the receipt
    listener. *)
Definition device_event (p : PeerId) (blob : Datatypes.list Z) (s : EventStamp) : Event :=
  mkEvent (PK_PeerId p) [] (OpUpsert (Blob blob)) s.
Definition upsert (wall wall' : option Z) (p : PeerId) (record : DeviceRecord) d : Devices * res bool :=
  match require_access d (local_peer_id d) Admin with
  | Ok _ =>
      if bool_decide (get_device d p = Some record) then (d, Ok false) else
      let '(d, r) := mint wall d in
      match r with
      | Ok s =>
          match serialize_to_vec record with
          | Ok blob =>
              let '(d, r) := insert_internal wall' (device_event p blob s) d in
              match r with
              | Ok _ => (d, Ok true)
              | Err e => (d, Err e) | Panic => (d, Panic)
              end
          | Err e => (d, Err (EIo e)) | Panic => (d, Panic)
          end
      | Err e => (d, Err e) | Panic => (d, Panic)
      end
  | Err e => (d, Err e) | Panic => (d, Panic)
  end.

(** ** [flush] and [sync] *)
Fixpoint put_dirty (peers : btree PeerId PeerState) (dirty : btree PeerId unit) (s : Ps) : Ps * io unit :=
  match dirty with
  | [] => (s, Ok tt)
  | (p, _) :: dirty =>
      match bt_get p peers with
      | None => (s, Panic)
      | Some st => and_then (put p st s) (λ s _, put_dirty peers dirty s)
      end
  end.
Definition checkpoint (write_back : Ps → Ps * io unit) d : Devices * res unit :=
  let c := peer_cache d in
  let '(s, r) := and_then (if local_dirty c then put (local_peer_id d) (local c) (peer_state d)
                           else (peer_state d, Ok tt)) (λ s _,
                 and_then (put_dirty (others c) (dirty_others c) s) (λ s _, write_back s)) in
  let d := set_peer_state s d in
  match r with
  | Ok _ => (set_peer_cache (mkCache (local c) false (others c) []) d, Ok tt)
  | Err e => (d, Err (EIo e))
  | Panic => (d, Panic)
  end.
Definition devices_flush d : Devices * res unit := checkpoint flush d.
Definition devices_sync d : Devices * res unit := checkpoint sync d.

(** ** [create] and [open] *)
Definition create (wall : option Z) (reg : Table.Table St Ca Off) (ps : Ps) (me : PeerId)
    (name : rstring) : res Devices :=
  let record := mkDevice name (Some Admin) in
  match wall with
  | None => Err ClockExhausted
  | Some now =>
      let time := mkEventTime now 0 in
      blob <-? lift_io (serialize_to_vec record) ;;
      let '(reg, r) := Table.insert (device_event me blob (mkEventStamp (mkEventId me 1) time)) reg in
      _ <-? lift_io r ;;
      Ok (mkDevices me reg (mkRegistry [(me, record)] (Some Admin)) ps
            (mkCache (mkPeer (Receipts.mkWindow 1 []) (Some (mkClock 2 time))) true [] []))
  end.

(** The loop over the registry's rows. *)
Fixpoint load_registry (rows : Datatypes.list (PrimaryKey * Cell)) (acc : btree PeerId DeviceRecord) :
    res (btree PeerId DeviceRecord) :=
  match rows with
  | [] => Ok acc
  | (PK_PeerId p, c) :: rows =>
      match value c with
      | Some (Blob blob) =>
          match deserialize_from blob with
          | Ok record => load_registry rows (bt_insert p record acc)
          | Err _ => Err CorruptDeviceRegistry
          | Panic => Panic
          end
      | None => load_registry rows acc
      | Some _ => Err CorruptDeviceRegistry
      end
  | _ => Err CorruptDeviceRegistry
  end.
Definition fresh_peer (now : Z) : PeerState :=
  mkPeer Receipts.default (Some (mkClock 1 (mkEventTime now 0))).
Definition open (wall : option Z) (reg : Table.Table St Ca Off) (ps : Ps) (me : PeerId) : res Devices :=
  ents <-? load_registry (Table.table_entries reg) [] ;;
  match bt_get me ents with
  | None => Err (DeviceNotRegistered me)
  | Some record =>
      let peers := bt_from_iter (entries ps) in
      let cached local seeded :=
        Ok (mkDevices me reg (mkRegistry ents (role record)) ps
              (mkCache local seeded (bt_remove me peers) [])) in
      match bt_get me peers with
      | Some st => match clock st with None => Err CorruptLocalState | Some _ => cached st false end
      | None => match wall with None => Err ClockExhausted | Some now => cached (fresh_peer now) true end
      end
  end.
End Devices.
Arguments Devices {_} _ _ _ _.
End Devices.
