(* ===== verification/DeviceLaws.v ===== *)
(** * Devices: clock order, receipts, authorization and checkpoints

    The theorems about [zendb-workspace/src/devices/runtime.rs]. *)
From stdpp Require Import base numbers option gmap sorting list.
From S2P Require Import Prelude Order BTreeMap Stamp Value Backend Serdes Table Receipts Devices.
Import Devices.

(** ** Roles *)
Definition rank (r : Role) : nat := match r with Contributor => 0 | Operator => 1 | Admin => 2 end.
Lemma has_at_least_rank a b : has_at_least a b = true ↔ rank b ≤ rank a.
Proof. destruct a, b; simpl; split; try done; lia. Qed.

Section Laws.
Context `{L : Libp2p} {St Ca Off Ps : Type}.
Context `{St_b : Backend St PrimaryKey Cell} `{St_k : HasKind St}.
Context `{Ca_b : Backend Ca PrimaryKey Cell} `{Ca_c : Bounded Ca}.
Context `{Off_b : Backend Off rstring Z}.
Context `{Cd : Codec Table.Change} `{Cr : Codec DeviceRecord}.
Context `{Ps_b : Backend Ps PeerId PeerState, !BackendLaws Ps PeerId PeerState} `{Ps_d : Durable Ps}.
Implicit Types (d : Devices.Devices St Ca Off Ps) (s : EventStamp) (p : PeerId).

(** ** Hybrid time *)
Definition time_lt (a b : EventTime) : Prop :=
  (physical_ms a < physical_ms b ∨ physical_ms a = physical_ms b ∧ logical a < logical b)%Z.
Definition time_le (a b : EventTime) : Prop := time_lt a b ∨ a = b.
Lemma time_lt_cmp a b : time_lt a b ↔ cmp a b = Lt.
Proof using Type.
  change (cmp a b) with (then_with (Z.compare (physical_ms a) (physical_ms b))
    (Z.compare (logical a) (logical b))).
  unfold time_lt. destruct (Z.compare_spec (physical_ms a) (physical_ms b)); simpl;
    [rewrite Z.compare_lt_iff|..]; naive_solver lia.
Qed.
Lemma time_lt_trans a b c : time_lt a b → time_lt b c → time_lt a c.
Proof using Type. unfold time_lt. lia. Qed.
Lemma time_le_lt a b c : time_le a b → time_lt b c → time_lt a c.
Proof using Type. intros [?| ->]; [by apply time_lt_trans|done]. Qed.
Lemma time_le_trans a b c : time_le a b → time_le b c → time_le a c.
Proof using Type. intros Hab [Hbc| ->]; [left; by eapply time_le_lt|done]. Qed.
Lemma time_lt_le a b c : time_lt a b → time_le b c → time_lt a c.
Proof using Type. intros Hab [Hbc| <-]; [by eapply time_lt_trans|done]. Qed.
Lemma merged_time_le wall last time :
  time_le last (merged_time wall last time) ∧ time_le time (merged_time wall last time).
Proof using Type.
  assert (∀ a b, physical_ms a = physical_ms b → logical a = logical b → a = b) as Hext
    by (intros [] []; simpl; congruence).
  unfold time_le, time_lt, merged_time. cbn.
  set (ph := Z.max (Z.max wall (physical_ms last)) (physical_ms time)).
  assert (physical_ms last ≤ ph ∧ physical_ms time ≤ ph)%Z as [H1 H2] by (unfold ph; lia).
  destruct (Z.eq_dec (physical_ms last) ph) as [E1|E1], (Z.eq_dec (physical_ms time) ph) as [E2|E2];
    zcases; cbn [andb]; try lia; try (split; left; lia).
  - destruct (Z.max_spec (logical last) (logical time)) as [[? E]|[? E]]; rewrite E; split;
      try (left; lia); (right; apply Hext; cbn; lia) || (destruct (Z.eq_dec (logical last) (logical time));
      [right; apply Hext; cbn; lia|left; lia]).
  - split; [right; by apply Hext|left; lia].
  - split; [left; lia|right; by apply Hext].
Qed.

(** ** The clock *)
Definition clock_of d : option EventClock := clock (local (peer_cache d)).
Lemma mint_spec wall d :
  match clock_of d with
  | None => mint wall d = (d, Panic)
  | Some c =>
      mint wall d = (d, Err ClockExhausted) ∨
      ∃ time, time_lt (last_time c) time ∧ (next_sequence c ≠ u64_max) ∧
        mint wall d = (set_local (mkPeer (receipts (local (peer_cache d)))
          (Some (mkClock (next_sequence c + 1) time))) true d,
          Ok (mkEventStamp (mkEventId (local_peer_id d) (next_sequence c)) time))
  end.
Proof using Type.
  unfold mint, clock_of. destruct (clock _) as [c|]; [|done].
  destruct (Z.eqb_spec (next_sequence c) u64_max); [by left|]. destruct wall as [wall|]; [|by left].
  destruct (Z.ltb_spec (physical_ms (last_time c)) wall).
  - right. exists (mkEventTime wall 0). split; [left; cbn; lia|done].
  - destruct (checked_add_u32 _ _) as [l|] eqn:E; simpl; [|by left].
    apply checked_add_u32_Some in E as [-> _]. right. eexists. split; [|done].
    right. cbn. lia.
Qed.

(** Receipts, per peer. *)
Definition peer_of d p : PeerState :=
  if bool_decide (p = local_peer_id d) then local (peer_cache d)
  else default empty_peer (bt_get p (others (peer_cache d))).
Definition received d p (n : Z) : Prop := Receipts.seen (receipts (peer_of d p)) n.
Record devices_ok d : Prop := {
  do_clock : is_Some (clock_of d);
  do_local : Receipts.wf (receipts (local (peer_cache d)));
  do_others : ∀ p st, bt_get p (others (peer_cache d)) = Some st → Receipts.wf (receipts st);
}.
Lemma peer_of_wf d p : devices_ok d → Receipts.wf (receipts (peer_of d p)).
Proof using Type.
  intros [_ Hl Ho]. unfold peer_of. case_bool_decide; [done|].
  destruct (bt_get p _) as [st|] eqn:E; simpl; [by eapply Ho|]. apply Receipts.default_wf.
Qed.

Definition is_local d s : bool := bool_decide (peer_id (stamp_id s) = local_peer_id d).
(** [observe] in one step: the new receipts of the peer, and the new clock. *)
Lemma observe_receipts_peer s d :
  let (d', r) := observe_receipts s d in
  let '(w, r') := Receipts.observe (receipts (peer_of d (peer_id (stamp_id s)))) (sequence (stamp_id s)) in
  r = lift_receipt r' ∧ clock_of d' = clock_of d ∧ local_peer_id d' = local_peer_id d ∧
  (∀ p, receipts (peer_of d' p) = if bool_decide (p = peer_id (stamp_id s)) then w
                                  else receipts (peer_of d p)) ∧
  (is_local d s = true → others (peer_cache d') = others (peer_cache d)) ∧
  (∀ p st, bt_get p (others (peer_cache d')) = Some st →
     bt_get p (others (peer_cache d)) = Some st ∨ p = peer_id (stamp_id s) ∧ receipts st = w).
Proof using Type.
  unfold observe_receipts, is_local, peer_of at 1. case_bool_decide as Hp.
  - destruct (Receipts.observe _ _) as [w r]. split_and!; try done; [|intros p st; by left].
    intros p. unfold peer_of. cbn. rewrite Hp. by case_bool_decide.
  - destruct (Receipts.observe _ _) as [w r]. split_and!; try done.
    + intros p. unfold peer_of. cbn. repeat case_bool_decide; subst; try done.
      * by rewrite bt_get_insert.
      * by rewrite bt_get_insert_ne.
    + intros p st. cbn. bt_key p (peer_id (stamp_id s)); [|by left]. intros [= <-]. by right.
Qed.
Definition observed_clock (wall : Z) s d (c : EventClock) : EventClock :=
  mkClock (if is_local d s then Z.max (next_sequence c) (sequence (stamp_id s) + 1)
           else next_sequence c) (merged_time wall (last_time c) (stamp_time s)).
Lemma device_observe_step wall s d : devices_ok d → (0 ≤ sequence (stamp_id s) ≤ u64_max)%Z →
  let (d', r) := observe wall s d in
  r ≠ Panic ∧ devices_ok d' ∧ local_peer_id d' = local_peer_id d ∧
  match r with
  | Ok o => ∃ now c, wall = Some now ∧ clock_of d = Some c ∧
      clock_of d' = Some (observed_clock now s d c) ∧
      (o = Receipts.New ↔ ¬ received d (peer_id (stamp_id s)) (sequence (stamp_id s))) ∧
      ∀ p n, received d' p n ↔ received d p n ∨ p = peer_id (stamp_id s) ∧ n = sequence (stamp_id s)
  | _ => clock_of d' = clock_of d ∧ ∀ p n, received d' p n ↔ received d p n
  end.
Proof using Type.
  intros Hok Hs. unfold observe. destruct wall as [now|]; [|done].
  fold (is_local d s). destruct (is_local d s && _) eqn:El; [done|].
  pose proof (observe_receipts_peer s d) as Hr. pose proof (peer_of_wf d (peer_id (stamp_id s)) Hok) as Hwf.
  destruct (observe_receipts s d) as [d1 r1].
  pose proof (Receipts.window_observe_step _ (sequence (stamp_id s)) Hwf) as Hstep.
  assert (sequence (stamp_id s) = 0%Z →
    Receipts.observe (receipts (peer_of d (peer_id (stamp_id s)))) (sequence (stamp_id s)) =
    (receipts (peer_of d (peer_id (stamp_id s))), Err Receipts.InvalidEventSequence)) as Hzero
    by (intros ->; done).
  destruct (Receipts.observe _ _) as [w r]. destruct Hr as (-> & Hc1 & Hl1 & Hp1 & Ho1 & Ho1').
  destruct (Z.eq_dec (sequence (stamp_id s)) 0%Z) as [E0|E0].
  { specialize (Hzero E0). injection Hzero as -> ->. cbn. split; [done|]. split; [|split; [done|split; [done|]]].
    - constructor; [by rewrite Hc1; apply Hok| |].
      + specialize (Hp1 (local_peer_id d)). unfold peer_of in Hp1 at 1. rewrite Hl1, bool_decide_true in Hp1 by done.
        rewrite Hp1. case_bool_decide as Hb; [by rewrite Hb in *|apply peer_of_wf, Hok].
      + intros p st Hst. destruct (Ho1' p st Hst) as [?|[-> ->]]; [by eapply Hok|done].
    - intros p n. unfold received. rewrite Hp1. case_bool_decide as Hb; [by subst|done]. }
  destruct (Hstep ltac:(lia)) as (w' & o & [= <- ->] & Hwf' & Hseen & Hnew).
  cbn [lift_receipt map_err]. destruct (do_clock _ Hok) as [c Hc]. unfold clock_of in Hc1 at 1.
  rewrite Hc1, Hc. split; [done|].
  set (d2 := set_peer_cache _ _).
  assert (local_peer_id d2 = local_peer_id d ∧ others (peer_cache d2) = others (peer_cache d1) ∧
    receipts (local (peer_cache d2)) = receipts (local (peer_cache d1))) as (El2 & Eo2 & Er2)
    by (unfold d2; cbn; done).
  assert (∀ p, receipts (peer_of d2 p) = receipts (peer_of d1 p)) as Ep2.
  { intros p. unfold peer_of. rewrite El2, Eo2, Hl1. by case_bool_decide. }
  split; [|split; [done|]].
  - constructor; [by unfold d2; cbn; eauto| |].
    + rewrite Er2. specialize (Hp1 (local_peer_id d)). unfold peer_of in Hp1 at 1.
      rewrite Hl1, bool_decide_true in Hp1 by done. rewrite Hp1.
      case_bool_decide; [done|by apply peer_of_wf].
    + intros p st. rewrite Eo2. intros Hst. destruct (Ho1' p st Hst) as [?|[-> ->]]; [by eapply Hok|done].
  - exists now, c. split; [done|]. split; [done|]. split; [done|]. split; [done|].
    intros p n. unfold received. rewrite Ep2, Hp1. case_bool_decide as Hb.
    + subst p. rewrite Hseen. tauto.
    + split; [by left|]. intros [?|[? _]]; done.
Qed.

(** ** Runs *)
Inductive label := Minted (s : EventStamp) | Observed (s : EventStamp) | Quiet.
(** Everything that can happen to the clock, in any order; a call that fails
    is quiet. *)
Inductive dstep : Devices.Devices St Ca Off Ps → label → Devices.Devices St Ca Off Ps → Prop :=
  | step_mint wall d d' s : mint wall d = (d', Ok s) → dstep d (Minted s) d'
  | step_mint_fails wall d d' e : mint wall d = (d', Err e) → dstep d Quiet d'
  | step_observe wall s d d' o : observe wall s d = (d', Ok o) → dstep d (Observed s) d'
  | step_observe_fails wall s d d' e : observe wall s d = (d', Err e) → dstep d Quiet d'
  | step_checkpoint wb d d' r : checkpoint wb d = (d', r) → dstep d Quiet d'.
Inductive run : Devices.Devices St Ca Off Ps → Datatypes.list label → Devices.Devices St Ca Off Ps → Prop :=
  | run_nil d : run d [] d
  | run_cons d l d' ls d'' : dstep d l d' → run d' ls d'' → run d (l :: ls) d''.

Definition stamp_of (l : label) : option EventStamp :=
  match l with Minted s | Observed s => Some s | Quiet => None end.
(** What a stamp that passed by leaves in the clock. *)
Definition dominated d s : Prop := ∃ c, clock_of d = Some c ∧
  time_le (stamp_time s) (last_time c) ∧
  (peer_id (stamp_id s) = local_peer_id d → (sequence (stamp_id s) < next_sequence c)%Z).
Definition clock_le (c c' : EventClock) : Prop :=
  time_le (last_time c) (last_time c') ∧ (next_sequence c ≤ next_sequence c')%Z.

Lemma checkpoint_clock wb d : let (d', _) := checkpoint wb d in
  clock_of d' = clock_of d ∧ local_peer_id d' = local_peer_id d.
Proof using Type.
  unfold checkpoint. destruct (and_then _ _) as [ps [[]|e|]]; done.
Qed.
Lemma observe_receipts_clock s d : let (d', _) := observe_receipts s d in
  clock_of d' = clock_of d ∧ local_peer_id d' = local_peer_id d.
Proof using Type.
  pose proof (observe_receipts_peer s d) as Hr. destruct (observe_receipts s d) as [d' r].
  destruct (Receipts.observe _ _). destruct Hr as (_ & ? & ? & _). done.
Qed.
Lemma dstep_clock d l d' c : clock_of d = Some c → dstep d l d' →
  local_peer_id d' = local_peer_id d ∧ ∃ c', clock_of d' = Some c' ∧ clock_le c c' ∧
  match l with
  | Minted s => cmp (last_time c) (stamp_time s) = Lt ∧ peer_id (stamp_id s) = local_peer_id d ∧
      sequence (stamp_id s) = next_sequence c ∧ dominated d' s
  | Observed s => dominated d' s
  | Quiet => True
  end.
Proof using Type.
  intros Hc Hs. assert (clock_le c c) as Hrefl by (split; [by right|lia]).
  destruct Hs as [wall d d' s Hm|wall d d' e Hm|wall s d d' o Ho|wall s d d' e Ho|wb d d' r Hk].
  - pose proof (mint_spec wall d) as Hsp. rewrite Hc in Hsp.
    destruct Hsp as [Hf|(time & Ht & _ & Hf)]; rewrite Hf in Hm; [done|]. injection Hm as <- <-.
    split; [done|]. eexists. split; [done|]. split; [split; [by left|cbn; lia]|].
    cbn. split; [by apply time_lt_cmp|]. split; [done|]. split; [done|].
    eexists. split; [done|]. cbn. split; [by right|intros _; lia].
  - pose proof (mint_spec wall d) as Hsp. rewrite Hc in Hsp.
    destruct Hsp as [Hf|(time & Ht & _ & Hf)]; rewrite Hf in Hm; [|done]. injection Hm as <- _.
    split; [done|]. by exists c.
  - unfold observe in Ho. destruct wall as [now|]; [|done].
    destruct (bool_decide _ && _); [done|]. pose proof (observe_receipts_clock s d) as Hr.
    destruct (observe_receipts s d) as [d1 [o1|e1|]]; [|done|done]. destruct Hr as [Hc1 Hl1].
    unfold clock_of in Hc1 at 1. rewrite Hc1, Hc in Ho. injection Ho as <- _. split; [done|].
    destruct (merged_time_le now (last_time c) (stamp_time s)) as [M1 M2].
    eexists. split; [done|]. split; [split; [done|cbn; case_bool_decide; lia]|].
    eexists. split; [done|]. split; [done|]. cbn. rewrite Hl1. intros Hp.
    rewrite bool_decide_true by done. lia.
  - unfold observe in Ho. destruct wall as [now|]; [|injection Ho as <- _; split; [done|by exists c]].
    destruct (bool_decide _ && _); [injection Ho as <- _; split; [done|by exists c]|].
    pose proof (observe_receipts_clock s d) as Hr.
    destruct (observe_receipts s d) as [d1 [o1|e1|]]; [|injection Ho as <- _|done]; destruct Hr as [Hc1 Hl1].
    + unfold clock_of in Hc1 at 1. rewrite Hc1, Hc in Ho. done.
    + rewrite Hc1, Hl1. split; [done|]. by exists c.
  - pose proof (checkpoint_clock wb d) as Hck. rewrite Hk in Hck. destruct Hck as [-> ->].
    split; [done|]. by exists c.
Qed.
Lemma dominated_mono d d' c c' s : clock_of d = Some c → clock_of d' = Some c' → clock_le c c' →
  local_peer_id d' = local_peer_id d → dominated d s → dominated d' s.
Proof using Type.
  intros Hc Hc' [Ht Hn] Hl (c0 & Hc0 & Hd1 & Hd2). rewrite Hc in Hc0. injection Hc0 as <-.
  exists c'. split; [done|]. split; [by eapply time_le_trans|]. rewrite Hl. intros Hp. specialize (Hd2 Hp). lia.
Qed.
Lemma run_dominated d ls d' c s : clock_of d = Some c → run d ls d' → dominated d s →
  ∃ c', clock_of d' = Some c' ∧ dominated d' s ∧ local_peer_id d' = local_peer_id d.
Proof using Type.
  intros Hc Hr. revert c Hc. induction Hr as [d|d l d1 ls d2 Hs Hr IH]; intros c Hc Hd; [by exists c|].
  destruct (dstep_clock _ _ _ _ Hc Hs) as (Hl & c1 & Hc1 & Hle & _).
  destruct (IH c1 Hc1) as (c2 & Hc2 & Hd2 & Hl2); [exact (dominated_mono _ _ _ _ _ Hc Hc1 Hle Hl Hd)|].
  exists c2. split; [done|]. split; [done|congruence].
Qed.
Lemma run_app d ls ls' d'' : run d (ls ++ ls') d'' → ∃ d', run d ls d' ∧ run d' ls' d''.
Proof using Type.
  revert d. induction ls as [|l ls IH]; intros d; simpl.
  - intros Hr. exists d. split; [constructor|done].
  - intros Hr. inversion Hr; subst. destruct (IH _ H4) as (d1 & ? & ?). exists d1.
    split; [by econstructor|done].
Qed.
Lemma run_clock d ls d' c : clock_of d = Some c → run d ls d' →
  local_peer_id d' = local_peer_id d ∧ ∃ c', clock_of d' = Some c'.
Proof using Type.
  intros Hc Hr. revert c Hc. induction Hr as [d|d l d1 ls d2 Hs Hr IH]; intros c Hc; [by eauto|].
  destruct (dstep_clock _ _ _ _ Hc Hs) as (Hl & c1 & Hc1 & _). destruct (IH c1 Hc1) as [? ?].
  split; [congruence|done].
Qed.

(** ** Properties *)

(** C13. However mints, observations, checkpoints and failing calls interleave,
    whatever the wall clock does (it may go backwards): a stamp minted after
    a stamp that was minted or observed is greater in the global order, and
    its sequence is greater than that of any earlier event of this device. *)
Theorem mint_order (d d' : Devices.Devices St Ca Off Ps) (ls1 ls2 : Datatypes.list label)
    (l : label) (s s' : EventStamp) :
  is_Some (clock_of d) → run d (ls1 ++ l :: ls2 ++ [Minted s']) d' → stamp_of l = Some s →
  cmp s s' = Lt ∧ peer_id (stamp_id s') = local_peer_id d ∧
  (peer_id (stamp_id s) = local_peer_id d → (sequence (stamp_id s) < sequence (stamp_id s'))%Z).
Proof using Type.
  intros [c Hc] Hr Hl. apply run_app in Hr as (d1 & Hr1 & Hr). inversion Hr as [|? ? d2 ? ? Hs Hr2]; subst.
  apply run_app in Hr2 as (d3 & Hr2 & Hr3). inversion Hr3 as [|? ? d4 ? ? Hs3 _]; subst.
  destruct (run_clock _ _ _ _ Hc Hr1) as [L1 [c1 Hc1]].
  destruct (dstep_clock _ _ _ _ Hc1 Hs) as (L2 & c2 & Hc2 & _ & Hlab).
  assert (dominated d2 s) as Hdom by (destruct l as [x|x|]; simpl in Hl; simplify_eq; tauto).
  destruct (run_dominated _ _ _ _ _ Hc2 Hr2 Hdom) as (c3 & Hc3 & (c3' & Hc3' & Hd1 & Hd2) & L3).
  rewrite Hc3 in Hc3'. injection Hc3' as <-.
  destruct (dstep_clock _ _ _ _ Hc3 Hs3) as (_ & c4 & _ & _ & Hlt & Hp & Hsq & _).
  split; [|split].
  - apply stamp_lt_time, time_lt_cmp. eapply time_le_lt; [exact Hd1|by apply time_lt_cmp].
  - congruence.
  - intros Hps. rewrite Hsq. apply Hd2. congruence.
Qed.

(** C38. [observe] never panics; it is refused, and nothing is received, when the
    clock cannot be read or advanced or the sequence is zero, and otherwise
    the stamp, and it alone, joins what has been received from its peer: the
    outcome says whether it was new. *)
Theorem observe_receives (wall : option Z) (s : EventStamp) (d : Devices.Devices St Ca Off Ps) :
  devices_ok d → (0 ≤ sequence (stamp_id s) ≤ u64_max)%Z →
  let (d', r) := observe wall s d in
  r ≠ Panic ∧ devices_ok d' ∧
  match r with
  | Ok o => (o = Receipts.New ↔ ¬ received d (peer_id (stamp_id s)) (sequence (stamp_id s))) ∧
      ∀ p n, received d' p n ↔ received d p n ∨ p = peer_id (stamp_id s) ∧ n = sequence (stamp_id s)
  | _ => ∀ p n, received d' p n ↔ received d p n
  end.
Proof using Type.
  intros Hok Hs. pose proof (device_observe_step wall s d Hok Hs) as Ho.
  destruct (observe wall s d) as [d' [o|e|]]; destruct Ho as (H1 & H2 & _ & H3); split; try done;
    (split; [done|]).
  - destruct H3 as (? & ? & _ & _ & _ & Hn & Hr). done.
  - apply H3.
Qed.
End Laws.
