(* ===== verification/DeviceStore.v ===== *)
(** * Devices: registration, and the checkpoints of the peer cache

    [Devices::upsert] with the listeners it triggers, and the round trip of
    [flush] (or [sync]) and [open], from
    [zendb-workspace/src/devices/runtime.rs]. *)
From stdpp Require Import base numbers option gmap sorting list.
From S2P Require Import Prelude Order BTreeMap Stamp Value CellOps Backend Serdes Topic TopicLog Table TableLaws Receipts.
From S2P Require Import Devices DeviceLaws.
Import Devices.

Section Store.
Context `{L : Libp2p} {St Ca Off Ps : Type}.
Context `{St_b : Backend St PrimaryKey Cell} `{St_k : HasKind St}.
Context `{Ca_b : Backend Ca PrimaryKey Cell} `{Ca_c : Bounded Ca}.
Context `{Off_b : Backend Off rstring Z}.
Context `{Cd : Codec Table.Change} `{Cr : Codec DeviceRecord}.
Context `{Ps_b : Backend Ps PeerId PeerState, !BackendLaws Ps PeerId PeerState} `{Ps_d : Durable Ps}.
Implicit Types (d : Devices.Devices St Ca Off Ps) (s : EventStamp) (p q : PeerId).

(** ** Registration *)
(** The change an insert reports carries the event it was given. *)
Lemma and_then_ok {B A C} (r : B * io A) (f : B → A → B * io C) b' c :
  and_then r f = (b', Ok c) → ∃ b a, r = (b, Ok a) ∧ f b a = (b', Ok c).
Proof using Type. destruct r as [b [a|e|]]; simpl; [by eauto|done..]. Qed.
Lemma insert_event ev (t t' : Table.Table St Ca Off) ch :
  Table.insert ev t = (t', Ok (Table.Applied ch)) → Table.ch_event ch = ev.
Proof using Type.
  unfold Table.insert. destruct (cell_apply_walk _ _ _ _) as [c [[]|e|]]; [|done..]. intros Hi.
  apply and_then_ok in Hi as (t1 & [] & _ & Hi). apply and_then_ok in Hi as (t2 & o & _ & Hi).
  apply and_then_ok in Hi as (t3 & [] & _ & Hi). destruct (Topic.Topic.seek _ _ _) as [top h].
  by injection Hi as _ <-.
Qed.
Lemma receipt_listener_registry wall ch d :
  registry_cache (receipt_listener wall ch d) = registry_cache d ∧
  local_peer_id (receipt_listener wall ch d) = local_peer_id d.
Proof using Type.
  unfold receipt_listener, observe. destruct wall as [now|]; [|done]. case_match; [done|].
  unfold observe_receipts. case_bool_decide; destruct (Receipts.observe _ _) as [w [o|e|]];
    cbn [lift_receipt map_err]; try done; case_match; done.
Qed.
Lemma mint_registry wall d : let (d', _) := mint wall d in
  registry_cache d' = registry_cache d ∧ local_peer_id d' = local_peer_id d ∧ registry d' = registry d.
Proof using Type.
  pose proof (mint_spec wall d) as Hm. destruct (clock_of d); [|by rewrite Hm].
  destruct Hm as [->|(? & _ & _ & ->)]; done.
Qed.

(** The role a peer acts with. *)
Definition role_of d p : option Role :=
  if bool_decide (p = local_peer_id d) then local_role (registry_cache d) else get_device d p ≫= role.
(** The cached role of this device is the registered one. *)
Definition role_synced d : Prop :=
  local_role (registry_cache d) = get_device d (local_peer_id d) ≫= role.
Definition registered p (record : DeviceRecord) d d' : Prop :=
  get_device d' p = Some record ∧ ∀ q, q ≠ p → get_device d' q = get_device d q.
Lemma registry_listener_upsert p blob s d ch record :
  Table.ch_event ch = device_event p blob s → deserialize_from blob = Ok record →
  registered p record d (registry_listener ch d) ∧
  (role_synced d → role_synced (registry_listener ch d)).
Proof using Type.
  intros Hev Hd. unfold registry_listener. rewrite Hev. cbn [primary_key op device_event]. rewrite Hd.
  split; [split|].
  - unfold get_device. cbn. apply bt_get_insert.
  - intros q Hq. unfold get_device. cbn. by apply bt_get_insert_ne.
  - unfold role_synced, get_device. cbn. intros Hs. case_bool_decide as Hp.
    + subst p. by rewrite bt_get_insert.
    + by rewrite bt_get_insert_ne.
Qed.

(** ** Checkpoints *)
Definition me d : PeerId := local_peer_id d.
(** What the peer state will hold once the dirty entries are written. *)
Definition cached d p : option PeerState :=
  if bool_decide (p = me d) then Some (local (peer_cache d)) else bt_get p (others (peer_cache d)).
Record synced d : Prop := {
  sy_wf : backend_wf (peer_state d);
  sy_others : bt_wf (others (peer_cache d)) ∧ bt_get (me d) (others (peer_cache d)) = None;
  sy_dirty : ∀ p, bt_contains p (dirty_others (peer_cache d)) = true →
    p ≠ me d ∧ is_Some (bt_get p (others (peer_cache d)));
  sy_clean : ∀ p, (if bool_decide (p = me d) then local_dirty (peer_cache d) = false
                   else bt_contains p (dirty_others (peer_cache d)) = false) →
    get (peer_state d) p = cached d p;
}.

Lemma put_dirty_spec (peers : btree PeerId PeerState) (dirty : btree PeerId unit) (ps : Ps) :
  backend_wf ps → (∀ p, p ∈ bt_keys dirty → is_Some (bt_get p peers)) →
  let (ps', r) := put_dirty peers dirty ps in
  backend_wf ps' ∧ r ≠ Panic ∧ (∀ p, p ∉ bt_keys dirty → get ps' p = get ps p) ∧
  (r = Ok tt → ∀ p, p ∈ bt_keys dirty → get ps' p = bt_get p peers).
Proof using Type.
  revert ps. induction dirty as [|[p []] dirty IH]; intros ps Hwf Hd; simpl.
  - split_and!; try done. intros _ p Hp. by apply elem_of_nil in Hp.
  - destruct (Hd p) as [st Hst]; [by left|]. rewrite Hst.
    pose proof (put_law p st ps Hwf) as Hput. destruct (put p st ps) as [ps1 r1].
    destruct Hput as (Hwf1 & Hnp & Hother & Hg). destruct r1 as [[]|e|]; cbn [and_then]; [..|done].
    + specialize (IH ps1 Hwf1 (λ q Hq, Hd q (list_elem_of_further _ _ _ Hq))).
      destruct (put_dirty peers dirty ps1) as [ps2 r2]. destruct IH as (I1 & I2 & I3 & I4).
      split_and!; try done.
      * intros q Hq. apply not_elem_of_cons in Hq as [Hq1 Hq2]. rewrite I3 by done. by apply Hother.
      * intros Hr q Hq. destruct (decide (q ∈ bt_keys dirty)) as [Hin|Hin]; [by apply I4|].
        apply elem_of_cons in Hq as [->|Hq]; [|done]. rewrite I3 by done. by rewrite Hg.
    + split_and!; try done. intros q Hq. apply not_elem_of_cons in Hq as [Hq1 Hq2]. by apply Hother.
Qed.

Lemma checkpoint_ok wb d : synced d → writes_nothing (K:=PeerId) wb →
  let (d', r) := checkpoint wb d in
  r ≠ Panic ∧ registry d' = registry d ∧ registry_cache d' = registry_cache d ∧
  local_peer_id d' = local_peer_id d ∧
  (∀ p, cached d' p = cached d p) ∧
  (r = Ok tt → synced d' ∧ peer_cache d' = mkCache (local (peer_cache d)) false (others (peer_cache d)) [] ∧
    backend_wf (peer_state d') ∧ ∀ p, get (peer_state d') p = cached d p).
Proof using Type.
  intros [Hwf [How Hme] Hdirty Hclean] Hwb. unfold checkpoint.
  set (first := if local_dirty (peer_cache d) then _ else _).
  assert (let (ps, r) := first in backend_wf ps ∧ r ≠ Panic ∧
    (∀ p, p ≠ me d → get ps p = get (peer_state d) p) ∧
    (r = Ok tt → get ps (me d) = cached d (me d))) as Hfirst.
  { unfold first. destruct (local_dirty (peer_cache d)) eqn:El.
    - pose proof (put_law (local_peer_id d) (local (peer_cache d)) _ Hwf) as Hput.
      destruct (put _ _ _) as [ps r]. destruct Hput as (? & ? & ? & Hg). split_and!; try done.
      intros ->. unfold cached, me. by rewrite bool_decide_true, Hg.
    - split_and!; try done. intros _. apply Hclean. by rewrite bool_decide_true. }
  destruct first as [ps1 r1]. destruct Hfirst as (Hwf1 & Hnp1 & Ho1 & Hl1).
  destruct r1 as [[]|e|]; cbn [and_then]; [|done|done].
  pose proof (put_dirty_spec (others (peer_cache d)) (dirty_others (peer_cache d)) ps1 Hwf1) as Hd.
  assert (∀ p, p ∈ bt_keys (dirty_others (peer_cache d)) →
    p ≠ me d ∧ is_Some (bt_get p (others (peer_cache d)))) as Hdirty'.
  { intros p Hp. apply Hdirty. apply bt_contains_get. by apply bt_elem_of_keys. }
  specialize (Hd (λ p Hp, proj2 (Hdirty' p Hp))).
  destruct (put_dirty _ _ ps1) as [ps2 r2]. destruct Hd as (Hwf2 & Hnp2 & Ho2 & Hd2).
  destruct r2 as [[]|e|]; cbn [and_then]; [|done|done].
  pose proof (Hwb ps2 Hwf2) as Hw. destruct (wb ps2) as [ps3 r3]. destruct Hw as (Hwf3 & Hnp3 & Hg3).
  destruct r3 as [[]|e|]; [|done|done].
  assert (∀ p, get ps3 p = cached d p) as Hall.
  { intros p. rewrite Hg3. destruct (decide (p ∈ bt_keys (dirty_others (peer_cache d)))) as [Hin|Hin].
    - rewrite Hd2 by done. destruct (Hdirty' p Hin) as [Hne _]. unfold cached.
      by rewrite bool_decide_false.
    - rewrite Ho2 by done. destruct (decide (p = me d)) as [->|Hne]; [by apply Hl1|].
      rewrite Ho1 by done. apply Hclean. rewrite bool_decide_false by done.
      destruct (bt_contains p _) eqn:E; [|done]. destruct Hin. apply bt_elem_of_keys.
      by apply bt_contains_get. }
  split; [done|]. split; [done|]. split; [done|]. split; [done|]. split; [done|]. intros _.
  split; [|split; [done|split; [done|exact Hall]]].
  constructor; [done|done|intros p; done|]. intros p _. apply Hall.
Qed.

Lemma bt_from_iter_wf {K V} `{TotalCmp K} (l : Datatypes.list (K * V)) : bt_wf (bt_from_iter l).
Proof using Type.
  unfold bt_from_iter. generalize (I : bt_wf (@nil (K * V))). generalize (@nil (K * V)).
  induction l as [|[k v] l IH]; intros m Hm; simpl; [done|]. apply IH. by apply bt_wf_insert.
Qed.
Lemma bt_from_iter_get {K V} `{TotalCmp K} (l : Datatypes.list (K * V)) k : NoDup (map fst l) →
  bt_get k (bt_from_iter l) = bt_get k l.
Proof using Type.
  intros Hnd. unfold bt_from_iter.
  assert (∀ m, bt_get k (foldl (λ m kv, bt_insert kv.1 kv.2 m) m l) =
    match bt_get k l with Some v => Some v | None => bt_get k m end) as ->; [|by destruct (bt_get k l)].
  revert Hnd. induction l as [|[k' v] l IH]; intros Hnd m; simpl; [done|].
  apply NoDup_cons in Hnd as [Hk Hnd]. rewrite IH by done. destruct (cmpP k k') as [->|E E'|E E'].
  - rewrite bt_get_insert. destruct (bt_get k' l) as [w|] eqn:Eg; [|done].
    destruct Hk. apply bt_get_In in Eg. apply list_elem_of_fmap. by exists (k', w).
  - rewrite bt_get_insert_ne; [done|]. intros ->. by rewrite cmp_refl in E.
  - rewrite bt_get_insert_ne; [done|]. intros ->. by rewrite cmp_refl in E.
Qed.
(** The device a row of the registry records. *)
Definition row_device (r : Cell) : option DeviceRecord :=
  match value r with
  | Some (Blob b) => match deserialize_from b with Ok x => Some x | _ => None end
  | _ => None
  end.
Definition device_row_ok (r : Cell) : Prop :=
  value r = None ∨ ∃ record, value r = Some (Blob (encoded record)) ∧ codec_ok record.
(** The cached registry is the registry. *)
Record registry_ok d : Prop := {
  ro_rows k r : Table.table_get (registry d) k = Some r → (∃ p, k = PK_PeerId p) ∧ device_row_ok r;
  ro_cache p : get_device d p = Table.table_get (registry d) (PK_PeerId p) ≫= row_device;
  ro_role : role_synced d;
}.
Lemma registry_ok_same d d' : registry_cache d' = registry_cache d → me d' = me d →
  (∀ k, Table.table_get (registry d') k = Table.table_get (registry d) k) → registry_ok d → registry_ok d'.
Proof using Type.
  intros Hc Hme Hs [H1' H2' H3']. constructor.
  - intros k r. rewrite Hs. apply H1'.
  - intros p. unfold get_device. rewrite Hc, Hs. apply H2'.
  - unfold role_synced, get_device in *. unfold me in Hme. by rewrite Hc, Hme.
Qed.

(** ** A new workspace's device *)
Lemma synced_local w c d : synced d → synced (set_local (mkPeer w c) true d).
Proof using Type.
  intros [Hwf Ho Hd Hc]. constructor; try done. intros p. unfold cached.
  change (me (set_local _ _ _)) with (me d). case_bool_decide as Hp; [done|].
  specialize (Hc p). unfold cached in Hc. rewrite !bool_decide_false in Hc by done. exact Hc.
Qed.
Lemma mint_synced wall d d' s : mint wall d = (d', Ok s) → synced d →
  synced d' ∧ peer_state d' = peer_state d ∧ is_Some (clock_of d').
Proof using Type.
  intros Hm Hs. pose proof (mint_spec wall d) as Hmint. destruct (clock_of d) as [c|]; [|by rewrite Hmint in Hm].
  destruct Hmint as [Hf|(time & _ & _ & Hf)]; rewrite Hf in Hm; [done|]. injection Hm as <- _.
  split; [by apply synced_local|]. split; [done|by eexists].
Qed.
Lemma mint_keeps wall d : let (d', _) := mint wall d in peer_state d' = peer_state d.
Proof using Type.
  pose proof (mint_spec wall d) as Hm. destruct (clock_of d); [|by rewrite Hm].
  destruct Hm as [->|(? & _ & _ & ->)]; done.
Qed.
Lemma listener_keeps wall ch d :
  registry (receipt_listener wall ch d) = registry d ∧ peer_state (receipt_listener wall ch d) = peer_state d.
Proof using Type.
  unfold receipt_listener, observe. destruct wall as [now|]; [|done]. case_match; [done|].
  unfold observe_receipts. case_bool_decide; destruct (Receipts.observe _ _) as [w [o|e|]];
    cbn [lift_receipt map_err]; try done; case_match; done.
Qed.
Lemma observe_failed w n : match (Receipts.observe w n).2 with Ok _ => True | _ => (Receipts.observe w n).1 = w end.
Proof using Type. unfold Receipts.observe. by repeat case_match. Qed.
Lemma listener_synced wall ch d : peer_id (stamp_id (event_stamp (Table.ch_event ch))) = me d →
  is_Some (clock_of d) → synced d →
  let d' := receipt_listener wall ch d in
  synced d' ∧ peer_state d' = peer_state d ∧ registry d' = registry d ∧ is_Some (clock_of d').
Proof using Type.
  intros Hlocal Hc Hs. cbn zeta. unfold receipt_listener, observe. destruct wall as [now|]; [|done].
  rewrite bool_decide_true by exact Hlocal. cbn [andb]. destruct (_ =? u64_max)%Z; [done|].
  unfold observe_receipts. rewrite bool_decide_true by exact Hlocal.
  pose proof (observe_failed (receipts (local (peer_cache d))) (sequence (stamp_id (event_stamp (Table.ch_event ch))))) as Hf.
  destruct (Receipts.observe _ _) as [w r]. destruct Hc as [c Hc]. unfold clock_of in *.
  destruct r as [o|e|]; cbn [lift_receipt map_err fst snd] in *.
  - cbn [peer_cache set_local set_peer_cache local clock]. rewrite Hc. cbn [fst].
    split; [|split; [done|split; [done|by eexists]]].
    match goal with |- synced ?x => change x with (set_local (mkPeer w (Some (mkClock (Z.max (next_sequence c)
      (sequence (stamp_id (event_stamp (Table.ch_event ch))) + 1)) (merged_time now (last_time c)
      (stamp_time (event_stamp (Table.ch_event ch))))))) true d) end. by apply synced_local.
  - subst w. assert (set_local (mkPeer (receipts (local (peer_cache d))) (clock (local (peer_cache d)))) (local_dirty (peer_cache d)) d = d) as ->
      by (destruct d as [? ? ? ? [[] ? ? ?]]; done). split_and!; [done..|by eexists].
  - subst w. assert (set_local (mkPeer (receipts (local (peer_cache d))) (clock (local (peer_cache d)))) (local_dirty (peer_cache d)) d = d) as ->
      by (destruct d as [? ? ? ? [[] ? ? ?]]; done). split_and!; [done..|by eexists].
Qed.
Lemma create_device wall (reg : Table.Table St Ca Off) (ps : Ps) p name d : create wall reg ps p name = Ok d →
  codec_ok (mkDevice name (Some Admin)) → backend_wf ps → (∀ q, get ps q = None) →
  ∃ now ev, wall = Some now ∧
    ev = device_event p (encoded (mkDevice name (Some Admin))) (mkEventStamp (mkEventId p 1) (mkEventTime now 0)) ∧
    is_ok (Table.insert ev reg).2 = true ∧ registry d = (Table.insert ev reg).1 ∧
    registry_cache d = mkRegistry [(p, mkDevice name (Some Admin))] (Some Admin) ∧
    peer_state d = ps ∧ me d = p ∧ synced d ∧ clock_of d = Some (mkClock 2 (mkEventTime now 0)).
Proof using Type.
  intros Hc Hcod Hps Hnone. revert Hc. unfold create. destruct wall as [now|]; [|done]. rewrite codec_ok_encode by done.
  cbn [lift_io map_err rbind]. set (ev := device_event _ _ _). destruct (Table.insert ev reg) as [t r] eqn:Ei.
  destruct r as [o|e|]; cbn [lift_io map_err rbind]; [|done..]. intros [= <-]. exists now, ev. split; [done|].
  split; [done|]. rewrite Ei. split_and!; try done. constructor; [done|done|done|].
  intros q. unfold cached. cbn. case_bool_decide; [done|]. by rewrite Hnone.
Qed.

(** Opening on a state that holds what the last checkpoint wrote. *)
Lemma open_restores wall (reg : Table.Table St Ca Off) (ps : Ps) d ents record : synced d → is_Some (clock_of d) →
  local_dirty (peer_cache d) = false → dirty_others (peer_cache d) = [] →
  backend_wf ps → (∀ p, get ps p = get (peer_state d) p) →
  load_registry (Table.table_entries reg) [] = Ok ents → bt_get (me d) ents = Some record →
  open wall reg ps (me d) = Ok (mkDevices (me d) reg (mkRegistry ents (role record)) ps (peer_cache d)).
Proof using Type.
  intros [Hwf [How Hme] _ Hclean] [c Hc] Hl Hd Hps Hsame Hload Hrec. unfold open. rewrite Hload. cbn [rbind]. rewrite Hrec.
  assert (∀ p, bt_get p (bt_from_iter (entries ps)) = cached d p) as Hget.
  { intros p. rewrite bt_from_iter_get by (by apply keys_nodup). rewrite <- get_entries, Hsame by done.
    apply Hclean. rewrite Hd. by case_bool_decide. }
  rewrite Hget. unfold cached at 1. rewrite bool_decide_true by done.
  unfold clock_of in Hc. rewrite Hc. f_equal. f_equal.
  assert (bt_remove (me d) (bt_from_iter (entries ps)) = others (peer_cache d)) as ->.
  { apply bt_ext; [apply bt_wf_remove, bt_from_iter_wf|done|]. intros p.
    destruct (decide (p = me d)) as [->|Hne]; [by rewrite bt_get_remove|].
    rewrite bt_get_remove_ne, Hget by done. unfold cached. by rewrite bool_decide_false. }
  destruct (peer_cache d); simpl in *. by subst.
Qed.
Lemma load_registry_ok (rows : Datatypes.list (PrimaryKey * Cell)) acc :
  (∀ k r, (k, r) ∈ rows → (∃ p, k = PK_PeerId p) ∧ device_row_ok r) → NoDup (map fst rows) →
  ∃ ents, load_registry rows acc = Ok ents ∧
    ∀ p, bt_get p ents = match bt_get (PK_PeerId p) rows ≫= row_device with
                         | Some record => Some record | None => bt_get p acc end.
Proof using Type.
  revert acc. induction rows as [|[k r] rows IH]; intros acc Hrows Hnd; [by exists acc|].
  destruct (Hrows k r ltac:(by left)) as [[q ->] Hr]. apply NoDup_cons in Hnd as [Hk Hnd].
  assert (bt_get (PK_PeerId q) rows = None) as Hnone.
  { destruct (bt_get (PK_PeerId q) rows) as [r'|] eqn:E; [|done]. destruct Hk. apply bt_get_In in E.
    apply list_elem_of_fmap. by exists (PK_PeerId q, r'). }
  assert (∀ acc', (∀ p, bt_get p acc' = if bool_decide (p = q) then match row_device r with Some x => Some x | None => bt_get q acc end
    else bt_get p acc) → ∃ ents, load_registry rows acc' = Ok ents ∧ ∀ p, bt_get p ents =
      match bt_get (PK_PeerId p) ((PK_PeerId q, r) :: rows) ≫= row_device with Some record => Some record | None => bt_get p acc end) as Hgo.
  { intros acc' Hacc. destruct (IH acc') as (ents & -> & Hents); [intros; apply Hrows; by right|done|].
    exists ents. split; [done|]. intros p. rewrite Hents, Hacc. cbn [bt_get]. case_bool_decide as Hp.
    - subst p. rewrite cmp_refl, Hnone. done.
    - destruct (cmpP (PK_PeerId p) (PK_PeerId q)) as [E|?|?]; [congruence|done..]. }
  unfold row_device in Hgo. cbn [load_registry].
  destruct Hr as [Hv|(record & Hv & Hc)]; rewrite Hv in Hgo |- *.
  - apply Hgo. intros p. case_bool_decide; by subst.
  - rewrite (codec_ok_decode _ Hc) in Hgo |- *. apply Hgo. intros p.
    case_bool_decide; [subst; apply bt_get_insert|by apply bt_get_insert_ne].
Qed.

(** ** Properties *)

(** A checkpoint ([flush] or [sync]) never panics, and when it succeeds the
    next [open] restores the clock and the receipts of every peer exactly. *)
Theorem devices_checkpoint (wb : Ps → Ps * io unit) (d : Devices.Devices St Ca Off Ps)
    (wall : option Z) (reg : Table.Table St Ca Off) (ents : btree PeerId DeviceRecord)
    (record : DeviceRecord) :
  synced d → writes_nothing (K:=PeerId) wb → is_Some (clock_of d) →
  load_registry (Table.table_entries reg) [] = Ok ents → bt_get (me d) ents = Some record →
  let (d', r) := checkpoint wb d in
  r ≠ Panic ∧ (r = Ok tt → local (peer_cache d') = local (peer_cache d) ∧
    others (peer_cache d') = others (peer_cache d) ∧
    open wall reg (peer_state d') (me d) =
      Ok (mkDevices (me d) reg (mkRegistry ents (role record)) (peer_state d') (peer_cache d'))).
Proof using Type.
  intros Hs Hwb Hc Hload Hrec. pose proof (checkpoint_ok wb d Hs Hwb) as Hk.
  pose proof (checkpoint_clock wb d) as Hclk.
  destruct (checkpoint wb d) as [d' r]. destruct Hk as (Hnp & _ & _ & Hl & _ & Hok). destruct Hclk as [Hcl _].
  split; [done|]. intros Hr. destruct (Hok Hr) as (Hs' & Hpc & _ & _).
  rewrite Hpc. split; [done|]. split; [done|]. rewrite <- Hpc. unfold me. rewrite <- Hl.
  apply open_restores; try done; [by rewrite Hcl|by rewrite Hpc|by rewrite Hpc|by destruct Hs'|].
  unfold me. by rewrite Hl.
Qed.

(** C40. A device that stops without a checkpoint after minting reuses the
    identity of the stamp it had minted: the clock reaches the disk only at a
    checkpoint, the events of the tables do before. *)
Theorem crash_reuses_identity (wb : Ps → Ps * io unit) (d d1 d2 d3 d4 : Devices.Devices St Ca Off Ps)
    (wall1 wall2 wall3 : option Z) (reg : Table.Table St Ca Off)
    (ents : btree PeerId DeviceRecord) (record : DeviceRecord) (s s' : EventStamp) :
  synced d → writes_nothing (K:=PeerId) wb → is_Some (clock_of d) →
  load_registry (Table.table_entries reg) [] = Ok ents → bt_get (me d) ents = Some record →
  checkpoint wb d = (d1, Ok tt) → mint wall1 d1 = (d2, Ok s) →
  open wall2 reg (peer_state d2) (me d) = Ok d3 → mint wall3 d3 = (d4, Ok s') →
  stamp_id s' = stamp_id s.
Proof using Type.
  intros Hs Hwb Hc Hload Hrec Hk Hm1 Hopen Hm2. pose proof (checkpoint_ok wb d Hs Hwb) as Hck.
  pose proof (checkpoint_clock wb d) as Hclk. rewrite Hk in Hck, Hclk.
  destruct Hck as (_ & _ & _ & Hl & _ & Hok). destruct Hclk as [Hcl _].
  destruct (Hok eq_refl) as (Hs1 & Hpc & _ & _).
  pose proof (mint_spec wall1 d1) as Hsp1. rewrite Hcl in Hsp1. destruct Hc as [c Hc]. rewrite Hc in Hsp1.
  destruct Hsp1 as [Hf|(time1 & _ & _ & Hf)]; rewrite Hf in Hm1; [done|]. injection Hm1 as <- <-.
  cbn [peer_state set_local set_peer_cache] in Hopen.
  unfold me in Hrec. rewrite <- Hl in Hrec. change (me d) with (local_peer_id d) in Hopen. rewrite <- Hl in Hopen.
  fold (me d1) in Hopen. rewrite (open_restores wall2 reg (peer_state d1) d1 ents record) in Hopen;
    [|done|by rewrite Hcl, Hc|by rewrite Hpc|by rewrite Hpc|by destruct Hs1|done..].
  injection Hopen as <-. match type of Hm2 with mint _ ?x = _ => pose proof (mint_spec wall3 x) as Hsp2;
    assert (clock_of x = Some c) as Hx by (rewrite <- Hcl in Hc; exact Hc) end.
  rewrite Hx in Hsp2. destruct Hsp2 as [Hf2|(time2 & _ & _ & Hf2)]; rewrite Hf2 in Hm2; [done|].
  by injection Hm2 as _ <-.
Qed.
End Store.

(** ** The registry as a table *)
Section Registry.
Context `{L : Libp2p} {St Ca Off Ps : Type}.
Context `{St_b : Backend St PrimaryKey Cell, !BackendLaws St PrimaryKey Cell} `{St_d : Durable St, !DurableLaws St PrimaryKey Cell} `{St_k : HasKind St}.
Context `{Ca_b : Backend Ca PrimaryKey Cell, !BackendLaws Ca PrimaryKey Cell} `{Ca_c : Bounded Ca, !BoundedLaws Ca PrimaryKey Cell}.
Context `{Off_b : Backend Off rstring Z, !BackendLaws Off rstring Z} `{Off_d : Durable Off, !DurableLaws Off rstring Z}.
Context `{Cd : Codec Table.Change} `{Cr : Codec DeviceRecord} `{Ps_b : Backend Ps PeerId PeerState}.
Abbreviation T := (Table.Table St Ca Off).
Implicit Types (d : Devices.Devices St Ca Off Ps) (s u : EventStamp) (p q : PeerId) (t : T).
Hypothesis Hkind : kind_stable (St:=St).

(** No event the clock has not passed. *)
Definition passed d s : Prop := ∃ k, clock_of d = Some k ∧ time_le (stamp_time s) (last_time k).
Lemma passed_mono d d' s k k' : clock_of d = Some k → clock_of d' = Some k' → clock_le k k' → passed d s → passed d' s.
Proof using Type.
  intros Hk Hk' [Hle _] (k0 & Hk0 & Ht). rewrite Hk in Hk0. injection Hk0 as <-.
  exists k'. split; [done|]. by eapply time_le_trans.
Qed.
Lemma receipt_clock w ch d k : clock_of d = Some k →
  ∃ k', clock_of (receipt_listener w ch d) = Some k' ∧ clock_le k k'.
Proof using Ps_b.
  intros Hk. assert (clock_le k k) as Hrefl by (split; [by right|lia]).
  unfold receipt_listener. destruct (observe w _ d) as [d' [o|e|]] eqn:Eo; cbn.
  - destruct (dstep_clock _ _ _ _ Hk (step_observe _ _ _ _ _ Eo)) as (_ & k' & ? & ? & _). by exists k'.
  - destruct (dstep_clock _ _ _ _ Hk (step_observe_fails _ _ _ _ _ Eo)) as (_ & k' & ? & ? & _). by exists k'.
  - unfold observe in Eo. destruct w as [now|]; [|done]. destruct (bool_decide _ && _); [done|].
    pose proof (observe_receipts_clock (event_stamp (Table.ch_event ch)) d) as Hr.
    destruct (observe_receipts _ d) as [d1 [o1|e1|]]; [| |injection Eo as <-]; destruct Hr as [Hr _];
      [|done|by exists k; rewrite Hr].
    unfold clock_of in Hr at 1. rewrite Hr, Hk in Eo. done.
Qed.
Lemma receipt_passed w ch d s : passed d s → passed (receipt_listener w ch d) s.
Proof using Ps_b.
  intros Hp. pose proof Hp as (k & Hk & _). destruct (receipt_clock w ch d k Hk) as (k' & Hk' & Hle).
  exact (passed_mono _ _ _ _ _ Hk Hk' Hle Hp).
Qed.
(** A minted stamp is newer than whatever the clock has passed. *)
Lemma minted_newer w d d' s : mint w d = (d', Ok s) →
  (∀ u, passed d u → cmp u s = Lt ∧ passed d' u) ∧ (is_Some (clock_of d) → passed d' s) ∧
  peer_id (stamp_id s) = me d.
Proof using Type.
  pose proof (mint_spec w d) as Hs. destruct (clock_of d) as [k|] eqn:Ek; [|by rewrite Hs].
  destruct Hs as [Hs|(t & Ht & _ & Hs)]; rewrite Hs; [done|]. intros [= <- <-].
  split; [|split; [|done]].
  - intros u (k0 & Hk0 & Hu). rewrite Ek in Hk0. injection Hk0 as <-.
    assert (time_lt (stamp_time u) t) as Hlt by (eapply time_le_lt; [exact Hu|done]).
    split; [by apply stamp_lt_time, time_lt_cmp|]. eexists. split; [done|]. by left.
  - intros _. eexists. split; [done|]. by right.
Qed.
Lemma mint_stays w d d' r : mint w d = (d', r) → (∀ s, r ≠ Ok s) → d' = d.
Proof using Type.
  pose proof (mint_spec w d) as Hs. destruct (clock_of d) as [k|]; [|by rewrite Hs; intros [= <- _]].
  destruct Hs as [->|(t & _ & _ & ->)]; intros [= <- <-] Hr; [done|by destruct (Hr _ eq_refl)].
Qed.

(** The log and the disk accept the change an event makes. *)
Definition accepts t (ev : Event) : Prop :=
  storable (change_of ev t) ∧ 8 + length (encoded (change_of ev t)) ≤ Topic.tp_disk (Table.tb_topic t).
(** A write of a whole row, at a stamp newer than the row's. *)
Lemma row_insert t log key o w s : table_ok t log → capacity (Table.tb_cache t) ≠ Some 0 → written o = Some w →
  cmp (stamp (default (dummy None) (Table.table_get t key))) s = Lt → accepts t (mkEvent key [] o s) →
  let (t', r) := Table.insert (mkEvent key [] o s) t in
  (∃ log', table_ok t' log') ∧ capacity (Table.tb_cache t') = capacity (Table.tb_cache t) ∧
  match r with
  | Ok (Table.Applied ch) => Table.ch_event ch = mkEvent key [] o s ∧ Table.table_get t' key = Some (mkCell w s) ∧
      ∀ k, k ≠ key → Table.table_get t' k = Table.table_get t k
  | Err _ => same_contents t t'
  | _ => False
  end.
Proof using Hkind BoundedLaws0.
  intros Hlog Hcap0 Hw Hcur [Hst Hd]. set (ev := mkEvent key [] o s) in *.
  pose proof (insert_keeps Hkind ev _ log Hlog Hcap0) as [_ Hcap].
  pose proof (insert_ok Hkind ev _ log Hlog Hcap0 Hst Hd) as Hins.
  assert (insert_walk ev t = (mkCell w s, Ok true)) as Hwalk.
  { unfold insert_walk, ev. cbn [path op primary_key cell_apply_walk event_stamp incoming].
    set (cur := default (dummy None) _) in *.
    assert ((s <=? stamp cur) = false) as Hle by (rewrite leb_gtb; apply negb_false_iff; by apply gtb_lt).
    destruct o; try done; injection Hw as <-; cbn [cell_apply incoming]; by rewrite Hle. }
  destruct (Table.insert ev t) as [t' r]. cbn [fst] in Hcap. destruct Hins as [Hins _].
  destruct r as [[|ch]|e|]; [..|done].
  - destruct Hins as [_ Hins]. by rewrite Hwalk in Hins.
  - destruct Hins as (-> & _ & (Hget & j & _ & Hok' & _) & _).
    split; [by eexists|]. split; [done|]. split; [done|].
    change (change_key (change_of ev t)) with key in Hget.
    change (Table.current_cell (change_of ev t)) with (Some (insert_walk ev t).1) in Hget.
    rewrite Hwalk in Hget. split; [by rewrite Hget, cmp_refl|].
    intros k Hk. rewrite Hget. by destruct (cmpP k key).
  - destruct Hins as (Hok' & Hsame & _). split; [by eexists|]. by split.
Qed.

(** What [Devices] keeps of its registry: a table with room, whose rows the
    cache mirrors and the clock has passed. *)
Record roster_ok d : Prop := {
  rs_table : ∃ log, table_ok (registry d) log;
  rs_capacity : capacity (Table.tb_cache (registry d)) ≠ Some 0;
  rs_registry : registry_ok d;
  rs_stamps k r : Table.table_get (registry d) k = Some r → passed d (stamp r);
  rs_clock : passed d EventStamp_default;
}.
Definition same_cache d d' : Prop := registry_cache d' = registry_cache d ∧ me d' = me d.
(** The clock moves on, and the rows stay or are put back as they were. *)
Lemma roster_moved d d' : roster_ok d → same_cache d d' → (∀ s, passed d s → passed d' s) →
  (∃ log, table_ok (registry d') log) → capacity (Table.tb_cache (registry d')) = capacity (Table.tb_cache (registry d)) →
  same_contents (registry d) (registry d') → roster_ok d'.
Proof using Type.
  intros [H1 H2 H3 H4 H5] [Hc Hme] Hp Hlog Hcap Hsame. constructor; [done|by rewrite Hcap|by eapply registry_ok_same| |by apply Hp].
  intros k r. rewrite (Hsame k). intros Hr. by apply Hp, (H4 k r).
Qed.
(** The cache and the row of [p] are replaced together. *)
Lemma roster_written d d' p (record : DeviceRecord) s : roster_ok d → codec_ok record → me d' = me d →
  registered p record d d' → role_synced d' → (∀ u, passed d u → passed d' u) → passed d' s →
  (∃ log, table_ok (registry d') log) → capacity (Table.tb_cache (registry d')) = capacity (Table.tb_cache (registry d)) →
  Table.table_get (registry d') (PK_PeerId p) = Some (mkCell (Some (Blob (encoded record))) s) →
  (∀ k, k ≠ PK_PeerId p → Table.table_get (registry d') k = Table.table_get (registry d) k) → roster_ok d'.
Proof using Type.
  intros [H1 H2 [R1 R2 R3] H4 H5] Hcod Hme [G1 G2] Hrole Hp Hs Hlog Hcap Hrow Hother.
  constructor; [done|by rewrite Hcap|constructor; [..|done]| |by apply Hp].
  - intros k r. destruct (decide (k = PK_PeerId p)) as [->|Hk]; [|rewrite Hother by done; apply R1].
    rewrite Hrow. intros [= <-]. split; [by exists p|]. right. by exists record.
  - intros q. destruct (decide (q = p)) as [->|Hq].
    + rewrite G1, Hrow. unfold row_device. cbn. by rewrite codec_ok_decode.
    + rewrite G2, Hother by congruence. apply R2.
  - intros k r. destruct (decide (k = PK_PeerId p)) as [->|Hk]; [|rewrite Hother by done; intros Hr; by apply Hp, (H4 k r)].
    rewrite Hrow. by intros [= <-].
Qed.
Lemma registry_listener_keeps ch d : registry (registry_listener ch d) = registry d ∧
  peer_cache (registry_listener ch d) = peer_cache d ∧ me (registry_listener ch d) = me d.
Proof using Type. unfold registry_listener. repeat case_match; done. Qed.
Lemma has_admin d : require_access d (local_peer_id d) Admin =
  if bool_decide (role_of d (me d) = Some Admin) then Ok tt else Err PermissionDenied.
Proof using Type.
  unfold require_access, has_access, role_of, me.
  destruct (if bool_decide _ then _ else _) as [[]|]; cbn; by case_bool_decide.
Qed.

(** ** Properties *)

(** C37. Registering a device, guard by guard: a caller that is not an admin is
    refused, and the current record is a no-op, both without effect.
    Otherwise a success writes the record to the row of the device in the
    registry's table, at the stamp minted for it, and to the cache, this
    device's own role following when it is the device; every other row and
    record is kept.  An error leaves every row and the cache.  It never
    panics, and the cache mirrors the table again. *)
Theorem devices_upsert (wall wall' : option Z) (p : PeerId) (record : DeviceRecord) (d : Devices.Devices St Ca Off Ps) :
  roster_ok d → codec_ok record →
  (∀ d1 s, mint wall d = (d1, Ok s) → accepts (registry d) (device_event p (encoded record) s)) →
  let (d', r) := upsert wall wall' p record d in
  roster_ok d' ∧
  if negb (bool_decide (role_of d (me d) = Some Admin)) then d' = d ∧ r = Err PermissionDenied
  else if bool_decide (get_device d p = Some record) then d' = d ∧ r = Ok false
  else match r with
       | Ok b => b = true ∧ registered p record d d' ∧ role_synced d' ∧
           (∃ d1 s, mint wall d = (d1, Ok s) ∧
             Table.table_get (registry d') (PK_PeerId p) = Some (mkCell (Some (Blob (encoded record))) s)) ∧
           ∀ k, k ≠ PK_PeerId p → Table.table_get (registry d') k = Table.table_get (registry d) k
       | Err _ => registry_cache d' = registry_cache d ∧ same_contents (registry d) (registry d')
       | Panic => False
       end.
Proof using Hkind BoundedLaws0 Ps_b.
  intros Hok Hcod Hacc. unfold upsert. rewrite has_admin. case_bool_decide as Hrole; cbn [negb]; [|done].
  case_bool_decide as Hcur; [done|]. destruct (mint wall d) as [d1 rm] eqn:Em.
  destruct rm as [s|e|]; [|by rewrite (mint_stays _ _ _ _ Em ltac:(done))|].
  2: { pose proof (mint_spec wall d) as Hms. destruct (rs_clock _ Hok) as (k & Hk & _). rewrite Hk in Hms.
       by destruct Hms as [Hms|(? & _ & _ & Hms)]; rewrite Hms in Em. }
  destruct (minted_newer _ _ _ _ Em) as (Hnew & Hself & Hpeer).
  pose proof (mint_registry wall d) as Hm. rewrite Em in Hm. destruct Hm as (M1 & M2 & M3).
  assert (passed d1 s) as Hs1 by (apply Hself; destruct (rs_clock _ Hok) as (k & Hk & _); by exists k).
  rewrite codec_ok_encode by done. unfold insert_internal. cbn [device_event event_stamp]. rewrite Hpeer.
  unfold me. rewrite <- M2, has_admin.
  assert (role_of d1 (me d1) = Some Admin) as -> by (unfold role_of, get_device, me in *; by rewrite M1, M2).
  rewrite bool_decide_true by done. unfold insert_unchecked. rewrite M3.
  destruct (rs_table _ Hok) as [log Hlog].
  pose proof (row_insert (registry d) log (PK_PeerId p) (OpUpsert (Blob (encoded record))) _ s Hlog (rs_capacity _ Hok) eq_refl) as Hi.
  unfold device_event in *. specialize (λ H, Hi H (Hacc _ _ eq_refl)).
  destruct (Table.insert _ (registry d)) as [t ri]. destruct Hi as (Hlog' & Hcap & Hi).
  { destruct (Table.table_get (registry d) (PK_PeerId p)) as [r|] eqn:Er; cbn; [|by apply Hnew, Hok].
    by apply Hnew, (rs_stamps _ Hok _ _ Er). }
  destruct ri as [[|ch]|e|]; [done| | |done].
  - destruct Hi as (Hev & Hrow & Hother). set (d2 := receipt_listener wall' ch (set_registry t d1)).
    destruct (receipt_listener_registry wall' ch (set_registry t d1)) as [R1 R2]. fold d2 in R1, R2.
    destruct (listener_keeps wall' ch (set_registry t d1)) as [R3 _]. fold d2 in R3.
    destruct (registry_listener_upsert p (encoded record) s d2 ch record Hev (codec_ok_decode _ Hcod)) as [[G1 G2] G3].
    destruct (registry_listener_keeps ch d2) as (K1 & K2 & K3).
    assert (registered p record d (registry_listener ch d2)) as Hreg.
    { split; [done|]. intros q Hq. rewrite G2 by done. unfold get_device. rewrite R1. cbn. by rewrite M1. }
    assert (role_synced (registry_listener ch d2)) as Hsync.
    { apply G3. pose proof (ro_role _ (rs_registry _ Hok)) as Hr. unfold role_synced, get_device in *. rewrite R1, R2. cbn. by rewrite M1, M2. }
    assert (∀ u, passed d1 u → passed (registry_listener ch d2) u) as Hp.
    { intros u Hu. assert (passed d2 u) as Hu2 by (by apply receipt_passed). unfold passed, clock_of. rewrite K2. exact Hu2. }
    change (registry (set_registry t d1)) with t in R3.
    rewrite <- R3, <- K1 in Hlog', Hcap, Hrow, Hother.
    split; [|split; [done|split; [done|split; [done|split; [by exists d1, s|done]]]]].
    eapply (roster_written d _ p record s); try done; [|by intros u Hu; apply Hp, Hnew|by apply Hp].
    rewrite K3. unfold me. by rewrite R2.
  - cbn. split; [|done]. eapply (roster_moved d); try done. intros u Hu. exact (proj2 (Hnew u Hu)).
Qed.
End Registry.
