(* ===== verification/StateCatalog.v ===== *)
(** * The catalog of states: [zendb-workspace/src/states/mod.rs],
    [states/runtime.rs], [consts.rs]

    Declared states are the rows of a state, the catalog, that maps names to
    configurations; open ones are in a map of handles.  What a catalog needs
    of a physical state is the class [StateFiles], which [State] (the dispatch
    over the engines) implements below.  A handle lives in the map: [holders]
    counts its clones outside, and the catalog's handle, shared with the field
    of [States], is the slot [TheCatalog].  The map's iteration order, which
    Rust leaves open, is the order of the names. *)
From Stdlib Require Import Ascii String.
From stdpp Require Import base numbers option list.
From S2P Require Import Prelude Order BTreeMap Stamp Value Backend Serdes Mmap KeyDir KeyDirStore.
From S2P Require Import BPlusPages BPlus Table State Devices.
Import Devices(lift_io, Error(..)).

(** ** [consts.rs] *)
Definition STATE_CATALOG_NAME : rstring := rstr "_catalog".
Definition PEERS_STATE_NAME : rstring := rstr "_peers".
Definition TABLE_CATALOG_NAME : rstring := rstr "_catalog".
Definition DEVICES_TABLE_NAME : rstring := rstr "_devices".
Arguments STATE_CATALOG_NAME : simpl never.
Arguments PEERS_STATE_NAME : simpl never.
Arguments TABLE_CATALOG_NAME : simpl never.
Arguments DEVICES_TABLE_NAME : simpl never.
Definition is_system_state (name : rstring) : bool :=
  bool_decide (name = STATE_CATALOG_NAME) || bool_decide (name = PEERS_STATE_NAME).
Definition is_system_table (name : rstring) : bool :=
  bool_decide (name = TABLE_CATALOG_NAME) || bool_decide (name = DEVICES_TABLE_NAME).
(** The [Default] trait of a configuration. *)
Class HasDefault (A : Type) := default_of : A.
Definition SYSTEM_STATE_CONFIG {Cb Ck Cs : Type} `{HasDefault Ck} : StateConfig Cb Ck Cs :=
  ConfigUnordered default_of.
#[export] Instance StateConfig_eq_dec {Cb Ck Cs : Type} `{EqDecision Cb, EqDecision Ck, EqDecision Cs} :
  EqDecision (StateConfig Cb Ck Cs).
Proof. solve_decision. Defined.

(** ** The file system, as far as the catalogs use it *)
(** [ErrorKind::NotFound], [NotADirectory], [IsADirectory]. *)
Definition NotFound : io_error := Io 2.
Definition NotADirectory : io_error := Io 20.
Definition IsADirectory : io_error := Io 21.
Inductive Node (File : Type) := RegularFile (f : File) | Directory.
Arguments RegularFile {_} _. Arguments Directory {_}.
(** [std::fs::remove_dir_all]. *)
Definition remove_dir_all {File} (n : option (Node File)) : option (Node File) * io unit :=
  match n with
  | None => (None, Err NotFound)
  | Some (RegularFile f) => (n, Err NotADirectory)
  | Some Directory => (None, Ok tt)
  end.

Lemma remove_dir_all_file {File} (n : option (Node File)) : n ≠ Some Directory →
  ∃ e, remove_dir_all n = (n, Err e).
Proof. destruct n as [[]|]; [by eexists|done|by eexists]. Qed.

(** A state of some key and value types ([Ty]) at a path: what [create] leaves
    there when it fails, what a handle leaves ([None]: it has no file). *)
Class StateFiles (Ty Cfg File Handle : Type) := {
  handle_ty : Handle → Ty;
  leaves : Handle → option File;
  create_state : Ty → Cfg → option (Node File) → option (Node File) * io Handle;
  open_state : Ty → Cfg → option (Node File) → io Handle;
  flush_state : Handle → Handle * io unit;
  sync_state : Handle → Handle * io unit;
}.
Class StateFilesLaws (Ty Cfg File Handle : Type) `{StateFiles Ty Cfg File Handle} := {
  create_state_node ty c n : n ≠ Some Directory → (create_state ty c n).1 ≠ Some Directory;
  create_state_ty ty c n h : (create_state ty c n).2 = Ok h → handle_ty h = ty;
  open_state_ty ty c n h : open_state ty c n = Ok h → handle_ty h = ty;
  flush_state_ty h : handle_ty (flush_state h).1 = handle_ty h;
  sync_state_ty h : handle_ty (sync_state h).1 = handle_ty h;
}.
Section PathOf.
Context `{StateFiles Ty Cfg File Handle}.
(** What a path holds once a handle has been opened on it. *)
Definition on_path (n : option (Node File)) (h : Handle) : option (Node File) :=
  match leaves h with Some f => Some (RegularFile f) | None => n end.
End PathOf.
(** ** [State] implements the interface *)
(** An engine's file: its [create] and [open] at a path, and its bytes. *)
Class EngineFile (C B : Type) := {
  engine_create : C → option (Node (list Z)) → option (Node (list Z)) * io B;
  engine_open : C → option (Node (list Z)) → io B;
  engine_bytes : B → list Z;
}.
Class EngineFileLaws (C B : Type) `{EngineFile C B} :=
  engine_create_node c n : n ≠ Some Directory → (engine_create c n).1 ≠ Some Directory.
(** [File::open] of a path, then [f]; [OpenOptions::create().truncate(true)],
    then [f], the file being left empty when it fails. *)
Definition with_file {B} (n : option (Node (list Z))) (f : list Z → io B) : io B :=
  match n with
  | None => Err NotFound
  | Some Directory => Err IsADirectory
  | Some (RegularFile bs) => f bs
  end.
Definition with_new_file {B} (bytes : B → list Z) (n : option (Node (list Z))) (r : io B) :
    option (Node (list Z)) * io B :=
  match n with
  | Some Directory => (n, Err IsADirectory)
  | _ => (Some (RegularFile (match r with Ok b => bytes b | _ => [] end)), r)
  end.
Section Engines.
Context {K : Type} `{TotalCmp K} `{CK : Codec K}.
#[export] Instance keydir_file : EngineFile KeyDir.KeyDirConfig (KeyDir.KeyDir K) := {|
  engine_create c n := with_new_file KeyDir.kd_file n (KeyDir.kd_create c []);
  engine_open c n := with_file n (λ bs, KeyDir.kd_open bs c []);
  engine_bytes := KeyDir.kd_file |}.
End Engines.
#[export] Instance btree_file : EngineFile Pages.BPlusTreeConfig Pages.BPlusTree := {|
  engine_create c n := with_new_file Pages.bp_file n (BPlus.bp_create c []);
  engine_open c n := with_file n (λ bs, BPlus.bp_open bs c []);
  engine_bytes := Pages.bp_file |}.
Lemma new_file_node {B} (bytes : B → list Z) n r : n ≠ Some Directory → (with_new_file bytes n r).1 ≠ Some Directory.
Proof. by destruct n as [[]|]. Qed.
#[export] Instance keydir_file_laws {K} `{TotalCmp K} `{CK : Codec K} : EngineFileLaws KeyDir.KeyDirConfig (KeyDir.KeyDir K).
Proof. intros c n. apply new_file_node. Qed.
#[export] Instance btree_file_laws : EngineFileLaws Pages.BPlusTreeConfig Pages.BPlusTree.
Proof. intros c n. apply new_file_node. Qed.

Section Dispatch.
Context {Ty Cb Ck Cs : Type} {Bp Kd Sk : Ty → Type}.
Context `{EB : ∀ ty, EngineFile Cb (Bp ty)} `{EK : ∀ ty, EngineFile Ck (Kd ty)} (new_sk : ∀ ty, Cs → Sk ty).
Context `{DB : ∀ ty, Durable (Bp ty)} `{DK : ∀ ty, Durable (Kd ty)}.
Abbreviation Cfg := (StateConfig Cb Ck Cs).
Definition TypedState (ty : Ty) : Type := State (Bp ty) (Kd ty) (Sk ty) Cfg.
(** A [State<K, V>] whose types the catalog has forgotten. *)
Definition ErasedState : Type := {ty : Ty & TypedState ty}.
Definition erased {ty} (r : io (TypedState ty)) : io ErasedState := rmap (existT ty) r.
(** [DurableStorage::create] and [open] of [State]; an in-memory state has no
    file and does not look at the path. *)
Definition create_at (ty : Ty) (c : Cfg) (n : option (Node (list Z))) : option (Node (list Z)) * io ErasedState :=
  match c with
  | ConfigOrdered b => let '(n, r) := engine_create b n in (n, erased (rmap (λ x, SOrdered x c : TypedState ty) r))
  | ConfigUnordered k => let '(n, r) := engine_create k n in (n, erased (rmap (λ x, SUnordered x c : TypedState ty) r))
  | ConfigInMemory s => (n, Ok (existT ty (SInMemory (new_sk ty s) c)))
  end.
Definition open_at (ty : Ty) (c : Cfg) (n : option (Node (list Z))) : io ErasedState :=
  erased (state_open (λ b, engine_open (B:=Bp ty) b n) (λ k, engine_open (B:=Kd ty) k n) (new_sk ty) c).
Definition on_erased (f : ∀ ty, TypedState ty → TypedState ty * io unit) (h : ErasedState) : ErasedState * io unit :=
  let '(s, r) := f (projT1 h) (projT2 h) in (existT (projT1 h) s, r).
Lemma on_erased_ty f (h : ErasedState) : projT1 (on_erased f h).1 = projT1 h.
Proof. unfold on_erased. by destruct (f (projT1 h) (projT2 h)). Qed.
#[export] Instance state_files : StateFiles Ty Cfg (list Z) ErasedState := {|
  handle_ty := @projT1 _ _;
  leaves h := match projT2 h with
              | SOrdered b _ => Some (engine_bytes b)
              | SUnordered b _ => Some (engine_bytes b)
              | SInMemory _ _ => None end;
  create_state := create_at;
  open_state := open_at;
  flush_state := on_erased (λ ty, flush);
  sync_state := on_erased (λ ty, sync) |}.
#[export] Instance state_files_laws :
  (∀ ty, EngineFileLaws Cb (Bp ty)) → (∀ ty, EngineFileLaws Ck (Kd ty)) → StateFilesLaws Ty Cfg (list Z) ErasedState.
Proof.
  intros LB LK. constructor.
  - intros ty [c|c|c] n Hn; cbn.
    + pose proof (LB ty c n Hn). by destruct (engine_create (B:=Bp ty) c n).
    + pose proof (LK ty c n Hn). by destruct (engine_create (B:=Kd ty) c n).
    + done.
  - intros ty [c|c|c] n h; cbn.
    + destruct (engine_create (B:=Bp ty) c n) as [? [?|?|]]; cbn; intros Hh; try done; by injection Hh as <-.
    + destruct (engine_create (B:=Kd ty) c n) as [? [?|?|]]; cbn; intros Hh; try done; by injection Hh as <-.
    + by intros [= <-].
  - intros ty [c|c|c] n h; cbn; unfold open_at; cbn.
    + destruct (engine_open (B:=Bp ty) c n); cbn; intros Hh; try done; by injection Hh as <-.
    + destruct (engine_open (B:=Kd ty) c n); cbn; intros Hh; try done; by injection Hh as <-.
    + by intros [= <-].
  - intros h. apply on_erased_ty.
  - intros h. apply on_erased_ty.
Qed.
End Dispatch.

(** The catalog itself, a state of names to configurations. *)
Class CatalogFile (Cat File : Type) := {
  create_catalog : io Cat;
  open_catalog : option File → io Cat;
  catalog_bytes : Cat → File;
}.
Class CatalogFileLaws (Cat Cfg File : Type) `{BackendLaws Cat rstring Cfg} `{CatalogFile Cat File} := {
  create_catalog_law c : create_catalog = Ok c → backend_wf c ∧ ∀ n, get c n = None;
  open_catalog_law c : backend_wf c → ∃ c', open_catalog (Some (catalog_bytes c)) = Ok c' ∧
    backend_wf c' ∧ ∀ n, get c' n = get c n;
}.

Module States.
Section States.
Context `{L : Libp2p} {Ty Cb Ck Cs File Handle Cat : Type} `{EqDecision Ty}.
Context `{EqDecision Cb, EqDecision Ck, EqDecision Cs, HasDefault Ck}.
Abbreviation Cfg := (StateConfig Cb Ck Cs).
Context `{SF : StateFiles Ty Cfg File Handle}.
Context `{Cat_b : Backend Cat rstring Cfg} `{Cat_d : Durable Cat} `{Cat_f : CatalogFile Cat File}.
(** The types of the catalog, and [()] and [()]. *)
Context (catalog_ty unit_ty : Ty).
Abbreviation res A := (result Error A).

Record StateHandle := mkStateHandle {
  sh_name : rstring; sh_state : Handle; sh_is_system : bool; holders : nat }.
Inductive Slot := TheCatalog | Opened (h : StateHandle).
Definition strong_count (slot : Slot) : nat :=
  match slot with TheCatalog => 2 | Opened h => 1 + holders h end.
(** [st_files] is the directory without the catalog's file; the file of an
    open state is what its handle leaves. *)
Record States := mkStates {
  st_catalog : Cat; st_open : btree rstring Slot; st_files : btree rstring (Node File) }.
Implicit Types (s : States) (name : rstring).

Definition set_catalog c s := mkStates c (st_open s) (st_files s).
Definition set_open o s := mkStates (st_catalog s) o (st_files s).
Definition set_node name (n : option (Node File)) (files : btree rstring (Node File)) :=
  match n with Some n => bt_insert name n files | None => bt_remove name files end.
Definition set_file name n s := mkStates (st_catalog s) (st_open s) (set_node name n (st_files s)).
Definition file_at s name : option (Node File) :=
  match bt_get name (st_open s) with
  | Some (Opened h) => on_path (bt_get name (st_files s)) (sh_state h)
  | _ => bt_get name (st_files s)
  end.
(** Dropping a handle that the map alone holds. *)
Definition drop_slot name s : States := set_open (bt_remove name (st_open s)) (set_file name (file_at s name) s).
(** The catalog's errors, through [?]. *)
Definition on_catalog {A} (r : Cat * io A) s : States * res A := (set_catalog r.1 s, lift_io r.2).

(** ** [StateHandle] *)
Definition is_system (slot : Slot) : bool := match slot with TheCatalog => true | Opened h => sh_is_system h end.
Definition slot_ty (slot : Slot) : Ty := match slot with TheCatalog => catalog_ty | Opened h => handle_ty (sh_state h) end.
(** [StateHandle::write] and what its caller does with the guard. *)
Definition write {A} (name : rstring) (f : Handle → Handle * io A) s : States * res A :=
  match bt_get name (st_open s) with
  | None => (s, Err (ENotFound name))
  | Some TheCatalog => (s, Err (SystemStateReadOnly name))
  | Some (Opened h) =>
      if sh_is_system h then (s, Err (SystemStateReadOnly (sh_name h))) else
      let '(st, r) := f (sh_state h) in
      (set_open (bt_insert name (Opened (mkStateHandle (sh_name h) st (sh_is_system h) (holders h)))
         (st_open s)) s, lift_io r)
  end.
(** A clone of a handle that goes out of scope. *)
Definition release name s : States :=
  match bt_get name (st_open s) with
  | Some (Opened h) =>
      set_open (bt_insert name (Opened (mkStateHandle (sh_name h) (sh_state h) (sh_is_system h)
        (holders h - 1))) (st_open s)) s
  | _ => s
  end.

(** ** [create] and [open] *)
(** What a process that ends leaves in the directory. *)
Record StateDir := mkStateDir { sd_catalog : option File; sd_files : btree rstring (Node File) }.
Definition dir_of s : StateDir :=
  mkStateDir (Some (catalog_bytes (st_catalog s)))
    (foldr (λ p files, set_node p.1 (file_at s p.1) files) (st_files s)
      (filter (λ p, is_some (match p.2 with Opened h => leaves (sh_state h) | _ => None end)) (st_open s))).
Definition first_slots : btree rstring Slot := [(STATE_CATALOG_NAME, TheCatalog)].
Definition create (dir : StateDir) : StateDir * res States :=
  match create_catalog with
  | Ok cat =>
      let '(n, r) := create_state unit_ty SYSTEM_STATE_CONFIG (bt_get PEERS_STATE_NAME (sd_files dir)) in
      match r with
      | Ok h =>
          let files := set_node PEERS_STATE_NAME (on_path n h) (sd_files dir) in
          let '(cat, r) := and_then (put STATE_CATALOG_NAME SYSTEM_STATE_CONFIG cat) (λ cat _,
                           put PEERS_STATE_NAME SYSTEM_STATE_CONFIG cat) in
          (mkStateDir (Some (catalog_bytes cat)) files,
           rmap (λ _, mkStates cat first_slots files) (lift_io r))
      | Err e => (mkStateDir (Some (catalog_bytes cat)) (set_node PEERS_STATE_NAME n (sd_files dir)), Err (EIo e))
      | Panic => (mkStateDir (Some (catalog_bytes cat)) (set_node PEERS_STATE_NAME n (sd_files dir)), Panic)
      end
  | Err e => (dir, Err (EIo e))
  | Panic => (dir, Panic)
  end.
Definition open (dir : StateDir) : res States :=
  cat <-? lift_io (open_catalog (sd_catalog dir)) ;;
  Ok (mkStates cat first_slots (sd_files dir)).

(** ** Operations *)
Definition contains_state s name : bool := contains (st_catalog s) name.
Definition list_states s : list rstring := keys (st_catalog s).
Definition list_open s : list rstring := bt_keys (st_open s).

Definition upsert_internal name (config : Cfg) s : States * res bool :=
  match get (st_catalog s) name with
  | Some existing =>
      if bool_decide (existing = config) then (s, Ok false) else
      let '(s, r) := on_catalog (put name config (st_catalog s)) s in
      (s, rmap (λ _, true) r)
  | None =>
      let '(s, r) := on_catalog (put name config (st_catalog s)) s in
      match r with
      | Ok _ =>
          let '(n, r) := create_state unit_ty config (bt_get name (st_files s)) in
          match r with
          | Ok h => (set_file name (on_path n h) s, Ok true)
          | Err e => (set_file name n s, Err (EIo e))
          | Panic => (set_file name n s, Panic)
          end
      | Err e => (s, Err e) | Panic => (s, Panic)
      end
  end.
Definition upsert name (config : Cfg) s : States * res bool :=
  if is_system_state name then (s, Err (SystemStateReadOnly name)) else upsert_internal name config s.

Definition get_state (ty : Ty) name s : States * res Slot :=
  match bt_get name (st_open s) with
  | Some slot =>
      if bool_decide (slot_ty slot = ty) then
        let slot := match slot with
                    | TheCatalog => TheCatalog
                    | Opened h => Opened (mkStateHandle (sh_name h) (sh_state h) (sh_is_system h) (S (holders h)))
                    end in
        (set_open (bt_insert name slot (st_open s)) s, Ok slot)
      else (s, Err (ETypeMismatch name))
  | None =>
      match get (st_catalog s) name with
      | None => (s, Err (ENotFound name))
      | Some saved =>
          match open_state ty saved (bt_get name (st_files s)) with
          | Ok st =>
              let slot := Opened (mkStateHandle name st (is_system_state name) 1) in
              (set_open (bt_insert name slot (st_open s)) s, Ok slot)
          | Err e => (s, Err (EIo e))
          | Panic => (s, Panic)
          end
      end
  end.

Definition close name s : States * bool :=
  match bt_get name (st_open s) with
  | Some slot => if strong_count slot =? 1 then (drop_slot name s, true) else (s, false)
  | None => (s, false)
  end.

Definition delete_state name s : States * res bool :=
  if is_system_state name then (s, Err (SystemStateReadOnly name)) else
  if is_some_and (λ slot, 1 <? strong_count slot)%nat (bt_get name (st_open s))
  then (s, Err (ResourceBusy name)) else
  let s := drop_slot name s in
  let '(s, r) := on_catalog (delete name (st_catalog s)) s in
  match r with
  | Ok false => (s, Ok false)
  | Ok true =>
      let '(n, r) := remove_dir_all (bt_get name (st_files s)) in
      (set_file name n s, rmap (λ _, true) (lift_io r))
  | Err e => (s, Err e) | Panic => (s, Panic)
  end.

(** [flush] and [sync]: the handles of a snapshot of the map, in turn. *)
Fixpoint visit (on_cat : Cat → Cat * io unit) (on_handle : Handle → Handle * io unit)
    (slots : list (rstring * Slot)) s : States * res unit :=
  match slots with
  | [] => (s, Ok tt)
  | (name, slot) :: slots =>
      let '(s, r) :=
        match slot with
        | TheCatalog => on_catalog (on_cat (st_catalog s)) s
        | Opened h =>
            let '(st, r) := on_handle (sh_state h) in
            (set_open (bt_insert name (Opened (mkStateHandle (sh_name h) st (sh_is_system h) (holders h)))
               (st_open s)) s, lift_io r)
        end in
      match r with
      | Ok _ => visit on_cat on_handle slots s
      | r => (s, r)
      end
  end.
Definition states_flush s : States * res unit := visit flush flush_state (st_open s) s.
Definition states_sync s : States * res unit := visit sync sync_state (st_open s) s.
End States.
End States.

(** ** The life of the declarations *)
Section Lifecycle.
Context `{L : Libp2p} {Ty Cb Ck Cs File Handle Cat : Type} `{EqDecision Ty}.
Context `{EqDecision Cb, EqDecision Ck, EqDecision Cs, HasDefault Ck}.
Abbreviation Cfg := (StateConfig Cb Ck Cs).
Context `{SF : StateFiles Ty Cfg File Handle, !StateFilesLaws Ty Cfg File Handle}.
Context `{Cat_b : Backend Cat rstring Cfg, !BackendLaws Cat rstring Cfg}.
Context `{Cat_d : Durable Cat, !DurableLaws Cat rstring Cfg} `{Cat_f : CatalogFile Cat File}.
Context (catalog_ty unit_ty : Ty).
Abbreviation Sts := (States.States (File:=File) (Handle:=Handle) (Cat:=Cat)).
Abbreviation Slot := (States.Slot (Handle:=Handle)).
Abbreviation res A := (result Error A).
Implicit Types (s : Sts) (n m : rstring) (c : Cfg) (ty : Ty).

Inductive sop :=
  | SUpsert n c | SGet ty n | SClose n | SDelete n | SRelease n
  | SWrite n (f : Handle → Handle * io unit) | SFlush | SSync.
Inductive answer := Changed (r : res bool) | Got (r : res Ty) | Closed (b : bool) | Done (r : res unit).
(** A client's write through a handle keeps the handle's types. *)
Definition sop_ok (o : sop) : Prop :=
  match o with SWrite _ f => ∀ h, handle_ty (f h).1 = handle_ty h | _ => True end.
Definition sop_step (o : sop) s : Sts * answer :=
  match o with
  | SUpsert n c => let '(s, r) := States.upsert unit_ty n c s in (s, Changed r)
  | SGet ty n => let '(s, r) := States.get_state catalog_ty ty n s in (s, Got (rmap (States.slot_ty catalog_ty) r))
  | SClose n => let '(s, b) := States.close n s in (s, Closed b)
  | SDelete n => let '(s, r) := States.delete_state n s in (s, Changed r)
  | SRelease n => (States.release n s, Done (Ok tt))
  | SWrite n f => let '(s, r) := States.write n f s in (s, Done r)
  | SFlush => let '(s, r) := States.states_flush s in (s, Done r)
  | SSync => let '(s, r) := States.states_sync s in (s, Done r)
  end.
Fixpoint sop_run (os : list sop) s : Sts * list answer :=
  match os with
  | [] => (s, [])
  | o :: os => let '(s, a) := sop_step o s in let '(s, l) := sop_run os s in (s, a :: l)
  end.

(** The contract: which names are declared, with which configuration, and
    which are open, with their types and the clones of their handles. *)
Record Life := mkLife { declared : rstring → option Cfg; live : rstring → option (Ty * nat) }.
Implicit Types (σ : Life).
Definition alters {A} n (v : option A) (f g : rstring → option A) : Prop :=
  g n = v ∧ ∀ m, m ≠ n → g m = f m.
Definition same {A} (f g : rstring → option A) : Prop := ∀ n, g n = f n.
Definition failed {A} (r : res A) : Prop := r = Panic ∨ ∃ e, r = Err (EIo e).
Definition idle σ n : Prop := ∀ ty k, live σ n = Some (ty, k) → k = 0.
Inductive life : Life → sop → answer → Life → Prop :=
  | upsert_system σ n c : is_system_state n = true →
      life σ (SUpsert n c) (Changed (Err (SystemStateReadOnly n))) σ
  | upsert_same σ n c : is_system_state n = false → declared σ n = Some c →
      life σ (SUpsert n c) (Changed (Ok false)) σ
  | upsert_done σ σ' n c : is_system_state n = false → declared σ n ≠ Some c →
      alters n (Some c) (declared σ) (declared σ') → same (live σ) (live σ') →
      life σ (SUpsert n c) (Changed (Ok true)) σ'
  | upsert_fails σ σ' n c r : is_system_state n = false → declared σ n ≠ Some c → failed r →
      same (declared σ) (declared σ') ∨ alters n (Some c) (declared σ) (declared σ') →
      same (live σ) (live σ') → life σ (SUpsert n c) (Changed r) σ'
  | get_shared σ σ' n ty k : n ≠ STATE_CATALOG_NAME → live σ n = Some (ty, k) →
      alters n (Some (ty, S k)) (live σ) (live σ') → same (declared σ) (declared σ') →
      life σ (SGet ty n) (Got (Ok ty)) σ'
  | get_catalog σ : life σ (SGet catalog_ty STATE_CATALOG_NAME) (Got (Ok catalog_ty)) σ
  | get_mismatch σ n ty ty' k : live σ n = Some (ty', k) → ty' ≠ ty →
      life σ (SGet ty n) (Got (Err (ETypeMismatch n))) σ
  | get_missing σ n ty : live σ n = None → declared σ n = None →
      life σ (SGet ty n) (Got (Err (ENotFound n))) σ
  | get_opens σ σ' n ty : live σ n = None → is_Some (declared σ n) →
      alters n (Some (ty, 1)) (live σ) (live σ') → same (declared σ) (declared σ') →
      life σ (SGet ty n) (Got (Ok ty)) σ'
  | get_fails σ n ty r : live σ n = None → is_Some (declared σ n) → failed r →
      life σ (SGet ty n) (Got r) σ
  | close_done σ σ' n ty : live σ n = Some (ty, 0) →
      alters n None (live σ) (live σ') → same (declared σ) (declared σ') →
      life σ (SClose n) (Closed true) σ'
  | close_refused σ n : (∀ ty, live σ n ≠ Some (ty, 0)) → life σ (SClose n) (Closed false) σ
  | delete_system σ n : is_system_state n = true →
      life σ (SDelete n) (Changed (Err (SystemStateReadOnly n))) σ
  | delete_busy σ n ty k : is_system_state n = false → live σ n = Some (ty, S k) →
      life σ (SDelete n) (Changed (Err (ResourceBusy n))) σ
  | delete_missing σ σ' n : is_system_state n = false → live σ n = None → declared σ n = None →
      same (live σ) (live σ') → same (declared σ) (declared σ') →
      life σ (SDelete n) (Changed (Ok false)) σ'
  | delete_fails σ σ' n r o : is_system_state n = false → idle σ n → failed r →
      alters n None (live σ) (live σ') → alters n o (declared σ) (declared σ') →
      life σ (SDelete n) (Changed r) σ'
  | release_done σ σ' n ty k : n ≠ STATE_CATALOG_NAME → live σ n = Some (ty, k) →
      alters n (Some (ty, k - 1)) (live σ) (live σ') → same (declared σ) (declared σ') →
      life σ (SRelease n) (Done (Ok tt)) σ'
  | release_none σ n : live σ n = None ∨ n = STATE_CATALOG_NAME → life σ (SRelease n) (Done (Ok tt)) σ
  | write_missing σ n f : live σ n = None → life σ (SWrite n f) (Done (Err (ENotFound n))) σ
  | write_system σ n f : is_system_state n = true → is_Some (live σ n) →
      life σ (SWrite n f) (Done (Err (SystemStateReadOnly n))) σ
  | write_done σ σ' n f r : is_system_state n = false → is_Some (live σ n) →
      same (live σ) (live σ') → same (declared σ) (declared σ') → life σ (SWrite n f) (Done r) σ'
  | barrier σ σ' o r : o = SFlush ∨ o = SSync →
      same (live σ) (live σ') → same (declared σ) (declared σ') → life σ o (Done r) σ'.
Inductive lives : Life → list sop → list answer → Life → Prop :=
  | lives_nil σ : lives σ [] [] σ
  | lives_cons σ o a σ1 os l σ2 : life σ o a σ1 → lives σ1 os l σ2 → lives σ (o :: os) (a :: l) σ2.

(** What the catalog promises of a [States]. *)
Definition slot_life (slot : Slot) : Ty * nat :=
  (States.slot_ty catalog_ty slot, States.strong_count slot - 1).
Definition abs s : Life :=
  mkLife (get (States.st_catalog s)) (λ n, slot_life <$> bt_get n (States.st_open s)).
Definition slot_ok s n (slot : Slot) : Prop :=
  match slot with
  | States.TheCatalog => n = STATE_CATALOG_NAME
  | States.Opened h => n ≠ STATE_CATALOG_NAME ∧ States.sh_name h = n ∧
      States.sh_is_system h = is_system_state n ∧ is_Some (get (States.st_catalog s) n)
  end.
Record states_ok s : Prop := {
  so_catalog : backend_wf (States.st_catalog s);
  so_open : bt_wf (States.st_open s);
  so_slot : bt_get STATE_CATALOG_NAME (States.st_open s) = Some States.TheCatalog;
  so_slots n slot : bt_get n (States.st_open s) = Some slot → slot_ok s n slot;
  so_system n : is_system_state n = true → get (States.st_catalog s) n = Some SYSTEM_STATE_CONFIG;
  so_files n : bt_get n (States.st_files s) ≠ Some Directory;
}.

(** Shared steps: rewriting one slot, one file, one row. *)
Lemma states_ok_slot s n slot : states_ok s → slot_ok s n slot →
  (n = STATE_CATALOG_NAME → slot = States.TheCatalog) →
  states_ok (States.set_open (bt_insert n slot (States.st_open s)) s).
Proof using Type.
  intros [Hc Ho Hs Hsl Hsy Hf] Hn Hcat. constructor; cbn; try done.
  - by apply bt_wf_insert.
  - destruct (decide (n = STATE_CATALOG_NAME)) as [->|Hne]; [by rewrite bt_get_insert, Hcat|].
    by rewrite bt_get_insert_ne by congruence.
  - intros m slot'. bt_key m n; [by intros [= <-]|by apply Hsl].
Qed.
Lemma states_ok_file s n nd : states_ok s → nd ≠ Some Directory → states_ok (States.set_file n nd s).
Proof using Type.
  intros [Hc Ho Hs Hsl Hsy Hf] Hn. constructor; cbn; try done.
  intros m. destruct nd as [nd|]; cbn; bt_key m n; done.
Qed.
Lemma states_ok_catalog s cat : states_ok s → backend_wf cat →
  (∀ m slot, bt_get m (States.st_open s) = Some slot → slot = States.TheCatalog ∨ is_Some (get cat m)) →
  (∀ m, is_system_state m = true → get cat m = get (States.st_catalog s) m) →
  states_ok (States.set_catalog cat s).
Proof using Type.
  intros [Hc Ho Hs Hsl Hsy Hf] Hw Hopen Hsys. constructor; cbn; try done.
  - intros m slot Hm. pose proof (Hsl m slot Hm) as Hok. destruct slot as [|h]; [done|].
    destruct (Hopen _ _ Hm) as [?|Hd]; [done|]. cbn in *. tauto.
  - intros m Hm. rewrite Hsys by done. by apply Hsy.
Qed.
Lemma file_at_node s n : states_ok s → States.file_at s n ≠ Some Directory.
Proof using Type.
  intros Hok. unfold States.file_at. pose proof (so_files s Hok n).
  destruct (bt_get n (States.st_open s)) as [[|h]|]; [done| |done]. unfold on_path. by destruct (leaves _).
Qed.
Lemma drop_slot_ok s n : states_ok s → n ≠ STATE_CATALOG_NAME → states_ok (States.drop_slot n s).
Proof using Type.
  intros Hok Hn. apply (states_ok_file s n (States.file_at s n)) in Hok; [|by apply file_at_node].
  destruct Hok as [Hc Ho Hs Hsl Hsy Hf]. constructor; cbn in *; try done.
  - by apply bt_wf_remove.
  - by rewrite bt_get_remove_ne by congruence.
  - intros m slot. bt_key m n; [done|]. apply Hsl.
Qed.
Lemma alters_insert n slot s :
  alters n (Some (slot_life slot)) (live (abs s)) (live (abs (States.set_open (bt_insert n slot (States.st_open s)) s))).
Proof using Type. split; cbn; [by rewrite bt_get_insert|]. intros m Hm. by rewrite bt_get_insert_ne. Qed.
Lemma alters_drop n s : alters n None (live (abs s)) (live (abs (States.drop_slot n s))).
Proof using Type. split; cbn; [by rewrite bt_get_remove|]. intros m Hm. by rewrite bt_get_remove_ne. Qed.
Lemma same_insert n slot slot' s : bt_get n (States.st_open s) = Some slot → slot_life slot' = slot_life slot →
  same (live (abs s)) (live (abs (States.set_open (bt_insert n slot' (States.st_open s)) s))).
Proof using Type. intros Hn He m. cbn. bt_key m n; [by rewrite Hn; cbn; rewrite He|done]. Qed.
(** A row that a put leaves. *)
Lemma put_alters n c s : states_ok s →
  let (cat, r) := put n c (States.st_catalog s) in
  backend_wf cat ∧ r ≠ Panic ∧
  match r with
  | Ok _ => alters n (Some c) (get (States.st_catalog s)) (get cat)
  | _ => same (get (States.st_catalog s)) (get cat)
  end.
Proof using Type.
  intros Hok. pose proof (put_law n c _ (so_catalog _ Hok)) as Hp. destruct (put n c _) as [cat r].
  destruct Hp as (Hw & Hnp & Hother & Hn). split; [done|]. split; [done|].
  destruct r; [by split|..]; intros m; (destruct (decide (m = n)) as [->|?]; [done|by apply Hother]).
Qed.
Lemma put_ok_states n c s cat r : states_ok s → is_system_state n = false →
  put n c (States.st_catalog s) = (cat, r) → states_ok (States.set_catalog cat s).
Proof using Type.
  intros Hok Hsys Hp. pose proof (put_alters n c s Hok) as Ha. rewrite Hp in Ha.
  destruct Ha as (Hw & Hnp & Hr). apply states_ok_catalog; [done|done|..].
  - intros m slot Hm. pose proof (so_slots s Hok m slot Hm) as Hs. destruct slot as [|h]; [by left|].
    right. destruct Hs as (_ & _ & _ & Hd). destruct r; [|by rewrite Hr..].
    destruct Hr as [H1 H2]. destruct (decide (m = n)) as [->|?]; [by rewrite H1|by rewrite H2].
  - intros m Hm. destruct r; [|by rewrite Hr..]. destruct Hr as [_ H2]. apply H2. congruence.
Qed.

Definition simulates s (r : Sts * answer) (o : sop) : Prop := states_ok r.1 ∧ life (abs s) o r.2 (abs r.1).
Lemma same_map_refl {A} (f : rstring → option A) : same f f.
Proof using Type. done. Qed.
Hint Resolve same_map_refl : core.

Lemma upsert_simulates s n c : states_ok s → simulates s (sop_step (SUpsert n c) s) (SUpsert n c).
Proof using All.
  intros Hok. unfold simulates, sop_step, States.upsert. destruct (is_system_state n) eqn:Hsys.
  { split; [done|by apply upsert_system]. }
  unfold States.upsert_internal. pose proof (put_alters n c s Hok) as Ha.
  destruct (put n c (States.st_catalog s)) as [cat r] eqn:Ep.
  pose proof (put_ok_states n c s cat r Hok Hsys Ep) as Hok'. destruct Ha as (_ & Hnp & Ha).
  destruct (get (States.st_catalog s) n) as [ex|] eqn:Eg.
  - case_bool_decide as Hex; [subst; split; [done|by apply upsert_same]|].
    assert (declared (abs s) n ≠ Some c) as Hd by (cbn; congruence).
    destruct r as [[]|e|]; cbn in *; (split; [done|]); [by apply upsert_done| |done].
    apply upsert_fails; try done; [right; by eexists|by left].
  - assert (declared (abs s) n ≠ Some c) as Hd by (cbn; congruence).
    destruct r as [[]|e|]; cbn -[bool_decide] in *; [| |done].
    2: { split; [done|]. apply upsert_fails; try done; [right; by eexists|by left]. }
    pose proof (create_state_node unit_ty c (bt_get n (States.st_files s)) (so_files s Hok n)) as Hnode.
    destruct (create_state unit_ty c _) as [nd [h|e|]]; cbn in *; split.
    + apply states_ok_file; [done|]. unfold on_path. by destruct (leaves h).
    + by apply upsert_done.
    + by apply states_ok_file.
    + apply upsert_fails; try done; [right; by eexists|by right].
    + by apply states_ok_file.
    + apply upsert_fails; try done; [by left|by right].
Qed.
Lemma get_simulates s ty n : states_ok s → simulates s (sop_step (SGet ty n) s) (SGet ty n).
Proof using All.
  intros Hok. unfold simulates, sop_step, States.get_state.
  destruct (bt_get n (States.st_open s)) as [slot|] eqn:En.
  - pose proof (so_slots s Hok n slot En) as Hs. case_bool_decide as Hty.
    + destruct slot as [|h]; cbn [fst snd rmap].
      * cbn in Hs. subst n. cbn in Hty. subst ty. cbn. split; [by apply states_ok_slot|].
        assert (bt_insert STATE_CATALOG_NAME States.TheCatalog (States.st_open s) = States.st_open s) as ->
          by (apply bt_insert_id; [apply Hok|done]).
        destruct s. apply get_catalog.
      * split; [apply states_ok_slot; [done|done|by destruct Hs]|]. cbn in Hty. rewrite <- Hty.
        eapply (get_shared _ _ _ _ (States.holders h)); [by destruct Hs| |apply alters_insert|done].
        cbn. rewrite En. cbn. unfold slot_life. cbn. by rewrite Nat.sub_0_r.
    + split; [done|]. eapply get_mismatch; [cbn; by rewrite En|done].
  - destruct (get (States.st_catalog s) n) as [c|] eqn:Eg.
    2: { split; [done|]. by apply get_missing; cbn; [rewrite En|]. }
    assert (live (abs s) n = None) as Hl by (cbn; by rewrite En).
    assert (n ≠ STATE_CATALOG_NAME) as Hne by (intros ->; by rewrite (so_slot s Hok) in En).
    destruct (open_state ty c _) as [st|e|] eqn:Eo; cbn [fst snd rmap].
    + pose proof (open_state_ty _ _ _ _ Eo) as Hty. split.
      * apply states_ok_slot; [done| |done]. split; [done|]. split; [done|]. split; [done|by eexists].
      * cbn. rewrite Hty. apply get_opens; [done|by eexists| |done].
        pose proof (alters_insert n (States.Opened (States.mkStateHandle n st (is_system_state n) 1)) s) as Ha.
        unfold slot_life in Ha. cbn in Ha. by rewrite Hty in Ha.
    + split; [done|]. apply get_fails; [done|by eexists|]. right. by eexists.
    + split; [done|]. apply get_fails; [done|by eexists|]. by left.
Qed.
Lemma close_simulates s n : states_ok s → simulates s (sop_step (SClose n) s) (SClose n).
Proof using All.
  intros Hok. unfold simulates, sop_step, States.close.
  destruct (bt_get n (States.st_open s)) as [slot|] eqn:En.
  2: { split; [done|]. apply close_refused. intros ty. cbn. by rewrite En. }
  pose proof (so_slots s Hok n slot En) as Hs. destruct (Nat.eqb_spec (States.strong_count slot) 1) as [Hc|Hc].
  - destruct slot as [|h]; [done|]. cbn in Hc. split; [apply drop_slot_ok; [done|by destruct Hs]|].
    eapply (close_done _ _ _ (handle_ty (States.sh_state h))); [|apply alters_drop|done].
    cbn. rewrite En. cbn. unfold slot_life. cbn. do 2 f_equal. lia.
  - split; [done|]. apply close_refused. intros ty. cbn. rewrite En. cbn. intros [= _ Hz].
    destruct slot as [|h]; cbn in *; [done|lia].
Qed.
Lemma delete_simulates s n : states_ok s → simulates s (sop_step (SDelete n) s) (SDelete n).
Proof using All.
  intros Hok. unfold simulates, sop_step, States.delete_state. destruct (is_system_state n) eqn:Hsys.
  { split; [done|by apply delete_system]. }
  assert (n ≠ STATE_CATALOG_NAME) as Hne by (intros ->; done).
  destruct (is_some_and _ _) eqn:Hbusy.
  { split; [done|]. destruct (bt_get n (States.st_open s)) as [slot|] eqn:En; [|done].
    cbn [is_some_and] in Hbusy. apply Nat.ltb_lt in Hbusy.
    apply (delete_busy _ _ (States.slot_ty catalog_ty slot) (States.strong_count slot - 2)); [done|].
    cbn. rewrite En. cbn. unfold slot_life. do 2 f_equal. lia. }
  assert (idle (abs s) n) as Hidle.
  { intros ty k. cbn. destruct (bt_get n (States.st_open s)) as [slot|]; [|done].
    cbn [is_some_and] in Hbusy. apply Nat.ltb_ge in Hbusy. unfold slot_life. cbn. intros [= _ <-]. lia. }
  pose proof (drop_slot_ok s n Hok Hne) as Hok1. set (s1 := States.drop_slot n s) in *.
  pose proof (alters_drop n s) as Hlive. change (States.drop_slot n s) with s1 in Hlive.
  change (get (States.st_catalog s)) with (get (States.st_catalog s1)) in *.
  pose proof (delete_law n _ (so_catalog _ Hok1)) as Hd. unfold States.on_catalog.
  destruct (delete n (States.st_catalog s1)) as [cat r]. destruct Hd as (Hw & Hnp & Hother & Hr).
  assert (states_ok (States.set_catalog cat s1)) as Hok2.
  { apply states_ok_catalog; [done|done|..].
    - intros m slot Hm. pose proof (so_slots _ Hok1 m slot Hm) as Hs. destruct slot as [|h]; [by left|].
      right. destruct Hs as (_ & _ & _ & Hdec). destruct (decide (m = n)) as [->|Hmn]; [|by rewrite Hother].
      cbn in Hm. by rewrite bt_get_remove in Hm.
    - intros m Hm. apply Hother. congruence. }
  cbn [fst snd]. destruct r as [[]|e|]; cbn [lift_io map_err]; [..|done].
  - pose proof (so_files _ Hok2 n) as Hnode.
    destruct (remove_dir_all_file _ Hnode) as [e Er]. rewrite Er. cbn [fst snd]. split.
    + by apply states_ok_file.
    + eapply (delete_fails _ _ _ _ None); [done|done| |exact Hlive|by split; [apply Hr|]].
      right. by eexists.
  - split; [done|]. destruct Hr as [Hg Hg']. assert (get (States.st_catalog s1) n = None) as Hnone
      by (by destruct (get (States.st_catalog s1) n)).
    assert (bt_get n (States.st_open s) = None) as Hcl.
    { destruct (bt_get n (States.st_open s)) as [slot|] eqn:En; [|done].
      pose proof (so_slots s Hok n slot En) as Hs. destruct slot; [done|]. destruct Hs as (_ & _ & _ & [? Hs]).
      change (get (States.st_catalog s1) n = Some x) in Hs. congruence. }
    apply delete_missing; [done|cbn; by rewrite Hcl|done|..].
    + intros m. destruct (decide (m = n)) as [->|?]; [cbn; by rewrite bt_get_remove, Hcl|by apply Hlive].
    + intros m. destruct (decide (m = n)) as [->|?]; [|by apply Hother].
      change (get cat n = get (States.st_catalog s1) n). by rewrite Hnone.
  - split; [done|]. eapply (delete_fails _ _ _ _ (get cat n)); [done|done|right; by eexists|exact Hlive|].
    split; [done|]. intros m Hm. by apply Hother.
Qed.

(** A slot whose handle only changed its contents. *)
Definition touched (h : States.StateHandle (Handle:=Handle)) (st : Handle) : Slot :=
  States.Opened (States.mkStateHandle (States.sh_name h) st (States.sh_is_system h) (States.holders h)).
Lemma touch_ok s n h st : states_ok s → bt_get n (States.st_open s) = Some (States.Opened h) →
  handle_ty st = handle_ty (States.sh_state h) →
  let s' := States.set_open (bt_insert n (touched h st) (States.st_open s)) s in
  states_ok s' ∧ same (live (abs s)) (live (abs s')).
Proof using All.
  intros Hok Hn Hty. pose proof (so_slots s Hok n _ Hn) as Hs. split.
  - apply states_ok_slot; [done|exact Hs|]. by destruct Hs.
  - apply (same_insert _ _ _ _ Hn). unfold slot_life, touched. cbn. by rewrite Hty.
Qed.
Lemma write_simulates s n f : states_ok s → sop_ok (SWrite n f) → simulates s (sop_step (SWrite n f) s) (SWrite n f).
Proof using All.
  intros Hok Hf. unfold simulates, sop_step, States.write.
  destruct (bt_get n (States.st_open s)) as [[|h]|] eqn:En; cbn [fst snd].
  - pose proof (so_slots s Hok n _ En) as Hs. cbn in Hs. subst n. split; [done|].
    apply write_system; [done|]. cbn. rewrite En. by eexists.
  - pose proof (so_slots s Hok n _ En) as (Hne & Hname & Hsys & _). rewrite Hname, Hsys.
    assert (is_Some (live (abs s) n)) as Hl by (cbn; rewrite En; by eexists).
    destruct (is_system_state n) eqn:Esys; [split; [done|by apply write_system]|].
    pose proof (Hf (States.sh_state h)) as Hty. destruct (f (States.sh_state h)) as [st r]. cbn [fst snd] in *.
    destruct (touch_ok s n h st Hok En Hty) as [Hok' Hsame].
    unfold touched in Hok', Hsame. rewrite Hname, Hsys in Hok', Hsame.
    split; [exact Hok'|]. by apply write_done.
  - split; [done|]. apply write_missing. cbn. by rewrite En.
Qed.
Lemma release_simulates s n : states_ok s → simulates s (sop_step (SRelease n) s) (SRelease n).
Proof using All.
  intros Hok. unfold simulates, sop_step, States.release.
  destruct (bt_get n (States.st_open s)) as [[|h]|] eqn:En; cbn [fst snd].
  - pose proof (so_slots s Hok n _ En) as Hs. cbn in Hs. subst n. split; [done|]. apply release_none. by right.
  - pose proof (so_slots s Hok n _ En) as Hs. split.
    + apply states_ok_slot; [done|exact Hs|by destruct Hs].
    + eapply (release_done _ _ _ _ (States.holders h)); [by destruct Hs| | |done].
      * cbn. rewrite En. cbn. unfold slot_life. cbn. by rewrite Nat.sub_0_r.
      * match goal with |- alters _ _ _ (live (abs (States.set_open (bt_insert _ ?sl _) _))) =>
          pose proof (alters_insert n sl s) as Ha end.
        unfold slot_life in Ha. cbn in Ha. by rewrite Nat.sub_0_r in Ha.
  - split; [done|]. apply release_none. left. cbn. by rewrite En.
Qed.
Lemma states_visit_ok (fc : Cat → Cat * io unit) (fh : Handle → Handle * io unit) (l : list (rstring * Slot)) s :
  writes_nothing (K:=rstring) fc → (∀ h, handle_ty (fh h).1 = handle_ty h) →
  states_ok s → bt_wf l → (∀ n slot, (n, slot) ∈ l → bt_get n (States.st_open s) = Some slot) →
  let (s', _) := States.visit fc fh l s in
  states_ok s' ∧ same (live (abs s)) (live (abs s')) ∧ same (declared (abs s)) (declared (abs s')).
Proof using All.
  intros Hfc Hfh. revert s. induction l as [|[n slot] l IH]; intros s Hok Hwf Hl; [by split_and!|].
  destruct Hwf as [Hlt Hwf]. pose proof (Hl n slot ltac:(by left)) as Hn. cbn [States.visit].
  set (visited := match slot with States.TheCatalog => _ | States.Opened h => _ end).
  assert (states_ok visited.1 ∧ same (live (abs s)) (live (abs visited.1)) ∧
    same (declared (abs s)) (declared (abs visited.1)) ∧
    (∀ m, m ≠ n → bt_get m (States.st_open visited.1) = bt_get m (States.st_open s))) as (Hv & Hv1 & Hv2 & Hv3).
  { unfold visited. destruct slot as [|h].
    - pose proof (Hfc _ (so_catalog s Hok)) as Hw. unfold States.on_catalog.
      destruct (fc (States.st_catalog s)) as [cat r]. cbn. destruct Hw as (Hw & _ & Hg). split_and!; try done.
      apply states_ok_catalog; [done|done| |intros; apply Hg].
      intros m slot Hm. pose proof (so_slots s Hok m slot Hm) as Hs. destruct slot; [by left|right].
      rewrite Hg. apply Hs.
    - pose proof (Hfh (States.sh_state h)) as Hty. destruct (fh (States.sh_state h)) as [st r]. cbn [fst snd] in *.
      destruct (touch_ok s n h st Hok Hn Hty) as [Hok' Hsame]. split_and!; try done.
      intros m Hm. by apply bt_get_insert_ne. }
  clearbody visited. destruct visited as [s1 r]. cbn [fst] in *.
  destruct r as [[]|e|]; [|by split_and!..].
  pose proof (IH s1 Hv Hwf) as IH'. destruct (States.visit fc fh l s1) as [s' r'].
  destruct IH' as (I1 & I2 & I3).
  - intros m slot' Hin. rewrite Hv3; [by apply Hl; right|]. intros ->.
    rewrite Forall_forall in Hlt. specialize (Hlt _ Hin). cbn in Hlt. by rewrite cmp_refl in Hlt.
  - split; [done|]. split; intros m; [by rewrite I2, Hv1|by rewrite I3, Hv2].
Qed.
Lemma barrier_simulates s o : states_ok s → o = SFlush ∨ o = SSync → simulates s (sop_step o s) o.
Proof using All.
  intros Hok Ho. unfold simulates, sop_step.
  assert (∀ n slot, (n, slot) ∈ States.st_open s → bt_get n (States.st_open s) = Some slot) as Hin
    by (intros n slot; apply bt_In_get, Hok).
  destruct Ho as [-> | ->]; unfold States.states_flush, States.states_sync;
    [pose proof (states_visit_ok flush flush_state _ s (flush_law) flush_state_ty Hok (so_open s Hok) Hin) as Hv
    |pose proof (states_visit_ok sync sync_state _ s (sync_law) sync_state_ty Hok (so_open s Hok) Hin) as Hv];
    destruct (States.visit _ _ _ s) as [s' r]; destruct Hv as (? & ? & ?); (split; [done|]); apply barrier; auto.
Qed.
Lemma sop_simulates o s : states_ok s → sop_ok o → simulates s (sop_step o s) o.
Proof using All.
  destruct o; intros Hok Ho; eauto using upsert_simulates, get_simulates, close_simulates,
    delete_simulates, release_simulates, write_simulates, barrier_simulates.
Qed.

(** ** Creating and reopening *)
Lemma dir_of_file s n : states_ok s → bt_get n (States.sd_files (States.dir_of s)) = States.file_at s n.
Proof using All.
  intros Hok. cbn [States.dir_of States.sd_files]. set (on_disk := filter _ (States.st_open s)).
  assert (∀ l : btree rstring Slot, let files := foldr (λ p files, States.set_node p.1 (States.file_at s p.1) files) (States.st_files s) l in
    bt_get n files = States.file_at s n ∨ ((n ∉ map fst l) ∧ bt_get n files = bt_get n (States.st_files s))) as Hl.
  { intros l. induction l as [|[m slot] l IH]; cbn; [right; split; [apply not_elem_of_nil|done]|].
    destruct (decide (n = m)) as [->|Hne].
    - left. destruct (States.file_at s m); cbn; [by rewrite bt_get_insert|by rewrite bt_get_remove].
    - assert (bt_get n (States.set_node m (States.file_at s m) (foldr (λ p files, States.set_node p.1 (States.file_at s p.1) files)
        (States.st_files s) l)) = bt_get n (foldr (λ p files, States.set_node p.1 (States.file_at s p.1) files) (States.st_files s) l)) as ->.
      { destruct (States.file_at s m); cbn; [by rewrite bt_get_insert_ne|by rewrite bt_get_remove_ne]. }
      destruct IH as [?|[? ?]]; [by left|right]. split; [|done]. by apply not_elem_of_cons. }
  destruct (Hl on_disk) as [?|[Hn Hf]]; [done|]. etransitivity; [exact Hf|]. unfold States.file_at, on_path.
  destruct (bt_get n (States.st_open s)) as [[|h]|] eqn:En; [done| |done].
  destruct (leaves (States.sh_state h)) as [f|] eqn:El; [|done]. destruct Hn.
  apply list_elem_of_fmap. exists (n, States.Opened h). split; [done|]. apply list_elem_of_filter.
  cbn. rewrite El. split; [done|]. by apply bt_get_In.
Qed.
Context {CL : CatalogFileLaws Cat Cfg File}.
Lemma states_create_ok dir dir' s : States.create unit_ty dir = (dir', Ok s) →
  bt_get PEERS_STATE_NAME (States.sd_files dir) ≠ Some Directory → (∀ n, bt_get n (States.sd_files dir) ≠ Some Directory) →
  states_ok s ∧ ∀ n, get (States.st_catalog s) n = if is_system_state n then Some SYSTEM_STATE_CONFIG else None.
Proof using All.
  unfold States.create. destruct create_catalog as [cat|e|] eqn:Ec; [|done..]. intros Hcr Hp Hfiles.
  destruct (create_catalog_law _ Ec) as [Hw Hnone]. revert Hcr.
  pose proof (create_state_node unit_ty SYSTEM_STATE_CONFIG _ Hp) as Hnode.
  destruct (create_state unit_ty SYSTEM_STATE_CONFIG _) as [nd [h|e|]]; [|by intros [=]..]. cbn [fst] in Hnode.
  pose proof (put_law STATE_CATALOG_NAME SYSTEM_STATE_CONFIG cat Hw) as Hput. destruct (put STATE_CATALOG_NAME _ cat) as [cat1 [[]|e|]];
    cbn [and_then]; [|by intros [=]..]. destruct Hput as (Hw1 & _ & Ho1 & H1).
  pose proof (put_law PEERS_STATE_NAME SYSTEM_STATE_CONFIG cat1 Hw1) as Hput. destruct (put PEERS_STATE_NAME _ cat1) as [cat2 [[]|e|]];
    [|by intros [=]..]. destruct Hput as (Hw2 & _ & Ho2 & H2). intros [= _ <-].
  assert (∀ n, get cat2 n = if is_system_state n then Some SYSTEM_STATE_CONFIG else None) as Hget.
  { intros n. unfold is_system_state. case_bool_decide as Hn; [subst; cbn; by rewrite Ho2|]. cbn.
    case_bool_decide as Hn'; [by subst|]. by rewrite Ho2, Ho1. }
  split; [|exact Hget]. constructor; cbn; try done.
  - intros n slot. cbn. destruct (cmpP n STATE_CATALOG_NAME) as [->|?|?]; [by intros [= <-]|done..].
  - intros n Hn. by rewrite Hget, Hn.
  - intros n. assert (on_path nd h ≠ Some Directory) as Hd by (unfold on_path; by destruct (leaves h)).
    destruct (on_path nd h) as [x|]; cbn; bt_key n PEERS_STATE_NAME; done.
Qed.

(** ** Properties *)

(** A process that ends and opens the directory again finds every declaration
    with its configuration; no state is open but the catalog, and the path of
    every state holds what its handle had left there. *)
Lemma states_reopen (s : Sts) : states_ok s →
  ∃ s', States.open (States.dir_of s) = Ok s' ∧ states_ok s' ∧
  same (declared (abs s)) (declared (abs s')) ∧
  (∀ n, live (abs s') n = if bool_decide (n = STATE_CATALOG_NAME) then Some (catalog_ty, 1) else None) ∧
  ∀ ty n c, n ≠ STATE_CATALOG_NAME → get (States.st_catalog s) n = Some c →
    (States.get_state catalog_ty ty n s').2 =
    lift_io (rmap (λ st, States.Opened (States.mkStateHandle n st (is_system_state n) 1))
      (open_state ty c (States.file_at s n))).
Proof using All.
  intros Hok. destruct (open_catalog_law _ (so_catalog s Hok)) as (cat & Hopen & Hw & Hg).
  exists (States.mkStates cat States.first_slots (States.sd_files (States.dir_of s))).
  unfold States.open. cbn [States.dir_of States.sd_catalog]. rewrite Hopen. split; [done|].
  assert (∀ n, n ≠ STATE_CATALOG_NAME → bt_get n (@States.first_slots Handle) = None) as Hnone.
  { intros n Hn. cbn. destruct (cmpP n STATE_CATALOG_NAME); [done..]. }
  assert (bt_get STATE_CATALOG_NAME (@States.first_slots Handle) = Some States.TheCatalog) as Hcat
    by (cbn; by rewrite cmp_refl).
  split; [|split; [exact Hg|split]].
  - constructor; cbn [States.st_catalog States.st_open States.st_files]; [done|by repeat constructor|done|..].
    + intros n slot Hn. destruct (decide (n = STATE_CATALOG_NAME)) as [->|Hne];
        [|by rewrite Hnone in Hn]. rewrite Hcat in Hn. by injection Hn as <-.
    + intros n Hn. rewrite Hg. by apply Hok.
    + intros n. rewrite dir_of_file by done. by apply file_at_node.
  - intros n. cbn [live abs States.st_open]. case_bool_decide as Hn; [subst; by rewrite Hcat|by rewrite Hnone].
  - intros ty n c Hn Hc. unfold States.get_state. cbn [States.st_open States.st_catalog States.st_files].
    rewrite (Hnone n Hn), Hg, Hc, dir_of_file by done. by destruct (open_state ty c _).
Qed.

(** C6. The catalog of states keeps its promise: whatever sequence of upserts,
    gets, closes, deletes, writes and flushes runs, failing ones included,
    every answer is one the life of the declarations allows, and the catalog
    and the map of open handles stay consistent: every open state is declared,
    the catalog is open, the system states are declared as at creation. *)
Theorem states_refine (os : list sop) (s : Sts) : states_ok s → Forall sop_ok os →
  let (s', l) := sop_run os s in states_ok s' ∧ lives (abs s) os l (abs s').
Proof using All.
  intros Hok Hos. revert s Hok. induction Hos as [|o os Ho Hos IH]; intros s Hok; [split; [done|constructor]|].
  cbn [sop_run]. pose proof (sop_simulates o s Hok Ho) as [H1 H2]. destruct (sop_step o s) as [s1 a].
  specialize (IH s1 H1). destruct (sop_run os s1) as [s2 l]. destruct IH as [H3 H4].
  split; [done|]. by econstructor.
Qed.

(** C23. Deleting a declared state never succeeds: [remove_dir_all] is given the
    path of a file, or of nothing for an in-memory state.  The declaration is
    gone when the error is returned, and the file is still there. *)
Theorem delete_never_succeeds (n : rstring) (s : Sts) : states_ok s →
  let (s', r) := States.delete_state n s in
  r ≠ Ok true ∧
  (is_system_state n = false → is_Some (get (States.st_catalog s) n) →
   (∀ slot, bt_get n (States.st_open s) = Some slot → States.strong_count slot = 1) →
   (delete n (States.st_catalog s)).2 = Ok true →
   (∃ e, r = Err (EIo e)) ∧ get (States.st_catalog s') n = None ∧
   States.file_at s' n = States.file_at s n).
Proof using All.
  intros Hok. unfold States.delete_state. destruct (is_system_state n) eqn:Hsys; [by split|].
  destruct (is_some_and _ _) eqn:Hbusy.
  { split; [done|]. intros _ _ Hfree. destruct (bt_get n (States.st_open s)) as [slot|]; [|done].
    specialize (Hfree slot eq_refl). cbn [is_some_and] in Hbusy. by rewrite Hfree in Hbusy. }
  assert (n ≠ STATE_CATALOG_NAME) as Hne by (intros ->; done).
  pose proof (drop_slot_ok s n Hok Hne) as Hok1. pose proof (delete_law n _ (so_catalog _ Hok1)) as Hd.
  change (States.st_catalog (States.drop_slot n s)) with (States.st_catalog s) in *.
  unfold States.on_catalog. destruct (delete n (States.st_catalog s)) as [cat r].
  destruct Hd as (_ & _ & _ & Hr). cbn [fst snd]. destruct r as [[]|e|]; cbn [lift_io map_err]; try by split.
  assert (bt_get n (States.st_files (States.set_catalog cat (States.drop_slot n s))) = States.file_at s n) as Hfile.
  { cbn. unfold States.set_node. destruct (States.file_at s n); [by rewrite bt_get_insert|by rewrite bt_get_remove]. }
  rewrite Hfile. destruct (remove_dir_all_file _ (file_at_node s n Hok)) as [e Er]. rewrite Er.
  split; [done|]. intros _ _ _ _. split; [by eexists|]. split; [apply Hr|].
  unfold States.file_at at 1. cbn. rewrite bt_get_remove. destruct (States.file_at s n); cbn;
    [by rewrite bt_get_insert|by rewrite bt_get_remove].
Qed.
End Lifecycle.
