(* ===== verification/TableCatalog.v ===== *)
(** * The catalog of tables: [zendb-workspace/src/tables/mod.rs],
    [tables/runtime.rs], [tables/listeners/catalog.rs], and the directories of
    [zendb-storage/src/table/table.rs]

    Declared tables are the rows of a table, the catalog, from names to
    configurations encoded as blobs.  A write to the catalog is an event like
    any other; the listener of the catalog opens, creates and removes the
    tables, and owns the map of handles.  What the catalog needs of a table's
    directory is the class [TableFiles], implemented below over the engines'
    files.  The catalog and the registry are entries of the map shared with the
    fields ([SlotCatalog], [SlotRegistry]). *)
From Stdlib Require Import Ascii String.
From stdpp Require Import base numbers option gmap sorting list.
From S2P Require Import KeyDir KeyDirLog KeyDirReplay KeyDirBackend KeyDirStore.
From S2P Require Import Prelude Order BTreeMap Stamp Value CellLaws CellOps Backend Serdes Topic TopicLog TopicLaws.
From S2P Require Import Table TableLaws TableRecovery TableReads State Receipts Devices DeviceLaws DeviceStore StateCatalog.
Import Devices(lift_io, Error(..)).

(** ** Configurations *)
Record TopicConfig (Ck : Type) := mkTopicConfig { max_segment_bytes : Z; offsets_config : Ck }.
Arguments mkTopicConfig {_} _ _. Arguments max_segment_bytes {_} _. Arguments offsets_config {_} _.
Definition DEFAULT_MAX_SEGMENT_BYTES : Z := 64 * 1024 * 1024.
#[export] Instance TopicConfig_default {Ck : Type} `{HasDefault Ck} : HasDefault (TopicConfig Ck) :=
  mkTopicConfig DEFAULT_MAX_SEGMENT_BYTES default_of.
Record TableConfig (Cb Ck Cs : Type) := mkTableConfig {
  state_config : StateConfig Cb Ck Cs; max_buffered_records : nat; topic_config : TopicConfig Ck }.
Arguments mkTableConfig {_ _ _} _ _ _. Arguments state_config {_ _ _} _.
Arguments max_buffered_records {_ _ _} _. Arguments topic_config {_ _ _} _.
Definition SYSTEM_TABLE_CONFIG {Cb Ck Cs : Type} `{HasDefault Ck} : TableConfig Cb Ck Cs :=
  mkTableConfig SYSTEM_STATE_CONFIG Table.DEFAULT_MAX_BUFFERED_RECORDS default_of.
(** The variant of [State] a configuration names. *)
Definition config_kind {Cb Ck Cs : Type} (c : StateConfig Cb Ck Cs) : StateKind :=
  match c with ConfigOrdered _ => Ordered | ConfigUnordered _ => Unordered | ConfigInMemory _ => InMemory end.
#[export] Instance TopicConfig_eq_dec {Ck : Type} `{EqDecision Ck} : EqDecision (TopicConfig Ck).
Proof. solve_decision. Defined.
#[export] Instance TableConfig_eq_dec {Cb Ck Cs : Type} `{EqDecision Cb, EqDecision Ck, EqDecision Cs} :
  EqDecision (TableConfig Cb Ck Cs).
Proof. solve_decision. Defined.

(** ** A table's directory *)
(** What [create] and [open] of a table do with the directory at a path
    ([None]: there is none).  On success the directory returned is the part of
    it the table does not own; [table_leaves] puts the table's files into it. *)
Class TableFiles (Cfg Dir T : Type) := {
  table_leaves : option Dir → T → Dir;
  create_table : Cfg → option Dir → option Dir * io T;
  open_table_at : Cfg → Dir → option Dir * io T;
}.

Section Directory.
Context `{L : Libp2p} {Cb Ck Cs Bp Kd Sk Ca Off : Type}.
Context `{EB : EngineFile Cb Bp} `{EK : EngineFile Ck Kd} `{EO : EngineFile Ck Off} (new_sk : Cs → Sk) (new_cache : nat → Ca).
Abbreviation St := (State Bp Kd Sk (StateConfig Cb Ck Cs)).
Context `{St_b : Backend St PrimaryKey Cell} `{St_d : Durable St}.
Context `{Off_b : Backend Off rstring Z} `{Off_d : Durable Off} `{Ca_b : Backend Ca PrimaryKey Cell} `{Cd : Codec Table.Change}.
(** Bytes the disk still accepts. *)
Context (disk : nat).
(** [state], and in [topic] the segments, by their first offset, and the
    offsets. *)
Record TableDir := mkTableDir {
  td_state : option (Node (list Z)); td_segments : list (Z * list Z); td_offsets : option (Node (list Z)) }.
Definition empty_dir : TableDir := mkTableDir None [] None.
Definition engine_bytes_of (s : St) : option (list Z) :=
  match s with SOrdered b _ => Some (engine_bytes b) | SUnordered b _ => Some (engine_bytes b) | SInMemory _ _ => None end.
Definition state_node (n : option (Node (list Z))) (s : St) : option (Node (list Z)) :=
  match engine_bytes_of s with Some bs => Some (RegularFile bs) | None => n end.
Definition create_state_at (c : StateConfig Cb Ck Cs) (n : option (Node (list Z))) : option (Node (list Z)) * io St :=
  match c with
  | ConfigOrdered b => let '(n, r) := engine_create b n in (n, rmap (λ x, SOrdered x c) r)
  | ConfigUnordered k => let '(n, r) := engine_create k n in (n, rmap (λ x, SUnordered x c) r)
  | ConfigInMemory s => (n, Ok (SInMemory (new_sk s) c))
  end.
Definition open_state_at (c : StateConfig Cb Ck Cs) (n : option (Node (list Z))) : io St :=
  state_open (λ b, engine_open b n) (λ k, engine_open k n) new_sk c.
Definition dir_files (old : option TableDir) (t : Table.Table St Ca Off) : TableDir :=
  let old := default empty_dir old in
  mkTableDir (state_node (td_state old) (Table.tb_state t))
    (files_of (Table.tb_topic t) [] ++ Topic.tp_stray (Table.tb_topic t) ++ td_segments old)
    (Some (RegularFile (engine_bytes (Topic.tp_offsets (Table.tb_topic t))))).
(** [Table::create]: the directories are made, [state] and [topic/offsets] are
    truncated, the first segment must not exist. *)
Definition create_table_at (c : TableConfig Cb Ck Cs) (dir : option TableDir) :
    option TableDir * io (Table.Table St Ca Off) :=
  let d := default empty_dir dir in
  let '(n, r) := create_state_at (state_config c) (td_state d) in
  match r with
  | Ok st =>
      let d := mkTableDir (state_node n st) (td_segments d) (td_offsets d) in
      let '(n, r) := engine_create (offsets_config (topic_config c)) (td_offsets d) in
      let d offs := mkTableDir (td_state d) (td_segments d) offs in
      match r with
      | Ok off =>
          let r := if existsb (λ p, (p.1 =? 0)%Z) (td_segments (d n)) then Err AlreadyExists
                   else Table.create st (new_cache (max_buffered_records c)) (max_segment_bytes (topic_config c)) off disk in
          (Some (d (Some (RegularFile (engine_bytes off)))), r)
      | Err e => (Some (d n), Err e) | Panic => (Some (d n), Panic)
      end
  | Err e => (Some (mkTableDir n (td_segments d) (td_offsets d)), Err e)
  | Panic => (Some (mkTableDir n (td_segments d) (td_offsets d)), Panic)
  end.
(** More steps than there are records in the files. *)
Definition replay_fuel (segs : list (Z * list Z)) : nat := S (length (concat (map snd segs))).
(** [Table::open]; the segments found belong to the topic. *)
Definition open_table_dir (c : TableConfig Cb Ck Cs) (d : TableDir) : option TableDir * io (Table.Table St Ca Off) :=
  match open_state_at (state_config c) (td_state d) with
  | Ok st =>
      match engine_open (offsets_config (topic_config c)) (td_offsets d) with
      | Ok off =>
          let r := Table.open_table (replay_fuel (td_segments d)) st (new_cache (max_buffered_records c))
                     (max_segment_bytes (topic_config c)) (td_segments d) off disk in
          (Some (match r with Ok _ => mkTableDir (td_state d) [] (td_offsets d) | _ => d end), r)
      | Err e => (Some d, Err e)
      | Panic => (Some d, Panic)
      end
  | Err e => (Some d, Err e) | Panic => (Some d, Panic)
  end.
#[export] Instance table_files : TableFiles (TableConfig Cb Ck Cs) TableDir (Table.Table St Ca Off) := {|
  table_leaves := dir_files; create_table := create_table_at; open_table_at := open_table_dir |}.
End Directory.

(** ** [TableHandle], [Tables] *)
Module Tables.
Section Tables.
Context `{L : Libp2p} {Cb Ck Cs St Ca Off Ps Dir : Type}.
Context `{EqDecision Cb, EqDecision Ck, EqDecision Cs, HasDefault Ck}.
Abbreviation Cfg := (TableConfig Cb Ck Cs).
Abbreviation T := (Table.Table St Ca Off).
Abbreviation Devs := (Devices.Devices St Ca Off Ps).
Context `{St_b : Backend St PrimaryKey Cell} `{St_d : Durable St} `{St_k : HasKind St}.
Context `{Ca_b : Backend Ca PrimaryKey Cell} `{Ca_c : Bounded Ca}.
Context `{Off_b : Backend Off rstring Z} `{Off_d : Durable Off}.
Context `{Cd : Codec Table.Change} `{Cr : Codec Devices.DeviceRecord} `{Cc : Codec Cfg}.
Context `{Ps_b : Backend Ps PeerId Devices.PeerState}.
Context `{TF : TableFiles Cfg Dir T}.
Abbreviation res A := (result Error A).

Inductive Listener := ReceiptListener | TableCatalogListener.
Record TableHandle := mkTableHandle {
  th_name : rstring; th_table : T; th_listeners : list Listener; th_is_system : bool; th_holders : nat }.
Inductive Slot := SlotCatalog | SlotRegistry | SlotTable (h : TableHandle).
(** The registry, with its listeners, belongs to [Devices].  [ts_dirs] is what
    the directories hold beside the files of the open tables. *)
Record Tables := mkTables {
  ts_catalog : TableHandle; ts_tables : btree rstring Slot; ts_dirs : btree rstring Dir; ts_devices : Devs }.
Implicit Types (ts : Tables) (name : rstring) (h : TableHandle).
(** What the environment answers during a call: the clock when a stamp is
    minted, the clock when it is observed, whether a directory can be removed. *)
Record Env := mkEnv { wall : option Z; wall_seen : option Z; removable : bool }.

Definition set_catalog h ts := mkTables h (ts_tables ts) (ts_dirs ts) (ts_devices ts).
Definition set_tables m ts := mkTables (ts_catalog ts) m (ts_dirs ts) (ts_devices ts).
Definition set_dirs m ts := mkTables (ts_catalog ts) (ts_tables ts) m (ts_devices ts).
Definition set_devices d ts := mkTables (ts_catalog ts) (ts_tables ts) (ts_dirs ts) d.
Definition set_table t h := mkTableHandle (th_name h) t (th_listeners h) (th_is_system h) (th_holders h).
Definition set_holders n h := mkTableHandle (th_name h) (th_table h) (th_listeners h) (th_is_system h) n.
Definition set_dir name (d : option Dir) (dirs : btree rstring Dir) :=
  match d with Some d => bt_insert name d dirs | None => bt_remove name dirs end.
Definition add_listener l h := mkTableHandle (th_name h) (th_table h) (th_listeners h ++ [l]) (th_is_system h) (th_holders h).
(** [TableHandle::new]. *)
Definition new_handle name (t : T) is_system := mkTableHandle name t [] is_system 0.
(** The table of an entry of the map, and its replacement. *)
Definition slot_table (slot : Slot) ts : T :=
  match slot with
  | SlotCatalog => th_table (ts_catalog ts) | SlotRegistry => Devices.registry (ts_devices ts)
  | SlotTable h => th_table h end.
Definition set_slot_table name slot (t : T) ts : Tables :=
  match slot with
  | SlotCatalog => set_catalog (set_table t (ts_catalog ts)) ts
  | SlotRegistry => set_devices (Devices.set_registry t (ts_devices ts)) ts
  | SlotTable h => set_tables (bt_insert name (SlotTable (set_table t h)) (ts_tables ts)) ts
  end.
Definition strong_count (slot : Slot) : nat :=
  match slot with SlotCatalog | SlotRegistry => 2 | SlotTable h => 1 + th_holders h end.

(** ** Listeners *)
(** [TableCatalogListener::on_change]; a panic of what it calls unwinds. *)
Definition open_declared name (config : Cfg) ts : Tables * res unit :=
  let '(d, r) := match bt_get name (ts_dirs ts) with
                 | Some dir => open_table_at config dir
                 | None => create_table config None
                 end in
  let ts := set_dirs (set_dir name d (ts_dirs ts)) ts in
  match r with
  | Ok t =>
      let h := add_listener ReceiptListener (new_handle name t false) in
      (set_tables (bt_insert name (SlotTable h) (ts_tables ts)) ts, Ok tt)
  | Err _ => (ts, Ok tt)
  | Panic => (ts, Panic)
  end.
Definition close_deleted (env : Env) name ts : Tables :=
  match bt_get name (ts_tables ts) with
  | Some slot =>
      let left := table_leaves (bt_get name (ts_dirs ts)) (slot_table slot ts) in
      set_dirs (set_dir name (if removable env then None else Some left) (ts_dirs ts))
        (set_tables (bt_remove name (ts_tables ts)) ts)
  | None => ts
  end.
Definition catalog_listener (env : Env) (change : Table.Change) ts : Tables * res unit :=
  let ev := Table.ch_event change in
  match primary_key ev with
  | PK_String name =>
      match op ev with
      | OpUpsert (Blob blob) =>
          if bt_contains name (ts_tables ts) then (ts, Ok tt) else
          match deserialize_from blob with
          | Ok config => open_declared name config ts
          | _ => (ts, Ok tt)
          end
      | OpDelete => (close_deleted env name ts, Ok tt)
      | _ => (ts, Ok tt)
      end
  | _ => (ts, Ok tt)
  end.
Definition on_change (env : Env) (l : Listener) (change : Table.Change) ts : Tables * res unit :=
  match l with
  | ReceiptListener => (set_devices (Devices.receipt_listener (wall_seen env) change (ts_devices ts)) ts, Ok tt)
  | TableCatalogListener => catalog_listener env change ts
  end.
Fixpoint dispatch (env : Env) (ls : list Listener) (change : Table.Change) ts : Tables * res unit :=
  match ls with
  | [] => (ts, Ok tt)
  | l :: ls =>
      let '(ts, r) := on_change env l change ts in
      match r with Ok _ => dispatch env ls change ts | r => (ts, r) end
  end.

(** ** [TableHandle] *)
(** On the catalog or an application table. *)
Definition insert_unchecked (env : Env) name slot h (event : Event) ts : Tables * res Table.InsertOutcome :=
  let '(t, r) := Table.insert event (th_table h) in
  let ts := set_slot_table name slot t ts in
  match r with
  | Ok (Table.Applied change) =>
      let '(ts, r) := dispatch env (th_listeners h) change ts in
      (ts, rmap (λ _, Table.Applied change) r)
  | r => (ts, lift_io r)
  end.
Definition insert_internal (env : Env) name slot h (event : Event) ts : Tables * res Table.InsertOutcome :=
  let required := if th_is_system h then Admin else Contributor in
  match Devices.require_access (ts_devices ts) (peer_id (stamp_id (event_stamp event))) required with
  | Ok _ => insert_unchecked env name slot h event ts
  | Err e => (ts, Err e) | Panic => (ts, Panic)
  end.
Definition mint (env : Env) ts : Tables * res EventStamp :=
  let '(d, r) := Devices.mint (wall env) (ts_devices ts) in (set_devices d ts, r).
(** [TableHandle::insert] through a handle of the map. *)
Definition table_insert (env : Env) name (key : PrimaryKey) (path : Path) (op : Op) ts :
    Tables * res Table.InsertOutcome :=
  match bt_get name (ts_tables ts) with
  | Some (SlotTable h) =>
      if th_is_system h then (ts, Err (SystemTableReadOnly (th_name h))) else
      match Devices.require_access (ts_devices ts) (Devices.local_peer_id (ts_devices ts)) Contributor with
      | Ok _ =>
          let '(ts, r) := mint env ts in
          match r with
          | Ok s => insert_internal env name (SlotTable h) h (mkEvent key path op s) ts
          | Err e => (ts, Err e) | Panic => (ts, Panic)
          end
      | Err e => (ts, Err e) | Panic => (ts, Panic)
      end
  | Some _ => (ts, Err (SystemTableReadOnly name))
  | None => (ts, Err (ENotFound name))
  end.

(** ** Lifecycle operations *)
Definition catalog_event name (o : Op) (s : EventStamp) : Event := mkEvent (PK_String name) [] o s.
Definition write_entry (env : Env) name (config : Cfg) (s : EventStamp) ts : Tables * res unit :=
  match serialize_to_vec config with
  | Ok blob =>
      let '(ts, r) := insert_internal env TABLE_CATALOG_NAME SlotCatalog (ts_catalog ts)
                        (catalog_event name (OpUpsert (Blob blob)) s) ts in
      (ts, rmap (λ _, tt) r)
  | Err e => (ts, Err (EIo e)) | Panic => (ts, Panic)
  end.
Definition decode_catalog_row (key : PrimaryKey) (c : Cell) : res (option (rstring * Cfg)) :=
  match key with
  | PK_String name =>
      match value c with
      | Some (Blob blob) =>
          match deserialize_from blob with
          | Ok config => Ok (Some (name, config))
          | Err _ => Err CorruptCatalog
          | Panic => Panic
          end
      | None => Ok None
      | Some _ => Err CorruptCatalog
      end
  | _ => Err CorruptCatalog
  end.
Definition current_config name ts : res (option Cfg) :=
  match Table.table_get (th_table (ts_catalog ts)) (PK_String name) with
  | Some c => row <-? decode_catalog_row (PK_String name) c ;; Ok (snd <$> row)
  | None => Ok None
  end.
Definition contains_table ts name : bool := bt_contains name (ts_tables ts).
Definition list_tables ts : list rstring := bt_keys (ts_tables ts).
Definition upsert (env : Env) name (config : Cfg) ts : Tables * res bool :=
  if is_system_table name then (ts, Err (SystemTableReadOnly name)) else
  match Devices.require_access (ts_devices ts) (Devices.local_peer_id (ts_devices ts)) Admin with
  | Ok _ =>
      match current_config name ts with
      | Ok current =>
          if bool_decide (current = Some config) then (ts, Ok false) else
          let '(ts, r) := mint env ts in
          match r with
          | Ok s => let '(ts, r) := write_entry env name config s ts in (ts, rmap (λ _, true) r)
          | Err e => (ts, Err e) | Panic => (ts, Panic)
          end
      | Err e => (ts, Err e) | Panic => (ts, Panic)
      end
  | Err e => (ts, Err e) | Panic => (ts, Panic)
  end.
Definition get_table name ts : Tables * res Slot :=
  match bt_get name (ts_tables ts) with
  | Some (SlotTable h) =>
      let slot := SlotTable (set_holders (S (th_holders h)) h) in
      (set_tables (bt_insert name slot (ts_tables ts)) ts, Ok slot)
  | Some slot => (ts, Ok slot)
  | None => (ts, Err (ENotFound name))
  end.
Definition delete_table (env : Env) name ts : Tables * res bool :=
  if is_system_table name then (ts, Err (ResourceBusy name)) else
  match Devices.require_access (ts_devices ts) (Devices.local_peer_id (ts_devices ts)) Admin with
  | Ok _ =>
      match bt_get name (ts_tables ts) with
      | None => (ts, Ok false)
      | Some slot =>
          if (1 <? strong_count slot)%nat then (ts, Err (ResourceBusy name)) else
          let '(ts, r) := mint env ts in
          match r with
          | Ok s =>
              let '(ts, r) := insert_internal env TABLE_CATALOG_NAME SlotCatalog (ts_catalog ts)
                                (catalog_event name OpDelete s) ts in
              (ts, rmap (λ _, true) r)
          | Err e => (ts, Err e) | Panic => (ts, Panic)
          end
      end
  | Err e => (ts, Err e) | Panic => (ts, Panic)
  end.
(** [flush] and [sync]: every table of a snapshot of the map, in turn. *)
Fixpoint visit_tables (f : T → T * io unit) (slots : list (rstring * Slot)) ts : Tables * res unit :=
  match slots with
  | [] => (ts, Ok tt)
  | (name, slot) :: slots =>
      let '(t, r) := f (slot_table slot ts) in
      let ts := set_slot_table name slot t ts in
      match r with Ok _ => visit_tables f slots ts | r => (ts, lift_io r) end
  end.
Definition tables_flush ts : Tables * res unit := visit_tables Table.table_flush (ts_tables ts) ts.
Definition tables_sync ts : Tables * res unit := visit_tables Table.table_sync (ts_tables ts) ts.

(** ** [create] and [open] *)
Definition listen (slot : Slot) : Slot :=
  match slot with SlotTable h => SlotTable (add_listener ReceiptListener h) | slot => slot end.
(** The registry's listeners are part of [Devices.insert_internal]. *)
Definition register_listeners ts : Tables :=
  mkTables (add_listener TableCatalogListener (add_listener ReceiptListener (ts_catalog ts)))
    (map (λ p, (p.1, listen p.2)) (ts_tables ts)) (ts_dirs ts) (ts_devices ts).
Definition system_slots : btree rstring Slot :=
  bt_insert TABLE_CATALOG_NAME SlotCatalog [(DEVICES_TABLE_NAME, SlotRegistry)].
Definition all_dirs ts : btree rstring Dir :=
  foldr (λ p dirs, set_dir p.1 (Some (table_leaves (bt_get p.1 (ts_dirs ts)) (slot_table p.2 ts))) dirs)
    (ts_dirs ts) (ts_tables ts).
(** What is on disk after a call that fails is returned beside the error. *)
Definition create (env1 env2 env3 : Env) (dirs : btree rstring Dir) (ps : Ps) (me : PeerId) (display : rstring) :
    btree rstring Dir * res Tables :=
  let '(d, r) := create_table SYSTEM_TABLE_CONFIG (bt_get DEVICES_TABLE_NAME dirs) in
  let dirs := set_dir DEVICES_TABLE_NAME d dirs in
  match r with
  | Ok reg =>
      match Devices.create (wall env1) reg ps me display with
      | Ok devices =>
          let '(d, r) := create_table SYSTEM_TABLE_CONFIG (bt_get TABLE_CATALOG_NAME dirs) in
          let dirs := set_dir TABLE_CATALOG_NAME d dirs in
          match r with
          | Ok t =>
              let ts := register_listeners
                (mkTables (new_handle TABLE_CATALOG_NAME t true) system_slots dirs devices) in
              let '(ts, r) := mint env2 ts in
              let '(ts, r) := match r with
                | Ok s => write_entry env2 TABLE_CATALOG_NAME SYSTEM_TABLE_CONFIG s ts
                | Err e => (ts, Err e) | Panic => (ts, Panic) end in
              let '(ts, r) := match r with
                | Ok _ => mint env3 ts | Err e => (ts, Err e) | Panic => (ts, Panic) end in
              let '(ts, r) := match r with
                | Ok s => write_entry env3 DEVICES_TABLE_NAME SYSTEM_TABLE_CONFIG s ts
                | Err e => (ts, Err e) | Panic => (ts, Panic) end in
              (all_dirs ts, rmap (λ _, ts) r)
          | Err e => (dirs, Err (EIo e)) | Panic => (dirs, Panic)
          end
      | Err e => (dirs, Err e) | Panic => (dirs, Panic)
      end
  | Err e => (dirs, Err (EIo e)) | Panic => (dirs, Panic)
  end.

(** The rows of the catalog, all decoded before any table is opened. *)
Fixpoint decode_rows (rows : list (PrimaryKey * Cell)) : res (list (rstring * Cfg)) :=
  match rows with
  | [] => Ok []
  | (key, c) :: rows =>
      row <-? decode_catalog_row key c ;;
      rest <-? decode_rows rows ;;
      Ok (match row with Some row => row :: rest | None => rest end)
  end.
Definition open_dir (config : Cfg) (d : option Dir) : option Dir * io T :=
  match d with Some d => open_table_at config d | None => (None, Err NotFound) end.
Fixpoint open_tables (rows : list (rstring * Cfg)) (slots : btree rstring Slot) (dirs : btree rstring Dir) :
    res (btree rstring Slot * btree rstring Dir) :=
  match rows with
  | [] => Ok (slots, dirs)
  | (name, config) :: rows =>
      if is_system_table name then open_tables rows slots dirs else
      let '(d, r) := open_dir config (bt_get name dirs) in
      t <-? lift_io r ;;
      open_tables rows (bt_insert name (SlotTable (new_handle name t false)) slots) (set_dir name d dirs)
  end.
Definition open (env : Env) (dirs : btree rstring Dir) (ps : Ps) (me : PeerId) : res Tables :=
  let '(d, r) := open_dir SYSTEM_TABLE_CONFIG (bt_get DEVICES_TABLE_NAME dirs) in
  reg <-? lift_io r ;;
  let dirs := set_dir DEVICES_TABLE_NAME d dirs in
  devices <-? Devices.open (wall env) reg ps me ;;
  let '(d, r) := open_dir SYSTEM_TABLE_CONFIG (bt_get TABLE_CATALOG_NAME dirs) in
  t <-? lift_io r ;;
  let dirs := set_dir TABLE_CATALOG_NAME d dirs in
  rows <-? decode_rows (Table.table_entries t) ;;
  opened <-? open_tables rows system_slots dirs ;;
  Ok (register_listeners (mkTables (new_handle TABLE_CATALOG_NAME t true) opened.1 opened.2 devices)).
End Tables.
End Tables.

(** ** What the catalog keeps true *)
Section Laws.
Context `{L : Libp2p} {Cb Ck Cs St Ca Off Ps Dir : Type}.
Context `{EqDecision Cb, EqDecision Ck, EqDecision Cs, HasDefault Ck}.
Abbreviation Cfg := (TableConfig Cb Ck Cs).
Abbreviation T := (Table.Table St Ca Off).
Context `{St_b : Backend St PrimaryKey Cell, !BackendLaws St PrimaryKey Cell}.
Context `{St_d : Durable St, !DurableLaws St PrimaryKey Cell} `{St_k : HasKind St}.
Context `{Ca_b : Backend Ca PrimaryKey Cell, !BackendLaws Ca PrimaryKey Cell}.
Context `{Ca_c : Bounded Ca, !BoundedLaws Ca PrimaryKey Cell}.
Context `{Off_b : Backend Off rstring Z, !BackendLaws Off rstring Z} `{Off_d : Durable Off, !DurableLaws Off rstring Z}.
Context `{Cd : Codec Table.Change} `{Cr : Codec Devices.DeviceRecord} `{Cc : Codec Cfg}.
Context `{Ps_b : Backend Ps PeerId Devices.PeerState}.
Context `{TF : TableFiles Cfg Dir T}.
Hypothesis Hkind : kind_stable (St:=St).
Abbreviation Tbs := (Tables.Tables (St:=St) (Ca:=Ca) (Off:=Off) (Ps:=Ps) (Dir:=Dir)).
Abbreviation Slot := (Tables.Slot (St:=St) (Ca:=Ca) (Off:=Off)).
Abbreviation Devs := (Devices.Devices St Ca Off Ps).
Abbreviation res A := (result Error A).
Implicit Types (ts : Tbs) (n m : rstring) (c : Cfg) (env : Tables.Env) (d : Devs).

Definition catalog_table ts : T := Tables.th_table (Tables.ts_catalog ts).
(** The configuration a row of the catalog declares. *)
Definition row_config (r : Cell) : option Cfg :=
  match value r with
  | Some (Blob b) => match deserialize_from b with Ok c => Some c | _ => None end
  | _ => None
  end.
Definition declared ts n : option Cfg := Table.table_get (catalog_table ts) (PK_String n) ≫= row_config.
Definition row_ok (r : Cell) : Prop :=
  value r = None ∨ ∃ c, value r = Some (Blob (encoded c)) ∧ codec_ok c.
Definition slot_ok n (slot : Slot) : Prop :=
  match slot with
  | Tables.SlotCatalog => n = TABLE_CATALOG_NAME
  | Tables.SlotRegistry => n = DEVICES_TABLE_NAME
  | Tables.SlotTable h => is_system_table n = false ∧ Tables.th_name h = n ∧ Tables.th_is_system h = false ∧
      Tables.th_listeners h = [Tables.ReceiptListener]
  end.
Record core_ok ts : Prop := {
  to_catalog : ∃ log, table_ok (catalog_table ts) log;
  to_capacity : capacity (Table.tb_cache (catalog_table ts)) ≠ Some 0;
  to_handle : Tables.th_is_system (Tables.ts_catalog ts) = true ∧
    Tables.th_listeners (Tables.ts_catalog ts) = [Tables.ReceiptListener; Tables.TableCatalogListener];
  to_rows key r : Table.table_get (catalog_table ts) key = Some r →
    (∃ n, key = PK_String n) ∧ row_ok r ∧ passed (Tables.ts_devices ts) (stamp r);
  to_clock : passed (Tables.ts_devices ts) EventStamp_default;
  to_tables : bt_wf (Tables.ts_tables ts);
  to_slots n slot : bt_get n (Tables.ts_tables ts) = Some slot → slot_ok n slot;
  to_system : bt_get TABLE_CATALOG_NAME (Tables.ts_tables ts) = Some Tables.SlotCatalog ∧
    bt_get DEVICES_TABLE_NAME (Tables.ts_tables ts) = Some Tables.SlotRegistry;
}.
(** Every open table is declared. *)
Definition tables_ok ts : Prop := core_ok ts ∧
  ∀ n h, bt_get n (Tables.ts_tables ts) = Some (Tables.SlotTable h) → is_Some (declared ts n).
(** *** The clock *)
Lemma mint_newer env ts ts' s : Tables.mint env ts = (ts', Ok s) →
  (∀ u, passed (Tables.ts_devices ts) u → cmp u s = Lt ∧ passed (Tables.ts_devices ts') u) ∧
  (is_Some (clock_of (Tables.ts_devices ts)) → passed (Tables.ts_devices ts') s) ∧
  peer_id (stamp_id s) = Devices.local_peer_id (Tables.ts_devices ts) ∧
  Tables.ts_devices ts' = (Devices.mint (Tables.wall env) (Tables.ts_devices ts)).1 ∧
  ts' = Tables.set_devices (Tables.ts_devices ts') ts.
Proof using Type.
  unfold Tables.mint. destruct (Devices.mint (Tables.wall env) (Tables.ts_devices ts)) as [d r] eqn:Em.
  intros [= <- ->]. destruct (minted_newer _ _ _ _ Em) as (H1 & H2 & H3). by split_and!.
Qed.
Lemma mint_fails env ts ts' r : Tables.mint env ts = (ts', r) → (∀ s, r ≠ Ok s) → ts' = ts.
Proof using Type.
  unfold Tables.mint. destruct (Devices.mint (Tables.wall env) (Tables.ts_devices ts)) as [d r0] eqn:Em. intros [= <- <-] Hr.
  rewrite (mint_stays _ _ _ _ Em Hr). by destruct ts.
Qed.

(** *** Rows of the catalog *)
Lemma current_stamp ts n : core_ok ts → 
  passed (Tables.ts_devices ts) (stamp (default (dummy None) (Table.table_get (catalog_table ts) (PK_String n)))).
Proof using All.
  intros Hok. destruct (Table.table_get (catalog_table ts) (PK_String n)) as [r|] eqn:Er; cbn; [|apply Hok].
  by apply (to_rows _ Hok _ _ Er).
Qed.
Lemma catalog_insert ts n o w s : core_ok ts → written o = Some w →
  (∀ u, passed (Tables.ts_devices ts) u → cmp u s = Lt) →
  accepts (catalog_table ts) (Tables.catalog_event n o s) →
  let (t', r) := Table.insert (Tables.catalog_event n o s) (catalog_table ts) in
  (∃ log, table_ok t' log) ∧ capacity (Table.tb_cache t') = capacity (Table.tb_cache (catalog_table ts)) ∧
  match r with
  | Ok (Table.Applied ch) => Table.ch_event ch = Tables.catalog_event n o s ∧
      Table.table_get t' (PK_String n) = Some (mkCell w s) ∧
      ∀ k, k ≠ PK_String n → Table.table_get t' k = Table.table_get (catalog_table ts) k
  | Err _ => same_contents (catalog_table ts) t'
  | _ => False
  end.
Proof using All.
  intros Hok Hw Hs Hacc. destruct (to_catalog _ Hok) as [log Hlog].
  apply (row_insert Hkind _ log); [done|apply Hok|done|by apply Hs, current_stamp|done].
Qed.
(** The catalog after a write, before its listener runs. *)
Definition rewritten ts (t' : T) d : Tbs :=
  Tables.set_devices d (Tables.set_catalog (Tables.set_table t' (Tables.ts_catalog ts)) ts).
Lemma rewritten_ok ts t' d : core_ok ts → (∃ log, table_ok t' log) →
  capacity (Table.tb_cache t') = capacity (Table.tb_cache (catalog_table ts)) →
  (∀ u, passed (Tables.ts_devices ts) u → passed d u) →
  (∀ k r, Table.table_get t' k = Some r → Table.table_get (catalog_table ts) k = Some r ∨
    (∃ n, k = PK_String n) ∧ row_ok r ∧ passed d (stamp r)) →
  core_ok (rewritten ts t' d).
Proof using All.
  intros [H1 H2 H3 H4 H5 H6 H7 H8] Hlog Hcap Hd Hrows. constructor; try done.
  - cbn. by rewrite Hcap.
  - intros k r Hr. destruct (Hrows k r Hr) as [Hr'|?]; [|done].
    destruct (H4 k r Hr') as (? & ? & ?). split_and!; auto.
  - by apply Hd.
Qed.
Lemma written_row_ok o w : written o = Some w → (∀ v, o = OpUpsert v → ∃ c, v = Blob (encoded c) ∧ codec_ok c) →
  ∀ s, row_ok (mkCell w s).
Proof using All.
  intros Hw Hv s. destruct o; try done; injection Hw as <-; [by left|]. right.
  destruct (Hv v eq_refl) as (c & -> & Hc). by exists c.
Qed.
Lemma declared_other ts t' d n : (∀ k, k ≠ PK_String n → Table.table_get t' k = Table.table_get (catalog_table ts) k) →
  ∀ m, m ≠ n → declared (rewritten ts t' d) m = declared ts m.
Proof using All. intros Hk m Hm. unfold declared. cbn. rewrite Hk; [done|congruence]. Qed.

(** *** Writing to the catalog *)
Lemma rewritten_self ts d : Tables.set_devices d ts = rewritten ts (catalog_table ts) d.
Proof using All. destruct ts as [[] ? ? ?]. done. Qed.
Definition catalog_write env n (o : Op) (s : EventStamp) ts : Tbs * res Table.InsertOutcome :=
  Tables.insert_internal env TABLE_CATALOG_NAME Tables.SlotCatalog (Tables.ts_catalog ts) (Tables.catalog_event n o s) ts.
Lemma catalog_write_ok env n o w s ts ts1 ts' r : core_ok ts → Tables.mint env ts = (ts1, Ok s) →
  written o = Some w → (∀ v, o = OpUpsert v → ∃ c, v = Blob (encoded c) ∧ codec_ok c) →
  accepts (catalog_table ts) (Tables.catalog_event n o s) →
  catalog_write env n o s ts1 = (ts', r) →
  (∃ e t', r = Err e ∧ ts' = rewritten ts t' (Tables.ts_devices ts1) ∧ core_ok ts' ∧ same_contents (catalog_table ts) t') ∨
  (∃ ch t' d r0, Table.ch_event ch = Tables.catalog_event n o s ∧ core_ok (rewritten ts t' d) ∧
    declared (rewritten ts t' d) n = row_config (mkCell w s) ∧
    (∀ m, m ≠ n → declared (rewritten ts t' d) m = declared ts m) ∧
    Tables.catalog_listener env ch (rewritten ts t' d) = (ts', r0) ∧ r = rmap (λ _, Table.Applied ch) r0 ∧
    t' = (Table.insert (Tables.catalog_event n o s) (catalog_table ts)).1 ∧
    d = Devices.receipt_listener (Tables.wall_seen env) ch (Tables.ts_devices ts1)).
Proof using All.
  intros Hok Hmint Hw Hv Hacc Hwrite. destruct (mint_newer _ _ _ _ Hmint) as (Hnew & Hself & _ & _ & E1).
  pose proof (catalog_insert ts n o w s Hok Hw (λ u Hu, proj1 (Hnew u Hu)) Hacc) as Hins.
  set (d1 := Tables.ts_devices ts1) in *.
  assert (∀ u, passed (Tables.ts_devices ts) u → passed d1 u) as Hmono by (intros u Hu; by apply Hnew).
  assert (passed d1 s) as Hps.
  { apply Hself. destruct (to_clock _ Hok) as (k & Hk & _). by exists k. }
  revert Hwrite. unfold catalog_write, Tables.insert_internal. rewrite E1. cbn [Tables.ts_catalog Tables.set_devices Tables.ts_devices].
  destruct (Devices.require_access _ _ _) as [[]|e|] eqn:Ea.
  3: { unfold Devices.require_access in Ea. by destruct (Devices.has_access _ _ _). }
  2: { intros [= <- <-]. left. exists e, (catalog_table ts). split; [done|]. split; [apply rewritten_self|].
       split; [|done]. rewrite rewritten_self.
       apply rewritten_ok; [done|apply Hok|done|done|]. intros k row. by left. }
  unfold Tables.insert_unchecked. fold (catalog_table ts).
  destruct (Table.insert _ (catalog_table ts)) as [t' ri]. destruct Hins as (Hlog & Hcap & Hins).
  destruct ri as [[|ch]|e|]; [done| | |done].
  - destruct (to_handle _ Hok) as [_ ->]. destruct Hins as (Hev & Hn & Hother).
    intros Hd. right. set (d2 := Devices.receipt_listener (Tables.wall_seen env) ch d1).
    assert (passed d2 s) as Hps2 by (by apply receipt_passed).
    exists ch, t', d2. change (Tables.set_slot_table _ _ _ _) with (rewritten ts t' d1) in Hd.
    cbn [Tables.dispatch Tables.on_change] in Hd.
    change (Tables.set_devices _ (rewritten ts t' d1)) with (rewritten ts t' d2) in Hd.
    destruct (Tables.catalog_listener env ch (rewritten ts t' d2)) as [ts2 r0] eqn:Ecl.
    exists r0. split; [done|].
    split; [|split; [unfold declared; cbn; by rewrite Hn|split; [by apply declared_other|]]].
    + apply rewritten_ok; [done|done|done|intros u Hu; by apply receipt_passed, Hmono|].
      intros k row Hrow. destruct (decide (k = PK_String n)) as [->|Hk].
      * right. rewrite Hn in Hrow. injection Hrow as <-. split; [by eexists|].
        split; [by eapply written_row_ok|done].
      * left. by rewrite <- Hother.
    + destruct r0 as [[]|e|]; by injection Hd as <- <-.
  - intros [= <- <-]. left. exists (EIo e), t'. split; [done|].
    change (Tables.set_slot_table _ _ _ _) with (rewritten ts t' d1).
    split; [done|]. split; [|done]. apply rewritten_ok; try done.
    intros k row Hrow. left. by rewrite <- (Hins k).
Qed.

(** The log takes the event, at the stamp the clock gives it. *)
Definition writable env ts (ev : EventStamp → Event) : Prop :=
  ∀ ts1 s, Tables.mint env ts = (ts1, Ok s) → accepts (catalog_table ts) (ev s).

(** *** The listener *)
(** What [open] or [create] makes of a newly declared table, and of its
    directory. *)
Definition made ts n c : option Dir * io T :=
  match bt_get n (Tables.ts_dirs ts) with Some dir => open_table_at c dir | None => create_table c None end.
Definition materialized ts n c : io T := (made ts n c).2.
Definition opened n (t : T) : Slot :=
  Tables.SlotTable (Tables.add_listener Tables.ReceiptListener (Tables.new_handle n t false)).
Lemma core_ok_tables ts (slots : btree rstring Slot) : core_ok ts → bt_wf slots →
  (∀ n slot, bt_get n slots = Some slot → slot_ok n slot) →
  (bt_get TABLE_CATALOG_NAME slots = Some Tables.SlotCatalog ∧
   bt_get DEVICES_TABLE_NAME slots = Some Tables.SlotRegistry) →
  ∀ dirs, core_ok (Tables.set_tables slots (Tables.set_dirs dirs ts)).
Proof using All. intros [] ? ? ? ?. by constructor. Qed.
Lemma not_system_ne n : is_system_table n = false → n ≠ TABLE_CATALOG_NAME ∧ n ≠ DEVICES_TABLE_NAME.
Proof using All. split; intros ->; done. Qed.
Lemma open_declared_ok ts n c : core_ok ts → is_system_table n = false →
  let (ts', r) := Tables.open_declared n c ts in
  core_ok ts' ∧ Tables.ts_catalog ts' = Tables.ts_catalog ts ∧ Tables.ts_devices ts' = Tables.ts_devices ts ∧
  Tables.ts_dirs ts' = Tables.set_dir n (made ts n c).1 (Tables.ts_dirs ts) ∧
  Tables.ts_tables ts' = match materialized ts n c with
                         | Ok t => bt_insert n (opened n t) (Tables.ts_tables ts) | _ => Tables.ts_tables ts end ∧
  r = match materialized ts n c with Panic => Panic | _ => Ok tt end.
Proof using All.
  intros Hok Hsys. unfold Tables.open_declared, materialized. fold (made ts n c).
  destruct (made ts n c) as [dir mk]. cbn [fst snd].
  assert (∀ dirs, core_ok (Tables.set_dirs dirs ts)) as Hdirs by (intros; destruct Hok; by constructor).
  destruct mk as [t|e|]; [|by split_and!..]. split_and!; try done.
  destruct (not_system_ne n Hsys) as [Hn1 Hn2]. apply core_ok_tables; [done|apply bt_wf_insert, Hok| |].
  - intros m slot. bt_key m n; [|by apply Hok]. by intros [= <-].
  - rewrite !bt_get_insert_ne by congruence. apply Hok.
Qed.
Lemma close_deleted_ok env ts n h : core_ok ts → is_system_table n = false →
  bt_get n (Tables.ts_tables ts) = Some (Tables.SlotTable h) →
  let ts' := Tables.close_deleted env n ts in
  core_ok ts' ∧ Tables.ts_catalog ts' = Tables.ts_catalog ts ∧ Tables.ts_devices ts' = Tables.ts_devices ts ∧
  Tables.ts_tables ts' = bt_remove n (Tables.ts_tables ts) ∧
  Tables.ts_dirs ts' = Tables.set_dir n
    (if Tables.removable env then None else Some (table_leaves (bt_get n (Tables.ts_dirs ts)) (Tables.th_table h))) (Tables.ts_dirs ts).
Proof using All.
  intros Hok Hsys Hn. cbn zeta. unfold Tables.close_deleted. rewrite Hn. split; [|done].
  destruct (not_system_ne n Hsys) as [Hn1 Hn2].
  match goal with |- core_ok (Tables.set_dirs ?dirs _) =>
    refine (core_ok_tables ts (bt_remove n (Tables.ts_tables ts)) Hok _ _ _ dirs) end; [apply bt_wf_remove, Hok| |].
  - intros m slot'. bt_key m n; [done|]. by apply Hok.
  - rewrite !bt_get_remove_ne by congruence. apply Hok.
Qed.
Lemma mint_no_panic env ts ts' : core_ok ts → Tables.mint env ts ≠ (ts', Panic).
Proof using All.
  intros Hok Em. unfold Tables.mint in Em. pose proof (mint_spec (Tables.wall env) (Tables.ts_devices ts)) as Hms.
  destruct (to_clock _ Hok) as (k & Hk & _). rewrite Hk in Hms.
  by destruct Hms as [Hms|(? & _ & _ & Hms)]; rewrite Hms in Em.
Qed.
Lemma current_config_ok ts n : core_ok ts → Tables.current_config n ts = Ok (declared ts n).
Proof using All.
  intros Hok. unfold Tables.current_config, declared, catalog_table.
  destruct (Table.table_get _ (PK_String n)) as [r|] eqn:Er; [|done].
  destruct (to_rows _ Hok _ _ Er) as (_ & Hrow & _). unfold Tables.decode_catalog_row, row_config.
  destruct Hrow as [Hv|(c & Hv & Hc)]; cbn; rewrite Hv; [done|]. by rewrite codec_ok_decode.
Qed.

(** *** The catalog after a declaration and a deletion *)
(** The devices after a write to the catalog: the registry is not touched. *)
Definition same_roles d d' : Prop :=
  Devices.registry d' = Devices.registry d ∧ Devices.registry_cache d' = Devices.registry_cache d ∧ me d' = me d.
Lemma same_roles_role d d' p : same_roles d d' → role_of d' p = role_of d p.
Proof using Type. intros (_ & Hc & Hme). unfold role_of, Devices.get_device. unfold me in Hme. by rewrite Hc, Hme. Qed.
Lemma write_roles env ts ts1 s ch : Tables.mint env ts = (ts1, Ok s) →
  same_roles (Tables.ts_devices ts) (Devices.receipt_listener (Tables.wall_seen env) ch (Tables.ts_devices ts1)).
Proof using All.
  intros Em. destruct (mint_newer _ _ _ _ Em) as (_ & _ & _ & -> & _). 
  pose proof (mint_registry (Tables.wall env) (Tables.ts_devices ts)) as Hm. pose proof (mint_keeps (Tables.wall env) (Tables.ts_devices ts)) as Hk.
  destruct (Devices.mint _ _) as [d1 r]. destruct Hm as (M1 & M2 & M3). cbn [fst] in *.
  destruct (receipt_listener_registry (Tables.wall_seen env) ch d1) as [R1 R2].
  destruct (listener_keeps (Tables.wall_seen env) ch d1) as [Q1 Q2].
  repeat split; unfold me in *; congruence.
Qed.
Definition admin_here ts : bool := bool_decide (role_of (Tables.ts_devices ts) (me (Tables.ts_devices ts)) = Some Admin).
(** A write that failed: the rows, the handles and the directories are as
    before, and of the devices only the clock has moved. *)
Definition unwritten env ts ts' : Prop :=
  same_contents (catalog_table ts) (catalog_table ts') ∧ Tables.ts_tables ts' = Tables.ts_tables ts ∧
  Tables.ts_dirs ts' = Tables.ts_dirs ts ∧ Tables.ts_devices ts' = (Devices.mint (Tables.wall env) (Tables.ts_devices ts)).1.
Lemma mint_fails_unwritten env ts ts' r : Tables.mint env ts = (ts', r) → (∀ s, r ≠ Ok s) → ts' = ts ∧ unwritten env ts ts'.
Proof using All.
  intros Em Hr. pose proof (mint_fails _ _ _ _ Em Hr) as ->. split; [done|]. split_and!; try done.
  unfold Tables.mint in Em. destruct (Devices.mint _ _) as [d r']. apply (f_equal (λ x, Tables.ts_devices x.1)) in Em. by cbn in *.
Qed.
Lemma unwritten_ok ts t' d : tables_ok ts → core_ok (rewritten ts t' d) → same_contents (catalog_table ts) t' →
  tables_ok (rewritten ts t' d).
Proof using Type.
  intros [_ Hdecl] Hok Hsame. split; [done|]. intros m h Hm. destruct (Hdecl m h Hm) as [c Hc]. exists c.
  rewrite <- Hc. unfold declared, catalog_table. cbn. by rewrite Hsame.
Qed.
Lemma catalog_declared ts ts' : Tables.ts_catalog ts' = Tables.ts_catalog ts → ∀ m, declared ts' m = declared ts m.
Proof using Type. intros Hc m. unfold declared, catalog_table. by rewrite Hc. Qed.
Lemma alters_catalog ts ts' n o (f : rstring → option Cfg) : Tables.ts_catalog ts' = Tables.ts_catalog ts →
  alters n o f (declared ts) → alters n o f (declared ts').
Proof using Type.
  intros Hc [H1 H2]. pose proof (catalog_declared _ _ Hc) as Hd. split; [by rewrite Hd|]. intros m Hm. rewrite Hd. by apply H2.
Qed.
(** The catalog is the one an event at the minted stamp makes. *)
Definition wrote env n (o : Op) ts ts' : Prop := ∃ ts1 s, Tables.mint env ts = (ts1, Ok s) ∧
  catalog_table ts' = (Table.insert (Tables.catalog_event n o s) (catalog_table ts)).1.
(** What a declaration does to the handles and the directories: an open table
    keeps the configuration it was opened under. *)
Definition declares env n c ts ts' : Prop :=
  wrote env n (OpUpsert (Blob (encoded c))) ts ts' ∧ alters n (Some c) (declared ts) (declared ts') ∧ same_roles (Tables.ts_devices ts) (Tables.ts_devices ts') ∧
  match bt_get n (Tables.ts_tables ts) with
  | Some _ => Tables.ts_tables ts' = Tables.ts_tables ts ∧ Tables.ts_dirs ts' = Tables.ts_dirs ts
  | None => Tables.ts_dirs ts' = Tables.set_dir n (made ts n c).1 (Tables.ts_dirs ts) ∧
      Tables.ts_tables ts' = match materialized ts n c with
                             | Ok t => bt_insert n (opened n t) (Tables.ts_tables ts) | _ => Tables.ts_tables ts end
  end.
Lemma upsert_ok env n c ts : tables_ok ts → codec_ok c →
  writable env ts (Tables.catalog_event n (OpUpsert (Blob (encoded c)))) →
  let (ts', r) := Tables.upsert env n c ts in
  tables_ok ts' ∧
  if is_system_table n then ts' = ts ∧ r = Err (SystemTableReadOnly n)
  else if negb (admin_here ts) then ts' = ts ∧ r = Err PermissionDenied
  else if bool_decide (declared ts n = Some c) then ts' = ts ∧ r = Ok false
  else match r with
       | Ok b => b = true ∧ declares env n c ts ts'
       | Err _ => unwritten env ts ts'
       | Panic => bt_get n (Tables.ts_tables ts) = None ∧ materialized ts n c = Panic
       end.
Proof using All.
  intros Htok Hc Hacc. pose proof Htok as [Hok Hdecl]. unfold Tables.upsert, admin_here.
  destruct (is_system_table n) eqn:Hsys; [done|].
  rewrite has_admin. case_bool_decide as Hrole; cbn [negb]; [|done].
  rewrite current_config_ok by done. case_bool_decide as Hcur; [done|].
  destruct (Tables.mint env ts) as [ts1 rm] eqn:Em.
  destruct rm as [s|e|]; [|by destruct (mint_fails_unwritten _ _ _ _ Em ltac:(done)) as [-> ?]|by destruct (mint_no_panic _ _ _ Hok Em)].
  unfold Tables.write_entry. rewrite codec_ok_encode by done.
  destruct (Tables.insert_internal _ _ _ _ _ ts1) as [ts' r] eqn:Ew.
  assert (∀ v, OpUpsert (Blob (encoded c)) = OpUpsert v → ∃ c', v = Blob (encoded c') ∧ codec_ok c') as Hv
    by (intros v [= <-]; by exists c).
  destruct (catalog_write_ok env n (OpUpsert (Blob (encoded c))) _ s ts ts1 ts' r Hok Em eq_refl Hv (Hacc ts1 s Em) Ew)
    as [(e & t' & -> & -> & Hok' & Hsame)|(ch & t' & d & r0 & Hev & Hok1 & Hn & Hother & Hcl & -> & Ht' & ->)].
  { split; [by apply unwritten_ok|]. split_and!; [done..|]. by destruct (mint_newer _ _ _ _ Em) as (_ & _ & _ & ? & _). }
  assert (row_config (mkCell (Some (Blob (encoded c))) s) = Some c) as Hrow
    by (unfold row_config; cbn; by rewrite codec_ok_decode).
  rewrite Hrow in Hn. pose proof (write_roles _ _ _ _ ch Em) as Hroles.
  set (tsw := rewritten ts t' _) in *.
  change (same_roles (Tables.ts_devices ts) (Tables.ts_devices tsw)) in Hroles.
  assert (∀ x : Tbs, Tables.ts_catalog x = Tables.ts_catalog tsw → wrote env n (OpUpsert (Blob (encoded c))) ts x) as Hwrote
    by (intros x Hx; exists ts1, s; split; [done|]; rewrite <- Ht'; unfold catalog_table; by rewrite Hx).
  assert (alters n (Some c) (declared ts) (declared tsw)) as Halt by (by split).
  assert (∀ m h, bt_get m (Tables.ts_tables ts) = Some (Tables.SlotTable h) → is_Some (declared tsw m)) as Hdecl'.
  { intros m h Hm. destruct (decide (m = n)) as [->|Hmn]; [by rewrite Hn|]. rewrite Hother by done. by apply (Hdecl m h). }
  revert Hcl. unfold Tables.catalog_listener. rewrite Hev. cbn [Tables.catalog_event primary_key op].
  rewrite codec_ok_decode by done. unfold bt_contains, declares. change (Tables.ts_tables tsw) with (Tables.ts_tables ts).
  destruct (bt_get n (Tables.ts_tables ts)) as [slot|] eqn:En; cbn [is_some].
  { intros [= <- <-]. cbn [rmap]. split; [by split|]. split; [done|]. split; [by apply Hwrote|]. by split_and!. }
  pose proof (open_declared_ok tsw n c Hok1 Hsys) as Hod. change (materialized tsw n c) with (materialized ts n c) in Hod.
  change (made tsw n c) with (made ts n c) in Hod.
  intros Hcl. rewrite Hcl in Hod. destruct Hod as (Hok' & Hcat & Hdev & Hdir & Htb & ->).
  change (Tables.ts_tables tsw) with (Tables.ts_tables ts) in Htb.
  pose proof (alters_catalog _ _ _ _ _ Hcat Halt) as Halt'. rewrite <- Hdev in Hroles.
  assert (tables_ok ts') as Htok'.
  { split; [done|]. intros m h. rewrite Htb, (catalog_declared _ _ Hcat).
    destruct (materialized ts n c); [|by apply Hdecl'..]. bt_key m n; [by rewrite Hn|by apply Hdecl']. }
  split; [done|]. specialize (Hwrote ts' Hcat). destruct (materialized ts n c); cbn [rmap]; [by split_and!..|done].
Qed.

(** ** Properties *)

(** C5. Declaring a table, guard by guard: a system name is refused, then a caller
    that is not an admin, and the current configuration is a no-op, all
    without effect.  Otherwise a success makes the configuration the declared
    one and alters no other declaration nor the registry; a table that is open
    stays open as it is, under the configuration it was opened with; one that
    is not is opened or created in its directory, and when that fails
    the declaration stays without a handle.  No other handle and no other
    directory changes.  An error leaves every row of the catalog, handle and
    directory, and of the devices only the clock has moved; a panic is one
    of the opening. *)
Theorem tables_upsert env n c ts : tables_ok ts → codec_ok c →
  writable env ts (Tables.catalog_event n (OpUpsert (Blob (encoded c)))) →
  let (ts', r) := Tables.upsert env n c ts in
  tables_ok ts' ∧
  if is_system_table n then ts' = ts ∧ r = Err (SystemTableReadOnly n)
  else if negb (admin_here ts) then ts' = ts ∧ r = Err PermissionDenied
  else if bool_decide (declared ts n = Some c) then ts' = ts ∧ r = Ok false
  else match r with
       | Ok b => b = true ∧ declares env n c ts ts'
       | Err _ => unwritten env ts ts'
       | Panic => bt_get n (Tables.ts_tables ts) = None ∧ materialized ts n c = Panic
       end.
Proof using All. apply upsert_ok. Qed.

(** What a deletion does: the table is undeclared and closed, and its
    directory is removed, or left with the table's files where the system does
    not let it be removed. *)
Definition deletes env n h ts ts' : Prop :=
  wrote env n OpDelete ts ts' ∧ alters n None (declared ts) (declared ts') ∧ same_roles (Tables.ts_devices ts) (Tables.ts_devices ts') ∧
  Tables.ts_tables ts' = bt_remove n (Tables.ts_tables ts) ∧
  Tables.ts_dirs ts' = Tables.set_dir n
    (if Tables.removable env then None else Some (table_leaves (bt_get n (Tables.ts_dirs ts)) (Tables.th_table h))) (Tables.ts_dirs ts).
Lemma delete_ok env n ts : tables_ok ts → writable env ts (Tables.catalog_event n OpDelete) →
  let (ts', r) := Tables.delete_table env n ts in
  tables_ok ts' ∧
  if is_system_table n then ts' = ts ∧ r = Err (ResourceBusy n)
  else if negb (admin_here ts) then ts' = ts ∧ r = Err PermissionDenied
  else match bt_get n (Tables.ts_tables ts) with
       | Some (Tables.SlotTable h) =>
           if (0 <? Tables.th_holders h)%nat then ts' = ts ∧ r = Err (ResourceBusy n)
           else match r with
                | Ok b => b = true ∧ deletes env n h ts ts'
                | Err _ => unwritten env ts ts'
                | Panic => False
                end
       | _ => ts' = ts ∧ r = Ok false
       end.
Proof using All.
  intros Htok Hacc. pose proof Htok as [Hok Hdecl]. unfold Tables.delete_table, admin_here.
  destruct (is_system_table n) eqn:Hsys; [done|].
  rewrite has_admin. case_bool_decide as Hrole; cbn [negb]; [|done].
  destruct (bt_get n (Tables.ts_tables ts)) as [slot|] eqn:En; [|done].
  pose proof (to_slots _ Hok _ _ En) as Hslot. destruct (not_system_ne n Hsys) as [Hn1 Hn2].
  destruct slot as [| |h]; [done..|].
  change (1 <? Tables.strong_count _)%nat with (0 <? Tables.th_holders h)%nat.
  destruct (0 <? Tables.th_holders h)%nat; [done|].
  destruct (Tables.mint env ts) as [ts1 rm] eqn:Em.
  destruct rm as [s|e|]; [|by destruct (mint_fails_unwritten _ _ _ _ Em ltac:(done)) as [-> ?]|by destruct (mint_no_panic _ _ _ Hok Em)].
  destruct (Tables.insert_internal _ _ _ _ _ ts1) as [ts' r] eqn:Ew.
  destruct (catalog_write_ok env n OpDelete None s ts ts1 ts' r Hok Em eq_refl ltac:(done) (Hacc ts1 s Em) Ew)
    as [(e & t' & -> & -> & Hok' & Hsame)|(ch & t' & d & r0 & Hev & Hok1 & Hn & Hother & Hcl & -> & Ht' & ->)].
  { split; [by apply unwritten_ok|]. split_and!; [done..|]. by destruct (mint_newer _ _ _ _ Em) as (_ & _ & _ & ? & _). }
  cbn in Hn. pose proof (write_roles _ _ _ _ ch Em) as Hroles. set (tsw := rewritten ts t' _) in *.
  change (same_roles (Tables.ts_devices ts) (Tables.ts_devices tsw)) in Hroles.
  assert (∀ x : Tbs, Tables.ts_catalog x = Tables.ts_catalog tsw → wrote env n OpDelete ts x) as Hwrote
    by (intros x Hx; exists ts1, s; split; [done|]; rewrite <- Ht'; unfold catalog_table; by rewrite Hx).
  revert Hcl. unfold Tables.catalog_listener. rewrite Hev. cbn [Tables.catalog_event primary_key op].
  intros [= <- <-]. cbn [rmap]. destruct (close_deleted_ok env tsw n h Hok1 Hsys En) as (Hok' & Hcat & Hdev & Htb & Hdir).
  change (Tables.ts_tables tsw) with (Tables.ts_tables ts) in Htb. rewrite <- Hdev in Hroles.
  assert (alters n None (declared ts) (declared tsw)) as Halt by (by split).
  split; [split; [done|]|split; [done|]].
  - intros m h'. rewrite Htb, (catalog_declared _ _ Hcat). bt_key m n; [done|]. rewrite Hother by done. by apply Hdecl.
  - split; [by apply Hwrote|]. split; [by eapply alters_catalog|]. by split_and!.
Qed.

(** C20. Deleting a table, guard by guard: a system name is refused, then a caller
    that is not an admin; a name that is not open is a no-op, and a table with
    a handle outside is busy, all without effect.  Otherwise a success leaves
    the table undeclared and closed; its directory is gone where the system
    lets it be removed, and keeps the table's files where not; no other
    declaration, handle or directory changes.  An error leaves every row of
    the catalog, handle and directory, and of the devices only the clock has
    moved.  It never panics. *)
Theorem tables_delete env n ts : tables_ok ts → writable env ts (Tables.catalog_event n OpDelete) →
  let (ts', r) := Tables.delete_table env n ts in
  tables_ok ts' ∧
  if is_system_table n then ts' = ts ∧ r = Err (ResourceBusy n)
  else if negb (admin_here ts) then ts' = ts ∧ r = Err PermissionDenied
  else match bt_get n (Tables.ts_tables ts) with
       | Some (Tables.SlotTable h) =>
           if (0 <? Tables.th_holders h)%nat then ts' = ts ∧ r = Err (ResourceBusy n)
           else match r with
                | Ok b => b = true ∧ deletes env n h ts ts'
                | Err _ => unwritten env ts ts'
                | Panic => False
                end
       | _ => ts' = ts ∧ r = Ok false
       end.
Proof using All. apply delete_ok. Qed.

(** ** Opening the catalog again *)
Abbreviation catalog_rows := (list (PrimaryKey * Cell)).

Lemma decode_row_ok n r : row_ok r → Tables.decode_catalog_row (PK_String n) r = Ok (pair n <$> row_config r).
Proof using All.
  unfold Tables.decode_catalog_row, row_config. intros [Hv|(c & Hv & Hc)]; rewrite Hv; [done|].
  by rewrite codec_ok_decode.
Qed.
Lemma decode_rows_ok (rows : catalog_rows) :
  (∀ k r, (k, r) ∈ rows → (∃ n, k = PK_String n) ∧ row_ok r) → NoDup (map fst rows) →
  ∃ l, Tables.decode_rows rows = Ok l ∧ NoDup (map fst l) ∧
    ∀ n c, (n, c) ∈ l ↔ ∃ r, (PK_String n, r) ∈ rows ∧ row_config r = Some c.
Proof using All.
  induction rows as [|[k r] rows IH]; intros Hrows Hnd.
  { exists []. split; [done|]. split; [constructor|]. intros n c.
    split; [intros Hx|intros (? & Hx & _)]; by apply not_elem_of_nil in Hx. }
  destruct (Hrows k r ltac:(by left)) as [[n ->] Hr]. apply NoDup_cons in Hnd as [Hk Hnd].
  destruct IH as (l & Hl & Hndl & Hin); [intros; apply Hrows; by right|done|].
  cbn [Tables.decode_rows]. rewrite decode_row_ok by done. cbn [rbind]. rewrite Hl. cbn [rbind].
  assert (∀ c, (n, c) ∉ l) as Hfresh.
  { intros c [r' [Hr' _]]%Hin. apply Hk. apply list_elem_of_fmap. by exists (PK_String n, r'). }
  destruct (row_config r) as [c|] eqn:Ec; cbn [fmap option_fmap option_map].
  - eexists. split; [done|]. split.
    + cbn. apply NoDup_cons. split; [|done]. intros ([n' c'] & -> & Hx)%list_elem_of_fmap. by apply (Hfresh c').
    + intros m c'. rewrite elem_of_cons, Hin. split.
      * intros [[= -> ->]|(r' & Hr' & ?)]; [exists r; split; [by left|done]|exists r'; split; [by right|done]].
      * intros (r' & Hr' & Hc). apply elem_of_cons in Hr' as [[= -> ->]|?]; [left; congruence|right; by exists r'].
  - eexists. split; [done|]. split; [done|]. intros m c'. rewrite Hin. split.
    + intros (r' & Hr' & ?). exists r'. split; [by right|done].
    + intros (r' & Hr' & Hc). apply elem_of_cons in Hr' as [[= -> ->]|?]; [congruence|by exists r'].
Qed.
(** Opening the rows one after the other. *)
Definition opens c (dir : option Dir) (t : T) : Prop := (Tables.open_dir c dir).2 = Ok t.
Lemma open_tables_ok (l : list (rstring * Cfg)) (slots : btree rstring Slot) (dirs : btree rstring Dir) :
  NoDup (map fst l) →
  (∀ n c, (n, c) ∈ l → is_system_table n = false → ∃ t, opens c (bt_get n dirs) t) →
  ∃ slots' dirs', Tables.open_tables l slots dirs = Ok (slots', dirs') ∧
    (∀ n c t, (n, c) ∈ l → is_system_table n = false → opens c (bt_get n dirs) t →
      bt_get n slots' = Some (Tables.SlotTable (Tables.new_handle n t false))) ∧
    ∀ n, is_system_table n = true ∨ n ∉ map fst l → bt_get n slots' = bt_get n slots.
Proof using All.
  revert slots dirs. induction l as [|[n c] l IH]; intros slots dirs Hnd Hopen.
  { exists slots, dirs. split; [done|]. split; [|done]. intros ? ? ? Hx. by apply not_elem_of_nil in Hx. }
  cbn in Hnd. apply NoDup_cons in Hnd as [Hn Hnd]. cbn [Tables.open_tables].
  assert (∀ m c', (m, c') ∈ l → m ≠ n) as Hother.
  { intros m c' Hm ->. apply Hn. apply list_elem_of_fmap. by exists (n, c'). }
  destruct (is_system_table n) eqn:Hsys.
  - destruct (IH slots dirs Hnd) as (slots' & dirs' & Hl & Hin & Hout); [intros; apply Hopen; [by right|done]|].
    exists slots', dirs'. split; [done|]. split.
    + intros m c' t [[= -> ->]|Hm]%elem_of_cons Hm' Ht'; [congruence|by apply (Hin m c' t)].
    + intros m [Hm|Hm]; apply Hout; [by left|right]. by apply not_elem_of_cons in Hm as [_ ?].
  - destruct (Hopen n c ltac:(by left) Hsys) as [t Ht]. unfold opens in Ht.
    destruct (Tables.open_dir c (bt_get n dirs)) as [d r] eqn:Ed. cbn in Ht. subst r. cbn [lift_io map_err rbind].
    assert (∀ m, m ≠ n → bt_get m (Tables.set_dir n d dirs) = bt_get m dirs) as Hdirs
      by (intros m Hm; destruct d; cbn; by rewrite ?bt_get_insert_ne, ?bt_get_remove_ne).
    destruct (IH (bt_insert n (Tables.SlotTable (Tables.new_handle n t false)) slots) (Tables.set_dir n d dirs) Hnd)
      as (slots' & dirs' & Hl & Hin & Hout).
    { intros m c' Hm Hm'. rewrite Hdirs by (by eapply Hother). apply Hopen; [by right|done]. }
    exists slots', dirs'. split; [done|]. split.
    + intros m c' t' [[= -> ->]|Hm]%elem_of_cons Hm' Ht'.
      * unfold opens in Ht'. rewrite Ed in Ht'. injection Ht' as <-. rewrite Hout by (by right). apply bt_get_insert.
      * apply (Hin m c' t'); [done|done|]. by rewrite Hdirs by (by eapply Hother).
    + intros m Hm. rewrite Hout.
      * apply bt_get_insert_ne. destruct Hm as [Hm|Hm]; [congruence|]. by apply not_elem_of_cons in Hm as [? _].
      * destruct Hm as [Hm|Hm]; [by left|right]. by apply not_elem_of_cons in Hm as [_ ?].
Qed.
(** A row whose directory does not open stops the loop. *)
Lemma open_tables_needs (l : list (rstring * Cfg)) (slots : btree rstring Slot) (dirs : btree rstring Dir) n c x :
  NoDup (map fst l) → (n, c) ∈ l → is_system_table n = false →
  Tables.open_tables l slots dirs = Ok x → ∃ t, opens c (bt_get n dirs) t.
Proof using All.
  revert slots dirs. induction l as [|[m c'] l IH]; intros slots dirs Hnd Hin Hsys; [by apply not_elem_of_nil in Hin|].
  cbn in Hnd. apply NoDup_cons in Hnd as [Hm Hnd]. cbn [Tables.open_tables].
  apply elem_of_cons in Hin as [[= <- <-]|Hin].
  - rewrite Hsys. unfold opens. destruct (Tables.open_dir c _) as [d [t|e|]]; cbn; [by exists t|done..].
  - destruct (is_system_table m) eqn:Hsm; [by apply IH|].
    destruct (Tables.open_dir c' _) as [d [t|e|]]; cbn [lift_io map_err rbind]; [|done..].
    assert (n ≠ m) as Hne by (intros ->; apply Hm; apply list_elem_of_fmap; by exists (m, c)).
    intros Hx. apply IH in Hx; [|done..]. destruct d; cbn in Hx; by rewrite ?bt_get_insert_ne, ?bt_get_remove_ne in Hx.
Qed.
(** A table that opens keeps the kind of its state. *)
Lemma replay_kind fuel (t : T) : state_kind (Table.tb_state (Table.replay_loop fuel t).1) = state_kind (Table.tb_state t).
Proof using Hkind.
  revert t. induction fuel as [|fuel IH]; intros t; [done|]. cbn [Table.replay_loop].
  destruct (Topic.next _ _) as [[top h] [[ch|e|]|]]; [|done..]. unfold Table.replay_change.
  set (t1 := Table.set_recovery _ _). change (Table.tb_state t) with (Table.tb_state t1).
  destruct (Table.current_cell ch) as [c|].
  - pose proof (proj1 (Hkind (Table.tb_state t1)) (primary_key (Table.ch_event ch)) c) as Hk. unfold Table.on_state.
    destruct (put _ c (Table.tb_state t1)) as [s [[]|e|]]; cbn [and_then fst snd]; [by rewrite IH|done..].
  - pose proof (proj1 (proj2 (Hkind (Table.tb_state t1))) (primary_key (Table.ch_event ch))) as Hk. unfold Table.on_state.
    destruct (delete _ (Table.tb_state t1)) as [s [b|e|]]; cbn [and_then fst snd]; [by rewrite IH|done..].
Qed.
Lemma open_table_kind fuel (s : St) (c : Ca) max_bytes dir (off : Off) disk t :
  Table.open_table fuel s c max_bytes dir off disk = Ok t → state_kind (Table.tb_state t) = state_kind s.
Proof using Hkind.
  unfold Table.open_table. destruct (Topic.open_topic _ _ _ _) as [top|e|]; cbn [rbind]; [|done..].
  destruct (Topic.consumer _ top) as [top1 [h|e|]]; cbn [rbind]; [|done..]. unfold Table.replay_recovery.
  set (t0 := Table.mkTable s c 0 top1 h). pose proof (replay_kind fuel t0) as Hr.
  destruct (Table.replay_loop fuel t0) as [t1 [[]|e|]]; cbn [and_then fst snd]; [|done..]. cbn [fst] in Hr.
  unfold Table.on_state. pose proof (proj1 (proj2 (proj2 (proj2 (Hkind (Table.tb_state t1)))))) as Hs.
  destruct (sync (Table.tb_state t1)) as [s2 [[]|e|]]; cbn [and_then fst snd]; [|done..]. cbn [fst] in Hs.
  set (t2 := Table.set_state s2 t1). assert (state_kind (Table.tb_state t2) = state_kind s) as H2 by (cbn; by rewrite Hs, Hr).
  assert (Table.tb_state (Table.commit_recovery t2).1 = Table.tb_state t2) as Hc by (unfold Table.commit_recovery; by case_match).
  destruct (Table.commit_recovery t2) as [t3 [[]|e|]]; cbn [and_then fst snd]; [|done..]. cbn [fst] in Hc.
  unfold Table.on_topic. destruct (Topic.topic_sync _) as [top4 [[]|e|]]; cbn [rbind]; [|done..]. intros [= <-]. cbn. by rewrite Hc.
Qed.
Lemma rows_of (t : T) log ts : core_ok ts → table_ok t log → state_kind (Table.tb_state t) = Unordered → same_contents (catalog_table ts) t →
  ∃ l, Tables.decode_rows (Table.table_entries t) = Ok l ∧ NoDup (map fst l) ∧
    ∀ n c, (n, c) ∈ l ↔ declared ts n = Some c.
Proof using All.
  intros Hok Hlog Hun Hsame. destruct (unordered_entries t) as [Hnd Hget]; [|done|];
    [split; [by eapply backend_reads, ok_state|by eapply ok_cache]|].
  assert (∀ k r, (k, r) ∈ Table.table_entries t ↔ Table.table_get (catalog_table ts) k = Some r) as Hin.
  { intros k r. by rewrite <- Hsame, <- Hget, nodup_get by done. }
  destruct (decode_rows_ok (Table.table_entries t)) as (l & Hl & Hndl & Hl'); [|done|].
  { intros k r Hr%Hin. destruct (to_rows _ Hok _ _ Hr) as (? & ? & _). done. }
  exists l. split; [done|]. split; [done|]. intros n c. rewrite Hl'. unfold declared. split.
  - intros (r & Hr%Hin & Hc). by rewrite Hr.
  - intros Hd. destruct (Table.table_get (catalog_table ts) (PK_String n)) as [r|] eqn:Er; [|done].
    exists r. split; [by apply Hin|done].
Qed.

(** *** The directories of the open tables, and the tables they give back *)
(** [takes]: the state and the offsets accept what the replay of the change an
    event makes will write. *)
Class TableFilesLaws := {
  clean : option Dir → Prop;
  reopens : Cfg → T → Prop;
  takes : T → Event → Prop;
  create_clean c dir t : create_table c None = (dir, Ok t) → clean dir;
  open_clean c (old : Dir) dir t : open_table_at c old = (dir, Ok t) → clean dir;
  reopen_law c t dir : reopens c t → clean dir → ∃ t', opens c (Some (table_leaves dir t)) t' ∧
    same_contents t t' ∧ state_kind (Table.tb_state t') = config_kind (state_config c) ∧ ∃ log, table_ok t' log;
  reopens_ok c t : reopens c t → ∃ log, table_ok t log;
  reopens_back c t b : reopens c t → reopens c (back b t).1;
  reopens_insert c t ev : reopens c t → capacity (Table.tb_cache t) ≠ Some 0 → accepts t ev → takes t ev →
    reopens c (Table.insert ev t).1;
  create_law c dir t : create_table c None = (dir, Ok t) → reopens c t ∧ (∀ k, Table.table_get t k = None) ∧
    (max_buffered_records c ≠ 0 → capacity (Table.tb_cache t) ≠ Some 0);
}.
Context {TFL : TableFilesLaws}.
Lemma all_dirs_get ts n : bt_wf (Tables.ts_tables ts) →
  bt_get n (Tables.all_dirs ts) =
  match bt_get n (Tables.ts_tables ts) with
  | Some slot => Some (table_leaves (bt_get n (Tables.ts_dirs ts)) (Tables.slot_table slot ts))
  | None => bt_get n (Tables.ts_dirs ts)
  end.
Proof using All.
  unfold Tables.all_dirs. induction (Tables.ts_tables ts) as [|[m slot] l IH]; intros Hwf; [done|].
  destruct Hwf as [HF Hwf]. cbn [foldr Tables.set_dir fst snd bt_get].
  destruct (cmpP n m) as [->|Hne|Hne]; [apply bt_get_insert|..];
    (rewrite bt_get_insert_ne; [by apply IH|]; intros ->; by rewrite cmp_refl in Hne).
Qed.
Lemma listen_get (slots : btree rstring Slot) n :
  bt_get n (map (λ p, (p.1, Tables.listen p.2)) slots) = Tables.listen <$> bt_get n slots.
Proof using All. induction slots as [|[m slot] l IH]; [done|]. cbn. by destruct (cmp n m). Qed.
(** Every declared table is open, with a directory that gives it back under
    the declared configuration. *)
Record intact ts : Prop := {
  in_catalog : reopens SYSTEM_TABLE_CONFIG (catalog_table ts) ∧ clean (bt_get TABLE_CATALOG_NAME (Tables.ts_dirs ts));
  in_registry : reopens SYSTEM_TABLE_CONFIG (Devices.registry (Tables.ts_devices ts)) ∧
    clean (bt_get DEVICES_TABLE_NAME (Tables.ts_dirs ts));
  in_tables n c : declared ts n = Some c → is_system_table n = false →
    ∃ h, bt_get n (Tables.ts_tables ts) = Some (Tables.SlotTable h) ∧
      reopens c (Tables.th_table h) ∧ clean (bt_get n (Tables.ts_dirs ts));
}.

Lemma set_dir_ne n m (d : option Dir) (dirs : btree rstring Dir) : m ≠ n → bt_get m (Tables.set_dir n d dirs) = bt_get m dirs.
Proof using Type. intros Hm. destruct d; cbn; by rewrite ?bt_get_insert_ne, ?bt_get_remove_ne. Qed.
(** Opening the tables needs the directory of every declared one. *)
Lemma open_needs env n c ts (ps : Ps) (p : PeerId) : tables_ok ts → declared ts n = Some c → is_system_table n = false →
  bt_get n (Tables.ts_tables ts) = None → reopens SYSTEM_TABLE_CONFIG (catalog_table ts) →
  clean (bt_get TABLE_CATALOG_NAME (Tables.ts_dirs ts)) → (∀ t, ¬ opens c (bt_get n (Tables.ts_dirs ts)) t) →
  is_ok (Tables.open env (Tables.all_dirs ts) ps p) = false.
Proof using All.
  intros [Hok _] Hd Hsys Hn Hre Hcl Hno. destruct (reopen_law _ _ _ Hre Hcl) as (cat & Hcat & Hsame & Hkd & log & Hlog).
  destruct (to_system _ Hok) as [Hsc _]. destruct (not_system_ne n Hsys) as [Hn1 Hn2]. unfold Tables.open.
  destruct (Tables.open_dir _ (bt_get DEVICES_TABLE_NAME _)) as [d0 [reg|?|]]; cbn [lift_io map_err rbind]; [|done..].
  destruct (Devices.open _ reg ps p) as [dev|?|]; cbn [rbind]; [|done..].
  rewrite set_dir_ne, (all_dirs_get ts TABLE_CATALOG_NAME (to_tables _ Hok)), Hsc by done. cbn [Tables.slot_table].
  unfold opens in Hcat. fold (catalog_table ts).
  destruct (Tables.open_dir _ (Some (table_leaves _ (catalog_table ts)))) as [d1 r1]. cbn in Hcat. subst r1. cbn [lift_io map_err rbind].
  destruct (rows_of cat log ts Hok Hlog Hkd Hsame) as (l & -> & Hnd & Hl). cbn [rbind].
  destruct (Tables.open_tables l _ _) as [x|?|] eqn:Eo; [|done..]. exfalso.
  eapply open_tables_needs in Eo as [t' Ht']; [|exact Hnd|by apply Hl|done].
  rewrite !set_dir_ne, (all_dirs_get ts n (to_tables _ Hok)), Hn in Ht' by done. by apply (Hno t').
Qed.
(** *** What keeps the directories fit for reopening *)
Lemma advance_ok ts d : (∀ s, passed (Tables.ts_devices ts) s → passed d s) →
  Devices.registry d = Devices.registry (Tables.ts_devices ts) → tables_ok ts ∧ intact ts →
  tables_ok (Tables.set_devices d ts) ∧ intact (Tables.set_devices d ts).
Proof using Type.
  intros Hp Hreg [[[] Hdecl] []]. split; [split; [constructor; try done|done]|constructor; try done].
  - intros k r Hr. destruct (to_rows0 k r Hr) as (? & ? & ?). by auto.
  - by auto.
  - cbn. by rewrite Hreg.
Qed.
(** Declaring a new table that can be made, and deleting one. *)
Lemma wrote_catalog env n o ts ts' : tables_ok ts → intact ts → is_system_table n = false → wrote env n o ts ts' →
  writable env ts (Tables.catalog_event n o) →
  (∀ ts1 s, Tables.mint env ts = (ts1, Ok s) → takes (catalog_table ts) (Tables.catalog_event n o s)) →
  same_roles (Tables.ts_devices ts) (Tables.ts_devices ts') →
  (∀ m, m ≠ n → bt_get m (Tables.ts_dirs ts') = bt_get m (Tables.ts_dirs ts)) →
  (reopens SYSTEM_TABLE_CONFIG (catalog_table ts') ∧ clean (bt_get TABLE_CATALOG_NAME (Tables.ts_dirs ts'))) ∧
  reopens SYSTEM_TABLE_CONFIG (Devices.registry (Tables.ts_devices ts')) ∧ clean (bt_get DEVICES_TABLE_NAME (Tables.ts_dirs ts')).
Proof using All.
  intros [Hok _] [[Hcr Hcc] Hreg _] Hsys (ts1 & s & Em & ->) Hacc Htake (-> & _) Hdirs.
  destruct (not_system_ne n Hsys) as [Hn1 Hn2]. rewrite !Hdirs by congruence. split; [split; [|done]|done].
  apply reopens_insert; [done|apply Hok|by eapply Hacc|by eapply Htake].
Qed.
Lemma upsert_intact env n c ts ts' t : tables_ok ts → intact ts → codec_ok c →
  writable env ts (Tables.catalog_event n (OpUpsert (Blob (encoded c)))) →
  (∀ ts1 s, Tables.mint env ts = (ts1, Ok s) → takes (catalog_table ts) (Tables.catalog_event n (OpUpsert (Blob (encoded c))) s)) →
  bt_get n (Tables.ts_tables ts) = None → bt_get n (Tables.ts_dirs ts) = None → materialized ts n c = Ok t →
  Tables.upsert env n c ts = (ts', Ok true) → intact ts'.
Proof using All.
  intros Hok Hin Hc Hacc Htake Hn Hd Hmat Hup. pose proof (upsert_ok env n c ts Hok Hc Hacc) as Hu. rewrite Hup in Hu.
  destruct Hu as [_ Hu]. destruct (is_system_table n) eqn:Hsys; [by destruct Hu|]. destruct (negb _); [by destruct Hu|].
  case_bool_decide; [by destruct Hu|]. destruct Hu as (_ & Hw & [A1 A2] & Hr & Hu). rewrite Hn, Hmat in Hu. destruct Hu as [Hdirs Htb].
  destruct (wrote_catalog env n _ ts ts' Hok Hin Hsys Hw Hacc Htake Hr) as [Hcat Hreg].
  { intros m Hm. rewrite Hdirs. by apply set_dir_ne. }
  revert Hmat Hdirs. unfold materialized, made. rewrite Hd. destruct (create_table c None) as [d r] eqn:Ecr. cbn. intros -> Hdirs.
  destruct (create_law _ _ _ Ecr) as (Hre & _). pose proof (create_clean _ _ _ Ecr) as Hcl.
  constructor; [done..|]. intros m c' Hm Hsm. rewrite Htb, Hdirs. destruct (decide (m = n)) as [->|Hne].
  - rewrite A1 in Hm. injection Hm as <-. eexists. rewrite bt_get_insert. split; [done|]. split; [done|].
    destruct d; cbn; by rewrite ?bt_get_insert, ?bt_get_remove.
  - rewrite bt_get_insert_ne, set_dir_ne by done. rewrite A2 in Hm by done. by apply Hin.
Qed.
Lemma delete_intact env n ts ts' : tables_ok ts → intact ts → writable env ts (Tables.catalog_event n OpDelete) →
  (∀ ts1 s, Tables.mint env ts = (ts1, Ok s) → takes (catalog_table ts) (Tables.catalog_event n OpDelete s)) →
  Tables.delete_table env n ts = (ts', Ok true) → intact ts'.
Proof using All.
  intros Hok Hin Hacc Htake Hdel. pose proof (delete_ok env n ts Hok Hacc) as Hu. rewrite Hdel in Hu.
  destruct Hu as [_ Hu]. destruct (is_system_table n) eqn:Hsys; [by destruct Hu|]. destruct (negb _); [by destruct Hu|].
  destruct (bt_get n (Tables.ts_tables ts)) as [[| |h]|]; [by destruct Hu..| |by destruct Hu].
  destruct (0 <? _)%nat; [by destruct Hu|]. destruct Hu as (_ & Hw & [A1 A2] & Hr & Htb & Hdirs).
  destruct (wrote_catalog env n _ ts ts' Hok Hin Hsys Hw Hacc Htake Hr) as [Hcat Hreg].
  { intros m Hm. rewrite Hdirs. by apply set_dir_ne. }
  constructor; [done..|]. intros m c' Hm Hsm. rewrite Htb, Hdirs. destruct (decide (m = n)) as [->|Hne]; [by rewrite A1 in Hm|].
  rewrite bt_get_remove_ne, set_dir_ne by done. rewrite A2 in Hm by done. by apply Hin.
Qed.
(** A row of an application table. *)
Lemma replace_slot_ok ts n h c t : tables_ok ts → intact ts → bt_get n (Tables.ts_tables ts) = Some (Tables.SlotTable h) →
  declared ts n = Some c → reopens c t →
  let ts' := Tables.set_slot_table n (Tables.SlotTable h) t ts in
  tables_ok ts' ∧ intact ts' ∧ ∀ m, m ≠ n → bt_get m (Tables.ts_tables ts') = bt_get m (Tables.ts_tables ts).
Proof using All.
  intros [Hok Hdecl] [Hcat Hreg Happ] Hn Hc Hre. pose proof (to_slots _ Hok _ _ Hn) as (Hsys & Hs).
  destruct (Happ n c Hc Hsys) as (h' & Hh' & _ & Hcl). rewrite Hn in Hh'. injection Hh' as <-.
  destruct (not_system_ne n Hsys) as [Hn1 Hn2].
  assert (∀ m, m ≠ n → bt_get m (bt_insert n (Tables.SlotTable (Tables.set_table t h)) (Tables.ts_tables ts)) =
    bt_get m (Tables.ts_tables ts)) as Hother by (intros; by apply bt_get_insert_ne).
  split; [split|split; [|done]].
  - refine (core_ok_tables ts _ Hok _ _ _ (Tables.ts_dirs ts)).
    + apply bt_wf_insert, Hok.
    + intros m slot. bt_key m n; [by intros [= <-]|apply Hok].
    + rewrite !Hother by congruence. apply Hok.
  - intros m h' Hm. cbn in Hm. revert Hm. bt_key m n; [by eexists|apply Hdecl].
  - constructor; [done|done|]. intros m c' Hc' Hm. cbn. destruct (decide (m = n)) as [->|Hmn].
    + rewrite bt_get_insert. eexists. split; [done|]. change (declared ts n = Some c') in Hc'. rewrite Hc in Hc'. injection Hc' as <-. done.
    + rewrite Hother by done. by apply Happ.
Qed.
Lemma insert_intact env n h key path o ts ts' r : tables_ok ts → intact ts →
  bt_get n (Tables.ts_tables ts) = Some (Tables.SlotTable h) → capacity (Table.tb_cache (Tables.th_table h)) ≠ Some 0 →
  (∀ ts1 s, Tables.mint env ts = (ts1, Ok s) → let ev := mkEvent key path o s in
    accepts (Tables.th_table h) ev ∧ takes (Tables.th_table h) ev) →
  Tables.table_insert env n key path o ts = (ts', r) → tables_ok ts' ∧ intact ts'.
Proof using All.
  intros Hok Hin Hn Hcap Hacc. pose proof (to_slots _ (proj1 Hok) _ _ Hn) as (Hsys & _ & Hfl & Hlis).
  destruct (proj2 Hok n h Hn) as [c Hc]. destruct (in_tables _ Hin n c Hc Hsys) as (h' & Hh' & Hre & _).
  rewrite Hn in Hh'. injection Hh' as <-. unfold Tables.table_insert. rewrite Hn, Hfl.
  destruct (Devices.require_access _ _ Contributor) as [[]|e|]; [|by intros [= <- _]..].
  destruct (Tables.mint env ts) as [ts1 [s|e|]] eqn:Em;
    [|intros [= <- _]; by rewrite (mint_fails _ _ _ _ Em ltac:(done))..].
  destruct (mint_newer _ _ _ _ Em) as (Hnew & _ & _ & Hd1 & E1). destruct (Hacc ts1 s eq_refl) as [Ha Ht].
  assert (Devices.registry (Tables.ts_devices ts1) = Devices.registry (Tables.ts_devices ts)) as Hreg.
  { rewrite Hd1. pose proof (mint_registry (Tables.wall env) (Tables.ts_devices ts)) as Hm. by destruct (Devices.mint _ _), Hm as (_ & _ & ?). }
  assert (tables_ok ts1 ∧ intact ts1) as [Hok1 Hin1].
  { rewrite E1. apply advance_ok; [intros u Hu; by apply Hnew|done|done]. }
  unfold Tables.insert_internal. rewrite Hfl. destruct (Devices.require_access _ _ Contributor) as [[]|e|]; [|by intros [= <- _]..].
  unfold Tables.insert_unchecked. pose proof (reopens_insert _ _ _ Hre Hcap Ha Ht) as Hre'.
  destruct (Table.insert _ (Tables.th_table h)) as [t' ri]. cbn [fst] in Hre'.
  destruct (replace_slot_ok ts1 n h c t' Hok1 Hin1) as (Hok2 & Hin2 & _); [by rewrite E1|by rewrite E1|done|].
  destruct ri as [[|ch]|e|]; [by intros [= <- _]| |by intros [= <- _]..].
  rewrite Hlis. cbn [Tables.dispatch Tables.on_change].
  intros [= <- _]. apply advance_ok; [intros u; apply receipt_passed| |done].
  by destruct (listener_keeps (Tables.wall_seen env) ch (Tables.ts_devices (Tables.set_slot_table n (Tables.SlotTable h) t' ts1))).
Qed.

(** C22. A table that could not be made when it was declared: the declaration
    stays without a handle, so that neither declaring it again under the same
    configuration nor deleting it does anything.  If the process then ends,
    and what the attempt left in the directory does not open under the
    configuration, no table of the workspace opens any more: that is an error of the
    whole [open].  Only a declaration under another configuration tries again,
    and opens the table when it can be made under that one. *)
Theorem failed_create_sticks env n c ts ts' e : tables_ok ts → codec_ok c →
  writable env ts (Tables.catalog_event n (OpUpsert (Blob (encoded c)))) →
  bt_get n (Tables.ts_tables ts) = None → materialized ts n c = Err e →
  Tables.upsert env n c ts = (ts', Ok true) →
  declared ts' n = Some c ∧ (Tables.get_table n ts').2 = Err (ENotFound n) ∧
  (∀ env', Tables.delete_table env' n ts' = (ts', Ok false)) ∧
  (∀ env', Tables.upsert env' n c ts' = (ts', Ok false)) ∧
  (reopens SYSTEM_TABLE_CONFIG (catalog_table ts') → clean (bt_get TABLE_CATALOG_NAME (Tables.ts_dirs ts')) →
    (∀ t, ¬ opens c (bt_get n (Tables.ts_dirs ts')) t) →
    ∀ env' ps me, is_ok (Tables.open env' (Tables.all_dirs ts') ps me) = false) ∧
  (∀ env' c' t ts'' b, c' ≠ c → codec_ok c' → writable env' ts' (Tables.catalog_event n (OpUpsert (Blob (encoded c')))) →
    materialized ts' n c' = Ok t → Tables.upsert env' n c' ts' = (ts'', Ok b) →
    declared ts'' n = Some c' ∧ bt_get n (Tables.ts_tables ts'') = Some (opened n t)).
Proof using All.
  intros Hok Hc Hacc Hn Hmat Hup. pose proof (upsert_ok env n c ts Hok Hc Hacc) as Hu. rewrite Hup in Hu.
  destruct Hu as [Hok' Hu]. destruct (is_system_table n) eqn:Hsys; [by destruct Hu|].
  destruct (negb (admin_here ts)) eqn:Had; [by destruct Hu|]. case_bool_decide; [by destruct Hu|].
  destruct Hu as (_ & _ & [Hd _] & Hr & Hu). rewrite Hn, Hmat in Hu. destruct Hu as [_ Htb].
  assert (bt_get n (Tables.ts_tables ts') = None) as Hn' by (by rewrite Htb).
  assert (admin_here ts' = true) as Had'.
  { apply negb_false_iff in Had. rewrite <- Had. unfold admin_here. pose proof Hr as (_ & _ & Hme). by rewrite Hme, (same_roles_role _ _ _ Hr). }
  assert (role_of (Tables.ts_devices ts') (me (Tables.ts_devices ts')) = Some Admin) as Hrole by (by apply bool_decide_eq_true in Had').
  split; [done|]. split; [unfold Tables.get_table; by rewrite Hn'|]. split; [|split; [|split]].
  - intros env'. unfold Tables.delete_table. by rewrite Hsys, has_admin, bool_decide_true, Hn' by done.
  - intros env'. unfold Tables.upsert. rewrite Hsys, has_admin, bool_decide_true by done.
    by rewrite current_config_ok, Hd, bool_decide_true by apply Hok' || done.
  - intros Hre Hcl Hno env' ps me0. by eapply open_needs.
  - intros env' c' t ts'' b Hne Hc' Hacc' Hmat' Hup'. pose proof (upsert_ok env' n c' ts' Hok' Hc' Hacc') as Hu'. rewrite Hup' in Hu'.
    destruct Hu' as [_ Hu']. rewrite Hsys, Had' in Hu'. cbn [negb] in Hu'.
    rewrite bool_decide_false in Hu' by congruence. destruct Hu' as (_ & _ & [Hd' _] & _ & Hu').
    rewrite Hn', Hmat' in Hu'. destruct Hu' as [_ ->]. split; [done|]. apply bt_get_insert.
Qed.

(** *** A new catalog *)
Definition system_entry n (s : EventStamp) : Event :=
  Tables.catalog_event n (OpUpsert (Blob (encoded (SYSTEM_TABLE_CONFIG (Cb:=Cb) (Ck:=Ck) (Cs:=Cs))))) s.
Definition new_device p (name : rstring) now : Event :=
  Devices.device_event p (encoded (Devices.mkDevice name (Some Admin))) (mkEventStamp (mkEventId p 1) (mkEventTime now 0)).
Lemma first_row ev (t : T) log v : table_ok t log → capacity (Table.tb_cache t) ≠ Some 0 → (∀ k, Table.table_get t k = None) →
  accepts t ev → path ev = [] → op ev = OpUpsert v → cmp EventStamp_default (event_stamp ev) = Lt →
  is_ok (Table.insert ev t).2 = true →
  ∀ k, Table.table_get (Table.insert ev t).1 k =
    if bool_decide (k = primary_key ev) then Some (mkCell (Some v) (event_stamp ev)) else None.
Proof using Hkind BoundedLaws0.
  intros Hlog Hcap Hnone [Hst Hroom] Hpath Hop Hlt. pose proof (insert_ok Hkind ev t log Hlog Hcap Hst Hroom) as Hi.
  assert (insert_walk ev t = (mkCell (Some v) (event_stamp ev), Ok true)) as Hwalk.
  { unfold insert_walk. rewrite Hnone, Hpath, Hop. cbn [default from_option cell_apply_walk cell_apply incoming].
    assert ((event_stamp ev <=? EventStamp_default) = false) as Hle by (rewrite leb_gtb; apply negb_false_iff; by apply gtb_lt).
    cbn [stamp dummy]. by rewrite Hle. }
  destruct (Table.insert ev t) as [t' r]. destruct Hi as [Hi _]. cbn [fst snd].
  destruct r as [[|ch]|e|]; [by destruct Hi as [_ Hi]; rewrite Hwalk in Hi| |done..].
  destruct Hi as (-> & _ & [Hget _] & _). intros _ k. rewrite Hget. unfold change_of. cbn [change_key Table.ch_event Table.current_cell].
  rewrite Hwalk, Hnone. change (change_key _) with (primary_key ev). destruct (cmpP k (primary_key ev)) as [->|Hk|Hk];
    [by rewrite bool_decide_true|rewrite bool_decide_false; [done|]..]; intros ->; by rewrite cmp_refl in Hk.
Qed.

(** The same handle, on a table with the same rows. *)
Definition same_slot (o o' : option Slot) : Prop :=
  match o, o' with
  | Some (Tables.SlotTable h), Some (Tables.SlotTable h') =>
      Tables.th_name h' = Tables.th_name h ∧ Tables.th_is_system h' = Tables.th_is_system h ∧
      Tables.th_listeners h' = Tables.th_listeners h ∧ same_contents (Tables.th_table h) (Tables.th_table h')
  | Some slot, Some slot' => slot = slot'
  | None, None => True
  | _, _ => False
  end.
Lemma same_slot_refl o : same_slot o o.
Proof using Type. by destruct o as [[]|]. Qed.
Lemma same_slot_trans o1 o2 o3 : same_slot o1 o2 → same_slot o2 o3 → same_slot o1 o3.
Proof using Type.
  destruct o1 as [[| |h1]|], o2 as [[| |h2]|], o3 as [[| |h3]|]; try done.
  intros (? & ? & ? & E1) (? & ? & ? & E2). cbn. split_and!; [congruence..|]. intros k. by rewrite E2.
Qed.

(** *** [flush] and [sync] of every table *)
Record kept ts ts' : Prop := {
  kt_declared : same (declared ts) (declared ts');
  kt_catalog : same_contents (catalog_table ts) (catalog_table ts');
  kt_devices : ∃ reg, Tables.ts_devices ts' = Devices.set_registry reg (Tables.ts_devices ts) ∧
    same_contents (Devices.registry (Tables.ts_devices ts)) reg;
  kt_slots n : same_slot (bt_get n (Tables.ts_tables ts)) (bt_get n (Tables.ts_tables ts'));
}.
Lemma tables_kept_refl ts : kept ts ts.
Proof using Type. constructor; [done|done|exists (Devices.registry (Tables.ts_devices ts)); split; [by destruct (Tables.ts_devices ts)|done]|intros; apply same_slot_refl]. Qed.
Lemma tables_kept_trans ts1 ts2 ts3 : kept ts1 ts2 → kept ts2 ts3 → kept ts1 ts3.
Proof using Type.
  intros [D1 C1 (r1 & R1 & S1) L1] [D2 C2 (r2 & R2 & S2) L2]. constructor.
  - intros n. by rewrite D2.
  - intros k. by rewrite C2.
  - exists r2. rewrite R2, R1 in *. split; [done|]. intros k. rewrite S2. apply S1.
  - intros n. by eapply same_slot_trans.
Qed.
Lemma back_step b n slot ts : tables_ok ts → intact ts → bt_get n (Tables.ts_tables ts) = Some slot →
  let (t, r) := back b (Tables.slot_table slot ts) in
  let ts' := Tables.set_slot_table n slot t ts in
  r ≠ Panic ∧ tables_ok ts' ∧ intact ts' ∧ kept ts ts' ∧
  ∀ m, m ≠ n → bt_get m (Tables.ts_tables ts') = bt_get m (Tables.ts_tables ts).
Proof using All.
  intros [Hok Hdecl] [[Hcr Hcc] [Hrr Hrc] Happ] Hn. pose proof (to_slots _ Hok _ _ Hn) as Hs.
  destruct slot as [| |h]; cbn [Tables.slot_table].
  - destruct (reopens_ok _ _ Hcr) as [log Hlog]. pose proof (back_ok Hkind b _ log Hlog) as Hb.
    pose proof (reopens_back _ _ b Hcr) as Hre. fold (catalog_table ts).
    destruct (back b (catalog_table ts)) as [t r]. destruct Hb as (Hnp & Hlog' & Hsame & _ & Hcap & _). cbn [fst] in Hre.
    assert (same (declared ts) (declared (rewritten ts t (Tables.ts_devices ts)))) as Hd
      by (intros m; unfold declared, catalog_table; cbn; by rewrite Hsame).
    change (Tables.set_slot_table n Tables.SlotCatalog t ts) with (rewritten ts t (Tables.ts_devices ts)). split; [done|]. split; [split|split; [|split]].
    + apply rewritten_ok; [done|by exists log|done|done|]. intros k r'. rewrite Hsame. by left.
    + intros m h Hm. rewrite Hd. by apply (Hdecl m h).
    + constructor; [done|done|]. intros m c Hc. rewrite Hd in Hc. by apply Happ.
    + constructor; [done|done| |intros; apply same_slot_refl]. by apply (tables_kept_refl ts).
    + done.
  - destruct (reopens_ok _ _ Hrr) as [log Hlog]. pose proof (back_ok Hkind b _ log Hlog) as Hb.
    pose proof (reopens_back _ _ b Hrr) as Hre.
    destruct (back b _) as [t r]. destruct Hb as (Hnp & _ & Hsame & _). cbn [fst] in Hre.
    split; [done|]. split; [split|split; [|split]]; [by destruct Hok; constructor|done|by constructor| |done].
    constructor; [done|done|by exists t|intros; apply same_slot_refl].
  - destruct Hs as (Hsys & Hs). destruct (Hdecl n h Hn) as [c Hc]. destruct (Happ n c Hc Hsys) as (h' & Hh' & Hre & Hcl).
    rewrite Hn in Hh'. injection Hh' as <-. destruct (reopens_ok _ _ Hre) as [log Hlog].
    pose proof (back_ok Hkind b _ log Hlog) as Hb. apply (reopens_back _ _ b) in Hre.
    destruct (back b (Tables.th_table h)) as [t r]. destruct Hb as (Hnp & _ & Hsame & _). cbn [fst] in Hre.
    destruct (replace_slot_ok ts n h c t) as (H1 & H2 & H3); [by split|by constructor|done..|].
    split; [done|]. split; [exact H1|]. split; [exact H2|]. split; [|exact H3].
    constructor; [done|done|by apply (tables_kept_refl ts)|]. intros m. cbn. bt_key m n; [by rewrite Hn|apply same_slot_refl].
Qed.
Lemma tables_barrier b ts : tables_ok ts → intact ts →
  let (ts', r) := Tables.visit_tables (back b) (Tables.ts_tables ts) ts in
  r ≠ Panic ∧ tables_ok ts' ∧ intact ts' ∧ kept ts ts'.
Proof using All.
  intros Hok. pose proof (to_tables _ (proj1 Hok)) as Hwf.
  assert (∀ n slot, (n, slot) ∈ Tables.ts_tables ts → bt_get n (Tables.ts_tables ts) = Some slot) as Hl
    by (intros; by apply bt_In_get).
  revert Hok Hwf Hl. generalize (Tables.ts_tables ts) at 1 2 4. intros l. revert ts.
  induction l as [|[n slot] l IH]; intros ts Hok Hwf Hl Hin; [split_and!; [done..|apply tables_kept_refl]|].
  cbn [Tables.visit_tables]. pose proof (back_step b n slot ts Hok Hin (Hl n slot ltac:(by left))) as Hs.
  destruct (back b _) as [t r]. destruct Hs as (Hnp & Hok1 & Hin1 & Hk1 & Hother).
  destruct r as [[]|e|]; [|by split_and!|done]. destruct Hwf as [Hlt Hwf].
  specialize (IH _ Hok1 Hwf). destruct (Tables.visit_tables _ l _) as [ts2 r2].
  destruct IH as (? & ? & ? & Hk2); [|done|].
  - intros m slot' Hm. rewrite Hother; [by apply Hl; right|]. intros ->.
    rewrite Forall_forall in Hlt. specialize (Hlt _ Hm). cbn in Hlt. by rewrite cmp_refl in Hlt.
  - split_and!; [done..|]. by eapply tables_kept_trans.
Qed.

(** Opening the tables a process left: every declaration is found again, the
    open tables are the ones that were open, each has the rows it had, and the
    devices are opened on a registry with the same rows. *)
Lemma tables_reopen env ts (ps : Ps) (p : PeerId) : tables_ok ts → intact ts →
  (∀ reg log, same_contents (Devices.registry (Tables.ts_devices ts)) reg → table_ok reg log →
    state_kind (Table.tb_state reg) = Unordered → is_ok (Devices.open (Tables.wall env) reg ps p) = true) →
  ∃ ts', Tables.open env (Tables.all_dirs ts) ps p = Ok ts' ∧
    same (declared ts) (declared ts') ∧ same_contents (catalog_table ts) (catalog_table ts') ∧
    (∃ reg log, same_contents (Devices.registry (Tables.ts_devices ts)) reg ∧ table_ok reg log ∧ state_kind (Table.tb_state reg) = Unordered ∧
      Devices.open (Tables.wall env) reg ps p = Ok (Tables.ts_devices ts')) ∧
    ∀ n, same_slot (bt_get n (Tables.ts_tables ts)) (bt_get n (Tables.ts_tables ts')).
Proof using All.
  intros [Hok Hdecl] [[Hcr Hcc] [Hrr Hrc] Happ] Hdev. destruct (to_system _ Hok) as [Hsc Hsr].
  destruct (reopen_law _ _ _ Hrr Hrc) as (reg & Hreg & Hsreg & Hrk & rlog & Hrlog).
  destruct (reopen_law _ _ _ Hcr Hcc) as (cat & Hcat & Hscat & Hck & log & Hlog).
  unfold Tables.open. rewrite (all_dirs_get ts DEVICES_TABLE_NAME (to_tables _ Hok)), Hsr.
  cbn [Tables.slot_table]. unfold opens in Hreg, Hcat.
  destruct (Tables.open_dir _ (Some (table_leaves (bt_get DEVICES_TABLE_NAME _) _))) as [d0 r0]. cbn in Hreg. subst r0.
  cbn [lift_io map_err rbind]. specialize (Hdev reg rlog Hsreg Hrlog Hrk).
  destruct (Devices.open (Tables.wall env) reg ps p) as [dev|?|] eqn:Edev; [|done..]. cbn [rbind].
  assert (∀ m, m ≠ DEVICES_TABLE_NAME → bt_get m (Tables.set_dir DEVICES_TABLE_NAME d0 (Tables.all_dirs ts)) =
    bt_get m (Tables.all_dirs ts)) as Hd0 by (intros m Hm; destruct d0; cbn; by rewrite ?bt_get_insert_ne, ?bt_get_remove_ne).
  rewrite Hd0, (all_dirs_get ts TABLE_CATALOG_NAME (to_tables _ Hok)), Hsc by done. cbn [Tables.slot_table].
  fold (catalog_table ts).
  destruct (Tables.open_dir _ (Some (table_leaves (bt_get TABLE_CATALOG_NAME _) _))) as [d1 r1]. cbn in Hcat. subst r1.
  cbn [lift_io map_err rbind]. set (dirs := Tables.set_dir TABLE_CATALOG_NAME d1 _).
  assert (∀ m, is_system_table m = false → bt_get m dirs = bt_get m (Tables.all_dirs ts)) as Hd1.
  { intros m Hm. destruct (not_system_ne m Hm) as [Hm1 Hm2]. rewrite <- (Hd0 m Hm2). unfold dirs.
    destruct d1; cbn; by rewrite ?bt_get_insert_ne, ?bt_get_remove_ne. }
  destruct (rows_of cat log ts Hok Hlog Hck Hscat) as (l & -> & Hnd & Hl). cbn [rbind].
  assert (∀ n c, (n, c) ∈ l → is_system_table n = false → ∃ h t, bt_get n (Tables.ts_tables ts) = Some (Tables.SlotTable h) ∧
    opens c (bt_get n dirs) t ∧ same_contents (Tables.th_table h) t) as Hopen.
  { intros n c Hin%Hl Hsys. destruct (Happ n c Hin Hsys) as (h & Hh & Hre & Hcl).
    destruct (reopen_law _ _ _ Hre Hcl) as (t & Ht & Hst & _). exists h, t. split; [done|]. split; [|done].
    rewrite Hd1, (all_dirs_get ts n (to_tables _ Hok)), Hh by done. exact Ht. }
  destruct (open_tables_ok l Tables.system_slots dirs Hnd) as (slots & dirs' & -> & Hin & Hout).
  { intros n c Hn Hsys. destruct (Hopen n c Hn Hsys) as (h & t & _ & Ht & _). by exists t. }
  cbn [rbind]. eexists. split; [done|].
  assert (∀ k, Table.table_get cat k = Table.table_get (catalog_table ts) k) as Hsame by exact Hscat.
  split; [intros n; unfold declared, catalog_table; cbn; by rewrite Hsame|]. split; [exact Hsame|].
  split; [by exists reg, rlog|]. intros n. unfold Tables.register_listeners. cbn [Tables.ts_tables fst snd]. rewrite listen_get.
  destruct (is_system_table n) eqn:Hsys.
  - rewrite Hout by (by left). unfold is_system_table in Hsys. apply orb_true_iff in Hsys as [Hs|Hs];
      apply bool_decide_eq_true in Hs; subst n; [rewrite Hsc|rewrite Hsr]; done.
  - destruct (bt_get n (Tables.ts_tables ts)) as [slot|] eqn:En.
    + pose proof (to_slots _ Hok _ _ En) as Hslot. destruct (not_system_ne n Hsys) as [Hn1 Hn2].
      destruct slot as [| |h]; [done..|]. destruct (Hdecl n h En) as [c Hc]. apply Hl in Hc.
      destruct (Hopen n c Hc Hsys) as (h' & t & Hh' & Ht & Hst). rewrite En in Hh'. injection Hh' as <-.
      rewrite (Hin n c t Hc Hsys Ht). destruct Hslot as (_ & Hname & Hsy & Hlis). cbn. by rewrite Hname, Hsy, Hlis.
    + destruct (decide (n ∈ map fst l)) as [Hn|Hn].
      * apply list_elem_of_fmap in Hn as ([m c] & -> & Hc). cbn in *.
        destruct (Hopen m c Hc Hsys) as (h & t & Hh & _). congruence.
      * rewrite Hout by (by right). destruct (not_system_ne n Hsys) as [Hn1 Hn2].
        unfold Tables.system_slots. rewrite bt_get_insert_ne by done. cbn.
        by destruct (cmpP n DEVICES_TABLE_NAME).
Qed.
End Laws.

(** ** Directories keep the promise *)
(** An engine's bytes give its contents back; a new one has none. *)
Class EngineReopens (C B K V : Type) `{BackendLaws B K V} `{EngineFile C B} := {
  engine_reopens c b : backend_wf b → ∃ b', engine_open c (Some (RegularFile (engine_bytes b))) = Ok b' ∧
    backend_wf b' ∧ ∀ k, get b' k = get b k;
  engine_creates c b n : engine_create c None = (n, Ok b) → backend_wf b ∧ ∀ k, get b k = None;
}.
Section KeyDirReopens.
Context {K V : Type} `{TotalCmp K} `{CK : Codec K, CV : Codec V, !LawfulCodec K, !LawfulCodec V}.
#[export] Instance keydir_reopens : EngineReopens KeyDir.KeyDirConfig (KeyDir.KeyDir K) K V.
Proof.
  split.
  - intros c d (Hos & m & Hm & Hs). pose proof Hs as (log & [Hf _] & Hh).
    destruct (reopen_stores (KeyDir.kd_file d) log m c (filed_on_disk d log Hf) Hh) as (d' & Hd & Hs' & Hos' & _).
    exists d'. split; [exact Hd|]. split; [split; [done|by exists m]|].
    intros k. by rewrite (kd_get_wf d' m), (kd_get_wf d m).
  - intros c d n. cbn. intros [= _ Hd]. destruct (create_spec (V:=V) c (create_room c d Hd)) as (d' & Hd' & Hs & Hos & _).
    rewrite Hd in Hd'. injection Hd' as <-. split; [split; [done|by exists []]|].
    intros k. etransitivity; [by apply (kd_get_wf d [])|done].
Qed.
End KeyDirReopens.

Section DirectoryLaws.
Context `{L : Libp2p} {Cb Ck Cs Bp Kd Sk Ca Off : Type}.
Context `{EB : EngineFile Cb Bp} `{EK : EngineFile Ck Kd} `{EO : EngineFile Ck Off} (new_sk : Cs → Sk) (new_cache : nat → Ca).
Context `{Bp_b : Backend Bp PrimaryKey Cell, !BackendLaws Bp PrimaryKey Cell}.
Context `{Bp_d : Durable Bp, !DurableLaws Bp PrimaryKey Cell}.
Context `{Kd_b : Backend Kd PrimaryKey Cell, !BackendLaws Kd PrimaryKey Cell} `{Kd_d : Durable Kd, !DurableLaws Kd PrimaryKey Cell}.
Context `{Sk_b : Backend Sk PrimaryKey Cell, !BackendLaws Sk PrimaryKey Cell}.
Context `{Ca_b : Backend Ca PrimaryKey Cell, !BackendLaws Ca PrimaryKey Cell}.
Context `{Ca_c : Bounded Ca, !BoundedLaws Ca PrimaryKey Cell}.
Context `{Off_b : Backend Off rstring Z, !BackendLaws Off rstring Z} `{Off_d : Durable Off, !DurableLaws Off rstring Z}.
Context `{Cd : Codec Table.Change} (disk : nat).
Context `{RB : !EngineReopens Cb Bp PrimaryKey Cell} `{RK : !EngineReopens Ck Kd PrimaryKey Cell} `{RO : !EngineReopens Ck Off rstring Z}.
Abbreviation St := (State Bp Kd Sk (StateConfig Cb Ck Cs)).
Abbreviation T := (Table.Table St Ca Off).
Hypothesis Hsk : ∀ c, backend_wf (new_sk c) ∧ ∀ k, get (new_sk c) k = None.
Hypothesis Hca : ∀ n, backend_wf (new_cache n) ∧ (∀ k, get (new_cache n) k = None) ∧ capacity (new_cache n) = Some n.
(** The rows the states accept and the offsets the offset stores accept. *)
Context (fits : PrimaryKey → Cell → Prop) (offset_fits : rstring → Z → Prop).
Hypothesis Hrel : reliable (B:=St) fits backend_wf ∧ reliable (B:=Off) offset_fits backend_wf.
Hypothesis Hzero : offset_fits Table.RECOVERY_CONSUMER 0%Z.

(** A state of the engine its configuration names. *)
Definition matches (c : StateConfig Cb Ck Cs) (s : St) : Prop :=
  match c, s with
  | ConfigOrdered _, SOrdered _ _ | ConfigUnordered _, SUnordered _ _ | ConfigInMemory _, SInMemory _ _ => True
  | _, _ => False
  end.
Lemma state_reopens c (s : St) n : matches c s → backend_wf s →
  ∃ s' : St, open_state_at (Bp:=Bp) (Kd:=Kd) new_sk c (state_node n s) = Ok s' ∧ backend_wf s' ∧ state_kind s' = state_kind s ∧
  ∀ k, get s' k = durable s k.
Proof using All.
  destruct c as [b|k|m], s as [x cx|x cx|x cx]; try done; intros _ Hs; cbn in Hs.
  - destruct (engine_reopens b x Hs) as (x' & Hx & Hw & Hg). exists (SOrdered x' (ConfigOrdered b)).
    unfold open_state_at, state_node. cbn. rewrite Hx. by split_and!.
  - destruct (engine_reopens k x Hs) as (x' & Hx & Hw & Hg). exists (SUnordered x' (ConfigUnordered k)).
    unfold open_state_at, state_node. cbn. rewrite Hx. by split_and!.
  - exists (SInMemory (new_sk m) (ConfigInMemory m)). destruct (Hsk m) as [Hw Hg]. by split_and!.
Qed.
Lemma matches_config c (s : St) : matches c s → state_kind s = config_kind c.
Proof using Type. by destruct c, s. Qed.
Lemma matches_kind c (s s' : St) : matches c s → state_kind s' = state_kind s → matches c s'.
Proof using Type. by destruct c, s, s'. Qed.
Lemma state_creates c (s : St) n : create_state_at (Bp:=Bp) (Kd:=Kd) new_sk c None = (n, Ok s) →
  backend_wf s ∧ (∀ k, get s k = None) ∧ matches c s.
Proof using All.
  destruct c as [b|k|m]; cbn.
  - pose proof (engine_creates b) as He. destruct (engine_create b None) as [n' [x|e|]]; cbn; intros [= _ Hs]; try done.
    subst s. destruct (He x n' eq_refl). by split_and!.
  - pose proof (engine_creates k) as He. destruct (engine_create k None) as [n' [x|e|]]; cbn; intros [= _ Hs]; try done.
    subst s. destruct (He x n' eq_refl). by split_and!.
  - intros [= _ Hs]. subst s. destruct (Hsk m). by split_and!.
Qed.
(** Every record takes a byte of a file. *)
Lemma frames_long (vs : list Table.Change) : length vs ≤ length (frames vs).
Proof using All.
  unfold frames. induction vs as [|v vs IH]; [done|]. cbn [map concat length]. rewrite length_app, frame_length. lia.
Qed.
Lemma closed_long from segs (log : list Table.Change) to : closed from segs log to →
  length log ≤ length (concat (map Topic.seg_file segs)).
Proof using All.
  induction 1 as [|s vs segs log to (_ & Hf & _) _ _ IH]; [done|]. cbn. rewrite !length_app, Hf, length_app.
  pose proof (frames_long vs). lia.
Qed.
Lemma replay_fuel_enough (top : Topic.Topic Off) (log : list Table.Change) : topic_wf top log →
  length log < replay_fuel (files_of top []).
Proof using All.
  intros [(pre & act & plog & avs & E & -> & Hc & (_ & Hf & _) & _) _ _ _ _ _].
  unfold replay_fuel, files_of, Topic.active_segment. rewrite E, removelast_last, last_snoc, map_app, concat_app.
  rewrite map_map. cbn. rewrite !length_app, Hf, length_app. pose proof (frames_long avs).
  pose proof (closed_long _ _ _ _ Hc). cbn in *. change (map (λ x, Topic.seg_file x) pre) with (map Topic.seg_file pre). lia.
Qed.
(** A log the engines can replay. *)
Record logged (t : T) (log : list Table.Change) : Prop := {
  lg_ok : table_ok t log;
  lg_fits : Forall (change_fits fits) log;
  lg_offset : offset_fits Table.RECOVERY_CONSUMER (tail t);
}.
Lemma logged_insert (t : T) log ev : logged t log → capacity (Table.tb_cache t) ≠ Some 0 → accepts t ev →
  change_fits fits (change_of ev t) → offset_fits Table.RECOVERY_CONSUMER (tail t + 1)%Z →
  ∃ log', logged (Table.insert ev t).1 log'.
Proof using All.
  intros [Hlog Hf Ho] Hcap [Hst Hroom] Hch Hnext. pose proof (insert_ok state_kind_fixed ev t log Hlog Hcap Hst Hroom) as Hi.
  destruct (Table.insert ev t) as [t' r]. cbn [fst]. destruct Hi as [Hi _]. destruct r as [[|ch]|e|]; [|..|done].
  - destruct Hi as [-> _]. by exists log.
  - destruct Hi as (-> & _ & (_ & j & _ & Hok & Ht) & _). eexists. constructor; [exact Hok| |by rewrite Ht].
    apply Forall_app. split; [by apply Forall_drop|by constructor].
  - destruct Hi as (Hok & _ & Ht). exists log. constructor; [done..|by rewrite Ht].
Qed.
#[export] Instance directory_laws : TableFilesLaws (Cb:=Cb) (Ck:=Ck) (Cs:=Cs) (St:=St) (Ca:=Ca) (Off:=Off) (Dir:=TableDir)
  (TF:=table_files (Bp:=Bp) (Kd:=Kd) (Sk:=Sk) (Ca:=Ca) (Off:=Off) new_sk new_cache disk).
Proof using All.
  refine {| clean := λ dir, match dir with Some d => td_segments d = [] | None => True end;
    reopens := λ c t, (∃ log, logged t log) ∧ matches (state_config c) (Table.tb_state t);
    takes := λ t ev, change_fits fits (change_of ev t) ∧ offset_fits Table.RECOVERY_CONSUMER (tail t + 1)%Z |}.
  - intros c dir t. cbn. unfold create_table_at. cbn.
    destruct (create_state_at _ _ _) as [n [st|e|]]; [|done..].
    destruct (engine_create _ _) as [n2 [off|e|]]; [|done..]. by intros [= <- _].
  - intros c old dir t. cbn. unfold open_table_dir. destruct (open_state_at _ _ _) as [st|e|]; [|done..].
    destruct (engine_open _ _) as [off|e|]; [|done..]. by intros [= <- ->].
  - intros c t dir [[log [Hlog Hfits Hoff]] Hmatch] Hclean. unfold opens. cbn [Tables.open_dir open_table_at table_leaves table_files].
    unfold open_table_dir, dir_files. cbn [td_state td_segments td_offsets].
    destruct (state_reopens (state_config c) (Table.tb_state t) (td_state (default empty_dir dir)) Hmatch (ok_state _ _ Hlog))
      as (s' & -> & Hs' & Hk' & Hg').
    destruct (engine_reopens (B:=Off) (offsets_config (topic_config c)) (Topic.tp_offsets (Table.tb_topic t)) (ok_offs _ _ Hlog))
      as (off & -> & Ho' & Hog').
    assert (td_segments (default empty_dir dir) = []) as -> by (by destruct dir).
    rewrite (tw_stray _ _ (ok_topic _ _ Hlog)), !app_nil_r. cbn [snd].
    assert (crashed t [] s' (new_cache (max_buffered_records c)) (files_of (Table.tb_topic t) []) off) as Hcr.
    { constructor; [by split_and!|destruct (Hca (max_buffered_records c)) as (? & ? & _); by split|by split|done|apply torn_nil]. }
    assert (Z.to_nat (tail t - earliest t) < replay_fuel (files_of (Table.tb_topic t) [])) as Hfuel.
    { pose proof (replay_fuel_enough _ _ (ok_topic _ _ Hlog)). pose proof (topic_length _ _ (ok_topic _ _ Hlog)).
      unfold tail, earliest. lia. }
    pose proof (open_table_ok state_kind_fixed t log [] s' _ _ off (max_segment_bytes (topic_config c)) disk _ Hlog Hcr Hfuel)
      as (_ & Hok & Hisok).
    specialize (Hisok fits offset_fits (proj1 Hrel) Hfits (proj2 Hrel) Hoff).
    destruct (Table.open_table _ _ _ _ _ _ _) as [t'|e|] eqn:Eo; [|done..]. exists t'.
    destruct (Hok t' eq_refl) as (H1 & H2 & _). split; [done|]. split; [done|]. split; [|by exists log].
    rewrite (open_table_kind state_kind_fixed _ _ _ _ _ _ _ _ Eo), Hk'. by eapply matches_config.
  - intros c t [[log [Hlog _ _]] _]. by exists log.
  - intros c t b [[log [Hlog Hfits Hoff]] Hm]. pose proof (back_ok state_kind_fixed b t log Hlog) as Hb.
    destruct (back b t) as [t' r]. destruct Hb as (_ & Hok & _ & Hk & _ & Ht). cbn [fst]. split; [exists log; constructor; [done..|by rewrite Ht]|].
    by eapply matches_kind.
  - intros c t ev [[log Hlog] Hm] Hcap Hacc [Hch Hnext]. split; [by eapply logged_insert|].
    destruct (insert_keeps state_kind_fixed ev t log (lg_ok _ _ Hlog) Hcap) as [Hk _]. by eapply matches_kind.
  - intros c dir t. cbn [create_table table_files]. unfold create_table_at. cbn [default td_state td_segments td_offsets empty_dir existsb].
    pose proof (state_creates (state_config c)) as Hst. destruct (create_state_at _ _ _) as [n [st|e|]]; [|done..].
    destruct (Hst st n eq_refl) as (Hst1 & Hst2 & Hst3). pose proof (engine_creates (B:=Off) (offsets_config (topic_config c))) as Ho.
    destruct (engine_create _ _) as [n2 [off|e|]]; [|done..]. destruct (Ho off n2 eq_refl) as [Ho1 _]. intros [= _ Ht].
    destruct (Hca (max_buffered_records c)) as (Hc1 & Hc2 & Hc3).
    destruct (table_create_ok st _ _ off disk t Hst1 Hc1 Ho1 Hst2 Hc2 Ht) as (Hok & Hnone & Es & Ec).
    assert (tail t = 0%Z) as Htl.
    { revert Ht. unfold Table.create. destruct (Topic.create _ _ _) as [top|e|] eqn:Et; cbn [rbind]; [|done..].
      destruct (topic_create_ok _ _ _ _ Et) as (_ & Hcons & _ & Hn & _). unfold Topic.consumer. rewrite Hcons, lookup_empty.
      destruct (put _ _ _) as [o [[]|e|]]; cbn; [|done..]. intros [= <-]. exact Hn. }
    split; [split; [exists []; constructor; [done|by constructor|by rewrite Htl]|by rewrite Es]|]. split; [done|]. rewrite Ec, Hc3. congruence.
Qed.
End DirectoryLaws.
