(* ===== verification/Workspace.v ===== *)
(** * The workspace: [zendb-workspace/src/workspace.rs]

    A workspace is a directory with an identity file, a lock, the directory of
    the states and the one of the tables.  It owns the two catalogs; the state
    [_peers] is one handle, shared between the map of open states and
    [Devices]: [checkout] and [checkin] carry its contents from one to the
    other around the calls that use it. *)
From Stdlib Require Import Ascii String.
From stdpp Require Import base numbers option gmap sorting list.
From S2P Require Import Prelude Order BTreeMap WorkspaceId Stamp Value Backend Serdes KeyDir KeyDirLog KeyDirReplay KeyDirStore Topic TopicLog TopicLaws Table TableLaws TableRecovery TableReads State Receipts.
From S2P Require Import Devices DeviceLaws DeviceStore StateCatalog TableCatalog.
Import Devices(lift_io, Error(..)).
Import States(States, StateDir, mkStateDir).
Import Tables(Tables, Env).

(** The typed view of a handle of [_peers], a [State<PeerId, PeerState>]. *)
Class PeerHandle (Handle Ps : Type) := {
  as_peers : Handle → option Ps;
  with_peers : Ps → Handle → Handle;
}.

Module Workspace.
Section Workspace.
Context `{L : Libp2p} {Ty Cb Ck Cs File Handle Cat St Ca Off Ps Dir : Type} `{EqDecision Ty}.
Context `{EqDecision Cb, EqDecision Ck, EqDecision Cs, HasDefault Ck}.
Abbreviation SCfg := (StateConfig Cb Ck Cs).
Abbreviation TCfg := (TableConfig Cb Ck Cs).
Abbreviation T := (Table.Table St Ca Off).
Context `{SF : StateFiles Ty SCfg File Handle}.
Context `{Cat_b : Backend Cat rstring SCfg} `{Cat_d : Durable Cat} `{Cat_f : CatalogFile Cat File}.
Context `{St_b : Backend St PrimaryKey Cell} `{St_d : Durable St} `{St_k : HasKind St}.
Context `{Ca_b : Backend Ca PrimaryKey Cell} `{Ca_c : Bounded Ca}.
Context `{Off_b : Backend Off rstring Z} `{Off_d : Durable Off}.
Context `{Cd : Codec Table.Change} `{Cr : Codec Devices.DeviceRecord} `{Cc : Codec TCfg} `{Cw : Codec WorkspaceId.WorkspaceId}.
Context `{Ps_b : Backend Ps PeerId Devices.PeerState} `{Ps_d : Durable Ps} `{PH : PeerHandle Handle Ps}.
Context `{TF : TableFiles TCfg Dir T}.
(** The types of the catalog, of [State<(), ()>], and of [_peers]. *)
Context (catalog_ty unit_ty peers_ty : Ty).
Abbreviation Sts := (States (File:=File) (Handle:=Handle) (Cat:=Cat)).
Abbreviation Tbs := (Tables (St:=St) (Ca:=Ca) (Off:=Off) (Ps:=Ps) (Dir:=Dir)).
Abbreviation res A := (result Error A).

(** The directory of a workspace; [locked] while some workspace holds it. *)
Record Root := mkRoot {
  identity_file : option (list Z); locked : bool; states_dir : StateDir (File:=File); tables_dir : btree rstring Dir }.
Definition empty_root : Root := mkRoot None false (mkStateDir None []) [].
Definition set_identity bs (r : Root) := mkRoot bs (locked r) (states_dir r) (tables_dir r).
Definition set_locked b (r : Root) := mkRoot (identity_file r) b (states_dir r) (tables_dir r).
(** [PeerIdentity]: the local peer, and the name shown for it. *)
Record Identity := mkIdentity { id_peer : PeerId; id_name : rstring }.
Inductive Mode := Create | Open.
Record Workspace := mkWorkspace {
  workspace_id : WorkspaceId.WorkspaceId; identity_bytes : list Z; ws_states : Sts; ws_tables : Tbs }.
Implicit Types (w : Workspace).
Definition ws_devices w := Tables.ts_devices (ws_tables w).
Definition set_states s w := mkWorkspace (workspace_id w) (identity_bytes w) s (ws_tables w).
Definition set_tables t w := mkWorkspace (workspace_id w) (identity_bytes w) (ws_states w) t.
(** What the process leaves on disk. *)
Definition disk_of w : Root :=
  mkRoot (Some (identity_bytes w)) false (States.dir_of (ws_states w)) (Tables.all_dirs (ws_tables w)).

(** ** The shared handle of [_peers] *)
Definition peers_handle w : option States.StateHandle :=
  match bt_get PEERS_STATE_NAME (States.st_open (ws_states w)) with Some (States.Opened h) => Some h | _ => None end.
Definition checkout w : Workspace :=
  match peers_handle w ≫= (λ h, as_peers (States.sh_state h)) with
  | Some ps => set_tables (Tables.set_devices (Devices.set_peer_state ps (ws_devices w)) (ws_tables w)) w
  | None => w
  end.
Definition checkin w : Workspace :=
  match peers_handle w with
  | Some h =>
      set_states (States.set_open (bt_insert PEERS_STATE_NAME (States.Opened
        (States.mkStateHandle (States.sh_name h) (with_peers (Devices.peer_state (ws_devices w)) (States.sh_state h))
           (States.sh_is_system h) (States.holders h))) (States.st_open (ws_states w))) (ws_states w)) w
  | None => w
  end.
(** A call on the devices, on the tables, on the states. *)
Definition on_devices {A} (r : Devices.Devices St Ca Off Ps * res A) w : Workspace * res A :=
  (checkin (set_tables (Tables.set_devices r.1 (ws_tables w)) w), r.2).
Definition on_tables {A} (r : Tbs * res A) w : Workspace * res A := (set_tables r.1 w, r.2).
Definition on_states {A} (r : Sts * res A) w : Workspace * res A := (checkout (set_states r.1 w), r.2).
Definition ws_then {A B} (r : Workspace * res A) (f : Workspace → Workspace * res B) : Workspace * res B :=
  match r with
  | (w, Ok _) => f w
  | (w, Err e) => (w, Err e)
  | (w, Panic) => (w, Panic)
  end.

(** ** [flush] and [sync] *)
Definition ws_flush w : Workspace * res unit :=
  ws_then (on_devices (Devices.devices_flush (ws_devices w)) w) (λ w,
  ws_then (on_tables (Tables.tables_flush (ws_tables w)) w) (λ w,
  on_states (States.states_flush (ws_states w)) w)).
Definition ws_sync w : Workspace * res unit :=
  ws_then (on_devices (Devices.devices_sync (ws_devices w)) w) (λ w,
  ws_then (on_tables (Tables.tables_sync (ws_tables w)) w) (λ w,
  on_states (States.states_sync (ws_states w)) w)).
(** [Drop]: a best-effort flush; the lock goes with the workspace. *)
Definition drop_workspace w : Root := disk_of (ws_flush w).1.

(** ** [create], [open] and [join] *)
Definition already_open : Error := EAlreadyExists (rstr "workspace is already open").
Definition acquire_lock (root : Root) : res Root :=
  if locked root then Err already_open else Ok (set_locked true root).
(** The environment of the calls that [Tables::create] makes. *)
Context (env1 env2 env3 : Env).
Definition open_states (mode : Mode) (dir : StateDir) : StateDir * res Sts :=
  match mode with Create => States.create unit_ty dir | Open => (dir, States.open dir) end.
Definition open_tables (mode : Mode) (dirs : btree rstring Dir) (ps : Ps) (me : Identity) : btree rstring Dir * res Tbs :=
  match mode with
  | Create => Tables.create env1 env2 env3 dirs ps (id_peer me) (id_name me)
  | Open => (dirs, Tables.open env1 dirs ps (id_peer me))
  end.
(** Beside the result, what a failure leaves on disk. *)
Definition assemble (root : Root) (id : WorkspaceId.WorkspaceId) (bytes : list Z) (me : Identity) (mode : Mode) :
    Root * res Workspace :=
  let '(dir, r) := open_states mode (states_dir root) in
  let left dir dirs := mkRoot (identity_file root) false dir dirs in
  match r with
  | Ok s =>
      let '(s, r) := States.get_state catalog_ty peers_ty PEERS_STATE_NAME s in
      match r with
      | Ok (States.Opened h) =>
          match as_peers (States.sh_state h) with
          | Some ps =>
              let '(dirs, r) := open_tables mode (tables_dir root) ps me in
              (left (States.dir_of s) dirs, rmap (λ t, mkWorkspace id bytes s t) r)
          | None => (left (States.dir_of s) (tables_dir root), Panic)
          end
      | Ok States.TheCatalog => (left (States.dir_of s) (tables_dir root), Panic)
      | Err e => (left (States.dir_of s) (tables_dir root), Err e)
      | Panic => (left (States.dir_of s) (tables_dir root), Panic)
      end
  | Err e => (left dir (tables_dir root), Err e)
  | Panic => (left dir (tables_dir root), Panic)
  end.
(** [Workspace::create]; [fresh] is what [WorkspaceId::generate] draws. *)
Definition create (disk : option Root) (fresh : WorkspaceId.WorkspaceId) (me : Identity) : Root * res Workspace :=
  let root := default empty_root disk in
  match acquire_lock root with
  | Ok root' =>
      if is_some (identity_file root') then (root, Err (EAlreadyExists (rstr "workspace identity"))) else
      match serialize_to_vec fresh with
      | Ok bytes => assemble (set_identity (Some bytes) root') fresh bytes me Create
      | Err e => (root, Err (EIo e)) | Panic => (root, Panic)
      end
  | Err e => (root, Err e) | Panic => (root, Panic)
  end.
Definition open (disk : option Root) (me : Identity) : option Root * res Workspace :=
  match disk with
  | None => (None, Err (EIo NotFound))
  | Some root =>
      match acquire_lock root with
      | Ok root' =>
          match identity_file root' with
          | None => (Some root, Err (EIo NotFound))
          | Some bytes =>
              match deserialize_from bytes with
              | Ok id => let '(root, r) := assemble root' id bytes me Open in (Some root, r)
              | Err e => (Some root, Err (EIo e)) | Panic => (Some root, Panic)
              end
          end
      | Err e => (Some root, Err e) | Panic => (Some root, Panic)
      end
  end.
Definition join (disk : option Root) (id : WorkspaceId.WorkspaceId) (me : Identity) : Root * res Workspace :=
  let root := default empty_root disk in
  match acquire_lock root with
  | Ok root' =>
      match serialize_to_vec id with
      | Ok bytes => assemble (set_identity (Some bytes) root') id bytes me Create
      | Err e => (root, Err (EIo e)) | Panic => (root, Panic)
      end
  | Err e => (root, Err e) | Panic => (root, Panic)
  end.
End Workspace.
End Workspace.

(** ** The states of a new workspace, and [join] *)
Section Founding.
Context {Ty Cb Ck Cs File Handle Cat : Type} `{EqDecision Ty}.
Context `{EqDecision Cb, EqDecision Ck, EqDecision Cs, HasDefault Ck}.
Abbreviation SCfg := (StateConfig Cb Ck Cs).
Abbreviation TCfg := (TableConfig Cb Ck Cs).
Context `{SF : StateFiles Ty SCfg File Handle, !StateFilesLaws Ty SCfg File Handle}.
Context `{Cat_b : Backend Cat rstring SCfg, !BackendLaws Cat rstring SCfg}.
Context `{Cat_d : Durable Cat, !DurableLaws Cat rstring SCfg} `{Cat_f : CatalogFile Cat File, !CatalogFileLaws Cat SCfg File}.
Context `{L : Libp2p} {Ps : Type} `{Ps_b : Backend Ps PeerId Devices.PeerState, !BackendLaws Ps PeerId Devices.PeerState}.
Context `{Ps_d : Durable Ps} `{PH : PeerHandle Handle Ps}.
Context (catalog_ty unit_ty peers_ty : Ty).
Abbreviation Sts := (States (File:=File) (Handle:=Handle) (Cat:=Cat)).

(** What the workspace needs of a handle of [_peers]: it is on disk. *)
Class PeerHandleLaws := {
  filed : Ps → Prop;
  filed_put p v (ps : Ps) : filed ps → filed (put p v ps).1;
  filed_back (b : bool) (ps : Ps) : filed ps → filed (if b then flush ps else sync ps).1;
  peers_with (ps ps' : Ps) (h : Handle) : as_peers h = Some ps →
    as_peers (with_peers ps' h) = Some ps' ∧ handle_ty (with_peers ps' h) = handle_ty h;
  peers_back (b : bool) (h : Handle) (ps : Ps) : as_peers h = Some ps → backend_wf ps → filed ps →
    ∃ ps', as_peers (if b then flush_state h else sync_state h).1 = Some ps' ∧ backend_wf ps' ∧ filed ps' ∧
    ∀ p, get ps' p = get ps p;
  peers_reopen (h : Handle) (ps : Ps) n : as_peers h = Some ps → backend_wf ps → filed ps →
    ∃ h' ps', open_state peers_ty SYSTEM_STATE_CONFIG (on_path n h) = Ok h' ∧ as_peers h' = Some ps' ∧
    backend_wf ps' ∧ ∀ p, get ps' p = get ps p;
  peers_create n n' (h : Handle) : create_state unit_ty SYSTEM_STATE_CONFIG n = (n', Ok h) →
    ∃ h' ps, open_state peers_ty SYSTEM_STATE_CONFIG (on_path n' h) = Ok h' ∧ as_peers h' = Some ps ∧
    backend_wf ps ∧ filed ps ∧ ∀ p, get ps p = None;
}.
Context {PHL : PeerHandleLaws}.
Lemma get_peers (s : Sts) h' : states_ok s →
  (States.get_state catalog_ty peers_ty PEERS_STATE_NAME s).2 =
    Ok (States.Opened (States.mkStateHandle PEERS_STATE_NAME h' true 1)) →
  let s' := (States.get_state catalog_ty peers_ty PEERS_STATE_NAME s).1 in
  states_ok s' ∧ ∀ n, get (States.st_catalog s') n = get (States.st_catalog s) n.
Proof using All.
  intros Hok Hr. pose proof (get_simulates catalog_ty unit_ty s peers_ty PEERS_STATE_NAME Hok) as [H1 _].
  revert Hr H1. cbn [sop_step]. unfold States.get_state. destruct (bt_get _ _) as [slot|].
  - by case_bool_decide.
  - destruct (get _ _) as [c|]; [|done]. by destruct (open_state _ _ _).
Qed.

(** The two steps of [assemble] on the states, when they succeed. *)
Lemma states_founded dir dir' (s : Sts) : States.create unit_ty dir = (dir', Ok s) →
  (∀ n, bt_get n (States.sd_files dir) ≠ Some Directory) →
  ∃ s' h ps, States.get_state catalog_ty peers_ty PEERS_STATE_NAME s = (s', Ok (States.Opened h)) ∧
    states_ok s' ∧ bt_get PEERS_STATE_NAME (States.st_open s') = Some (States.Opened h) ∧
    as_peers (States.sh_state h) = Some ps ∧ backend_wf ps ∧ filed ps ∧ (∀ p, get ps p = None) ∧
    ∀ n, get (States.st_catalog s') n = if is_system_state n then Some SYSTEM_STATE_CONFIG else None.
Proof using All.
  intros Hc Hdir. destruct (states_create_ok unit_ty unit_ty _ _ _ Hc (Hdir _) Hdir) as [Hs Hcat].
  assert (States.st_open s = States.first_slots ∧ ∃ n n' h, create_state unit_ty SYSTEM_STATE_CONFIG n = (n', Ok h) ∧
    bt_get PEERS_STATE_NAME (States.st_files s) = on_path n' h) as (Hopen & n & n' & h & Hcr & Hfile).
  { revert Hc. unfold States.create. destruct create_catalog as [cat|e|]; [|done..].
    set (n := bt_get PEERS_STATE_NAME (States.sd_files dir)).
    destruct (create_state unit_ty SYSTEM_STATE_CONFIG n) as [n' [h|e|]] eqn:Ec; [|by intros [=]..].
    destruct (and_then _ _) as [cat2 [[]|e|]]; [|by intros [=]..]. intros [= _ <-]. split; [done|]. exists n, n', h.
    split; [done|]. cbn. destruct (on_path n' h); cbn; by rewrite ?bt_get_insert, ?bt_get_remove. }
  destruct (peers_create n n' h Hcr) as (h' & ps & Ho & Has & Hwf & Hfl & Hnone).
  pose proof (get_peers s h' Hs) as Hgp. revert Hgp. unfold States.get_state. rewrite Hopen, Hcat, Hfile.
  change (is_system_state PEERS_STATE_NAME) with true. cbn. rewrite Ho. intros Hgp. destruct (Hgp eq_refl) as [Hs' _].
  eexists _, _, ps. split; [done|]. split; [done|]. split; [reflexivity|]. by split_and!.
Qed.

(** The directory of a registry that still has its first segment is not created
    a second time. *)
Context {Bp Kd Sk Ca Off : Type} `{EB : EngineFile Cb Bp} `{EK : EngineFile Ck Kd} `{EO : EngineFile Ck Off}.
Context (new_sk : Cs → Sk) (new_cache : nat → Ca).
Abbreviation St := (State Bp Kd Sk SCfg).
Context `{St_b : Backend St PrimaryKey Cell} `{St_d : Durable St} `{St_k : HasKind St}.
Context `{Ca_b : Backend Ca PrimaryKey Cell} `{Ca_c : Bounded Ca} `{Off_b : Backend Off rstring Z} `{Off_d : Durable Off}.
Context `{Cd : Codec Table.Change} `{Cr : Codec Devices.DeviceRecord} `{Cc : Codec TCfg} `{Cw : Codec WorkspaceId.WorkspaceId} (disk : nat).
Abbreviation dirs_on_disk := (table_files (Bp:=Bp) (Kd:=Kd) (Sk:=Sk) (Ca:=Ca) (Off:=Off) new_sk new_cache disk).
Definition first_segment (d : TableDir) : bool := existsb (λ p, (p.1 =? 0)%Z) (td_segments d).
Lemma files_first (top : Topic.Topic Off) (log : list Table.Change) : topic_wf top log →
  ∃ f rest, files_of top [] = (Topic.earliest_offset (Topic.tp_stats top), f) :: rest.
Proof using Type.
  intros [(pre & act & plog & avs & E & _ & Hc & _) _ _ _ _ _]. unfold files_of, Topic.active_segment.
  rewrite E, removelast_last, last_snoc. destruct Hc as [from|sg vs segs l to]; by eexists _, _.
Qed.
(** What a workspace leaves of a registry whose topic retains its first offset. *)
Lemma first_segment_left (t : Table.Table St Ca Off) (log : list Table.Change) old :
  topic_wf (Table.tb_topic t) log → Topic.earliest_offset (Topic.tp_stats (Table.tb_topic t)) = 0%Z →
  first_segment (table_leaves (TableFiles:=dirs_on_disk) old t) = true.
Proof using Type.
  intros Hw He. destruct (files_first _ _ Hw) as (f & rest & Hf). unfold first_segment. cbn. unfold dir_files. cbn.
  by rewrite Hf, He.
Qed.
Lemma create_refused (c : TCfg) (d : TableDir) : first_segment d = true →
  let r := (create_table (TableFiles:=dirs_on_disk) c (Some d)).2 in
  is_ok r = false ∧ (is_ok (create_state_at (Bp:=Bp) (Kd:=Kd) new_sk (state_config c) (td_state d)).2 = true →
    is_ok (engine_create (B:=Off) (offsets_config (topic_config c)) (td_offsets d)).2 = true → r = Err AlreadyExists).
Proof using Type.
  unfold first_segment. intros Hs. cbn. unfold create_table_at. cbn [default].
  destruct (create_state_at _ _ _) as [n [st|e|]]; cbn; [|done..].
  destruct (engine_create _ _) as [n2 [off|e|]]; cbn; [|done..]. by rewrite Hs.
Qed.

(** C21. [join] on the directory of a workspace, as long as the topic of its registry
    still has its first segment: [create] refuses and touches nothing, [join]
    does not look.  It replaces the identity, and never succeeds; when the
    states can be created it has emptied the catalog of states, and then fails because the
    directory of the registry cannot be created a second time.  The old
    workspace is left under the new identity, without its declarations of
    states. *)
Theorem join_overwrites (env1 env2 env3 : Env) (root : Workspace.Root) bytes (d : TableDir) (id fresh : WorkspaceId.WorkspaceId)
    (who : Workspace.Identity) :
  Workspace.locked root = false → Workspace.identity_file root = Some bytes → codec_ok id →
  bt_get DEVICES_TABLE_NAME (Workspace.tables_dir root) = Some d → first_segment d = true →
  Workspace.create (TF:=dirs_on_disk) (Ps:=Ps) catalog_ty unit_ty peers_ty env1 env2 env3 (Some root) fresh who =
    (root, Err (EAlreadyExists (rstr "workspace identity"))) ∧
  let (root', r) := Workspace.join (TF:=dirs_on_disk) (Ps:=Ps) catalog_ty unit_ty peers_ty env1 env2 env3 (Some root) id who in
  is_ok r = false ∧ Workspace.identity_file root' = Some (encoded id) ∧
  ∀ sdir (s : Sts), (∀ n, bt_get n (States.sd_files (Workspace.states_dir root)) ≠ Some Directory) →
    States.create unit_ty (Workspace.states_dir root) = (sdir, Ok s) →
    (∃ s' : Sts, States.open (Workspace.states_dir root') = Ok s' ∧
      ∀ n, get (States.st_catalog s') n = if is_system_state n then Some SYSTEM_STATE_CONFIG else None) ∧
    (is_ok (engine_create (B:=Kd) (default_of : Ck) (td_state d)).2 = true →
     is_ok (engine_create (B:=Off) (default_of : Ck) (td_offsets d)).2 = true → r = Err (EIo AlreadyExists)).
Proof using All.
  intros Hl Hid Hc Hd Hseg. unfold Workspace.create, Workspace.join, Workspace.acquire_lock. change (default Workspace.empty_root (Some root)) with root. rewrite Hl.
  split; [cbn; by rewrite Hid|]. rewrite codec_ok_encode by done.
  unfold Workspace.assemble, Workspace.open_states, Workspace.open_tables.
  cbn [Workspace.set_identity Workspace.set_locked Workspace.states_dir Workspace.tables_dir Workspace.identity_file].
  destruct (create_refused SYSTEM_TABLE_CONFIG d Hseg) as [Hno Hex].
  assert (is_ok (create_state_at (Bp:=Bp) (Kd:=Kd) new_sk (state_config (SYSTEM_TABLE_CONFIG : TCfg)) (td_state d)).2 =
    is_ok (engine_create (B:=Kd) (default_of : Ck) (td_state d)).2) as Hsame.
  { unfold create_state_at. cbn. clear; by destruct (engine_create default_of (td_state d)) as [? []]. }
  assert (∀ ps : Ps, let r := (Tables.create (TF:=dirs_on_disk) env1 env2 env3 (Workspace.tables_dir root) ps (Workspace.id_peer who) (Workspace.id_name who)).2 in
    is_ok r = false ∧ (is_ok (engine_create (B:=Kd) (default_of : Ck) (td_state d)).2 = true →
     is_ok (engine_create (B:=Off) (default_of : Ck) (td_offsets d)).2 = true → r = Err (EIo AlreadyExists))) as Ht.
  { intros ps. unfold Tables.create. rewrite Hd. destruct (create_table _ (Some d)) as [d' r]. cbn [snd] in *.
    destruct r as [t|e|]; [done|..]; (split; [done|]); intros H1 H2; specialize (Hex ltac:(by rewrite Hsame) H2); cbn; congruence. }
  destruct (States.create unit_ty _) as [sdir [s|e|]] eqn:Es; [|by split_and!..].
  destruct (States.get_state _ _ _ s) as [s' r] eqn:Eg.
  assert ((∀ n, bt_get n (States.sd_files (Workspace.states_dir root)) ≠ Some Directory) → ∃ h ps, r = Ok (States.Opened h) ∧
    as_peers (States.sh_state h) = Some ps ∧ ∃ s2 : Sts, States.open (States.dir_of s') = Ok s2 ∧
    ∀ n, get (States.st_catalog s2) n = if is_system_state n then Some SYSTEM_STATE_CONFIG else None) as Hfound.
  { intros Hdir. destruct (states_founded _ _ _ Es Hdir) as (s1 & h & ps & Eg' & Hs' & _ & Has & _ & _ & _ & Hcat).
    rewrite Eg in Eg'. injection Eg' as -> ->. exists h, ps. split; [done|]. split; [done|].
    destruct (states_reopen catalog_ty unit_ty _ Hs') as (s2 & Ho & _ & Hdecl & _). exists s2. split; [exact Ho|].
    intros n. rewrite <- Hcat. apply Hdecl. }
  destruct r as [[|h]|e|]; [..|split; [done|]; split; [done|]; intros ? ? Hdir; by destruct (Hfound Hdir) as (? & ? & ? & _)].
  1,3: split; [done|]; split; [done|]; intros ? ? Hdir; by destruct (Hfound Hdir) as (? & ? & ? & _).
  destruct (as_peers (States.sh_state h)) as [ps|] eqn:Eps.
  2: { split; [done|]; split; [done|]; intros ? ? Hdir. destruct (Hfound Hdir) as (h2 & ps & [= <-] & Has & _). congruence. }
  destruct (Ht ps) as [Hno' Hex']. destruct (Tables.create _ _ _ _ ps _ _) as [dirs' r]. cbn [snd] in *.
  destruct r as [t|e|]; [done|..]; (split; [done|]; split; [done|]; intros sdir2 s2 Hdir _;
    destruct (Hfound Hdir) as (_ & _ & _ & _ & Hf); split; [exact Hf|]; intros H1 H2; by rewrite (Hex' H1 H2)).
Qed.
End Founding.
Arguments filed {_ _ _ _ _ _ _ _ _ _ _ _ _ _ _ _ _} _.
Arguments filed_put {_ _ _ _ _ _ _ _ _ _ _ _ _ _ _ _ _} _ _ _ _.
Arguments filed_back {_ _ _ _ _ _ _ _ _ _ _ _ _ _ _ _ _} _ _ _.
Arguments peers_with {_ _ _ _ _ _ _ _ _ _ _ _ _ _ _ _ _} _ _ _ _.
Arguments peers_back {_ _ _ _ _ _ _ _ _ _ _ _ _ _ _ _ _} _ _ _ _ _ _.
Arguments peers_reopen {_ _ _ _ _ _ _ _ _ _ _ _ _ _ _ _ _} _ _ _ _ _ _.
Arguments peers_create {_ _ _ _ _ _ _ _ _ _ _ _ _ _ _ _ _} _ _ _ _.

(** ** What a workspace keeps true *)
Section Laws.
Context `{L : Libp2p} {Ty Cb Ck Cs File Handle Cat St Ca Off Ps Dir : Type} `{EqDecision Ty}.
Context `{EqDecision Cb, EqDecision Ck, EqDecision Cs, HasDefault Ck}.
Abbreviation SCfg := (StateConfig Cb Ck Cs).
Abbreviation TCfg := (TableConfig Cb Ck Cs).
Abbreviation T := (Table.Table St Ca Off).
Context `{SF : StateFiles Ty SCfg File Handle, !StateFilesLaws Ty SCfg File Handle}.
Context `{Cat_b : Backend Cat rstring SCfg, !BackendLaws Cat rstring SCfg}.
Context `{Cat_d : Durable Cat, !DurableLaws Cat rstring SCfg} `{Cat_f : CatalogFile Cat File, !CatalogFileLaws Cat SCfg File}.
Context `{St_b : Backend St PrimaryKey Cell, !BackendLaws St PrimaryKey Cell}.
Context `{St_d : Durable St, !DurableLaws St PrimaryKey Cell} `{St_k : HasKind St}.
Context `{Ca_b : Backend Ca PrimaryKey Cell, !BackendLaws Ca PrimaryKey Cell}.
Context `{Ca_c : Bounded Ca, !BoundedLaws Ca PrimaryKey Cell}.
Context `{Off_b : Backend Off rstring Z, !BackendLaws Off rstring Z} `{Off_d : Durable Off, !DurableLaws Off rstring Z}.
Context `{Cd : Codec Table.Change} `{Cr : Codec Devices.DeviceRecord} `{Cc : Codec TCfg} `{Cw : Codec WorkspaceId.WorkspaceId}.
Context `{Ps_b : Backend Ps PeerId Devices.PeerState, !BackendLaws Ps PeerId Devices.PeerState}.
Context `{Ps_d : Durable Ps, !DurableLaws Ps PeerId Devices.PeerState} `{PH : PeerHandle Handle Ps}.
Context `{TF : TableFiles TCfg Dir T}.
Hypothesis Hkind : kind_stable (St:=St).
Context {TFL : TableFilesLaws (Cb:=Cb) (Ck:=Ck) (Cs:=Cs) (St:=St) (Ca:=Ca) (Off:=Off) (Dir:=Dir)}.
Context (catalog_ty unit_ty peers_ty : Ty).
Abbreviation W := (Workspace.Workspace (File:=File) (Handle:=Handle) (Cat:=Cat) (St:=St) (Ca:=Ca) (Off:=Off) (Ps:=Ps) (Dir:=Dir)).
Abbreviation Sts := (States (File:=File) (Handle:=Handle) (Cat:=Cat)).
Abbreviation Tbs := (Tables (St:=St) (Ca:=Ca) (Off:=Off) (Ps:=Ps) (Dir:=Dir)).
Abbreviation Devs := (Devices.Devices St Ca Off Ps).
Abbreviation res A := (result Error A).
Implicit Types (w : W) (d : Devs).

Context {PHL : PeerHandleLaws (SF:=SF) (Ps:=Ps) unit_ty peers_ty}.

Record same_devices d d' : Prop := {
  sd_me : me d' = me d;
  sd_devices p : Devices.get_device d' p = Devices.get_device d p;
  sd_roles p : role_of d' p = role_of d p;
  sd_cached p : cached d' p = cached d p;
}.
Record ws_ok w : Prop := {
  wo_identity : deserialize_from (Workspace.identity_bytes w) = Ok (Workspace.workspace_id w);
  wo_states : states_ok (Workspace.ws_states w);
  wo_tables : tables_ok (Workspace.ws_tables w);
  wo_devices : synced (Workspace.ws_devices w) ∧ registry_ok (Workspace.ws_devices w);
  wo_member : is_Some (Devices.get_device (Workspace.ws_devices w) (me (Workspace.ws_devices w)));
  wo_peers : ∃ h, Workspace.peers_handle w = Some h ∧
    as_peers (States.sh_state h) = Some (Devices.peer_state (Workspace.ws_devices w));
  wo_filed : filed (Devices.peer_state (Workspace.ws_devices w));
}.
(** Every declared table is also open, in a directory that gives it back under
    the configuration its row declares. *)
Definition whole w : Prop := ws_ok w ∧ intact (Workspace.ws_tables w).
(** Everything a client can ask of the catalogs, the tables and the devices. *)
Record same_workspace w w' : Prop := {
  sw_id : Workspace.workspace_id w' = Workspace.workspace_id w;
  sw_bytes : Workspace.identity_bytes w' = Workspace.identity_bytes w;
  sw_states n : get (States.st_catalog (Workspace.ws_states w')) n = get (States.st_catalog (Workspace.ws_states w)) n;
  sw_declared : same (declared (Workspace.ws_tables w)) (declared (Workspace.ws_tables w'));
  sw_catalog : same_contents (catalog_table (Workspace.ws_tables w)) (catalog_table (Workspace.ws_tables w'));
  sw_tables n : same_slot (bt_get n (Tables.ts_tables (Workspace.ws_tables w))) (bt_get n (Tables.ts_tables (Workspace.ws_tables w')));
  sw_registry : same_contents (Devices.registry (Workspace.ws_devices w)) (Devices.registry (Workspace.ws_devices w'));
  sw_devices : same_devices (Workspace.ws_devices w) (Workspace.ws_devices w');
}.
Lemma same_workspace_trans w1 w2 w3 : same_workspace w1 w2 → same_workspace w2 w3 → same_workspace w1 w3.
Proof using Type.
  intros [A1 A2 A3 A4 A5 A6 A7 [A8 A9 A10 A11]] [B1 B2 B3 B4 B5 B6 B7 [B8 B9 B10 B11]].
  constructor; [congruence..| | | | | |].
  - intros n. by rewrite B3.
  - intros n. by rewrite B4.
  - intros k. by rewrite B5.
  - intros n. by eapply same_slot_trans.
  - intros k. by rewrite B7.
  - constructor; [congruence|intros p; congruence..].
Qed.

(** ** The durability barriers *)
Lemma tables_devices ts d : Devices.registry d = Devices.registry (Tables.ts_devices ts) →
  clock_of d = clock_of (Tables.ts_devices ts) → tables_ok ts ∧ intact ts →
  tables_ok (Tables.set_devices d ts) ∧ intact (Tables.set_devices d ts).
Proof using Type.
  intros Hreg Hclk [[[] Hdecl] []]. assert (∀ s, passed (Tables.ts_devices ts) s → passed d s) as Hp
    by (intros s (k & Hk & Ht); exists k; by rewrite Hclk).
  split; [split; [constructor; try done|done]|constructor; try done].
  - intros k r Hr. destruct (to_rows _ _ Hr) as (? & ? & ?). by auto.
  - by auto.
  - cbn. by rewrite Hreg.
Qed.
Lemma cached_clock d d' : me d' = me d → (∀ p, cached d' p = cached d p) → clock_of d' = clock_of d.
Proof using Type.
  intros Hme Hc. specialize (Hc (me d)). unfold cached in Hc. rewrite Hme, bool_decide_true in Hc by done.
  injection Hc as Hc. unfold clock_of. by rewrite Hc.
Qed.
Lemma same_devices_cache d d' : Devices.registry_cache d' = Devices.registry_cache d → me d' = me d →
  (∀ p, cached d' p = cached d p) → same_devices d d'.
Proof using Type.
  intros Hc Hme Hp. constructor; [done|..|done]; intros p; unfold role_of, Devices.get_device; unfold me in Hme; by rewrite ?Hc, ?Hme.
Qed.
(** The filed peers through a checkpoint. *)
Lemma filed_checkpoint (b : bool) d : filed (Devices.peer_state d) →
  filed (Devices.peer_state (Devices.checkpoint (λ ps : Ps, if b then flush ps else sync ps) d).1).
Proof using Type.
  intros Hf. unfold Devices.checkpoint.
  assert (∀ dirty ps, filed ps → filed (Devices.put_dirty (Devices.others (Devices.peer_cache d)) dirty ps).1) as Hput.
  { induction dirty as [|[p []] dirty IH]; intros ps Hps; [done|]. cbn. destruct (bt_get p _) as [st|]; [|done].
    pose proof (filed_put p st ps Hps). destruct (put p st ps) as [ps1 [[]|e|]]; cbn; [by apply IH|done..]. }
  set (first := if Devices.local_dirty _ then _ else _).
  assert (filed first.1) as H1 by (unfold first; destruct (Devices.local_dirty _); [by apply filed_put|done]).
  destruct first as [ps1 [[]|e|]]; cbn [and_then fst] in *; [|done..].
  specialize (Hput (Devices.dirty_others (Devices.peer_cache d)) ps1 H1).
  destruct (Devices.put_dirty _ _ ps1) as [ps2 [[]|e|]]; cbn [and_then fst] in *; [|done..].
  pose proof (filed_back b ps2 Hput) as H3. destruct (if b then flush ps2 else sync ps2) as [ps3 [[]|e|]]; done.
Qed.
(** The slots after a visit of all of them. *)
Lemma visit_slots (fc : Cat → Cat * io unit) (fh : Handle → Handle * io unit) (l : list (rstring * States.Slot)) (s : Sts) :
  bt_wf l → (States.visit fc fh l s).2 = Ok tt → ∀ n,
  bt_get n (States.st_open (States.visit fc fh l s).1) =
  match bt_get n l with
  | Some (States.Opened h) => Some (touched h (fh (States.sh_state h)).1)
  | _ => bt_get n (States.st_open s)
  end.
Proof using Type.
  revert s. induction l as [|[m slot] l IH]; intros s Hwf; [done|]. destruct Hwf as [Hlt Hwf].
  assert (bt_get m l = None) as Hm.
  { destruct (bt_get m l) as [x|] eqn:E; [|done]. apply bt_get_In in E. rewrite Forall_forall in Hlt.
    specialize (Hlt _ E). cbn in Hlt. by rewrite cmp_refl in Hlt. }
  cbn [States.visit bt_get]. destruct slot as [|h].
  - unfold States.on_catalog. destruct (fc (States.st_catalog s)) as [cat [[]|e|]]; cbn [lift_io map_err fst snd]; [|done..].
    intros Hr n. rewrite IH by done. destruct (cmpP n m) as [->|?|?]; [by rewrite Hm|done..].
  - destruct (fh (States.sh_state h)) as [st [[]|e|]] eqn:Ef; cbn [lift_io map_err fst snd]; [|done..].
    intros Hr n. rewrite IH by done. cbn [States.set_open States.st_open]. destruct (cmpP n m) as [->|Hne|Hne].
    + rewrite Hm, bt_get_insert, Ef. done.
    + rewrite bt_get_insert_ne; [done|]. intros ->. by rewrite cmp_refl in Hne.
    + rewrite bt_get_insert_ne; [done|]. intros ->. by rewrite cmp_refl in Hne.
Qed.
Definition ws_back (b : bool) w : W * res unit := if b then Workspace.ws_flush w else Workspace.ws_sync w.
(** The three steps of a barrier. *)
Definition devices_back (b : bool) w : W * res unit :=
  Workspace.on_devices (Devices.checkpoint (λ ps : Ps, if b then flush ps else sync ps) (Workspace.ws_devices w)) w.
Definition tables_back (b : bool) w : W * res unit :=
  Workspace.on_tables (Tables.visit_tables (back b) (Tables.ts_tables (Workspace.ws_tables w)) (Workspace.ws_tables w)) w.
Definition states_back (b : bool) w : W * res unit :=
  let s := Workspace.ws_states w in
  Workspace.on_states (States.visit (λ c : Cat, if b then flush c else sync c) (λ h : Handle, if b then flush_state h else sync_state h)
    (States.st_open s) s) w.
Lemma ws_back_steps b w : ws_back b w =
  Workspace.ws_then (devices_back b w) (λ w, Workspace.ws_then (tables_back b w) (states_back b)).
Proof using Type. by destruct b. Qed.
Definition handle_with (h : States.StateHandle (Handle:=Handle)) (st : Handle) : States.StateHandle (Handle:=Handle) :=
  States.mkStateHandle (States.sh_name h) st (States.sh_is_system h) (States.holders h).
(** Nothing is left for a checkpoint. *)
Definition quiet d : Prop :=
  Devices.local_dirty (Devices.peer_cache d) = false ∧ Devices.dirty_others (Devices.peer_cache d) = [].
Lemma checkin_ok w d : whole w → me d = me (Workspace.ws_devices w) →
  Devices.registry_cache d = Devices.registry_cache (Workspace.ws_devices w) →
  Devices.registry d = Devices.registry (Workspace.ws_devices w) → synced d → filed (Devices.peer_state d) →
  (∀ p, cached d p = cached (Workspace.ws_devices w) p) →
  let w1 := Workspace.checkin (Workspace.set_tables (Tables.set_devices d (Workspace.ws_tables w)) w) in
  whole w1 ∧ same_workspace w w1 ∧ Workspace.ws_devices w1 = d.
Proof using All.
  intros [[Hid Hst Htb [Hsy Hreg] Hmem (h & Hh & Has) Hfl] Hin] Hme Hrc Hr Hsd Hfd Hcd. cbn zeta.
  unfold Workspace.checkin.
  change (Workspace.peers_handle (Workspace.set_tables (Tables.set_devices d (Workspace.ws_tables w)) w)) with (Workspace.peers_handle w).
  rewrite Hh. destruct (peers_with _ (Devices.peer_state d) _ Has) as [Hw1 Hw2].
  assert (bt_get PEERS_STATE_NAME (States.st_open (Workspace.ws_states w)) = Some (States.Opened h)) as Hslot.
  { revert Hh. unfold Workspace.peers_handle. by destruct (bt_get _ _) as [[|]|]; [|intros [= ->]|]. }
  pose proof (touch_ok catalog_ty unit_ty _ PEERS_STATE_NAME h _ Hst Hslot Hw2) as Ht. cbn zeta in Ht. destruct Ht as [Hst' _].
  destruct (tables_devices _ d Hr (cached_clock _ _ Hme Hcd) (conj Htb Hin)) as [Htb' Hin'].
  split; [split; [constructor; try done|done]|split; [constructor; try done|done]].
  - split; [done|]. eapply (registry_ok_same (Workspace.ws_devices w)); [done|done|by intros k; cbn; rewrite Hr|done].
  - cbn. rewrite Hme. unfold Devices.get_device in *. by rewrite Hrc.
  - exists (handle_with h (with_peers (Devices.peer_state d) (States.sh_state h))). split; [|exact Hw1]. unfold Workspace.peers_handle. cbn. by rewrite bt_get_insert.
  - cbn. intros n. apply same_slot_refl.
  - intros k. cbn. by rewrite Hr.
  - by apply same_devices_cache.
Qed.
Lemma devices_back_ok b w : whole w → (devices_back b w).2 = Ok tt →
  let w1 := (devices_back b w).1 in whole w1 ∧ same_workspace w w1 ∧ quiet (Workspace.ws_devices w1).
Proof using All.
  intros Hok. pose proof (filed_checkpoint b _ (wo_filed _ (proj1 Hok))) as Hfl.
  pose proof (checkpoint_ok (λ ps : Ps, if b then flush ps else sync ps) _ (proj1 (wo_devices _ (proj1 Hok)))) as Hck.
  unfold devices_back, Workspace.on_devices. destruct (Devices.checkpoint _ _) as [d r]. cbn [fst snd] in *. intros ->.
  destruct Hck as (_ & Hr & Hrc & Hme & Hcd & Hq); [destruct b; apply flush_nothing|].
  destruct (Hq eq_refl) as (Hsd & Hpc & _ & _).
  destruct (checkin_ok w d Hok Hme Hrc Hr Hsd Hfl Hcd) as (H1 & H2 & H3).
  split; [done|]. split; [done|]. rewrite H3. unfold quiet. by rewrite Hpc.
Qed.
Lemma tables_back_ok b w : whole w → quiet (Workspace.ws_devices w) →
  let w1 := (tables_back b w).1 in whole w1 ∧ same_workspace w w1 ∧ quiet (Workspace.ws_devices w1).
Proof using All.
  intros [[Hid Hst Htb [Hsy Hreg] Hmem Hps Hfl] Hin] Hq. unfold tables_back, Workspace.on_tables.
  pose proof (tables_barrier Hkind b _ Htb Hin) as Hb.
  destruct (Tables.visit_tables _ _ _) as [ts r]. cbn [fst]. destruct Hb as (_ & Htb' & Hin' & [Kd Kc (reg & Kr & Ks) Kt]).
  assert (Workspace.ws_devices (Workspace.set_tables ts w) = Devices.set_registry reg (Workspace.ws_devices w)) as Hd by exact Kr.
  split; [|split].
  - split; [|done]. constructor; rewrite ?Hd; try done. split; [by destruct Hsy; constructor|].
    by apply (registry_ok_same (Workspace.ws_devices w)).
  - constructor; rewrite ?Hd; try done.
  - by rewrite Hd.
Qed.
Lemma states_back_ok b w : whole w → quiet (Workspace.ws_devices w) → (states_back b w).2 = Ok tt →
  let w1 := (states_back b w).1 in whole w1 ∧ same_workspace w w1 ∧ quiet (Workspace.ws_devices w1).
Proof using All.
  intros [[Hid Hst Htb [Hsy Hreg] Hmem (h & Hh & Has) Hfl] Hin] Hq. unfold states_back, Workspace.on_states. cbn zeta.
  assert (bt_get PEERS_STATE_NAME (States.st_open (Workspace.ws_states w)) = Some (States.Opened h)) as Hslot.
  { revert Hh. unfold Workspace.peers_handle. by destruct (bt_get _ _) as [[|]|]; [|intros [= ->]|]. }
  set (fc := λ c : Cat, if b then flush c else sync c). set (fh := λ h : Handle, if b then flush_state h else sync_state h).
  pose proof (states_visit_ok catalog_ty unit_ty fc fh (States.st_open (Workspace.ws_states w)) (Workspace.ws_states w)) as Hv.
  pose proof (visit_slots fc fh (States.st_open (Workspace.ws_states w)) (Workspace.ws_states w) (so_open _ Hst)) as Hsl.
  destruct (States.visit fc fh _ _) as [s r]. cbn [fst snd] in *. intros ->. specialize (Hsl eq_refl PEERS_STATE_NAME).
  rewrite Hslot in Hsl. destruct Hv as (Hst' & _ & Hdecl).
  { intros c Hc. subst fc. destruct b; [by apply flush_law|by apply sync_law]. }
  { intros h'. subst fh. destruct b; [apply flush_state_ty|apply sync_state_ty]. }
  { done. } { apply Hst. } { intros n slot Hn. apply bt_In_get; [apply Hst|done]. }
  destruct (peers_back b (States.sh_state h) _ Has (sy_wf _ Hsy) Hfl) as (ps & Hps & Hwf & Hfl' & Hsame).
  assert (Workspace.peers_handle (Workspace.set_states s w) = Some (handle_with h (fh (States.sh_state h)).1)) as Hh'
    by (unfold Workspace.peers_handle; cbn; by rewrite Hsl).
  assert (as_peers (States.sh_state (handle_with h (fh (States.sh_state h)).1)) = Some ps) as Has' by (subst fh; by destruct b).
  unfold Workspace.checkout. rewrite Hh'. cbn [mbind option_bind]. rewrite Has'.
  set (d := Devices.set_peer_state ps _).
  destruct (tables_devices (Workspace.ws_tables w) d eq_refl eq_refl (conj Htb Hin)) as [Htb' Hin'].
  split; [split; [constructor; try done|done]|split; [constructor; try done|done]].
  - split; [|by apply (registry_ok_same (Workspace.ws_devices w))]. destruct Hsy as [? ? ? Hcl]. constructor; try done. intros p Hp. cbn. rewrite Hsame. by apply Hcl.
  - by exists (handle_with h (fh (States.sh_state h)).1).
  - intros n. apply same_slot_refl.
Qed.
Lemma ws_back_ok b w : whole w → (ws_back b w).2 = Ok tt →
  let w1 := (ws_back b w).1 in whole w1 ∧ same_workspace w w1 ∧ quiet (Workspace.ws_devices w1).
Proof using All.
  intros Hok. rewrite ws_back_steps. unfold Workspace.ws_then.
  pose proof (devices_back_ok b w Hok) as H1. destruct (devices_back b w) as [w1 [[]|e|]]; [|done..].
  destruct (H1 eq_refl) as (Hok1 & S1 & Q1). cbn [fst] in *.
  pose proof (tables_back_ok b w1 Hok1 Q1) as H2. destruct (tables_back b w1) as [w2 [[]|e|]]; [|done..].
  destruct H2 as (Hok2 & S2 & Q2). cbn [fst] in *. intros Hr.
  destruct (states_back_ok b w2 Hok2 Q2 Hr) as (Hok3 & S3 & Q3).
  split; [done|]. split; [|done]. eapply same_workspace_trans; [exact S1|]. by eapply same_workspace_trans.
Qed.

(** ** Opening again *)
Lemma devices_reopen wall (reg : T) log (ps : Ps) d : synced d → registry_ok d → quiet d → is_Some (clock_of d) →
  is_Some (Devices.get_device d (me d)) → same_contents (Devices.registry d) reg → table_ok reg log →
  state_kind (Table.tb_state reg) = Unordered → backend_wf ps → (∀ p, get ps p = get (Devices.peer_state d) p) →
  ∃ d', Devices.open wall reg ps (me d) = Ok d' ∧ same_devices d d' ∧ Devices.registry d' = reg.
Proof using All.
  intros Hsy [Hrows Hcache' Hrole] [Hq1 Hq2] Hclk [record Hmem] Hsame Hlog Hun Hps Hget.
  destruct (unordered_entries reg) as [Hnd Hent]; [|done|];
    [split; [by eapply backend_reads, ok_state|by eapply ok_cache]|].
  destruct (load_registry_ok (Table.table_entries reg) []) as (ents & Hload & Hents); [|done|].
  { intros k r Hin%nodup_get; [|done]. apply Hrows. by rewrite <- Hsame, <- Hent. }
  assert (∀ p, bt_get p ents = Devices.get_device d p) as Hdev.
  { intros p. rewrite Hents, Hent, Hsame, Hcache'. by destruct (_ ≫= _). }
  eexists. split; [apply (open_restores wall reg ps d ents record); try done; by rewrite Hdev|].
  split; [|done]. constructor; [done|exact Hdev| |reflexivity].
  intros p. unfold role_of. change (Devices.local_peer_id _) with (me d) at 1. case_bool_decide as Hp.
  2: { rewrite bool_decide_false by done. unfold Devices.get_device at 1. cbn [Devices.reg_entries Devices.registry_cache]. by rewrite Hdev. }
  rewrite bool_decide_true by done. cbn [Devices.local_role Devices.registry_cache].
  unfold role_synced in Hrole. rewrite Hrole. unfold me in Hmem. by rewrite Hmem.
Qed.
(** ** Creating a workspace *)
(** What stays of the devices through the writes to a new catalog. *)
Record same_registry d d' : Prop := {
  sr_synced : synced d → synced d';
  sr_registry : Devices.registry d' = Devices.registry d;
  sr_cache : Devices.registry_cache d' = Devices.registry_cache d;
  sr_state : Devices.peer_state d' = Devices.peer_state d;
  sr_me : me d' = me d;
}.
Lemma same_registry_trans d1 d2 d3 : same_registry d1 d2 → same_registry d2 d3 → same_registry d1 d3.
Proof using Type. intros [] []. constructor; [auto|congruence..]. Qed.
Lemma entry_ok (env : Env) (n : rstring) (ts ts1 ts' : Tbs) s : core_ok ts → bt_contains n (Tables.ts_tables ts) = true →
  codec_ok (SYSTEM_TABLE_CONFIG : TCfg) → writable env ts (system_entry n) →
  Tables.mint env ts = (ts1, Ok s) → Tables.write_entry env n SYSTEM_TABLE_CONFIG s ts1 = (ts', Ok tt) →
  ∃ ch, Table.ch_event ch = system_entry n s ∧
    let d := Devices.receipt_listener (Tables.wall_seen env) ch (Tables.ts_devices ts1) in
    ts' = rewritten ts (Table.insert (system_entry n s) (catalog_table ts)).1 d ∧ core_ok ts' ∧
    alters n (Some SYSTEM_TABLE_CONFIG) (declared ts) (declared ts') ∧ same_registry (Tables.ts_devices ts) d.
Proof using All.
  intros Hok Hn Hc Hacc Em. pose proof (to_clock _ Hok) as (k0 & Hk0 & _).
  unfold Tables.write_entry. rewrite codec_ok_encode by done.
  destruct (Tables.insert_internal _ _ _ _ _ ts1) as [ts2 r2] eqn:Ew. intros [= <- Hr].
  assert (∀ v, OpUpsert (Blob (encoded (A:=TCfg) SYSTEM_TABLE_CONFIG)) = OpUpsert v → ∃ c' : TCfg, v = Blob (encoded c') ∧ codec_ok c') as Hv
    by (intros v [= <-]; by exists (SYSTEM_TABLE_CONFIG : TCfg)).
  destruct (catalog_write_ok Hkind env n (OpUpsert (Blob (encoded (A:=TCfg) SYSTEM_TABLE_CONFIG))) _ s ts ts1 ts2 r2 Hok Em eq_refl Hv (Hacc ts1 s Em) Ew)
    as [(e & t' & -> & _)|(ch & t' & d & r0 & Hev & Hok1 & Hdn & Hother & Hcl & -> & -> & ->)]; [done|].
  unfold Tables.catalog_listener in Hcl. rewrite Hev in Hcl. cbn [Tables.catalog_event primary_key op] in Hcl.
  change (Tables.ts_tables (rewritten ts _ _)) with (Tables.ts_tables ts) in Hcl. rewrite Hn in Hcl. injection Hcl as <- <-.
  exists ch. split; [done|]. split; [done|]. split; [done|]. split.
  - split; [|done]. rewrite Hdn. unfold row_config. cbn. by rewrite codec_ok_decode.
  - destruct (mint_newer _ _ _ _ Em) as (_ & _ & Hpeer & Hd1 & _).
    pose proof (mint_registry (Tables.wall env) (Tables.ts_devices ts)) as Hm.
    unfold Tables.mint in Em. destruct (Devices.mint _ _) as [d1 r1] eqn:Emd. injection Em as <- ->.
    cbn [Tables.set_devices Tables.ts_devices] in *. destruct Hm as (M1 & M2 & M3).
    assert (peer_id (stamp_id (event_stamp (Table.ch_event ch))) = me d1) as Hlocal by (rewrite Hev; cbn; by rewrite Hpeer, <- M2).
    destruct (receipt_listener_registry (Tables.wall_seen env) ch d1) as [R1 R2].
    pose proof (mint_keeps (Tables.wall env) (Tables.ts_devices ts)) as Hmk. rewrite Emd in Hmk.
    destruct (listener_keeps (Tables.wall_seen env) ch d1) as [Q1 Q2].
    constructor; [|congruence..|unfold me; congruence].
    intros Hs. apply (mint_synced _ _ _ _ Emd) in Hs as (Hs & _ & Hck). by apply listener_synced.
Qed.

(** The log takes the three rows a new workspace writes: the device that
    creates it, and the two entries of the catalog, at the stamps they get. *)
Abbreviation entry := (system_entry (Cb:=Cb) (Ck:=Ck) (Cs:=Cs)).
(** The log, the disk and the engines accept the change of an event. *)
Definition welcomes (t : T) (ev : Event) : Prop := accepts t ev ∧ takes t ev.
Definition roomy (env1 env2 env3 : Env) (p : PeerId) (name : rstring) : Prop := ∀ dir (t : T) (ps : Ps) dev,
  create_table (SYSTEM_TABLE_CONFIG : TCfg) None = (dir, Ok t) →
  Devices.create (Tables.wall env1) t ps p name = Ok dev →
  welcomes t (new_device p name (default 0%Z (Tables.wall env1))) ∧
  ∀ d1 s, Devices.mint (Tables.wall env2) dev = (d1, Ok s) →
  welcomes t (entry TABLE_CATALOG_NAME s) ∧
  ∀ ch d2 s', Table.ch_event ch = entry TABLE_CATALOG_NAME s →
    Devices.mint (Tables.wall env3) (Devices.receipt_listener (Tables.wall_seen env2) ch d1) = (d2, Ok s') →
    welcomes (Table.insert (entry TABLE_CATALOG_NAME s) t).1 (entry DEVICES_TABLE_NAME s').
Definition founded (p : PeerId) (name : rstring) (ps : Ps) d : Prop :=
  synced d ∧ registry_ok d ∧ me d = p ∧ Devices.peer_state d = ps ∧
  ∀ q, Devices.get_device d q = if bool_decide (q = p) then Some (Devices.mkDevice name (Some Devices.Admin)) else None.
Lemma founded_same p name ps d d' : same_registry d d' → founded p name ps d → founded p name ps d'.
Proof using Type.
  intros [S1 S2 S3 S4 S5] (F1 & F2 & F3 & F4 & F5). split; [by apply S1|]. split; [|split; [congruence|split; [congruence|]]].
  - apply (registry_ok_same d); [done..|by intros k; rewrite S2|done].
  - intros q. unfold Devices.get_device in *. by rewrite S3.
Qed.
Lemma create_founded wall (reg : T) log (ps : Ps) p name d : Devices.create wall reg ps p name = Ok d →
  (∀ now, wall = Some now → (0 < now)%Z) → codec_ok (Devices.mkDevice name (Some Devices.Admin)) →
  backend_wf ps → (∀ q, get ps q = None) → table_ok reg log → capacity (Table.tb_cache reg) ≠ Some 0 →
  (∀ k, Table.table_get reg k = None) → accepts reg (new_device p name (default 0%Z wall)) →
  founded p name ps d ∧ Devices.registry d = (Table.insert (new_device p name (default 0%Z wall)) reg).1 ∧
  ∃ k, clock_of d = Some k ∧ time_le (stamp_time EventStamp_default) (Devices.last_time k).
Proof using Hkind BoundedLaws0.
  intros Hc Hpos Hcod Hps Hnone Hlog Hcap Hempty Hacc.
  destruct (create_device _ _ _ _ _ _ Hc Hcod Hps Hnone) as (now & ev & -> & Hev & Hi & Hr & Hcache' & Hst & Hme & Hsy & Hclk).
  change ev with ev in Hev. fold (new_device p name now) in Hev. subst ev. specialize (Hpos now eq_refl).
  change (default 0%Z (Some now)) with now in Hacc |- *.
  assert (time_lt (mkEventTime 0 0) (mkEventTime now 0)) as Hlt by (left; cbn; lia).
  pose proof (first_row Hkind _ _ _ _ Hlog Hcap Hempty Hacc eq_refl eq_refl) as Hrow.
  specialize (Hrow (stamp_lt_time EventStamp_default (event_stamp (new_device p name now)) (proj1 (time_lt_cmp _ _) Hlt)) Hi). rewrite <- Hr in Hrow. split; [|split].
  - split; [done|]. split; [|split; [done|split; [done|]]].
    + constructor.
      * intros k r. rewrite Hrow. case_bool_decide as Hk; [|done]. intros [= <-]. split; [by exists p|].
        right. by eexists.
      * intros q. unfold Devices.get_device. rewrite Hcache', Hrow. cbn. case_bool_decide as Hq.
        -- injection Hq as ->. rewrite cmp_refl. cbn. unfold row_device. cbn. by rewrite codec_ok_decode.
        -- destruct (cmpP q p) as [->|?|?]; [by destruct Hq|done..].
      * unfold role_synced, Devices.get_device. rewrite Hcache'. unfold me in Hme. rewrite Hme. cbn. by rewrite cmp_refl.
    + intros q. unfold Devices.get_device. rewrite Hcache'. cbn. case_bool_decide as Hq; [subst; by rewrite cmp_refl|].
      by destruct (cmpP q p).
  - done.
  - eexists. split; [exact Hclk|]. by left.
Qed.

Lemma first_core (env1 : Env) dirs (dev : Devs) (t : T) log : table_ok t log → capacity (Table.tb_cache t) ≠ Some 0 →
  (∀ k, Table.table_get t k = None) →
  (∃ k, clock_of dev = Some k ∧ time_le (stamp_time EventStamp_default) (Devices.last_time k)) →
  core_ok (Tables.register_listeners
    (Tables.mkTables (Tables.new_handle TABLE_CATALOG_NAME t true) Tables.system_slots dirs dev) : Tbs).
Proof using Type.
  intros Hlog Hcap Hnone Hclk. constructor; [by exists log|done|done| |done|by repeat constructor| |done].
  - intros k r Hr. change (Table.table_get t k = Some r) in Hr. by rewrite Hnone in Hr.
  - intros n slot. change (bt_get n (@Tables.system_slots St Ca Off) = Some slot → slot_ok n slot). unfold Tables.system_slots. bt_key n TABLE_CATALOG_NAME; [by intros [= <-]|].
    cbn. destruct (cmpP n DEVICES_TABLE_NAME) as [->|?|?]; [by intros [= <-]|done..].
Qed.
Lemma tables_create_ok (env1 env2 env3 : Env) dirs dirs' (ps : Ps) p name (ts : Tbs) :
  bt_get DEVICES_TABLE_NAME dirs = None → bt_get TABLE_CATALOG_NAME dirs = None →
  (∀ now, Tables.wall env1 = Some now → (0 < now)%Z) → codec_ok (Devices.mkDevice name (Some Devices.Admin)) →
  codec_ok (SYSTEM_TABLE_CONFIG : TCfg) → roomy env1 env2 env3 p name → backend_wf ps → (∀ q, get ps q = None) →
  Tables.create env1 env2 env3 dirs ps p name = (dirs', Ok ts) →
  tables_ok ts ∧ intact ts ∧ founded p name ps (Tables.ts_devices ts) ∧ Tables.ts_tables ts = Tables.system_slots ∧
  ∀ n, declared ts n = if is_system_table n then Some SYSTEM_TABLE_CONFIG else None.
Proof using All.
  intros Hd0 Hc0 Hpos Hcod Hsys Hroom Hps Hnone. unfold Tables.create. rewrite Hd0.
  destruct (create_table SYSTEM_TABLE_CONFIG None) as [d0 [t0|e|]] eqn:Ecr; [|by intros [=]..].
  destruct (create_law _ _ _ Ecr) as (Hre & Hempty & Hcap). specialize (Hcap ltac:(done)).
  pose proof (create_clean _ _ _ Ecr) as Hclean.
  destruct (reopens_ok _ _ Hre) as [log Hlog].
  destruct (Devices.create _ t0 ps p name) as [dev|e|] eqn:Edev; [|by intros [=]..].
  destruct (Hroom _ _ _ _ Ecr Edev) as [Hroom1 Hroom2].
  destruct (create_founded _ _ _ _ _ _ _ Edev Hpos Hcod Hps Hnone Hlog Hcap Hempty (proj1 Hroom1)) as (Hf & Hreg & Hclk).
  assert (bt_get TABLE_CATALOG_NAME (Tables.set_dir DEVICES_TABLE_NAME d0 dirs) = None) as ->
    by (destruct d0; cbn; by rewrite ?bt_get_insert_ne, ?bt_get_remove_ne).
  rewrite Ecr. set (dirs1 := Tables.set_dir TABLE_CATALOG_NAME d0 _).
  set (ts0 := Tables.register_listeners _).
  pose proof (first_core env1 dirs1 dev t0 log Hlog Hcap Hempty Hclk) as Hok0. fold ts0 in Hok0.
  assert (Tables.ts_tables ts0 = Tables.system_slots) as Ht0 by done.
  assert (∀ env (ts ts' : Tbs) s, Tables.mint env ts = (ts', Ok s) →
    Devices.mint (Tables.wall env) (Tables.ts_devices ts) = (Tables.ts_devices ts', Ok s)) as Hmint.
  { intros env x x' s. unfold Tables.mint. destruct (Devices.mint (Tables.wall env) (Tables.ts_devices x)) as [dm rm]. intros Hm. by simplify_eq. }
  assert (writable env2 ts0 (system_entry TABLE_CATALOG_NAME)) as Hacc1
    by (intros ts1 s Hm%Hmint; by apply (Hroom2 _ _ Hm)).
  destruct (Tables.mint env2 ts0) as [ts1m [s1|e|]] eqn:Em1; [|by intros [=]..].
  destruct (Tables.write_entry env2 _ _ s1 ts1m) as [ts1 [[]|e|]] eqn:Ew1; [|by intros [=]..].
  destruct (entry_ok env2 TABLE_CATALOG_NAME ts0 _ _ s1 Hok0 eq_refl Hsys Hacc1 Em1 Ew1) as (ch1 & Hch1 & Ets1 & Hok1 & [Hn1 Ho1] & Hs1).
  destruct (Hroom2 _ _ (Hmint _ _ _ _ Em1)) as [_ Hroom3].
  assert (writable env3 ts1 (system_entry DEVICES_TABLE_NAME)) as Hacc2
    by (intros ts2 s Hm%Hmint; rewrite Ets1 in Hm |- *; by apply (Hroom3 ch1 _ _ Hch1 Hm)).
  destruct (Tables.mint env3 ts1) as [ts2m [s2|e|]] eqn:Em2; [|by intros [=]..].
  destruct (Tables.write_entry env3 _ _ s2 ts2m) as [ts2 [[]|e|]] eqn:Ew2; [|by intros [=]..].
  destruct (entry_ok env3 DEVICES_TABLE_NAME ts1 _ _ s2 Hok1 ltac:(by rewrite Ets1) Hsys Hacc2 Em2 Ew2) as (ch2 & _ & Ets2 & Hok2 & [Hn2 Ho2] & Hs2).
  assert (takes (catalog_table ts0) (entry TABLE_CATALOG_NAME s1)) as Hk1 by apply (Hroom2 _ _ (Hmint _ _ _ _ Em1)).
  assert (takes (catalog_table ts1) (entry DEVICES_TABLE_NAME s2)) as Hk2
    by (apply Hmint in Em2 as Hm; rewrite Ets1 in Hm |- *; by apply (Hroom3 ch1 _ _ Hch1 Hm)).
  intros [= _ <-].
  assert (Tables.ts_tables ts2 = Tables.system_slots) as Htb by (by rewrite Ets2, Ets1).
  assert (∀ n, declared ts2 n = if is_system_table n then Some SYSTEM_TABLE_CONFIG else None) as Hdecl.
  { intros n. unfold is_system_table. destruct (decide (n = DEVICES_TABLE_NAME)) as [->|Hn]; [by rewrite Hn2|].
    rewrite Ho2 by done. destruct (decide (n = TABLE_CATALOG_NAME)) as [->|Hn']; [by rewrite Hn1|].
    rewrite Ho1, !bool_decide_false by done. unfold declared. change (catalog_table ts0) with t0. by rewrite Hempty. }
  set (dv2 := Devices.receipt_listener _ ch2 _) in *. assert (Tables.ts_devices ts2 = dv2) as Hdv2 by (by rewrite Ets2).
  rewrite Ets1 in Hs2. pose proof (same_registry_trans _ _ _ Hs1 Hs2) as Hs. rewrite <- Hdv2 in Hs.
  split; [|split; [|split; [|split; [exact Htb|exact Hdecl]]]].
  - split; [done|]. intros n h Hn. rewrite Htb in Hn. revert Hn. unfold Tables.system_slots.
    bt_key n TABLE_CATALOG_NAME; [done|]. cbn. by destruct (cmpP n DEVICES_TABLE_NAME).
  - constructor.
    + split; [|by rewrite Ets2, Ets1; cbn; destruct d0; cbn; rewrite ?bt_get_insert, ?bt_get_remove].
      rewrite Ets2. apply reopens_insert; [..|by eapply Hacc2|exact Hk2]; [|apply Hok1]. rewrite Ets1.
      apply reopens_insert; [exact Hre|exact Hcap|by eapply Hacc1|exact Hk1].
    + rewrite (sr_registry _ _ Hs). change (Tables.ts_devices ts0) with dev. rewrite Hreg.
      split; [by apply reopens_insert; [| |apply Hroom1..]|]. rewrite Ets2, Ets1. cbn. unfold dirs1.
      destruct d0; cbn; [rewrite bt_get_insert_ne by done; by rewrite bt_get_insert|rewrite bt_get_remove_ne by done; by rewrite bt_get_remove].
    + intros n c Hn Hsn. by rewrite Hdecl, Hsn in Hn.
  - exact (founded_same _ _ _ _ _ Hs Hf).
Qed.

Lemma create_establishes (env1 env2 env3 : Env) (fresh : WorkspaceId.WorkspaceId) (who : Workspace.Identity) root w :
  (∀ now, Tables.wall env1 = Some now → (0 < now)%Z) → codec_ok fresh →
  codec_ok (Devices.mkDevice (Workspace.id_name who) (Some Devices.Admin)) → codec_ok (SYSTEM_TABLE_CONFIG : TCfg) →
  roomy env1 env2 env3 (Workspace.id_peer who) (Workspace.id_name who) →
  Workspace.create catalog_ty unit_ty peers_ty env1 env2 env3 None fresh who = (root, Ok w) →
  ws_ok w ∧ intact (Workspace.ws_tables w) ∧ Workspace.workspace_id w = fresh ∧ Workspace.identity_file root = Some (encoded fresh) ∧
  (∀ n, get (States.st_catalog (Workspace.ws_states w)) n = if is_system_state n then Some SYSTEM_STATE_CONFIG else None) ∧
  (∀ n, declared (Workspace.ws_tables w) n = if is_system_table n then Some SYSTEM_TABLE_CONFIG else None) ∧
  ∀ p, Devices.get_device (Workspace.ws_devices w) p =
    if bool_decide (p = Workspace.id_peer who) then Some (Devices.mkDevice (Workspace.id_name who) (Some Devices.Admin)) else None.
Proof using All.
  intros Hpos Hid Hcod Hsys Hroom. unfold Workspace.create. cbn [default Workspace.acquire_lock Workspace.empty_root Workspace.locked is_some
    Workspace.set_locked Workspace.identity_file]. rewrite codec_ok_encode by done.
  unfold Workspace.assemble, Workspace.open_states, Workspace.open_tables.
  cbn [Workspace.set_identity Workspace.set_locked Workspace.empty_root Workspace.states_dir Workspace.tables_dir Workspace.identity_file].
  destruct (States.create unit_ty _) as [sdir [s|e|]] eqn:Es; [|by intros [=]..].
  destruct (states_founded catalog_ty unit_ty peers_ty _ _ _ Es) as (s' & h & ps & -> & Hs' & Hslot & Has & Hwf & Hfl & Hnone & Hcat); [done|].
  rewrite Has. destruct (Tables.create _ _ _ _ _ _ _) as [dirs [ts|e|]] eqn:Et; cbn [rmap]; [|by intros [=]..]. intros [= <- <-].
  destruct (tables_create_ok env1 env2 env3 [] _ _ _ _ _ eq_refl eq_refl Hpos Hcod Hsys Hroom Hwf Hnone Et) as (Htb & Hin & (F1 & F2 & F3 & F4 & F5) & _ & Hdecl).
  split; [|split; [exact Hin|split; [done|split; [done|split; [exact Hcat|split; [exact Hdecl|exact F5]]]]]].
  constructor; cbn; try done.
  - by apply codec_ok_decode.
  - unfold Workspace.ws_devices. cbn. rewrite F3, F5, bool_decide_true by done. by eexists.
  - exists h. unfold Workspace.peers_handle, Workspace.ws_devices. cbn. by rewrite Hslot, F4.
  - unfold Workspace.ws_devices. cbn. by rewrite F4.
Qed.

(** ** Properties *)

(** C4. A workspace that flushes, or syncs, successfully and whose process then
    ends is found again by [open]: the same identity, the same declarations of
    states and of tables, every open table with the rows it had, the same
    registry of devices and roles, and the clock and the receipts of every
    peer.  The lock does not outlive the process.  This is for a workspace in
    which every declared table is open in a directory that gives it back under the configuration
    its row declares ([intact]), as a new workspace is, and as declaring a new table,
    deleting one, inserting rows and flushing keep it ([upsert_intact],
    [delete_intact], [insert_intact], [tables_barrier]); a table that could not
    be made ([failed_create_sticks]), or that was declared again under another
    configuration while open, is not. *)
Theorem workspace_reopen (b : bool) (env : Env) (who : Workspace.Identity) w : ws_ok w → intact (Workspace.ws_tables w) →
  (ws_back b w).2 = Ok tt → Workspace.id_peer who = me (Workspace.ws_devices w) →
  ∃ root w', Workspace.open catalog_ty unit_ty peers_ty env env env (Some (Workspace.disk_of (ws_back b w).1)) who =
    (Some root, Ok w') ∧ same_workspace w w' ∧ states_ok (Workspace.ws_states w').
Proof using All.
  intros Hok Hin0 Hb Hwho. destruct (ws_back_ok b w (conj Hok Hin0) Hb) as (Hok1 & Hsame & Hq). set (w1 := (ws_back b w).1) in *.
  clearbody w1. pose proof Hok1 as [[Hid Hst Htb [Hsy Hreg] Hmem (h & Hh & Has) Hfl] Hin].
  unfold Workspace.open, Workspace.acquire_lock, Workspace.disk_of, Workspace.set_locked. cbn [Workspace.locked Workspace.identity_file Workspace.states_dir Workspace.tables_dir].
  rewrite Hid. unfold Workspace.assemble, Workspace.open_states, Workspace.open_tables.
  cbn [Workspace.states_dir Workspace.tables_dir].
  destruct (states_reopen catalog_ty unit_ty _ Hst) as (s & -> & Hs & Hdecl & _ & Hgets).
  assert (bt_get PEERS_STATE_NAME (States.st_open (Workspace.ws_states w1)) = Some (States.Opened h)) as Hslot.
  { revert Hh. unfold Workspace.peers_handle. by destruct (bt_get _ _) as [[|]|]; [|intros [= ->]|]. }
  specialize (Hgets peers_ty PEERS_STATE_NAME SYSTEM_STATE_CONFIG ltac:(done) (so_system _ Hst PEERS_STATE_NAME eq_refl)).
  unfold States.file_at in Hgets. rewrite Hslot in Hgets.
  destruct (peers_reopen (States.sh_state h) _ (bt_get PEERS_STATE_NAME (States.st_files (Workspace.ws_states w1))) Has (sy_wf _ Hsy) Hfl)
    as (h' & ps & Hopen & Has' & Hwf & Hps).
  rewrite Hopen in Hgets. pose proof (get_peers catalog_ty unit_ty peers_ty s h' Hs Hgets) as [Hs' Hcat].
  destruct (States.get_state catalog_ty peers_ty PEERS_STATE_NAME s) as [s' r]. cbn [fst snd] in *. subst r.
  cbn [lift_io map_err rmap States.sh_state]. rewrite Has', Hwho, <- (sd_me _ _ (sw_devices _ _ Hsame)).
  pose proof (λ reg log Hr Hl Hu, devices_reopen (Tables.wall env) reg log ps _ Hsy Hreg Hq
    ltac:(destruct (to_clock _ (proj1 Htb)) as (k & Hk & _); by exists k) Hmem Hr Hl Hu Hwf Hps) as Hdev.
  destruct (tables_reopen Hkind env _ ps (me (Workspace.ws_devices w1)) Htb Hin) as (ts & -> & Td & Tc & (reg & log & Hr & Hl & Hu & Ho) & Tt).
  { intros reg log Hr Hl Hu. by destruct (Hdev reg log Hr Hl Hu) as (d & -> & _). }
  destruct (Hdev reg log Hr Hl Hu) as (d & Hd & Hsd & Hdr). rewrite Hd in Ho. injection Ho as Ho.
  cbn [rmap]. eexists _, _. split; [done|]. split; [|exact Hs'].
  eapply same_workspace_trans; [exact Hsame|]. constructor; try done.
  - intros n. cbn. rewrite Hcat. apply Hdecl.
  - unfold Workspace.ws_devices at 2. cbn. rewrite <- Ho, Hdr. exact Hr.
  - unfold Workspace.ws_devices at 2. cbn. by rewrite <- Ho.
Qed.

(** C7. Creating a workspace on an empty path, when it succeeds, gives one that
    keeps every promise above: it has the identity drawn for it, it declares
    the system states and tables and nothing else, and its only device is the
    local one, an admin. *)
Theorem workspace_create (env1 env2 env3 : Env) (fresh : WorkspaceId.WorkspaceId) (who : Workspace.Identity) root w :
  (∀ now, Tables.wall env1 = Some now → (0 < now)%Z) → codec_ok fresh →
  codec_ok (Devices.mkDevice (Workspace.id_name who) (Some Devices.Admin)) → codec_ok (SYSTEM_TABLE_CONFIG : TCfg) →
  roomy env1 env2 env3 (Workspace.id_peer who) (Workspace.id_name who) →
  Workspace.create catalog_ty unit_ty peers_ty env1 env2 env3 None fresh who = (root, Ok w) →
  ws_ok w ∧ intact (Workspace.ws_tables w) ∧ Workspace.workspace_id w = fresh ∧ Workspace.identity_file root = Some (encoded fresh) ∧
  (∀ n, get (States.st_catalog (Workspace.ws_states w)) n = if is_system_state n then Some SYSTEM_STATE_CONFIG else None) ∧
  (∀ n, declared (Workspace.ws_tables w) n = if is_system_table n then Some SYSTEM_TABLE_CONFIG else None) ∧
  ∀ p, Devices.get_device (Workspace.ws_devices w) p =
    if bool_decide (p = Workspace.id_peer who) then Some (Devices.mkDevice (Workspace.id_name who) (Some Devices.Admin)) else None.
Proof using All. apply create_establishes. Qed.

End Laws.

(** ** The engines keep the promises *)
(** A file of one type's new engine is, for another type, one with no entry:
    [States::create] makes [_peers] as a [State<(), ()>]. *)
Class UntypedFile (C B B' K V : Type) `{EngineFile C B} `{EngineReopens C B' K V} :=
  untyped_file c n n' (b : B) : engine_create c n = (n', Ok b) →
    ∃ b' : B', engine_open c (Some (RegularFile (engine_bytes b))) = Ok b' ∧ backend_wf b' ∧ ∀ k : K, get b' k = None.
Section UntypedKeyDir.
Context {K1 V1 K V : Type} `{TotalCmp K1} `{CK1 : Codec K1, CV1 : Codec V1, !LawfulCodec K1, !LawfulCodec V1}.
Context `{TotalCmp K} `{CK : Codec K, CV : Codec V, !LawfulCodec K, !LawfulCodec V}.
#[export] Instance keydir_untyped : UntypedFile KeyDir.KeyDirConfig (KeyDir.KeyDir K1) (KeyDir.KeyDir K) K V.
Proof.
  intros c n n' d Hc. assert (KeyDir.kd_create c [] = Ok d) as Hd by (by destruct n as [[]|]; cbn in Hc; injection Hc).
  destruct (create_blank (V:=V1) c d Hd) as [_ Hfile].
  destruct (reopen_stores (K:=K) (V:=V) (KeyDir.kd_file d) [] [] c) as (d' & Hd' & Hs & Hos & _); [by split|done|].
  exists d'. split; [exact Hd'|]. split; [split; [done|by exists []]|]. intros k. by rewrite (kd_get_wf d' []).
Qed.
End UntypedKeyDir.
(** The state catalog is a [State<String, StateConfig>] whose configuration,
    [SYSTEM_STATE_CONFIG], names the unordered engine. *)
Section EngineCatalog.
Context {Cb Ck Cs Kd : Type} `{HasDefault Ck} `{ER : EngineReopens Ck Kd rstring (StateConfig Cb Ck Cs)}.
#[export] Instance engine_catalog : CatalogFile Kd (list Z) := {|
  create_catalog := (engine_create (default_of : Ck) None).2;
  open_catalog f := engine_open (default_of : Ck) (RegularFile <$> f);
  catalog_bytes := engine_bytes (C:=Ck) |}.
#[export] Instance engine_catalog_laws : CatalogFileLaws Kd (StateConfig Cb Ck Cs) (list Z).
Proof.
  constructor.
  - intros c Hc. cbn in Hc. destruct (engine_create _ None) as [n r] eqn:E. cbn in Hc. subst r. by eapply engine_creates.
  - intros c Hc. by apply engine_reopens.
Qed.
End EngineCatalog.
(** A value of a type family that has forgotten its index. *)
Lemma recover_same {A} `{EqDecision A} {P : A → Type} (x : A) (v : P x) :
  match decide (x = x) with left e => Some (eq_rect x P v x e) | right _ => None end = Some v.
Proof. destruct (decide (x = x)) as [e|[]]; [|done]. by rewrite (proof_irrel e eq_refl). Qed.
Lemma recover_inv {A} `{EqDecision A} {P : A → Type} (h : {x : A & P x}) (x : A) (v : P x) :
  match decide (projT1 h = x) with left e => Some (eq_rect _ P (projT2 h) x e) | right _ => None end = Some v →
  h = existT x v.
Proof. destruct h as [y w]. cbn. destruct (decide (y = x)) as [e|]; [|done]. destruct e. by intros [= ->]. Qed.
(** The state [_peers], a [State<PeerId, PeerState>] behind an erased handle. *)
Section EnginePeers.
Context `{L : Libp2p} {Ty Cb Ck Cs : Type} `{EqDecision Ty} {Bp Kd Sk : Ty → Type} `{HasDefault Ck} (new_sk : ∀ ty, Cs → Sk ty).
Context `{EB : ∀ ty, EngineFile Cb (Bp ty)} `{EK : ∀ ty, EngineFile Ck (Kd ty)}.
Context `{DB : ∀ ty, Durable (Bp ty)} `{DK : ∀ ty, Durable (Kd ty)} (unit_ty peers_ty : Ty).
Abbreviation PsBp := (Bp peers_ty). Abbreviation PsKd := (Kd peers_ty). Abbreviation PsSk := (Sk peers_ty).
Context `{Bp_b : Backend PsBp PeerId Devices.PeerState, !BackendLaws PsBp PeerId Devices.PeerState, !DurableLaws PsBp PeerId Devices.PeerState}.
Context `{Kd_b : Backend PsKd PeerId Devices.PeerState, !BackendLaws PsKd PeerId Devices.PeerState, !DurableLaws PsKd PeerId Devices.PeerState}.
Context `{Sk_b : Backend PsSk PeerId Devices.PeerState, !BackendLaws PsSk PeerId Devices.PeerState}.
Context `{!EngineReopens Ck PsKd PeerId Devices.PeerState, !UntypedFile Ck (Kd unit_ty) PsKd PeerId Devices.PeerState}.
Abbreviation Peers := (TypedState (Cb:=Cb) (Ck:=Ck) (Cs:=Cs) (Bp:=Bp) (Kd:=Kd) (Sk:=Sk) peers_ty).
Abbreviation Erased := (ErasedState (Cb:=Cb) (Ck:=Ck) (Cs:=Cs) (Bp:=Bp) (Kd:=Kd) (Sk:=Sk)).
#[export] Instance engine_peers : PeerHandle Erased Peers := {|
  as_peers h := match decide (projT1 h = peers_ty) with
                | left e => Some (eq_rect _ (TypedState (Cb:=Cb) (Ck:=Ck) (Cs:=Cs) (Bp:=Bp) (Kd:=Kd) (Sk:=Sk)) (projT2 h) _ e)
                | right _ => None end;
  with_peers ps h := existT peers_ty ps |}.
Lemma as_peers_of (ps : Peers) : as_peers (existT peers_ty ps : Erased) = Some ps.
Proof using Type. apply (recover_same peers_ty). Qed.
Lemma as_peers_inv (h : Erased) ps : as_peers h = Some ps → h = existT peers_ty ps.
Proof using Type. apply recover_inv. Qed.
Definition peers_backend : Backend Peers PeerId Devices.PeerState := state_backend.
Definition peers_laws : @BackendLaws Peers PeerId Devices.PeerState _ peers_backend := state_laws.
Definition peers_durable : Durable Peers := state_durable.
Definition on_file (ps : Peers) : Prop := match ps with SUnordered _ _ => True | _ => False end.
#[export] Instance engine_peers_laws : PeerHandleLaws (Ty:=Ty) (Cb:=Cb) (Ck:=Ck) (Cs:=Cs) (File:=list Z) (Handle:=Erased) (Ps:=Peers)
  (SF:=state_files (Bp:=Bp) (Kd:=Kd) (Sk:=Sk) new_sk) (Ps_b:=peers_backend) (BackendLaws1:=peers_laws) (Ps_d:=peers_durable)
  (PH:=engine_peers) unit_ty peers_ty.
Proof.
  refine {| filed := on_file |}.
  - by intros p v [].
  - by intros [] [].
  - intros ps ps' h Hh. split; [apply as_peers_of|]. by rewrite (as_peers_inv h ps Hh).
  - intros b h ps Hh Hps Hf. rewrite (as_peers_inv h ps Hh).
    assert (∀ f : Peers → Peers * io unit, writes_nothing (K:=PeerId) f → on_file (f ps).1 →
      ∃ ps', as_peers ((let '(s, r) := f ps in (existT peers_ty s, r)) : Erased * io unit).1 = Some ps' ∧ backend_wf ps' ∧ on_file ps' ∧ ∀ p, get ps' p = get ps p) as Hg.
    { intros f Hw Hon. specialize (Hw ps Hps). destruct (f ps) as [ps' r]. destruct Hw as (Hw & _ & Hget).
      exists ps'. split; [apply as_peers_of|]. by split_and!. }
    destruct b; [apply (Hg flush)|apply (Hg sync)]; [apply flush_nothing|by destruct ps|apply flush_nothing|by destruct ps].
  - intros h ps n Hh Hps Hf. rewrite (as_peers_inv h ps Hh). destruct ps as [?|k c|?]; [done| |done].
    destruct (engine_reopens (B:=PsKd) (K:=PeerId) (V:=Devices.PeerState) (default_of : Ck) k Hps) as (k' & Hk & Hw & Hg).
    eexists _, (SUnordered k' SYSTEM_STATE_CONFIG). split; [|split; [apply as_peers_of|by split]].
    unfold on_path. cbn. unfold open_at, SYSTEM_STATE_CONFIG. cbn. by rewrite Hk.
  - intros n n' h. unfold SYSTEM_STATE_CONFIG. cbn. destruct (engine_create _ n) as [n1 [b|e|]] eqn:E; cbn; [|done..].
    intros [= _ <-]. destruct (untyped_file (B:=Kd unit_ty) (B':=PsKd) (K:=PeerId) (V:=Devices.PeerState) _ _ _ _ E) as (b' & Hb & Hw & Hg).
    eexists _, (SUnordered b' SYSTEM_STATE_CONFIG). split; [|split; [apply as_peers_of|by split]].
    unfold on_path. cbn. unfold open_at. cbn. by rewrite Hb.
Qed.
End EnginePeers.
