(* ===== verification/WitnessCrdt.v ===== *)
(** * Concrete runs of the replicated types

    Each lemma applies a theorem of the replicated types at states built by
    running the operations, with peers numbered; its hypotheses are discharged
    by evaluation. *)
From stdpp Require Import base numbers option sorting list.
From S2P Require Import Prelude Order BTreeMap Stamp Counter LwwSet OrSet MvRegister PriorityQueue Text.

(** Peers, stamps and keys of the runs. *)
Definition at_ (peer : N) (n : Z) : @EventStamp peers_as_N :=
  @mkEventStamp peers_as_N (@mkEventId peers_as_N peer n) (mkEventTime (100 + n) 0).
Definition ms (peer : N) (n : Z) : @MergeStamps peers_as_N :=
  @mkMergeStamps peers_as_N (@EventStamp_default peers_as_N) (at_ peer n).
Definition key (n : Z) : @PrimaryKey peers_as_N := @PK_Int peers_as_N n.
#[local] Existing Instance peers_as_N.

(** Discharge a boolean test by evaluation. *)
Ltac runs := vm_compute; reflexivity.
Ltac sorted := apply bt_sorted_wf; runs.

Module CounterRun.
Import Counter.
Definition s0 : Counter := (apply default (Add 10) (ms 1 1)).1.
Definition sa : Counter := (apply s0 (Add 5) (ms 1 2)).1.
Definition sb : Counter := (apply s0 (Add (-3)) (ms 2 1)).1.
Lemma counter_add_witness :
  wf s0 ∧ (apply s0 (Add (-3)) (ms 2 1)).2 = Ok true ∧
  match apply s0 (Add (-3)) (ms 2 1) with
  | (self', Ok changed) => value self' = (value s0 + -3)%Z ∧ changed = negb (-3 =? 0)%Z
  | (self', Err Overflow) =>
      value self' = value s0 ∧
      let e := from_option id (0, 0)%Z (bt_get 2%N (entries s0)) in
      (u64_max < (if 0 <? -3 then e.1 else e.2) + Z.abs (-3))%Z
  | (_, Panic) => False
  end.
Proof. assert (wf s0) as Hs by sorted. split; [exact Hs|]. split; [done|]. exact (counter_add s0 (-3) (ms 2 1) Hs). Defined.
Lemma counter_no_lost_update_witness : wf s0 ∧ value (merge sa sb).1 = (value s0 + 5 + -3)%Z.
Proof.
  assert (wf s0) as Hs by sorted. split; [exact Hs|].
  apply (counter_no_lost_update s0 sa sb 5 (-3) (ms 1 2) (ms 2 1)); [exact Hs|done|runs..].
Defined.
End CounterRun.

Module SetRun.
Import LwwSet.
Definition a : Set_ := deliver default [(Add (key 1), at_ 1 1); (Add (key 2), at_ 1 2)].
Definition b : Set_ := deliver default [(Add (key 1), at_ 1 1); (Remove (key 1), at_ 2 3)].
Definition c : Set_ := deliver default [(Remove (key 2), at_ 3 4); (Add (key 3), at_ 3 5)].
Definition h1 : list (SetOp * EventStamp) := [(Add (key 1), at_ 1 1); (Remove (key 1), at_ 2 3)].
Lemma set_membership_witness :
  contains (deliver default (rev h1)) (key 1) = contains (deliver default h1) (key 1).
Proof. apply (proj2 (set_membership h1 (rev h1) (key 1))). apply Permutation_rev. Defined.
Lemma set_converges_witness :
  wf a ∧ wf b ∧ wf c ∧
  (merge a b).1 = (merge b a).1 ∧
  (merge (merge a b).1 c).1 = (merge a (merge b c).1).1 ∧
  merge a a = (a, Ok false) ∧
  (∃ ch, (merge a b).2 = Ok ch ∧ (ch = false ↔ (merge a b).1 = a)).
Proof.
  assert (wf a ∧ wf b ∧ wf c) as (Ha & Hb & Hc) by (split_and!; sorted).
  do 3 (split; [assumption|]). by apply (set_converges a b c).
Defined.
End SetRun.

Module OrSetRun.
Import OrSet.
Definition a : OrSet := deliver default [(Add (key 1), at_ 1 1); (Add (key 2), at_ 1 2)].
Definition b : OrSet := (apply a (remove a (key 1)) (ms 2 3)).1.
Definition c : OrSet := deliver default [(Add (key 1), at_ 3 4)].
Lemma or_run_wf (s : OrSet) : bt_sorted (entries s) = true →
  forallb (λ p, bt_sorted (adds p.2) && bt_sorted (rems p.2)) (entries s) = true → wf s.
Proof.
  intros Hs Hf. split; [by apply bt_sorted_wf|]. revert Hf.
  apply (bt_get_forallb entry_wf (λ e, bt_sorted (adds e) && bt_sorted (rems e))).
  intros e [H1 H2]%andb_true_iff. by split; apply bt_sorted_wf.
Qed.
Lemma runs_wf : wf a ∧ wf b ∧ wf c.
Proof. split_and!; apply or_run_wf; runs. Qed.
Lemma orset_observed_remove_witness :
  contains a (key 1) = true ∧ contains (apply a (remove a (key 1)) (ms 2 3)).1 (key 1) = false ∧
  contains (apply a (remove a (key 1)) (ms 2 3)).1 (key 2) = true.
Proof.
  split; [done|]. destruct (orset_observed_remove a (key 1) (key 2) (ms 2 3)) as [H1 H2].
  split; [exact H1|]. rewrite H2; done.
Defined.
Lemma orset_converges_witness :
  wf a ∧ wf b ∧ wf c ∧
  (merge a b).1 = (merge b a).1 ∧
  (merge (merge a b).1 c).1 = (merge a (merge b c).1).1 ∧
  merge a a = (a, Ok false) ∧
  (∃ ch, (merge a b).2 = Ok ch ∧ (ch = false ↔ (merge a b).1 = a)).
Proof.
  destruct runs_wf as (Ha & Hb & Hc). do 3 (split; [assumption|]). by apply (orset_converges a b c).
Defined.
End OrSetRun.

Module MvRun.
Import MvRegister.
Definition h : list (MvRegisterOp Z * EventStamp) :=
  [(Assign 7%Z [], at_ 1 1); (Assign 9%Z [at_ 1 1], at_ 2 2); (Assign 8%Z [at_ 1 1], at_ 3 2)].
Definition a : MvRegister Z := (apply Z default (Assign 7%Z []) (ms 1 1)).1.
Definition b : MvRegister Z := (apply Z a (assign Z a 9%Z) (ms 2 2)).1.
Definition c : MvRegister Z := (apply Z a (assign Z a 8%Z) (ms 3 2)).1.
Lemma mv_run_wf (s : MvRegister Z) : bt_sorted (entries s) = true → bt_sorted (removed s) = true →
  forallb (λ p, negb (bt_contains p.1 (removed s))) (entries s) = true → wf Z s.
Proof.
  intros He Hr Hd. split; [by apply bt_sorted_wf|]. split; [by apply bt_sorted_wf|].
  intros id [v Hv]. apply bt_get_In, list_elem_of_In in Hv. rewrite forallb_forall in Hd.
  specialize (Hd _ Hv). apply bt_contains_false. by apply negb_true_iff in Hd.
Qed.
Lemma mv_run_ok (s s' : MvRegister Z) : bt_agree Z.eqb (entries s) (entries s') = true → ok Z s s'.
Proof. intros Hf. refine (bt_agree_get eq _ _ _ _ Hf). intros v w. apply Z.eqb_eq. Qed.
Lemma mv_register_history_witness :
  functional Z h ∧ ∃ s, deliver Z (Ok default) h = Ok s ∧
    ∀ id v, bt_get id (entries s) = Some v ↔ assigned Z h id v ∧ ¬ replaced Z h id.
Proof.
  assert (functional Z h) as Hf.
  { intros v w id [r Hv] [r' Hw]. repeat (apply elem_of_cons in Hv as [Hv|Hv]; [injection Hv as -> -> ->|]);
      [..|by apply elem_of_nil in Hv];
    repeat (apply elem_of_cons in Hw as [Hw|Hw]; [try (injection Hw; intros; congruence); discriminate Hw|]);
    by apply elem_of_nil in Hw. }
  split; [exact Hf|]. exact (mv_register_history Z h Hf).
Defined.
Lemma mv_register_assign_witness :
  wf Z a ∧ ∃ s' changed, apply Z a (assign Z a 9%Z) (ms 2 2) = (s', Ok changed) ∧ values Z s' = [9%Z].
Proof.
  assert (wf Z a) as Ha by (apply mv_run_wf; runs).
  split; [exact Ha|]. apply (mv_register_assign Z a 9%Z (ms 2 2)); [exact Ha|runs|runs].
Defined.
Lemma mv_register_converges_witness :
  wf Z a ∧ wf Z b ∧ wf Z c ∧ values Z (merge Z b c).1 = [9%Z; 8%Z] ∧
  (merge Z a b).1 = (merge Z b a).1 ∧
  (merge Z (merge Z a b).1 c).1 = (merge Z a (merge Z b c).1).1 ∧
  merge Z a a = (a, Ok false) ∧
  (∃ ch, (merge Z a b).2 = Ok ch ∧ (ch = false ↔ (merge Z a b).1 = a)).
Proof.
  assert (wf Z a ∧ wf Z b ∧ wf Z c) as (Ha & Hb & Hc) by (split_and!; apply mv_run_wf; runs).
  do 3 (split; [assumption|]). split; [runs|].
  apply (mv_register_converges Z a b c); [assumption..| | |]; apply mv_run_ok; runs.
Defined.
End MvRun.

Module PqRun.
Import PriorityQueue.
Definition h : list (PqOp Z * EventStamp) :=
  [(Push 5%Z 50%Z, at_ 1 1); (Push 1%Z 10%Z, at_ 1 2); (Pop (at_ 1 1), at_ 2 3)].
Definition push (s : PriorityQueue Z) (p v : Z) (stamps : MergeStamps) : PriorityQueue Z :=
  (apply Z s (Push p v) stamps).1.
Definition a : PriorityQueue Z := push (push default 5 50 (ms 1 1)) 1 10 (ms 1 2).
Definition b : PriorityQueue Z := (apply Z a (Pop (at_ 1 2)) (ms 2 3)).1.
Definition c : PriorityQueue Z := push default 3 30 (ms 3 1).
Lemma pq_history_witness :
  functional Z h ∧ ∃ s, deliver Z (Ok default) h = Ok s ∧
    (∀ p id v, (p, id, v) ∈ live Z s ↔ (Push p v, id) ∈ h ∧ ¬ popped Z h id) ∧
    StronglySorted (λ x y, (rank Z x <=? rank Z y) = true) (live Z s).
Proof.
  assert (functional Z h) as Hf.
  { intros p v q w id Hv Hw. repeat (apply elem_of_cons in Hv as [Hv|Hv]; [try discriminate Hv|]);
      [injection Hv as -> -> ->..|by apply elem_of_nil in Hv];
    repeat (apply elem_of_cons in Hw as [Hw|Hw]; [try discriminate Hw; injection Hw; intros; split; congruence|]);
    by apply elem_of_nil in Hw. }
  split; [exact Hf|]. exact (pq_history Z h Hf).
Defined.
Lemma pq_pop_witness :
  wf Z a ∧ live Z a = [(1, at_ 1 2, 10); (5, at_ 1 1, 50)]%Z ∧
  pop Z a = Some (Pop (at_ 1 2)) ∧
  ∃ s', apply Z a (Pop (at_ 1 2)) (ms 2 3) = (s', Ok true) ∧ live Z s' = [(5, at_ 1 1, 50)]%Z.
Proof.
  assert (wf Z a) as Ha by sorted. split; [exact Ha|]. split; [runs|].
  pose proof (pq_pop Z a Ha) as Hp.
  replace (live Z a) with [(1, at_ 1 2, 10); (5, at_ 1 1, 50)]%Z in Hp by (runs).
  destruct Hp as [Hp1 Hp2]. split; [exact Hp1|]. apply (Hp2 (ms 2 3)). runs.
Defined.
Definition entry_agree (l r : PqEntry Z) : bool :=
  match content Z l, content Z r with Some x, Some y => bool_decide (x = y) | _, _ => true end.
Lemma pq_run_ok (s s' : PriorityQueue Z) : bt_agree entry_agree (entries s) (entries s') = true → ok Z s s'.
Proof.
  intros Hf. refine (bt_agree_get (entry_ok Z) _ _ _ _ Hf). intros l r H x y Hx Hy. unfold entry_agree in H. rewrite Hx, Hy in H.
  by apply bool_decide_eq_true in H.
Qed.
Lemma pq_converges_witness :
  wf Z a ∧ wf Z b ∧ wf Z c ∧
  (merge Z a b).1 = (merge Z b a).1 ∧
  (merge Z (merge Z a b).1 c).1 = (merge Z a (merge Z b c).1).1 ∧
  merge Z a a = (a, Ok false) ∧
  (∃ ch, (merge Z a b).2 = Ok ch ∧ (ch = false ↔ (merge Z a b).1 = a)).
Proof.
  assert (wf Z a ∧ wf Z b ∧ wf Z c) as (Ha & Hb & Hc) by (split_and!; sorted).
  do 3 (split; [assumption|]).
  apply (pq_converges Z a b c); [assumption..| | |]; apply pq_run_ok; runs.
Defined.
End PqRun.

Module TextRun.
Import Text.
Definition ins (s : Text Z) (after_ : option TextId) (t : list Z) (stamps : MergeStamps) : Text Z :=
  (apply Z s (Insert after_ (map Z.to_N t)) stamps).1.
(** "ac" by peer 1, then "b" after the "a". *)
Definition a : Text Z := ins default None [97; 99]%Z (ms 1 1).
Definition b : Text Z := ins a (Some (at_ 1 1, 0%Z)) [98]%Z (ms 2 2).
Definition c : Text Z := (apply Z a (Delete [(at_ 1 1, 1%Z)]) (ms 3 2)).1.
Lemma text_run_wf (s : Text Z) : bt_sorted (entries s) = true →
  forallb (λ p, bt_sorted (attrs p.2)) (entries s) = true → wf Z s.
Proof.
  intros Hw Hf. split; [by apply bt_sorted_wf|]. revert Hf.
  apply (bt_get_forallb (λ e, bt_wf (attrs e)) (λ e, bt_sorted (attrs e))). intros e. apply bt_sorted_wf.
Qed.
(** The runs carry no attributes. *)
Definition text_agree (l r : TextEntry Z) : bool :=
  bool_decide (attrs l = []) &&
  match content l, content r with Some x, Some y => bool_decide (x = y) | _, _ => true end.
Lemma text_run_ok (s s' : Text Z) : bt_agree text_agree (entries s) (entries s') = true → ok Z s s'.
Proof.
  intros Hf. refine (bt_agree_get (entry_ok Z) _ _ _ _ Hf). intros l r [Ha H]%andb_true_iff. apply bool_decide_eq_true in Ha. split.
  - intros x y Hx Hy. rewrite Hx, Hy in H. by apply bool_decide_eq_true in H.
  - intros k v w. by rewrite Ha.
Qed.

Lemma text_insert_witness :
  wf Z a ∧ string Z a = [97; 99]%N ∧
  ∃ self', apply Z a (Insert (Some (at_ 1 1, 0%Z)) [98]%N) (ms 2 2) = (self', Ok true) ∧
    string Z self' = [97; 98; 99]%N.
Proof.
  assert (wf Z a) as Ha by (apply text_run_wf; runs). split; [exact Ha|]. split; [runs|].
  destruct (text_insert Z a [98]%N (ms 2 2) (Some (at_ 1 1, 0%Z)) [(at_ 1 1, 0%Z)] [(at_ 1 1, 1%Z)])
    as (self' & H1 & _ & _ & H4).
  - exact Ha.
  - intros id e He. apply bt_get_In in He.
    repeat (apply elem_of_cons in He as [He|He]; [injection He as -> ->|]);
      [..|by apply elem_of_nil in He]; (split; [runs|]).
    + intros ? ? [= <-]; done.
    + intros ? ? [= <-] [= <-]. runs.
  - done.
  - done.
  - runs.
  - done.
  - by intros ? [= <-].
  - exists self'. split; [exact H1|]. rewrite H4. runs.
Defined.
Lemma text_delete_witness :
  wf Z b ∧ ∃ self' changed, apply Z b (Delete [(at_ 1 1, 1%Z)]) (ms 3 3) = (self', Ok changed) ∧
    visible_ids Z self' = [(at_ 1 1, 0%Z); (at_ 2 2, 0%Z)].
Proof.
  assert (wf Z b) as Hb by (apply text_run_wf; runs). split; [exact Hb|].
  destruct (text_delete Z b [(at_ 1 1, 1%Z)] (ms 3 3)) as (self' & ch & H1 & H2).
  - exact Hb.
  - done.
  - intros id Hid. apply elem_of_cons in Hid as [->|Hid]; [|by apply elem_of_nil in Hid].
    split; [done|]. split; [eexists|]; runs.
  - exists self', ch. split; [exact H1|]. rewrite H2. runs.
Defined.
Lemma text_converges_witness :
  wf Z a ∧ wf Z b ∧ wf Z c ∧ string Z (merge Z b c).1 = [97; 98]%N ∧
  (merge Z a b).1 = (merge Z b a).1 ∧
  (merge Z (merge Z a b).1 c).1 = (merge Z a (merge Z b c).1).1 ∧
  merge Z a a = (a, Ok false) ∧
  (∃ ch, (merge Z a b).2 = Ok ch ∧ (ch = false ↔ (merge Z a b).1 = a)).
Proof.
  assert (wf Z a ∧ wf Z b ∧ wf Z c) as (Ha & Hb & Hc) by (split_and!; apply text_run_wf; runs).
  do 3 (split; [assumption|]). split; [runs|].
  apply (text_converges Z a b c); [assumption..| | |]; apply text_run_ok; runs.
Defined.
End TextRun.
