(* ===== verification/WitnessCell.v ===== *)
(** * Concrete runs of cells, receipts and identifiers

    Records of nested values, built by running operations, on which the
    theorems of [CellLaws.v], [CellOps.v], [Receipts.v] and [WorkspaceId.v] are
    applied; and a history on which merging is not associative. *)
From stdpp Require Import base numbers option sorting list.
From S2P Require Import Prelude Bytes Order BTreeMap Stamp Counter Value CellLaws CellOps Receipts WorkspaceId WitnessCrdt.
#[local] Existing Instance peers_as_N.

Module CellRun.
Definition title : rstring := [116]%N.
Definition hits : rstring := [104]%N.
Definition step (c : Cell) (path : Path) (op : Op) (peer : N) (n : Z) : Cell :=
  (cell_apply_walk path c op (mkMergeStamps (stamp c) (at_ peer n))).1.
(** A record with a title and a counter; then edits of three replicas. *)
Definition row (h t : Cell) : Cell := mkCell (Some (Record' (mkRecord [(hits, h); (title, t)]))) (at_ 1 1).
Definition counted (l : list (N * (Z * Z))) (peer : N) (n : Z) : Cell :=
  mkCell (Some (Counter (Counter.mkCounter l))) (at_ peer n).
Definition titled (t : N) (peer : N) (n : Z) : Cell := mkCell (Some (String [t])) (at_ peer n).
Definition base : Cell := row (counted [(1%N, (2, 0)%Z)] 1 2) (titled 97 1 1).
Definition a : Cell := row (counted [(1%N, (7, 0)%Z)] 1 3) (titled 97 1 1).
Definition b : Cell := row (counted [(1%N, (2, 0)%Z)] 1 2) (titled 98 2 4).
Definition c : Cell := row (counted [(1%N, (2, 0)%Z); (3%N, (1, 0)%Z)] 3 5) (titled 97 1 1).
Definition gone : Cell := row (mkCell None (at_ 2 6)) (titled 97 1 1).
(** They are what the operations make. *)
Lemma runs_of_operations :
  base = step (step (dummy None) [SegRecord title] (OpUpsert (String [97]%N)) 1 1)
           [SegRecord hits] (OpType (OpCounter (Counter.Add 2%Z))) 1 2 ∧
  a = step base [SegRecord hits] (OpType (OpCounter (Counter.Add 5%Z))) 1 3 ∧
  b = step base [SegRecord title] (OpUpsert (String [98]%N)) 2 4 ∧
  c = step base [SegRecord hits] (OpType (OpCounter (Counter.Add 1%Z))) 3 5 ∧
  gone = step base [SegRecord hits] OpDelete 2 6.
Proof. split_and!; by vm_compute. Qed.

Lemma row_wf h t : cell_wf 0 h → cell_wf 0 t → cell_wf 1 (row h t).
Proof.
  intros Hh Ht. split; [by apply bt_sorted_wf|]. apply bt_get_forall. by repeat constructor.
Qed.
Lemma row_ok strict h t h' t' : cell_ok strict 0 h h' → cell_ok strict 0 t t' →
  cell_ok strict 1 (row h t) (row h' t').
Proof.
  intros Hh Ht k l r. cbn [fields row]. unfold bt_get. destruct (cmp k hits); [by intros [= <-] [= <-]|..];
    (destruct (cmp k title); [by intros [= <-] [= <-]|done..]).
Qed.
Lemma counted_wf l peer n : bt_sorted l = true → cell_wf 0 (counted l peer n).
Proof. apply bt_sorted_wf. Qed.
Ltac wf_tac := apply row_wf; [try apply counted_wf; done|done].
Lemma at_ne peer n peer' n' : (peer =? peer')%N = false → at_ peer n ≠ at_ peer' n'.
Proof. intros Hp E. apply (f_equal (λ s, peer_id (stamp_id s))) in E. simpl in E. subst. by rewrite N.eqb_refl in Hp. Qed.
Ltac ok_tac := apply row_ok;
  first [done | split; [done|by apply at_ne] | intros E; exfalso; revert E; by apply at_ne].

Lemma cell_converges_witness :
  cell_wf 1 a ∧ cell_wf 1 b ∧ cell_wf 1 c ∧
  (cell_sync a b).1 = (cell_sync b a).1 ∧
  (cell_sync (cell_sync a b).1 c).1 = (cell_sync a (cell_sync b c).1).1 ∧
  cell_sync a a = (a, Ok false) ∧
  (∃ ch, (cell_sync a b).2 = Ok ch ∧ (ch = false ↔ (cell_sync a b).1 = a)).
Proof.
  assert (cell_wf 1 a ∧ cell_wf 1 b ∧ cell_wf 1 c) as (Ha & Hb & Hc) by (split_and!; wf_tac).
  do 3 (split; [assumption|]). apply (cell_converges 1 a b c); [assumption..| | |]; ok_tac.
Defined.
Lemma cell_exchange_agrees_witness :
  cell_wf 1 a ∧ cell_wf 1 gone ∧
  ∃ merged changed changed',
    cell_sync a gone = (merged, Ok changed) ∧ cell_sync gone a = (merged, Ok changed').
Proof.
  assert (cell_wf 1 a ∧ cell_wf 1 gone) as (Ha & Hb) by (split_and!; wf_tac).
  do 2 (split; [assumption|]). apply (cell_exchange_agrees 1 a gone); [assumption..|ok_tac].
Defined.
Lemma cell_last_writer_wins_witness :
  deliver base [(OpUpsert (Int 1%Z), at_ 2 4); (OpUpsert (Int 7%Z), at_ 3 6); (OpDelete, at_ 1 5)] =
  mkCell (Some (Int 7%Z)) (at_ 3 6).
Proof.
  apply (cell_last_writer_wins base [(OpUpsert (Int 1%Z), at_ 2 4)] [(OpDelete, at_ 1 5)]
    (OpUpsert (Int 7%Z)) (Some (Int 7%Z)) (at_ 3 6)); [done|done|].
  repeat constructor; eexists; reflexivity.
Defined.
Definition counter_cell (k : Z) (n : Z) : Cell :=
  mkCell (Some (Counter (Counter.apply Counter.default (Counter.Add k) (ms 1 n)).1)) (at_ 1 n).
Lemma walk_focuses_witness :
  reaches [SegRecord hits] (OpType (OpCounter (Counter.Add 1%Z))) base (counter_cell 2%Z 2) ∧
  cell_at_path [SegRecord title] c = cell_at_path [SegRecord title] base.
Proof.
  assert (reaches [SegRecord hits] (OpType (OpCounter (Counter.Add 1%Z))) base (counter_cell 2%Z 2)) as Hr.
  { split; [done|]. split; [done|]. eexists. split; [by vm_compute|]. split; [by intros ? [= <-]|].
    by vm_compute. }
  split; [exact Hr|].
  apply (walk_focuses [SegRecord hits] base (counter_cell 2%Z 2)
    (OpType (OpCounter (Counter.Add 1%Z))) (mkMergeStamps (stamp base) (at_ 3 5)) Hr).
  - intros [k Hk]. discriminate Hk.
  - intros [k Hk]. discriminate Hk.
Defined.
(** The record [{hits: 2}], whose counter an upsert of an integer replaces. *)
Definition one_field : Record := mkRecord [(hits, counter_cell 2 2)].
Lemma nested_upsert_lost_witness :
  (cell_apply_walk [SegRecord hits] (mkCell (Some (Record' one_field)) (at_ 1 2))
    (OpUpsert (Int 9%Z)) (ms 2 7)).2 = Ok false.
Proof.
  apply (nested_upsert_lost one_field (at_ 1 2) hits (counter_cell 2 2) (Int 9%Z) (ms 2 7)); done.
Defined.
End CellRun.

(** Merging is not associative once a cell has been deleted and written again:
    the order in which a replica meets the tombstone decides whether what was
    counted before the delete comes back. *)
Lemma cell_merge_not_associative : ∃ a b c : Cell, let sum := λ c, match value c with Some (Counter k) => Counter.value k | _ => 0%Z end in
  sum (cell_sync (cell_sync a b).1 c).1 = 1%Z ∧ sum (cell_sync a (cell_sync b c).1).1 = 3%Z.
Proof.
  exists (CellRun.counter_cell 2 1), (mkCell None (at_ 2 2)),
    (mkCell (Some (Counter (Counter.apply Counter.default (Counter.Add 1%Z) (ms 3 3)).1)) (at_ 3 3)).
  by vm_compute.
Qed.

Module ReceiptRun.
Import Receipts.
Definition w : ReceiptWindow := observe_all default [1; 5; 3]%Z.
Lemma run_wf : wf w.
Proof. vm_compute; repeat constructor; discriminate. Qed.
Lemma receipts_observe_witness :
  ∃ w' o, observe w 4 = (w', Ok o) ∧ wf w' ∧ (∀ m, seen w' m ↔ seen w m ∨ m = 4%Z) ∧
    (o = New ↔ ¬ seen w 4).
Proof. apply (receipts_observe w 4%Z run_wf). unfold u64_max. lia. Defined.
Lemma receipts_canonical_witness : observe_all w [2; 4; 2]%Z = observe_all w [4; 2]%Z.
Proof.
  apply (receipts_canonical w [2; 4; 2]%Z [4; 2]%Z run_wf).
  - repeat constructor; unfold u64_max; lia.
  - repeat constructor; unfold u64_max; lia.
  - intros n. rewrite !elem_of_cons, elem_of_nil. tauto.
Defined.
End ReceiptRun.

Module IdRun.
Import WorkspaceId.
Definition id0 : WorkspaceId := [255; 0; 17; 34; 51; 68; 85; 102; 119; 136; 153; 170; 187; 204; 221; 238]%Z.
Lemma workspace_id_roundtrip_witness :
  ∃ text, fmt id0 = Some text ∧ length text = TEXT_LEN ∧ from_str text = Ok id0.
Proof.
  apply (workspace_id_roundtrip id0). split; [done|].
  repeat constructor; unfold is_digit; lia.
Defined.
End IdRun.
