(* ===== verification/WitnessStorage.v ===== *)
(** * Concrete runs of the storage layer

    A topic of bytes with two segments, and a table over [State] with maps as
    engines; the theorems of the storage layer are applied to them. *)
From stdpp Require Import base numbers option gmap sorting list.
From S2P Require Import Prelude Bytes Order BTreeMap Stamp Counter Value CellOps Backend MapBackend.
From S2P Require Import MergedEntries Serdes Topic TopicLog TopicLaws Table TableLaws TableRecovery TableReads.
From S2P Require Import State WitnessCrdt WitnessCell.
#[local] Existing Instance peers_as_N.
Abbreviation offsets := (btree rstring Z).

(** The files of a segment of one record. *)
Definition one_record {A} `{Codec A} (base : Z) (v : A) : Topic.Segment :=
  Topic.mkSegment base (base + 1) (8 + Z.of_nat (length (encoded v)))
    (Topic.magic_bytes ++ frame v) false.
Lemma one_record_ok {A} `{Codec A} (base : Z) (v : A) : storable v → seg_ok (one_record base v) [v].
Proof.
  intros Hv. split; [by constructor|]. unfold frames. simpl. rewrite app_nil_r. split; [done|].
  split; [|done]. simpl. lia.
Qed.

Module TopicRun.
Import Topic.
#[local] Existing Instance byte_codec.
Definition reader : rstring := [114%N].
(** Two records, each in a segment of its own; one consumer at offset 0. *)
Definition t : Topic offsets :=
  mkTopic 12 [one_record 0 5%Z; one_record 1 6%Z] [] 2 {[reader := mkConsumer 0 0 true]} [(reader, 0%Z)]
    (mkStats 0 2 2 18) 100 [].
Definition h : TopicConsumer := mkHandle reader None.
Definition tear : list Z := [3; 0; 0; 0; 1]%Z.
Lemma byte_storable z : is_byte z → storable z.
Proof.
  intros Hz. split; [by apply byte_codec_ok|]. unfold is_byte, is_digit in Hz. unfold encoded. cbn.
  destruct (Z.leb_spec 0 z), (Z.ltb_spec z 256); cbn; lia.
Qed.
Lemma t_wf : topic_wf t [5; 6]%Z.
Proof.
  assert (is_byte 5 ∧ is_byte 6) as [H5 H6] by (unfold is_byte, is_digit; lia).
  constructor; try done.
  exists [one_record 0 5%Z], (one_record 1 6%Z), [5%Z], [6%Z].
  split; [done|]. split; [done|]. split; [|split; [|done]].
  - refine (closed_cons (one_record 0 5%Z) [5%Z] [] [] 1 _ _ _);
      [by apply one_record_ok, byte_storable|done|constructor].
  - by apply one_record_ok, byte_storable.
Qed.
Lemma topic_append_witness :
  (append 7%Z t).2 = Ok 2%Z ∧
  ∃ k, k ≤ 2 ∧ topic_wf (append 7%Z t).1 (drop k [5; 6]%Z ++ [7%Z]).
Proof.
  assert (storable 7%Z) as H7 by (apply byte_storable; unfold is_byte, is_digit; lia).
  pose proof (topic_append t [5; 6]%Z 7%Z t_wf H7) as Ha.
  assert (8 + length (encoded 7%Z) ≤ tp_disk t) as Hd by (apply Nat.leb_le; runs).
  specialize (Ha Hd). destruct (append 7%Z t) as [t' r].
  destruct Ha as (Hr & k & Hk & Hw & _). split; [exact Hr|]. exists k. split; [exact Hk|exact Hw].
Defined.
Lemma topic_read_witness :
  ∃ t', topic_wf t' [5; 6]%Z ∧ consumer_state h t' = Some (mkConsumer 0 2 true) ∧
  ∀ fuel, 2 < fuel → ∃ h', tc_name h' = reader ∧ drain fuel h t = (t', h', Ok [5; 6]%Z).
Proof. apply (topic_read t [5; 6]%Z h (mkConsumer 0 0 true) t_wf); done. Defined.
Lemma topic_recovery_witness :
  ∃ t', open_topic 12 [(1%Z, seg_file (one_record 1 6%Z) ++ tear); (0%Z, seg_file (one_record 0 5%Z))]
    [(reader, 0%Z)] 50 = Ok t' ∧ topic_wf t' [5; 6]%Z ∧ tp_next t' = 2%Z.
Proof.
  destruct (topic_recovery t [5; 6]%Z tear
    [(1%Z, seg_file (one_record 1 6%Z) ++ tear); (0%Z, seg_file (one_record 0 5%Z))] 12
    [(reader, 0%Z)] 50 t_wf) as (t' & H1 & H2 & H3 & _).
  - right. exists [3; 0; 0; 0]%Z, [1%Z]. split; [done|]. split; [done|]. by apply Z.ltb_lt.
  - apply Permutation_swap.
  - by constructor.
  - exists t'. split; [exact H1|]. split; [exact H2|exact H3].
Defined.
End TopicRun.

(** A codec that knows one value. *)
Definition one_codec {A} (v : A) : Codec A := {|
  bincode_encode := λ _, Some [7%Z];
  bincode_decode := λ bs, match bs with [7%Z] => Some (v, 1) | _ => None end |}.
Lemma one_codec_ok {A} (v : A) : codec_ok (H:=one_codec v) v.
Proof.
  exists [7%Z]. split; [done|]. split; [|done]. constructor; [|done].
  unfold is_byte, is_digit. lia.
Qed.
Lemma one_storable {A} (v : A) : storable (Cd:=one_codec v) v.
Proof. split; [apply one_codec_ok|]. by apply Z.ltb_lt. Qed.

Module TableRun.
Import Table.
Abbreviation rows := (btree PrimaryKey Cell).
Abbreviation state := (State rows rows rows (StateConfig unit unit unit)).
Definition k1 : PrimaryKey := key 1.
Definition ev : Event := mkEvent k1 [] (OpUpsert (Int 9%Z)) (at_ 1 1).
Definition row : Cell := mkCell (Some (Int 9%Z)) (at_ 1 1).
Definition ch : Change := mkChange ev None (Some row).
#[local] Instance change_codec : Codec Change := one_codec ch.
Definition h : Topic.TopicConsumer := Topic.mkHandle RECOVERY_CONSUMER None.
Definition store (b : rows) : state := SOrdered b (ConfigOrdered tt).
(** A new table, and the table after one insert, not yet written back. *)
Definition topic0 : Topic.Topic offsets :=
  Topic.mkTopic 1000 [Topic.mkSegment 0 0 4 Topic.magic_bytes false] [] 0
    {[RECOVERY_CONSUMER := Topic.mkConsumer 0 0 true]} [(RECOVERY_CONSUMER, 0%Z)]
    (Topic.mkStats 0 0 0 4) 100 [].
Definition topic1 : Topic.Topic offsets :=
  Topic.mkTopic 1000 [one_record 0 ch] [] 1
    {[RECOVERY_CONSUMER := Topic.mkConsumer 0 1 true]} [(RECOVERY_CONSUMER, 0%Z)]
    (Topic.mkStats 0 1 1 9) 91 [].
Definition t0 : Table state rows offsets := mkTable (store []) [] 0 topic0 h.
Definition t1 : Table state rows offsets := mkTable (store []) [(k1, row)] 1 topic1 h.
Lemma kinds : kind_stable (St:=state).
Proof. intros s. apply state_kind_fixed. Qed.
Lemma state_reliable fits : reliable (B:=state) fits backend_wf.
Proof. by intros [b c|b c|b c] Hb. Qed.
Lemma t0_ok : table_ok t0 [].
Proof.
  constructor; [done|done|by repeat constructor| |done|].
  - constructor; try done. exists [], (Topic.mkSegment 0 0 4 Topic.magic_bytes false), [], [].
    split; [done|]. split; [done|]. split; [constructor|]. split; [|done]. by split_and!.
  - by exists (Topic.mkConsumer 0 0 true).
Qed.
Lemma t1_ok : table_ok t1 [ch].
Proof.
  constructor; [done|by repeat constructor|by repeat constructor| |done|].
  - constructor; try done. exists [], (one_record 0 ch), [], [ch].
    split; [done|]. split; [done|]. split; [constructor|]. split; [|done].
    apply one_record_ok, one_storable.
  - exists (Topic.mkConsumer 0 1 true). split_and!; try done. intros k.
    change (match cmp k k1 with Eq => Some row | _ => None end =
      match (match cmp k k1 with Eq => Some row | _ => None end) with Some c => Some c | None => None end).
    by destruct (cmp k k1).
Qed.
Lemma table_insert_witness :
  ∃ t', insert ev t0 = (t', Ok (Applied ch)) ∧ table_get t' k1 = Some row ∧ table_ok t' [ch].
Proof.
  pose proof (table_insert kinds ev t0 [] t0_ok) as Hi.
  assert (change_of ev t0 = ch) as Ec by runs. rewrite Ec in Hi.
  specialize (Hi ltac:(done) (one_storable ch) ltac:(apply Nat.leb_le; runs)).
  assert ((insert_walk ev t0).2 = Ok true) as Ew by runs.
  destruct (insert ev t0) as [t' r] eqn:Ei. destruct Hi as [Hi Hrel]. rewrite Ew in Hrel.
  specialize (Hrel (λ _ _, True) (state_reliable _) ltac:(by repeat constructor)). destruct r as [[|change]|e|]; [..|done|done].
  - destruct Hi as [_ Hi]. rewrite Ew in Hi. done.
  - destruct Hi as (-> & _ & (Hget & j & Hj & Hok & _) & _). exists t'. split; [done|].
    split; [by rewrite Hget|]. destruct j; [exact Hok|simpl in Hj; lia].
Defined.
Lemma table_write_back_witness :
  ∃ t', table_flush t1 = (t', Ok tt) ∧ settled t' ∧
    get (Topic.tp_offsets (tb_topic t')) RECOVERY_CONSUMER = Some 1%Z.
Proof.
  pose proof (table_write_back kinds t1 [ch] true t1_ok) as Hw. cbn [negb] in Hw.
  destruct (table_flush t1) as [t' r] eqn:Ef. exists t'.
  assert (r = Ok tt) as -> by (apply (f_equal snd) in Ef; symmetry; exact Ef).
  destruct Hw as (_ & _ & _ & _ & Hw). destruct (Hw eq_refl) as (Hs & _ & Hg).
  split; [done|]. split; [exact Hs|]. by apply Hg.
Defined.
(** The process dies before the row is written back, while writing a second
    record. *)
Lemma table_recovery_witness :
  crashed t1 [1; 0]%Z (store []) [] [(0%Z, Topic.seg_file (one_record 0 ch) ++ [1; 0]%Z)]
    [(RECOVERY_CONSUMER, 0%Z)] ∧
  ∃ t', open_table 2 (store []) ([] : rows) 1000
    [(0%Z, Topic.seg_file (one_record 0 ch) ++ [1; 0]%Z)] [(RECOVERY_CONSUMER, 0%Z)] 100 = Ok t' ∧
    table_get t' k1 = Some row.
Proof.
  assert (crashed t1 [1; 0]%Z (store []) [] [(0%Z, Topic.seg_file (one_record 0 ch) ++ [1; 0]%Z)]
    [(RECOVERY_CONSUMER, 0%Z)]) as Hc.
  { constructor; [done|done|by repeat constructor|done|]. left. simpl. lia. }
  split; [exact Hc|].
  destruct (table_recovery kinds t1 [ch] [1; 0]%Z (store []) [] _ _ 1000 100 2 t1_ok Hc ltac:(apply Nat.ltb_lt; runs))
    as (Hnp & Hok & Hrel).
  destruct (open_table 2 _ _ _ _ _ _) as [t'|e|] eqn:Eo.
  - exists t'. split; [done|]. destruct (Hok t' eq_refl) as (_ & Hs & _). by rewrite Hs.
  - discriminate (Hrel (λ _ _, True) (λ _ _, True) (state_reliable _) ltac:(by repeat constructor) (map_reliable _) I).
  - by destruct Hnp.
Defined.
Lemma backend_update_witness :
  ∃ b', update k1 (λ _, Some row) ([] : rows) = (b', Ok tt) ∧ get b' k1 = Some row.
Proof.
  exists [(k1, row)]. split; [done|].
  by apply (backend_update k1 (λ _, Some row) ([] : rows) [(k1, row)]).
Defined.
Lemma merged_overlay_witness :
  merged (rev [(1%Z, 5%Z); (3%Z, 6%Z)]) (rev [(1%Z, 7%Z); (2%Z, 8%Z)]) Descending =
  rev [(1%Z, 7%Z); (2%Z, 8%Z); (3%Z, 6%Z)].
Proof.
  assert (merged [(1%Z, 5%Z); (3%Z, 6%Z)] [(1%Z, 7%Z); (2%Z, 8%Z)] Ascending =
    [(1%Z, 7%Z); (2%Z, 8%Z); (3%Z, 6%Z)]) as <- by runs.
  apply (merged_overlay [(1%Z, 5%Z); (3%Z, 6%Z)] [(1%Z, 7%Z); (2%Z, 8%Z)]); by repeat constructor.
Defined.
End TableRun.

From S2P Require Import SkipList SkipListLaws SkipListBackend SkipListReads Mmap KeyDir KeyDirLog KeyDirReplay KeyDirBackend KeyDirStore Engine BPlusPages BPlus BPlusTyped BPlusLaws Value.
(** Tables over a real B+ tree and a real skip list.  Keys are serialized the
    way bincode's standard configuration does it: the number of the variant,
    then the zigzag of the integer, in one byte below 251 and otherwise as 251
    and two bytes, the lower first. *)
Module ReadsRun.
Import Table.
Definition zigzag_codec : Codec PrimaryKey := {|
  bincode_encode k := match k with
    | PK_Int z => if (0 <=? z)%Z && (z <? 32768)%Z then
                    Some (if (2 * z <? 251)%Z then [2; 2 * z]%Z else [2; 251; (2 * z) mod 256; (2 * z) / 256]%Z) else None
    | _ => None end;
  bincode_decode bs := match bs with
    | [v; u] => if (v =? 2)%Z then Some (PK_Int (u / 2), 2) else None
    | [v; w; a; b] => if ((v =? 2) && (w =? 251))%Z then Some (PK_Int ((a + 256 * b) / 2), 4) else None
    | _ => None end |}.
#[local] Existing Instance zigzag_codec.
#[local] Instance zigzag_lawful : LawfulCodec PrimaryKey.
Proof.
  assert (∀ a bs, bincode_encode (Codec:=zigzag_codec) a = Some bs → ∃ z, a = PK_Int z ∧ (0 ≤ z < 32768)%Z ∧
    bs = (if (2 * z <? 251)%Z then [2; 2 * z]%Z else [2; 251; (2 * z) mod 256; (2 * z) / 256]%Z)) as Hz.
  { intros a bs. unfold bincode_encode, zigzag_codec. destruct a as [|?|z|?|?|?]; try done.
    destruct (Z.leb_spec 0 z), (Z.ltb_spec z 32768); cbn [andb]; try done. intros [= <-]. by exists z. }
  split; intros a bs (z & -> & Hr & ->)%Hz; destruct (Z.ltb_spec (2 * z) 251) as [Hs|Hs]; [..|done|done].
  - split; [repeat (apply Forall_cons; split; [unfold is_byte, is_digit; lia|]); constructor|]. cbn [bincode_decode zigzag_codec length].
    rewrite Z.mul_comm, Z.div_mul by lia. done.
  - pose proof (Z.div_mod (2 * z) 256 ltac:(lia)) as Hd. pose proof (Z.mod_pos_bound (2 * z) 256 ltac:(lia)) as Hm.
    assert (0 <= (2 * z) / 256 < 256)%Z by (split; [apply Z.div_pos; lia|apply Z.div_lt_upper_bound; lia]).
    split; [repeat (apply Forall_cons; split; [unfold is_byte, is_digit; lia|]); constructor|]. cbn [bincode_decode zigzag_codec length].
    assert (((2 * z) mod 256 + 256 * ((2 * z) / 256)) / 2 = z)%Z as -> by (replace (_ + _)%Z with (z * 2)%Z by lia; by apply Z.div_mul).
    done.
Qed.
Definition cell (z : Z) : Cell := mkCell (Some (Int z)) (at_ 1 1).
Definition cell_codec : Codec Cell := {|
  bincode_encode c := match value c with
    | Some (Int z) => if (0 <=? z)%Z && (z <? 256)%Z && bool_decide (c = cell z) then Some [z] else None | _ => None end;
  bincode_decode bs := match bs with [z] => Some (cell z, 1) | _ => None end |}.
#[local] Existing Instance cell_codec.
#[local] Instance cell_lawful : LawfulCodec Cell.
Proof.
  assert (∀ c bs, bincode_encode (Codec:=cell_codec) c = Some bs → ∃ z, c = cell z ∧ is_byte z ∧ bs = [z]) as Hz.
  { intros c bs. unfold bincode_encode, cell_codec. destruct (value c) as [[]|]; try done.
    destruct (Z.leb_spec 0 z), (Z.ltb_spec z 256); cbn [andb]; try done. case_bool_decide; [|done]. intros [= <-]. by exists z. }
  split; intros c bs (z & -> & Hb & ->)%Hz; [|done]. split; [by constructor|done].
Qed.
Abbreviation state := (State Pages.BPlusTree (KeyDir.KeyDir PrimaryKey) (SkipList.SkipList PrimaryKey Cell) (StateConfig unit unit unit)).
Abbreviation cache := (SkipList.SkipList PrimaryKey Cell).
Abbreviation table := (Table.Table state cache offsets).
Definition config : Pages.BPlusTreeConfig := Pages.mkConfig 2 (F64.div F64.one (F64.of_u64 2)).
Definition tree0 : Pages.BPlusTree := match BPlus.bp_create config [] with Ok t => t | _ => Pages.mkTree Mmap.Anon [] config BPlus.empty_stats [] end.
Definition tree_of (l : list (PrimaryKey * Cell)) : Pages.BPlusTree :=
  (run_ops bp_step (map (λ p, BPlusLaws.Op (Put p.1 p.2)) l) tree0).1.
Definition table_of (l : list (PrimaryKey * Cell)) (c : cache) n : table :=
  mkTable (SOrdered (tree_of l) (ConfigOrdered tt)) c n TableRun.topic0 TableRun.h.
Definition cached (l : list (PrimaryKey * Cell)) : cache := foldl (λ c p, (SkipList.sl_put p.1 p.2 c).1) (SkipList.new None 17) l.
Lemma cached_wf l : backend_wf (cached l).
Proof.
  unfold cached. assert (backend_wf (SkipList.new (K:=PrimaryKey) (V:=Cell) None 17)) as Hw by apply sl_new_wf.
  revert Hw. generalize (SkipList.new (K:=PrimaryKey) (V:=Cell) None 17). induction l as [|p l IH]; intros c Hw; [done|].
  cbn [foldl]. apply IH. by apply sl_put_wf.
Qed.
Lemma tree_serves l : BPlus.bp_create config [] = Ok tree0 →
  run_allowed (K:=PrimaryKey) (V:=Cell) (map (λ p, BPlusLaws.Op (Put p.1 p.2)) l) tree0 = true →
  ∃ l' : list (PrimaryKey * Cell), serves (tree_of l) l'.
Proof.
  intros Hc Ha. pose proof (created_run config _ tree0 Hc Ha) as Hr. unfold tree_of.
  destruct (run_ops (bp_spec_step (K:=PrimaryKey)) _ []) as [m rs]. apply holds_serves in Hr as (l' & Hs & _). by exists l'.
Qed.
(** Rows 1 and 2 written back, row 2 changed since, and row 4 new. *)
Definition t : table := table_of [(key 2, cell 20); (key 1, cell 10)] (cached [(key 4, cell 40); (key 2, cell 21)]) 1.
Lemma t_ok : engines_ok t.
Proof. split; [apply tree_serves; runs|apply cached_wf]. Qed.
Lemma t_ordered : in_key_order (tb_state t) [key 1; key 3].
Proof.
  unfold in_key_order, agreed. cbn [tb_state t table_of]. 
  assert (keys (SOrdered (tree_of [(key 2, cell 20); (key 1, cell 10)]) (ConfigOrdered tt) : state) = [key 1; key 2]) as -> by runs.
  assert (∀ a, a ∈ [key 1; key 3; key 1; key 2] → a = key 1 ∨ a = key 2 ∨ a = key 3) as Hk
    by (intros a; rewrite !elem_of_cons, elem_of_nil; tauto).
  intros a b Ha%Hk Hb%Hk. destruct Ha as [->|[->| ->]], Hb as [->|[->| ->]]; split; runs.
Qed.
Lemma table_reads_witness : table_entries t = [(key 1, cell 10); (key 2, cell 21); (key 4, cell 40)] ∧ table_size t = 3 ∧
  table_range t (key 1) (key 3) = [(key 1, cell 10); (key 2, cell 21)] ∧ bt_wf (table_entries t) ∧
  (∃ ks, NoDup ks ∧ (∀ k, k ∈ ks ↔ is_Some (table_get t k)) ∧ table_size t = length ks) ∧
  table_range_rev t (key 1) (key 3) = rev (table_range t (key 1) (key 3)).
Proof.
  destruct (table_reads t t_ok) as (H1 & H2 & H3). destruct (H2 (in_key_order_nil _ _ t_ordered)) as (_ & _ & Hw & _).
  destruct (H3 _ _ t_ordered) as [_ Hr].
  split; [runs|]. split; [runs|]. split; [runs|]. split; [by apply Hw|]. split; [|exact Hr]. apply H1. runs.
Defined.
Lemma state_ordered_reads_witness : entries_rev (tb_state t) = rev (sorted_entries (tb_state t)) ∧
  last_entry (tb_state t) = Some (key 2, cell 20).
Proof.
  destruct (state_ordered_reads (tb_state t) (proj1 t_ok)) as (_ & _ & _ & _ & _ & Hr & _ & Hl).
  split; [exact Hr|]. rewrite Hl. runs.
Defined.
(** Keys 200 and 300, whose order their bytes invert: the tree iterates 300
    first, and the merge with a newer row 200 yields row 200 twice, the stale one
    last, although [get] finds the newer. *)
Definition inverted : table := table_of [(key 200, cell 20); (key 300, cell 30)] (cached [(key 200, cell 21)]) 0.
Lemma merge_order_stale : engines_ok inverted ∧ novel_ok inverted ∧ table_get inverted (key 200) = Some (cell 21) ∧
  table_entries inverted = [(key 200, cell 21); (key 300, cell 30); (key 200, cell 20)] ∧ table_size inverted = 2.
Proof. split; [split; [apply tree_serves; runs|apply cached_wf]|]. split_and!; runs. Qed.
End ReadsRun.
