(* ===== verification/WitnessDevices.v ===== *)
(** * Concrete runs of the devices and of a workspace

    A device with an admin role over the map engines; the theorems of
    [DeviceLaws.v] and [DeviceStore.v] are applied to its runs.  Then a whole
    workspace, its tables and states, for the theorems of the catalogs and of
    [Workspace.v]. *)
From Stdlib Require Import Ascii String.
From stdpp Require Import base numbers option gmap sorting list.
From S2P Require Import Prelude Bytes Order BTreeMap Stamp Value Backend MapBackend Serdes Topic Table.
From S2P Require Import Receipts State Devices DeviceLaws DeviceStore StateCatalog TableLaws TableRecovery TableCatalog TopicLog WorkspaceId Workspace WitnessCrdt WitnessStorage.
#[local] Existing Instance peers_as_N.
Import Devices.

Module DeviceRun.
Abbreviation rows := (btree PrimaryKey Cell).
Abbreviation state := (State rows rows rows (StateConfig unit unit unit)).
Abbreviation peers := (btree PeerId PeerState).
Abbreviation device := (Devices.Devices state rows offsets peers).
Definition p1 : PeerId := 1%N.
Definition p2 : PeerId := 2%N.
Definition admin : DeviceRecord := mkDevice [97%N] (Some Admin).
Definition guest : DeviceRecord := mkDevice [103%N] (Some Contributor).
#[local] Existing Instance TableRun.change_codec.
#[local] Instance guest_codec : Codec DeviceRecord := one_codec guest.

Definition me1 : PeerState := mkPeer (Receipts.mkWindow 1 []) (Some (mkClock 2 (mkEventTime 100 0))).
Definition other : PeerState := mkPeer (Receipts.mkWindow 4 [(2, 2)%Z]) None.
(** Peer 1 is this device, an admin; peer 2 has been heard of. *)
Definition d0 : device :=
  mkDevices p1 TableRun.t0 (mkRegistry [(p1, admin)] (Some Admin)) []
    (mkCache me1 true [(p2, other)] [(p2, tt)]).

Definition s1 : EventStamp := mkEventStamp (mkEventId p1 2) (mkEventTime 200 0).
Definition s2 : EventStamp := mkEventStamp (mkEventId p1 3) (mkEventTime 200 1).
Lemma mint_order_witness : cmp s1 s2 = Lt.
Proof.
  refine (proj1 (mint_order d0 (mint (Some 150%Z) (mint (Some 200%Z) d0).1).1 [] [] (Minted s1) s1 s2 _ _ _)).
  - by eexists.
  - apply (run_cons _ _ (mint (Some 200%Z) d0).1); [by apply (step_mint (Some 200%Z))|].
    apply (run_cons _ _ (mint (Some 150%Z) (mint (Some 200%Z) d0).1).1);
      [by apply (step_mint (Some 150%Z))|constructor].
  - done.
Defined.
Lemma d0_ok : devices_ok d0.
Proof.
  constructor; [by eexists|by repeat constructor|]. intros p st Hst.
  apply bt_get_In, list_elem_of_singleton in Hst. injection Hst as -> ->.
  split; [by split|]. split; [by repeat split|]. by constructor.
Qed.
Definition heard : EventStamp := mkEventStamp (mkEventId p2 2) (mkEventTime 180 0).
Lemma observe_receives_witness :
  (observe (Some 150%Z) heard d0).2 = Ok Receipts.New ∧
  ∀ p n, received (observe (Some 150%Z) heard d0).1 p n ↔
    received d0 p n ∨ p = peer_id (stamp_id heard) ∧ n = sequence (stamp_id heard).
Proof.
  pose proof (observe_receives (St:=state) (Ca:=rows) (Off:=offsets) (Ps:=peers) (Some 150%Z) heard d0 d0_ok ltac:(unfold u64_max; simpl; lia)) as Ho.
  destruct (observe (Some 150%Z) heard d0) as [d' r] eqn:Eo.
  assert (r = Ok Receipts.New) as -> by (apply (f_equal snd) in Eo; symmetry; exact Eo).
  split; [done|]. apply Ho.
Defined.
(** The registry table, with the row of this device. *)
Definition blob_row : Cell := mkCell (Some (Blob [7%Z])) (at_ 1 1).
Definition reg : Table.Table state rows offsets :=
  Table.mkTable (TableRun.store [(PK_PeerId p1, blob_row)]) [] 0 TableRun.topic0 TableRun.h.
Lemma d0_synced : synced d0.
Proof.
  constructor; [done|split; [by repeat constructor|done]|..].
  - intros p Hp. apply bt_contains_get in Hp as [u Hp]. apply bt_get_In, list_elem_of_singleton in Hp.
    injection Hp as -> ->. split; [done|by eexists].
  - intros p. unfold cached. case_bool_decide as Hp; [done|]. intros Hd. apply bt_contains_false in Hd.
    destruct (decide (p = p2)) as [->|Hne]; [done|].
    change (None = bt_get p (bt_insert p2 other [])). by rewrite bt_get_insert_ne.
Qed.
Lemma flush_writes_nothing : writes_nothing (K:=PeerId) (flush (B:=peers)).
Proof. intros b Hb. cbn. by split_and!. Qed.
Lemma devices_checkpoint_witness :
  ∃ d', checkpoint flush d0 = (d', Ok tt) ∧ others (peer_cache d') = [(p2, other)] ∧
    open None reg (peer_state d') p1 =
    Ok (mkDevices p1 reg (mkRegistry [(p1, guest)] (Some Contributor)) (peer_state d') (peer_cache d')).
Proof.
  pose proof (devices_checkpoint (St:=state) (Ca:=rows) (Off:=offsets) (Ps:=peers) flush d0 None reg [(p1, guest)] guest d0_synced
    flush_writes_nothing ltac:(by eexists) eq_refl eq_refl) as Hk.
  destruct (checkpoint flush d0) as [d' r] eqn:Ek. exists d'.
  assert (r = Ok tt) as -> by (apply (f_equal snd) in Ek; symmetry; exact Ek).
  destruct Hk as [_ Hk]. destruct (Hk eq_refl) as (_ & H2 & H3). by split_and!.
Defined.
Lemma crash_reuses_identity_witness :
  ∃ d1 d2 d3 d4 s s', checkpoint flush d0 = (d1, Ok tt) ∧ mint (Some 300%Z) d1 = (d2, Ok s) ∧
    open None reg (peer_state d2) p1 = Ok d3 ∧ mint (Some 400%Z) d3 = (d4, Ok s') ∧
    stamp_id s' = stamp_id s.
Proof.
  set (d1 := (checkpoint flush d0).1). set (d2 := (mint (Some 300%Z) d1).1).
  set (d3 := mkDevices p1 reg (mkRegistry [(p1, guest)] (Some Contributor)) (peer_state d2)
    (mkCache me1 false [(p2, other)] [])).
  set (s := mkEventStamp (mkEventId p1 2) (mkEventTime 300 0)).
  set (s' := mkEventStamp (mkEventId p1 2) (mkEventTime 400 0)).
  assert (checkpoint flush d0 = (d1, Ok tt)) as H1 by reflexivity.
  assert (mint (Some 300%Z) d1 = (d2, Ok s)) as H2 by reflexivity.
  assert (open None reg (peer_state d2) p1 = Ok d3) as H3 by reflexivity.
  assert (mint (Some 400%Z) d3 = ((mint (Some 400%Z) d3).1, Ok s')) as H4 by reflexivity.
  exists d1, d2, d3, (mint (Some 400%Z) d3).1, s, s'. do 4 (split; [assumption|]).
  apply (crash_reuses_identity (St:=state) (Ca:=rows) (Off:=offsets) (Ps:=peers) flush d0 d1 d2 d3 (mint (Some 400%Z) d3).1 (Some 300%Z) None (Some 400%Z)
    reg [(p1, guest)] guest s s' d0_synced flush_writes_nothing ltac:(by eexists) eq_refl eq_refl H1 H2 H3 H4).
Defined.
End DeviceRun.

(** The same device with its registry's table, registering another one. *)
Module RegistryRun.
Import DeviceRun.
#[local] Instance record_codec : Codec DeviceRecord := {|
  bincode_encode r := Some [if bool_decide (r = admin) then 8%Z else 7%Z];
  bincode_decode bs := match bs with [7%Z] => Some (guest, 1) | [8%Z] => Some (admin, 1) | _ => None end |}.
Lemma device_record_ok r : r = admin ∨ r = guest → codec_ok r.
Proof.
  intros Hr. exists [if bool_decide (r = admin) then 8%Z else 7%Z]. split; [done|].
  destruct Hr as [-> | ->]; (split; [|done]); constructor; try done; unfold is_byte, is_digit; cbn; lia.
Qed.
Definition stamp2 : EventStamp := mkEventStamp (mkEventId p1 2) (mkEventTime 150 0).
Definition guest_row : Cell := mkCell (Some (Blob [7%Z])) stamp2.
Definition admin_row : Cell := mkCell (Some (Blob [8%Z])) (at_ 1 0).
Definition change2 : Table.Change := Table.mkChange (device_event p2 [7%Z] stamp2) None (Some guest_row).
#[local] Instance change2_codec : Codec Table.Change := one_codec change2.
Definition registry2 : Table.Table state rows offsets :=
  Table.mkTable (TableRun.store [(PK_PeerId p1, admin_row)]) [] 0 TableRun.topic0 TableRun.h.
Definition d2 : device := set_registry registry2 d0.
Lemma registry2_ok : table_ok registry2 [].
Proof.
  constructor; [by repeat constructor|done|by repeat constructor| |done|].
  - constructor; try done. exists [], (Topic.mkSegment 0 0 4 Topic.magic_bytes false), [], [].
    split; [done|]. split; [done|]. split; [constructor|]. split; [|done]. by split_and!.
  - by exists (Topic.mkConsumer 0 0 true).
Qed.
Lemma registry2_rows k r : Table.table_get registry2 k = Some r → k = PK_PeerId p1 ∧ r = admin_row.
Proof.
  change (Table.table_get registry2 k) with (match cmp k (PK_PeerId p1) with Eq => Some admin_row | _ => None end).
  destruct (cmpP k (PK_PeerId p1)) as [->|?|?]; [|done..]. by intros [= <-].
Qed.
Lemma roster2_ok : roster_ok d2.
Proof.
  assert (passed d2 (stamp admin_row)) as Hp by (eexists; split; [reflexivity|by right]).
  constructor; [by eexists; apply registry2_ok|done|constructor|..].
  - intros k r [-> ->]%registry2_rows. split; [by eexists|]. right. exists admin. split; [done|]. apply device_record_ok. by left.
  - intros p. change (Table.table_get (registry d2) (PK_PeerId p)) with (match cmp (PK_PeerId p) (PK_PeerId p1) with Eq => Some admin_row | _ => None end).
    unfold get_device. cbn [registry_cache d2 set_registry d0 reg_entries bt_get].
    destruct (cmpP p p1) as [->|Hp1|Hp1]; [by runs| |]; destruct (cmpP (PK_PeerId p) (PK_PeerId p1)) as [E|?|?]; try done;
      injection E as ->; by rewrite cmp_refl in Hp1.
  - done.
  - by intros k r [_ ->]%registry2_rows.
  - eexists. split; [reflexivity|]. left. left. done.
Qed.
Definition upserted : device * result Error bool :=
  upsert (St:=state) (Ca:=rows) (Off:=offsets) (Ps:=peers) (Some 150%Z) (Some 150%Z) p2 guest d2.
Lemma devices_upsert_witness : upserted.2 = Ok true ∧ registered p2 guest d2 upserted.1 ∧
  Table.table_get (registry upserted.1) (PK_PeerId p2) = Some guest_row ∧ roster_ok upserted.1.
Proof.
  pose proof (devices_upsert (St:=state) (Ca:=rows) (Off:=offsets) (Ps:=peers) TableRun.kinds (Some 150%Z) (Some 150%Z) p2 guest d2
    roster2_ok (device_record_ok _ (or_intror eq_refl))) as Hu.
  assert (∀ d1 s, mint (Some 150%Z) d2 = (d1, Ok s) → accepts (registry d2) (device_event p2 (encoded guest) s)) as Hacc.
  { intros d1 s Hm. apply (f_equal snd) in Hm. vm_compute in Hm. injection Hm as <-.
    split; [change (storable change2); apply one_storable|apply Nat.leb_le; runs]. }
  specialize (Hu Hacc). assert (upserted.2 = Ok true) as Hr by runs. split; [exact Hr|].
  change (upsert (Some 150%Z) (Some 150%Z) p2 guest d2) with upserted in Hu.
  assert (Table.table_get (registry upserted.1) (PK_PeerId p2) = Some guest_row) as Hrow by runs.
  destruct upserted as [d' r]. cbn [fst snd] in *. subst r. destruct Hu as [Hok Hu].
  rewrite bool_decide_true in Hu by runs. cbn [negb] in Hu. rewrite bool_decide_false in Hu by (intros Hg; by vm_compute in Hg).
  destruct Hu as (_ & Hreg & _). split; [exact Hreg|]. split; [exact Hrow|exact Hok].
Defined.
End RegistryRun.

(** A workspace: created, flushed, opened again, and joined by mistake. *)
Module WorkspaceRun.
Abbreviation rows := (btree PrimaryKey Cell).
Abbreviation scfg := (StateConfig unit unit unit).
Abbreviation tcfg := (TableConfig unit unit unit).
Abbreviation state := (State rows rows rows scfg).
Abbreviation peers := (btree PeerId PeerState).
Abbreviation table := (Table.Table state rows offsets).
Abbreviation catalog := (btree rstring scfg).
#[local] Instance unit_default : HasDefault unit := tt.
Definition me0 : PeerId := 1%N.
Definition name0 : rstring := [97%N].
Definition fresh : WorkspaceId.WorkspaceId := repeat 7%Z 16.
Definition who : Workspace.Identity := Workspace.mkIdentity me0 name0.
#[local] Instance admin_codec : Codec DeviceRecord := one_codec (mkDevice name0 (Some Admin)).
(** Tables without room for a segment cannot be made. *)
Definition plain : tcfg := SYSTEM_TABLE_CONFIG.
Definition narrow : tcfg := mkTableConfig SYSTEM_STATE_CONFIG 8 (mkTopicConfig 0 tt).
Definition makes_no_room (c : tcfg) : bool := (max_segment_bytes (topic_config c) =? 0)%Z.
#[local] Instance config_codec : Codec tcfg := {|
  bincode_encode c := Some [if makes_no_room c then 8%Z else 7%Z];
  bincode_decode bs := match bs with [7%Z] => Some (plain, 1) | [8%Z] => Some (narrow, 1) | _ => None end |}.
Lemma config_ok c : c = plain ∨ c = narrow → codec_ok c.
Proof.
  intros Hc. exists [if makes_no_room c then 8%Z else 7%Z]. split; [done|].
  destruct Hc as [-> | ->]; (split; [|done]); constructor; try done; unfold is_byte, is_digit; cbn; lia.
Qed.
#[local] Instance id_codec : Codec WorkspaceId.WorkspaceId := one_codec fresh.

(** A table's directory is the table; a file is what was written to it. *)
Definition blank (c : scfg) : state :=
  match c with ConfigOrdered _ => SOrdered [] c | ConfigUnordered _ => SUnordered [] c | ConfigInMemory _ => SInMemory [] c end.
Definition table_under (c : scfg) : io table := Table.create (blank c) [] 1000 [] 200.
Definition new_table : io table := table_under SYSTEM_STATE_CONFIG.
Definition empty_table : table := match new_table with Ok t => t | _ => TableRun.t0 end.
#[local] Instance dirs : TableFiles tcfg table table := {|
  table_leaves _ t := t;
  create_table c d := match d with
    | None => (None, if makes_no_room c then Err InvalidData else table_under (state_config c)) | Some _ => (d, Err AlreadyExists) end;
  open_table_at _ t := (None, Ok t) |}.
Definition file : Type := (peers + catalog)%type.
Definition handle : Type := (nat * peers)%type.
#[local] Instance files : StateFiles nat scfg file handle := {|
  handle_ty := fst;
  leaves h := Some (inl h.2);
  create_state ty _ n := match n with Some Directory => (n, Err IsADirectory) | _ => (Some (RegularFile (inl [])), Ok (ty, [])) end;
  open_state ty _ n := match n with Some (RegularFile (inl ps)) => Ok (ty, ps) | Some Directory => Err IsADirectory
                       | Some _ => Err InvalidData | None => Err NotFound end;
  flush_state h := (h, Ok tt); sync_state h := (h, Ok tt) |}.
#[local] Instance files_laws : StateFilesLaws nat scfg file handle.
Proof.
  split; [by intros ty c [[]|]|intros ty c [[]|] h; cbn; by intros [= <-]| |done..].
  intros ty c [[[]|]|] h; cbn; by intros [= <-].
Qed.
#[local] Instance catalog_file : CatalogFile catalog file := {|
  create_catalog := Ok []; catalog_bytes := inr;
  open_catalog f := match f with Some (inr c) => Ok c | Some _ => Err InvalidData | None => Err NotFound end |}.
#[local] Instance catalog_laws : CatalogFileLaws catalog scfg file.
Proof. split; [by intros c [= <-]|]. intros c Hc. by exists c. Qed.
#[local] Instance peer_handle : PeerHandle handle peers := {| as_peers h := Some h.2; with_peers ps h := (h.1, ps) |}.
#[local] Instance peer_laws : PeerHandleLaws (File:=file) 1 2.
Proof.
  refine {| filed := λ _, True |}; [done|done|done|..].
  - intros [] h ps [= <-] Hw _; by exists h.2.
  - intros h ps n [= <-] Hw _. by exists (2, h.2), h.2.
  - intros n n' h Hc. exists (2, []), []. destruct n as [[]|]; cbn in Hc; simplify_eq; by split_and!.
Qed.
(** The rows the runs write, and a codec that knows them. *)
Definition env : Tables.Env := Tables.mkEnv (Some 100%Z) (Some 100%Z) true.
Definition at_100 (n l : Z) : EventStamp := mkEventStamp (mkEventId me0 n) (mkEventTime 100 l).
Definition written (ev : Event) : Table.Change :=
  Table.mkChange ev None (Some (mkCell (match op ev with OpUpsert v => Some v | _ => None end) (event_stamp ev))).
Definition ev1 : Event := new_device me0 name0 100.
Definition ev2 : Event := system_entry (Cb:=unit) (Ck:=unit) (Cs:=unit) TABLE_CATALOG_NAME (at_100 2 1).
Definition ev3 : Event := system_entry (Cb:=unit) (Ck:=unit) (Cs:=unit) DEVICES_TABLE_NAME (at_100 3 2).
Definition shelf : rstring := [115%N].
Definition ev4 : Event := Tables.catalog_event shelf (OpUpsert (Blob [7%Z])) (at_100 4 3).
Definition ev5 : Event := Tables.catalog_event shelf (OpUpsert (Blob [8%Z])) (at_100 4 3).
Definition ev6 : Event := Tables.catalog_event shelf OpDelete (at_100 5 4).
Definition removed : Table.Change := Table.mkChange ev6 (Table.current_cell (written ev4)) (Some (mkCell None (at_100 5 4))).
#[local] Instance change_codec : Codec Table.Change := {|
  bincode_encode ch := match primary_key (Table.ch_event ch) with
    | PK_PeerId _ => Some [1%Z]
    | PK_String n => Some [if bool_decide (n = TABLE_CATALOG_NAME) then 2%Z else if bool_decide (n = DEVICES_TABLE_NAME) then 3%Z
                           else match op (Table.ch_event ch) with OpUpsert (Blob [7%Z]) => 4%Z | OpUpsert _ => 5%Z | _ => 6%Z end]
    | _ => None end;
  bincode_decode bs := match bs with
    | [1%Z] => Some (written ev1, 1) | [2%Z] => Some (written ev2, 1) | [3%Z] => Some (written ev3, 1)
    | [4%Z] => Some (written ev4, 1) | [5%Z] => Some (written ev5, 1) | [6%Z] => Some (removed, 1)
    | _ => None end |}.
#[local] Instance dirs_laws : TableFilesLaws (Cb:=unit) (Ck:=unit) (Cs:=unit) (St:=state) (Ca:=rows) (Off:=offsets) (Dir:=table).
Proof.
  refine {| clean := λ _, True; takes := λ _ _, True;
    reopens := λ c t, (∃ log, table_ok t log) ∧ state_kind (Table.tb_state t) = config_kind (state_config c) |}; [done|done|..].
  - intros c t dir [[log Hlog] Hk] _. exists t. split; [done|]. split; [done|]. split; [done|]. by exists log.
  - by intros c t [? _].
  - intros c t b [[log Hlog] Hkd]. pose proof (back_ok TableRun.kinds b t log Hlog) as Hb.
    destruct (back b t) as [t' r]. destruct Hb as (_ & ? & _ & Hk & _). split; [by exists log|]. by rewrite <- Hkd.
  - intros c t ev [[log Hlog] Hkd] Hcap [Hst Hroom] _. pose proof (insert_ok TableRun.kinds ev t log Hlog Hcap Hst Hroom) as Hi.
    split; [|rewrite <- Hkd; by eapply (insert_keeps TableRun.kinds)].
    destruct (Table.insert ev t) as [t' r]. destruct Hi as [Hi _]. destruct r as [[|ch]|e|]; [..|done].
    + destruct Hi as [-> _]. by exists log.
    + destruct Hi as (_ & _ & (_ & j & _ & Hok & _) & _). by eexists.
    + destruct Hi as [Hok _]. by exists log.
  - intros c dir t Ht. apply (f_equal snd) in Ht. cbn [snd create_table dirs] in Ht. destruct (makes_no_room c); [done|].
    destruct (table_create_ok (blank (state_config c)) [] 1000 [] 200 t) as (Hok & Hnone & Es & Hc);
      [by destruct (state_config c)|done|done|by destruct (state_config c)|done|exact Ht|].
    split; [split; [by eexists|rewrite Es; by destruct (state_config c)]|]. split; [done|]. by rewrite Hc.
Defined.
Definition known_changes : Datatypes.list Table.Change := map written [ev1; ev2; ev3; ev4; ev5] ++ [removed].
Lemma known_storable ch : ch ∈ known_changes → storable ch ∧ length (encoded ch) = 1.
Proof.
  assert (∀ n ch, bincode_encode ch = Some [n] → bincode_decode [n] = Some (ch, 1) → (0 ≤ n < 7)%Z → storable ch ∧ length (encoded ch) = 1) as Hk.
  { intros n c He Hd Hn. assert (encoded c = [n]) as Hc by (unfold encoded; by rewrite He). split; [|by rewrite Hc].
    split; [|by rewrite Hc]. exists [n]. split; [done|]. split; [|done]. constructor; [unfold is_byte, is_digit; lia|done]. }
  unfold known_changes. cbn [map app]. intros Hin.
  repeat (apply elem_of_cons in Hin as [->|Hin]); [eapply Hk; [vm_compute; reflexivity|done|lia]..|by apply not_elem_of_nil in Hin].
Qed.
Definition table1 : table := (Table.insert ev2 empty_table).1.
Lemma accepts_known (t : table) ev : change_of ev t ∈ known_changes → 9 ≤ Topic.tp_disk (Table.tb_topic t) → accepts t ev.
Proof. intros Hc Hd. destruct (known_storable _ Hc) as [Hs Hl]. split; [done|]. by rewrite Hl. Qed.
Ltac accepted := apply accepts_known; [match goal with |- ?x ∈ known_changes => let y := eval vm_compute in x in
  change x with y end; repeat (apply elem_of_cons; (left; reflexivity) || right)|apply Nat.leb_le; by vm_compute].
Lemma enough_room : roomy (Cb:=unit) (Ck:=unit) (Cs:=unit) (St:=state) (Ca:=rows) (Off:=offsets) (Ps:=peers) (Dir:=table) env env env me0 name0.
Proof.
  intros dir t ps dev Ht Hdev. apply (f_equal snd) in Ht. change (new_table = Ok t) in Ht.
  assert (t = empty_table) as -> by (unfold empty_table; by rewrite Ht).
  assert (∃ reg, dev = mkDevices me0 reg (mkRegistry [(me0, mkDevice name0 (Some Admin))] (Some Admin)) ps
    (mkCache (mkPeer (Receipts.mkWindow 1 []) (Some (mkClock 2 (mkEventTime 100 0)))) true [] [])) as [reg ->].
  { revert Hdev. unfold create. cbn [Tables.wall env]. destruct (serialize_to_vec _) as [blob|e|]; cbn [lift_io map_err rbind]; [|done..].
    destruct (Table.insert _ _) as [reg [o|e|]]; cbn [lift_io map_err rbind]; [|done..]. intros [= <-]. by exists reg. }
  split; [split; [accepted|exact I]|].
  intros d1 s Hm. cbv in Hm. injection Hm as <- <-. fold (at_100 2 1).
  split; [split; [accepted|exact I]|].
  intros ch d2 s' Hch Hm. unfold receipt_listener in Hm. rewrite Hch in Hm. cbv in Hm. injection Hm as _ <-.
  split; [change (accepts table1 ev3); accepted|exact I].
Qed.
Definition run : Workspace.Root * result Error _ :=
  Workspace.create (File:=file) (Handle:=handle) (Cat:=catalog) (St:=state) (Ca:=rows) (Off:=offsets) (Ps:=peers) (Dir:=table)
    0 1 2 env env env None fresh who.
Abbreviation workspace := (Workspace.Workspace (File:=file) (Handle:=handle) (Cat:=catalog) (St:=state) (Ca:=rows) (Off:=offsets) (Ps:=peers) (Dir:=table)).
Lemma run_ok : ∃ root (w : workspace), run = (root, Ok w).
Proof.
  assert (is_ok run.2 = true) as H by (by vm_compute). destruct run as [root [w|e|]]; [by exists root, w|done..].
Qed.
Lemma wall_positive : ∀ now, Tables.wall env = Some now → (0 < now)%Z.
Proof. intros now [= <-]. lia. Qed.
Lemma workspace_create_witness : ∃ root (w : workspace), run = (root, Ok w) ∧ ws_ok (Ty:=nat) 1 2 w ∧
  get_device (Workspace.ws_devices w) me0 = Some (mkDevice name0 (Some Admin)).
Proof.
  destruct run_ok as (root & w & Hr). exists root, w. split; [exact Hr|].
  destruct (workspace_create (Ty:=nat) TableRun.kinds 0 1 2 env env env fresh who root w
    wall_positive (one_codec_ok fresh) (one_codec_ok _) (config_ok _ (or_introl eq_refl)) enough_room Hr) as (Hok & _ & _ & _ & _ & _ & Hd).
  split; [exact Hok|exact (Hd me0)].
Defined.
Lemma ws_created : ∃ root (w : workspace), run = (root, Ok w) ∧ (ws_ok (Ty:=nat) 1 2 w ∧ intact (Workspace.ws_tables w)) ∧ me (Workspace.ws_devices w) = me0.
Proof.
  destruct run_ok as (root & w & Hr). exists root, w. split; [exact Hr|].
  destruct (create_establishes (Ty:=nat) TableRun.kinds 0 1 2 env env env fresh who root w
    wall_positive (one_codec_ok fresh) (one_codec_ok _) (config_ok _ (or_introl eq_refl)) enough_room Hr) as (Hok & Hin & _).
  split; [split; [exact Hok|exact Hin]|]. assert (match run.2 with Ok w => local_peer_id (Workspace.ws_devices w) | _ => 0%N end = me0) as Hme by (by vm_compute).
  by rewrite Hr in Hme.
Qed.
Lemma workspace_reopen_witness : ∃ (w : workspace) root w', (ws_back true w).2 = Ok tt ∧
  Workspace.open (Ty:=nat) 0 1 2 env env env (Some (Workspace.disk_of (ws_back true w).1)) who = (Some root, Ok w') ∧
  same_workspace w w'.
Proof.
  destruct ws_created as (root & w & Hr & [Hok Hin] & Hme).
  assert ((ws_back true w).2 = Ok tt) as Hb.
  { assert (match run.2 with Ok w => (ws_back true w).2 | _ => Panic end = Ok tt) as Hb by (by vm_compute). by rewrite Hr in Hb. }
  destruct (workspace_reopen (Ty:=nat) TableRun.kinds 0 1 2 true env who w Hok Hin Hb (eq_sym Hme))
    as (root' & w' & Ho & Hs & _).
  exists w, root', w'. split; [exact Hb|]. split; [exact Ho|exact Hs].
Defined.
(** The directory the workspace was created in, joined under its own name. *)
Definition home : Workspace.Root := run.1.
(** Beside it, the directory of a registry with its first segment. *)
#[local] Instance rows_file : EngineFile unit rows := {|
  engine_create _ _ := (Some (RegularFile []), Ok []); engine_open _ _ := Ok []; engine_bytes _ := [] |}.
#[local] Instance offsets_file : EngineFile unit offsets := {|
  engine_create _ _ := (Some (RegularFile []), Ok []); engine_open _ _ := Ok []; engine_bytes _ := [] |}.
Definition on_disk : TableFiles tcfg TableDir table :=
  table_files (Bp:=rows) (Kd:=rows) (Sk:=rows) (Off:=offsets) (λ _ : unit, []) (λ _ : nat, []) 200.
Definition registry_dir : TableDir := mkTableDir (Some (RegularFile [])) [(0%Z, Topic.magic_bytes)] (Some (RegularFile [])).
Definition occupied : Workspace.Root := Workspace.mkRoot (Some [7%Z]) false (Workspace.states_dir home) [(DEVICES_TABLE_NAME, registry_dir)].
Lemma join_overwrites_witness :
  Workspace.create (Ty:=nat) (Ps:=peers) (TF:=on_disk) 0 1 2 env env env (Some occupied) fresh who =
    (occupied, Err (EAlreadyExists (rstr "workspace identity"))) ∧
  ∃ root', Workspace.join (Ty:=nat) (Ps:=peers) (TF:=on_disk) 0 1 2 env env env (Some occupied) fresh who = (root', Err (EIo AlreadyExists)) ∧
    ∃ s' : States.States (File:=file) (Handle:=handle) (Cat:=catalog), States.open (Workspace.states_dir root') = Ok s' ∧
      get (States.st_catalog s') [115%N] = None.
Proof.
  destruct (join_overwrites (Ty:=nat) (Ps:=peers) 0 1 2 (λ _ : unit, []) (λ _ : nat, []) 200 env env env occupied [7%Z] registry_dir fresh fresh who)
    as [H1 H2]; [done|done|apply one_codec_ok|done|done|]. fold on_disk in H1, H2.
  split; [exact H1|]. destruct (Workspace.join _ _ _ _ _ _ _ _ _) as [root' r]. destruct H2 as (_ & _ & H2).
  destruct (States.create 1 (Workspace.states_dir occupied)) as [sdir rs] eqn:Es.
  assert (is_ok rs = true) as Hr by (apply (f_equal snd) in Es; cbn in Es; subst rs; by vm_compute).
  destruct rs as [s|e|]; [|done..]. destruct (H2 sdir s) as ((s' & Ho & Hg) & Hx); [|done|].
  - assert (forallb (λ p : rstring * Node file, match p.2 with Directory => false | _ => true end)
      (States.sd_files (Workspace.states_dir home)) = true) as Hf by (by vm_compute).
    change (Workspace.states_dir occupied) with (Workspace.states_dir home).
    revert Hf. generalize (States.sd_files (Workspace.states_dir home)). intros l Hf n Hn. apply bt_get_In in Hn.
    rewrite forallb_forall in Hf. apply list_elem_of_In in Hn. by specialize (Hf _ Hn).
  - exists root'. split; [by rewrite Hx|]. exists s'. split; [exact Ho|]. by rewrite Hg.
Defined.

(** *** The catalogs of that workspace *)
Abbreviation tables := (Tables.Tables (St:=state) (Ca:=rows) (Off:=offsets) (Ps:=peers) (Dir:=table)).
Abbreviation states := (States.States (File:=file) (Handle:=handle) (Cat:=catalog)).
Definition tables0 : tables :=
  match run.2 with Ok w => Workspace.ws_tables w | _ => Tables.mkTables (Tables.new_handle [] empty_table true) [] [] DeviceRun.d0 end.
Definition states0 : states := match run.2 with Ok w => Workspace.ws_states w | _ => States.mkStates [] [] [] end.
Lemma founded_ok : tables_ok tables0 ∧ states_ok states0.
Proof.
  destruct ws_created as (root & w & Hr & [Hok _] & _). unfold tables0, states0. rewrite Hr.
  split; [apply Hok|apply Hok].
Qed.
Definition shelved : tables := (Tables.upsert env shelf plain tables0).1.
Ltac stamped := let ts := fresh in let s := fresh in let Hm := fresh in
  intros ts s Hm; apply (f_equal snd) in Hm; vm_compute in Hm; injection Hm as <-; accepted.
Lemma plain_writable : writable env tables0 (Tables.catalog_event shelf (OpUpsert (Blob (encoded plain)))).
Proof. stamped. Qed.
Lemma tables_upsert_witness : (Tables.upsert env shelf plain tables0).2 = Ok true ∧ tables_ok shelved ∧
  declared shelved shelf = Some plain ∧ Tables.ts_tables shelved = bt_insert shelf (opened shelf empty_table) (Tables.ts_tables tables0).
Proof.
  pose proof (tables_upsert TableRun.kinds env shelf plain tables0 (proj1 founded_ok) (config_ok _ (or_introl eq_refl)) plain_writable) as Hu.
  assert ((Tables.upsert env shelf plain tables0).2 = Ok true) as Hr by (by vm_compute).
  assert (bt_get shelf (Tables.ts_tables tables0) = None) as Hn by (by vm_compute).
  assert (materialized tables0 shelf plain = Ok empty_table) as Hm by (by vm_compute).
  assert (admin_here tables0 = true) as Had by (by vm_compute).
  assert (declared tables0 shelf ≠ Some plain) as Hd0 by (intros Hx; by vm_compute in Hx).
  unfold shelved. destruct (Tables.upsert env shelf plain tables0) as [ts r]. cbn [fst snd] in *. subst r.
  change (is_system_table shelf) with false in Hu. rewrite Had, bool_decide_false in Hu by done. cbn [negb] in Hu.
  destruct Hu as (Hok & _ & _ & [Hd _] & _ & Ht). rewrite Hn, Hm in Ht. destruct Ht as [_ Ht].
  split; [done|]. split; [exact Hok|]. split; [exact Hd|exact Ht].
Defined.
Lemma shelved_ok : tables_ok shelved.
Proof.
  pose proof (upsert_ok TableRun.kinds env shelf plain tables0 (proj1 founded_ok) (config_ok _ (or_introl eq_refl)) plain_writable) as Hu.
  unfold shelved. destruct (Tables.upsert env shelf plain tables0) as [ts r]. exact (proj1 Hu).
Qed.
Lemma tables_delete_witness : (Tables.delete_table env shelf shelved).2 = Ok true ∧
  declared (Tables.delete_table env shelf shelved).1 shelf = None.
Proof.
  assert (writable env shelved (Tables.catalog_event shelf OpDelete)) as Hw by stamped.
  pose proof (tables_delete TableRun.kinds env shelf shelved shelved_ok Hw) as Hd.
  assert ((Tables.delete_table env shelf shelved).2 = Ok true) as Hr by (by vm_compute).
  assert (admin_here shelved = true) as Had by (by vm_compute).
  assert (bt_get shelf (Tables.ts_tables shelved) = Some (opened shelf empty_table)) as Hn by (by vm_compute).
  destruct (Tables.delete_table env shelf shelved) as [ts r]. cbn [fst snd] in *. subst r.
  change (is_system_table shelf) with false in Hd. rewrite Had, Hn in Hd. cbn [negb opened] in Hd.
  split; [done|]. by destruct Hd as (_ & _ & _ & [Hd _] & _).
Defined.
Lemma failed_create_sticks_witness : ∃ ts' : tables, Tables.upsert env shelf narrow tables0 = (ts', Ok true) ∧
  declared ts' shelf = Some narrow ∧ (Tables.get_table shelf ts').2 = Err (ENotFound shelf) ∧
  (Tables.delete_table env shelf ts').2 = Ok false.
Proof.
  assert (writable env tables0 (Tables.catalog_event shelf (OpUpsert (Blob (encoded narrow))))) as Hw by stamped.
  assert (materialized tables0 shelf narrow = Err InvalidData) as Hm by (by vm_compute).
  assert (bt_get shelf (Tables.ts_tables tables0) = None) as Hn by (by vm_compute).
  assert ((Tables.upsert env shelf narrow tables0).2 = Ok true) as Hr by (by vm_compute).
  destruct (Tables.upsert env shelf narrow tables0) as [ts' r] eqn:Eu. cbn [fst snd] in *. subst r. exists ts'.
  destruct (failed_create_sticks TableRun.kinds env shelf narrow tables0 ts' InvalidData
    (proj1 founded_ok) (config_ok _ (or_intror eq_refl)) Hw Hn Hm Eu) as (H1 & H2 & H3 & _). split; [done|]. split; [exact H1|]. split; [exact H2|].
  by rewrite H3.
Defined.
Definition sops : Datatypes.list (sop (Ty:=nat) (Cb:=unit) (Ck:=unit) (Cs:=unit) (Handle:=handle)) :=
  [SUpsert shelf SYSTEM_STATE_CONFIG; SGet 3 shelf; SClose shelf; SRelease shelf; SClose shelf; SDelete STATE_CATALOG_NAME; SFlush].
Lemma states_refine_witness : states_ok (sop_run 0 1 sops states0).1 ∧
  lives 0 (abs 0 states0) sops [Changed (Ok true); Got (Ok 3); Closed false; Done (Ok tt); Closed true;
    Changed (Err (SystemStateReadOnly STATE_CATALOG_NAME)); Done (Ok tt)] (abs 0 (sop_run 0 1 sops states0).1).
Proof.
  pose proof (states_refine (Ty:=nat) 0 1 sops states0 (proj2 founded_ok) ltac:(by repeat constructor)) as Hs.
  assert ((sop_run 0 1 sops states0).2 = [Changed (Ok true); Got (Ok 3); Closed false; Done (Ok tt); Closed true;
    Changed (Err (SystemStateReadOnly STATE_CATALOG_NAME)); Done (Ok tt)]) as <- by (by vm_compute).
  by destruct (sop_run 0 1 sops states0).
Defined.
Definition states1 : states := (States.upsert 1 shelf SYSTEM_STATE_CONFIG states0).1.
Lemma states1_ok : states_ok states1.
Proof.
  pose proof (sop_simulates (Ty:=nat) 0 1 (SUpsert shelf SYSTEM_STATE_CONFIG) states0 (proj2 founded_ok) I) as [Hs _].
  unfold states1. unfold sop_step in Hs. by destruct (States.upsert 1 shelf _ states0).
Qed.
Lemma delete_never_succeeds_witness : ∃ e, (States.delete_state shelf states1).2 = Err (EIo e) ∧
  get (States.st_catalog (States.delete_state shelf states1).1) shelf = None ∧
  States.file_at (States.delete_state shelf states1).1 shelf = Some (RegularFile (inl [])).
Proof.
  pose proof (delete_never_succeeds (Ty:=nat) 0 1 shelf states1 states1_ok) as Hd.
  assert (States.file_at states1 shelf = Some (RegularFile (inl []))) as Hf by (by vm_compute).
  destruct (States.delete_state shelf states1) as [s r]. destruct Hd as [_ Hd]. rewrite Hf in Hd.
  destruct Hd as ([e He] & Hg & Hl); [by vm_compute|by vm_compute; eexists| |by vm_compute|].
  - intros slot Hs. by vm_compute in Hs.
  - exists e. split; [exact He|]. split; [exact Hg|exact Hl].
Defined.
End WorkspaceRun.
