(* ===== verification/WitnessBPlus.v ===== *)
(** * B+ trees, evaluated

    A tree from bytes to byte strings: loaded in bulk over two leaves and
    compacted, cleared, written to until a leaf splits, with a value on
    overflow pages, closed and opened again; the last delete leaves so little
    that it compacts the file.  Then two trees on which the code goes wrong. *)
From stdpp Require Import base numbers option list.
From S2P Require Import Prelude Bytes Order BTreeMap Mmap Backend Engine Serdes KeyDirLog BPlusPages BPlusNodes BPlus BPlusBytes BPlusCells BPlusStore BPlusShape BPlusTree BPlusWrites BPlusOpen BPlusTyped BPlusCompact BPlusLaws.
Import Pages Nodes BPlus.

(** Byte strings that encode as themselves. *)
Definition string_codec : Codec (list Z) := {|
  bincode_encode := λ bs, if forallb (λ b, (0 <=? b)%Z && (b <? 256)%Z) bs && (Z.of_nat (length bs) <? 1000000)%Z then Some bs else None;
  bincode_decode := λ bs, Some (bs, length bs) |}.
Lemma string_codec_lawful : @LawfulCodec (list Z) string_codec.
Proof.
  assert (∀ a bs, bincode_encode (Codec := string_codec) a = Some bs → bs = a ∧ Forall is_byte a ∧ (Z.of_nat (length a) < 1000000)%Z) as Hb.
  { intros a bs. unfold bincode_encode, string_codec. destruct (forallb _ a) eqn:E, (Z.ltb_spec (Z.of_nat (length a)) 1000000); try done. simpl. intros [= <-].
    split_and!; [done| |done]. rewrite forallb_forall in E. apply Forall_forall. intros b Hb%list_elem_of_In.
    apply E, andb_true_iff in Hb as [H1%Z.leb_le H2%Z.ltb_lt]. by split. }
  split; intros a bs (-> & HF & Hl)%Hb; [done|lia].
Qed.

Module TreeRun.
#[local] Instance key_codec : Codec Z := byte_codec.
#[local] Instance key_lawful : LawfulCodec Z := byte_codec_lawful.
#[local] Instance value_codec : Codec (list Z) := string_codec.
#[local] Instance value_lawful : LawfulCodec (list Z) := string_codec_lawful.
#[local] Abbreviation bop := (bop (K := Z) (V := list Z)).
Definition block (n : nat) : list Z := replicate n 7%Z.
Definition config : BPlusTreeConfig := mkConfig 2 (F64.div F64.one (F64.of_u64 2)).
Definition tree0 : BPlusTree := match bp_create config [] with Ok t => t | _ => mkTree Anon [] config empty_stats [] end.
Definition ops : list bop :=
  [BulkPutSorted [(1, [1]); (1, [2]); (2, [3]); (3, block 1300); (4, block 1300); (5, block 1300); (6, block 1300)]; Op (Delete 3); Compact; Op Clear;
   Op (Put 10 (block 1300)); Op (Put 20 (block 1300)); Op (Put 30 (block 1300)); Op (Put 15 (block 1300)); Op (Put 300 []);
   Op (Replace 20 (block 5000)); Reopen; Op (Delete 10); Op (PutIfAbsent 15 [1]); Op (Update 30 (λ _, Some [9])); Flush;
   Op (Delete 20); Op (Put 20 (block 5000))]%Z.
Definition left_behind : list (Z * list Z) := [(15, block 1300); (20, block 5000); (30, [9])]%Z.
Definition answers : list (io (answer (list Z))) :=
  [Ok Done; Ok (Flag true); Ok Done; Ok Done; Ok Done; Ok Done; Ok Done; Ok Done; Err InvalidData; Ok (Previous (Some (block 1300))); Ok Done; Ok (Flag true); Ok (Flag false); Ok Done; Ok Done;
   Ok (Flag true); Ok Done].
Definition tree1 : BPlusTree := (run_ops bp_step ops tree0).1.
Lemma created : bp_create config [] = Ok tree0.
Proof. vm_compute. reflexivity. Qed.
Lemma ops_allowed : run_allowed ops tree0 = true.
Proof. vm_compute. reflexivity. Qed.
Lemma ops_expected : run_ops (bp_spec_step (K := Z)) ops [] = (by_bytes left_behind, answers).
Proof. vm_compute. reflexivity. Qed.
Lemma btree_refines_witness : bp_create config [] = Ok tree0 ∧ run_allowed ops tree0 = true ∧
  (run_ops bp_step ops tree0).2 = answers ∧ bp_get tree1 20%Z = Ok (Some (block 5000)) ∧ bp_contains tree1 10%Z = Ok false ∧
  (∃ l : list (Z * list Z), bp_entries tree1 = Ok l ∧ by_bytes l = by_bytes left_behind) ∧ st_leaf_pages (bp_stats tree1) = 1%Z.
Proof.
  split; [exact created|]. split; [exact ops_allowed|].
  pose proof (btree_refines config ops tree0 created ops_allowed) as Hr. rewrite ops_expected in Hr. unfold tree1.
  assert (st_leaf_pages (bp_stats (run_ops bp_step ops tree0).1) = 1%Z) as Hl by (vm_compute; reflexivity).
  destruct (run_ops bp_step ops tree0) as [t rs]. destruct Hr as (He & _ & _ & _ & Hg & Hen). simpl in Hl |- *.
  split; [exact He|]. split; [exact (proj1 (Hg 20%Z))|]. split; [exact (proj2 (Hg 10%Z))|]. split; [exact Hen|exact Hl].
Defined.
Lemma tree1_serves : ∃ l : list (Z * list Z), serves tree1 l ∧ by_bytes l = by_bytes left_behind.
Proof.
  pose proof (created_run config ops tree0 created ops_allowed) as Hh. rewrite ops_expected in Hh. exact (holds_serves _ _ Hh).
Qed.
Lemma btree_reads_witness : ∃ l : list (Z * list Z), serves tree1 l ∧ bp_entries tree1 = Ok l ∧ bp_entries_rev tree1 = Ok (rev l) ∧ length l = 3 ∧
  bp_range_rev tree1 15%Z 30%Z = Ok (rev (range_of 15%Z 30%Z l)).
Proof.
  destruct tree1_serves as (l & Hs & E). exists l. destruct (btree_reads tree1 l Hs) as (_ & _ & _ & _ & _ & He & Hv & _ & _ & Hr).
  split; [exact Hs|]. split; [exact He|]. split; [exact Hv|]. split; [|exact (proj2 (Hr 15%Z 30%Z))].
  apply (f_equal length) in E. unfold by_bytes in E. rewrite !length_map in E. exact E.
Defined.
Lemma btree_shape_witness : bp_create config [] = Ok tree0 ∧ run_allowed ops tree0 = true ∧
  ∃ A T, phys tree1 A ∧ tree_in A T ∧ NoDup (tree_pages T) ∧ Z.of_nat (length (stored T)) = 3%Z.
Proof.
  split; [exact created|]. split; [exact ops_allowed|].
  destruct (btree_shape config ops tree0 created ops_allowed) as (A & T & Hp & Ht & _ & Hn & _ & Hc).
  exists A, T. split; [exact Hp|]. split; [exact Ht|]. split; [exact Hn|].
  assert (st_entries (bp_stats tree1) = 3%Z) as E by (vm_compute; reflexivity). unfold tree1 in E. rewrite E in Hc. exact Hc.
Defined.
Lemma btree_loops_end_witness : ∃ l : list (Z * list Z), serves tree1 l ∧ ∃ r first, root tree1 = Ok r ∧
  (∀ fuel, st_pages (bp_stats tree1) ≤ fuel → first_leaf_from fuel tree1 r = Ok first).
Proof.
  destruct tree1_serves as (l & Hs & _). exists l. split; [exact Hs|]. destruct (btree_loops_end tree1 l Hs) as (r & first & Hr & Hf & _).
  exists r, first. split; [exact Hr|exact Hf].
Defined.
(** A value of 4000 bytes put between two of 1990: the left half of the split
    does not fit its page.  The put panics, and the entry behind is gone. *)
Definition wide_ops : list bop := [Op (Put 1 (block 1990)); Op (Put 3 (block 1990))]%Z.
Definition wide : BPlusTree := (run_ops bp_step wide_ops tree0).1.
Lemma leaf_split_overflows : bp_get wide 3%Z = Ok (Some (block 1990)) ∧ (bp_put 2%Z (block 4000) wide).2 = Panic ∧
  bp_get (V := list Z) (bp_put 2%Z (block 4000) wide).1 3%Z = Ok None.
Proof. vm_compute. split_and!; reflexivity. Qed.
End TreeRun.

(** Keys of 992 bytes, put in ascending order, until the root splits: it
    lifts a separator truncated between its neighbours, below which keys of
    the left half remain. *)
Module SplitRun.
#[local] Instance key_codec : Codec (list Z) := string_codec.
#[local] Abbreviation bop := (bop (K := list Z) (V := list Z)).
Definition long_key (n : Z) : list Z := replicate 990 1%Z ++ [n / 9; n mod 9]%Z.
Definition puts (n : nat) : list bop := map (λ i, Op (Put (long_key (Z.of_nat i)) [])) (seq 0 n).
Definition grown (n : nat) : BPlusTree := (run_ops bp_step (puts n) TreeRun.tree0).1.
Lemma root_split_hides : let t := grown 24 in st_entries (bp_stats t) = 24%Z ∧
  List.filter (λ i, negb (or_else true (bp_contains t (long_key (Z.of_nat i))))) (seq 0 24) = [9; 10; 11].
Proof. vm_compute. split; reflexivity. Qed.
End SplitRun.
