(* ===== verification/WitnessEngines.v ===== *)
(** * Storage engines, evaluated *)
From stdpp Require Import base numbers option sorting list.
From S2P Require Import Prelude Order BTreeMap Backend MapBackend Serdes Engine SkipList SkipListLaws SkipListBackend SkipListReads SkipListBulk Mmap KeyDir KeyDirLog KeyDirOps KeyDirReplay KeyDirBackend KeyDirStore.

(** A bounded skip list with two entries, filled and emptied in bulk. *)
Module SkipRun.
Import SkipList.
Definition items : list (Z * Z) := [(1, 10); (3, 30); (3, 31); (7, 70)]%Z.
Definition start : SkipList Z Z := (sl_put 3%Z 3%Z (sl_put 5%Z 50%Z (new (Some 4) 17)).1).1.
Lemma start_wf : sl_wf start.
Proof. apply sl_put_wf, sl_put_wf, sl_new_wf. Qed.
Lemma items_sorted : key_sorted items.
Proof. repeat (constructor; [|repeat (constructor; [done|]); constructor]). constructor. Qed.
Lemma keys_ok : keys_ascend [0; 3; 5; 9]%Z.
Proof. repeat (constructor; [|repeat (constructor; [done|]); constructor]). constructor. Qed.
Lemma skiplist_bulk_witness : sl_bulk_put_sorted items start = bulk_put items start ∧
  sl_bulk_delete_sorted [0; 3; 5; 9]%Z start = bulk_delete [0; 3; 5; 9]%Z start ∧
  sl_iter (sl_bulk_put_sorted items start).1 = Ok [(1, 10); (3, 31); (5, 50); (7, 70)]%Z ∧
  sl_iter (sl_bulk_delete_sorted [0; 3; 5; 9]%Z start).1 = Ok [].
Proof.
  split; [exact (proj1 (skiplist_bulk start items [] start_wf) items_sorted)|].
  split; [exact (proj2 (skiplist_bulk start [] [0; 3; 5; 9]%Z start_wf) keys_ok)|].
  split; vm_compute; reflexivity.
Defined.
Definition writes : list (op Z Z) := [Put 3 30; Put 5 50; PutIfAbsent 3 31; Replace 5 51; Delete 3; Put 1 10; Put 7 70]%Z.
Definition kept : btree Z Z := [(1, 10); (5, 51)]%Z.
Definition written_answers : list (io (answer Z)) :=
  [Ok Done; Ok Done; Ok (Flag false); Ok (Previous (Some 50%Z)); Ok (Flag true); Ok Done; Err StorageFull].
Lemma writes_expected : run_ops (spec_step (Some 2)) writes ([] : btree Z Z) = (kept, written_answers).
Proof. vm_compute. reflexivity. Qed.
Lemma skiplist_refines_witness : let (s, answers) := run_ops sl_step writes (new (Some 2) 17) in
  answers = written_answers ∧ sl_iter s = Ok kept ∧ sl_range_rev s 1%Z 9%Z = Ok [(5, 51); (1, 10)]%Z.
Proof.
  pose proof (skiplist_refines (Some 2) 17 writes) as Hr. rewrite writes_expected in Hr.
  destruct (run_ops sl_step writes (new (Some 2) 17)) as [s answers].
  destruct Hr as (Ha & _ & _ & _ & Hi & _ & _ & _ & _ & Hr). split; [exact Ha|]. split; [exact Hi|].
  destruct (Hr 1%Z 9%Z) as [_ Hrev]. exact Hrev.
Defined.
End SkipRun.

(** A KeyDir of bytes: written to, compacted, reopened, and with system calls
    that fail. *)
Module KeyDirRun.
Import KeyDir.
#[local] Instance codec : Codec Z := byte_codec.
#[local] Instance lawful : LawfulCodec Z := byte_codec_lawful.
Definition half : F64.f64 := F64.div F64.one (F64.of_u64 2).
Definition config : KeyDirConfig := mkConfig 32 half.
Definition store0 : KeyDir Z := match kd_create config [] with Ok d => d | _ => mkKeyDir [] Anon [] config 0 0 [] end.
Definition ops : list (kop (K:=Z) (V:=Z)) :=
  [Op (Put 1 10); Op (Put 2 20); Op (Replace 1 11); Op (Put 300 1); Reopen; Op (Delete 2); Compact; Op (PutIfAbsent 3 30)]%Z.
Definition store1 : KeyDir Z := (run_ops (V:=Z) kd_run_step ops store0).1.
Definition contents1 : btree Z Z := [(1, 11); (3, 30)]%Z.
Definition answers1 : list (io (answer Z)) :=
  [Ok Done; Ok Done; Ok (Previous (Some 10%Z)); Err InvalidData; Ok Done; Ok (Flag true); Ok Done; Ok (Flag true)].
Lemma room : 8 ≤ initial_capacity config.
Proof. unfold config. simpl. lia. Qed.
Lemma expected1 : run_ops (V:=Z) (kd_spec_step (K:=Z)) ops [] = (contents1, answers1).
Proof. vm_compute. reflexivity. Qed.
Lemma store1_stores : stores store1 contents1.
Proof.
  destruct (create_spec (V:=Z) config room) as (d0 & Hd0 & Hs & Hos & _).
  assert (store0 = d0) as E by (unfold store0; by rewrite Hd0).
  pose proof (run_agree_kd ops d0 [] Hs Hos I) as Hr. rewrite <- E in Hr. unfold store1.
  rewrite expected1 in Hr. destruct (run_ops kd_run_step ops store0) as [d rs]. apply Hr.
Qed.
Lemma keydir_refines_witness : 8 ≤ initial_capacity config ∧ ∃ d0, kd_create config [] = Ok d0 ∧
  let (d, rs) := run_ops (V:=Z) kd_run_step ops d0 in rs = answers1 ∧
  ∀ k, kd_get d k = Ok (bt_get k contents1) ∧ kd_contains d k = bt_contains k contents1.
Proof.
  split; [exact room|]. destruct (keydir_refines (V:=Z) config ops room) as (d0 & Hd0 & Hr). exists d0.
  split; [exact Hd0|]. rewrite expected1 in Hr. destruct (run_ops kd_run_step ops d0) as [d rs].
  destruct Hr as (Heq & _ & _ & _ & Hg & _). split; [exact Heq|exact Hg].
Defined.
(** The same store, the next system calls failing. *)
Definition failing (os : list (option io_error)) (d : KeyDir Z) : KeyDir Z := set_os os d.
Lemma failing_stores os : stores (failing os store1) contents1.
Proof. apply stores_os, store1_stores. Qed.
Definition disk_full := Some StorageFull.
Lemma keydir_faults_witness : stores (failing [disk_full] store1) contents1 ∧
  is_ok (kd_step (Put 7 70)%Z (failing [disk_full] store1)).2 = false ∧
  ∃ d2, kd_open (kd_drop (kd_step (Put 7 70)%Z (failing [disk_full] store1)).1) config [] = Ok d2 ∧
    (stores d2 contents1 ∨ stores d2 (bt_insert 7 70 contents1)%Z).
Proof.
  split; [apply failing_stores|].
  assert (is_ok (kd_step (Put 7 70)%Z (failing [disk_full] store1)).2 = false) as He by (vm_compute; reflexivity).
  split; [exact He|].
  assert (kd_config (kd_step (V:=Z) (Put 7 70)%Z (failing [disk_full] store1)).1 = config) as Hc by (vm_compute; reflexivity).
  pose proof (keydir_faults (Put 7 70)%Z (failing [disk_full] store1) contents1 (failing_stores _)) as Hf.
  rewrite <- Hc. destruct (kd_step (Put 7 70)%Z (failing [disk_full] store1)) as [d' r].
  exact (proj2 (proj2 Hf) He).
Defined.
Lemma keydir_compaction_witness : stores store1 contents1 ∧ kd_os store1 = [] ∧
  (let (d', r) := kd_compact store1 in
    r = Ok tt ∧ stores d' contents1 ∧ kd_dead_bytes d' = 0 ∧ kd_data_size d' = HEADER_SIZE + total_size (kd_index d') ∧
    length (kd_file d') = Nat.max (kd_data_size d' + 4) (initial_capacity (kd_config store1))).
Proof.
  assert (kd_os store1 = []) as Hos by (vm_compute; reflexivity). split; [apply store1_stores|]. split; [exact Hos|].
  exact (proj1 (keydir_compaction store1 contents1 store1_stores) Hos).
Defined.
(** A delete whose tombstone cannot be written has already left the index:
    the running store has forgotten the entry, its file has not. *)
Lemma failed_delete_forgets :
  let d := (kd_delete 1%Z (failing [disk_full] store1)).1 in
  (kd_delete 1%Z (failing [disk_full] store1)).2 = Err StorageFull ∧ kd_get (V:=Z) d 1%Z = Ok None ∧
  rmap (λ d2, kd_get (V:=Z) d2 1%Z) (kd_open (kd_drop d) config []) = Ok (Ok (Some 11%Z)).
Proof. vm_compute. split_and!; reflexivity. Qed.
(** A compaction that fails after it gave up its mapping leaves a store whose
    reads panic. *)
Lemma failed_compaction_panics :
  let (d, r) := kd_compact (failing [None; disk_full] store1) in
  r = Err StorageFull ∧ kd_get (V:=Z) d 1%Z = Panic.
Proof. vm_compute. split; reflexivity. Qed.
End KeyDirRun.
